(* ===== verification/_CoqProject ===== *)
-Q . S2P
Prelude.v
Text.v
Chars.v
Core.v
Address.v
Instances.v
Codec.v
Clock.v
Lease.v
Wire.v
KeyringIndex.v
History.v
StoreSpec.v
DemoStore.v
Signature.v
Grant.v
GrantProofs.v
GrantWitness.v
Approvals.v
ApprovalProofs.v
ApprovalWitness.v
Protocol.v
Actions.v
ActionProofs.v
ActionWitness.v
Manifest.v
Service.v
ServiceSteps.v
ServiceProofs.v
ServiceGuarantees.v
ServiceWitness.v
Envelope.v
Automerge.v
Document.v
DocumentProofs.v
DocumentAtomic.v
Database.v
Policy.v
Factor.v
Metadata.v
Seal.v
SealProofs.v
SealCreation.v
SealWitness.v
Worker.v
WorkerReads.v
WorkerCommit.v
WorkerViews.v
WorkerStore.v
Startup.v
StartupProofs.v
StartupGuarantees.v
Durability.v
WorkerWitness.v
StartupWitness.v
Generator.v
Website.v
Totp.v
Personal.v
PersonalLegacy.v
Replica.v
PersonalStore.v
PersonalWitness.v
Archive.v
ArchiveProofs.v
SyncIdentity.v
SyncGroup.v
SyncMembers.v
SyncPairing.v
SyncPacket.v
SyncState.v
SyncDocument.v
SyncEdits.v
SyncWorker.v
SyncStore.v
SyncHistory.v
Spool.v
ServiceSync.v
SyncWitness.v
SyncStoreWitness.v
