(* ===== verification/Prelude.v ===== *)
(** * A vault for secrets, verified

    FactorSeal keeps secrets in an encrypted store behind a service that answers local
    processes.  A request names an action; the service checks that the vault is unsealed,
    that the request is fresh, that the caller holds a grant or an approval signed by the
    device, runs the action on the store, and releases the answer only while all of that
    still holds.  The store encrypts one document per partition, signs a manifest of all of
    them, and verifies the manifest, the heads and the snapshots whenever it starts and
    whenever it reads.  This library models those parts from the Rust sources and proves
    what makes them correct.

    ** Parts and files (sources under src/src/vault unless a path is given)

    - [Prelude]: results, fixed-width integers as [Z], byte strings and their framings, the
      iterator functions of the standard library, tactics, hints.  [Text]: UTF-8, pieces,
      spaces, case and order of strings as the standard library has them.  [Core]: errors, document
      kinds and the state and error monad (mod.rs).  [Address]: secret addresses, their
      validation and storage keys (mod.rs).  [Instances]: executable digests, encodings and
      serializers for the examples.
    - [Clock]: the request clock (protocol/service/time.rs).  [Lease]: the unseal lease and
      the replay window (protocol/lease.rs).
    - [Wire]: callers, actions and responses with their validation (protocol/wire.rs).
      [KeyringIndex]: portable keyring records (secret_service_data.rs).  [History]: the log
      of changes (history.rs).  [Protocol]: encoding, pages and limits.
    - [StoreSpec]: what the service calls on the store, as the class [VaultStore], and what
      the store promises, as the class [VaultStoreOk] over an abstract view that maps each
      document to its records.  [DemoStore] is a small instance of both.
    - [Signature] (signature.rs); [Grant], [GrantProofs], [GrantWitness]
      (protocol/grant.rs); [Approvals], [ApprovalProofs], [ApprovalWitness]
      (protocol/service/approvals.rs); [Actions], [ActionProofs], [ActionWitness]
      (protocol/service/actions.rs); [Service], [ServiceSteps], [ServiceProofs],
      [ServiceGuarantees], [ServiceWitness] (protocol/service.rs, service/state.rs,
      service/authorization.rs).  They are proved against [VaultStoreOk].
    - [Manifest] (store/chain.rs, store/manifest.rs); [Envelope]
      (crypto.rs, algorithm.rs, keys.rs, envelope.rs); [Automerge],
      the document engine as a class with its laws and an instance in
      memory; [Document], [DocumentProofs], [DocumentAtomic]
      (document.rs, document/personal.rs, document/replicas.rs).
    - [Policy] (seal/policy.rs, seal/profile.rs, security/password.rs);
      [Factor] (seal/factor.rs); [Metadata] (seal/metadata.rs,
      seal/filesystem.rs, protection.rs); [Seal], [SealProofs], [SealCreation],
      [SealWitness] (seal.rs, seal/protectors.rs).  Their state is [Host]: the directory of
      one vault and the labels of the hardware keys that exist.
    - [Database] (store/database.rs and the schema of store/bootstrap.rs); [Worker],
      [WorkerReads], [WorkerCommit], [WorkerViews], [WorkerStore], [WorkerWitness]
      (store/worker.rs, worker/mutation.rs, worker/integrity.rs, worker/state.rs, store.rs);
      [Startup], [StartupProofs], [StartupGuarantees], [StartupWitness] (startup, the chain
      of the earlier schema and its conversion, in worker/state.rs and worker/integrity.rs);
      [Durability].
    - [Generator] (src/personal/generator.rs), [Website] (src/personal/website.rs); [Totp]
      (src/personal/totp.rs); [Personal]
      (src/personal.rs, src/personal/templates.rs); [PersonalLegacy]
      (src/personal/legacy.rs, legacy_revision.rs): passwords, websites, one-time passwords
      and items, their validation and their earlier form.  [Chars]: characters and the base64
      of the examples.  [Replica] (src/personal/replica.rs): the register of
      one item that devices change at the same time; [PersonalStore], [PersonalWitness]
      (document/personal.rs, document/replicas.rs): the catalog of a personal document and its
      conversion.  [Codec]: serializers for the examples.
    - [Archive], [ArchiveProofs] (archive.rs): the portable backup, its encrypted file, the
      conversion of its first version, and the export that reads a running vault through a
      client.
    - Sync between the devices of one user, under src/personal/sync: [SyncIdentity]
      (identity.rs), [SyncGroup], [SyncMembers] (authority.rs,
      authority/merge.rs), [SyncPairing] (pairing.rs), [SyncPacket] (packet.rs).
      [SyncState]: the state of one vault and the pairing commands
      that change it (store/worker/sync/pairing.rs).  [SyncDocument]: what a personal
      document keeps of sync (document/sync.rs); [SyncEdits]: edits of items between sync
      commands.  [SyncWorker]: the sync commands of the worker (store/worker/sync.rs), the
      function [personal_sync]; [SyncStore]: what each of them does to the stored document;
      [SyncHistory]: histories of commands and edits.  [Spool]: the directory of packets
      (spool.rs) and the private files in it (src/src/security/files.rs, regular.rs).
      [ServiceSync]: the sync operations of the service (protocol/service/sync.rs), which
      publish to a spool and apply one.  [SyncWitness], [SyncStoreWitness]: examples, the
      second with a whole worker beside a spool.

    ** State and effects

    Fallible functions return [result]; functions that change state are in the monad [SM],
    which returns the new state with the result.  The service state is the record
    [ServiceState]; the store is a parameter of the service.  Other threads that run while a
    request waits are an environment that steps the state between wakeups.  The worker state
    is the record [StoreWorker]: the tables of the database, the verified state, the device
    and its secrets.  Each call to the database consumes one step of an environment that
    decides whether it fails; a transaction whose commit fails is rolled back.  Sealing, lease expiry and memory
    pressure come from the same environment, so the theorems hold for every schedule of
    failures.  The spool is a directory of its own, [SpoolDir], each of whose system calls may
    fail by the same kind of environment; every name in it records whether its content and its
    entry reached the disk.  A crash keeps what reached the disk and may change anything else.
    The client of an export is a class; the state it changes is that of the vault at its other
    end, which others may change between two requests.

    Some things are simpler than in the code: points of monotonic time are unbounded integers,
    so their sums do not overflow; a signature is determined by its payload, and only its
    verification is used; the locked buffers and keys of an archive can always be had;
    the table that a conversion creates is not there before.

    Code outside the repository is a parameter: SHA-256, HMAC, AES-256-GCM, ML-DSA-65, base64,
    serde, Automerge and random bytes are classes, with the laws used of them as separate
    classes ([Sha256Ok], [Aes256GcmOk], [SerdeOk], [AutomergeOk] and so on), each with an
    instance.  Binding theorems do not assume that digests are injective: they conclude that
    two inputs are equal or that two named strings collide.

    ** What is proved

    - No answer leaves the service without authority that still holds when it leaves, none
      while the vault is sealed or the lease expired; replayed requests change nothing; no
      request panics ([ServiceGuarantees]).
    - Grants authorize exactly their caller, target and permission, expire, are spent once if
      single-use, and are gone when revoked ([GrantProofs]); approvals need a signature of the
      device and grant the operation they ask for and nothing else, are rate-limited and bounded and survive a restart ([ApprovalProofs]).
    - Actions read what was stored, change groups atomically and hide other callers' history
      ([ActionProofs]); requests decode to what was encoded and pages are complete
      ([Protocol]).
    - The worker refines the abstract store ([WorkerStore]); what it commits is accepted by
      the next startup, and a revision that has not changed stands for a vault in which nothing
      was stored ([Durability]); a database is accepted only under the device's
      signature, and the manifest determines every document ([StartupGuarantees],
      [Manifest]); ciphertexts are bound to their document and what was sealed opens
      ([Envelope]); a failed group of changes is undone ([DocumentAtomic]).
    - A vault opens only with every factor that a configured group lists, when the stored
      groups are in the order that their constructor gives them, and is destroyed only by
      whoever can open it ([SealProofs]); what is created opens, a failed creation leaves no
      key, file or directory except the empty directories it made on the way, or reports that
      it could not be undone, staged metadata is published whole ([SealCreation]); groups, policies and
      metadata that are accepted are well formed ([Policy], [Metadata]).
    - A personal item stays valid under every edit and is converted back to its earlier form
      ([Personal], [PersonalLegacy]); a stored one-time password makes the same
      codes ([Totp]); an update is accepted only as the bounded register of one item, in which a
      deletion only settles a conflict, and the conversion of an old catalog is complete ([Replica], [PersonalStore]).
    - A verified group of devices is authorized certificate by certificate; what is accepted
      as its extension contains it; merged groups verify and are accepted by both sides
      ([SyncGroup], [SyncMembers]).  Requests are bound to one invitation
      ([SyncPairing]); packets are bound to one membership and open for every member
      ([SyncPacket]).  Over all pairing commands the pinned group is never rolled back
      and grows only by approval or accepted extension; an invited device joins
      ([SyncState]).
    - In every history of sync commands and edits, whichever database calls fail, the stored
      group is never rolled back, an item that was changed waits until a packet of what it
      holds now was stored or an update that holds as much was received, a packet is received
      once, and it changes a vault only when a member signed it ([SyncHistory]).
    - A packet that was put in a spool survives later puts and crashes, and the spool stays
      within its quota ([Spool]).  Publishing ticks an item off only when a packet of the
      whole of it is on disk; applying a page leaves a receipt for every packet that is not
      counted as rejected ([ServiceSync]).
    - An archive opens to what was written, under its own header; converting the first version
      loses nothing; an export from a vault that answers each request from one moment, under
      revisions that name contents, is one state of it, and it ends ([ArchiveProofs]).
      [largest_archives_unreadable] shows that the bounds of writer and reader do not agree
      for the sixteen largest payloads.

    Loops are structural.  [walk_chain], over the commits of the earlier schema, the pages of
    an export and the waiting loops of the service are not: the first has one more round than
    there are commits, and [chain_walk_terminates] shows that more rounds change nothing; the
    second is given a number of pages, and [quiet_export_completes] shows that one more than
    there are entries is enough while the vault does not change; the third follow the list of
    wakeups the environment supplies.

    ** Not modelled

    The conversion from schema 3 and the migrations of earlier document formats; bootstrap of
    the files; the native entry points of sealing, which call the modelled ones with the
    adapter of the platform; the import
    formats; the network of sync; the branches for Windows of the spool and the private files;
    the browser actions of the service; transports, D-Bus, the command line, the desktop and
    mobile applications, process isolation and memory protection.  Threads are reduced to the
    environment above; concurrent readers of one database file are not modelled. *)

(** Shared vocabulary of the development: the Rust result type and its monad,
    fixed-width integers kept as [Z], byte strings with the big-endian and
    length-prefixed framings the vault hashes, the standard-library iterator
    functions the sources use, and the tactics and hint databases of the
    components. *)
From Stdlib Require Import ZArith Lia Bool Strings.Byte.
From stdpp Require Import base gmap strings list numbers sorting.

Declare Scope vault_scope.
Delimit Scope vault_scope with vault.
Open Scope Z_scope.

(** ** Results *)

(** [std::result::Result]. *)
Inductive result (E A : Type) : Type :=
| Ok (a : A)
| Err (e : E).
Arguments Ok {E A} a.
Arguments Err {E A} e.

#[export] Instance result_ret E : MRet (result E) := λ A a, Ok a.
#[export] Instance result_bind E : MBind (result E) := λ A B f m,
  match m with Ok a => f a | Err e => Err e end.
#[export] Instance result_fmap E : FMap (result E) := λ A B f m,
  match m with Ok a => Ok (f a) | Err e => Err e end.

Definition map_err {E F A} (f : E → F) (m : result E A) : result F A :=
  match m with Ok a => Ok a | Err e => Err (f e) end.

Definition ok_or {E A} (e : E) (o : option A) : result E A :=
  match o with Some a => Ok a | None => Err e end.

Definition is_ok {E A} (m : result E A) : bool :=
  match m with Ok _ => true | Err _ => false end.
Lemma is_ok_Ok {E A} (r : result E A) : is_ok r = true → ∃ a, r = Ok a.
Proof. destruct r as [a|]; [by exists a|done]. Qed.

Definition ok {E A} (m : result E A) : option A :=
  match m with Ok a => Some a | Err _ => None end.

(** [if cond { return Err(e) }] followed by the rest of the body. *)
Definition fail_if {E} (c : bool) (e : E) : result E () :=
  if c then Err e else Ok tt.

(** [iter.map(f).collect::<Result<Vec<_>, _>>()]: the first error wins. *)
Fixpoint try_collect {E A B} (f : A → result E B) (l : list A) : result E (list B) :=
  match l with
  | [] => Ok []
  | x :: l => y ← f x; ys ← try_collect f l; Ok (y :: ys)
  end.

(** [Option::<Result<T, E>>::transpose] after a [map]. *)
Definition opt_try {E A B} (f : A → result E B) (o : option A) : result E (option B) :=
  match o with
  | None => Ok None
  | Some a => b ← f a; Ok (Some b)
  end.

Lemma bind_Ok {E A B} (m : result E A) (f : A → result E B) b :
  (m ≫= f) = Ok b ↔ ∃ a, m = Ok a ∧ f a = Ok b.
Proof. destruct m; unfold mbind, result_bind; naive_solver. Qed.

(** Sequencing after a step that returns nothing. *)
Lemma then_Ok {E B} (m : result E ()) (k : result E B) b :
  (_ ← m; k) = Ok b ↔ m = Ok tt ∧ k = Ok b.
Proof. rewrite bind_Ok. split; [intros ([] & ? & ?); done|intros [? ?]; by exists tt]. Qed.

Lemma bind_Err {E A B} (m : result E A) (f : A → result E B) e :
  (m ≫= f) = Err e ↔ m = Err e ∨ ∃ a, m = Ok a ∧ f a = Err e.
Proof. destruct m; unfold mbind, result_bind; naive_solver. Qed.

Lemma fail_if_Ok {E} c (e : E) u : fail_if c e = Ok u ↔ c = false.
Proof. destruct c, u; cbn; naive_solver. Qed.

Lemma fail_if_Err {E} c (e e' : E) : fail_if c e = Err e' ↔ c = true ∧ e = e'.
Proof. destruct c; cbn; naive_solver. Qed.

Lemma map_err_Ok {E F A} (f : E → F) (m : result E A) a :
  map_err f m = Ok a ↔ m = Ok a.
Proof. destruct m; cbn; naive_solver. Qed.

Lemma ok_or_Ok {E A} (e : E) (o : option A) a : ok_or e o = Ok a ↔ o = Some a.
Proof. destruct o; cbn; naive_solver. Qed.

Lemma ok_or_Err {E A} (e e' : E) (o : option A) :
  ok_or e o = Err e' ↔ o = None ∧ e = e'.
Proof. destruct o; cbn; naive_solver. Qed.

Lemma opt_try_Ok {E A B} (f : A → result E B) o r :
  opt_try f o = Ok r ↔
    (o = None ∧ r = None) ∨ ∃ a b, o = Some a ∧ f a = Ok b ∧ r = Some b.
Proof.
  destruct o as [a|]; cbn; [|naive_solver].
  rewrite bind_Ok. naive_solver.
Qed.

Lemma try_collect_Ok {E A B} (f : A → result E B) l r :
  try_collect f l = Ok r ↔ Forall2 (λ x y, f x = Ok y) l r.
Proof.
  revert r; induction l as [|x l IH]; intros r; cbn.
  - split; [intros [= <-]; constructor | by inversion 1].
  - rewrite bind_Ok. setoid_rewrite bind_Ok. setoid_rewrite IH. split.
    + intros (y & Hy & ys & Hys & [= <-]). by constructor.
    + inversion 1; subst. eauto 6.
Qed.

(** Fold over a list, stopping at the first error. *)
Fixpoint try_fold {E A B} (f : B → A → result E B) (acc : B) (l : list A) : result E B :=
  match l with
  | [] => Ok acc
  | x :: l => acc ← f acc x; try_fold f acc l
  end.

(** An invariant of the fold that every element extends. *)
Lemma try_fold_invariant {E A B} (f : B → A → result E B) (P : list A → B → Prop) l0 acc l r :
  (∀ l b x b', P l b → f b x = Ok b' → P (l ++ [x]) b') →
  P l0 acc → try_fold f acc l = Ok r → P (l0 ++ l) r.
Proof.
  intros Hstep. revert l0 acc. induction l as [|x l IH]; intros l0 acc HP Hf; cbn in Hf.
  - injection Hf as <-. by rewrite app_nil_r.
  - apply bind_Ok in Hf as (b & Hb & Hf). rewrite cons_middle, app_assoc. eapply IH; eauto.
Qed.

Lemma try_collect_elem {E A B} (f : A → result E B) l r y :
  try_collect f l = Ok r → y ∈ r → ∃ x, x ∈ l ∧ f x = Ok y.
Proof.
  rewrite try_collect_Ok. intros Hall Hy.
  apply list_elem_of_lookup in Hy as [i Hi].
  destruct (Forall2_lookup_r _ _ _ _ _ Hall Hi) as (x & Hx & ?).
  exists x. split; [by eapply list_elem_of_lookup_2|done].
Qed.

Lemma try_collect_image {E A B} (f : A → result E B) l r x :
  try_collect f l = Ok r → x ∈ l → ∃ y, y ∈ r ∧ f x = Ok y.
Proof.
  rewrite try_collect_Ok. intros Hall Hx.
  apply list_elem_of_lookup in Hx as [i Hi].
  destruct (Forall2_lookup_l _ _ _ _ _ Hall Hi) as (y & Hy & ?).
  exists y. split; [by eapply list_elem_of_lookup_2|done].
Qed.

(** Decompose a successful (or failed) sequence of results in a hypothesis. *)
Ltac inv_ok :=
  repeat match goal with
  | H : Ok _ = Ok _ |- _ => injection H as H; try subst
  | H : Err _ = Err _ |- _ => injection H as H; try subst
  | H : Ok _ = Err _ |- _ => discriminate H
  | H : Err _ = Ok _ |- _ => discriminate H
  | H : mret _ = Ok _ |- _ => unfold mret, result_ret in H
  | H : (_ ≫= _) = Ok _ |- _ =>
      let a := fresh "a" in let Ha := fresh "Ha" in
      apply bind_Ok in H; destruct H as (a & Ha & H); cbv beta in H
  | H : fail_if _ _ = Ok _ |- _ => apply fail_if_Ok in H
  | H : map_err _ _ = Ok _ |- _ => apply map_err_Ok in H
  | H : ok_or _ _ = Ok _ |- _ => apply ok_or_Ok in H
  | H : _ ∧ _ |- _ => destruct H
  | H : () |- _ => destruct H
  end.

(** Turn boolean tests in hypotheses and the goal into propositions. *)
Ltac bool_prop :=
  repeat (rewrite ?andb_true_iff, ?andb_false_iff, ?orb_true_iff, ?orb_false_iff,
    ?negb_true_iff, ?negb_false_iff, ?Z.leb_le, ?Z.leb_gt, ?Z.ltb_lt, ?Z.ltb_ge,
    ?Z.eqb_eq, ?Z.eqb_neq, ?Nat.leb_le, ?Nat.leb_gt, ?Nat.ltb_lt, ?Nat.ltb_ge,
    ?Nat.eqb_eq, ?Nat.eqb_neq, ?bool_decide_eq_true, ?bool_decide_eq_false in * ).

(** ** Fixed-width integers *)

Definition U64_MAX : Z := 2 ^ 64 - 1.
Definition is_u64 (n : Z) : Prop := 0 ≤ n ≤ U64_MAX.

(** [u64::checked_add], [saturating_add], [saturating_sub], [wrapping_add]. *)
Definition u64_checked_add (a b : Z) : option Z :=
  if a + b <=? U64_MAX then Some (a + b) else None.
Definition u64_saturating_add (a b : Z) : Z := Z.min (a + b) U64_MAX.
Definition u64_saturating_sub (a b : Z) : Z := Z.max (a - b) 0.
Definition u64_wrapping_add (a b : Z) : Z := (a + b) mod 2 ^ 64.

Lemma u64_checked_add_Some a b c :
  u64_checked_add a b = Some c ↔ c = a + b ∧ a + b ≤ U64_MAX.
Proof.
  unfold u64_checked_add. destruct (Z.leb_spec (a + b) U64_MAX); naive_solver lia.
Qed.

Lemma u64_checked_add_None a b : u64_checked_add a b = None ↔ U64_MAX < a + b.
Proof.
  unfold u64_checked_add. destruct (Z.leb_spec (a + b) U64_MAX); naive_solver lia.
Qed.

(** ** Byte strings *)

Abbreviation bytes := (list Byte.byte).

#[export] Instance byte_eq_dec : EqDecision Byte.byte := Byte.byte_eq_dec.
#[export] Program Instance byte_countable : Countable Byte.byte := {|
  encode b := encode (A:=N) (Byte.to_N b);
  decode p := decode (A:=N) p ≫= Byte.of_N
|}.
Next Obligation.
  intros b. cbn beta. rewrite (decode_encode (Byte.to_N b)). apply Byte.of_to_N.
Qed.

Definition byte_of_Z (z : Z) : Byte.byte :=
  default Byte.x00 (Byte.of_N (Z.to_N (z mod 256))).

Lemma byte_of_Z_spec z : Z.of_N (Byte.to_N (byte_of_Z z)) = z mod 256.
Proof.
  unfold byte_of_Z. pose proof (Z.mod_pos_bound z 256 ltac:(lia)) as Hb.
  destruct (Byte.of_N (Z.to_N (z mod 256))) as [b|] eqn:Hof; cbn.
  - apply Byte.to_of_N in Hof. rewrite Hof. lia.
  - apply Byte.of_N_None_iff in Hof. lia.
Qed.

(** [to_be_bytes] of an [n]-byte unsigned integer. *)
Fixpoint be_bytes (n : nat) (z : Z) : bytes :=
  match n with
  | O => []
  | S n => be_bytes n (z / 256) ++ [byte_of_Z z]
  end.

Lemma length_be_bytes n z : length (be_bytes n z) = n.
Proof. revert z; induction n; intros z; cbn; [done|]. rewrite length_app, IHn. cbn. lia. Qed.

Lemma be_bytes_inj n x y :
  0 ≤ x < 256 ^ Z.of_nat n → 0 ≤ y < 256 ^ Z.of_nat n →
  be_bytes n x = be_bytes n y → x = y.
Proof.
  revert x y; induction n as [|n IH]; intros x y Hx Hy Heq; [cbn in *; lia|].
  rewrite Nat2Z.inj_succ, Z.pow_succ_r in Hx, Hy by lia.
  cbn in Heq. apply app_inj_2 in Heq as [Hhi Hlo]; [|done].
  injection Hlo as Hlo.
  apply IH in Hhi; [| split; [apply Z.div_pos; lia | apply Z.div_lt_upper_bound; lia] ..].
  apply (f_equal (λ b, Z.of_N (Byte.to_N b))) in Hlo.
  rewrite !byte_of_Z_spec in Hlo.
  rewrite (Z.div_mod x 256), (Z.div_mod y 256) by lia. congruence.
Qed.

(** [u32::from_be_bytes] and its like. *)
Definition from_be_bytes (b : bytes) : Z := foldl (λ z x, 256 * z + Z.of_N (Byte.to_N x)) 0 b.

Lemma from_be_bytes_be n z : 0 ≤ z < 256 ^ Z.of_nat n → from_be_bytes (be_bytes n z) = z.
Proof.
  revert z; induction n as [|n IH]; intros z Hz; [cbn in *; lia|].
  rewrite Nat2Z.inj_succ, Z.pow_succ_r in Hz by lia. unfold from_be_bytes in *. cbn [be_bytes].
  rewrite foldl_app, IH; cbn; [|split; [apply Z.div_pos; lia|apply Z.div_lt_upper_bound; lia]].
  rewrite byte_of_Z_spec. pose proof (Z.div_mod z 256). lia.
Qed.

(** A slice of machine memory: its length fits a [u64]. *)
Definition fits64 (b : bytes) : Prop := Z.of_nat (length b) < 2 ^ 64.

Lemma fits64_lt b : Z.of_nat (length b) < 2 ^ 64 → fits64 b.
Proof. done. Qed.

(** [(bytes.len() as u64).to_be_bytes()] followed by the bytes, the framing
    every digest of variable-length input uses. *)
Definition framed (b : bytes) : bytes := be_bytes 8 (Z.of_nat (length b)) ++ b.

Lemma framed_app_inj a b x y :
  fits64 a → fits64 b → framed a ++ x = framed b ++ y → a = b ∧ x = y.
Proof.
  unfold fits64, framed. intros Ha Hb Heq. rewrite <- !app_assoc in Heq.
  apply app_inj_1 in Heq as [Hlen Heq]; [|by rewrite !length_be_bytes].
  apply be_bytes_inj in Hlen; [| lia ..].
  by apply app_inj_1 in Heq; [|lia].
Qed.

Lemma framed_inj a b : fits64 a → fits64 b → framed a = framed b → a = b.
Proof.
  intros Ha Hb Heq. apply (framed_app_inj a b [] []); [done..|].
  by rewrite Heq.
Qed.

#[global] Opaque framed fits64.

(** Peel equal-length prefixes off an equation between concatenations. *)
Lemma app_inj_len {A} (a b x y : list A) :
  length a = length b → a ++ x = b ++ y → a = b ∧ x = y.
Proof. intros Hl Heq. by apply app_inj_1. Qed.

(** Cut a tag byte off both sides, without computing in the tails. *)
Lemma cons_inj_tail {A} (x y : A) l k : x :: l = y :: k → l = k.
Proof. congruence. Qed.

(** [str::as_bytes]. *)
Definition as_bytes (s : string) : bytes := String.list_byte_of_string s.
(** The text of bytes that are valid UTF-8. *)
Definition of_bytes (b : bytes) : string := String.string_of_list_byte b.

Lemma as_bytes_inj s t : as_bytes s = as_bytes t → s = t.
Proof.
  intros H. rewrite <- (String.string_of_list_byte_of_string s).
  rewrite <- (String.string_of_list_byte_of_string t). by f_equal.
Qed.

Lemma as_bytes_of_bytes b : as_bytes (of_bytes b) = b.
Proof. apply String.list_byte_of_string_of_list_byte. Qed.

(** [str::len]: the number of UTF-8 bytes. *)
Definition str_len (s : string) : Z := Z.of_nat (String.length s).

Lemma length_as_bytes s : length (as_bytes s) = String.length s.
Proof. unfold as_bytes. induction s as [|c s IH]; cbn; [done|]. f_equal. apply IH. Qed.
Lemma as_bytes_app s t : as_bytes (s +:+ t) = as_bytes s ++ as_bytes t.
Proof.
  induction s as [|c s IH]; [done|].
  change (Ascii.byte_of_ascii c :: as_bytes (s +:+ t)
    = Ascii.byte_of_ascii c :: (as_bytes s ++ as_bytes t)). by rewrite IH.
Qed.

(** ** Iterator adaptors of the standard library *)

(** [iter.position(p)]. *)
Fixpoint position {A} (p : A → bool) (l : list A) : option nat :=
  match l with
  | [] => None
  | x :: l => if p x then Some O else S <$> position p l
  end.

(** [iter.find(p)]. *)
Fixpoint find_first {A} (p : A → bool) (l : list A) : option A :=
  match l with
  | [] => None
  | x :: l => if p x then Some x else find_first p l
  end.

(** [vec.retain(p)] and [iter.filter(p)] keep the elements in order. *)
Fixpoint retain {A} (p : A → bool) (l : list A) : list A :=
  match l with
  | [] => []
  | x :: l => if p x then x :: retain p l else retain p l
  end.

(** [slice.windows(2).any(p)]. *)
Fixpoint any_window2 {A} (p : A → A → bool) (l : list A) : bool :=
  match l with
  | x :: l' => match l' with
               | y :: _ => p x y || any_window2 p l'
               | [] => false
               end
  | [] => false
  end.

(** [Option<u64>]-valued minimum, the [map_or(d, |cur| cur.min(d))] idiom. *)
Definition opt_min (o : option Z) (d : Z) : option Z :=
  Some (match o with Some c => Z.min c d | None => d end).

Lemma retain_filter {A} (p : A → bool) l : retain p l = filter (λ x, p x = true) l.
Proof.
  induction l as [|x l IH]; [done|]. rewrite filter_cons; cbn [retain]. rewrite IH.
  by destruct (p x).
Qed.

Lemma retain_app {A} (p : A → bool) l l' : retain p (l ++ l') = retain p l ++ retain p l'.
Proof. induction l as [|x l IH]; [done|]. cbn [app retain]. rewrite IH. by destruct (p x). Qed.

Lemma elem_of_retain {A} (p : A → bool) l x : x ∈ retain p l ↔ p x = true ∧ x ∈ l.
Proof. rewrite retain_filter. apply (list_elem_of_filter (λ x, p x = true)). Qed.

Lemma retain_sublist {A} (p : A → bool) l : sublist (retain p l) l.
Proof. induction l as [|x l IH]; cbn; [constructor|]. destruct (p x); by constructor. Qed.

Lemma length_retain {A} (p : A → bool) l : (length (retain p l) ≤ length l)%nat.
Proof. apply sublist_length, retain_sublist. Qed.

Lemma retain_Forall {A} (p : A → bool) l : Forall (λ x, p x = true) (retain p l).
Proof. apply Forall_forall. intros x Hx. by apply elem_of_retain in Hx as [? _]. Qed.

Lemma find_first_Some {A} (p : A → bool) l x :
  find_first p l = Some x → p x = true ∧ x ∈ l.
Proof.
  induction l as [|y l IH]; cbn; [done|]. destruct (p y) eqn:Hp.
  - intros [= <-]. split; [done|]. by left.
  - intros H. destruct (IH H). split; [done|]. by right.
Qed.

Lemma find_first_None {A} (p : A → bool) l :
  find_first p l = None ↔ ∀ x, x ∈ l → p x = false.
Proof.
  induction l as [|y l IH]; cbn; [split; [intros _ x Hx; by inversion Hx|done]|].
  destruct (p y) eqn:Hp; split.
  - done.
  - intros H. specialize (H y ltac:(by left)). congruence.
  - intros H x Hx. apply elem_of_cons in Hx as [->|Hx]; [done|]. by apply IH.
  - intros H. apply IH. intros x Hx. apply H. by right.
Qed.

Lemma position_Some {A} (p : A → bool) l i :
  position p l = Some i → ∃ x, l !! i = Some x ∧ p x = true.
Proof.
  revert i; induction l as [|y l IH]; intros i; cbn; [done|]. destruct (p y) eqn:Hp.
  - intros [= <-]. eauto.
  - destruct (position p l) as [j|]; cbn; [|done]. intros [= <-]. by apply IH.
Qed.

Lemma position_None {A} (p : A → bool) l :
  position p l = None ↔ ∀ x, x ∈ l → p x = false.
Proof.
  induction l as [|y l IH]; cbn; [split; [intros _ x Hx; by inversion Hx|done]|].
  destruct (p y) eqn:Hp; split.
  - done.
  - intros H. specialize (H y ltac:(by left)). congruence.
  - destruct (position p l) eqn:E; [done|]. intros _ x Hx.
    apply elem_of_cons in Hx as [->|Hx]; [done|]. by apply IH.
  - intros H. destruct IH as [_ IH]. rewrite IH; [done|].
    intros x Hx. apply H. by right.
Qed.

Lemma any_window2_false {A} (R : A → A → Prop) (p : A → A → bool) l :
  (∀ x y, p x y = false ↔ R x y) →
  any_window2 p l = false ↔ (∀ i x y, l !! i = Some x → l !! S i = Some y → R x y).
Proof.
  intros HR. induction l as [|x [|y l] IH]; cbn.
  - split; [by intros _ [|?]|done].
  - split; [by intros _ [|[]]|done].
  - cbn in IH. rewrite orb_false_iff, HR, IH. split.
    + intros [Hxy Hrest] [|i] a b; cbn; [by intros [= <-] [= <-]|apply Hrest].
    + intros H. split; [by apply (H O)|]. intros i a b. apply (H (S i)).
Qed.

(** ** Sorting *)

(** Order of Rust strings: lexicographic on bytes. *)
Fixpoint bytes_ltb (a b : bytes) : bool :=
  match a, b with
  | _, [] => false
  | [], _ :: _ => true
  | x :: a, y :: b =>
      (Byte.to_N x <? Byte.to_N y)%N
        || ((Byte.to_N x =? Byte.to_N y)%N && bytes_ltb a b)
  end.
Definition str_ltb (a b : string) : bool := bytes_ltb (as_bytes a) (as_bytes b).

Lemma bytes_ltb_irrefl a : bytes_ltb a a = false.
Proof. induction a as [|x a IH]; cbn; [done|]. by rewrite N.ltb_irrefl, N.eqb_refl, IH. Qed.

Lemma bytes_ltb_asym a b : bytes_ltb a b = true → bytes_ltb b a = false.
Proof.
  revert b; induction a as [|x a IH]; intros [|y b]; cbn; try done.
  rewrite orb_true_iff, andb_true_iff, orb_false_iff, andb_false_iff.
  rewrite !N.ltb_lt, !N.ltb_ge, !N.eqb_eq, !N.eqb_neq.
  intros [Hlt|[Heq Hlt]]; [split; [lia|left; lia]|]. split; [lia|]. right. by apply IH.
Qed.


(** [sort_by] and [sort_unstable_by] on a text key.  Equal keys keep their order. *)
Fixpoint insert_by {A} (f : A → string) (x : A) (l : list A) : list A :=
  match l with
  | [] => [x]
  | y :: l' => if str_ltb (f y) (f x) then y :: insert_by f x l' else x :: l
  end.
Definition sort_by {A} (f : A → string) (l : list A) : list A := foldr (insert_by f) [] l.

Lemma insert_by_perm {A} (f : A → string) x l : insert_by f x l ≡ₚ x :: l.
Proof.
  induction l as [|y l IH]; cbn; [done|]. destruct (str_ltb _ _); [|done].
  rewrite IH. apply Permutation_swap.
Qed.

Lemma sort_by_perm {A} (f : A → string) l : sort_by f l ≡ₚ l.
Proof. induction l as [|x l IH]; cbn; [done|]. by rewrite insert_by_perm, IH. Qed.

Create HintDb vault.
#[export] Hint Resolve length_be_bytes : vault.
#[export] Hint Rewrite @bind_Ok @fail_if_Ok @map_err_Ok @ok_or_Ok : vault.
#[export] Hint Rewrite length_be_bytes length_as_bytes : vault.
