(* ===== verification/Text.v ===== *)
(** Text as the standard library of Rust reads it: strings are valid UTF-8 bytes.  The
    functions on text that several components use: decoding of characters, [split],
    [trim], and the ASCII case conversions. *)
From Stdlib Require Import ZArith Lia Bool.
From stdpp Require Import base gmap strings list sorting.
From S2P Require Import Prelude.

(** ** Characters *)

(** [s.starts_with(c)]. *)
Definition starts_with (c : Byte.byte) (s : string) : bool :=
  match as_bytes s with b :: _ => bool_decide (b = c) | [] => false end.
(** [Path::is_absolute] on Unix: the path begins at the root. *)
Definition path_is_absolute (s : string) : bool := starts_with Byte.x2f s.
(** [u8::is_ascii_digit], [is_ascii_hexdigit], [is_ascii_alphanumeric]. *)
Definition byte_between (lo hi : N) (b : Byte.byte) : bool :=
  (lo <=? Byte.to_N b)%N && (Byte.to_N b <=? hi)%N.
Definition is_ascii_digit (b : Byte.byte) : bool := byte_between 48 57 b.
Definition is_ascii_hexdigit (b : Byte.byte) : bool :=
  is_ascii_digit b || byte_between 65 70 b || byte_between 97 102 b.
Definition is_ascii_alphanumeric (b : Byte.byte) : bool :=
  is_ascii_digit b || byte_between 65 90 b || byte_between 97 122 b.
(** [core::str::from_utf8]: sequences of one to four bytes, without overlong forms,
    surrogates and values past U+10FFFF. *)
Fixpoint utf8_valid (s : bytes) : bool :=
  match s with
  | [] => true
  | a :: s1 =>
      if byte_between 0 127 a then utf8_valid s1
      else match s1 with
      | [] => false
      | b :: s2 =>
          if byte_between 194 223 a then byte_between 128 191 b && utf8_valid s2
          else match s2 with
          | [] => false
          | c :: s3 =>
              if byte_between 224 239 a
              then byte_between (if byte_between 224 224 a then 160 else 128)
                     (if byte_between 237 237 a then 159 else 191) b
                   && byte_between 128 191 c && utf8_valid s3
              else match s3 with
              | [] => false
              | d :: s4 =>
                  byte_between 240 244 a
                  && byte_between (if byte_between 240 240 a then 144 else 128)
                       (if byte_between 244 244 a then 143 else 191) b
                  && byte_between 128 191 c && byte_between 128 191 d && utf8_valid s4
              end
          end
      end
  end.

(** [s.strip_prefix(p)]. *)
Fixpoint strip_prefix (p s : bytes) : option bytes :=
  match p, s with
  | [], _ => Some s
  | x :: p, y :: s => if bool_decide (x = y) then strip_prefix p s else None
  | _ :: _, [] => None
  end.

(** ** UTF-8 *)

Definition byte_Z (b : Byte.byte) : Z := Z.of_N (Byte.to_N b).

Definition in_span (low high n : Z) : bool := (low <=? n) && (n <=? high).
(** The value of a continuation byte. *)
Definition tail_bits (b : Byte.byte) : Z := Z.land (byte_Z b) 63.
Definition is_tail (b : Byte.byte) : bool := in_span 128 191 (byte_Z b).

(** The first character of well-formed UTF-8, and the rest. *)
Definition utf8_next (s : bytes) : option (Z * bytes) :=
  match s with
  | [] => None
  | b0 :: s1 =>
      let z0 := byte_Z b0 in
      if z0 <? 128 then Some (z0, s1)
      else
        match s1 with
        | [] => None
        | b1 :: s2 =>
            let z1 := byte_Z b1 in
            if in_span 194 223 z0 && is_tail b1 then
              Some (Z.land z0 31 * 64 + tail_bits b1, s2)
            else
              match s2 with
              | [] => None
              | b2 :: s3 =>
                  if ((z0 =? 224) && in_span 160 191 z1
                      || (in_span 225 236 z0 || in_span 238 239 z0) && is_tail b1
                      || (z0 =? 237) && in_span 128 159 z1) && is_tail b2 then
                    Some (Z.land z0 15 * 4096 + tail_bits b1 * 64 + tail_bits b2, s3)
                  else
                    match s3 with
                    | [] => None
                    | b3 :: s4 =>
                        if ((z0 =? 240) && in_span 144 191 z1
                            || in_span 241 243 z0 && is_tail b1
                            || (z0 =? 244) && in_span 128 143 z1)
                           && is_tail b2 && is_tail b3 then
                          Some (Z.land z0 7 * 262144 + tail_bits b1 * 4096
                                + tail_bits b2 * 64 + tail_bits b3, s4)
                        else None
                    end
              end
        end
  end.

(** ** Pieces and spaces *)

(** [hex::encode]. *)
Definition hex_nibble (n : N) : Byte.byte :=
  default Byte.x00 (Byte.of_N (if (n <? 10)%N then 48 + n else 87 + n)%N).
Definition hex_text (b : bytes) : string :=
  of_bytes (b ≫= λ x, [hex_nibble (Byte.to_N x / 16)%N; hex_nibble (Byte.to_N x mod 16)%N]).

(** What precedes the first separator, and what follows it. *)
Fixpoint split_once (c : Byte.byte) (s : bytes) : bytes * option bytes :=
  match s with
  | [] => ([], None)
  | x :: s =>
      if Byte.eqb x c then ([], Some s)
      else let '(a, rest) := split_once c s in (x :: a, rest)
  end.

(** [str::splitn]. *)
Fixpoint splitn (n : nat) (c : Byte.byte) (s : bytes) : list bytes :=
  match n with
  | O => []
  | S O => [s]
  | S n => match split_once c s with
           | (a, Some rest) => a :: splitn n c rest
           | (a, None) => [a]
           end
  end.

(** [str::split] on one character; [fuel] bounds the number of pieces. *)
Fixpoint split_on (fuel : nat) (c : Byte.byte) (s : bytes) : list bytes :=
  match fuel with
  | O => [s]
  | S fuel =>
      match split_once c s with
      | (piece, Some rest) => piece :: split_on fuel c rest
      | (piece, None) => [piece]
      end
  end.
Definition str_split (c : Byte.byte) (s : bytes) : list bytes := split_on (length s) c s.

(** The UTF-8 encodings of the characters with the property White_Space. *)
Definition white_space : list bytes :=
  ((λ n, [byte_of_Z n]) <$> [9; 10; 11; 12; 13; 32])
  ++ [[Byte.xc2; Byte.x85]; [Byte.xc2; Byte.xa0]; [Byte.xe1; Byte.x9a; Byte.x80]]
  ++ ((λ n, [Byte.xe2; Byte.x80; byte_of_Z n])
        <$> [128; 129; 130; 131; 132; 133; 134; 135; 136; 137; 138; 168; 169; 175])
  ++ [[Byte.xe2; Byte.x81; Byte.x9f]; [Byte.xe3; Byte.x80; Byte.x80]].

Definition has_prefix (s prefix : bytes) : bool := bool_decide (take (length prefix) s = prefix).

(** [str::trim_start] on an encoding, [trim_end] through the reversed bytes. *)
Fixpoint trim_front (fuel : nat) (spaces : list bytes) (s : bytes) : bytes :=
  match fuel with
  | O => s
  | S fuel =>
      match find_first (has_prefix s) spaces with
      | Some space => trim_front fuel spaces (drop (length space) s)
      | None => s
      end
  end.
Definition str_trim (s : bytes) : bytes :=
  let s := trim_front (length s) white_space s in
  reverse (trim_front (length s) (reverse <$> white_space) (reverse s)).

(** ** ASCII case *)

Definition byte_upper (b : Byte.byte) : Byte.byte :=
  if in_span 97 122 (byte_Z b) then byte_of_Z (byte_Z b - 32) else b.
Definition byte_lower (b : Byte.byte) : Byte.byte :=
  if in_span 65 90 (byte_Z b) then byte_of_Z (byte_Z b + 32) else b.
(** [to_ascii_uppercase], [to_ascii_lowercase], [eq_ignore_ascii_case]. *)
Definition ascii_upper (s : bytes) : bytes := byte_upper <$> s.
Definition ascii_lower (s : bytes) : bytes := byte_lower <$> s.
Definition eq_ignore_ascii_case (a b : bytes) : bool :=
  bool_decide (ascii_lower a = ascii_lower b).

(** ** Laws *)

Lemma utf8_next_shorter s c rest : utf8_next s = Some (c, rest) → (length rest < length s)%nat.
Proof.
  unfold utf8_next. intros Hn.
  repeat (case_match; try discriminate); injection Hn as _ <-; simplify_eq/=; lia.
Qed.

Lemma split_once_shorter c s piece rest :
  split_once c s = (piece, Some rest) → (length rest < length s)%nat.
Proof.
  revert piece. induction s as [|x s IH]; intros piece; cbn; [done|].
  destruct (Byte.eqb x c); [intros [= _ <-]; lia|].
  destruct (split_once c s) as [a r]. intros [= _ ->]. specialize (IH a eq_refl). lia.
Qed.

(** A prefix without the separator is the first piece. *)
Lemma split_once_app c a rest :
  c ∉ a → split_once c (a ++ c :: rest) = (a, Some rest).
Proof.
  induction a as [|x a IH]; intros Hc; cbn.
  - by rewrite (Byte.byte_dec_lb eq_refl).
  - apply not_elem_of_cons in Hc as [Hx Hc]. rewrite IH by done.
    destruct (Byte.eqb x c) eqn:E; [|done]. by apply Byte.byte_dec_bl in E.
Qed.

Lemma split_once_none c a : c ∉ a → split_once c a = (a, None).
Proof.
  induction a as [|x a IH]; intros Hc; cbn; [done|].
  apply not_elem_of_cons in Hc as [Hx Hc]. rewrite IH by done.
  destruct (Byte.eqb x c) eqn:E; [|done]. by apply Byte.byte_dec_bl in E.
Qed.

Lemma split_on_fuel fuel fuel' c s :
  (length s ≤ fuel)%nat → (length s ≤ fuel')%nat → split_on fuel c s = split_on fuel' c s.
Proof.
  revert fuel' s. induction fuel as [|fuel IH]; intros fuel' s Hl Hl'.
  - destruct s; [|cbn in Hl; lia]. by destruct fuel'.
  - destruct fuel' as [|fuel']; [destruct s; [done|cbn in Hl'; lia]|]. cbn.
    destruct (split_once c s) as [piece [rest|]] eqn:Hs; [|done]. f_equal.
    apply IH; apply split_once_shorter in Hs; lia.
Qed.

(** ** Order of strings *)

Lemma bytes_ltb_trans a b c : bytes_ltb a b = true → bytes_ltb b c = true → bytes_ltb a c = true.
Proof.
  revert b c. induction a as [|x a IH]; intros [|y b] [|z c]; cbn; try done.
  rewrite !orb_true_iff, !andb_true_iff, !N.ltb_lt, !N.eqb_eq.
  intros [?|[? Hab]] [?|[? Hbc]]; [left; lia..|]. right. split; [lia|]. by eapply IH.
Qed.

Lemma bytes_ltb_total a b : bytes_ltb a b = false → bytes_ltb b a = false → a = b.
Proof.
  revert b. induction a as [|x a IH]; intros [|y b]; cbn; try done.
  rewrite !orb_false_iff, !andb_false_iff, !N.ltb_ge, !N.eqb_neq.
  intros [Hle Hab] [Hle' Hba]. assert (Byte.to_N x = Byte.to_N y) as Heq by lia.
  f_equal; [|apply IH; naive_solver lia].
  apply (f_equal Byte.of_N) in Heq. rewrite !Byte.of_to_N in Heq. congruence.
Qed.

(** [x ≤ y] for keys. *)
Definition str_le (x y : string) : Prop := str_ltb y x = false.

Lemma str_le_trans x y z : str_le x y → str_le y z → str_le x z.
Proof.
  unfold str_le, str_ltb. intros Hxy Hyz.
  destruct (bytes_ltb (as_bytes z) (as_bytes x)) eqn:Hzx; [|done].
  destruct (bytes_ltb (as_bytes x) (as_bytes y)) eqn:Hlt.
  - by rewrite (bytes_ltb_trans _ _ _ Hzx Hlt) in Hyz.
  - by rewrite <- (bytes_ltb_total _ _ Hlt Hxy), Hzx in Hyz.
Qed.

Lemma str_le_antisym x y : str_le x y → str_le y x → x = y.
Proof. intros Hxy Hyx. by apply as_bytes_inj, bytes_ltb_total. Qed.

Lemma str_le_total x y : str_le x y ∨ str_le y x.
Proof.
  unfold str_le, str_ltb. destruct (bytes_ltb (as_bytes y) (as_bytes x)) eqn:H; [|by left].
  right. by apply bytes_ltb_asym.
Qed.

Lemma sort_by_sorted {A} (f : A → string) l :
  StronglySorted (λ x y, str_le (f x) (f y)) (sort_by f l).
Proof.
  induction l as [|x l IH]; [constructor|]. change (sort_by f (x :: l)) with (insert_by f x (sort_by f l)).
  induction IH as [|y l' Hl IH Hy]; cbn.
  - by repeat constructor.
  - destruct (str_ltb (f y) (f x)) eqn:Hlt.
    + constructor; [done|]. rewrite insert_by_perm. constructor; [|done].
      unfold str_le. unfold str_ltb in *. by apply bytes_ltb_asym.
    + constructor; [by constructor|]. constructor; [done|].
      eapply Forall_impl; [exact Hy|]. intros z Hz. by eapply str_le_trans.
Qed.

(** Sorting what is sorted changes nothing. *)
Lemma sort_by_id {A} (f : A → string) l :
  StronglySorted (λ x y, str_le (f x) (f y)) l → sort_by f l = l.
Proof.
  induction 1 as [|x l Hl IH Hx]; [done|].
  change (sort_by f (x :: l)) with (insert_by f x (sort_by f l)). rewrite IH.
  destruct l as [|y l]; [done|]. cbn. apply Forall_cons_1 in Hx as [Hxy _]. by rewrite Hxy.
Qed.
Lemma sort_by_idem {A} (f : A → string) l : sort_by f (sort_by f l) = sort_by f l.
Proof. apply sort_by_id, sort_by_sorted. Qed.

(** In a list with increasing keys, those behind the key of an element are what follows it. *)
Lemma retain_after {A} (f : A → string) l k x :
  StronglySorted (λ x y, str_ltb (f x) (f y) = true) l → l !! k = Some x →
  retain (λ y, str_ltb (f x) (f y)) l = drop (S k) l.
Proof.
  revert k; induction l as [|y l IH]; intros k Hs Hk; [done|].
  inversion Hs as [|? ? Hl Hy]; subst. rewrite Forall_forall in Hy. destruct k as [|k].
  - injection Hk as ->. cbn [retain drop]. unfold str_ltb at 1. rewrite bytes_ltb_irrefl, drop_0.
    clear -Hy. induction l as [|z l IH]; [done|]. cbn [retain].
    rewrite (Hy z) by (by left). f_equal. apply IH. intros w Hw. apply Hy. by right.
  - cbn [lookup list_lookup] in Hk. cbn [retain drop].
    assert (str_ltb (f x) (f y) = false) as ->; [|by apply IH].
    apply bytes_ltb_asym, Hy. by eapply list_elem_of_lookup_2.
Qed.

(** In a sorted list a repeated key is repeated next to itself. *)
Lemma sorted_windows l :
  StronglySorted str_le l → any_window2 String.eqb l = false ↔ NoDup l.
Proof.
  induction 1 as [|x l Hl IH Hx]; [split; [constructor|done]|].
  rewrite NoDup_cons, <- IH. destruct l as [|y l]; [cbn; split; [split; [set_solver|done]|done]|].
  cbn [any_window2]. rewrite orb_false_iff, String.eqb_neq.
  split; intros [Hxy Hw]; (split; [|exact Hw]).
  - intros [->|Hin]%elem_of_cons; [done|].
    apply Forall_cons_1 in Hx as [Hxy' Hx]. rewrite Forall_forall in Hx.
    apply Hxy, str_le_antisym; [done|].
    inversion Hl as [|? ? ? Hy]. rewrite Forall_forall in Hy. by apply Hy.
  - intros ->. apply Hxy. by left.
Qed.

(** [sort_unstable] and [windows(2)] find any repetition. *)
Lemma sorted_windows_NoDup l : any_window2 String.eqb (sort_by id l) = false ↔ NoDup l.
Proof.
  rewrite sorted_windows by apply (sort_by_sorted id). by rewrite (sort_by_perm id l).
Qed.
