(* ===== verification/Chars.v ===== *)
(** More of the text functions of the standard library of Rust: the characters of a string,
    searches for a text or from the end, numbers in decimal, and the generic lemmas on lists
    the personal components share. *)
From Stdlib Require Import ZArith Lia Bool.
From stdpp Require Import base numbers gmap strings list.
From S2P Require Import Prelude Text.

(** ** Lists *)

Lemma filter_ext_on {A} (P Q : A → Prop) `{∀ x, Decision (P x)} `{∀ x, Decision (Q x)}
    (l : list A) :
  (∀ x, x ∈ l → P x ↔ Q x) → filter P l = filter Q l.
Proof.
  induction l as [|x l IH]; intros Hl; [done|]. pose proof (Hl x (list_elem_of_here _ _)) as Hx.
  destruct (decide (P x)).
  - rewrite !filter_cons_True by naive_solver. f_equal. apply IH. intros y Hy. apply Hl. by right.
  - rewrite !filter_cons_False by naive_solver. apply IH. intros y Hy. apply Hl. by right.
Qed.
Lemma filter_none {A} (P : A → Prop) `{∀ x, Decision (P x)} (l : list A) :
  (∀ x, x ∈ l → ¬ P x) → filter P l = [].
Proof.
  intros Hl. rewrite (filter_ext_on P (λ _, False)) by (intros x Hx; specialize (Hl x Hx); tauto).
  clear. by induction l.
Qed.

(** ** Characters *)

(** [str::chars]: every character with its encoding; [fuel] bounds their number. *)
Fixpoint utf8_pieces (fuel : nat) (s : bytes) : list (Z * bytes) :=
  match fuel with
  | O => []
  | S fuel =>
      match utf8_next s with
      | Some (c, rest) => (c, take (length s - length rest) s) :: utf8_pieces fuel rest
      | None => []
      end
  end.
Definition str_chars (s : bytes) : list (Z * bytes) := utf8_pieces (length s) s.

(** [char::is_whitespace], [char::is_control]. *)
Definition is_whitespace (c : Z * bytes) : bool := bool_decide (c.2 ∈ white_space).
Definition is_control (c : Z * bytes) : bool := in_span 0 31 c.1 || in_span 127 159 c.1.

(** ** Searches *)

(** [str::split_once] on a text. *)
Fixpoint split_once_text (pattern s : bytes) : option (bytes * bytes) :=
  if has_prefix s pattern then Some ([], drop (length pattern) s)
  else match s with
  | [] => None
  | x :: s =>
      match split_once_text pattern s with
      | Some (a, rest) => Some (x :: a, rest)
      | None => None
      end
  end.

(** [str::rsplit_once] on a character. *)
Fixpoint rsplit_once (c : Byte.byte) (s : bytes) : option (bytes * bytes) :=
  match s with
  | [] => None
  | x :: s =>
      match rsplit_once c s with
      | Some (a, rest) => Some (x :: a, rest)
      | None => if Byte.eqb x c then Some ([], s) else None
      end
  end.

(** [str::strip_suffix], [ends_with] on a character. *)
Definition ends_with (c : Byte.byte) (s : bytes) : bool := bool_decide (last s = Some c).
Definition strip_suffix (c : Byte.byte) (s : bytes) : option bytes :=
  if ends_with c s then Some (take (length s - 1) s) else None.

(** ** Numbers *)

Definition is_digit (b : Byte.byte) : bool := in_span 48 57 (byte_Z b).

(** [str::parse] of an unsigned integer up to [max]: an optional sign, then decimal digits. *)
Fixpoint parse_digits (max acc : Z) (s : bytes) : option Z :=
  match s with
  | [] => Some acc
  | b :: s =>
      let acc := acc * 10 + (byte_Z b - 48) in
      if is_digit b && (acc <=? max) then parse_digits max acc s else None
  end.
Definition parse_unsigned (max : Z) (s : bytes) : option Z :=
  let digits := match s with b :: t => if Byte.eqb b Byte.x2b then t else s | [] => s end in
  match digits with [] => None | _ => parse_digits max 0 digits end.

(** The decimal digits of a number, at least [width] of them: [{:0width$}]. *)
Fixpoint padded (width : nat) (n : Z) : bytes :=
  match width with
  | O => []
  | S width => padded width (n / 10) ++ [byte_of_Z (48 + n mod 10)]
  end.

(** ** Laws *)

Lemma utf8_next_ascii b s : byte_Z b < 128 → utf8_next (b :: s) = Some (byte_Z b, s).
Proof. intros Hb. cbn -[Z.ltb byte_Z]. by rewrite (proj2 (Z.ltb_lt _ _) Hb). Qed.

Lemma utf8_pieces_ascii fuel s :
  (length s ≤ fuel)%nat → Forall (λ b, byte_Z b < 128) s →
  utf8_pieces fuel s = (λ b, (byte_Z b, [b])) <$> s.
Proof.
  revert s. induction fuel as [|fuel IH]; intros [|b s] Hl Hs; cbn [length] in Hl; try done; [lia|].
  apply Forall_cons in Hs as [Hb Hs]. cbn -[utf8_next]. rewrite utf8_next_ascii by done.
  replace (S (length s) - length s)%nat with 1%nat by lia. rewrite IH by (done || lia). done.
Qed.
Lemma str_chars_ascii s :
  Forall (λ b, byte_Z b < 128) s → str_chars s = (λ b, (byte_Z b, [b])) <$> s.
Proof. by apply utf8_pieces_ascii. Qed.

(** Nothing is trimmed from a text without the first bytes of the spaces. *)
Lemma trim_front_id fuel spaces s :
  Forall (λ space, match space with [] => False | b :: _ => b ∉ s end) spaces →
  trim_front fuel spaces s = s.
Proof.
  intros Hs. destruct fuel as [|fuel]; [done|]. cbn.
  destruct (find_first (has_prefix s) spaces) as [space|] eqn:Hf; [|done]. exfalso.
  apply find_first_Some in Hf as [Hp Hin]. rewrite Forall_forall in Hs.
  specialize (Hs space Hin). destruct space as [|b space]; [done|].
  apply bool_decide_eq_true in Hp. apply Hs. destruct s; cbn in Hp; [done|].
  simplify_eq. by left.
Qed.

Lemma split_once_text_none pattern c s :
  c ∈ pattern → c ∉ s → split_once_text pattern s = None.
Proof.
  intros Hc. assert (∀ s, c ∉ s → has_prefix s pattern = false) as Hp.
  { intros s' Hs. apply bool_decide_eq_false. intros Heq. apply Hs.
    rewrite <- Heq in Hc. rewrite <- (take_drop (length pattern) s'). set_solver. }
  induction s as [|x s IH]; intros Hs; cbn.
  - by rewrite Hp.
  - rewrite Hp by done. by rewrite IH by set_solver.
Qed.

Lemma rsplit_once_none c s : c ∉ s → rsplit_once c s = None.
Proof.
  induction s as [|x s IH]; intros Hs; cbn; [done|]. rewrite IH by set_solver.
  destruct (Byte.eqb x c) eqn:E; [|done]. apply Byte.byte_dec_bl in E. set_solver.
Qed.

Lemma split_once_sound c s a rest : split_once c s = (a, rest) →
  c ∉ a ∧ s = a ++ match rest with Some r => c :: r | None => [] end.
Proof.
  revert a. induction s as [|x s IH]; intros a; cbn; [by intros [= <- <-]; split; [set_solver|]|].
  destruct (Byte.eqb x c) eqn:E.
  - intros [= <- <-]. apply Byte.byte_dec_bl in E as ->. by split; [set_solver|].
  - destruct (split_once c s) as [a' r]. intros [= <- ->].
    destruct (IH a' eq_refl) as [Ha ->]. split; [|done].
    rewrite not_elem_of_cons. split; [|done]. intros ->.
    by rewrite (Byte.byte_dec_lb eq_refl) in E.
Qed.

Lemma padded_length width n : length (padded width n) = width.
Proof. revert n. induction width; intros n; cbn; [done|]. rewrite length_app, IHwidth. cbn. lia. Qed.
Lemma padded_digits width n : Forall (λ b, is_digit b = true) (padded width n).
Proof.
  revert n. induction width; intros n; cbn; [constructor|]. apply Forall_app. split; [done|].
  constructor; [|done]. unfold is_digit, in_span, byte_Z. rewrite byte_of_Z_spec.
  pose proof (Z.mod_pos_bound n 10). rewrite Z.mod_small by lia. bool_prop. lia.
Qed.

(** ** Bytes *)

Lemma byte_Z_range b : 0 ≤ byte_Z b < 256.
Proof. unfold byte_Z. pose proof (Byte.to_N_bounded b). lia. Qed.
Lemma byte_Z_of_Z z : byte_Z (byte_of_Z z) = z mod 256.
Proof. apply byte_of_Z_spec. Qed.
Lemma byte_of_Z_byte b : byte_of_Z (byte_Z b) = b.
Proof.
  unfold byte_of_Z. rewrite Z.mod_small by apply byte_Z_range. unfold byte_Z.
  by rewrite N2Z.id, Byte.of_to_N.
Qed.
(** A test that holds of the 256 bytes. *)
Lemma byte_all (P : Byte.byte → bool) b :
  forallb (λ n, P (byte_of_Z (Z.of_nat n))) (seq 0 256) = true → P b = true.
Proof.
  intros Hall. rewrite forallb_forall in Hall. pose proof (byte_Z_range b) as Hb.
  specialize (Hall (Z.to_nat (byte_Z b))). rewrite Z2Nat.id, byte_of_Z_byte in Hall by lia.
  apply Hall, in_seq. lia.
Qed.
Lemma forallb_Forall {A} (p : A → bool) l : forallb p l = true ↔ Forall (λ x, p x = true) l.
Proof. rewrite forallb_forall, Forall_forall. by setoid_rewrite list_elem_of_In. Qed.

(** ** Trimming twice *)

Lemma trim_front_done fuel spaces s :
  [] ∉ spaces → (length s ≤ fuel)%nat →
  find_first (has_prefix (trim_front fuel spaces s)) spaces = None.
Proof.
  intros Hne. revert s. induction fuel as [|fuel IH]; intros s Hl; cbn.
  - destruct s; [|cbn in Hl; lia]. apply find_first_None. intros [|b space] Hin; done.
  - destruct (find_first (has_prefix s) spaces) as [space|] eqn:Hf; [|done].
    apply find_first_Some in Hf as [Hp Hin]. apply IH. apply bool_decide_eq_true in Hp.
    destruct space as [|b space]; [done|]. destruct s; [done|]. rewrite length_drop. cbn in *. lia.
Qed.
Lemma trim_front_stop fuel spaces s :
  find_first (has_prefix s) spaces = None → trim_front fuel spaces s = s.
Proof. intros Hf. destruct fuel; [done|]. cbn. by rewrite Hf. Qed.
Lemma trim_front_suffix fuel spaces s : ∃ a, s = a ++ trim_front fuel spaces s.
Proof.
  revert s. induction fuel as [|fuel IH]; intros s; cbn; [by exists []|].
  destruct (find_first (has_prefix s) spaces) as [space|]; [|by exists []].
  destruct (IH (drop (length space) s)) as [a Ha]. exists (take (length space) s ++ a).
  by rewrite <- app_assoc, <- Ha, take_drop.
Qed.

Lemma str_trim_idem s : str_trim (str_trim s) = str_trim s.
Proof.
  assert ([] ∉ white_space ∧ [] ∉ reverse <$> white_space) as [Hw Hr].
  { split; apply (bool_decide_unpack _); by vm_compute. }
  unfold str_trim at 2 3. set (f := trim_front (length s) white_space s).
  assert (find_first (has_prefix f) white_space = None) as Hf by by apply trim_front_done.
  set (g := trim_front (length f) (reverse <$> white_space) (reverse f)).
  assert (find_first (has_prefix g) (reverse <$> white_space) = None) as Hg.
  { apply trim_front_done; [done|]. by rewrite length_reverse. }
  destruct (trim_front_suffix (length f) (reverse <$> white_space) (reverse f)) as [a Ha].
  fold g in Ha. apply (f_equal reverse) in Ha. rewrite reverse_involutive, reverse_app in Ha.
  unfold str_trim. rewrite (trim_front_stop _ white_space (reverse g)).
  - by rewrite reverse_involutive, trim_front_stop.
  - rewrite find_first_None in Hf |- *. intros space Hin. specialize (Hf space Hin).
    unfold has_prefix in *. rewrite bool_decide_eq_false in *. intros Hp. apply Hf.
    rewrite Ha. rewrite take_app_le; [done|]. rewrite <- Hp at 1. rewrite length_take. lia.
Qed.

(** The bytes that begin or end the encoding of a space. *)
Definition space_edge (b : Byte.byte) : bool :=
  existsb (λ space, bool_decide (head space = Some b) || bool_decide (last space = Some b))
    white_space.
Lemma str_trim_plain s : Forall (λ b, space_edge b = false) s → str_trim s = s.
Proof.
  intros Hs. unfold str_trim.
  assert (∀ spaces s', (∀ b, b ∈ s' → b ∈ s) →
    forallb (λ space, match space with [] => false | b :: _ => space_edge b end) spaces = true →
    ∀ fuel, trim_front fuel spaces s' = s') as Htrim.
  { intros spaces s' Hin Hall fuel. apply trim_front_id. apply forallb_Forall in Hall.
    eapply Forall_impl; [exact Hall|]. intros [|b space]; [done|]. intros Hb Hb'%Hin.
    rewrite Forall_forall in Hs. specialize (Hs b Hb'). congruence. }
  rewrite (Htrim _ s), Htrim, reverse_involutive; [done|intros b; by rewrite elem_of_reverse|..];
    by vm_compute || done.
Qed.

(** ** Pieces *)

Lemma split_on_pieces (P : Byte.byte → Prop) fuel c s :
  (length s ≤ fuel)%nat → Forall P s → Forall (λ piece, Forall P piece ∧ c ∉ piece) (split_on fuel c s).
Proof.
  revert s. induction fuel as [|fuel IH]; intros s Hl Hs; cbn.
  - destruct s; [|cbn in Hl; lia]. repeat constructor. by apply not_elem_of_nil.
  - destruct (split_once c s) as [a rest] eqn:Ho. pose proof (split_once_sound _ _ _ _ Ho) as [Ha ->].
    apply Forall_app in Hs as [Hs Hr]. destruct rest as [rest|]; [|by repeat constructor].
    constructor; [done|]. apply Forall_cons in Hr as [_ Hr]. apply IH; [|done].
    apply split_once_shorter in Ho. lia.
Qed.
Lemma str_split_pieces (P : Byte.byte → Prop) c s :
  Forall P s → Forall (λ piece, Forall P piece ∧ c ∉ piece) (str_split c s).
Proof. by apply split_on_pieces. Qed.

Lemma str_split_last c s : c ∉ s → str_split c s = [s].
Proof.
  intros Hc. unfold str_split. destruct (length s) as [|n]; [done|]. cbn. by rewrite split_once_none.
Qed.
Lemma str_split_cons c a s : c ∉ a → str_split c (a ++ c :: s) = a :: str_split c s.
Proof.
  intros Hc. unfold str_split.
  rewrite (split_on_fuel _ (S (length (a ++ c :: s)))) by lia. cbn. rewrite split_once_app by done.
  f_equal. apply split_on_fuel; [|done]. rewrite length_app. cbn. lia.
Qed.
