(* ===== verification/Core.v ===== *)
(** The vault's error type, identifiers and document kinds
    (src/src/vault/mod.rs), and the interfaces of the third-party crates the
    vault relies on: SHA-256, base64 and serde_json.  Each interface is a class
    of operations with a separate class of the documented laws, so a theorem
    lists exactly the laws it uses. *)
From Stdlib Require Import ZArith Lia Bool.
From stdpp Require Import base gmap strings list pretty.
From S2P Require Import Prelude.

(** ** Errors *)

Module NativeAuthorizationError.
Inductive native_error : Set :=
| Cancelled
| Denied
| UiUnavailable
| SessionLocked
| CredentialInvalidated.
End NativeAuthorizationError.

Module VaultError.
Inductive error : Set :=
| EmptyAddress (component : string)
| AddressTooLong (component : string) (maximum : Z)
| InvalidData (message : string)
| Automerge (message : string)
| Crypto
| Signature
| Conflict
| Expired
| Random (message : string)
| Database (message : string)
| WorkerUnavailable
| AgentUnreachable (endpoint : string)
| Sealed
| Replay
| AuthorizationRequired
| ApprovalLimited
| HardwareUnavailable
| HardwarePolicyUnsupported
| NativeAuthorization (source : NativeAuthorizationError.native_error)
| Protocol (message : string)
| PasswordRejected
| Protection (message : string).
End VaultError.

Abbreviation VaultResult := (result VaultError.error).

#[export] Instance native_error_eq_dec : EqDecision NativeAuthorizationError.native_error.
Proof. solve_decision. Defined.
#[export] Instance vault_error_eq_dec : EqDecision VaultError.error.
Proof. solve_decision. Defined.

(** [Display] of the errors. *)
Definition native_error_display (e : NativeAuthorizationError.native_error) : string :=
  match e with
  | NativeAuthorizationError.Cancelled => "native authorization was cancelled"
  | NativeAuthorizationError.Denied => "native authorization was denied"
  | NativeAuthorizationError.UiUnavailable => "native authorization UI is unavailable"
  | NativeAuthorizationError.SessionLocked =>
      "the interactive session is locked or unavailable"
  | NativeAuthorizationError.CredentialInvalidated =>
      "the native platform credential was invalidated"
  end.

Definition error_display (e : VaultError.error) : string :=
  match e with
  | VaultError.EmptyAddress component => "secret address " +:+ component +:+ " must not be empty"
  | VaultError.AddressTooLong component maximum =>
      "secret address " +:+ component +:+ " exceeds " +:+ pretty maximum +:+ " bytes"
  | VaultError.InvalidData message => "invalid vault data: " +:+ message
  | VaultError.Automerge message => "Automerge operation failed: " +:+ message
  | VaultError.Crypto => "vault cryptographic operation failed"
  | VaultError.Signature => "vault signature verification failed"
  | VaultError.Conflict =>
      "the secret has concurrent values and requires explicit resolution"
  | VaultError.Expired => "the secret has expired"
  | VaultError.Random message => "random-number generation failed: " +:+ message
  | VaultError.Database message => "vault database operation failed: " +:+ message
  | VaultError.WorkerUnavailable => "the vault worker is unavailable"
  | VaultError.AgentUnreachable endpoint =>
      "no vault agent is listening on `" +:+ endpoint +:+ "`"
  | VaultError.Sealed => "the vault is sealed"
  | VaultError.Replay => "the request was already consumed"
  | VaultError.AuthorizationRequired => "application authorization is required"
  | VaultError.ApprovalLimited => "approval request limit reached; retry later"
  | VaultError.HardwareUnavailable =>
      "no supported hardware security backend is available"
  | VaultError.HardwarePolicyUnsupported =>
      "the requested hardware security policy is unsupported"
  | VaultError.NativeAuthorization source =>
      "vault hardware authorization failed: " +:+ native_error_display source
  | VaultError.Protocol message => "invalid vault protocol message: " +:+ message
  | VaultError.PasswordRejected => "Incorrect password. Please try again."
  | VaultError.Protection message => "vault protection operation failed: " +:+ message
  end.

(** ** Document kinds *)

Inductive DocumentKind : Set :=
| Authorization
| LinuxSecretService
| NetworkManagerWifi
| LocalKeyring
| SecretSpecProject
| SecretSpecProviderCache.

#[export] Instance document_kind_eq_dec : EqDecision DocumentKind.
Proof. solve_decision. Defined.

Definition kind_as_str (k : DocumentKind) : string :=
  match k with
  | Authorization => "authorization"
  | LinuxSecretService => "linux-secret-service"
  | NetworkManagerWifi => "network-manager-wifi"
  | LocalKeyring => "local-keyring"
  | SecretSpecProject => "secretspec-project"
  | SecretSpecProviderCache => "secretspec-provider-cache"
  end.

Definition kind_parse (value : string) : VaultResult DocumentKind :=
  if String.eqb value "authorization" then Ok Authorization
  else if String.eqb value "linux-secret-service" then Ok LinuxSecretService
  else if String.eqb value "network-manager-wifi" then Ok NetworkManagerWifi
  else if String.eqb value "local-keyring" then Ok LocalKeyring
  else if String.eqb value "secretspec-project" then Ok SecretSpecProject
  else if String.eqb value "secretspec-provider-cache" then Ok SecretSpecProviderCache
  else Err (VaultError.InvalidData ("unknown document kind `" +:+ value +:+ "`")).

Lemma kind_parse_as_str k : kind_parse (kind_as_str k) = Ok k.
Proof. by destruct k. Qed.

Lemma kind_as_str_inj k1 k2 : kind_as_str k1 = kind_as_str k2 → k1 = k2.
Proof.
  intros H. apply (f_equal kind_parse) in H.
  rewrite !kind_parse_as_str in H. congruence.
Qed.

Lemma kind_parse_sound s k : kind_parse s = Ok k → s = kind_as_str k.
Proof.
  unfold kind_parse. repeat case_match; intros [= <-];
    match goal with H : String.eqb _ _ = true |- _ => by apply String.eqb_eq in H end.
Qed.

#[export] Program Instance document_kind_countable : Countable DocumentKind :=
  inj_countable kind_as_str (λ s, ok (kind_parse s)) _.
Next Obligation. by destruct x. Qed.

(** ** Third-party crates *)

(** [sha2::Sha256]: a streaming digest is modelled by the digest of the
    concatenation of its updates. *)
Class Sha256 := sha256 : bytes → bytes.
Class Sha256Ok `{Sha256} : Prop := sha256_length : ∀ b, length (sha256 b) = 32%nat.

(** Two particular inputs that differ and have the same digest.  Collisions exist,
    since digests are short; the theorems name the inputs that would have to
    collide. *)
Definition sha256_collides `{Sha256} (x y : bytes) : Prop := x ≠ y ∧ sha256 x = sha256 y.

Lemma sha256_eq_or_collides `{Sha256} x y :
  sha256 x = sha256 y → x = y ∨ sha256_collides x y.
Proof. intros Heq. destruct (decide (x = y)); [by left|by right]. Qed.

(** [base64::engine::general_purpose::URL_SAFE_NO_PAD]. *)
Class Base64 := {
  b64url_encode : bytes → string;
  b64url_decode : string → option bytes
}.
(** Decoding inverts encoding, the alphabet has no path separator, and the text
    is at most twice as long as the data. *)
Class Base64Ok `{Base64} : Prop := {
  b64url_roundtrip b : b64url_decode (b64url_encode b) = Some b;
  b64url_no_slash b : Byte.x2f ∉ as_bytes (b64url_encode b);
  b64url_length b : (String.length (b64url_encode b) ≤ 2 * length b)%nat
}.

Lemma b64url_encode_inj `{Base64Ok} a b : b64url_encode a = b64url_encode b → a = b.
Proof.
  intros Heq. apply (f_equal b64url_decode) in Heq.
  rewrite !b64url_roundtrip in Heq. congruence.
Qed.

(** [serde_json::to_vec] and [serde_json::from_slice] at one type; errors are
    the text [to_string] gives them. *)
Class Serde (A : Type) := {
  serde_to_vec : A → result string bytes;
  serde_from_slice : bytes → result string A
}.
Class SerdeOk (A : Type) `{Serde A} : Prop :=
  serde_roundtrip a b : serde_to_vec a = Ok b → serde_from_slice b = Ok a.

Lemma serde_to_vec_inj `{SerdeOk A} (x y : A) b :
  serde_to_vec x = Ok b → serde_to_vec y = Ok b → x = y.
Proof. intros Hx%serde_roundtrip Hy%serde_roundtrip. congruence. Qed.
