(* ===== verification/Address.v ===== *)
(** Secret addresses (src/src/vault/mod.rs): the typed coordinates of one
    record, their validation, and the digest that indexes them inside an
    encrypted document.  The main result is that the hashed encoding is
    injective, so two addresses share a storage key only through a SHA-256
    collision. *)
From Stdlib Require Import ZArith Lia Bool.
From stdpp Require Import base gmap strings list.
From S2P Require Import Prelude Core.

Definition MAX_ADDRESS_COMPONENT_BYTES : Z := 4 * 1024.

(** ** Addresses *)

Record SecretSpecCoordinates : Set := {
  item : string;
  field : option string;
  vault : option string;
  section : option string;
  version : option string
}.

Inductive SecretSpecAddress : Set :=
| Convention (project profile key : string)
| Native (coordinates : SecretSpecCoordinates).

Inductive SecretAddress : Set :=
| Local (item : string) (field : option string)
| SecretSpec (address : SecretSpecAddress).

#[export] Instance coordinates_eq_dec : EqDecision SecretSpecCoordinates.
Proof. solve_decision. Defined.
#[export] Instance secret_spec_address_eq_dec : EqDecision SecretSpecAddress.
Proof. solve_decision. Defined.
#[export] Instance secret_address_eq_dec : EqDecision SecretAddress.
Proof. solve_decision. Defined.

(** ** Validation *)

Definition validate_address_component (component value : string) : VaultResult () :=
  _ ← fail_if (String.eqb value "") (VaultError.EmptyAddress component);
  _ ← fail_if (MAX_ADDRESS_COMPONENT_BYTES <? str_len value)
        (VaultError.AddressTooLong component MAX_ADDRESS_COMPONENT_BYTES);
  Ok tt.

(** An optional component is validated when present. *)
Definition validate_optional_component (name : string) (value : option string)
    : VaultResult () :=
  match value with
  | Some value => validate_address_component name value
  | None => Ok tt
  end.

Definition secret_spec_validate (a : SecretSpecAddress) : VaultResult () :=
  match a with
  | Convention project profile key =>
      _ ← validate_address_component "project" project;
      _ ← validate_address_component "profile" profile;
      validate_address_component "key" key
  | Native coordinates =>
      _ ← validate_address_component "item" (item coordinates);
      _ ← validate_optional_component "field" (field coordinates);
      _ ← validate_optional_component "vault" (vault coordinates);
      _ ← validate_optional_component "section" (section coordinates);
      validate_optional_component "version" (version coordinates)
  end.

Definition convention (project profile key : string) : VaultResult SecretSpecAddress :=
  let address := Convention project profile key in
  _ ← secret_spec_validate address; Ok address.

Definition native (coordinates : SecretSpecCoordinates) : VaultResult SecretSpecAddress :=
  let address := Native coordinates in
  _ ← secret_spec_validate address; Ok address.

Definition secret_spec_project (a : SecretSpecAddress) : option string :=
  match a with Convention project _ _ => Some project | Native _ => None end.

Definition address_validate (a : SecretAddress) : VaultResult () :=
  match a with
  | Local item field =>
      _ ← validate_address_component "item" item;
      validate_optional_component "field" field
  | SecretSpec address => secret_spec_validate address
  end.

Definition address_new (item : string) (field : option string)
    : VaultResult SecretAddress :=
  let address := Local item field in
  _ ← address_validate address; Ok address.

Definition address_secret_spec (a : SecretSpecAddress) : VaultResult SecretAddress :=
  _ ← secret_spec_validate a; Ok (SecretSpec a).

Definition as_local (a : SecretAddress) : option (string * option string) :=
  match a with Local item field => Some (item, field) | SecretSpec _ => None end.

Definition as_secret_spec (a : SecretAddress) : option SecretSpecAddress :=
  match a with SecretSpec address => Some address | Local _ _ => None end.

(** ** The hashed encoding *)

Definition update_digest_string (value : string) : bytes := framed (as_bytes value).

Definition update_digest_option (value : option string) : bytes :=
  match value with
  | Some value => [Byte.x01] ++ update_digest_string value
  | None => [Byte.x00]
  end.

Definition secret_spec_update_digest (a : SecretSpecAddress) : bytes :=
  match a with
  | Convention project profile key =>
      [Byte.x01] ++ update_digest_string project ++ update_digest_string profile
        ++ update_digest_string key
  | Native coordinates =>
      [Byte.x02] ++ update_digest_string (item coordinates)
        ++ update_digest_option (field coordinates)
        ++ update_digest_option (vault coordinates)
        ++ update_digest_option (section coordinates)
        ++ update_digest_option (version coordinates)
  end.

Definition ADDRESS_DOMAIN : bytes := as_bytes "factorseal/secret-address/v1" ++ [Byte.x00].

(** Everything [storage_key] feeds its digest, in order. *)
Definition address_preimage (a : SecretAddress) : bytes :=
  ADDRESS_DOMAIN ++
  match a with
  | Local item field =>
      [Byte.x01] ++ update_digest_string item ++ update_digest_option field
  | SecretSpec address => [Byte.x02] ++ secret_spec_update_digest address
  end.

Definition storage_key `{Sha256, Base64} (a : SecretAddress) : string :=
  b64url_encode (sha256 (address_preimage a)).

(** ** Injectivity *)

Definition str_fits (s : string) : Prop := fits64 (as_bytes s).
Definition opt_fits (o : option string) : Prop := from_option str_fits True o.

(** Every string of the address is a Rust string. *)
Definition address_fits (a : SecretAddress) : Prop :=
  match a with
  | Local item field => str_fits item ∧ opt_fits field
  | SecretSpec (Convention project profile key) =>
      str_fits project ∧ str_fits profile ∧ str_fits key
  | SecretSpec (Native c) =>
      str_fits (item c) ∧ opt_fits (field c) ∧ opt_fits (vault c)
        ∧ opt_fits (section c) ∧ opt_fits (version c)
  end.

Lemma component_fits c s : validate_address_component c s = Ok tt → str_fits s.
Proof.
  unfold validate_address_component, str_fits, str_len, MAX_ADDRESS_COMPONENT_BYTES.
  intros H. inv_ok. bool_prop. apply fits64_lt. rewrite length_as_bytes. lia.
Qed.

Lemma optional_component_fits c o : validate_optional_component c o = Ok tt → opt_fits o.
Proof. destruct o; cbn; [apply component_fits|done]. Qed.

#[export] Hint Resolve component_fits optional_component_fits : vault.

Lemma address_validate_fits a : address_validate a = Ok tt → address_fits a.
Proof.
  destruct a as [i f|[p q k|c]]; cbn [address_validate secret_spec_validate address_fits];
    intros H; inv_ok; repeat split; eauto with vault.
Qed.

Lemma update_digest_string_app_inj s t x y :
  str_fits s → str_fits t →
  update_digest_string s ++ x = update_digest_string t ++ y → s = t ∧ x = y.
Proof.
  intros Hs Ht Heq.
  destruct (framed_app_inj (as_bytes s) (as_bytes t) x y Hs Ht Heq) as [Hst ->].
  split; [by apply as_bytes_inj|done].
Qed.

Lemma update_digest_option_app_inj o p x y :
  opt_fits o → opt_fits p →
  update_digest_option o ++ x = update_digest_option p ++ y → o = p ∧ x = y.
Proof.
  destruct o as [s|], p as [t|]; cbn -[update_digest_string]; intros Ho Hp Heq;
    try discriminate Heq; apply cons_inj_tail in Heq; [|done].
  apply update_digest_string_app_inj in Heq as [-> ->]; [|assumption..]. done.
Qed.

(** Cut one framed component off both sides of an equation of encodings. *)
Ltac peel_digest H :=
  first
    [ apply update_digest_string_app_inj in H as [? H]; [|assumption..]
    | apply update_digest_option_app_inj in H as [? H]; [|assumption..] ].

Lemma secret_spec_update_digest_inj a b :
  address_fits (SecretSpec a) → address_fits (SecretSpec b) →
  secret_spec_update_digest a = secret_spec_update_digest b → a = b.
Proof.
  destruct a as [p q k|[i f v s w]], b as [p' q' k'|[i' f' v' s' w']];
    cbn -[update_digest_string update_digest_option];
    intros Ha Hb Heq; try discriminate Heq; destruct_and?;
    apply (f_equal (λ l, tail l ++ [])) in Heq; cbn -[update_digest_string update_digest_option] in Heq;
    rewrite <- !app_assoc in Heq; repeat peel_digest Heq; by subst.
Qed.

Lemma address_preimage_inj a b :
  address_fits a → address_fits b → address_preimage a = address_preimage b → a = b.
Proof.
  intros Ha Hb Heq. apply app_inj_len in Heq as [_ Heq]; [|done].
  destruct a as [i f|a], b as [i' f'|b]; try discriminate Heq.
  - apply cons_inj_tail in Heq. destruct Ha, Hb.
    apply (f_equal (λ l, l ++ [])) in Heq. rewrite <- !app_assoc in Heq.
    repeat peel_digest Heq. by subst.
  - apply cons_inj_tail in Heq. f_equal. apply secret_spec_update_digest_inj; assumption.
Qed.

(** Two particular addresses that differ and are stored under the same key. *)
Definition keys_clash `{Sha256, Base64} (a b : SecretAddress) : Prop :=
  a ≠ b ∧ storage_key a = storage_key b.

Lemma storage_key_inj `{Sha256, Base64} a b :
  storage_key a = storage_key b → a = b ∨ keys_clash a b.
Proof. intros Heq. destruct (decide (a = b)); [by left|by right]. Qed.

(** Finitely many addresses have distinct keys, or two of them clash. *)
Definition clash_among `{Sha256, Base64} (l : list SecretAddress) : Prop :=
  ∃ a b, a ∈ l ∧ b ∈ l ∧ keys_clash a b.

Lemma distinct_keys `{Sha256, Base64} (l : list SecretAddress) :
  (∀ a b, a ∈ l → b ∈ l → storage_key a = storage_key b → a = b) ∨ clash_among l.
Proof.
  destruct (decide (Forall (λ a, Forall (λ b, storage_key a = storage_key b → a = b) l) l))
    as [Hall|Hno].
  - left. intros a b Ha Hb. rewrite Forall_forall in Hall. specialize (Hall a Ha).
    rewrite Forall_forall in Hall. by apply Hall.
  - right. apply not_Forall_Exists in Hno; [|solve_decision].
    apply Exists_exists in Hno as (a & Ha & Hno).
    apply not_Forall_Exists in Hno; [|solve_decision].
    apply Exists_exists in Hno as (b & Hb & Hno). exists a, b. split_and!; [done..|].
    destruct (decide (storage_key a = storage_key b)) as [Hk|]; [|by destruct Hno].
    split; [intros ->; by destruct Hno|done].
Qed.

(** The storage key binds the address: two validated addresses with the same
    key are equal, unless their two encodings collide under SHA-256. *)
Theorem storage_key_binds_address `{Sha256, Base64Ok} a b :
  address_validate a = Ok tt → address_validate b = Ok tt →
  storage_key a = storage_key b →
  a = b ∨ sha256_collides (address_preimage a) (address_preimage b).
Proof.
  intros Ha Hb Hk. apply address_validate_fits in Ha, Hb. apply b64url_encode_inj in Hk.
  apply sha256_eq_or_collides in Hk as [Heq|?]; [left|by right].
  by apply address_preimage_inj.
Qed.
