(* ===== verification/Instances.v ===== *)
(** Concrete instances of the third-party interfaces of [Core].  They show that
    the laws the theorems assume can hold together, and the examples evaluate
    the model with them; no theorem about the vault depends on them. *)
From Stdlib Require Import ZArith Lia Bool.
From stdpp Require Import base gmap strings list.
From S2P Require Import Prelude Core Address.

(** ** A digest: the input exclusive-ored into 32 bytes, back and forth *)

Definition byte_xor (x y : Byte.byte) : Byte.byte :=
  let '(a0, (a1, (a2, (a3, (a4, (a5, (a6, a7))))))) := Byte.to_bits x in
  let '(b0, (b1, (b2, (b3, (b4, (b5, (b6, b7))))))) := Byte.to_bits y in
  Byte.of_bits (xorb a0 b0, (xorb a1 b1, (xorb a2 b2, (xorb a3 b3,
    (xorb a4 b4, (xorb a5 b5, (xorb a6 b6, xorb a7 b7))))))).

Fixpoint xor_fold (ahead behind b : bytes) : bytes :=
  match b with
  | [] => rev_append behind ahead
  | x :: b =>
      match ahead with
      | y :: ahead => xor_fold ahead (byte_xor x y :: behind) b
      | [] => match behind with
              | y :: behind => xor_fold behind [byte_xor x y] b
              | [] => []
              end
      end
  end.

Definition demo_sha256 : Sha256 := λ b, xor_fold (replicate 32 Byte.x00) [] b.

Lemma length_xor_fold ahead behind b :
  length (xor_fold ahead behind b) = (length ahead + length behind)%nat.
Proof.
  revert ahead behind; induction b as [|x b IH]; intros ahead behind; cbn.
  - rewrite rev_append_rev, length_app, length_rev. lia.
  - destruct ahead as [|y ahead]; [|rewrite IH; cbn; lia].
    destruct behind as [|y behind]; [done|]. rewrite IH. cbn. lia.
Qed.

Lemma demo_sha256_ok : @Sha256Ok demo_sha256.
Proof. intros b. apply length_xor_fold. Qed.

(** ** A text encoding of bytes: lower-case hexadecimal *)

Definition hex_digit (n : N) : Byte.byte :=
  default Byte.x00 (Byte.of_N (if (n <? 10)%N then 48 + n else 87 + n)%N).
Definition hex_value (b : Byte.byte) : N :=
  let n := Byte.to_N b in if (n <? 58)%N then (n - 48)%N else (n - 87)%N.

Fixpoint hex_encode (b : bytes) : bytes :=
  match b with
  | [] => []
  | x :: b => hex_digit (Byte.to_N x / 16) :: hex_digit (Byte.to_N x mod 16) :: hex_encode b
  end.
Fixpoint hex_decode (b : bytes) : option bytes :=
  match b with
  | [] => Some []
  | h :: l :: b =>
      x ← Byte.of_N (16 * hex_value h + hex_value l); xs ← hex_decode b; Some (x :: xs)
  | _ => None
  end.

Definition demo_base64 : Base64 := {|
  b64url_encode b := String.string_of_list_byte (hex_encode b);
  b64url_decode s := hex_decode (as_bytes s)
|}.

Lemma hex_byte x :
  Byte.of_N (16 * hex_value (hex_digit (Byte.to_N x / 16))
             + hex_value (hex_digit (Byte.to_N x mod 16))) = Some x
  ∧ hex_digit (Byte.to_N x / 16) ≠ Byte.x2f ∧ hex_digit (Byte.to_N x mod 16) ≠ Byte.x2f.
Proof. destruct x; vm_compute; split_and!; congruence. Qed.

Lemma demo_base64_ok : @Base64Ok demo_base64.
Proof.
  constructor; intros b; [| |rewrite <- length_as_bytes];
    unfold b64url_decode, b64url_encode, demo_base64, as_bytes;
    rewrite String.list_byte_of_string_of_list_byte.
  - induction b as [|x b IH]; [done|]. cbn [hex_encode hex_decode].
    destruct (hex_byte x) as [-> _]. cbn. by rewrite IH.
  - induction b as [|x b IH]; cbn [hex_encode]; [apply not_elem_of_nil|].
    destruct (hex_byte x) as (_ & ? & ?). rewrite !not_elem_of_cons. auto.
  - induction b as [|x b IH]; cbn [hex_encode length]; lia.
Qed.

(** ** A serializer for a finite table of values: the index in unary *)

Fixpoint table_index {A} `{EqDecision A} (l : list A) (a : A) : option nat :=
  match l with
  | [] => None
  | x :: l => if decide (x = a) then Some O else S <$> table_index l a
  end.

Definition table_serde {A} `{EqDecision A} (l : list A) : Serde A := {|
  serde_to_vec a := match table_index l a with
                    | Some i => Ok (replicate i Byte.x01)
                    | None => Err "not in the table"
                    end;
  serde_from_slice b := match l !! length b with
                        | Some a => Ok a
                        | None => Err "not in the table"
                        end
|}.

Lemma table_index_lookup {A} `{EqDecision A} (l : list A) a i :
  table_index l a = Some i → l !! i = Some a.
Proof.
  revert i; induction l as [|x l IH]; intros i; cbn; [done|].
  case_decide as Hx; [intros [= <-]; by subst|].
  destruct (table_index l a) as [j|]; cbn; [|done]. intros [= <-]. by apply IH.
Qed.

Lemma table_serde_ok {A} `{EqDecision A} (l : list A) : @SerdeOk A (table_serde l).
Proof.
  intros a b. unfold serde_to_vec, serde_from_slice, table_serde.
  destruct (table_index l a) as [i|] eqn:Hi; [|done]. intros [= <-].
  rewrite length_replicate. by rewrite (table_index_lookup _ _ _ Hi).
Qed.

(** ** Addresses with the concrete digest and encoding *)

Example storage_key_binds_address_witness :
  address_validate (Local "a" (Some "b")) = Ok tt
  ∧ (Local "a" (Some "b") = Local "a" (Some "b")
     ∨ @sha256_collides demo_sha256 (address_preimage (Local "a" (Some "b")))
         (address_preimage (Local "a" (Some "b")))).
Proof.
  split; [reflexivity|].
  exact (@storage_key_binds_address demo_sha256 demo_base64 demo_base64_ok
    (Local "a" (Some "b")) (Local "a" (Some "b")) eq_refl eq_refl eq_refl).
Defined.
