(* ===== verification/Codec.v ===== *)
(** A concrete format with the round-trip law of [Serde], for the examples of components whose
    serialized forms nest: a prefix code, composed type by type.  Also base64 without padding
    as it is specified, with its laws.  No theorem about the vault depends on them. *)
From Stdlib Require Import ZArith Lia Bool.
From stdpp Require Import base gmap strings list.
From S2P Require Import Prelude Core.

(** ** A prefix code *)

(** [get] reads what [put] wrote and leaves the rest. *)
Class Codec (A : Type) := { put : A → bytes; get : bytes → option (A * bytes) }.
Class CodecOk (A : Type) `{Codec A} : Prop := get_put (a : A) rest : get (put a ++ rest) = Some (a, rest).

#[export] Instance codec_byte : Codec Byte.byte := {|
  put b := [b]; get b := match b with x :: b => Some (x, b) | [] => None end |}.
#[export] Instance codec_byte_ok : CodecOk Byte.byte.
Proof. done. Qed.

#[export] Instance codec_option `{Codec A} : Codec (option A) := {|
  put o := match o with Some a => Byte.x01 :: put a | None => [Byte.x00] end;
  get b := match b with
           | Byte.x00 :: b => Some (None, b)
           | _ :: b => '(a, b) ← get b; Some (Some a, b)
           | [] => None
           end |}.
#[export] Instance codec_option_ok `{CodecOk A} : CodecOk (option A).
Proof. intros [a|] rest; cbn; [by rewrite get_put|done]. Qed.

#[export] Instance codec_prod `{Codec A, Codec B} : Codec (A * B) := {|
  put p := put p.1 ++ put p.2;
  get b := '(x, b) ← get b; '(y, b) ← get b; Some ((x, y), b) |}.
#[export] Instance codec_prod_ok `{CodecOk A, CodecOk B} : CodecOk (A * B).
Proof.
  intros [x y] rest. cbn. rewrite <- app_assoc, get_put. cbn. by rewrite get_put.
Qed.

(** A list is its elements, each after a mark; [fuel] bounds their number. *)
Fixpoint get_list `{Codec A} (fuel : nat) (b : bytes) : option (list A * bytes) :=
  match fuel with
  | O => None
  | S fuel =>
      match b with
      | Byte.x00 :: b => Some ([], b)
      | _ :: b => '(a, b) ← get b; '(l, b) ← get_list fuel b; Some (a :: l, b)
      | [] => None
      end
  end.
Fixpoint put_list `{Codec A} (l : list A) : bytes :=
  match l with
  | [] => [Byte.x00]
  | a :: l => Byte.x01 :: put a ++ put_list l
  end.
#[export] Instance codec_list `{Codec A} : Codec (list A) := {|
  put := put_list; get b := get_list (length b) b |}.
Lemma get_put_list `{CodecOk A} (l : list A) fuel rest :
  (length l < fuel)%nat → get_list fuel (put_list l ++ rest) = Some (l, rest).
Proof.
  revert fuel. induction l as [|a l IH]; intros [|fuel] Hf; cbn in *; [lia|done|lia|].
  rewrite <- app_assoc, get_put. cbn. by rewrite IH by lia.
Qed.
#[export] Instance codec_list_ok `{CodecOk A} : CodecOk (list A).
Proof.
  intros l rest. cbn. apply get_put_list. rewrite length_app.
  assert (length l < length (put_list l))%nat; [|lia].
  induction l as [|a l IH]; cbn; [lia|]. rewrite length_app. lia.
Qed.

(** A type that another represents. *)
Definition codec_inj `{Codec B} {A} (f : A → B) (g : B → A) : Codec A := {|
  put a := put (f a); get b := '(x, b) ← get b; Some (g x, b) |}.
Lemma codec_inj_ok {A} `{CodecOk B} (f : A → B) (g : B → A) :
  (∀ a, g (f a) = a) → @CodecOk A (codec_inj f g).
Proof. intros Hg a rest. cbn. rewrite get_put. cbn. by rewrite Hg. Qed.

(** Numbers by their bits, and texts by their bytes. *)
Fixpoint pos_bits (p : positive) : list bool :=
  match p with xH => [] | xO p => false :: pos_bits p | xI p => true :: pos_bits p end.
Fixpoint bits_pos (l : list bool) : positive :=
  match l with [] => xH | false :: l => xO (bits_pos l) | true :: l => xI (bits_pos l) end.
#[export] Instance codec_bool : Codec bool :=
  codec_inj (λ b : bool, if b then Byte.x01 else Byte.x00) (λ x, bool_decide (x = Byte.x01)).
#[export] Instance codec_bool_ok : CodecOk bool.
Proof. apply codec_inj_ok. by intros []. Qed.
#[export] Instance codec_Z : Codec Z :=
  codec_inj (λ z, pos_bits (encode z)) (λ l, default 0 (decode (bits_pos l))).
#[export] Instance codec_Z_ok : CodecOk Z.
Proof.
  apply codec_inj_ok. intros z. assert (∀ p, bits_pos (pos_bits p) = p) as ->.
  { intros p. induction p as [p IH|p IH|]; cbn; [by rewrite IH..|done]. }
  by rewrite decode_encode.
Qed.
#[export] Instance codec_string : Codec string := codec_inj as_bytes of_bytes.
#[export] Instance codec_string_ok : CodecOk string.
Proof. apply codec_inj_ok. apply String.string_of_list_byte_of_string. Qed.

(** The format of a type with a code. *)
#[export] Instance codec_serde `{Codec A} : Serde A := {|
  serde_to_vec a := Ok (put a);
  serde_from_slice b := match get b with Some (a, []) => Ok a | _ => Err "not a value" end |}.
#[export] Instance codec_serde_ok `{CodecOk A} : SerdeOk A.
Proof.
  intros a b [= <-]. cbn. pose proof (get_put a []) as Hg. rewrite app_nil_r in Hg. by rewrite Hg.
Qed.

(** ** Base64 for paths, without padding *)

Definition sextet : Set := (bool * bool * bool * bool * bool * bool).
Definition base64_alphabet : bytes :=
  as_bytes "ABCDEFGHIJKLMNOPQRSTUVWXYZabcdefghijklmnopqrstuvwxyz0123456789-_".
Definition bit (b : bool) : nat := if b then 1 else 0.
Definition sextet_index (s : sextet) : nat :=
  let '(a, b, c, d, e, f) := s in
  (32 * bit a + 16 * bit b + 8 * bit c + 4 * bit d + 2 * bit e + bit f)%nat.
Definition index_sextet (n : nat) : sextet :=
  (Nat.testbit n 5, Nat.testbit n 4, Nat.testbit n 3, Nat.testbit n 2, Nat.testbit n 1,
   Nat.testbit n 0).
Definition to_symbol (s : sextet) : Byte.byte := nth (sextet_index s) base64_alphabet Byte.x00.
Definition of_symbol (b : Byte.byte) : option sextet :=
  index_sextet <$> position (λ x, bool_decide (x = b)) base64_alphabet.

Lemma of_to_symbol s : of_symbol (to_symbol s) = Some s.
Proof. by destruct s as [[[[[[] []] []] []] []] []]; vm_compute. Qed.
Lemma symbol_no_slash s : to_symbol s ≠ Byte.x2f.
Proof. by destruct s as [[[[[[] []] []] []] []] []]; vm_compute. Qed.

(** Three bytes are four symbols; the bits of [Byte.to_bits] begin with the lowest. *)
Fixpoint symbols (b : bytes) : list sextet :=
  match b with
  | x :: y :: z :: b =>
      let '(x0, (x1, (x2, (x3, (x4, (x5, (x6, x7))))))) := Byte.to_bits x in
      let '(y0, (y1, (y2, (y3, (y4, (y5, (y6, y7))))))) := Byte.to_bits y in
      let '(z0, (z1, (z2, (z3, (z4, (z5, (z6, z7))))))) := Byte.to_bits z in
      (x7, x6, x5, x4, x3, x2) :: (x1, x0, y7, y6, y5, y4) :: (y3, y2, y1, y0, z7, z6)
      :: (z5, z4, z3, z2, z1, z0) :: symbols b
  | [x; y] =>
      let '(x0, (x1, (x2, (x3, (x4, (x5, (x6, x7))))))) := Byte.to_bits x in
      let '(y0, (y1, (y2, (y3, (y4, (y5, (y6, y7))))))) := Byte.to_bits y in
      [(x7, x6, x5, x4, x3, x2); (x1, x0, y7, y6, y5, y4); (y3, y2, y1, y0, false, false)]
  | [x] =>
      let '(x0, (x1, (x2, (x3, (x4, (x5, (x6, x7))))))) := Byte.to_bits x in
      [(x7, x6, x5, x4, x3, x2); (x1, x0, false, false, false, false)]
  | [] => []
  end.
Definition byte_of (a b c d e f g h : bool) : Byte.byte :=
  Byte.of_bits (h, (g, (f, (e, (d, (c, (b, a))))))).
Fixpoint of_symbols (l : list sextet) : option bytes :=
  match l with
  | (a, b, c, d, e, f) :: (g, h, i, j, k, l') :: (m, n, o, p, q, r) :: (s, t, u, v, w, x) :: l =>
      rest ← of_symbols l;
      Some (byte_of a b c d e f g h :: byte_of i j k l' m n o p :: byte_of q r s t u v w x :: rest)
  | [(a, b, c, d, e, f); (g, h, i, j, k, l'); (m, n, o, p, q, r)] =>
      Some [byte_of a b c d e f g h; byte_of i j k l' m n o p]
  | [(a, b, c, d, e, f); (g, h, i, j, k, l')] => Some [byte_of a b c d e f g h]
  | [] => Some []
  | _ => None
  end.

Definition real_base64 : Base64 := {|
  b64url_encode b := of_bytes (to_symbol <$> symbols b);
  b64url_decode s := l ← mapM of_symbol (as_bytes s); of_symbols l |}.

(** Induction by three elements. *)
Lemma list_ind3 {A} (P : list A → Prop) :
  P [] → (∀ x, P [x]) → (∀ x y, P [x; y]) → (∀ x y z l, P l → P (x :: y :: z :: l)) → ∀ l, P l.
Proof.
  intros H0 H1 H2 H3. fix go 1. intros [|x [|y [|z l]]]; [done|apply H1|apply H2|apply H3, go].
Qed.

Lemma byte_of_bits x :
  let '(x0, (x1, (x2, (x3, (x4, (x5, (x6, x7))))))) := Byte.to_bits x in
  byte_of x7 x6 x5 x4 x3 x2 x1 x0 = x.
Proof.
  pose proof (Byte.of_bits_to_bits x) as Hx.
  destruct (Byte.to_bits x) as (x0 & x1 & x2 & x3 & x4 & x5 & x6 & x7). exact Hx.
Qed.

Lemma of_to_symbols b : of_symbols (symbols b) = Some b.
Proof.
  induction b as [|x|x y|x y z b IH] using list_ind3; [done|cbn [symbols]..].
  - pose proof (byte_of_bits x) as Hx. destruct (Byte.to_bits x) as (? & ? & ? & ? & ? & ? & ? & ?).
    cbn -[byte_of]. by rewrite Hx.
  - pose proof (byte_of_bits x) as Hx. destruct (Byte.to_bits x) as (? & ? & ? & ? & ? & ? & ? & ?).
    pose proof (byte_of_bits y) as Hy. destruct (Byte.to_bits y) as (? & ? & ? & ? & ? & ? & ? & ?).
    cbn -[byte_of]. by rewrite Hx, Hy.
  - pose proof (byte_of_bits x) as Hx. destruct (Byte.to_bits x) as (? & ? & ? & ? & ? & ? & ? & ?).
    pose proof (byte_of_bits y) as Hy. destruct (Byte.to_bits y) as (? & ? & ? & ? & ? & ? & ? & ?).
    pose proof (byte_of_bits z) as Hz. destruct (Byte.to_bits z) as (? & ? & ? & ? & ? & ? & ? & ?).
    cbn -[byte_of]. rewrite IH. cbn -[byte_of]. by rewrite Hx, Hy, Hz.
Qed.

Lemma length_symbols b : length (symbols b) = ((4 * length b + 2) / 3)%nat.
Proof.
  induction b as [|x|x y|x y z b IH] using list_ind3; [done|cbn [symbols]..].
  - by destruct (Byte.to_bits x) as (? & ? & ? & ? & ? & ? & ? & ?).
  - destruct (Byte.to_bits x) as (? & ? & ? & ? & ? & ? & ? & ?).
    by destruct (Byte.to_bits y) as (? & ? & ? & ? & ? & ? & ? & ?).
  - destruct (Byte.to_bits x) as (? & ? & ? & ? & ? & ? & ? & ?).
    destruct (Byte.to_bits y) as (? & ? & ? & ? & ? & ? & ? & ?).
    destruct (Byte.to_bits z) as (? & ? & ? & ? & ? & ? & ? & ?). cbn [length]. rewrite IH.
    replace (4 * S (S (S (length b))) + 2)%nat with (4 * length b + 2 + 4 * 3)%nat by lia.
    rewrite Nat.div_add by lia. lia.
Qed.

Lemma real_base64_size b : String.length (@b64url_encode real_base64 b) = ((4 * length b + 2) / 3)%nat.
Proof.
  rewrite <- length_symbols, <- length_as_bytes. unfold b64url_encode, real_base64.
  by rewrite as_bytes_of_bytes, length_fmap.
Qed.

Lemma real_base64_ok : @Base64Ok real_base64.
Proof.
  constructor; intros b.
  - unfold b64url_encode, b64url_decode, real_base64. rewrite as_bytes_of_bytes.
    assert (mapM of_symbol (to_symbol <$> symbols b) = Some (symbols b)) as ->.
    { induction (symbols b) as [|s l IH]; [done|]. cbn -[of_symbol to_symbol].
      rewrite of_to_symbol. cbn -[of_symbol to_symbol]. by rewrite IH. }
    apply of_to_symbols.
  - unfold b64url_encode, b64url_decode, real_base64. rewrite as_bytes_of_bytes.
    intros (s & Hs & _)%list_elem_of_fmap. by apply (symbol_no_slash s).
  - rewrite real_base64_size. destruct b as [|x b]; [done|].
    apply Nat.Div0.div_le_upper_bound. cbn [length]. lia.
Qed.
