(* ===== verification/Clock.v ===== *)
(** Time: [std::time] durations and instants as nanosecond counts, and the
    request clock of src/src/vault/protocol/service/time.rs, which advances a
    trusted wall-clock sample while a request waits or runs.  Every read of a
    system clock is an explicit argument. *)
From Stdlib Require Import ZArith Lia Bool.
From stdpp Require Import base list.
From S2P Require Import Prelude Core.

(** ** [std::time] *)

Definition NANOS : Z := 1000000000.
(** [Duration::MAX]: a [u64] of seconds and nanoseconds below one second. *)
Definition DURATION_MAX : Z := U64_MAX * NANOS + 999999999.
(** Largest representable [Instant]: an [i64] of seconds and a nanosecond part. *)
Definition INSTANT_MAX : Z := (2 ^ 63 - 1) * NANOS + 999999999.

Definition from_secs (s : Z) : Z := s * NANOS.
Definition as_secs (d : Z) : Z := d / NANOS.
Definition duration_saturating_add (a b : Z) : Z := Z.min (a + b) DURATION_MAX.
Definition duration_saturating_sub (a b : Z) : Z := Z.max (a - b) 0.
Definition instant_checked_add (i d : Z) : option Z :=
  if i + d <=? INSTANT_MAX then Some (i + d) else None.
(** [Instant::saturating_duration_since]. *)
Definition saturating_duration_since (later earlier : Z) : Z := Z.max (later - earlier) 0.
(** [SystemTime::duration_since], an error when the clock went backwards. *)
Definition system_duration_since (later earlier : Z) : option Z :=
  if earlier <=? later then Some (later - earlier) else None.

Lemma instant_checked_add_Some i d j :
  instant_checked_add i d = Some j ↔ j = i + d ∧ i + d ≤ INSTANT_MAX.
Proof.
  unfold instant_checked_add. destruct (Z.leb_spec (i + d) INSTANT_MAX); naive_solver lia.
Qed.

Lemma as_secs_mono a b : a ≤ b → as_secs a ≤ as_secs b.
Proof. intros. apply Z.div_le_mono; unfold NANOS; lia. Qed.

Lemma as_secs_lt d s : as_secs d < s ↔ d < from_secs s.
Proof.
  unfold as_secs, from_secs, NANOS.
  pose proof (Z.div_mod d 1000000000 ltac:(lia)).
  pose proof (Z.mod_pos_bound d 1000000000 ltac:(lia)). lia.
Qed.

(** ** The request clock *)

Record RequestTime : Set := {
  rt_wall : Z;
  rt_monotonic : Z;
  rt_started : Z;
  rt_system_started : Z;
  rt_wall_fraction : Z
}.

(** [RequestTime::new]; [system_now] and [instant_now] are the two clock reads. *)
Definition request_time_new (wall monotonic system_now instant_now : Z) : RequestTime := {|
  rt_wall := wall;
  rt_monotonic := monotonic;
  rt_started := instant_now;
  rt_system_started := system_now;
  rt_wall_fraction := default 0 (system_duration_since system_now 0) mod NANOS
|}.

(** [RequestTime::sample_at]; [fallback] is the instant read when the sum
    overflows. *)
Definition sample_at (self : RequestTime) (monotonic_now system_now fallback : Z) : Z * Z :=
  let elapsed := saturating_duration_since monotonic_now (rt_started self) in
  let wall_elapsed :=
    Z.max (default 0 (system_duration_since system_now (rt_system_started self))) elapsed in
  (u64_saturating_add (rt_wall self)
     (as_secs (duration_saturating_add wall_elapsed (rt_wall_fraction self))),
   default fallback (instant_checked_add (rt_monotonic self) elapsed)).

(** [RequestTime::deadline_at]: the instant at which a wall-clock deadline
    takes effect. *)
Definition deadline_at (self : RequestTime) (wall now system_now : Z) : Z :=
  let elapsed :=
    Z.max (default 0 (system_duration_since system_now (rt_system_started self)))
      (saturating_duration_since now (rt_started self)) in
  let remaining :=
    duration_saturating_sub
      (duration_saturating_sub
         (from_secs (u64_saturating_sub wall (rt_wall self))) (rt_wall_fraction self))
      elapsed in
  default now (instant_checked_add now remaining).

(** [RequestTime::check] against a wall reading. *)
Definition check_deadline (wall_now : Z) (deadline : option Z) : VaultResult () :=
  fail_if (match deadline with Some deadline => deadline <=? wall_now | None => false end)
    VaultError.Expired.

(** [tighten]: the delivery deadline only ever moves earlier. *)
Definition tighten (target deadline : option Z) : option Z :=
  match deadline with
  | Some deadline => Some (match target with Some old => Z.min old deadline | None => deadline end)
  | None => target
  end.

(** A request clock as [request_time_new] builds it. *)
Definition request_time_wf (c : RequestTime) : Prop :=
  is_u64 (rt_wall c) ∧ 0 ≤ rt_wall_fraction c < NANOS ∧ 0 ≤ rt_monotonic c ≤ INSTANT_MAX.

Lemma request_time_new_wf wall monotonic sys inow :
  is_u64 wall → 0 ≤ monotonic ≤ INSTANT_MAX →
  request_time_wf (request_time_new wall monotonic sys inow).
Proof.
  intros. repeat split; cbn; try apply Z.mod_pos_bound; unfold NANOS, is_u64 in *; lia.
Qed.

(** [system_now - system_started], or zero when that is negative. *)
Lemma system_elapsed a b : default 0 (system_duration_since a b) = Z.max (a - b) 0.
Proof. unfold system_duration_since. destruct (Z.leb_spec b a); cbn; lia. Qed.

(** ** Properties *)

(** Later clock readings never give an earlier wall time, and turning the
    system clock back never gives an earlier wall time than the monotonic clock
    alone would. *)
Lemma sample_at_mono c m s f m' s' f' :
  request_time_wf c → m ≤ m' → s ≤ s' →
  (sample_at c m s f).1 ≤ (sample_at c m' s' f').1.
Proof.
  intros (Hw & Hf & _) Hm Hs. unfold sample_at; cbn. rewrite !system_elapsed.
  unfold u64_saturating_add, saturating_duration_since, duration_saturating_add.
  apply Z.min_le_compat_r, Z.add_le_mono_l, as_secs_mono. lia.
Qed.

Lemma sample_at_rollback c m s f f' :
  request_time_wf c →
  (sample_at c m (rt_system_started c) f).1 ≤ (sample_at c m s f').1.
Proof.
  intros (Hw & Hf & _). unfold sample_at; cbn. rewrite !system_elapsed.
  unfold u64_saturating_add, saturating_duration_since, duration_saturating_add.
  apply Z.min_le_compat_r, Z.add_le_mono_l, as_secs_mono. lia.
Qed.

(** Nanoseconds of authority left at a clock reading. *)
Lemma deadline_at_budget c wall now sys t :
  rt_wall c ≤ wall → now ≤ t → t < deadline_at c wall now sys →
  t - now + Z.max (Z.max (sys - rt_system_started c) 0) (Z.max (now - rt_started c) 0)
    + rt_wall_fraction c < from_secs (wall - rt_wall c).
Proof.
  intros Hw Ht. unfold deadline_at. rewrite system_elapsed.
  unfold saturating_duration_since, duration_saturating_sub, u64_saturating_sub, from_secs.
  rewrite (Z.max_l (wall - rt_wall c) 0) by lia.
  set (E := Z.max (Z.max (sys - rt_system_started c) 0) (Z.max (now - rt_started c) 0)).
  assert (0 ≤ E) by (unfold E; lia).
  destruct (instant_checked_add now _) as [j|] eqn:Hj; cbn; [|lia].
  apply instant_checked_add_Some in Hj as [-> _]. lia.
Qed.

Lemma sample_before_deadline c wall now sys t sys' f :
  request_time_wf c → is_u64 wall → rt_wall c ≤ wall →
  now ≤ t → sys' - sys ≤ t - now →
  t < deadline_at c wall now sys → (sample_at c t sys' f).1 < wall.
Proof.
  intros (Hw & Hf & _) Hwall Hle Hnow Hsys Hlt.
  pose proof (deadline_at_budget c wall now sys t Hle Hnow Hlt) as Hb.
  unfold sample_at; cbn. rewrite system_elapsed.
  unfold u64_saturating_add, saturating_duration_since, duration_saturating_add, is_u64 in *.
  assert (Hsec : as_secs (Z.min (Z.max (Z.max (sys' - rt_system_started c) 0)
      (Z.max (t - rt_started c) 0) + rt_wall_fraction c) DURATION_MAX) < wall - rt_wall c).
  { apply as_secs_lt. lia. }
  lia.
Qed.

Lemma check_deadline_Ok w d :
  check_deadline w d = Ok tt ↔ match d with Some d => w < d | None => True end.
Proof.
  unfold check_deadline. rewrite fail_if_Ok. destruct d; [|done]. apply Z.leb_gt.
Qed.

Lemma tighten_le target d w :
  check_deadline w (tighten target d) = Ok tt ↔
  check_deadline w target = Ok tt ∧ check_deadline w d = Ok tt.
Proof. rewrite !check_deadline_Ok. destruct target, d; cbn; intuition lia. Qed.

(** ** Claims *)

(** A response delivered before the instant [deadline_at] computes for a
    wall-clock deadline still passes [check] against that deadline, as long as
    the system clock does not run ahead of the monotonic clock in between: the
    delivery budget never outlives the authority behind it. *)
Theorem delivery_deadline_sound c wall now sys t sys' f :
  request_time_wf c → is_u64 wall → rt_wall c ≤ wall →
  now ≤ t → sys' - sys ≤ t - now →
  t < deadline_at c wall now sys →
  check_deadline (sample_at c t sys' f).1 (Some wall) = Ok tt.
Proof.
  intros. apply check_deadline_Ok. by eapply sample_before_deadline.
Qed.

Example delivery_deadline_sound_witness :
  check_deadline
    (sample_at (request_time_new 100 0 (100 * NANOS) 0) (9 * NANOS) (109 * NANOS) 0).1
    (Some 110) = Ok tt.
Proof.
  apply (delivery_deadline_sound (request_time_new 100 0 (100 * NANOS) 0) 110 0 (100 * NANOS)
    (9 * NANOS) (109 * NANOS) 0); unfold request_time_wf, is_u64, U64_MAX, INSTANT_MAX, NANOS;
    vm_compute; intuition congruence.
Defined.

(** Authority that has expired stays expired: once [check] rejects a
    deadline, it rejects it at every later reading of the monotonic clock,
    whatever the system clock is set back to after its first reading. *)
Theorem expiry_survives_clock_rollback c m s f m' s' f' deadline :
  request_time_wf c → m ≤ m' → s ≤ rt_system_started c →
  check_deadline (sample_at c m s f).1 deadline = Err VaultError.Expired →
  check_deadline (sample_at c m' s' f').1 deadline = Err VaultError.Expired.
Proof.
  intros Hwf Hm Hs. unfold check_deadline. rewrite !fail_if_Err.
  intros [Hd _]. split; [|done]. destruct deadline as [d|]; [|done].
  apply Z.leb_le. apply Z.leb_le in Hd.
  pose proof (sample_at_mono c m s f m' (rt_system_started c) 0 Hwf Hm Hs).
  pose proof (sample_at_rollback c m' s' 0 f' Hwf). lia.
Qed.

Example expiry_survives_clock_rollback_witness :
  check_deadline
    (sample_at (request_time_new 100 0 (100 * NANOS) 0) (12 * NANOS) 0 0).1 (Some 110)
    = Err VaultError.Expired.
Proof.
  apply (expiry_survives_clock_rollback (request_time_new 100 0 (100 * NANOS) 0)
    (11 * NANOS) (100 * NANOS) 0);
    unfold request_time_wf, is_u64, U64_MAX, INSTANT_MAX, NANOS;
    vm_compute; intuition congruence.
Defined.
