(* ===== verification/Lease.v ===== *)
(** The unseal lease and the replay window
    (src/src/vault/protocol/lease.rs).  A lease has an idle and an absolute
    deadline, each kept both as a wall-clock second and as a monotonic instant;
    the replay window remembers the last [MAX_REPLAY_IDS] request identifiers. *)
From Stdlib Require Import ZArith Lia Bool.
From stdpp Require Import base gmap strings list.
From S2P Require Import Prelude Core Clock.

(** ** The lease *)

Record UnsealLeasePolicy : Set := {
  idle_timeout : Z;
  maximum_lifetime : Z
}.

(** [UnsealLeasePolicy::default]: five minutes idle, eight hours in all. *)
Definition default_policy : UnsealLeasePolicy := {|
  idle_timeout := from_secs (5 * 60);
  maximum_lifetime := from_secs (8 * 60 * 60)
|}.

Definition policy_validate (p : UnsealLeasePolicy) : VaultResult () :=
  fail_if ((idle_timeout p =? 0) || (maximum_lifetime p =? 0)
           || (maximum_lifetime p <? idle_timeout p))
    (VaultError.Protocol "unseal lease timeouts are invalid").

Record UnsealLease : Set := {
  lease_idle_timeout : Z;
  idle_deadline : Z;
  absolute_deadline : Z;
  idle_expires_at : Z;
  absolute_expires_at : Z
}.

Definition lease_overflow : VaultError.error :=
  VaultError.Protocol "unseal lease overflows time".

Definition new_at (now monotonic_now : Z) (p : UnsealLeasePolicy) : VaultResult UnsealLease :=
  _ ← policy_validate p;
  absolute ← ok_or lease_overflow (u64_checked_add now (as_secs (maximum_lifetime p)));
  idle ← ok_or lease_overflow (u64_checked_add now (as_secs (idle_timeout p)));
  absolute_at ← ok_or lease_overflow (instant_checked_add monotonic_now (maximum_lifetime p));
  idle_at ← ok_or lease_overflow (instant_checked_add monotonic_now (idle_timeout p));
  Ok {| lease_idle_timeout := idle_timeout p;
        idle_deadline := Z.min idle absolute;
        absolute_deadline := absolute;
        idle_expires_at := Z.min idle_at absolute_at;
        absolute_expires_at := absolute_at |}.

Definition lease_is_expired (l : UnsealLease) (monotonic_now : Z) : bool :=
  (idle_expires_at l <=? monotonic_now) || (absolute_expires_at l <=? monotonic_now).

Definition expires_at (l : UnsealLease) : Z :=
  Z.min (idle_expires_at l) (absolute_expires_at l).

Definition set_idle_deadline (l : UnsealLease) (d : Z) : UnsealLease := {|
  lease_idle_timeout := lease_idle_timeout l; idle_deadline := d;
  absolute_deadline := absolute_deadline l; idle_expires_at := idle_expires_at l;
  absolute_expires_at := absolute_expires_at l |}.

Definition set_idle_expires_at (l : UnsealLease) (i : Z) : UnsealLease := {|
  lease_idle_timeout := lease_idle_timeout l; idle_deadline := idle_deadline l;
  absolute_deadline := absolute_deadline l; idle_expires_at := i;
  absolute_expires_at := absolute_expires_at l |}.

(** [UnsealLease::touch]: the wall deadline is written before the monotonic one
    is computed, so an overflow of the second leaves the first updated. *)
Definition touch (l : UnsealLease) (now monotonic_now : Z) : VaultResult () * UnsealLease :=
  if lease_is_expired l monotonic_now then (Err VaultError.Sealed, l)
  else match u64_checked_add now (as_secs (lease_idle_timeout l)) with
  | None => (Err lease_overflow, l)
  | Some idle =>
      let l := set_idle_deadline l (Z.min idle (absolute_deadline l)) in
      match instant_checked_add monotonic_now (lease_idle_timeout l) with
      | None => (Err lease_overflow, l)
      | Some idle_at =>
          (Ok tt, set_idle_expires_at l (Z.min idle_at (absolute_expires_at l)))
      end
  end.

(** One transition of a lease: an attempt to touch it, successful or not. *)
Inductive lease_step (l : UnsealLease) : UnsealLease → Prop :=
| lease_touch now monotonic_now r l' :
    touch l now monotonic_now = (r, l') → lease_step l l'.

(** ** The replay window *)

Definition MAX_REPLAY_IDS : Z := 4096.

Record ReplayWindow : Type := {
  rw_set : gset bytes;
  rw_order : list bytes
}.

Definition replay_new : ReplayWindow := {| rw_set := ∅; rw_order := [] |}.

Definition consume (w : ReplayWindow) (request_id : bytes) : VaultResult () * ReplayWindow :=
  if bool_decide (request_id ∈ rw_set w) then (Err VaultError.Replay, w)
  else
    let set := {[request_id]} ∪ rw_set w in
    let order := rw_order w ++ [request_id] in
    if MAX_REPLAY_IDS <? Z.of_nat (length order) then
      match order with
      | expired :: rest => (Ok tt, {| rw_set := set ∖ {[expired]}; rw_order := rest |})
      | [] => (Ok tt, {| rw_set := set; rw_order := order |})
      end
    else (Ok tt, {| rw_set := set; rw_order := order |}).

(** A run of requests against one window. *)
Fixpoint consume_all (w : ReplayWindow) (ids : list bytes) : ReplayWindow :=
  match ids with
  | [] => w
  | id :: ids => consume_all (consume w id).2 ids
  end.

(** The set and the queue agree, without duplicates, within the bound. *)
Definition replay_wf (w : ReplayWindow) : Prop :=
  rw_set w = list_to_set (rw_order w) ∧ NoDup (rw_order w)
    ∧ Z.of_nat (length (rw_order w)) ≤ MAX_REPLAY_IDS.

(** ** Lemmas *)

Lemma touch_absolute l now m :
  absolute_deadline (touch l now m).2 = absolute_deadline l
  ∧ absolute_expires_at (touch l now m).2 = absolute_expires_at l.
Proof. unfold touch. repeat case_match; done. Qed.

Lemma touch_bounded l now m :
  idle_deadline l ≤ absolute_deadline l → idle_expires_at l ≤ absolute_expires_at l →
  idle_deadline (touch l now m).2 ≤ absolute_deadline l
  ∧ idle_expires_at (touch l now m).2 ≤ absolute_expires_at l.
Proof. unfold touch. intros. repeat case_match; cbn; lia. Qed.

Lemma lease_step_bounded l l' :
  lease_step l l' →
  absolute_deadline l' = absolute_deadline l
  ∧ absolute_expires_at l' = absolute_expires_at l
  ∧ (idle_deadline l ≤ absolute_deadline l → idle_expires_at l ≤ absolute_expires_at l →
     idle_deadline l' ≤ absolute_deadline l ∧ idle_expires_at l' ≤ absolute_expires_at l).
Proof.
  intros [now m r l'' Heq]. pose proof (touch_absolute l now m) as [Ha Hb].
  pose proof (touch_bounded l now m) as Hc. rewrite Heq in Ha, Hb, Hc. auto.
Qed.

Lemma new_at_spec now m p l :
  new_at now m p = Ok l →
  absolute_deadline l = now + as_secs (maximum_lifetime p)
  ∧ absolute_expires_at l = m + maximum_lifetime p
  ∧ idle_deadline l = now + as_secs (idle_timeout p)
  ∧ idle_expires_at l = m + idle_timeout p
  ∧ lease_idle_timeout l = idle_timeout p.
Proof.
  unfold new_at, policy_validate. intros H. inv_ok.
  repeat match goal with
  | H : u64_checked_add _ _ = Some _ |- _ => apply u64_checked_add_Some in H as [-> ?]
  | H : instant_checked_add _ _ = Some _ |- _ => apply instant_checked_add_Some in H as [-> ?]
  end.
  cbn. bool_prop. destruct_and?.
  assert (as_secs (idle_timeout p) ≤ as_secs (maximum_lifetime p)) by (apply as_secs_mono; lia).
  repeat split; lia.
Qed.

Lemma replay_wf_new : replay_wf replay_new.
Proof. repeat split; [constructor|done]. Qed.

(** A refused identifier leaves the window as it is. *)
Lemma consume_Err w id e w' : consume w id = (Err e, w') → w' = w.
Proof. unfold consume. repeat case_match; naive_solver. Qed.

(** What [consume] does to the queue. *)
Lemma consume_spec w id :
  replay_wf w →
  (id ∈ rw_order w ∧ consume w id = (Err VaultError.Replay, w))
  ∨ (id ∉ rw_order w ∧ (consume w id).1 = Ok tt
     ∧ rw_order (consume w id).2 =
         (if MAX_REPLAY_IDS <=? Z.of_nat (length (rw_order w))
          then tail (rw_order w) else rw_order w) ++ [id]).
Proof.
  intros (Hset & Hnd & Hlen). unfold consume. rewrite Hset.
  case_bool_decide as Hin; [left; split; [by apply elem_of_list_to_set in Hin|done]|].
  right. split; [by rewrite elem_of_list_to_set in Hin|].
  rewrite length_app; cbn [length].
  destruct (Z.ltb_spec MAX_REPLAY_IDS (Z.of_nat (length (rw_order w) + 1)));
    destruct (Z.leb_spec MAX_REPLAY_IDS (Z.of_nat (length (rw_order w)))); try lia; [|done].
  destruct (rw_order w) as [|x q]; [unfold MAX_REPLAY_IDS in *; cbn in *; lia|done].
Qed.

Lemma consume_wf w id : replay_wf w → replay_wf (consume w id).2.
Proof.
  intros (Hset & Hnd & Hlen). unfold consume.
  case_bool_decide as Hin; [done|]. rewrite Hset, elem_of_list_to_set in Hin.
  assert (Hnd' : NoDup (rw_order w ++ [id])).
  { apply NoDup_app. split_and!; [done| |apply NoDup_singleton]. set_solver. }
  destruct (Z.ltb_spec MAX_REPLAY_IDS (Z.of_nat (length (rw_order w ++ [id])))) as [Hlt|Hlt].
  - destruct (rw_order w) as [|x q] eqn:Hq; [unfold MAX_REPLAY_IDS in *; cbn in *; lia|].
    cbn [app] in Hnd'. apply NoDup_cons in Hnd' as [Hx Hnd'].
    repeat split; cbn -[MAX_REPLAY_IDS].
    + rewrite Hset, list_to_set_app_L. cbn. set_solver.
    + done.
    + rewrite length_app in *. cbn in *. lia.
  - repeat split; cbn -[MAX_REPLAY_IDS]; [|done|done].
    rewrite Hset, list_to_set_app_L. cbn. set_solver.
Qed.

Lemma consume_all_wf ids w : replay_wf w → replay_wf (consume_all w ids).
Proof. revert w; induction ids; intros w Hw; cbn; eauto using consume_wf. Qed.

(** An identifier [i] places from the front survives until the free places of
    the window and the [i] places before it are used up. *)
Lemma consume_all_keeps ids w id i :
  replay_wf w → rw_order w !! i = Some id →
  Z.of_nat (length ids) ≤ Z.of_nat i + MAX_REPLAY_IDS - Z.of_nat (length (rw_order w)) →
  id ∈ rw_order (consume_all w ids).
Proof.
  revert w i; induction ids as [|x ids IH]; intros w i Hw Hi Hlen; cbn [consume_all].
  { by eapply list_elem_of_lookup_2. }
  cbn [length] in Hlen. pose proof (lookup_lt_Some _ _ _ Hi).
  destruct (consume_spec w x Hw) as [[_ Heq]|(_ & _ & Hord)].
  - rewrite Heq. cbn. apply (IH w i); [done..|lia].
  - destruct (Z.leb_spec MAX_REPLAY_IDS (Z.of_nat (length (rw_order w)))) as [?|?].
    + destruct i as [|i]; [lia|].
      apply (IH _ i); [by apply consume_wf| |rewrite Hord, length_app, List.length_tl; cbn; lia].
      rewrite Hord. apply lookup_app_l_Some. by rewrite lookup_tail.
    + apply (IH _ i); [by apply consume_wf| |rewrite Hord, length_app; cbn; lia].
      rewrite Hord. by apply lookup_app_l_Some.
Qed.

(** An accepted identifier is the newest of the window. *)
Lemma consume_accepted w id :
  replay_wf w → (consume w id).1 = Ok tt →
  rw_order (consume w id).2 !! pred (length (rw_order (consume w id).2)) = Some id
  ∧ (0 < length (rw_order (consume w id).2))%nat.
Proof.
  intros Hw Hok. destruct (consume_spec w id Hw) as [[_ Heq]|(_ & _ & Hord)].
  - by rewrite Heq in Hok.
  - rewrite Hord, length_app. cbn. split; [|lia].
    replace (pred _) with (length (if MAX_REPLAY_IDS <=? Z.of_nat (length (rw_order w))
      then tail (rw_order w) else rw_order w)) by lia.
    by apply list_lookup_middle.
Qed.

(** Every lease reachable from a fresh one keeps its idle deadlines below the
    absolute ones, which never move. *)
Lemma lease_reachable now m p l l' :
  new_at now m p = Ok l → rtc lease_step l l' →
  idle_deadline l' ≤ absolute_deadline l'
  ∧ idle_expires_at l' ≤ absolute_expires_at l'
  ∧ absolute_deadline l' = now + as_secs (maximum_lifetime p)
  ∧ absolute_expires_at l' = m + maximum_lifetime p.
Proof.
  intros Hnew Hsteps.
  assert (Hp : idle_timeout p ≤ maximum_lifetime p).
  { unfold new_at, policy_validate in Hnew. inv_ok. bool_prop. lia. }
  pose proof (as_secs_mono _ _ Hp).
  assert (Hinit : idle_deadline l ≤ absolute_deadline l
    ∧ idle_expires_at l ≤ absolute_expires_at l
    ∧ absolute_deadline l = now + as_secs (maximum_lifetime p)
    ∧ absolute_expires_at l = m + maximum_lifetime p).
  { pose proof (new_at_spec _ _ _ _ Hnew). lia. }
  clear Hnew. induction Hsteps as [|l l1 l2 Hstep _ IH]; [done|].
  apply IH. apply lease_step_bounded in Hstep. lia.
Qed.

(** ** Claims *)

(** No sequence of touches, successful or failed, extends a lease past the
    lifetime it was created with: both idle deadlines stay below the absolute
    ones, and from the absolute expiry on every touch fails with [Sealed] and
    changes nothing. *)
Theorem lease_never_outlives_policy now m p l l' :
  new_at now m p = Ok l → rtc lease_step l l' →
  expires_at l' ≤ m + maximum_lifetime p
  ∧ idle_deadline l' ≤ now + as_secs (maximum_lifetime p)
  ∧ ∀ now' t, m + maximum_lifetime p ≤ t → touch l' now' t = (Err VaultError.Sealed, l').
Proof.
  intros Hnew Hsteps. destruct (lease_reachable _ _ _ _ _ Hnew Hsteps) as (? & ? & ? & ?).
  unfold expires_at. split_and!; [lia|lia|]. intros now' t Ht.
  unfold touch, lease_is_expired.
  by rewrite (proj2 (Z.leb_le (absolute_expires_at l') t)), orb_true_r by lia.
Qed.

Definition witness_policy : UnsealLeasePolicy :=
  {| idle_timeout := from_secs 5; maximum_lifetime := from_secs 10 |}.

Definition witness_lease : UnsealLease :=
  {| lease_idle_timeout := from_secs 5; idle_deadline := 105; absolute_deadline := 110;
     idle_expires_at := from_secs 5; absolute_expires_at := from_secs 10 |}.

Example lease_never_outlives_policy_witness :
  touch (touch witness_lease 104 (from_secs 4)).2 110 (from_secs 10) =
    (Err VaultError.Sealed, (touch witness_lease 104 (from_secs 4)).2).
Proof.
  apply (lease_never_outlives_policy 100 0 witness_policy witness_lease).
  - reflexivity.
  - apply rtc_once, (lease_touch _ 104 (from_secs 4) (Ok tt)). reflexivity.
  - vm_compute. congruence.
Defined.

(** A touch before expiry that does not overflow the clocks succeeds and
    moves exactly the two idle deadlines, each to the current time plus the idle
    timeout or to the absolute deadline, whichever is earlier. *)
Theorem touch_refreshes_idle_deadline l now t :
  t < idle_expires_at l → t < absolute_expires_at l →
  now + as_secs (lease_idle_timeout l) ≤ U64_MAX →
  t + lease_idle_timeout l ≤ INSTANT_MAX →
  touch l now t = (Ok tt, {|
    lease_idle_timeout := lease_idle_timeout l;
    idle_deadline := Z.min (now + as_secs (lease_idle_timeout l)) (absolute_deadline l);
    absolute_deadline := absolute_deadline l;
    idle_expires_at := Z.min (t + lease_idle_timeout l) (absolute_expires_at l);
    absolute_expires_at := absolute_expires_at l |}).
Proof.
  intros H1 H2 H3 H4. unfold touch, lease_is_expired.
  rewrite (proj2 (Z.leb_gt _ _) H1), (proj2 (Z.leb_gt _ _) H2). cbn [orb].
  rewrite (proj2 (u64_checked_add_Some _ _ _) (conj eq_refl H3)).
  cbn [set_idle_deadline lease_idle_timeout absolute_expires_at].
  by rewrite (proj2 (instant_checked_add_Some _ _ _) (conj eq_refl H4)).
Qed.

Example touch_refreshes_idle_deadline_witness :
  (touch witness_lease 104 (from_secs 4)).1 = Ok tt.
Proof.
  rewrite (touch_refreshes_idle_deadline witness_lease 104 (from_secs 4));
    vm_compute; congruence.
Defined.

(** Once a request identifier has been accepted, the window rejects it as a
    replay after any run of fewer than [MAX_REPLAY_IDS] further requests, fresh
    or repeated, and the rejection leaves the window unchanged. *)
Theorem replay_rejected_within_window w id ids :
  replay_wf w → (consume w id).1 = Ok tt → Z.of_nat (length ids) < MAX_REPLAY_IDS →
  let w' := consume_all (consume w id).2 ids in
  consume w' id = (Err VaultError.Replay, w').
Proof.
  intros Hw Hok Hlen w'. destruct (consume_accepted w id Hw Hok) as [Hi Hpos].
  pose proof (consume_wf w id Hw) as Hw1.
  assert (Hin : id ∈ rw_order w').
  { eapply consume_all_keeps; [done..|lia]. }
  destruct (consume_spec w' id) as [[_ ?]|(? & _)]; [by apply consume_all_wf|done..].
Qed.

Example replay_rejected_within_window_witness :
  (consume (consume_all (consume replay_new [Byte.x01]).2 [[Byte.x02]; [Byte.x01]; [Byte.x03]])
     [Byte.x01]).1 = Err VaultError.Replay.
Proof.
  rewrite (replay_rejected_within_window replay_new [Byte.x01]
    [[Byte.x02]; [Byte.x01]; [Byte.x03]]); [reflexivity|apply replay_wf_new|reflexivity|].
  vm_compute. reflexivity.
Defined.

(** The replay window is bounded and accepts every identifier it does not
    hold: from the empty window, after any run of requests, it holds at most
    [MAX_REPLAY_IDS] distinct identifiers, its set is exactly its queue, and a
    request is accepted just when its identifier is not in the queue. *)
Theorem replay_window_bounded ids id :
  let w := consume_all replay_new ids in
  Z.of_nat (length (rw_order w)) ≤ MAX_REPLAY_IDS ∧ NoDup (rw_order w)
  ∧ rw_set w = list_to_set (rw_order w)
  ∧ ((consume w id).1 = Ok tt ↔ id ∉ rw_order w).
Proof.
  intros w. assert (Hw : replay_wf w) by apply consume_all_wf, replay_wf_new.
  pose proof Hw as (? & ? & ?). split_and!; [done..|].
  destruct (consume_spec w id Hw) as [[? Heq]|(? & ? & _)]; [rewrite Heq|]; naive_solver.
Qed.
