(* ===== verification/Wire.v ===== *)
(** The local protocol (src/src/vault/protocol/wire.rs): caller identities and
    their fingerprint, request actions with their field validation, permission
    records, and the client-side assembly of a paged permission list.  The
    [browser] feature's action and the base64 text form of secrets are left
    out; a secret is its bytes. *)
From Stdlib Require Import ZArith Lia Bool.
From stdpp Require Import base gmap strings list.
From S2P Require Import Prelude Core Address Text.

(** ** Limits *)

Definition PROTOCOL_VERSION : Z := 18.
Definition REQUEST_ID_BYTES : Z := 16.
Definition MAX_MESSAGE_BYTES : Z := 1024 * 1024.
Definition MAX_PERMISSION_WAIT_MS : Z := 5000.
Definition SINGLE_USE_GRANT_SECONDS : Z := 300.
Definition MAX_DECLARED_LAUNCH_CHAIN : Z := 4.
Definition MAX_LIST_PAGE_SIZE : Z := 8.
Definition MAX_HISTORY_PAGE_SIZE : Z := 4.
Definition MAX_IDENTITY_COMPONENT_BYTES : Z := 4 * 1024.
Definition MAX_APPLICATION_COMPONENT_BYTES : Z := 4 * 1024.
Definition MAX_APPLICATION_BASE_DIR_BYTES : Z := 32 * 1024.
Definition MAX_NAMESPACE_BYTES : Z := 4 * 1024.
Definition MAX_MUTATIONS_PER_REQUEST : Z := 64.
Definition MAX_PERMISSION_ID_BYTES : Z := 128.

Definition SECRET_SERVICE_NAMESPACE : bytes := as_bytes "factorseal/secret-service/v1".
Definition NETWORK_MANAGER_NAMESPACE : bytes := as_bytes "factorseal/network-manager/v1".

(** ** String tests *)

Definition str_empty (s : string) : bool := String.eqb s "".

(** ** Caller identity *)

Module CallerPlatform.
Inductive platform : Set := Android | Ios | Linux | Macos | Windows.
End CallerPlatform.

Record CallerIdentity : Set := {
  ci_platform : CallerPlatform.platform;
  ci_user_id : string;
  ci_application_id : string;
  ci_executable_digest : bytes;
  ci_signer_id : option string
}.

#[export] Instance platform_eq_dec : EqDecision CallerPlatform.platform.
Proof. solve_decision. Defined.
#[export] Instance caller_identity_eq_dec : EqDecision CallerIdentity.
Proof. solve_decision. Defined.

Definition validate_identity_component (name value : string) : VaultResult () :=
  fail_if (str_empty value || (MAX_IDENTITY_COMPONENT_BYTES <? str_len value))
    (VaultError.Protocol ("caller " +:+ name +:+ " is empty or too long")).

Definition caller_validate (c : CallerIdentity) : VaultResult () :=
  _ ← validate_identity_component "user ID" (ci_user_id c);
  _ ← validate_identity_component "application ID" (ci_application_id c);
  match ci_signer_id c with
  | Some signer_id => validate_identity_component "signer ID" signer_id
  | None => Ok tt
  end.

Definition caller_new (platform : CallerPlatform.platform) (user_id application_id : string)
    (executable_digest : bytes) (signer_id : option string) : VaultResult CallerIdentity :=
  let identity := {| ci_platform := platform; ci_user_id := user_id;
    ci_application_id := application_id; ci_executable_digest := executable_digest;
    ci_signer_id := signer_id |} in
  _ ← caller_validate identity; Ok identity.

Definition CALLER_FINGERPRINT_DOMAIN : bytes :=
  as_bytes "factorseal/caller-identity/v1" ++ [Byte.x00].

Definition platform_tag (p : CallerPlatform.platform) : Byte.byte :=
  match p with
  | CallerPlatform.Android => Byte.x04
  | CallerPlatform.Ios => Byte.x05
  | CallerPlatform.Linux => Byte.x01
  | CallerPlatform.Macos => Byte.x02
  | CallerPlatform.Windows => Byte.x03
  end.

(** [append_digest_bytes]. *)
Definition append_digest_bytes (b : bytes) : bytes := framed b.

(** Everything [fingerprint] feeds its digest, in order. *)
Definition fingerprint_preimage (c : CallerIdentity) : bytes :=
  CALLER_FINGERPRINT_DOMAIN ++ [platform_tag (ci_platform c)]
    ++ append_digest_bytes (as_bytes (ci_user_id c))
    ++ append_digest_bytes (as_bytes (ci_application_id c))
    ++ ci_executable_digest c
    ++ match ci_signer_id c with
       | Some signer_id => [Byte.x01] ++ append_digest_bytes (as_bytes signer_id)
       | None => [Byte.x00]
       end.

Definition fingerprint `{Sha256} (c : CallerIdentity) : bytes :=
  sha256 (fingerprint_preimage c).

(** *** The fingerprint determines the caller *)

(** What [validate] and the type of the executable digest guarantee. *)
Definition caller_wf (c : CallerIdentity) : Prop :=
  caller_validate c = Ok tt ∧ length (ci_executable_digest c) = 32%nat.

Lemma identity_component_fits n v : validate_identity_component n v = Ok tt → str_fits v.
Proof.
  unfold validate_identity_component, str_fits, str_len, MAX_IDENTITY_COMPONENT_BYTES.
  intros Hv. inv_ok. bool_prop. apply fits64_lt. rewrite length_as_bytes. lia.
Qed.

Lemma caller_wf_fits c :
  caller_wf c → str_fits (ci_user_id c) ∧ str_fits (ci_application_id c)
    ∧ opt_fits (ci_signer_id c).
Proof.
  intros [Hv _]. unfold caller_validate in Hv. inv_ok.
  split_and!; [by eapply identity_component_fits..|].
  destruct (ci_signer_id c); [by eapply identity_component_fits|done].
Qed.

(** Cut one framed byte string off both sides of an equation of encodings. *)
Lemma append_digest_str_inj s t x y :
  str_fits s → str_fits t →
  append_digest_bytes (as_bytes s) ++ x = append_digest_bytes (as_bytes t) ++ y →
  s = t ∧ x = y.
Proof.
  intros Hs Ht Heq. destruct (framed_app_inj _ _ _ _ Hs Ht Heq) as [Hst ->].
  split; [by apply as_bytes_inj|done].
Qed.

Lemma platform_tag_inj p q : platform_tag p = platform_tag q → p = q.
Proof. by destruct p, q. Qed.

Lemma fingerprint_preimage_inj c c' :
  caller_wf c → caller_wf c' → fingerprint_preimage c = fingerprint_preimage c' → c = c'.
Proof.
  intros Hc Hc' Heq. pose proof (caller_wf_fits _ Hc) as (? & ? & Hs).
  pose proof (caller_wf_fits _ Hc') as (? & ? & Hs'). destruct Hc as [_ Hl], Hc' as [_ Hl'].
  apply app_inj_len in Heq as [_ Heq]; [|done].
  apply app_inj_len in Heq as [Hp Heq]; [|done].
  assert (platform_tag (ci_platform c) = platform_tag (ci_platform c')) as Ht by congruence.
  apply platform_tag_inj in Ht.
  apply append_digest_str_inj in Heq as [? Heq]; [|assumption..].
  apply append_digest_str_inj in Heq as [? Heq]; [|assumption..].
  apply app_inj_len in Heq as [? Heq]; [|by rewrite Hl, Hl'].
  destruct c as [? ? ? ? o], c' as [? ? ? ? o']; cbn -[append_digest_bytes] in *; subst. f_equal.
  destruct o as [s|], o' as [s'|]; try discriminate Heq; [|done].
  apply cons_inj_tail in Heq. f_equal. apply as_bytes_inj.
  exact (framed_inj _ _ Hs Hs' Heq).
Qed.

Lemma fingerprint_inj `{Sha256} c c' :
  caller_wf c → caller_wf c' → fingerprint c = fingerprint c' →
  c = c' ∨ sha256_collides (fingerprint_preimage c) (fingerprint_preimage c').
Proof.
  unfold fingerprint. intros Hc Hc' Heq.
  apply sha256_eq_or_collides in Heq as [Heq|?]; [left|by right].
  apply fingerprint_preimage_inj; assumption.
Qed.

(** ** Request fields *)

Record WireSecretAddress : Set := { wa_item : string; wa_field : option string }.

Definition resolve (a : WireSecretAddress) : VaultResult SecretAddress :=
  address_new (wa_item a) (wa_field a).

Record VaultApplicationContext : Set := {
  app_project : option string;
  app_profile : option string;
  app_base_dir : option string;
  app_reason : option string;
  app_requested_permission_duration_seconds : option Z;
  app_declared_launch_chain : list string
}.

#[export] Instance application_context_eq_dec : EqDecision VaultApplicationContext.
Proof. solve_decision. Defined.

Definition validate_application_component (name : string) (value : option string)
    : VaultResult () :=
  match value with
  | Some value =>
      fail_if (str_empty value || (MAX_APPLICATION_COMPONENT_BYTES <? str_len value))
        (VaultError.Protocol ("application " +:+ name +:+ " is empty or too long"))
  | None => Ok tt
  end.

Definition opt_test {A} (p : A → bool) (o : option A) : bool :=
  match o with Some a => p a | None => false end.

Definition application_validate (c : VaultApplicationContext) : VaultResult () :=
  _ ← validate_application_component "project" (app_project c);
  _ ← validate_application_component "profile" (app_profile c);
  _ ← fail_if (opt_test (λ v, MAX_APPLICATION_BASE_DIR_BYTES <? str_len v) (app_base_dir c))
        (VaultError.Protocol "application base directory is too long");
  _ ← fail_if (opt_test (λ v, negb (path_is_absolute v)) (app_base_dir c))
        (VaultError.Protocol "application base directory must be absolute");
  _ ← fail_if (opt_test (λ v, MAX_APPLICATION_COMPONENT_BYTES <? str_len v) (app_reason c))
        (VaultError.Protocol "application reason is too long");
  _ ← fail_if (opt_test (λ d, d =? 0) (app_requested_permission_duration_seconds c))
        (VaultError.Protocol "requested permission duration must be positive");
  fail_if ((MAX_DECLARED_LAUNCH_CHAIN <? Z.of_nat (length (app_declared_launch_chain c)))
           || existsb (λ v, str_empty v || (MAX_APPLICATION_COMPONENT_BYTES <? str_len v))
                (app_declared_launch_chain c))
    (VaultError.Protocol "declared launch chain is too long or has an empty entry").

Definition validate_namespace (namespace : bytes) : VaultResult () :=
  fail_if (bool_decide (namespace = [])
           || (MAX_NAMESPACE_BYTES <? Z.of_nat (length namespace)))
    (VaultError.Protocol "document namespace is empty or too long").

Definition validate_project (project : string) : VaultResult () :=
  fail_if (str_empty project || (MAX_APPLICATION_COMPONENT_BYTES <? str_len project))
    (VaultError.Protocol "SecretSpec project is empty or too long").

Definition validate_list_limit (limit : Z) : VaultResult () :=
  fail_if (negb ((1 <=? limit) && (limit <=? MAX_LIST_PAGE_SIZE)))
    (VaultError.Protocol "list limit must be between one and 8").

Definition validate_history_limit (limit : Z) : VaultResult () :=
  fail_if (negb ((1 <=? limit) && (limit <=? MAX_HISTORY_PAGE_SIZE)))
    (VaultError.Protocol "history limit must be between one and 4").

Definition validate_address_cursor `{Base64} (cursor : string) : VaultResult () :=
  decoded ← ok_or (VaultError.Protocol "invalid address-list cursor") (b64url_decode cursor);
  fail_if (negb (Z.of_nat (length decoded) =? 32))
    (VaultError.Protocol "invalid address-list cursor").

Definition validate_project_address (project : string) (a : SecretSpecAddress)
    : VaultResult () :=
  _ ← validate_project project;
  _ ← secret_spec_validate a;
  fail_if (opt_test (λ p, negb (String.eqb p project)) (secret_spec_project a))
    (VaultError.Protocol "SecretSpec convention address belongs to a different project").

Definition permission_id_byte (b : Byte.byte) : bool :=
  is_ascii_alphanumeric b || bool_decide (b = Byte.x2d) || bool_decide (b = Byte.x5f)
    || bool_decide (b = Byte.x2e).

Definition validate_permission_id (id : string) : VaultResult () :=
  fail_if (str_empty id || (MAX_PERMISSION_ID_BYTES <? str_len id)
           || negb (forallb permission_id_byte (as_bytes id)))
    (VaultError.Protocol "invalid permission ID").

(** [Option::map_or(Ok(()), f)] over an optional field. *)
Definition validate_opt {A} (f : A → VaultResult ()) (o : option A) : VaultResult () :=
  match o with Some a => f a | None => Ok tt end.

(** ** Permissions *)

Module PermissionOperation.
Inductive operation : Set := Get | Put | Delete | Clear.
End PermissionOperation.

Module PermissionTarget.
Inductive target : Set :=
| DocumentKind
| Namespace (namespace : bytes)
| Entry (namespace : bytes) (address : SecretAddress)
| ProjectEntry (namespace : bytes) (address : SecretAddress) (project : string)
    (base_dir : option string)
| Project (namespace : bytes) (project : string) (base_dir : option string).
End PermissionTarget.

Module PermissionState.
Inductive state : Set :=
| Pending (created_at expires_at : Z) (challenge : bytes) (awaited expiring_write : bool)
| Granted (granted_at : Z) (expires_at : option Z) (single_use : bool).
End PermissionState.

Module PermissionChange.
Inductive change : Set := Granted | Denied | Revoked.
End PermissionChange.

Module PermissionWaitStatus.
Inductive status : Set := Pending | Granted | Denied | Expired.
End PermissionWaitStatus.

Record PermissionPrincipal : Set := {
  pp_platform : CallerPlatform.platform;
  pp_user_id : string;
  pp_application_id : string;
  pp_executable_digest : bytes;
  pp_signer_id : option string
}.

(** [impl From<&CallerIdentity> for PermissionPrincipal]. *)
Definition principal_from (c : CallerIdentity) : PermissionPrincipal := {|
  pp_platform := ci_platform c;
  pp_user_id := ci_user_id c;
  pp_application_id := ci_application_id c;
  pp_executable_digest := ci_executable_digest c;
  pp_signer_id := ci_signer_id c
|}.

Record Permission : Set := {
  perm_target : option PermissionTarget.target;
  perm_id : string;
  perm_scope : option DocumentKind;
  perm_operation : PermissionOperation.operation;
  perm_principal : PermissionPrincipal;
  perm_application : VaultApplicationContext;
  perm_state : PermissionState.state
}.

#[export] Instance operation_eq_dec : EqDecision PermissionOperation.operation.
Proof. solve_decision. Defined.
#[export] Instance permission_target_eq_dec : EqDecision PermissionTarget.target.
Proof. solve_decision. Defined.
#[export] Instance permission_state_eq_dec : EqDecision PermissionState.state.
Proof. solve_decision. Defined.
#[export] Instance wait_status_eq_dec : EqDecision PermissionWaitStatus.status.
Proof. solve_decision. Defined.
#[export] Instance principal_eq_dec : EqDecision PermissionPrincipal.
Proof. solve_decision. Defined.
#[export] Instance permission_eq_dec : EqDecision Permission.
Proof. solve_decision. Defined.

Record VaultInteractionReference : Set := { ir_id : string; ir_expires_at : Z }.

(** Value-free coordinates of one entry in a user-facing document. *)
Record VaultEntryMetadata : Set := {
  em_access_project : option string;
  em_display_name : option string;
  em_display_type : option string;
  em_display_username : option string;
  em_display_website : option string;
  em_updated_at : option Z;
  em_favorite : bool;
  em_document_kind : DocumentKind;
  em_partition : bytes;
  em_address : SecretAddress
}.

Module VaultEntryImportStatus.
Inductive import_status : Set := Added | Replaced | KeptExisting.
End VaultEntryImportStatus.

Definition validate_transfer (e : VaultEntryMetadata) : VaultResult () :=
  _ ← match em_document_kind e with
      | Authorization | SecretSpecProviderCache =>
          Err (VaultError.Protocol "that document kind is not portable")
      | SecretSpecProject =>
          fail_if (bool_decide (as_secret_spec (em_address e) = None))
            (VaultError.Protocol "project transfer entry has a local address")
      | LinuxSecretService | NetworkManagerWifi | LocalKeyring =>
          fail_if (bool_decide (as_local (em_address e) = None))
            (VaultError.Protocol "keyring transfer entry has a project address")
      end;
  _ ← validate_namespace (em_partition e);
  address_validate (em_address e).

Definition allows_single_use (p : Permission) : bool :=
  bool_decide (perm_scope p = Some SecretSpecProviderCache)
    && bool_decide (perm_operation p = PermissionOperation.Put).

Definition defaults_to_single_use (p : Permission) : bool :=
  allows_single_use p
    && negb (match perm_state p with
             | PermissionState.Pending _ _ _ _ true => true
             | _ => false
             end).

(** A project grant on the system keyring names the stored item's project. *)
Definition keyring_project_matches (e : VaultEntryMetadata) (namespace : bytes)
    (project : string) : bool :=
  bool_decide (em_access_project e = Some project)
    && bool_decide (namespace = as_bytes project).

Definition applies_to_entry (p : Permission) (e : VaultEntryMetadata) : bool :=
  if bool_decide (perm_scope p ≠ Some (em_document_kind e)) then false
  else match perm_target p with
  | Some PermissionTarget.DocumentKind => true
  | Some (PermissionTarget.Namespace namespace) => bool_decide (namespace = em_partition e)
  | Some (PermissionTarget.Entry namespace address) =>
      bool_decide (namespace = em_partition e) && bool_decide (address = em_address e)
  | Some (PermissionTarget.ProjectEntry namespace address project _) =>
      bool_decide (address = em_address e)
        && (if bool_decide (em_document_kind e = LinuxSecretService)
            then keyring_project_matches e namespace project
            else bool_decide (namespace = em_partition e))
  | Some (PermissionTarget.Project namespace project _) =>
      if bool_decide (em_document_kind e = LinuxSecretService)
      then keyring_project_matches e namespace project
      else bool_decide (namespace = em_partition e)
             && opt_test (λ a, match secret_spec_project a with
                               | Some entry_project => String.eqb entry_project project
                               | None => true
                               end) (as_secret_spec (em_address e))
  | None => false
  end.

(** ** Actions *)

Module VaultMutation.
Inductive mutation : Set :=
| Check (address : WireSecretAddress) (expected_sha256 : option bytes)
| Put (address : WireSecretAddress) (value : bytes) (evict_at : option Z)
| Delete (address : WireSecretAddress).
End VaultMutation.

Definition mutation_validate (m : VaultMutation.mutation) : VaultResult () :=
  match m with
  | VaultMutation.Check address _ | VaultMutation.Put address _ _
  | VaultMutation.Delete address => _ ← resolve address; Ok tt
  end.

Module VaultAction.
Inductive action : Set :=
| AuthorizeSecretInput (sender : string)
| KeyringAccess (entry : option SecretAddress) (sender service : string)
    (operation : PermissionOperation.operation) (bridged : option action)
    (pending : option string)
| Status
| ListVaultEntries (cursor : option string) (limit : Z)
| ExportVaultEntry (entry : VaultEntryMetadata)
| ImportVaultEntry (entry : VaultEntryMetadata) (value : bytes) (evict_at : option Z)
    (replace_existing : bool)
| Get (namespace : bytes) (address : WireSecretAddress)
| Put (namespace : bytes) (address : WireSecretAddress) (value : bytes) (evict_at : option Z)
| Mutate (namespace : bytes) (mutations : list VaultMutation.mutation)
| Delete (namespace : bytes) (address : WireSecretAddress)
| Clear (namespace : bytes)
| GetProject (project : string) (address : SecretSpecAddress)
| PutProject (project : string) (address : SecretSpecAddress) (value : bytes)
| DeleteProject (project : string) (address : SecretSpecAddress)
| ListProjects (cursor : option string) (limit : Z)
| ListProjectAddresses (project : string) (cursor : option string) (limit : Z)
| ListHistory (namespace : bytes) (address : option WireSecretAddress) (cursor : option Z)
    (limit : Z)
| ListProjectHistory (project : string) (address : option SecretSpecAddress)
    (cursor : option Z) (limit : Z)
| ListCacheHistory (project : string) (address : option SecretSpecAddress)
    (cursor : option Z) (limit : Z)
| GetCache (project : string) (address : SecretSpecAddress)
| WriteCacheFromDialog (project : string) (address : SecretSpecAddress) (value : bytes)
    (evict_at : option Z)
| PutCache (project : string) (address : SecretSpecAddress) (value : bytes)
    (evict_at : option Z)
| DeleteCache (project : string) (address : SecretSpecAddress)
| ClearCache (project : string)
| Seal (namespace : bytes)
| SealCache (project : string)
| ExportRevision
| ListPermissions
| ListPermissionsPage (revision : Z) (cursor : string)
| WaitPermissions (after_revision timeout_ms : Z)
| WaitPermission (id : string) (timeout_ms : Z)
| ApprovePermission (id : string) (signature : bytes) (duration_seconds : option Z)
    (single_use : bool)
| DenyPermission (id : string)
| RevokePermission (id : string).
End VaultAction.

(** An item of the system keyring: [item/] and 32 hexadecimal digits. *)
Definition is_keyring_entry (entry : SecretAddress) : bool :=
  opt_test (λ '(item, field),
      bool_decide (field = None)
        && opt_test (λ id, (Z.of_nat (length id) =? 32) && forallb is_ascii_hexdigit id)
             (strip_prefix (as_bytes "item/") (as_bytes item)))
    (as_local entry).

Definition invalid_sender (sender : string) : bool :=
  negb (starts_with Byte.x3a sender) || (255 <? str_len sender).

Fixpoint action_validate `{Base64} (a : VaultAction.action) : VaultResult () :=
  match a with
  | VaultAction.AuthorizeSecretInput sender =>
      fail_if (invalid_sender sender) (VaultError.Protocol "invalid input peer")
  | VaultAction.KeyringAccess entry sender service _ bridged pending =>
      _ ← fail_if (invalid_sender sender || str_empty service || (1024 <? str_len service))
            (VaultError.Protocol "invalid keyring access target");
      _ ← validate_opt (λ entry,
             _ ← address_validate entry;
             fail_if (negb (is_keyring_entry entry))
               (VaultError.Protocol "invalid keyring entry")) entry;
      _ ← validate_opt validate_permission_id pending;
      _ ← fail_if (bool_decide (is_Some pending)
                   && match bridged with Some _ => true | None => false end)
            (VaultError.Protocol "invalid keyring wait");
      match bridged with
      | Some bridged =>
          match bridged with
          | VaultAction.Get namespace _ | VaultAction.Mutate namespace _ =>
              if bool_decide (namespace = SECRET_SERVICE_NAMESPACE)
              then action_validate bridged
              else Err (VaultError.Protocol "invalid bridged keyring action")
          | _ => Err (VaultError.Protocol "invalid bridged keyring action")
          end
      | None => Ok tt
      end
  | VaultAction.Status | VaultAction.ListPermissions | VaultAction.ExportRevision => Ok tt
  | VaultAction.ListPermissionsPage _ cursor => validate_permission_id cursor
  | VaultAction.ListVaultEntries cursor limit =>
      _ ← validate_list_limit limit;
      validate_opt validate_address_cursor cursor
  | VaultAction.ExportVaultEntry entry | VaultAction.ImportVaultEntry entry _ _ _ =>
      validate_transfer entry
  | VaultAction.WaitPermissions _ timeout_ms =>
      fail_if (negb ((1 <=? timeout_ms) && (timeout_ms <=? MAX_PERMISSION_WAIT_MS)))
        (VaultError.Protocol "permission wait timeout is outside the supported range")
  | VaultAction.WaitPermission id timeout_ms =>
      _ ← fail_if (negb ((1 <=? timeout_ms) && (timeout_ms <=? MAX_PERMISSION_WAIT_MS)))
            (VaultError.Protocol "permission wait timeout is outside the supported range");
      validate_permission_id id
  | VaultAction.ApprovePermission id signature duration_seconds single_use =>
      _ ← validate_permission_id id;
      _ ← fail_if (single_use && bool_decide (is_Some duration_seconds))
            (VaultError.Protocol "a single-use approval takes no duration");
      _ ← fail_if (bool_decide (signature = [])
                   || (16 * 1024 <? Z.of_nat (length signature)))
            (VaultError.Protocol "permission signature is empty or too long");
      fail_if (bool_decide (duration_seconds = Some 0))
        (VaultError.Protocol "permission duration must be positive")
  | VaultAction.DenyPermission id | VaultAction.RevokePermission id =>
      validate_permission_id id
  | VaultAction.Get namespace address | VaultAction.Delete namespace address
  | VaultAction.Put namespace address _ _ =>
      _ ← validate_namespace namespace;
      _ ← resolve address; Ok tt
  | VaultAction.GetProject project address | VaultAction.PutProject project address _
  | VaultAction.DeleteProject project address | VaultAction.GetCache project address
  | VaultAction.WriteCacheFromDialog project address _ _
  | VaultAction.PutCache project address _ _ | VaultAction.DeleteCache project address =>
      validate_project_address project address
  | VaultAction.ListProjects cursor limit =>
      _ ← validate_list_limit limit;
      validate_opt validate_project cursor
  | VaultAction.ListProjectAddresses project cursor limit =>
      _ ← validate_project project;
      _ ← validate_list_limit limit;
      validate_opt validate_address_cursor cursor
  | VaultAction.ListHistory namespace address _ limit =>
      _ ← validate_namespace namespace;
      _ ← validate_history_limit limit;
      validate_opt (λ a, _ ← resolve a; Ok tt) address
  | VaultAction.ListProjectHistory project address _ limit
  | VaultAction.ListCacheHistory project address _ limit =>
      _ ← validate_history_limit limit;
      match address with
      | Some address => validate_project_address project address
      | None => validate_project project
      end
  | VaultAction.Mutate namespace mutations =>
      _ ← validate_namespace namespace;
      _ ← fail_if (bool_decide (mutations = [])
                   || (MAX_MUTATIONS_PER_REQUEST <? Z.of_nat (length mutations)))
            (VaultError.Protocol "mutation request must contain between one and 64 operations");
      _ ← try_collect mutation_validate mutations; Ok tt
  | VaultAction.Clear namespace | VaultAction.Seal namespace => validate_namespace namespace
  | VaultAction.ClearCache project | VaultAction.SealCache project => validate_project project
  end.
