(* ===== verification/KeyringIndex.v ===== *)
(** Portable records of the system keyring
    (src/src/vault/secret_service_data.rs): the index of items, and an item that
    travels with its metadata. *)
From Stdlib Require Import ZArith Lia Bool.
From stdpp Require Import base gmap strings list.
From S2P Require Import Prelude Core Address Text Wire.

Definition INDEX_ITEM : string := "secret-service-index".

Record IndexItem : Type := {
  ii_id : string;
  ii_label : string;
  ii_attributes : gmap string string;
  ii_content_type : string;
  ii_created : Z;
  ii_modified : Z
}.

Record Index : Type := { ix_version : Z; ix_items : list IndexItem }.

Definition index_default : Index := {| ix_version := 1; ix_items := [] |}.

Definition index_item_validate (item : IndexItem) : VaultResult () :=
  fail_if (negb (str_len (ii_id item) =? 32)
           || negb (forallb is_ascii_hexdigit (as_bytes (ii_id item))))
    (VaultError.InvalidData "invalid Secret Service item ID").

(** [IndexItem::address]. *)
Definition index_item_address (item : IndexItem) : VaultResult SecretAddress :=
  address_new ("item/" +:+ ii_id item) None.

(** The loop of [Index::decode]; [ids] are the identifiers seen so far. *)
Fixpoint validate_items (ids : list string) (items : list IndexItem) : VaultResult () :=
  match items with
  | [] => Ok tt
  | item :: items =>
      _ ← index_item_validate item;
      _ ← fail_if (bool_decide (ii_id item ∈ ids))
            (VaultError.InvalidData "duplicate Secret Service item ID");
      validate_items (ii_id item :: ids) items
  end.

Definition index_decode `{Serde Index} (b : option bytes) : VaultResult Index :=
  index ← match b with
          | Some b => map_err (λ e, VaultError.InvalidData
                        ("invalid Secret Service index: " +:+ e)) (serde_from_slice b)
          | None => Ok index_default
          end;
  _ ← fail_if (negb (ix_version index =? 1)
               || (100000 <? Z.of_nat (length (ix_items index))))
        (VaultError.InvalidData "unsupported Secret Service index");
  _ ← validate_items [] (ix_items index);
  Ok index.

(** Metadata and value of one item. *)
Record PortableItem : Type := { pi_version : Z; pi_item : IndexItem; pi_value : bytes }.

Definition portable_new (item : IndexItem) (value : bytes) : PortableItem := {|
  pi_version := 1; pi_item := item; pi_value := value |}.

Definition portable_encode `{Serde PortableItem} (p : PortableItem) : VaultResult bytes :=
  map_err VaultError.InvalidData (serde_to_vec p).

Definition portable_decode `{Serde PortableItem} (b : bytes) (address : SecretAddress)
    : VaultResult PortableItem :=
  item ← map_err VaultError.InvalidData (serde_from_slice b);
  _ ← index_item_validate (pi_item item);
  item_address ← index_item_address (pi_item item);
  _ ← fail_if (negb (pi_version item =? 1) || negb (bool_decide (item_address = address)))
        (VaultError.InvalidData "invalid portable Secret Service item");
  Ok item.

(** ** Access projects *)

Definition SLASH : Byte.byte := Byte.x2f.

(** [serde_json::to_vec] of the attributes in order; it does not fail on text. *)
Class AttributeJson := attribute_json : gmap string string → bytes.

Definition service_target `{Sha256, AttributeJson} (attributes : gmap string string) : string :=
  match attributes !! "service" with
  | Some service =>
      if negb (str_empty service) then "service/" +:+ service
      else "attributes/" +:+ hex_text (sha256 (attribute_json attributes))
  | None => "attributes/" +:+ hex_text (sha256 (attribute_json attributes))
  end.

(** [access_project]: the project and profile a keyring service names. *)
Definition access_project (service : string) : string * option string :=
  match splitn 4 SLASH (default (as_bytes service) (strip_prefix (as_bytes "service/") (as_bytes service))) with
  | [p0; p1; p2; p3] =>
      if bool_decide (p0 = as_bytes "secretspec") && negb (bool_decide (p1 = []))
         && negb (bool_decide (p2 = []))
      then ("secretspec/" +:+ of_bytes p1, Some (of_bytes p2))
      else (service, None)
  | _ => (service, None)
  end.

Example access_project_item :
  access_project "service/secretspec/shop/prod/KEY/extra" = ("secretspec/shop", Some "prod").
Proof. reflexivity. Qed.
Example access_project_other : access_project "service/mail" = ("service/mail", None).
Proof. reflexivity. Qed.

(** A decoded index names each item once. *)
Lemma validate_items_NoDup ids items :
  validate_items ids items = Ok tt →
  NoDup (map ii_id items) ∧ ∀ item, item ∈ items → ii_id item ∉ ids.
Proof.
  revert ids; induction items as [|item items IH]; intros ids; cbn.
  - intros _. split; [constructor|]. intros item Hi. by apply elem_of_nil in Hi.
  - intros Hv. inv_ok. bool_prop. apply IH in Hv as [Hnd Hnew]. split.
    + constructor; [|done]. intros (x & Hx & Hin)%list_elem_of_fmap.
      apply (Hnew x Hin). rewrite <- Hx. by left.
    + intros x [->|Hx]%elem_of_cons; [done|]. intros Hin. apply (Hnew x Hx). by right.
Qed.

Lemma index_decode_NoDup `{Serde Index} b index :
  index_decode b = Ok index → NoDup (map ii_id (ix_items index)).
Proof.
  unfold index_decode. intros Hd. inv_ok. by apply validate_items_NoDup in Ha1 as [? _].
Qed.

(** A decoded index holds valid items. *)
Lemma validate_items_valid ids items :
  validate_items ids items = Ok tt → Forall (λ item, index_item_validate item = Ok tt) items.
Proof.
  revert ids; induction items as [|item items IH]; intros ids; cbn; [by constructor|].
  intros Hv. inv_ok. constructor; [done|]. by eapply IH.
Qed.
Lemma index_decode_valid `{Serde Index} b index :
  index_decode b = Ok index → Forall (λ item, index_item_validate item = Ok tt) (ix_items index).
Proof. unfold index_decode. intros Hd. inv_ok. by eapply validate_items_valid. Qed.

(** What is encoded decodes under the address of its item. *)
Lemma portable_round_trip `{SerdeOk PortableItem} item value b address :
  portable_encode (portable_new item value) = Ok b →
  index_item_validate item = Ok tt → index_item_address item = Ok address →
  portable_decode b address = Ok (portable_new item value).
Proof.
  unfold portable_encode, portable_decode. intros He Hv Ha. inv_ok.
  rewrite (serde_roundtrip _ _ He). cbn -[index_item_validate index_item_address].
  rewrite Hv. cbn -[index_item_address]. rewrite Ha. cbn. by rewrite bool_decide_true.
Qed.
