(* ===== verification/History.v ===== *)
(** Change history recorded beside every encrypted document
    (src/src/vault/history.rs): value-free entries with strictly increasing
    sequence numbers, kept in a log that is bounded per document kind. *)
From Stdlib Require Import ZArith Lia Bool.
From stdpp Require Import base gmap strings list.
From S2P Require Import Prelude Core Instances Address Text Wire.

Definition HISTORY_ENTRY_VERSION : Z := 1.
Definition HISTORY_LOG_VERSION : Z := 1.
Definition VERSION_ID_BYTES : Z := 16.
Definition MAX_DECLARED_FIELD_BYTES : Z := 512.

(** ** Bounded display text *)

(** [str::is_char_boundary]: not in the middle of a UTF-8 sequence. *)
Definition is_char_boundary (value : bytes) (i : nat) : bool :=
  match i with
  | O => true
  | _ => match value !! i with
         | Some b => negb (byte_between 128 191 b)
         | None => (i =? length value)%nat
         end
  end.

(** The [while !value.is_char_boundary(end) { end -= 1 }] loop. *)
Fixpoint boundary_below (value : bytes) (e : nat) : nat :=
  if is_char_boundary value e then e
  else match e with O => O | S e => boundary_below value e end.

Definition bounded (value : string) : string :=
  if str_len value <=? MAX_DECLARED_FIELD_BYTES then value
  else String.substring 0 (boundary_below (as_bytes value) (Z.to_nat MAX_DECLARED_FIELD_BYTES)) value.

(** ** Entries *)

Module HistoryOperation.
Inductive history_operation : Set :=
| Put (changed : bool)
| Delete
| Clear
| Expire.
End HistoryOperation.

Module ServiceReason.
Inductive service_reason : Set :=
| PersonalSync | PersonalMigration | GrantStorage | Expiry.
End ServiceReason.

Record DeclaredApplication : Set := {
  da_project : option string;
  da_profile : option string;
  da_base_dir : option string;
  da_reason : option string
}.

Definition declared_from (c : VaultApplicationContext) : DeclaredApplication := {|
  da_project := bounded <$> app_project c;
  da_profile := bounded <$> app_profile c;
  da_base_dir := bounded <$> app_base_dir c;
  da_reason := bounded <$> app_reason c
|}.

Module Provenance.
Inductive provenance : Set :=
| Caller (principal : PermissionPrincipal) (application : option DeclaredApplication)
| Service (reason : ServiceReason.service_reason)
| Redacted.
End Provenance.

Definition provenance_caller (identity : CallerIdentity)
    (application : option VaultApplicationContext) : Provenance.provenance :=
  Provenance.Caller (principal_from identity) (declared_from <$> application).

Definition provenance_service (reason : ServiceReason.service_reason) : Provenance.provenance :=
  Provenance.Service reason.

Record HistoryEntry : Set := {
  he_version : Z;
  he_seq : Z;
  he_at : Z;
  he_operation : HistoryOperation.history_operation;
  he_address : SecretAddress;
  he_version_id : option bytes;
  he_previous_version_id : option bytes;
  he_evict_at : option Z;
  he_provenance : Provenance.provenance;
  he_device_key_id : bytes
}.

#[export] Instance history_operation_eq_dec : EqDecision HistoryOperation.history_operation.
Proof. solve_decision. Defined.
#[export] Instance service_reason_eq_dec : EqDecision ServiceReason.service_reason.
Proof. solve_decision. Defined.
#[export] Instance declared_application_eq_dec : EqDecision DeclaredApplication.
Proof. solve_decision. Defined.
#[export] Instance provenance_eq_dec : EqDecision Provenance.provenance.
Proof. solve_decision. Defined.
#[export] Instance history_entry_eq_dec : EqDecision HistoryEntry.
Proof. solve_decision. Defined.

Record PendingHistory : Set := {
  ph_operation : HistoryOperation.history_operation;
  ph_address : SecretAddress;
  ph_version_id : option bytes;
  ph_previous_version_id : option bytes;
  ph_evict_at : option Z
}.

Definition entry_new (seq at_ : Z) (pending : PendingHistory)
    (provenance : Provenance.provenance) (device_key_id : bytes) : HistoryEntry := {|
  he_version := HISTORY_ENTRY_VERSION;
  he_seq := seq;
  he_at := at_;
  he_operation := ph_operation pending;
  he_address := ph_address pending;
  he_version_id := ph_version_id pending;
  he_previous_version_id := ph_previous_version_id pending;
  he_evict_at := ph_evict_at pending;
  he_provenance := provenance;
  he_device_key_id := device_key_id
|}.

Definition is_supported (e : HistoryEntry) : bool := he_version e =? HISTORY_ENTRY_VERSION.

(** ** Retention *)

Record HistoryRetention : Set := {
  max_entries : Z;
  max_bytes : Z;
  record_unchanged : bool
}.

Definition history_retention (k : DocumentKind) : HistoryRetention :=
  match k with
  | SecretSpecProject =>
      {| max_entries := 2048; max_bytes := 1024 * 1024; record_unchanged := true |}
  | Authorization | LinuxSecretService | NetworkManagerWifi | LocalKeyring =>
      {| max_entries := 1024; max_bytes := 512 * 1024; record_unchanged := true |}
  | SecretSpecProviderCache =>
      {| max_entries := 64; max_bytes := 64 * 1024; record_unchanged := false |}
  end.

(** ** The log *)

Record HistoryLog : Set := {
  hl_version : Z;
  hl_kind : DocumentKind;
  hl_partition : bytes;
  hl_next_seq : Z;
  hl_entries : list HistoryEntry
}.

#[export] Instance history_log_eq_dec : EqDecision HistoryLog.
Proof. solve_decision. Defined.

Definition log_new (kind : DocumentKind) (partition : bytes) : HistoryLog := {|
  hl_version := HISTORY_LOG_VERSION;
  hl_kind := kind;
  hl_partition := partition;
  hl_next_seq := 0;
  hl_entries := []
|}.

Definition log_validate (log : HistoryLog) (kind : DocumentKind)
    (expected_partition : option bytes) : VaultResult () :=
  _ ← fail_if (negb (hl_version log =? HISTORY_LOG_VERSION))
        (VaultError.InvalidData "unsupported secret document history version");
  _ ← fail_if (negb (bool_decide (hl_kind log = kind))
               || opt_test (λ p, negb (bool_decide (hl_partition log = p))) expected_partition)
        (VaultError.InvalidData "secret document history does not match its document");
  _ ← fail_if (existsb (λ e, negb (is_supported e)) (hl_entries log))
        (VaultError.InvalidData "unsupported secret document history entry");
  fail_if (any_window2 (λ a b, he_seq b <=? he_seq a) (hl_entries log)
           || opt_test (λ l, hl_next_seq log <=? he_seq l) (last (hl_entries log)))
    (VaultError.InvalidData "secret document history is not strictly ordered").

Definition log_load `{Serde HistoryLog} (b : bytes) (kind : DocumentKind)
    (expected_partition : option bytes) : VaultResult HistoryLog :=
  log ← map_err VaultError.InvalidData (serde_from_slice b);
  _ ← log_validate log kind expected_partition;
  Ok log.

Definition from_legacy_document (kind : DocumentKind) (partition : bytes) (next_seq : Z)
    (entries : list HistoryEntry) : VaultResult HistoryLog :=
  let log := {| hl_version := HISTORY_LOG_VERSION; hl_kind := kind;
    hl_partition := partition; hl_next_seq := next_seq; hl_entries := entries |} in
  _ ← log_validate log kind (Some partition);
  Ok log.

Definition log_serialize `{Serde HistoryLog} (log : HistoryLog) : VaultResult bytes :=
  map_err VaultError.InvalidData (serde_to_vec log).

Definition set_entries (log : HistoryLog) (es : list HistoryEntry) : HistoryLog := {|
  hl_version := hl_version log; hl_kind := hl_kind log; hl_partition := hl_partition log;
  hl_next_seq := hl_next_seq log; hl_entries := es |}.

Definition set_entry_address (e : HistoryEntry) (a : SecretAddress) : HistoryEntry := {|
  he_version := he_version e; he_seq := he_seq e; he_at := he_at e;
  he_operation := he_operation e; he_address := a; he_version_id := he_version_id e;
  he_previous_version_id := he_previous_version_id e; he_evict_at := he_evict_at e;
  he_provenance := he_provenance e; he_device_key_id := he_device_key_id e |}.

Definition migrate_addresses (log : HistoryLog)
    (mappings : list (SecretAddress * SecretAddress)) : HistoryLog :=
  set_entries log
    (map (λ e, match find_first (λ m, bool_decide (m.1 = he_address e)) mappings with
               | Some (_, new) => set_entry_address e new
               | None => e
               end) (hl_entries log)).

(** The loop of [record] that numbers and appends one generation's changes. *)
Fixpoint append_pending (log : HistoryLog) (pending : list PendingHistory) (at_ : Z)
    (provenance : Provenance.provenance) (device_key_id : bytes)
    : VaultResult () * HistoryLog :=
  match pending with
  | [] => (Ok tt, log)
  | p :: pending =>
      let seq := hl_next_seq log in
      match u64_checked_add seq 1 with
      | None =>
          (Err (VaultError.InvalidData "secret document history sequence is exhausted"), log)
      | Some next =>
          append_pending
            {| hl_version := hl_version log; hl_kind := hl_kind log;
               hl_partition := hl_partition log; hl_next_seq := next;
               hl_entries := hl_entries log ++
                 [entry_new seq at_ p provenance device_key_id] |}
            pending at_ provenance device_key_id
      end
  end.

(** The [while] loop of [record]: drop the oldest entry while the log has too
    many entries or too many serialized bytes. *)
Fixpoint trim (r : HistoryRetention) (entries : list HistoryEntry) (sizes : list Z)
    (total : Z) : list HistoryEntry :=
  match entries, sizes with
  | _ :: rest, size :: sizes =>
      if (max_entries r <? Z.of_nat (length entries)) || (max_bytes r <? total)
      then trim r rest sizes (total - size)
      else entries
  | _, _ => entries
  end.

Definition sum_sizes (sizes : list Z) : Z := foldr Z.add 0 sizes.

Definition entry_size `{Serde HistoryEntry} (e : HistoryEntry) : VaultResult Z :=
  b ← map_err VaultError.InvalidData (serde_to_vec e); Ok (Z.of_nat (length b)).

Definition record `{Serde HistoryEntry} (log : HistoryLog) (pending : list PendingHistory)
    (at_ : Z) (provenance : Provenance.provenance) (device_key_id : bytes)
    : VaultResult () * HistoryLog :=
  match append_pending log pending at_ provenance device_key_id with
  | (Err e, log) => (Err e, log)
  | (Ok _, log) =>
      match try_collect entry_size (hl_entries log) with
      | Err e => (Err e, log)
      | Ok sizes =>
          (Ok tt, set_entries log
             (trim (history_retention (hl_kind log)) (hl_entries log) sizes
                (sum_sizes sizes)))
      end
  end.

(** ** Well-formed logs *)

(** Sequence numbers increase from each entry to the next. *)
Definition seq_increasing (es : list HistoryEntry) : Prop :=
  ∀ i a b, es !! i = Some a → es !! S i = Some b → he_seq a < he_seq b.

Definition log_wf (log : HistoryLog) : Prop :=
  hl_version log = HISTORY_LOG_VERSION
  ∧ Forall (λ e, he_version e = HISTORY_ENTRY_VERSION) (hl_entries log)
  ∧ seq_increasing (hl_entries log)
  ∧ ∀ e, last (hl_entries log) = Some e → he_seq e < hl_next_seq log.

Lemma existsb_unsupported es :
  existsb (λ e, negb (is_supported e)) es = false ↔
  Forall (λ e, he_version e = HISTORY_ENTRY_VERSION) es.
Proof.
  unfold is_supported. induction es as [|e es IH]; cbn; [done|].
  rewrite orb_false_iff, negb_false_iff, Z.eqb_eq, IH, Forall_cons. done.
Qed.

Lemma log_validate_Ok log kind p :
  log_validate log kind p = Ok tt ↔
  log_wf log ∧ hl_kind log = kind ∧ (∀ q, p = Some q → hl_partition log = q).
Proof.
  unfold log_validate, log_wf.
  rewrite !then_Ok, !fail_if_Ok.
  rewrite existsb_unsupported, orb_false_iff, orb_false_iff.
  rewrite (any_window2_false (λ a b, he_seq a < he_seq b)) by (intros; apply Z.leb_gt).
  rewrite !negb_false_iff, Z.eqb_eq, bool_decide_eq_true.
  assert (Hp : opt_test (λ p, negb (bool_decide (hl_partition log = p))) p = false ↔
    ∀ q, p = Some q → hl_partition log = q).
  { destruct p as [q|]; cbn; [|naive_solver].
    rewrite negb_false_iff, bool_decide_eq_true. naive_solver. }
  assert (Hl : opt_test (λ l, hl_next_seq log <=? he_seq l) (last (hl_entries log)) = false ↔
    ∀ e, last (hl_entries log) = Some e → he_seq e < hl_next_seq log).
  { destruct (last (hl_entries log)) as [e|]; cbn; [|naive_solver].
    rewrite Z.leb_gt. naive_solver. }
  rewrite Hp, Hl. unfold seq_increasing. split.
  - intros. by destruct_and?.
  - intros. by destruct_and?.
Qed.

Lemma seq_increasing_snoc es e :
  seq_increasing es → (∀ l, last es = Some l → he_seq l < he_seq e) →
  seq_increasing (es ++ [e]).
Proof.
  intros Hs Hl i a b Ha Hb.
  pose proof (lookup_lt_Some _ _ _ Hb) as Hlt. rewrite length_app in Hlt; cbn in Hlt.
  destruct (decide (S i < length es)%nat) as [Hi|Hi].
  - rewrite lookup_app_l in Ha, Hb by lia. by eapply Hs.
  - assert (S i = length es) as Hlen by lia.
    rewrite Hlen, list_lookup_middle in Hb by done. injection Hb as <-.
    apply Hl. rewrite lookup_app_l in Ha by lia.
    rewrite last_lookup, <- Hlen. done.
Qed.

Lemma seq_increasing_drop k es : seq_increasing es → seq_increasing (drop k es).
Proof.
  intros Hs i a b. rewrite !lookup_drop, Nat.add_succ_r. apply Hs.
Qed.

Lemma last_drop_Some {A} k (l : list A) x : last (drop k l) = Some x → last l = Some x.
Proof.
  revert l; induction k as [|k IH]; intros [|y l]; cbn [drop]; try done.
  intros H%IH. rewrite last_cons, H. done.
Qed.

(** ** Appending *)

(** The entries one generation appends. *)
Definition numbered (next at_ : Z) (pending : list PendingHistory)
    (provenance : Provenance.provenance) (device_key_id : bytes) : list HistoryEntry :=
  imap (λ i p, entry_new (next + Z.of_nat i) at_ p provenance device_key_id) pending.

Lemma append_pending_spec log pending at_ prov dev :
  (append_pending log pending at_ prov dev).1 = Ok tt →
  (append_pending log pending at_ prov dev).2 =
    {| hl_version := hl_version log; hl_kind := hl_kind log; hl_partition := hl_partition log;
       hl_next_seq := hl_next_seq log + Z.of_nat (length pending);
       hl_entries := hl_entries log ++ numbered (hl_next_seq log) at_ pending prov dev |}.
Proof.
  unfold numbered. revert log; induction pending as [|p ps IH]; intros log; cbn.
  - intros _. rewrite app_nil_r, Z.add_0_r. by destruct log.
  - destruct (u64_checked_add (hl_next_seq log) 1) as [n|] eqn:Hn; [|done].
    apply u64_checked_add_Some in Hn as [-> _]. intros Hok. rewrite IH by done. cbn.
    f_equal; [lia|]. rewrite <- app_assoc. cbn. rewrite Z.add_0_r. do 2 f_equal.
    apply imap_ext. intros. cbn. f_equal. lia.
Qed.

Lemma append_pending_wf log pending at_ prov dev :
  log_wf log → (append_pending log pending at_ prov dev).1 = Ok tt →
  log_wf (append_pending log pending at_ prov dev).2.
Proof.
  revert log; induction pending as [|p ps IH]; intros log Hwf; cbn; [done|].
  destruct (u64_checked_add (hl_next_seq log) 1) as [n|] eqn:Hn; [|done].
  apply u64_checked_add_Some in Hn as [-> _]. apply IH.
  destruct Hwf as (Hv & Hall & Hinc & Hlast). repeat split; cbn; [done|..].
  - rewrite Forall_app. split; [done|]. by repeat constructor.
  - apply seq_increasing_snoc; done.
  - intros e. rewrite last_snoc. intros [= <-]. cbn. lia.
Qed.

(** ** Trimming *)

Definition within (r : HistoryRetention) (sizes : list Z) : Prop :=
  Z.of_nat (length sizes) ≤ max_entries r ∧ sum_sizes sizes ≤ max_bytes r.

(** [trim] keeps the longest suffix within the retention. *)
Lemma trim_spec r es sizes :
  0 ≤ max_entries r → 0 ≤ max_bytes r → length es = length sizes →
  ∃ k, trim r es sizes (sum_sizes sizes) = drop k es
    ∧ within r (drop k sizes)
    ∧ ∀ j, (j < k)%nat → ¬ within r (drop j sizes).
Proof.
  intros He Hb. revert sizes; induction es as [|e es IH]; intros [|s sizes] Hlen; try done.
  { exists 0%nat. repeat split; cbn; try lia. }
  cbn [trim].
  destruct ((max_entries r <? Z.of_nat (length (e :: es)))
    || (max_bytes r <? sum_sizes (s :: sizes))) eqn:Hc.
  - replace (sum_sizes (s :: sizes) - s) with (sum_sizes sizes) by (unfold sum_sizes; cbn [foldr]; lia).
    destruct (IH sizes) as (k & Hk & Hw & Hmax); [by injection Hlen|].
    exists (S k). split_and!; [done..|].
    intros [|j] Hj; cbn [drop]; [|apply Hmax; lia].
    unfold within. bool_prop. rewrite Hlen in Hc. cbn [length] in *. lia.
  - exists 0%nat. split_and!; [done| |lia]. unfold within; cbn [drop].
    bool_prop. rewrite Hlen in Hc. lia.
Qed.

Lemma history_retention_nonneg k :
  0 ≤ max_entries (history_retention k) ∧ 0 ≤ max_bytes (history_retention k).
Proof. destruct k; cbn; lia. Qed.

Section Record.
Context `{Serde HistoryEntry}.

(** Serialized sizes of a list of entries, when all of them serialize. *)
Definition sizes_of (es : list HistoryEntry) (sizes : list Z) : Prop :=
  try_collect entry_size es = Ok sizes.

Lemma sizes_of_drop k es sizes : sizes_of es sizes → sizes_of (drop k es) (drop k sizes).
Proof. unfold sizes_of. rewrite !try_collect_Ok. apply Forall2_drop. Qed.

Lemma record_spec log pending at_ prov dev log' :
  record log pending at_ prov dev = (Ok tt, log') →
  let all := hl_entries log ++ numbered (hl_next_seq log) at_ pending prov dev in
  ∃ k sizes,
    sizes_of all sizes
    ∧ log' = {| hl_version := hl_version log; hl_kind := hl_kind log;
                hl_partition := hl_partition log;
                hl_next_seq := hl_next_seq log + Z.of_nat (length pending);
                hl_entries := drop k all |}
    ∧ within (history_retention (hl_kind log)) (drop k sizes)
    ∧ ∀ j, (j < k)%nat → ¬ within (history_retention (hl_kind log)) (drop j sizes).
Proof.
  unfold record. intros Hrec.
  pose proof (append_pending_spec log pending at_ prov dev) as Hspec.
  destruct (append_pending log pending at_ prov dev) as [[[]|] l1]; [|done].
  specialize (Hspec eq_refl). cbn in Hspec. subst l1. cbn [hl_entries hl_kind] in Hrec.
  destruct (try_collect entry_size _) as [sizes|] eqn:Hsz; [|done].
  injection Hrec as <-.
  destruct (history_retention_nonneg (hl_kind log)) as [H1 H2].
  pose proof Hsz as Hlen. apply try_collect_Ok, Forall2_length in Hlen.
  destruct (trim_spec _ _ _ H1 H2 Hlen) as (k & Hk & Hw & Hmax).
  exists k, sizes. rewrite Hk. done.
Qed.

Lemma record_wf log pending at_ prov dev log' :
  log_wf log → record log pending at_ prov dev = (Ok tt, log') → log_wf log'.
Proof.
  intros Hwf. pose proof (append_pending_wf log pending at_ prov dev Hwf) as Hwf1.
  intros Hrec. pose proof (record_spec _ _ _ _ _ _ Hrec) as (k & sizes & _ & -> & _).
  unfold record in Hrec. pose proof (append_pending_spec log pending at_ prov dev) as Hspec.
  destruct (append_pending log pending at_ prov dev) as [[[]|] l1]; [|done].
  specialize (Hspec eq_refl). cbn in Hspec. subst l1.
  destruct (Hwf1 eq_refl) as (Hv & Hall & Hinc & Hlast). cbn in *.
  repeat split; cbn; [done| | |].
  - by apply Forall_drop.
  - by apply seq_increasing_drop.
  - intros e He%last_drop_Some. by apply Hlast.
Qed.
End Record.

(** The serialized sizes of a suffix are the suffix of the sizes. *)
Lemma within_sizes `{Serde HistoryEntry} r es sizes k :
  sizes_of es sizes → within r (drop k sizes) →
  Z.of_nat (length (drop k es)) ≤ max_entries r
  ∧ ∃ kept, sizes_of (drop k es) kept ∧ sum_sizes kept ≤ max_bytes r.
Proof.
  intros Hs [Hn Hb]. pose proof (sizes_of_drop k _ _ Hs) as Hd. split; [|eauto].
  apply try_collect_Ok, Forall2_length in Hd. lia.
Qed.

(** ** Claims *)

(** Recording a generation in a valid log gives a valid log: entries
    supported and strictly ordered below the next sequence number, no more of
    them than the kind retains, and no more serialized bytes. *)
Theorem record_keeps_log_valid `{Serde HistoryEntry} log pending at_ prov dev log' kind p :
  log_validate log kind p = Ok tt →
  record log pending at_ prov dev = (Ok tt, log') →
  log_validate log' kind p = Ok tt
  ∧ Z.of_nat (length (hl_entries log')) ≤ max_entries (history_retention kind)
  ∧ ∃ sizes, sizes_of (hl_entries log') sizes
      ∧ sum_sizes sizes ≤ max_bytes (history_retention kind).
Proof.
  rewrite !log_validate_Ok. intros (Hwf & <- & Hp) Hrec.
  pose proof (record_wf _ _ _ _ _ _ Hwf Hrec) as Hwf'.
  destruct (record_spec _ _ _ _ _ _ Hrec) as (k & sizes & Hs & -> & Hw & _).
  split; [done|]. by eapply within_sizes.
Qed.

(** Recording appends the generation's changes in order under the next
    unused sequence numbers, so trimming never reuses one, and then drops
    exactly the oldest entries that do not fit: the kept entries are the longest
    suffix within the kind's limits. *)
Theorem record_appends_then_trims_oldest `{Serde HistoryEntry}
    log pending at_ prov dev log' :
  record log pending at_ prov dev = (Ok tt, log') →
  let all := hl_entries log ++ numbered (hl_next_seq log) at_ pending prov dev in
  hl_next_seq log' = hl_next_seq log + Z.of_nat (length pending)
  ∧ ∃ k sizes, hl_entries log' = drop k all ∧ sizes_of all sizes
      ∧ within (history_retention (hl_kind log)) (drop k sizes)
      ∧ ∀ j, (j < k)%nat → ¬ within (history_retention (hl_kind log)) (drop j sizes).
Proof.
  intros Hrec all. destruct (record_spec _ _ _ _ _ _ Hrec) as (k & sizes & Hs & -> & Hw & Hmax).
  split; [done|]. by exists k, sizes.
Qed.

(** A recorded log survives persistence: what [serialize] writes, [load]
    reads back unchanged for the same document kind and partition. *)
Theorem recorded_log_round_trips `{Serde HistoryEntry} `{SerdeOk HistoryLog}
    log pending at_ prov dev log' b :
  log_validate log (hl_kind log) (Some (hl_partition log)) = Ok tt →
  record log pending at_ prov dev = (Ok tt, log') →
  log_serialize log' = Ok b →
  log_load b (hl_kind log) (Some (hl_partition log)) = Ok log'.
Proof.
  intros Hv Hrec Hser. unfold log_serialize in Hser.
  apply map_err_Ok, serde_roundtrip in Hser. unfold log_load. rewrite Hser. cbn.
  assert (Hv' : log_validate log' (hl_kind log) (Some (hl_partition log)) = Ok tt).
  { apply log_validate_Ok in Hv as (Hwf & _ & _). apply log_validate_Ok.
    pose proof (record_wf _ _ _ _ _ _ Hwf Hrec).
    destruct (record_spec _ _ _ _ _ _ Hrec) as (k & sizes & _ & -> & _). naive_solver. }
  by rewrite Hv'.
Qed.

Module HistoryWitness.
Definition demo_pending : PendingHistory := {|
  ph_operation := HistoryOperation.Put true; ph_address := Local "a" None;
  ph_version_id := Some [Byte.x01]; ph_previous_version_id := None; ph_evict_at := None |}.
Definition demo_log : HistoryLog := log_new SecretSpecProviderCache [Byte.x07].
Definition demo_prov : Provenance.provenance := provenance_service ServiceReason.Expiry.
(** Every entry serializes to 40000 bytes, so a cache log keeps one of two. *)
Definition demo_entry_serde : Serde HistoryEntry := {|
  serde_to_vec _ := Ok (replicate 40000 Byte.x00);
  serde_from_slice _ := Err "unused"
|}.
Definition demo_recorded : HistoryLog :=
  (@record demo_entry_serde demo_log [demo_pending; demo_pending] 10 demo_prov []).2.
Definition demo_log_serde : Serde HistoryLog := table_serde [demo_recorded].
End HistoryWitness.

Example record_keeps_log_valid_witness :
  log_validate HistoryWitness.demo_recorded SecretSpecProviderCache None = Ok tt.
Proof.
  refine (proj1 (@record_keeps_log_valid HistoryWitness.demo_entry_serde
    HistoryWitness.demo_log [HistoryWitness.demo_pending; HistoryWitness.demo_pending] 10
    HistoryWitness.demo_prov [] HistoryWitness.demo_recorded SecretSpecProviderCache None _ _)).
  - reflexivity.
  - vm_compute. reflexivity.
Defined.

Example record_appends_then_trims_oldest_witness :
  hl_next_seq HistoryWitness.demo_recorded = 2
  ∧ length (hl_entries HistoryWitness.demo_recorded) = 1%nat.
Proof.
  split; [|vm_compute; reflexivity].
  refine (proj1 (@record_appends_then_trims_oldest HistoryWitness.demo_entry_serde
    HistoryWitness.demo_log [HistoryWitness.demo_pending; HistoryWitness.demo_pending] 10
    HistoryWitness.demo_prov [] HistoryWitness.demo_recorded _)).
  vm_compute. reflexivity.
Defined.

Example recorded_log_round_trips_witness :
  @log_load HistoryWitness.demo_log_serde [] SecretSpecProviderCache (Some [Byte.x07])
    = Ok HistoryWitness.demo_recorded.
Proof.
  apply (@recorded_log_round_trips HistoryWitness.demo_entry_serde
    HistoryWitness.demo_log_serde (table_serde_ok _)
    HistoryWitness.demo_log [HistoryWitness.demo_pending; HistoryWitness.demo_pending] 10
    HistoryWitness.demo_prov []).
  - reflexivity.
  - vm_compute. reflexivity.
  - vm_compute. reflexivity.
Defined.
