(* ===== verification/StoreSpec.v ===== *)
(** The interface of the encrypted store (src/src/vault/store.rs) as the
    service sees it: one scoped document per kind and partition, each a map from
    storage keys to records.  [VaultStore] names the operations, [VaultStoreOk]
    what they promise in terms of a view of the stored records; the grant,
    approval and action components are verified against it. *)
From Stdlib Require Import ZArith Lia Bool.
From stdpp Require Import base gmap strings list.
From S2P Require Import Prelude Core Address Text Wire History.

(** ** Fallible operations on a state *)

(** A method with mutable access: an early return keeps the changes made so
    far. *)
Definition SM (S A : Type) : Type := S → VaultResult A * S.

#[export] Instance sm_ret S : MRet (SM S) := λ A a s, (Ok a, s).
#[export] Instance sm_bind S : MBind (SM S) := λ A B f m s,
  match m s with
  | (Ok a, s) => f a s
  | (Err e, s) => (Err e, s)
  end.

(** A pure fallible step. *)
Definition lift {S A} (r : VaultResult A) : SM S A := λ s, (r, s).
(** Replace the error of a step ([map_err]), or handle it ([match]). *)
Definition catch {S A B} (m : SM S A) (f : VaultResult A → SM S B) : SM S B :=
  λ s, let '(r, s) := m s in f r s.

(** A step that reads and replaces the state. *)
Definition stateful {S A} (f : S → VaultResult A * S) : SM S A := f.
(** A step that only reads it. *)
Definition reading {S A} (f : S → VaultResult A) : SM S A := λ s, (f s, s).

Lemma sm_bind_Ok {S A B} (m : SM S A) (f : A → SM S B) s b s' :
  (m ≫= f) s = (Ok b, s') ↔ ∃ a s1, m s = (Ok a, s1) ∧ f a s1 = (Ok b, s').
Proof.
  unfold mbind, sm_bind. destruct (m s) as [[a|e] s1]; naive_solver.
Qed.

Lemma sm_bind_Err {S A B} (m : SM S A) (f : A → SM S B) s e s' :
  (m ≫= f) s = (Err e, s') ↔
    m s = (Err e, s') ∨ ∃ a s1, m s = (Ok a, s1) ∧ f a s1 = (Err e, s').
Proof.
  unfold mbind, sm_bind. destruct (m s) as [[a|e'] s1]; naive_solver.
Qed.

Lemma sm_bind_either {S A B} (m : SM S A) (f : A → SM S B) s r s' :
  (m ≫= f) s = (r, s') →
    (∃ e, m s = (Err e, s') ∧ r = Err e) ∨ ∃ a s1, m s = (Ok a, s1) ∧ f a s1 = (r, s').
Proof.
  unfold mbind, sm_bind. destruct (m s) as [[a|e] s1]; naive_solver.
Qed.

Lemma lift_Ok {S A} (r : VaultResult A) (s : S) a s' :
  lift r s = (Ok a, s') ↔ r = Ok a ∧ s' = s.
Proof. unfold lift. naive_solver. Qed.

(** Running a step whose result is known. *)
Lemma sm_run {S A} (m : SM S A) (s : S) r : (m s).1 = r → m s = (r, (m s).2).
Proof. intros <-. by destruct (m s). Qed.

(** Decompose a successful stateful sequence in a hypothesis. *)
Ltac inv_sm :=
  repeat match goal with
  | H : (mbind _ _) _ = (Ok _, _) |- _ =>
      let a := fresh "a" in let s := fresh "s" in let Ha := fresh "Ha" in
      apply sm_bind_Ok in H; destruct H as (a & s & Ha & H); cbv beta in H
  | H : lift _ _ = (Ok _, _) |- _ => apply lift_Ok in H; destruct H as [H ->]
  | H : (_, _) = (_, _) |- _ => injection H as H; try subst
  | H : mret _ _ = (Ok _, _) |- _ => unfold mret, sm_ret in H
  end; inv_ok.

(** ** Operations of the store *)

Module DocumentOperation.
Inductive document_operation : Set :=
| Put (address : SecretAddress) (value : bytes) (evict_at : option Z)
| Delete (address : SecretAddress).
End DocumentOperation.

(** A value with the deadline it expires at. *)
Record StoredSecret : Set := { ss_value : bytes; ss_expires_at : option Z }.

(** A page of items with the cursor to continue after. *)
Record StorePage (A : Type) : Type := { sp_items : list A; sp_next_cursor : option string }.
Arguments sp_items {A} _.
Arguments sp_next_cursor {A} _.
Record HistoryPage : Set := { hp_items : list HistoryEntry; hp_next_before_seq : option Z }.

Class VaultStore (S : Type) := {
  get_with_deadline :
    DocumentKind → bytes → SecretAddress → Z → SM S (option StoredSecret);
  get_many : DocumentKind → bytes → list SecretAddress → Z → SM S (list (option bytes));
  put_at : DocumentKind → bytes → SecretAddress → bytes → option Z →
    Provenance.provenance → Z → SM S ();
  mutate : DocumentKind → bytes → list DocumentOperation.document_operation →
    Provenance.provenance → Z → SM S ();
  delete_at : DocumentKind → bytes → SecretAddress → Provenance.provenance → Z → SM S bool;
  clear_at : DocumentKind → bytes → Provenance.provenance → Z → SM S Z;
  purge_expired_at : Z → SM S Z;
  list_projects : option string → Z → Z → SM S (StorePage string);
  list_project_addresses : string → option string → Z → Z → SM S (StorePage SecretSpecAddress);
  list_vault_entries : option string → Z → Z → SM S (StorePage VaultEntryMetadata);
  list_history : DocumentKind → bytes → option SecretAddress → option Z → Z → SM S HistoryPage;
  export_revision : SM S (option bytes)
}.

(** [VaultStore::get_at]. *)
Definition get_at `{VaultStore St} (scope : DocumentKind) (namespace : bytes)
    (address : SecretAddress) (now : Z) : SM St (option bytes) :=
  secret ← get_with_deadline scope namespace address now;
  mret (ss_value <$> secret).

(** ** What the store promises *)

Definition PERSONAL_SECRET_NAMESPACE : bytes := as_bytes "factorseal/personal-secrets/v1".

(** The personal document keeps revisions and replicas beside its records; what
    the store promises about contents is about the other documents. *)
Definition is_personal (k : DocumentKind) (p : bytes) : bool :=
  bool_decide (k = LocalKeyring) && bool_decide (p = PERSONAL_SECRET_NAMESPACE).

(** One stored record. *)
Record Cell : Set := {
  cell_address : SecretAddress;
  cell_value : bytes;
  cell_evict_at : option Z
}.

Abbreviation DocumentView := (gmap string Cell).
Definition StoreView : Type := DocumentKind → bytes → DocumentView.

(** A record whose eviction deadline has passed. *)
Definition evicted (c : Cell) (now : Z) : bool :=
  opt_test (λ deadline, deadline <=? now) (cell_evict_at c).

Section View.
Context `{Sha256, Base64}.

(** The live record at an address. *)
Definition view_read (v : DocumentView) (now : Z) (a : SecretAddress) : option Cell :=
  match v !! storage_key a with
  | Some c => if evicted c now then None else Some c
  | None => None
  end.

Definition apply_operation (v : DocumentView) (op : DocumentOperation.document_operation)
    : DocumentView :=
  match op with
  | DocumentOperation.Put a value evict_at =>
      <[storage_key a := {| cell_address := a; cell_value := value;
                            cell_evict_at := evict_at |}]> v
  | DocumentOperation.Delete a => delete (storage_key a) v
  end.

(** The address a change is about. *)
Definition operation_address (op : DocumentOperation.document_operation) : SecretAddress :=
  match op with DocumentOperation.Put a _ _ | DocumentOperation.Delete a => a end.

(** What a change leaves at its address. *)
Definition operation_cell (op : DocumentOperation.document_operation) : option Cell :=
  match op with
  | DocumentOperation.Put a value evict_at =>
      Some {| cell_address := a; cell_value := value; cell_evict_at := evict_at |}
  | DocumentOperation.Delete _ => None
  end.

Definition apply_operations (v : DocumentView)
    (ops : list DocumentOperation.document_operation) : DocumentView :=
  foldl apply_operation v ops.

(** Two views that differ at most in one document. *)
Definition same_elsewhere (v v' : StoreView) (k : DocumentKind) (p : bytes) : Prop :=
  ∀ k' p', (k', p') ≠ (k, p) → v' k' p' = v k' p'.

(** The effect of a document mutation that changes one document to [d]: exactly
    [d] on success, and on failure either nothing or, when only the final
    checkpoint failed, the whole change. *)
Definition committed {A} (r : VaultResult A) (v v' : StoreView) (k : DocumentKind) (p : bytes)
    (d : DocumentView) : Prop :=
  match r with
  | Ok _ => v' k p = d
  | Err _ => v' k p = v k p ∨ v' k p = d
  end.

(** Every record is filed under its own address. *)
Definition view_keyed (v : DocumentView) : Prop :=
  ∀ key c, v !! key = Some c → storage_key (cell_address c) = key.

(** The records whose deadlines have not passed. *)
Definition unexpired_records (d : DocumentView) (now : Z) : DocumentView :=
  filter (λ kc, evicted kc.2 now = false) d.

Class VaultStoreOk (St : Type) `{VaultStore St} := {
  view : St → StoreView;
  (** Reads several records at once; never writes. *)
  get_many_law s k p addresses now r s' :
    get_many k p addresses now s = (r, s') →
    (∀ k' p', view s' k' p' = view s k' p')
    ∧ (is_personal k p = false → ∀ values, r = Ok values →
        values = map (λ a, cell_value <$> view_read (view s k p) now a) addresses
        ∧ ∀ a c, a ∈ addresses → view s k p !! storage_key a = Some c → cell_address c = a);
  (** Reads one record; an expired one is removed. *)
  get_with_deadline_law s k p a now r s' :
    get_with_deadline k p a now s = (r, s') →
    same_elsewhere (view s) (view s') k p
    ∧ (is_personal k p = false →
       (view s' k p = view s k p
        ∨ (∃ c, view s k p !! storage_key a = Some c ∧ evicted c now = true)
          ∧ view s' k p = delete (storage_key a) (view s k p))
       ∧ ∀ value, r = Ok value →
           value = (λ c, {| ss_value := cell_value c; ss_expires_at := cell_evict_at c |})
                     <$> view_read (view s k p) now a
           ∧ ∀ c, view s k p !! storage_key a = Some c → cell_address c = a);
  (** Applies an ordered group of changes as one generation. *)
  mutate_law s k p ops prov now r s' :
    mutate k p ops prov now s = (r, s') →
    same_elsewhere (view s) (view s') k p
    ∧ (is_personal k p = false →
       committed r (view s) (view s') k p (apply_operations (view s k p) ops));
  put_at_law s k p a value evict_at prov now r s' :
    put_at k p a value evict_at prov now s = (r, s') →
    same_elsewhere (view s) (view s') k p
    ∧ (is_personal k p = false →
       committed r (view s) (view s') k p
         (apply_operation (view s k p) (DocumentOperation.Put a value evict_at)));
  (** Deletes one record and says whether there was one. *)
  delete_at_law s k p a prov now r s' :
    delete_at k p a prov now s = (r, s') →
    same_elsewhere (view s) (view s') k p
    ∧ (is_personal k p = false →
       committed r (view s) (view s') k p
         (apply_operation (view s k p) (DocumentOperation.Delete a))
       ∧ ∀ existed, r = Ok existed →
           existed = bool_decide (is_Some (view s k p !! storage_key a)));
  (** Deletes every record of one document and counts them. *)
  clear_at_law s k p prov now r s' :
    clear_at k p prov now s = (r, s') →
    same_elsewhere (view s) (view s') k p
    ∧ (is_personal k p = false → view_keyed (view s k p) →
       committed r (view s) (view s') k p ∅
       ∧ ∀ entries, r = Ok entries → entries = Z.of_nat (size (view s k p)));
  (** Listing sweeps the listed documents, which are never the authorization
      documents; a history page changes nothing. *)
  list_projects_law s cursor limit now r s' p :
    list_projects cursor limit now s = (r, s') →
    view s' Authorization p = view s Authorization p;
  list_project_addresses_law s project cursor limit now r s' p :
    list_project_addresses project cursor limit now s = (r, s') →
    view s' Authorization p = view s Authorization p;
  list_vault_entries_law s cursor limit now r s' p :
    list_vault_entries cursor limit now s = (r, s') →
    view s' Authorization p = view s Authorization p;
  list_history_law s k p a before limit r s' :
    list_history k p a before limit s = (r, s') → ∀ k' p', view s' k' p' = view s k' p';
  (** The sweep removes expired records and nothing else. *)
  purge_expired_at_law s now r s' k p :
    purge_expired_at now s = (r, s') → is_personal k p = false →
    view s' k p = view s k p ∨ view s' k p = unexpired_records (view s k p) now
}.
End View.

Arguments VaultStoreOk {_ _} St {_}.

(** ** Groups of changes *)

Section Operations.
Context `{Sha256, Base64}.

Lemma apply_operation_eq v op :
  apply_operation v op !! storage_key (operation_address op) = operation_cell op.
Proof.
  destruct op; cbn; [apply lookup_insert_eq|apply lookup_delete_eq].
Qed.

Lemma apply_operation_ne v op k :
  storage_key (operation_address op) ≠ k → apply_operation v op !! k = v !! k.
Proof.
  destruct op; cbn; intros Hne; [by rewrite lookup_insert_ne|by rewrite lookup_delete_ne].
Qed.

Lemma apply_operations_untouched v ops k :
  (∀ op, op ∈ ops → storage_key (operation_address op) ≠ k) →
  apply_operations v ops !! k = v !! k.
Proof.
  unfold apply_operations. revert v; induction ops as [|op ops IH]; intros v Hne; cbn; [done|].
  rewrite IH; [|intros op' ?; apply Hne; by right].
  apply apply_operation_ne, Hne. by left.
Qed.

(** A change decides what is at its key unless a later one of the group touches
    it again. *)
Lemma apply_operations_last v ops op ops' :
  (∀ op', op' ∈ ops' → storage_key (operation_address op') ≠ storage_key (operation_address op)) →
  apply_operations v (ops ++ op :: ops') !! storage_key (operation_address op)
  = operation_cell op.
Proof.
  intros Hne. unfold apply_operations. rewrite foldl_app. cbn [foldl].
  etrans; [apply apply_operations_untouched, Hne|apply apply_operation_eq].
Qed.

(** In a group that touches a key only through one change, that change decides. *)
Lemma apply_operations_unique v ops op :
  op ∈ ops →
  (∀ op', op' ∈ ops → storage_key (operation_address op') = storage_key (operation_address op)
     → operation_cell op' = operation_cell op) →
  apply_operations v ops !! storage_key (operation_address op) = operation_cell op.
Proof.
  unfold apply_operations. revert v; induction ops as [|op1 ops IH] using rev_ind; intros v Hin Hu.
  - by apply elem_of_nil in Hin.
  - rewrite foldl_app. cbn [foldl].
    destruct (decide (storage_key (operation_address op1) = storage_key (operation_address op)))
      as [Hk|Hk].
    + rewrite <- Hk, apply_operation_eq. apply Hu; [set_solver|done].
    + rewrite apply_operation_ne by done. apply IH.
      * apply elem_of_app in Hin as [?|Hin]; [done|].
        apply list_elem_of_singleton in Hin as ->. done.
      * intros op' Hin'. apply Hu. set_solver.
Qed.
End Operations.

(** ** Consequences used by the clients *)

Section Consequences.
Context `{Sha256, Base64} `{VaultStore St} `{!VaultStoreOk St}.

(** *** The authorization documents *)

Lemma get_many_spec s p addresses now r s' :
  get_many Authorization p addresses now s = (r, s') →
  (∀ k' p', view s' k' p' = view s k' p')
  ∧ ∀ values, r = Ok values →
      values = map (λ a, cell_value <$> view_read (view s Authorization p) now a) addresses
      ∧ ∀ a c, a ∈ addresses → view s Authorization p !! storage_key a = Some c →
          cell_address c = a.
Proof. intros Hg. apply get_many_law in Hg as [? Hv]. split; [done|]. by apply Hv. Qed.

Lemma mutate_spec s p ops prov now r s' :
  mutate Authorization p ops prov now s = (r, s') →
  same_elsewhere (view s) (view s') Authorization p
  ∧ committed r (view s) (view s') Authorization p
      (apply_operations (view s Authorization p) ops).
Proof. intros Hm. apply mutate_law in Hm as [? Hv]. split; [done|]. by apply Hv. Qed.

Lemma get_at_spec s p a now r s' :
  get_at Authorization p a now s = (r, s') →
  same_elsewhere (view s) (view s') Authorization p
  ∧ (view s' Authorization p = view s Authorization p
     ∨ (∃ c, view s Authorization p !! storage_key a = Some c ∧ evicted c now = true)
       ∧ view s' Authorization p = delete (storage_key a) (view s Authorization p))
  ∧ ∀ value, r = Ok value → value = cell_value <$> view_read (view s Authorization p) now a.
Proof.
  unfold get_at, mbind, sm_bind. intros Hget.
  destruct (get_with_deadline Authorization p a now s) as [[v|e] s1] eqn:Heq;
    apply get_with_deadline_law in Heq as (? & Hrest); destruct (Hrest eq_refl) as [? Hv];
    injection Hget as <- <-; split_and!; [done|done| |done|done|done].
  intros value [= <-]. destruct (Hv v eq_refl) as [-> _].
  by destruct (view_read (view s Authorization p) now a).
Qed.

(** Reading live records is unaffected by a read that evicts another. *)
Lemma view_read_delete_evicted v now k c a :
  v !! k = Some c → evicted c now = true →
  view_read (delete k v) now a = view_read v now a.
Proof.
  intros Hk Hc. unfold view_read. destruct (decide (k = storage_key a)) as [->|Hne].
  - by rewrite lookup_delete_eq, Hk, Hc.
  - by rewrite lookup_delete_ne.
Qed.

Lemma get_at_view_read s p a now r s' now' a' :
  get_at Authorization p a now s = (r, s') → now ≤ now' →
  view_read (view s' Authorization p) now' a' = view_read (view s Authorization p) now' a'.
Proof.
  intros Hg Hle. apply get_at_spec in Hg as (_ & [->|[(c & Hc & He) ->]] & _); [done|].
  eapply view_read_delete_evicted; [done|]. unfold evicted, opt_test in *.
  destruct (cell_evict_at c); [|done]. rewrite Z.leb_le in *. lia.
Qed.
End Consequences.
