(* ===== verification/DemoStore.v ===== *)
(** A store in memory, one map of records per document, with the laws of
    [VaultStoreOk].  It shows that the interface the service components are
    verified against can be implemented, and the examples run the model on it. *)
From Stdlib Require Import ZArith Lia Bool.
From stdpp Require Import base gmap strings list.
From S2P Require Import Prelude Core Address Text Wire History StoreSpec.

Abbreviation DemoState := (gmap (DocumentKind * bytes) DocumentView).

Section DemoStore.
Context `{Sha256, Base64}.

Definition demo_document (s : DemoState) (k : DocumentKind) (p : bytes) : DocumentView :=
  default ∅ (s !! (k, p)).

(** A record stored under the key of another address is corrupt. *)
Definition demo_read (s : DemoState) (k : DocumentKind) (p : bytes) (now : Z)
    (a : SecretAddress) : VaultResult (option Cell) :=
  match demo_document s k p !! storage_key a with
  | Some c =>
      if bool_decide (cell_address c = a)
      then Ok (if evicted c now then None else Some c)
      else Err (VaultError.InvalidData "address mismatch")
  | None => Ok None
  end.

Definition demo_commit (k : DocumentKind) (p : bytes) (d : DocumentView) : SM DemoState () :=
  λ s, (Ok tt, <[(k, p) := d]> s).

Definition demo_mutate (k : DocumentKind) (p : bytes)
    (ops : list DocumentOperation.document_operation) : SM DemoState () :=
  λ s, demo_commit k p (apply_operations (demo_document s k p) ops) s.

(** The store keeps no history; a page holds one entry another caller wrote. *)
Definition demo_writer : CallerIdentity := {|
  ci_platform := CallerPlatform.Linux; ci_user_id := "1001"; ci_application_id := "other";
  ci_executable_digest := replicate 32 Byte.x03; ci_signer_id := None |}.
Definition demo_entry : HistoryEntry := {|
  he_version := 1; he_seq := 1; he_at := 10; he_operation := HistoryOperation.Put false;
  he_address := Local "a" None; he_version_id := None; he_previous_version_id := None;
  he_evict_at := None; he_provenance := Provenance.Caller (principal_from demo_writer) None;
  he_device_key_id := [] |}.

#[export] Instance demo_store : VaultStore DemoState := {
  get_with_deadline k p a now := λ s,
    (fmap (M := result _) (fmap (λ c, {| ss_value := cell_value c;
                                          ss_expires_at := cell_evict_at c |}))
       (demo_read s k p now a), s);
  get_many k p addresses now := λ s,
    (fmap (M := result _) (map (fmap cell_value)) (try_collect (demo_read s k p now) addresses), s);
  put_at k p a value evict_at _ _ := demo_mutate k p [DocumentOperation.Put a value evict_at];
  mutate k p ops _ _ := demo_mutate k p ops;
  delete_at k p a _ _ := λ s,
    (Ok (bool_decide (is_Some (demo_document s k p !! storage_key a))),
     (demo_mutate k p [DocumentOperation.Delete a] s).2);
  clear_at k p _ _ := λ s,
    (Ok (Z.of_nat (size (demo_document s k p))), <[(k, p) := ∅]> s);
  purge_expired_at now := λ s, (Ok 0, s);
  list_projects _ _ _ := λ s, (Ok {| sp_items := []; sp_next_cursor := None |}, s);
  list_project_addresses _ _ _ _ := λ s, (Ok {| sp_items := []; sp_next_cursor := None |}, s);
  list_vault_entries _ _ _ := λ s, (Ok {| sp_items := []; sp_next_cursor := None |}, s);
  list_history _ _ _ _ _ := λ s, (Ok {| hp_items := [demo_entry]; hp_next_before_seq := None |}, s);
  export_revision := λ s, (Ok None, s)
}.

Lemma demo_read_Ok s k p now a r :
  demo_read s k p now a = Ok r →
  r = view_read (demo_document s k p) now a
  ∧ ∀ c, demo_document s k p !! storage_key a = Some c → cell_address c = a.
Proof.
  unfold demo_read, view_read. destruct (demo_document s k p !! storage_key a) as [c|];
    [case_bool_decide|]; naive_solver.
Qed.

Lemma demo_commit_spec k p d s :
  same_elsewhere (demo_document s) (demo_document (demo_commit k p d s).2) k p
  ∧ demo_document (demo_commit k p d s).2 k p = d.
Proof.
  unfold demo_commit, same_elsewhere, demo_document. cbn [snd]. split.
  - intros k' p' Hne. rewrite lookup_insert_ne; [done|congruence].
  - by rewrite lookup_insert_eq.
Qed.

Lemma same_elsewhere_refl v k p : same_elsewhere v v k p.
Proof. done. Qed.

#[export] Instance demo_store_ok : VaultStoreOk DemoState.
Proof.
  refine {| view := demo_document |}.
  - intros s k p addresses now r s' [= <- <-]. split; [done|]. intros _ values Hr.
    destruct (try_collect _ _) as [cs|] eqn:Hc; [|done]. injection Hr as <-.
    apply try_collect_Ok in Hc. split.
    + induction Hc as [|a c addresses cs Ha _ IH]; cbn; [done|].
      apply demo_read_Ok in Ha as [-> _]. by rewrite IH.
    + intros a c Ha. apply list_elem_of_lookup in Ha as [i Hi].
      destruct (Forall2_lookup_l _ _ _ _ _ Hc Hi) as (c' & _ & Hread).
      apply demo_read_Ok in Hread as [_ Hread]. apply Hread.
  - intros s k p a now r s' [= <- <-]. split; [done|]. intros _. split; [by left|].
    intros value Hr. destruct (demo_read s k p now a) as [c|] eqn:Hc; [|done].
    injection Hr as <-. by apply demo_read_Ok in Hc as [-> ?].
  - intros s k p ops prov now r s' [= <- <-].
    destruct (demo_commit_spec k p (apply_operations (demo_document s k p) ops) s). done.
  - intros s k p a value e prov now r s' [= <- <-].
    destruct (demo_commit_spec k p (apply_operations (demo_document s k p)
             [DocumentOperation.Put a value e]) s). done.
  - intros s k p a prov now r s' [= <- <-].
    destruct (demo_commit_spec k p (apply_operations (demo_document s k p)
             [DocumentOperation.Delete a]) s). split; [done|]. intros _. split; [done|].
    by intros ? [= <-].
  - intros s k p prov now r s' [= <- <-].
    destruct (demo_commit_spec k p ∅ s). split; [done|]. intros _. split; [done|].
    by intros ? [= <-].
  - intros s cursor limit now r s' p [= <- <-]. done.
  - intros s project cursor limit now r s' p [= <- <-]. done.
  - intros s cursor limit now r s' p [= <- <-]. done.
  - intros s k p a before limit r s' [= <- <-]. done.
  - intros s now r s' k p [= <- <-] _. by left.
Defined.
End DemoStore.
