(* ===== verification/Signature.v ===== *)
(** Device signatures (src/src/vault/signature.rs): the closed set of algorithms,
    verification, the signing providers, and the transcript a person signs to approve
    a permission.  ML-DSA-65 itself and the keys of the secure enclave are parameters. *)
From Stdlib Require Import ZArith Lia Bool.
From stdpp Require Import base gmap strings list.
From S2P Require Import Prelude Core Address Text Wire.

(** The [ml_dsa] crate: keys and signatures decode from bytes of their fixed
    length, and verification is a predicate. *)
Class MlDsa65 := {
  verifying_key : Type;
  mldsa_signature : Type;
  verifying_key_new : bytes → option verifying_key;
  signature_try_from : bytes → option mldsa_signature;
  mldsa_verify : verifying_key → bytes → mldsa_signature → bool
}.

Module SignatureAlgorithm.
Inductive algorithm : Set := MlDsa65.
End SignatureAlgorithm.

Definition CURRENT_SIGNATURE_ALGORITHM : SignatureAlgorithm.algorithm :=
  SignatureAlgorithm.MlDsa65.

(** Stable byte written into signed transcripts. *)
Definition algorithm_code (a : SignatureAlgorithm.algorithm) : Byte.byte :=
  match a with SignatureAlgorithm.MlDsa65 => Byte.x02 end.

Section Signature.
Context `{MlDsa65}.

(** [PreparedVerifyingKey::verify]. *)
Definition prepared_verify (key : verifying_key) (algorithm : SignatureAlgorithm.algorithm)
    (payload signature : bytes) : VaultResult () :=
  match algorithm with
  | SignatureAlgorithm.MlDsa65 =>
      signature ← ok_or VaultError.Signature (signature_try_from signature);
      fail_if (negb (mldsa_verify key payload signature)) VaultError.Signature
  end.

Definition verify (public_key payload signature : bytes) : VaultResult () :=
  key ← ok_or VaultError.Signature (verifying_key_new public_key);
  prepared_verify key CURRENT_SIGNATURE_ALGORITHM payload signature.

Definition verify_with (algorithm : SignatureAlgorithm.algorithm)
    (public_key payload signature : bytes) : VaultResult () :=
  match algorithm with
  | SignatureAlgorithm.MlDsa65 => verify public_key payload signature
  end.

(** The signature is one the public key accepts for the payload. *)
Definition signed_by (public_key payload signature : bytes) : Prop :=
  ∃ key s, verifying_key_new public_key = Some key ∧ signature_try_from signature = Some s
    ∧ mldsa_verify key payload s = true.

Lemma verify_Ok public_key payload signature :
  verify public_key payload signature = Ok tt ↔ signed_by public_key payload signature.
Proof.
  unfold verify, prepared_verify, signed_by, CURRENT_SIGNATURE_ALGORITHM. split.
  - intros Hv. inv_ok. bool_prop. eauto.
  - intros (key & s & -> & Hs & Hv). cbn. rewrite Hs. cbn. by rewrite Hv.
Qed.

(** A failed verification is always the same error. *)
Lemma verify_Err public_key payload signature e :
  verify public_key payload signature = Err e → e = VaultError.Signature.
Proof.
  unfold verify, prepared_verify, CURRENT_SIGNATURE_ALGORITHM.
  destruct (verifying_key_new public_key); cbn; [|congruence].
  destruct (signature_try_from signature); cbn; [|congruence].
  unfold fail_if. destruct (negb _); congruence.
Qed.
End Signature.

(** ** Signing providers *)

(** A signing capability of the device, the trait [SigningProvider]. *)
Record SigningProvider : Type := {
  provider_public_key : VaultResult bytes;
  provider_sign :> bytes → VaultResult bytes
}.

(** The signers of the platform: ML-DSA-65 under a seed, and the keys of the secure
    enclave, reopened from a reference. *)
Class Signers := {
  public_key_for_seed : bytes → bytes;
  software_sign : bytes → bytes → VaultResult bytes;
  enclave_key : Type;
  enclave_from_reference : bytes → VaultResult enclave_key;
  enclave_public_key : enclave_key → bytes;
  enclave_sign : enclave_key → bytes → VaultResult bytes
}.

Definition SoftwareSigner `{Signers} (seed : bytes) : SigningProvider := {|
  provider_public_key := Ok (public_key_for_seed seed);
  provider_sign := software_sign seed |}.

(** What the enclave signs is verified before it is used. *)
Definition EnclaveSigner `{MlDsa65, Signers} (key : enclave_key) : SigningProvider := {|
  provider_public_key := Ok (enclave_public_key key);
  provider_sign payload :=
    signature ← enclave_sign key payload;
    _ ← verify (enclave_public_key key) payload signature;
    Ok signature |}.

Lemma enclave_signs_verified `{MlDsa65, Signers} key payload signature :
  EnclaveSigner key payload = Ok signature →
  signed_by (enclave_public_key key) payload signature.
Proof. cbn. intros Hs. inv_ok. by apply verify_Ok. Qed.

(** ** The approval transcript *)

Definition PERMISSION_SIGNATURE_DOMAIN : bytes :=
  as_bytes "factorseal/permission/v1" ++ [Byte.x00].

Definition permission_payload (id : string) (challenge : bytes) (duration_seconds : option Z)
    (single_use : bool) : bytes :=
  PERMISSION_SIGNATURE_DOMAIN ++ framed (as_bytes id) ++ challenge ++
  match single_use, duration_seconds with
  | true, _ => [Byte.x02]
  | false, Some duration => Byte.x01 :: be_bytes 8 duration
  | false, None => [Byte.x00]
  end.

(** What an approver decides: a single use, or a duration. *)
Definition lifetime_choice (duration_seconds : option Z) (single_use : bool) : option (option Z) :=
  if single_use then None else Some duration_seconds.

Lemma permission_payload_inj id id' challenge challenge' d d' single single' :
  str_fits id → str_fits id' → length challenge = length challenge' →
  (∀ x, d = Some x → is_u64 x) → (∀ x, d' = Some x → is_u64 x) →
  permission_payload id challenge d single = permission_payload id' challenge' d' single' →
  id = id' ∧ challenge = challenge' ∧ lifetime_choice d single = lifetime_choice d' single'.
Proof.
  intros Hid Hid' Hlen Hd Hd' Heq. apply app_inj_len in Heq as [_ Heq]; [|done].
  apply framed_app_inj in Heq as [Hids Heq]; [|assumption..]. apply as_bytes_inj in Hids as ->.
  apply app_inj_len in Heq as [-> Heq]; [|done]. split_and!; [done..|].
  destruct single, single'; [done|destruct d'; discriminate Heq|destruct d; discriminate Heq|].
  cbn. f_equal. destruct d as [x|], d' as [x'|]; try discriminate Heq; [|done].
  apply cons_inj_tail in Heq. f_equal. apply (be_bytes_inj 8); [..|exact Heq].
  - destruct (Hd x eq_refl). unfold U64_MAX in *. cbn. lia.
  - destruct (Hd' x' eq_refl). unfold U64_MAX in *. cbn. lia.
Qed.
