(* ===== verification/Grant.v ===== *)
(** Durable access grants (src/src/vault/protocol/grant.rs): a grant binds one
    caller fingerprint and one target digest to a permission, with an optional
    expiry, as a record of the store's authorization document; the permission
    registry lists what a person approved.  Authorization reads the candidate
    grants of a requirement, prefers reusable ones, and spends single-use ones. *)
From Stdlib Require Import ZArith Lia Bool.
From stdpp Require Import base gmap strings list.
From S2P Require Import Prelude Core Address Text Wire History StoreSpec.

Definition GRANT_VERSION : Z := 3.
Definition GRANT_DOCUMENT_NAMESPACE : bytes := as_bytes "factorseal/vault-grants/v3".
Definition GRANT_TARGET_DOMAIN : bytes := as_bytes "factorseal/grant-target/v3" ++ [Byte.x00].
Definition PERMISSION_REGISTRY_VERSION : Z := 1.
Definition EXCLUSIVE_HOLDER_VERSION : Z := 1.

(** ** Data *)

Module GrantPermission.
Inductive permission : Set := List | Get | Put | Delete | Clear | Seal | ManagePermissions.
End GrantPermission.

#[export] Instance grant_permission_eq_dec : EqDecision GrantPermission.permission.
Proof. solve_decision. Defined.

(** The derived order of [GrantPermission]. *)
Definition all_permissions : list GrantPermission.permission :=
  [GrantPermission.List; GrantPermission.Get; GrantPermission.Put; GrantPermission.Delete;
   GrantPermission.Clear; GrantPermission.Seal; GrantPermission.ManagePermissions].

(** [BTreeSet<GrantPermission>]: the members in order, each once. *)
Definition btree_set (ps : list GrantPermission.permission) : list GrantPermission.permission :=
  retain (λ p, bool_decide (p ∈ ps)) all_permissions.

Record AccessGrant : Set := {
  g_version : Z;
  g_caller_fingerprint : bytes;
  g_target_digest : bytes;
  g_permissions : list GrantPermission.permission;
  g_expires_at : option Z;
  g_single_use : bool
}.

Record ExclusiveHolder : Set := {
  h_version : Z;
  h_caller_fingerprint : bytes;
  h_permissions : list GrantPermission.permission
}.

Record StoredPermission : Set := {
  sp_permission : Permission;
  sp_caller_fingerprint : bytes;
  sp_target_digest : bytes;
  sp_grant_permission : GrantPermission.permission
}.

Record PermissionRegistry : Set := {
  pr_version : Z;
  pr_permissions : list StoredPermission
}.

#[export] Instance access_grant_eq_dec : EqDecision AccessGrant.
Proof. solve_decision. Defined.
#[export] Instance exclusive_holder_eq_dec : EqDecision ExclusiveHolder.
Proof. solve_decision. Defined.
#[export] Instance stored_permission_eq_dec : EqDecision StoredPermission.
Proof. solve_decision. Defined.
#[export] Instance permission_registry_eq_dec : EqDecision PermissionRegistry.
Proof. solve_decision. Defined.

Module GrantTarget.
Inductive grant_target : Set :=
| Kind (kind : DocumentKind)
| Namespace (scope : DocumentKind) (namespace : bytes)
| Entry (scope : DocumentKind) (namespace : bytes) (address : SecretAddress)
| ProjectEntry (scope : DocumentKind) (namespace : bytes) (address : SecretAddress)
    (project : string) (base_dir : option string)
| Project (scope : DocumentKind) (namespace : bytes) (project : string)
    (base_dir : option string).
End GrantTarget.

(** [GrantTarget::summary]. *)
Definition summary (t : GrantTarget.grant_target) : PermissionTarget.target :=
  match t with
  | GrantTarget.Kind _ => PermissionTarget.DocumentKind
  | GrantTarget.Namespace _ namespace => PermissionTarget.Namespace namespace
  | GrantTarget.Entry _ namespace address => PermissionTarget.Entry namespace address
  | GrantTarget.ProjectEntry _ namespace address project base_dir =>
      PermissionTarget.ProjectEntry namespace address project base_dir
  | GrantTarget.Project _ namespace project base_dir =>
      PermissionTarget.Project namespace project base_dir
  end.

Definition target_scope (t : GrantTarget.grant_target) : DocumentKind :=
  match t with
  | GrantTarget.Kind kind => kind
  | GrantTarget.Namespace scope _ | GrantTarget.Entry scope _ _
  | GrantTarget.ProjectEntry scope _ _ _ _ | GrantTarget.Project scope _ _ _ => scope
  end.

(** What an operation needs a grant for. *)
Record GrantRequirement : Set := {
  gr_scope : DocumentKind;
  gr_namespace : option bytes;
  gr_address : option SecretAddress;
  gr_project : option string;
  gr_base_dir : option string;
  gr_permission : GrantPermission.permission
}.

Record PreparedGrant : Set := {
  pg_address : SecretAddress;
  pg_value : bytes;
  pg_expires_at : option Z
}.

Module FoundGrant.
Inductive found_grant : Set :=
| Reusable (expires_at : option Z)
| SingleUse (target_digest : bytes) (expires_at : option Z)
| NotFound.
End FoundGrant.

(** ** Targets and addresses *)

Definition document_kind_tag (k : DocumentKind) : Byte.byte :=
  match k with
  | Authorization => Byte.x01
  | LinuxSecretService => Byte.x02
  | LocalKeyring => Byte.x03
  | SecretSpecProject => Byte.x04
  | SecretSpecProviderCache => Byte.x05
  | NetworkManagerWifi => Byte.x06
  end.

Definition permission_name (p : GrantPermission.permission) : string :=
  match p with
  | GrantPermission.List => "list"
  | GrantPermission.Get => "get"
  | GrantPermission.Put => "put"
  | GrantPermission.Delete => "delete"
  | GrantPermission.Clear => "clear"
  | GrantPermission.Seal => "seal"
  | GrantPermission.ManagePermissions => "manage-permissions"
  end.

Section Grants.
Context `{Sha256, Base64}.

(** The optional base directory, appended when present; the variant tag says
    whether it is. *)
Definition base_dir_suffix (base_dir : option string) : bytes :=
  match base_dir with
  | Some base_dir => append_digest_bytes (as_bytes base_dir)
  | None => []
  end.

(** Everything [grant_target_digest] feeds its digest, in order. *)
Definition grant_target_preimage (t : GrantTarget.grant_target) : bytes :=
  GRANT_TARGET_DOMAIN ++
  match t with
  | GrantTarget.Kind kind => [Byte.x00; document_kind_tag kind]
  | GrantTarget.Namespace scope namespace =>
      [Byte.x01; document_kind_tag scope] ++ append_digest_bytes namespace
  | GrantTarget.Entry scope namespace address =>
      [Byte.x02; document_kind_tag scope] ++ append_digest_bytes namespace
        ++ append_digest_bytes (as_bytes (storage_key address))
  | GrantTarget.ProjectEntry scope namespace address project base_dir =>
      [match base_dir with Some _ => Byte.x06 | None => Byte.x05 end;
       document_kind_tag scope] ++ append_digest_bytes namespace
        ++ append_digest_bytes (as_bytes (storage_key address))
        ++ append_digest_bytes (as_bytes project) ++ base_dir_suffix base_dir
  | GrantTarget.Project scope namespace project base_dir =>
      [match base_dir with Some _ => Byte.x04 | None => Byte.x03 end;
       document_kind_tag scope] ++ append_digest_bytes namespace
        ++ append_digest_bytes (as_bytes project) ++ base_dir_suffix base_dir
  end.

Definition grant_target_digest (t : GrantTarget.grant_target) : bytes :=
  sha256 (grant_target_preimage t).

Definition grant_address (caller_fingerprint target_digest : bytes)
    (permission : GrantPermission.permission) : VaultResult SecretAddress :=
  address_new ("grant/" +:+ b64url_encode caller_fingerprint +:+ "/"
    +:+ b64url_encode target_digest +:+ "/" +:+ permission_name permission) None.

Definition exclusive_holder_address (target_digest : bytes) : VaultResult SecretAddress :=
  address_new ("holder/" +:+ b64url_encode target_digest) None.

Definition permission_registry_address : VaultResult SecretAddress :=
  address_new "permissions" None.

(** ** Satisfaction *)

Definition unexpired (now : Z) (expires_at : option Z) : bool :=
  match expires_at with Some deadline => now <? deadline | None => true end.

Definition grant_satisfies (grant : AccessGrant) (caller_fingerprint target_digest : bytes)
    (permission : GrantPermission.permission) (now : Z) : bool :=
  (g_version grant =? GRANT_VERSION)
    && bool_decide (g_caller_fingerprint grant = caller_fingerprint)
    && bool_decide (g_target_digest grant = target_digest)
    && unexpired now (g_expires_at grant)
    && bool_decide (permission ∈ g_permissions grant).

Definition is_expired (p : Permission) (now : Z) : bool :=
  match perm_state p with
  | PermissionState.Granted _ (Some deadline) _ => deadline <=? now
  | _ => false
  end.

(** A project grant covers an address of the same project; the system keyring
    does not put the project in its addresses. *)
Definition project_covers (scope : DocumentKind) (address : option SecretAddress)
    (project : string) : bool :=
  match address with
  | None => true
  | Some address =>
      bool_decide (scope = LinuxSecretService)
        || opt_test (λ a, match secret_spec_project a with
                          | Some address_project => String.eqb address_project project
                          | None => true
                          end) (as_secret_spec address)
  end.

(** The targets of [find_grant], most specific first. *)
Definition candidate_targets (r : GrantRequirement) : list GrantTarget.grant_target :=
  match gr_namespace r with
  | Some namespace =>
      match gr_address r with
      | Some address => [GrantTarget.Entry (gr_scope r) namespace address]
      | None => []
      end
      ++ match gr_project r with
         | Some project =>
             if project_covers (gr_scope r) (gr_address r) project then
               match gr_address r with
               | Some address =>
                   [GrantTarget.ProjectEntry (gr_scope r) namespace address project
                      (gr_base_dir r)]
               | None => []
               end
               ++ [GrantTarget.Project (gr_scope r) namespace project (gr_base_dir r)]
             else []
         | None => []
         end
      ++ [GrantTarget.Namespace (gr_scope r) namespace]
  | None => []
  end ++ [GrantTarget.Kind (gr_scope r)].

(** ** Storing grants *)

Context `{Serde AccessGrant, Serde PermissionRegistry, Serde ExclusiveHolder}.
Context `{VaultStore St}.

Definition new_grant (caller_fingerprint target_digest : bytes)
    (permission : GrantPermission.permission) (expires_at : option Z) (single_use : bool)
    : AccessGrant := {|
  g_version := GRANT_VERSION;
  g_caller_fingerprint := caller_fingerprint;
  g_target_digest := target_digest;
  g_permissions := [permission];
  g_expires_at := expires_at;
  g_single_use := single_use
|}.

Definition past_deadline (now : Z) (expires_at : option Z) : bool :=
  opt_test (λ deadline, deadline <=? now) expires_at.

Definition prepare_grant (caller : CallerIdentity) (target : GrantTarget.grant_target)
    (permissions : list GrantPermission.permission) (expires_at : option Z) (now : Z)
    : VaultResult (list PreparedGrant) :=
  _ ← caller_validate caller;
  _ ← fail_if (past_deadline now expires_at) VaultError.Expired;
  let caller_fingerprint := fingerprint caller in
  let target_digest := grant_target_digest target in
  let permissions := btree_set permissions in
  _ ← fail_if (bool_decide (permissions = []))
        (VaultError.Protocol "grant must contain a permission");
  try_collect (λ permission,
    let grant := new_grant caller_fingerprint target_digest permission expires_at false in
    value ← map_err VaultError.Protocol (serde_to_vec grant);
    address ← grant_address caller_fingerprint target_digest permission;
    Ok {| pg_address := address; pg_value := value; pg_expires_at := expires_at |})
    permissions.

(** [iter.filter(|grant| seen.insert(grant.address.clone()))]. *)
Fixpoint filter_seen (seen : list SecretAddress) (l : list PreparedGrant)
    : list PreparedGrant :=
  match l with
  | [] => []
  | g :: l =>
      if bool_decide (pg_address g ∈ seen) then filter_seen seen l
      else g :: filter_seen (pg_address g :: seen) l
  end.

(** A batch keeps the last grant it mentions for each address, in order. *)
Definition last_per_address (l : list PreparedGrant) : list PreparedGrant :=
  reverse (filter_seen [] (reverse l)).

Definition store_prepared_grants (grants : list PreparedGrant) (now : Z) : SM St () :=
  let grants := last_per_address grants in
  if bool_decide (length grants = 0%nat) then mret tt
  else
    existing ← get_many Authorization GRANT_DOCUMENT_NAMESPACE (map pg_address grants) now;
    let operations :=
      map (λ '(grant, _),
             DocumentOperation.Put (pg_address grant) (pg_value grant) (pg_expires_at grant))
        (retain (λ '(grant, existing),
                   match existing with
                   | Some value => negb (bool_decide (value = pg_value grant))
                   | None => true
                   end) (zip grants existing)) in
    if bool_decide (length operations = 0%nat) then mret tt
    else mutate Authorization GRANT_DOCUMENT_NAMESPACE operations
           (provenance_service ServiceReason.GrantStorage) now.

(** Whether the caller already holds exactly these permissions, and the records
    to prove it. *)
Definition already_holds (previous : option ExclusiveHolder) (caller_fingerprint : bytes)
    (target_digest : bytes) (permissions : list GrantPermission.permission)
    (records : list (option bytes)) (now : Z) : bool :=
  opt_test (λ holder, bool_decide (h_caller_fingerprint holder = caller_fingerprint)
                        && bool_decide (h_permissions holder = permissions)) previous
    && forallb (λ '(permission, record),
         opt_test (λ b, match serde_from_slice b with
                        | Ok grant => bool_decide (g_expires_at grant = None)
                            && grant_satisfies grant caller_fingerprint target_digest
                                 permission now
                        | Err _ => false
                        end) record) (zip permissions records).

(** The grants of the previous holder that the new one does not keep. *)
Definition superseded (previous : option ExclusiveHolder) (caller_fingerprint : bytes)
    (target_digest : bytes) (permissions : list GrantPermission.permission)
    : VaultResult (list DocumentOperation.document_operation) :=
  match previous with
  | Some holder =>
      try_collect (λ permission,
        address ← grant_address (h_caller_fingerprint holder) target_digest permission;
        Ok (DocumentOperation.Delete address))
        (retain (λ permission,
           negb (bool_decide (h_caller_fingerprint holder = caller_fingerprint))
             || negb (bool_decide (permission ∈ permissions))) (h_permissions holder))
  | None => Ok []
  end.

(** The change that writes one grant of the new holder. *)
Definition put_grant (fp digest : bytes) (permission : GrantPermission.permission)
    : VaultResult DocumentOperation.document_operation :=
  let grant := new_grant fp digest permission None false in
  address ← grant_address fp digest permission;
  value ← map_err VaultError.Protocol (serde_to_vec grant);
  Ok (DocumentOperation.Put address value None).

Definition store_exclusive_grant (caller : CallerIdentity)
    (target : GrantTarget.grant_target) (permissions : list GrantPermission.permission)
    (now : Z) : SM St () :=
  _ ← lift (caller_validate caller);
  let caller_fingerprint := fingerprint caller in
  let target_digest := grant_target_digest target in
  let permissions := btree_set permissions in
  _ ← lift (fail_if (bool_decide (permissions = []))
              (VaultError.Protocol "grant must contain a permission"));
  holder_address ← lift (exclusive_holder_address target_digest);
  grant_addresses ← lift (try_collect (grant_address caller_fingerprint target_digest) permissions);
  records ← get_many Authorization GRANT_DOCUMENT_NAMESPACE
              (holder_address :: grant_addresses) now;
  let stored := match records with Some b :: _ => Some b | _ => None end in
  decoded ← lift (opt_try (λ b, map_err VaultError.Protocol (serde_from_slice b)) stored);
  let previous :=
    match decoded with
    | Some holder => if h_version holder =? EXCLUSIVE_HOLDER_VERSION then Some holder else None
    | None => None
    end in
  if already_holds previous caller_fingerprint target_digest permissions (tail records) now
  then mret tt
  else
    removed ← lift (superseded previous caller_fingerprint target_digest permissions);
    added ← lift (try_collect (put_grant caller_fingerprint target_digest) permissions);
    let holder := {| h_version := EXCLUSIVE_HOLDER_VERSION;
      h_caller_fingerprint := caller_fingerprint; h_permissions := permissions |} in
    holder_value ← lift (map_err VaultError.Protocol (serde_to_vec holder));
    mutate Authorization GRANT_DOCUMENT_NAMESPACE
      (removed ++ added ++ [DocumentOperation.Put holder_address holder_value None])
      (provenance_service ServiceReason.GrantStorage) now.

(** ** The permission registry *)

Definition load_permission_registry (now : Z) : SM St PermissionRegistry :=
  address ← lift permission_registry_address;
  stored ← get_at Authorization GRANT_DOCUMENT_NAMESPACE address now;
  match stored with
  | None => mret {| pr_version := PERMISSION_REGISTRY_VERSION; pr_permissions := [] |}
  | Some b =>
      registry ← lift (map_err VaultError.Protocol (serde_from_slice b));
      if negb (pr_version registry =? PERMISSION_REGISTRY_VERSION)
      then lift (Err (VaultError.InvalidData "unsupported permission registry version"))
      else mret registry
  end.

Definition write_registry (registry : PermissionRegistry)
    (operations : list DocumentOperation.document_operation)
    (provenance : Provenance.provenance) (now : Z) : SM St () :=
  value ← lift (map_err VaultError.Protocol (serde_to_vec registry));
  address ← lift permission_registry_address;
  mutate Authorization GRANT_DOCUMENT_NAMESPACE
    (operations ++ [DocumentOperation.Put address value None]) provenance now.

Definition with_permissions (r : PermissionRegistry) (ps : list StoredPermission)
    : PermissionRegistry := {| pr_version := pr_version r; pr_permissions := ps |}.

Definition with_target (p : Permission) (scope : option DocumentKind)
    (target : option PermissionTarget.target) : Permission := {|
  perm_target := target; perm_id := perm_id p; perm_scope := scope;
  perm_operation := perm_operation p; perm_principal := perm_principal p;
  perm_application := perm_application p; perm_state := perm_state p |}.

Definition promote_permission (caller : CallerIdentity) (target : GrantTarget.grant_target)
    (grant_permission : GrantPermission.permission) (permission : Permission) (now : Z)
    (provenance : Provenance.provenance) : SM St () :=
  _ ← lift (caller_validate caller);
  match perm_state permission with
  | PermissionState.Granted _ expires_at single_use =>
      _ ← lift (fail_if (past_deadline now expires_at) VaultError.Expired);
      let caller_fingerprint := fingerprint caller in
      let target_digest := grant_target_digest target in
      address ← lift (grant_address caller_fingerprint target_digest grant_permission);
      let grant := new_grant caller_fingerprint target_digest grant_permission
                     expires_at single_use in
      grant_bytes ← lift (map_err VaultError.Protocol (serde_to_vec grant));
      let permission := with_target permission (Some (target_scope target))
                          (Some (summary target)) in
      registry ← load_permission_registry now;
      let kept := retain (λ stored,
        negb (String.eqb (perm_id (sp_permission stored)) (perm_id permission))
          && negb (is_expired (sp_permission stored) now)) (pr_permissions registry) in
      let stored := {| sp_permission := permission;
        sp_caller_fingerprint := caller_fingerprint; sp_target_digest := target_digest;
        sp_grant_permission := grant_permission |} in
      write_registry (with_permissions registry (kept ++ [stored]))
        [DocumentOperation.Put address grant_bytes expires_at] provenance now
  | PermissionState.Pending _ _ _ _ _ =>
      lift (Err (VaultError.Protocol "promoted permission must be granted"))
  end.

(** Old summaries lack their scope or target; recover only one authenticated by
    the stored digest. *)
Definition legacy_permission_scope (application : VaultApplicationContext)
    (target_digest : bytes) : option DocumentKind :=
  project ← app_project application;
  find_first (λ scope,
    bool_decide (grant_target_digest (GrantTarget.Project scope (as_bytes project) project
      (app_base_dir application)) = target_digest))
    [LinuxSecretService; SecretSpecProviderCache].

Definition recover_permission_target (permission : Permission) (digest : bytes) : Permission :=
  match perm_target permission, perm_scope permission,
        app_project (perm_application permission) with
  | None, Some scope, Some project =>
      let target := GrantTarget.Project scope (as_bytes project) project
                      (app_base_dir (perm_application permission)) in
      if bool_decide (grant_target_digest target = digest)
      then with_target permission (perm_scope permission) (Some (summary target))
      else permission
  | _, _, _ => permission
  end.

Definition listed_permission (now : Z) (stored : StoredPermission) : option Permission :=
  let p := sp_permission stored in
  match perm_state p with
  | PermissionState.Granted _ expires_at _ =>
      if unexpired now expires_at then
        let p := match perm_scope p with
                 | None => with_target p
                     (legacy_permission_scope (perm_application p) (sp_target_digest stored))
                     (perm_target p)
                 | Some _ => p
                 end in
        Some (recover_permission_target p (sp_target_digest stored))
      else None
  | PermissionState.Pending _ _ _ _ _ => None
  end.

Definition list_granted_permissions (now : Z) : SM St (list Permission) :=
  registry ← load_permission_registry now;
  mret (omap (listed_permission now) (pr_permissions registry)).

Definition revoke_permission (id : string) (now : Z) (provenance : Provenance.provenance)
    : SM St () :=
  registry ← load_permission_registry now;
  index ← lift (ok_or (VaultError.Protocol "permission is missing or expired")
            (position (λ stored, String.eqb (perm_id (sp_permission stored)) id)
               (pr_permissions registry)));
  removed ← lift (ok_or (VaultError.Protocol "permission is missing or expired")
              (pr_permissions registry !! index));
  let kept := retain (λ stored, negb (is_expired (sp_permission stored) now))
                (take index (pr_permissions registry)
                   ++ drop (S index) (pr_permissions registry)) in
  address ← lift (grant_address (sp_caller_fingerprint removed) (sp_target_digest removed)
              (sp_grant_permission removed));
  write_registry (with_permissions registry kept) [DocumentOperation.Delete address]
    provenance now.

(** ** Authorization *)

(** The loop of [find_grant] over the candidate records. *)
Fixpoint scan_grants (caller_fingerprint : bytes) (permission : GrantPermission.permission)
    (now : Z) (single_use : FoundGrant.found_grant)
    (records : list (bytes * option bytes)) : VaultResult FoundGrant.found_grant :=
  match records with
  | [] => Ok single_use
  | (_, None) :: records => scan_grants caller_fingerprint permission now single_use records
  | (target_digest, Some b) :: records =>
      grant ← map_err VaultError.Protocol (serde_from_slice b);
      if negb (grant_satisfies grant caller_fingerprint target_digest permission now)
      then scan_grants caller_fingerprint permission now single_use records
      else if negb (g_single_use grant)
      then Ok (FoundGrant.Reusable (g_expires_at grant))
      else scan_grants caller_fingerprint permission now
             (match single_use with
              | FoundGrant.NotFound => FoundGrant.SingleUse target_digest (g_expires_at grant)
              | _ => single_use
              end) records
  end.

Definition find_grant (caller : CallerIdentity) (requirement : GrantRequirement) (now : Z)
    : SM St FoundGrant.found_grant :=
  let caller_fingerprint := fingerprint caller in
  let permission := gr_permission requirement in
  let targets := map grant_target_digest (candidate_targets requirement) in
  addresses ← lift (try_collect (λ target_digest,
                grant_address caller_fingerprint target_digest permission) targets);
  records ← get_many Authorization GRANT_DOCUMENT_NAMESPACE addresses now;
  lift (scan_grants caller_fingerprint permission now FoundGrant.NotFound
          (zip targets records)).

Definition require_grant_until (caller : CallerIdentity) (requirement : GrantRequirement)
    (now : Z) : SM St (option Z) :=
  found ← find_grant caller requirement now;
  match found with
  | FoundGrant.Reusable expires_at => mret expires_at
  | FoundGrant.SingleUse _ _ | FoundGrant.NotFound =>
      lift (Err VaultError.AuthorizationRequired)
  end.

Definition consume_grant (caller_fingerprint target_digest : bytes)
    (grant_permission : GrantPermission.permission) (now : Z)
    (provenance : Provenance.provenance) : SM St () :=
  registry ← load_permission_registry now;
  let kept := retain (λ stored,
    negb (bool_decide (sp_caller_fingerprint stored = caller_fingerprint)
            && bool_decide (sp_target_digest stored = target_digest)
            && bool_decide (sp_grant_permission stored = grant_permission))
      && negb (is_expired (sp_permission stored) now)) (pr_permissions registry) in
  address ← lift (grant_address caller_fingerprint target_digest grant_permission);
  write_registry (with_permissions registry kept) [DocumentOperation.Delete address]
    provenance now.

Definition require_grant_consuming (caller : CallerIdentity) (requirement : GrantRequirement)
    (now : Z) (provenance : Provenance.provenance) : SM St (option Z) :=
  found ← find_grant caller requirement now;
  match found with
  | FoundGrant.Reusable expires_at => mret expires_at
  | FoundGrant.SingleUse target_digest expires_at =>
      _ ← consume_grant (fingerprint caller) target_digest (gr_permission requirement)
            now provenance;
      mret expires_at
  | FoundGrant.NotFound => lift (Err VaultError.AuthorizationRequired)
  end.
End Grants.
