(* ===== verification/GrantProofs.v ===== *)
(** What the grant component guarantees, against the store's interface: which
    stored records authorize a request, that single-use grants are spent, that
    revocation and supersession take access away, and that digests keep callers
    and targets apart (up to a SHA-256 collision). *)
From Stdlib Require Import ZArith Lia Bool.
From stdpp Require Import base gmap strings list.
From S2P Require Import Prelude Core Address Text Wire History StoreSpec Grant.

(** The document that holds grants, holders and the registry. *)
Definition grants_of (v : StoreView) : DocumentView :=
  v Authorization GRANT_DOCUMENT_NAMESPACE.

(** ** Digests keep targets and grants apart *)

(** Every string of a target is a Rust string. *)
Definition target_fits (t : GrantTarget.grant_target) : Prop :=
  match t with
  | GrantTarget.Kind _ => True
  | GrantTarget.Namespace _ n => fits64 n
  | GrantTarget.Entry _ n a => fits64 n ∧ address_fits a
  | GrantTarget.ProjectEntry _ n a project base_dir =>
      fits64 n ∧ address_fits a ∧ str_fits project ∧ opt_fits base_dir
  | GrantTarget.Project _ n project base_dir =>
      fits64 n ∧ str_fits project ∧ opt_fits base_dir
  end.

Lemma document_kind_tag_inj k k' : document_kind_tag k = document_kind_tag k' → k = k'.
Proof. by destruct k, k'. Qed.

Lemma permission_name_inj p q : permission_name p = permission_name q → p = q.
Proof. by destruct p, q. Qed.

Lemma append_digest_bytes_inj a b x y :
  fits64 a → fits64 b → append_digest_bytes a ++ x = append_digest_bytes b ++ y → a = b ∧ x = y.
Proof. apply framed_app_inj. Qed.

Lemma base_dir_suffix_inj o o' :
  opt_fits o → opt_fits o' → is_Some o ↔ is_Some o' →
  base_dir_suffix o = base_dir_suffix o' → o = o'.
Proof.
  intros Ho Ho' Hiff Heq. destruct o as [s|], o' as [s'|]; cbn -[append_digest_bytes] in *.
  - f_equal. apply as_bytes_inj. exact (framed_inj _ _ Ho Ho' Heq).
  - destruct Hiff as [Hi _]. destruct (Hi ltac:(eauto)). done.
  - destruct Hiff as [_ Hi]. destruct (Hi ltac:(eauto)). done.
  - done.
Qed.

(** The address inside a target. *)
Definition target_address (t : GrantTarget.grant_target) : option SecretAddress :=
  match t with
  | GrantTarget.Entry _ _ a | GrantTarget.ProjectEntry _ _ a _ _ => Some a
  | _ => None
  end.

Section Digests.
Context `{Sha256Ok, Base64Ok}.

Lemma storage_key_fits a : str_fits (storage_key a).
Proof.
  unfold str_fits. apply fits64_lt. rewrite length_as_bytes. unfold storage_key.
  pose proof (b64url_length (sha256 (address_preimage a))) as Hl.
  rewrite sha256_length in Hl. lia.
Qed.

(** Cut a namespace, a storage key or a string off both sides of an equation of
    target encodings. *)
Ltac peel_namespace H := apply append_digest_bytes_inj in H as [? H]; [|assumption..].
Ltac peel_key H :=
  apply append_digest_str_inj in H as [? H]; [|exact (storage_key_fits _)..].
Ltac peel_string H := apply append_digest_str_inj in H as [? H]; [|assumption..].

(** Separate the two tag bytes of a target encoding from its fields. *)
Lemma target_tags_inj (x x' : Byte.byte) k k' r r' :
  [x; document_kind_tag k] ++ r = [x'; document_kind_tag k'] ++ r' → x = x' ∧ k = k' ∧ r = r'.
Proof.
  intros Heq. apply app_inj_len in Heq as [Htag ->]; [|done].
  split_and!; [congruence| |done]. apply document_kind_tag_inj. congruence.
Qed.

(** Two particular targets whose addresses differ and share a storage key. *)
Definition target_keys_clash (t t' : GrantTarget.grant_target) : Prop :=
  ∃ a a', target_address t = Some a ∧ target_address t' = Some a' ∧ keys_clash a a'.

Lemma grant_target_preimage_inj t t' :
  target_fits t → target_fits t' → grant_target_preimage t = grant_target_preimage t' →
  t = t' ∨ target_keys_clash t t'.
Proof.
  intros Ht Ht' Heq. apply app_inj_len in Heq as [_ Heq]; [|done].
  destruct t as [k|k n|k n a|k n a pr bd|k n pr bd],
    t' as [k'|k' n'|k' n' a'|k' n' a' pr' bd'|k' n' pr' bd'];
    cbn [target_fits] in Ht, Ht'; destruct_and?;
    try (destruct bd; discriminate Heq); try (destruct bd'; discriminate Heq);
    try (destruct bd, bd'; discriminate Heq); try discriminate Heq.
  - apply (target_tags_inj _ _ k k' [] []) in Heq as (_ & -> & _). by left.
  - apply target_tags_inj in Heq as (_ & -> & Heq).
    left. f_equal. eapply framed_inj; eassumption.
  - apply target_tags_inj in Heq as (_ & -> & Heq). peel_namespace Heq.
    subst. apply (framed_inj _ _ (storage_key_fits _) (storage_key_fits _)) in Heq.
    apply as_bytes_inj, storage_key_inj in Heq as [->|?]; [by left|right; by eexists _, _].
  - apply target_tags_inj in Heq as (Htag & -> & Heq). peel_namespace Heq. peel_key Heq.
    peel_string Heq. subst.
    apply base_dir_suffix_inj in Heq as ->; [|assumption..|by destruct bd, bd'].
    match goal with Hk : storage_key _ = storage_key _ |- _ =>
      apply storage_key_inj in Hk as [->|?]; [by left|right; by eexists _, _] end.
  - apply target_tags_inj in Heq as (Htag & -> & Heq). peel_namespace Heq.
    peel_string Heq. subst.
    apply base_dir_suffix_inj in Heq as ->; [|assumption..|by destruct bd, bd']. by left.
Qed.

Lemma grant_target_digest_inj t t' :
  target_fits t → target_fits t' → grant_target_digest t = grant_target_digest t' →
  t = t' ∨ target_keys_clash t t'
  ∨ sha256_collides (grant_target_preimage t) (grant_target_preimage t').
Proof.
  unfold grant_target_digest. intros Ht Ht' Heq.
  apply sha256_eq_or_collides in Heq as [Heq|?]; [|by right; right].
  apply grant_target_preimage_inj in Heq as [?|?]; auto.
Qed.

(** *** Grant addresses *)

Lemma address_new_Ok item field a :
  address_new item field = Ok a → a = Local item field ∧ address_fits a.
Proof.
  unfold address_new. intros Ha. inv_ok. split; [done|]. by apply address_validate_fits.
Qed.

(** Cut a path component that holds no separator. *)
Lemma slash_inj (a b x y : bytes) :
  Byte.x2f ∉ a → Byte.x2f ∉ b → a ++ Byte.x2f :: x = b ++ Byte.x2f :: y → a = b ∧ x = y.
Proof.
  revert b; induction a as [|c a IH]; intros [|d b]; cbn [app];
    rewrite ?not_elem_of_cons; intros Ha Hb Heq; injection Heq; clear Heq.
  - by intros ->.
  - intros _ <-. by destruct Hb.
  - intros _ ->. by destruct Ha.
  - intros Ht ->. destruct Ha, Hb. apply IH in Ht as [-> ->]; [|assumption..]. done.
Qed.

Lemma grant_address_inj fp digest p a fp' digest' p' :
  grant_address fp digest p = Ok a → grant_address fp' digest' p' = Ok a →
  fp = fp' ∧ digest = digest' ∧ p = p'.
Proof.
  unfold grant_address. intros Ha Ha'.
  apply address_new_Ok in Ha as [-> _]. apply address_new_Ok in Ha' as [Heq _].
  injection Heq as Heq. apply (f_equal as_bytes) in Heq. rewrite !as_bytes_app in Heq.
  apply app_inj_len in Heq as [_ Heq]; [|done].
  apply slash_inj in Heq as [Hfp Heq]; [|apply b64url_no_slash..].
  apply slash_inj in Heq as [Hd Heq]; [|apply b64url_no_slash..].
  apply as_bytes_inj, b64url_encode_inj in Hfp, Hd.
  by apply as_bytes_inj, permission_name_inj in Heq.
Qed.

Lemma grant_address_fits fp digest p a : grant_address fp digest p = Ok a → address_fits a.
Proof. intros Ha. by apply address_new_Ok in Ha as [_ ?]. Qed.

Lemma registry_address_fits a : permission_registry_address = Ok a → address_fits a.
Proof. intros Ha. by apply address_new_Ok in Ha as [_ ?]. Qed.

(** A grant record is never where the registry or a holder is. *)
Lemma grant_not_registry fp digest p a r :
  grant_address fp digest p = Ok a → permission_registry_address = Ok r → a ≠ r.
Proof.
  intros Ha Hr ->. apply address_new_Ok in Ha as [-> _]. by apply address_new_Ok in Hr as [[=] _].
Qed.

Lemma grant_not_holder fp digest p a digest' h :
  grant_address fp digest p = Ok a → exclusive_holder_address digest' = Ok h → a ≠ h.
Proof.
  intros Ha Hh ->. apply address_new_Ok in Ha as [-> _]. by apply address_new_Ok in Hh as [[=] _].
Qed.

(** The grant's record and the registry's share a storage key. *)
Definition registry_clash (a : SecretAddress) : Prop :=
  ∃ r, permission_registry_address = Ok r ∧ keys_clash a r.

(** A grant's storage key determines the caller, the target and the
    permission: two requests that would read the same record come from the same
    caller identity for the same target and operation, unless one of the digests
    on the way collides: those of the two records' addresses, of the two callers,
    of the two targets or of the addresses inside them. *)
Theorem grant_key_binds_caller_target_permission c c' t t' p p' a a' :
  caller_wf c → caller_wf c' → target_fits t → target_fits t' →
  grant_address (fingerprint c) (grant_target_digest t) p = Ok a →
  grant_address (fingerprint c') (grant_target_digest t') p' = Ok a' →
  storage_key a = storage_key a' →
  (c = c' ∧ t = t' ∧ p = p')
  ∨ keys_clash a a'
  ∨ sha256_collides (fingerprint_preimage c) (fingerprint_preimage c')
  ∨ sha256_collides (grant_target_preimage t) (grant_target_preimage t')
  ∨ target_keys_clash t t'.
Proof.
  intros Hc Hc' Ht Ht' Ha Ha' Hk.
  apply storage_key_inj in Hk as [<-|?]; [|auto].
  destruct (grant_address_inj _ _ _ _ _ _ _ Ha Ha') as (Hfp & Hd & ->).
  apply fingerprint_inj in Hfp as [->|?]; [|auto|done..].
  apply grant_target_digest_inj in Hd as [->|[?|?]]; auto 10.
Qed.
End Digests.

Section GrantProofs.
Context `{Sha256Ok, Base64Ok}.
Context `{SerdeOk AccessGrant, SerdeOk PermissionRegistry, SerdeOk ExclusiveHolder}.
Context `{VaultStore St}.

(** A live record of the document that grants [p] on the target with digest
    [digest] to the caller with fingerprint [fp]. *)
Definition authorizes (d : DocumentView) (fp digest : bytes) (p : GrantPermission.permission)
    (now : Z) (single : bool) (expires_at : option Z) : Prop :=
  ∃ a c g, grant_address fp digest p = Ok a ∧ view_read d now a = Some c
    ∧ serde_from_slice (cell_value c) = Ok g
    ∧ grant_satisfies g fp digest p now = true
    ∧ g_single_use g = single ∧ g_expires_at g = expires_at.

(** ** Scanning the candidate records *)

(** A record of a scanned list that satisfies the requirement. *)
Definition hit (fp : bytes) (p : GrantPermission.permission) (now : Z)
    (records : list (bytes * option bytes)) (single : bool) (digest : bytes)
    (expires_at : option Z) : Prop :=
  ∃ b g, (digest, Some b) ∈ records ∧ serde_from_slice b = Ok g
    ∧ grant_satisfies g fp digest p now = true
    ∧ g_single_use g = single ∧ g_expires_at g = expires_at.

Lemma hit_cons fp p now d b records single digest e :
  hit fp p now ((d, b) :: records) single digest e ↔
    hit fp p now records single digest e
    ∨ (d = digest ∧ ∃ bs g, b = Some bs ∧ serde_from_slice bs = Ok g
        ∧ grant_satisfies g fp digest p now = true
        ∧ g_single_use g = single ∧ g_expires_at g = e).
Proof.
  unfold hit. split.
  - intros (bs & g & Hin & Hg). apply elem_of_cons in Hin as [[= -> <-]|Hin]; [right|left]; eauto 10.
  - intros [(bs & g & Hin & Hg)|(-> & bs & g & -> & Hg)]; exists bs, g; split; [|done| |done];
      rewrite elem_of_cons; auto.
Qed.

Lemma hit_skip fp p now d b records single digest e :
  (∀ bs g, b = Some bs → serde_from_slice bs = Ok g → grant_satisfies g fp d p now = false) →
  hit fp p now ((d, b) :: records) single digest e ↔ hit fp p now records single digest e.
Proof.
  intros Hno. rewrite hit_cons. split; [|by left].
  intros [?|(<- & bs & g & -> & Hg & Hs & _)]; [done|].
  specialize (Hno bs g eq_refl Hg). congruence.
Qed.

(** What the scan's result says about the records, starting from [acc]. *)
Definition scan_result (fp : bytes) (p : GrantPermission.permission) (now : Z)
    (acc found : FoundGrant.found_grant) (records : list (bytes * option bytes)) : Prop :=
  match found with
  | FoundGrant.Reusable e =>
      (∃ digest, hit fp p now records false digest e) ∨ acc = found
  | FoundGrant.SingleUse digest e =>
      (acc = found ∨ (acc = FoundGrant.NotFound ∧ hit fp p now records true digest e))
      ∧ ∀ digest e, ¬ hit fp p now records false digest e
  | FoundGrant.NotFound =>
      acc = FoundGrant.NotFound ∧ ∀ single digest e, ¬ hit fp p now records single digest e
  end.

Lemma scan_result_skip fp p now acc found d b records :
  (∀ bs g, b = Some bs → serde_from_slice bs = Ok g → grant_satisfies g fp d p now = false) →
  scan_result fp p now acc found records → scan_result fp p now acc found ((d, b) :: records).
Proof.
  intros Hno. pose proof (λ single dg e, hit_skip fp p now d b records single dg e Hno) as Hs.
  unfold scan_result. destruct found; setoid_rewrite Hs; done.
Qed.

Lemma scan_grants_result fp p now acc records found :
  scan_grants fp p now acc records = Ok found → scan_result fp p now acc found records.
Proof.
  revert acc; induction records as [|[d [b|]] records IH]; intros acc; cbn [scan_grants].
  - intros [= <-]. unfold scan_result.
    destruct acc; try (right; done); split; auto; intros **; intros (? & ? & Hin & _);
      by apply elem_of_nil in Hin.
  - intros Hscan. inv_ok. rename a into g.
    destruct (grant_satisfies g fp d p now) eqn:Hsat; cbn [negb] in Hscan.
    + destruct (g_single_use g) eqn:Hsingle; cbn [negb] in Hscan.
      * apply IH in Hscan. unfold scan_result in *. destruct found as [e|dg e|].
        -- destruct Hscan as [[dg Hh]|Heq]; [left; exists dg; rewrite hit_cons; by left|].
           right. by destruct acc.
        -- destruct Hscan as [Hacc Hno]. split.
           ++ destruct Hacc as [Heq|[Heq Hh]]; [|by destruct acc].
              destruct acc as [| |]; try by left. right. split; [done|].
              injection Heq as <- <-. rewrite hit_cons. right. eauto 10.
           ++ intros dg' e'. rewrite hit_cons. intros [Hh|(-> & bs & g' & [= <-] & Hg' & _ & Hs & _)];
                [by eapply Hno|congruence].
        -- destruct Hscan as [Heq _]. by destruct acc.
      * injection Hscan as <-. left. exists d. rewrite hit_cons. right. eauto 10.
    + apply scan_result_skip; [|by apply IH]. intros bs g' [= <-] Hg'. congruence.
  - intros Hscan. apply scan_result_skip; [done|]. by apply IH.
Qed.

(** ** Which stored grants authorize a request *)

(** The records [find_grant] reads, for targets with the given digests. *)
Lemma hit_authorizes fp p now d digests addresses single digest e :
  Forall2 (λ dg a, grant_address fp dg p = Ok a) digests addresses →
  hit fp p now (zip digests (map (λ a, cell_value <$> view_read d now a) addresses))
    single digest e
  ↔ digest ∈ digests ∧ authorizes d fp digest p now single e.
Proof.
  induction 1 as [|dg a digests addresses Ha _ IH]; cbn [map zip zip_with].
  - split; [intros (? & ? & Hin & _); by apply elem_of_nil in Hin|].
    intros [Hin _]. by apply elem_of_nil in Hin.
  - rewrite hit_cons, IH, elem_of_cons. split.
    + intros [[? ?]|(-> & bs & g & Hb & Hg)]; [auto|].
      apply fmap_Some in Hb as (c & Hc & ->). split; [by left|].
      exists a, c, g. auto.
    + intros [[->|Hin] Hauth]; [right|left; auto].
      destruct Hauth as (a' & c & g & Ha' & Hc & Hg). replace a' with a in * by congruence.
      split; [done|]. exists (cell_value c), g. rewrite Hc. auto.
Qed.

Context `{!VaultStoreOk St}.

Lemma find_grant_result caller r now s found s' :
  find_grant caller r now s = (Ok found, s') →
  let fp := fingerprint caller in
  let p := gr_permission r in
  let digests := map grant_target_digest (candidate_targets r) in
  let auth := λ digest single e,
    digest ∈ digests ∧ authorizes (grants_of (view s)) fp digest p now single e in
  (∀ k n, view s' k n = view s k n) ∧
  match found with
  | FoundGrant.Reusable e => ∃ digest, auth digest false e
  | FoundGrant.SingleUse digest e => auth digest true e ∧ ∀ digest e, ¬ auth digest false e
  | FoundGrant.NotFound => ∀ digest single e, ¬ auth digest single e
  end.
Proof.
  unfold find_grant. intros Hfind. inv_sm.
  apply try_collect_Ok in Ha.
  match goal with H : get_many _ _ _ _ _ = _ |- _ => apply get_many_spec in H as [Hview Hget] end.
  destruct (Hget _ eq_refl) as [-> _]. split; [done|].
  apply scan_grants_result in Hfind. unfold scan_result in Hfind.
  pose proof (λ d single dg e, hit_authorizes _ _ now d _ _ single dg e Ha) as Hiff.
  destruct found; setoid_rewrite Hiff in Hfind.
  - destruct Hfind as [?|?]; [done|discriminate].
  - destruct Hfind as [[?|[_ ?]] ?]; [discriminate|done].
  - by destruct Hfind.
Qed.

(** ** The registry document *)

(** The decoded registry, empty when there is none. *)
Definition registry_at (d : DocumentView) (now : Z) (r : PermissionRegistry) : Prop :=
  ∃ a, permission_registry_address = Ok a ∧
  match view_read d now a with
  | Some c => serde_from_slice (cell_value c) = Ok r ∧ pr_version r = PERMISSION_REGISTRY_VERSION
  | None => r = {| pr_version := PERMISSION_REGISTRY_VERSION; pr_permissions := [] |}
  end.

Lemma load_permission_registry_spec now s r s' :
  load_permission_registry now s = (Ok r, s') →
  registry_at (grants_of (view s)) now r
  ∧ (∀ now' a, now ≤ now' →
      view_read (grants_of (view s')) now' a = view_read (grants_of (view s)) now' a)
  ∧ same_elsewhere (view s) (view s') Authorization GRANT_DOCUMENT_NAMESPACE.
Proof.
  unfold load_permission_registry. intros Hl. inv_sm.
  match goal with H : get_at _ _ _ _ _ = (Ok ?v, ?s') |- _ =>
    rename H into Hget; rename v into stored; rename s' into s1 end.
  pose proof (get_at_spec _ _ _ _ _ _ Hget) as (Helse & _ & Hv). specialize (Hv _ eq_refl).
  assert (s' = s1) as ->
    by (destruct stored; inv_sm; [destruct (negb _); by injection Hl|done]).
  split; [|split; [intros; by eapply get_at_view_read|done]].
  exists a. split; [done|]. unfold grants_of.
  destruct stored as [b|]; inv_sm; symmetry in Hv.
  - destruct (pr_version _ =? PERMISSION_REGISTRY_VERSION) eqn:Hver; cbn in Hl; [|discriminate].
    bool_prop. injection Hl as ->.
    apply fmap_Some in Hv as (c & Hc & ->). rewrite Hc. auto.
  - apply fmap_None in Hv. by rewrite Hv.
Qed.

Lemma write_registry_spec reg ops prov now s s' :
  write_registry reg ops prov now s = (Ok tt, s') →
  ∃ a value, permission_registry_address = Ok a ∧ serde_to_vec reg = Ok value
    ∧ same_elsewhere (view s) (view s') Authorization GRANT_DOCUMENT_NAMESPACE
    ∧ grants_of (view s')
      = apply_operations (grants_of (view s)) (ops ++ [DocumentOperation.Put a value None]).
Proof.
  unfold write_registry. intros Hw. inv_sm. apply mutate_spec in Hw as [Helse Hv].
  eexists _, _. split_and!; [eassumption..|exact Hv].
Qed.

(** After a write the registry is what was written, whenever it is read. *)
Lemma write_registry_at reg ops prov now s s' now' :
  write_registry reg ops prov now s = (Ok tt, s') →
  pr_version reg = PERMISSION_REGISTRY_VERSION → registry_at (grants_of (view s')) now' reg.
Proof.
  intros Hw Hver. apply write_registry_spec in Hw as (a & value & Ha & Hb & _ & Hv).
  exists a. split; [done|]. unfold view_read. rewrite Hv.
  pose proof (apply_operations_last (grants_of (view s)) ops
    (DocumentOperation.Put a value None) []) as Hlast. cbn [operation_address] in Hlast.
  rewrite Hlast; [|intros op Hop; by apply elem_of_nil in Hop].
  cbn. split; [by apply serde_roundtrip|done].
Qed.

Lemma registry_at_version d now reg :
  registry_at d now reg → pr_version reg = PERMISSION_REGISTRY_VERSION.
Proof. intros (a & _ & Hreg). destruct (view_read d now a); [by destruct Hreg|by subst]. Qed.

(** A change to a grant made together with a registry update takes effect. *)
Lemma write_registry_changes reg prov now s s' op fp digest p :
  write_registry reg [op] prov now s = (Ok tt, s') →
  grant_address fp digest p = Ok (operation_address op) →
  grants_of (view s') !! storage_key (operation_address op) = operation_cell op
  ∨ registry_clash (operation_address op).
Proof.
  intros Hw Ha. apply write_registry_spec in Hw as (r & value & Hr & _ & _ & Hv).
  destruct (decide (storage_key (operation_address op) = storage_key r)) as [Hk|Hne].
  { right. exists r. split; [done|]. split; [|done]. by eapply grant_not_registry. }
  left. rewrite Hv. apply (apply_operations_last _ []).
  intros op' Hop. apply list_elem_of_singleton in Hop as ->. done.
Qed.

(** A grant deleted together with a registry update is gone. *)
Lemma write_registry_removes reg prov now s s' a fp digest p :
  write_registry reg [DocumentOperation.Delete a] prov now s = (Ok tt, s') →
  grant_address fp digest p = Ok a →
  (∀ now' single e, ¬ authorizes (grants_of (view s')) fp digest p now' single e)
  ∨ registry_clash a.
Proof.
  intros Hw Ha. destruct (write_registry_changes _ _ _ _ _ _ _ _ _ Hw Ha) as [Hv|?]; [left|by right].
  intros now' single e (a' & c & g & Ha' & Hc & _). replace a' with a in * by congruence.
  unfold view_read in Hc. cbn [operation_address] in Hv. by rewrite Hv in Hc.
Qed.

(** ** Authorization *)

(** A stored grant for one of the requirement's targets. *)
Definition granted (d : DocumentView) (caller : CallerIdentity) (r : GrantRequirement)
    (now : Z) (single : bool) (t : GrantTarget.grant_target) (e : option Z) : Prop :=
  t ∈ candidate_targets r
  ∧ authorizes d (fingerprint caller) (grant_target_digest t) (gr_permission r) now single e.

Lemma find_grant_granted caller r now s found s' :
  find_grant caller r now s = (Ok found, s') →
  let d := grants_of (view s) in
  (∀ k n, view s' k n = view s k n) ∧
  match found with
  | FoundGrant.Reusable e => ∃ t, granted d caller r now false t e
  | FoundGrant.SingleUse digest e =>
      (∃ t, digest = grant_target_digest t ∧ granted d caller r now true t e)
      ∧ ∀ t e, ¬ granted d caller r now false t e
  | FoundGrant.NotFound => ∀ t single e, ¬ granted d caller r now single t e
  end.
Proof.
  intros Hf. apply find_grant_result in Hf as [Hview Hf]. split; [done|].
  assert (∀ single t e, granted (grants_of (view s)) caller r now single t e →
    grant_target_digest t ∈ map grant_target_digest (candidate_targets r)
    ∧ authorizes (grants_of (view s)) (fingerprint caller) (grant_target_digest t)
        (gr_permission r) now single e) as Hmap.
  { intros single t e [Hin ?]. split; [|done]. by apply (list_elem_of_fmap_2 grant_target_digest). }
  assert (∀ dg, dg ∈ map grant_target_digest (candidate_targets r) →
    ∃ t, dg = grant_target_digest t ∧ t ∈ candidate_targets r) as Hunmap
    by (intros dg Hdg; by apply list_elem_of_fmap_1 in Hdg).
  destruct found as [e|dg e|].
  - destruct Hf as (dg & Hdg & Hauth). destruct (Hunmap _ Hdg) as (t & -> & Ht). by exists t.
  - destruct Hf as ((Hdg & Hauth) & Hno). split; [|intros t e' Hg; eapply Hno; by apply Hmap].
    destruct (Hunmap _ Hdg) as (t & -> & Ht). by exists t.
  - intros t single e Hg. eapply Hf; by apply Hmap.
Qed.

(** Looking for a grant never writes, whatever it finds. *)
Lemma find_grant_view caller r now s x s' :
  find_grant caller r now s = (x, s') → ∀ k n, view s' k n = view s k n.
Proof.
  unfold find_grant, mbind, sm_bind, lift.
  destruct (try_collect _ _) as [addresses|e]; [|by intros [= _ <-]].
  destruct (get_many _ _ addresses now s) as [[records|e] s1] eqn:Hg;
    apply get_many_spec in Hg as [Hview _]; intros [= _ <-]; done.
Qed.

Lemma require_grant_until_view caller r now s x s' :
  require_grant_until caller r now s = (x, s') → ∀ k n, view s' k n = view s k n.
Proof.
  unfold require_grant_until, mbind, sm_bind, lift, mret, sm_ret.
  destruct (find_grant caller r now s) as [[found|e] s1] eqn:Hf;
    pose proof (find_grant_view _ _ _ _ _ _ Hf) as Hview; [|by intros [= _ <-]].
  destruct found; intros [= _ <-]; done.
Qed.

Lemma require_grant_until_found caller r now s e s' :
  require_grant_until caller r now s = (Ok e, s') ↔
    find_grant caller r now s = (Ok (FoundGrant.Reusable e), s').
Proof.
  unfold require_grant_until. rewrite sm_bind_Ok. split.
  - intros (found & s1 & Hf & Hm). unfold mret, sm_ret, lift in Hm.
    destruct found; congruence.
  - intros Hf. by eexists _, _.
Qed.

(** What [grant_satisfies] checks. *)
Lemma grant_satisfies_iff g fp digest p now :
  grant_satisfies g fp digest p now = true ↔
    g_version g = GRANT_VERSION ∧ g_caller_fingerprint g = fp ∧ g_target_digest g = digest
    ∧ (∀ deadline, g_expires_at g = Some deadline → now < deadline) ∧ p ∈ g_permissions g.
Proof.
  unfold grant_satisfies, unexpired. rewrite !andb_true_iff, !bool_decide_eq_true, Z.eqb_eq.
  destruct (g_expires_at g) as [d|]; rewrite ?Z.ltb_lt; naive_solver.
Qed.

(** C27: an operation authorized by [require_grant_until] has, in the store, a
    live, unexpired, reusable grant of the current version that names the
    caller's fingerprint, the digest of one of the requirement's targets and the
    permission, and the expiry it returns is the grant's; the check writes
    nothing. *)
Theorem authorization_needs_live_grant caller r now s e s' :
  require_grant_until caller r now s = (Ok e, s') →
  (∀ k n, view s' k n = view s k n)
  ∧ ∃ t a c g, t ∈ candidate_targets r
      ∧ grant_address (fingerprint caller) (grant_target_digest t) (gr_permission r) = Ok a
      ∧ view_read (grants_of (view s)) now a = Some c
      ∧ serde_from_slice (cell_value c) = Ok g
      ∧ g_version g = GRANT_VERSION ∧ g_caller_fingerprint g = fingerprint caller
      ∧ g_target_digest g = grant_target_digest t ∧ gr_permission r ∈ g_permissions g
      ∧ (∀ deadline, e = Some deadline → now < deadline)
      ∧ g_single_use g = false ∧ g_expires_at g = e.
Proof.
  rewrite require_grant_until_found. intros Hf.
  apply find_grant_granted in Hf as [Hview (t & Ht & a & c & g & Ha & Hc & Hg & Hsat & Hs & He)].
  apply grant_satisfies_iff in Hsat. split; [done|]. exists t, a, c, g.
  rewrite He in Hsat. naive_solver.
Qed.

(** The record that would grant a target can be read, when there is one. *)
Definition readable (d : DocumentView) (caller : CallerIdentity) (r : GrantRequirement) (now : Z)
    (t : GrantTarget.grant_target) : Prop :=
  ∀ a c, grant_address (fingerprint caller) (grant_target_digest t) (gr_permission r) = Ok a →
    view_read d now a = Some c → ∃ g : AccessGrant, serde_from_slice (cell_value c) = Ok g.

(** A reusable grant among targets, the records before it being readable. *)
Definition grant_reached (d : DocumentView) (caller : CallerIdentity) (r : GrantRequirement) (now : Z)
    (l : list GrantTarget.grant_target) : Prop :=
  ∃ before t after e, l = before ++ t :: after
    ∧ authorizes d (fingerprint caller) (grant_target_digest t) (gr_permission r) now false e
    ∧ Forall (readable d caller r now) before.

Lemma grant_reached_here d caller r now t l e :
  authorizes d (fingerprint caller) (grant_target_digest t) (gr_permission r) now false e →
  grant_reached d caller r now (t :: l).
Proof. intros Ha. exists [], t, l, e. split_and!; [done|done|constructor]. Qed.
Lemma grant_reached_later d caller r now t l :
  readable d caller r now t →
  (∀ e, ¬ authorizes d (fingerprint caller) (grant_target_digest t) (gr_permission r) now false e) →
  grant_reached d caller r now (t :: l) ↔ grant_reached d caller r now l.
Proof.
  intros Hr Hno. split.
  - intros ([|x before] & t' & after & e & [= -> Hl] & Hau & Hb); [by destruct (Hno e)|].
    apply Forall_cons in Hb as [_ Hb]. by exists before, t', after, e.
  - intros (before & t' & after & e & -> & Hau & Hb). exists (t :: before), t', after, e.
    split_and!; [done..|by constructor].
Qed.
Lemma grant_reached_readable d caller r now t l :
  grant_reached d caller r now (t :: l) →
  readable d caller r now t
  ∨ ∃ e, authorizes d (fingerprint caller) (grant_target_digest t) (gr_permission r) now false e.
Proof.
  intros ([|x before] & t' & after & e & [= -> Hl] & Hau & Hb); [right; by exists e|left].
  by apply Forall_cons in Hb as [? _].
Qed.

(** What the record of one target decides, when its grant would be at [a]. *)
Lemma authorizes_at d caller r now t a :
  grant_address (fingerprint caller) (grant_target_digest t) (gr_permission r) = Ok a →
  (readable d caller r now t ↔
    ∀ c, view_read d now a = Some c → ∃ g : AccessGrant, serde_from_slice (cell_value c) = Ok g)
  ∧ ∀ e, authorizes d (fingerprint caller) (grant_target_digest t) (gr_permission r) now false e ↔
    ∃ c g, view_read d now a = Some c ∧ serde_from_slice (cell_value c) = Ok g
      ∧ grant_satisfies g (fingerprint caller) (grant_target_digest t) (gr_permission r) now = true
      ∧ g_single_use g = false ∧ g_expires_at g = e.
Proof.
  intros Ha. split.
  - split; [intros Hx c; by apply Hx|]. intros Hx a' c Ha'. rewrite Ha in Ha'. injection Ha' as <-.
    apply Hx.
  - intros e. split; [|intros (c & g & ?); by exists a, c, g].
    intros (a' & c & g & Ha' & ?). exists c, g. rewrite Ha in Ha'. by injection Ha' as <-.
Qed.

(** The scan finds a reusable grant exactly when one is reached; when all the records are readable
    it finds something. *)
Definition scan_of (d : DocumentView) (caller : CallerIdentity) (r : GrantRequirement) (now : Z)
    (acc : FoundGrant.found_grant) (l : list GrantTarget.grant_target) (addresses : list SecretAddress)
    : VaultResult FoundGrant.found_grant :=
  scan_grants (fingerprint caller) (gr_permission r) now acc
    (zip (map grant_target_digest l) (map (λ a, cell_value <$> view_read d now a) addresses)).
Definition scan_decides (d : DocumentView) (caller : CallerIdentity) (r : GrantRequirement) (now : Z)
    (l : list GrantTarget.grant_target) (found : VaultResult FoundGrant.found_grant) : Prop :=
  ((∃ e, found = Ok (FoundGrant.Reusable e)) ↔ grant_reached d caller r now l)
  ∧ (Forall (readable d caller r now) l → ∃ f, found = Ok f).

(** One record: the scan goes on only past a readable one that is no reusable grant. *)
Lemma scan_step d caller r now t a l addresses acc :
  grant_address (fingerprint caller) (grant_target_digest t) (gr_permission r) = Ok a →
  (∀ e, acc ≠ FoundGrant.Reusable e) →
  (∀ acc', (∀ e, acc' ≠ FoundGrant.Reusable e) →
     scan_decides d caller r now l (scan_of d caller r now acc' l addresses)) →
  scan_decides d caller r now (t :: l) (scan_of d caller r now acc (t :: l) (a :: addresses)).
Proof.
  intros Ha Hacc Hrest. destruct (authorizes_at d caller r now t a Ha) as [Hread Hau].
  assert (∀ acc', (∀ e, acc' ≠ FoundGrant.Reusable e) → readable d caller r now t →
    (∀ e, ¬ authorizes d (fingerprint caller) (grant_target_digest t) (gr_permission r) now false e) →
    scan_decides d caller r now (t :: l) (scan_of d caller r now acc' l addresses)) as Hgo.
  { intros acc' Hacc' Hr Hno. destruct (Hrest acc' Hacc') as [Hiff Hall]. split.
    - by rewrite (grant_reached_later d caller r now t l Hr Hno).
    - intros [_ Hl]%Forall_cons. by apply Hall. }
  unfold scan_of. cbn [map zip zip_with].
  destruct (view_read d now a) as [c|] eqn:Hc; cbn [fmap option_fmap option_map scan_grants].
  2:{ apply Hgo; [done|by apply Hread|]. intros e (? & ? & [=] & _)%Hau. }
  destruct (serde_from_slice (cell_value c)) as [g|err] eqn:Hg; cbn [map_err mbind result_bind].
  2:{ assert (¬ readable d caller r now t) as Hnot.
      { intros Hx. destruct (proj1 Hread Hx c eq_refl). congruence. }
      split; [|by intros [? _]%Forall_cons]. split; [by intros [e [=]]|].
      intros [?|(e & (? & ? & [= <-] & ? & _)%Hau)]%grant_reached_readable; [done|]. congruence. }
  assert (readable d caller r now t) as Hr1 by (apply Hread; intros c' [= <-]; by exists g).
  assert (∀ e, authorizes d (fingerprint caller) (grant_target_digest t) (gr_permission r) now false e →
    grant_satisfies g (fingerprint caller) (grant_target_digest t) (gr_permission r) now = true
    ∧ g_single_use g = false) as Hg1.
  { intros e (c' & g' & [= <-] & Hg' & ? & ? & _)%Hau. by replace g with g' by congruence. }
  destruct (grant_satisfies g _ _ _ now) eqn:Hsat; cbn [negb];
    [|apply Hgo; [done|done|]; by intros e [? _]%Hg1].
  destruct (g_single_use g) eqn:Hs; cbn [negb].
  - apply Hgo; [by destruct acc|done|]. by intros e [_ ?]%Hg1.
  - split; [|by eexists]. split; [|by eexists]. intros _. eapply grant_reached_here, Hau.
    by exists c, g.
Qed.

Lemma scan_candidates d caller r now l addresses acc :
  try_collect (λ digest, grant_address (fingerprint caller) digest (gr_permission r))
    (map grant_target_digest l) = Ok addresses →
  (∀ e, acc ≠ FoundGrant.Reusable e) →
  scan_decides d caller r now l (scan_of d caller r now acc l addresses).
Proof.
  revert addresses acc. induction l as [|t l IH]; intros addresses acc; cbn [map try_collect].
  - intros [= <-] Hacc. split; [|by exists acc]. split; [intros [e [= He]]; by destruct (Hacc e)|].
    by intros ([|] & ? & ? & ? & [=] & _).
  - intros (a & Ha & Hr)%bind_Ok Hacc. apply bind_Ok in Hr as (addrs & Hr & [= <-]).
    apply scan_step; [done..|]. intros acc' Hacc'. by apply IH.
Qed.

(** C40: when the store answers, [require_grant_until] succeeds exactly if a reusable grant is stored
    for a candidate target and the records of the targets before it can be read; and when all
    the candidate records can be read and none of them is a reusable grant, it asks for
    authorization, even when a single-use grant is there. *)
Theorem authorization_iff_reusable_grant caller r now s addresses records s' :
  try_collect (λ digest, grant_address (fingerprint caller) digest (gr_permission r))
    (map grant_target_digest (candidate_targets r)) = Ok addresses →
  get_many Authorization GRANT_DOCUMENT_NAMESPACE addresses now s = (Ok records, s') →
  let d := grants_of (view s) in
  ((∃ e, require_grant_until caller r now s = (Ok e, s')) ↔
     grant_reached d caller r now (candidate_targets r))
  ∧ (Forall (readable d caller r now) (candidate_targets r) → (∀ t e, ¬ granted d caller r now false t e) →
     require_grant_until caller r now s = (Err VaultError.AuthorizationRequired, s')).
Proof.
  intros Ha Hg d. pose proof Hg as Hv. apply get_many_spec in Hv as [_ Hv].
  destruct (Hv _ eq_refl) as [Hrec _].
  destruct (scan_candidates d caller r now _ _ FoundGrant.NotFound Ha) as [Hiff Hall]; [done|].
  assert (∃ found, find_grant caller r now s = (found, s')
    ∧ found = scan_of d caller r now FoundGrant.NotFound (candidate_targets r) addresses)
    as (found & Hf & Hfound).
  { eexists. split; [|done]. unfold find_grant, mbind, sm_bind, lift. cbn zeta. by rewrite Ha, Hg, Hrec. }
  rewrite <- Hfound in Hiff, Hall. split.
  - rewrite <- Hiff. f_equiv. intros e. rewrite require_grant_until_found, Hf. split; congruence.
  - intros Hr Hno. destruct (Hall Hr) as [f ->].
    unfold require_grant_until, mbind, sm_bind. rewrite Hf. destruct f as [e| |]; [exfalso|done..].
    destruct (proj1 Hiff (ex_intro _ e eq_refl)) as (before & t & after & e' & Hl & Hau & _).
    apply (Hno t e'). split; [|done]. rewrite Hl. apply elem_of_app. right. by left.
Qed.

(** C28: [require_grant_consuming] authorizes either by a reusable grant, and
    then writes nothing, or by a single-use one that is afterwards gone: no
    record of the store grants the permission on that target any more, at any
    later time, and the registry no longer lists it. *)
Theorem single_use_grant_is_spent caller r now prov s e s' :
  require_grant_consuming caller r now prov s = (Ok e, s') →
  (∃ t, granted (grants_of (view s)) caller r now false t e
     ∧ ∀ k n, view s' k n = view s k n)
  ∨ (∃ t reg, granted (grants_of (view s)) caller r now true t e
     ∧ (∀ now' single e', ¬ granted (grants_of (view s')) caller r now' single t e')
     ∧ registry_at (grants_of (view s')) now reg
     ∧ ∀ stored, stored ∈ pr_permissions reg →
         ¬ (sp_caller_fingerprint stored = fingerprint caller
            ∧ sp_target_digest stored = grant_target_digest t
            ∧ sp_grant_permission stored = gr_permission r))
  ∨ (∃ t a, t ∈ candidate_targets r ∧ registry_clash a
     ∧ grant_address (fingerprint caller) (grant_target_digest t) (gr_permission r) = Ok a).
Proof.
  unfold require_grant_consuming. rewrite sm_bind_Ok. intros (found & s1 & Hf & Hreq).
  apply find_grant_granted in Hf as [Hview Hres]. destruct found as [e'|dg e'|].
  - left. unfold mret, sm_ret in Hreq. simplify_eq. destruct Hres as [t Ht]. by exists t.
  - right. destruct Hres as [(t & -> & Ht) _]. unfold consume_grant in Hreq. inv_sm.
    match goal with H : write_registry _ _ _ _ _ = (Ok ?u, _) |- _ => destruct u;
      rename H into Hw end.
    match goal with H : grant_address _ _ _ = Ok _ |- _ => rename H into Hga end.
    match goal with H : load_permission_registry _ _ = (Ok ?reg, _) |- _ =>
      apply load_permission_registry_spec in H as [Hreg _]; rename reg into registry end.
    destruct (write_registry_removes _ _ _ _ _ _ _ _ _ Hw Hga) as [Hgone|?];
      [left|right; destruct Ht; by eexists t, _].
    eexists t, _. split_and!; [done|intros now' single e' [_ Ha']; by eapply Hgone| |].
    + eapply write_registry_at; [exact Hw|]. exact (registry_at_version _ _ _ Hreg).
    + cbn. intros stored Hin (Hc & Ht' & Hp). apply elem_of_retain in Hin as [Hk _].
      rewrite Hc, Ht', Hp, !bool_decide_eq_true_2 in Hk by done. done.
  - unfold lift in Hreq. by simplify_eq.
Qed.

(** Whatever it spends, a consuming check finds a grant. *)
Lemma require_grant_consuming_granted caller r now prov s e s' :
  require_grant_consuming caller r now prov s = (Ok e, s') →
  ∃ t single, granted (grants_of (view s)) caller r now single t e.
Proof.
  unfold require_grant_consuming. rewrite sm_bind_Ok. intros (found & s1 & Hf & Hreq).
  apply find_grant_granted in Hf as [_ Hres]. destruct found as [e'|dg e'|].
  - unfold mret, sm_ret in Hreq. simplify_eq. destruct Hres as [t Ht]. by exists t, false.
  - destruct Hres as [(t & -> & Ht) _]. inv_sm. by exists t, true.
  - unfold lift in Hreq. by simplify_eq.
Qed.

(** ** Revocation *)

(** C29: a revocation that succeeds removes the grant of the listed permission
    with that id: nothing in the store grants it to that caller any more, and
    the stored registry is the old one without the entry and without expired
    ones. *)
Theorem revoked_permission_grants_nothing id now prov s s' :
  revoke_permission id now prov s = (Ok tt, s') →
  ∃ reg i stored, registry_at (grants_of (view s)) now reg
     ∧ pr_permissions reg !! i = Some stored ∧ perm_id (sp_permission stored) = id
     ∧ ((∀ now' single e, ¬ authorizes (grants_of (view s')) (sp_caller_fingerprint stored)
           (sp_target_digest stored) (sp_grant_permission stored) now' single e)
        ∨ ∃ a, grant_address (sp_caller_fingerprint stored) (sp_target_digest stored)
                 (sp_grant_permission stored) = Ok a ∧ registry_clash a)
     ∧ registry_at (grants_of (view s')) now
         (with_permissions reg (retain (λ p, negb (is_expired (sp_permission p) now))
            (delete i (pr_permissions reg)))).
Proof.
  unfold revoke_permission. intros Hr. inv_sm.
  match goal with H : position _ _ = Some ?i |- _ =>
    apply position_Some in H as (stored & Hi & Hid); rename i into i' end.
  match goal with H : _ !! i' = Some ?x |- _ => tryif constr_eq x stored then fail else
    replace x with stored in * by congruence end.
  apply String.eqb_eq in Hid.
  match goal with H : grant_address _ _ _ = Ok _ |- _ => rename H into Hga end.
  match goal with H : load_permission_registry _ _ = (Ok ?reg, _) |- _ =>
    apply load_permission_registry_spec in H as [Hreg _]; rename reg into registry end.
  pose proof (write_registry_removes _ _ _ _ _ _ _ _ _ Hr Hga) as Hgone.
  exists registry, i', stored. split_and!; [done..|naive_solver|].
  rewrite delete_take_drop. eapply write_registry_at; [exact Hr|].
  exact (registry_at_version _ _ _ Hreg).
Qed.

(** ** Storing grants *)

Lemma elem_of_btree_set p ps : p ∈ btree_set ps ↔ p ∈ ps.
Proof.
  unfold btree_set. rewrite elem_of_retain, bool_decide_eq_true.
  split; [by intros [? _]|]. intros Hp. split; [done|].
  destruct p; unfold all_permissions; set_solver.
Qed.

Lemma NoDup_btree_set ps : NoDup (btree_set ps).
Proof.
  unfold btree_set. rewrite retain_filter. apply NoDup_filter.
  apply (bool_decide_unpack _). vm_compute. exact I.
Qed.

Lemma filter_seen_NoDup seen l :
  NoDup (map pg_address l) → (∀ g, g ∈ l → pg_address g ∉ seen) → filter_seen seen l = l.
Proof.
  revert seen; induction l as [|g l IH]; intros seen; cbn; [done|].
  rewrite NoDup_cons. intros [Hg Hl] Hseen. rewrite bool_decide_eq_false_2 by (apply Hseen; by left).
  f_equal. apply IH; [done|]. intros g' Hg'. rewrite not_elem_of_cons. split.
  - intros Heq. apply Hg. rewrite <- Heq. by apply (list_elem_of_fmap_2 pg_address).
  - apply Hseen. by right.
Qed.

Lemma last_per_address_NoDup l : NoDup (map pg_address l) → last_per_address l = l.
Proof.
  intros Hl. unfold last_per_address. rewrite filter_seen_NoDup.
  - apply reverse_involutive.
  - change (NoDup (pg_address <$> reverse l)). rewrite fmap_reverse. by rewrite reverse_Permutation.
  - intros g _. apply not_elem_of_nil.
Qed.

(** The records a batch of grants puts. *)
Definition grant_puts (d : DocumentView) (now : Z) (grants : list PreparedGrant)
    : list DocumentOperation.document_operation :=
  map (λ g, DocumentOperation.Put (pg_address g) (pg_value g) (pg_expires_at g))
    (retain (λ g, negb (bool_decide
       (cell_value <$> view_read d now (pg_address g) = Some (pg_value g)))) grants).

Lemma zip_grant_puts d now grants :
  map (λ '(grant, _),
         DocumentOperation.Put (pg_address grant) (pg_value grant) (pg_expires_at grant))
    (retain (λ '(grant, existing),
               match existing with
               | Some value => negb (bool_decide (value = pg_value grant))
               | None => true
               end)
       (zip grants (map (λ a, cell_value <$> view_read d now a) (map pg_address grants))))
  = grant_puts d now grants.
Proof.
  unfold grant_puts. induction grants as [|g grants IH]; cbn; [done|].
  destruct (cell_value <$> view_read d now (pg_address g)) as [v|]; cbn.
  - destruct (decide (v = pg_value g)) as [->|Hne].
    + rewrite !bool_decide_eq_true_2 by done. exact IH.
    + rewrite !bool_decide_eq_false_2 by congruence. cbn. by f_equal.
  - rewrite bool_decide_eq_false_2 by done. cbn. by f_equal.
Qed.

Lemma grant_puts_elem d now grants op :
  op ∈ grant_puts d now grants → ∃ g, g ∈ grants
    ∧ op = DocumentOperation.Put (pg_address g) (pg_value g) (pg_expires_at g).
Proof.
  intros Hop. apply list_elem_of_fmap_1 in Hop as (g & -> & Hg).
  apply elem_of_retain in Hg as [_ Hg]. by exists g.
Qed.

(** After the batch every grant of it can be read back. *)
Lemma grant_puts_read d now grants g :
  (∀ g g', g ∈ grants → g' ∈ grants →
     storage_key (pg_address g) = storage_key (pg_address g') → g = g') →
  g ∈ grants → past_deadline now (pg_expires_at g) = false →
  ∃ c, view_read (apply_operations d (grant_puts d now grants)) now (pg_address g) = Some c
    ∧ cell_value c = pg_value g.
Proof.
  intros Hdist Hg Hlive.
  set (op := DocumentOperation.Put (pg_address g) (pg_value g) (pg_expires_at g)).
  destruct (decide (cell_value <$> view_read d now (pg_address g) = Some (pg_value g))) as [Hold|Hold].
  - apply fmap_Some in Hold as (c & Hc & Hval). exists c. split; [|done].
    unfold view_read in *. rewrite apply_operations_untouched; [done|].
    intros op' Hop' Hk. apply list_elem_of_fmap_1 in Hop' as (g' & -> & Hg').
    apply elem_of_retain in Hg' as [Hput Hg']. cbn in Hk.
    apply Hdist in Hk; [subst g'|done..].
    rewrite bool_decide_eq_true_2 in Hput; [done|]. unfold view_read. rewrite Hc. cbn. by f_equal.
  - exists {| cell_address := pg_address g; cell_value := pg_value g;
              cell_evict_at := pg_expires_at g |}. split; [|done].
    unfold view_read. rewrite (apply_operations_unique _ _ op).
    + unfold evicted. cbn. unfold past_deadline in Hlive. by rewrite Hlive.
    + apply (list_elem_of_fmap_2 (λ g, DocumentOperation.Put (pg_address g) (pg_value g)
        (pg_expires_at g))). apply elem_of_retain. by rewrite bool_decide_eq_false_2.
    + intros op' Hop' Hk. apply grant_puts_elem in Hop' as (g' & Hg' & ->). cbn in Hk.
      apply Hdist in Hk; [by subst g'|done..].
Qed.

Lemma grant_addresses_NoDup fp digest ps grants :
  Forall2 (λ p g, grant_address fp digest p = Ok (pg_address g)) ps grants →
  NoDup ps → NoDup (map pg_address grants).
Proof.
  induction 1 as [|p g ps grants Hp Hrest IH]; cbn; [constructor|].
  rewrite !NoDup_cons. intros [Hnew Hnd]. split; [|by apply IH].
  intros Hin. apply list_elem_of_fmap_1 in Hin as (g' & Heq & Hg').
  apply list_elem_of_lookup in Hg' as [i Hi].
  destruct (Forall2_lookup_r _ _ _ _ _ Hrest Hi) as (p' & Hp' & Ha'). rewrite <- Heq in Ha'.
  destruct (grant_address_inj _ _ _ _ _ _ _ Hp Ha') as (_ & _ & ->).
  apply Hnew. by eapply list_elem_of_lookup_2.
Qed.

(** The prepared grants: one record per distinct permission. *)
Lemma prepare_grant_spec caller target ps e now grants :
  prepare_grant caller target ps e now = Ok grants →
  let fp := fingerprint caller in
  let digest := grant_target_digest target in
  past_deadline now e = false
  ∧ (∀ p, p ∈ ps → ∃ g, g ∈ grants ∧ grant_address fp digest p = Ok (pg_address g)
       ∧ serde_to_vec (new_grant fp digest p e false) = Ok (pg_value g))
  ∧ (∀ g, g ∈ grants → ∃ p, p ∈ ps ∧ pg_expires_at g = e
       ∧ grant_address fp digest p = Ok (pg_address g)
       ∧ serde_to_vec (new_grant fp digest p e false) = Ok (pg_value g))
  ∧ NoDup (map pg_address grants).
Proof.
  unfold prepare_grant. intros Hp. inv_ok. split_and!; [done| | |].
  - intros p Hin. apply elem_of_btree_set in Hin.
    destruct (try_collect_image _ _ _ _ Hp Hin) as (g & Hg & Hgp). inv_ok.
    eexists. split; [exact Hg|]. done.
  - intros g Hg. destruct (try_collect_elem _ _ _ _ Hp Hg) as (p & Hin & Hgp). inv_ok.
    exists p. rewrite <- elem_of_btree_set. done.
  - eapply grant_addresses_NoDup, NoDup_btree_set. apply try_collect_Ok in Hp.
    eapply Forall2_impl; [exact Hp|]. intros p g Hgp. cbv beta in Hgp |- *. inv_ok. eassumption.
Qed.

(** Storing prepared grants and then asking finds them: after
    [store_prepared_grants] succeeds, every requested permission is granted to
    the caller on the target, with the requested expiry, whether the record was
    written or an identical one was already there. *)
Theorem stored_grants_authorize caller target ps e now grants s s' :
  prepare_grant caller target ps e now = Ok grants →
  store_prepared_grants grants now s = (Ok tt, s') →
  (∀ p, p ∈ ps → authorizes (grants_of (view s')) (fingerprint caller)
                   (grant_target_digest target) p now false e)
  ∨ clash_among (map pg_address grants).
Proof.
  intros Hp. apply prepare_grant_spec in Hp as (Hlive & Hfind & Hback & Hnd).
  unfold store_prepared_grants. rewrite last_per_address_NoDup by done. intros Hs.
  destruct (distinct_keys (map pg_address grants)) as [Hdist|?]; [|by right].
  left. intros p Hin. destruct (Hfind p Hin) as (g & Hg & Hga & Hval).
  destruct (Hback g Hg) as (_ & _ & He & _).
  assert (∃ c, view_read (grants_of (view s')) now (pg_address g) = Some c
            ∧ cell_value c = pg_value g) as (c & Hc & Hcv).
  { rewrite bool_decide_eq_false_2 in Hs by (by destruct grants; [apply elem_of_nil in Hg|]).
    inv_sm. match goal with H : get_many _ _ _ _ _ = _ |- _ =>
      apply get_many_spec in H as [Hview Hget] end.
    destruct (Hget _ eq_refl) as [-> _]. rewrite zip_grant_puts in Hs.
    assert (view_read (apply_operations (grants_of (view s))
      (grant_puts (grants_of (view s)) now grants)) now (pg_address g)
      = view_read (grants_of (view s')) now (pg_address g)) as <-.
    { case_bool_decide as Hops.
      - apply nil_length_inv in Hops. unfold grants_of in *. rewrite Hops.
        inv_sm. by rewrite Hview.
      - apply mutate_spec in Hs as [_ Hv]. rewrite Hview in Hv. unfold grants_of at 3.
        by rewrite Hv. }
    apply grant_puts_read; [|done|by rewrite He].
    intros g1 g2 Hg1 Hg2 Hk. apply Hdist in Hk; [|by apply (list_elem_of_fmap_2 pg_address)..].
    apply list_elem_of_lookup in Hg1 as [i1 Hi1], Hg2 as [i2 Hi2].
    assert (i1 = i2) as -> by (eapply NoDup_lookup; [exact Hnd| |];
      rewrite list_lookup_fmap; [by rewrite Hi1|rewrite Hi2; cbn; by rewrite Hk]).
    congruence. }
  exists (pg_address g), c, (new_grant (fingerprint caller) (grant_target_digest target) p e false).
  rewrite Hcv. split_and!; [done..|by apply serde_roundtrip| |done|done].
  apply grant_satisfies_iff. split_and!; try done; [|by apply list_elem_of_singleton].
  intros deadline [= ->]. unfold past_deadline in Hlive. cbn in Hlive. bool_prop. lia.
Qed.

(** ** Promotion of an approved permission *)

(** Promotion writes the grant and its registry entry. *)
Lemma promote_permission_spec caller target p permission now prov s s' :
  promote_permission caller target p permission now prov s = (Ok tt, s') →
  (∃ created e single reg,
     perm_state permission = PermissionState.Granted created e single
     ∧ authorizes (grants_of (view s')) (fingerprint caller) (grant_target_digest target)
         p now single e
     ∧ registry_at (grants_of (view s')) now reg
     ∧ last (pr_permissions reg) = Some {|
         sp_permission := with_target permission (Some (target_scope target))
                            (Some (summary target));
         sp_caller_fingerprint := fingerprint caller;
         sp_target_digest := grant_target_digest target;
         sp_grant_permission := p |})
  ∨ (∃ a, grant_address (fingerprint caller) (grant_target_digest target) p = Ok a
     ∧ registry_clash a).
Proof.
  unfold promote_permission. intros Hp. inv_sm.
  destruct (perm_state permission) as [|created e single] eqn:Hstate; inv_sm.
  match goal with H : load_permission_registry _ _ = (Ok ?reg, _) |- _ =>
    apply load_permission_registry_spec in H as [Hreg _]; rename reg into registry end.
  match goal with H : grant_address _ _ _ = Ok ?a |- _ => rename H into Hga; rename a into ga end.
  match goal with H : serde_to_vec (new_grant _ _ _ _ _) = Ok ?b |- _ =>
    rename H into Hval; rename b into gb end.
  destruct (write_registry_changes _ _ _ _ _ _ _ _ _ Hp Hga) as [Hv|?]; [left|right; by exists ga].
  assert (past_deadline now e = false) as Hlive by assumption.
  eexists created, e, single, _. split_and!; [done| | |].
  - exists ga, {| cell_address := ga; cell_value := gb; cell_evict_at := e |}.
    eexists. split_and!; [done| |by apply serde_roundtrip| |done|done].
    + unfold view_read. cbn [operation_address operation_cell] in Hv. rewrite Hv.
      unfold evicted. cbn. unfold past_deadline in Hlive. by rewrite Hlive.
    + apply grant_satisfies_iff. split_and!; try done; [|by apply list_elem_of_singleton].
      intros deadline [= ->]. unfold past_deadline in Hlive. cbn in Hlive. bool_prop. lia.
  - eapply write_registry_at; [exact Hp|]. exact (registry_at_version _ _ _ Hreg).
  - cbn. by rewrite last_snoc.
Qed.

(** A change of the grants that adds one: of all the others, none is given, taken or changed,
    unless the storage keys of two records clash. *)
Definition only_grant_added (d d' : DocumentView) (fp digest : bytes) (p : GrantPermission.permission)
    (now : Z) : Prop :=
  ∀ fp' digest' p' now' single e, (fp', digest', p') ≠ (fp, digest, p) → now ≤ now' →
    (authorizes d' fp' digest' p' now' single e ↔ authorizes d fp' digest' p' now' single e)
    ∨ ∃ a a', grant_address fp digest p = Ok a ∧ grant_address fp' digest' p' = Ok a'
        ∧ (keys_clash a' a ∨ registry_clash a').
(** The registry with a permission added: without the expired ones and any other of its id. *)
Definition listed_in (before after : PermissionRegistry) (stored : StoredPermission) (now : Z) : Prop :=
  pr_permissions after = retain (λ other,
    negb (String.eqb (perm_id (sp_permission other)) (perm_id (sp_permission stored)))
      && negb (is_expired (sp_permission other) now)) (pr_permissions before) ++ [stored].

(** Promotion changes the one grant and the registry. *)
Lemma promote_permission_only caller target p permission now prov s s' :
  promote_permission caller target p permission now prov s = (Ok tt, s') →
  same_elsewhere (view s) (view s') Authorization GRANT_DOCUMENT_NAMESPACE
  ∧ only_grant_added (grants_of (view s)) (grants_of (view s')) (fingerprint caller)
      (grant_target_digest target) p now
  ∧ ∃ before after, registry_at (grants_of (view s)) now before
      ∧ registry_at (grants_of (view s')) now after
      ∧ listed_in before after {|
          sp_permission := with_target permission (Some (target_scope target)) (Some (summary target));
          sp_caller_fingerprint := fingerprint caller; sp_target_digest := grant_target_digest target;
          sp_grant_permission := p |} now.
Proof.
  unfold promote_permission. intros Hp. inv_sm.
  destruct (perm_state permission) as [|created e single] eqn:Hstate; inv_sm.
  match goal with H : load_permission_registry _ _ = (Ok ?reg, _) |- _ =>
    apply load_permission_registry_spec in H as (Hreg & Hread & Helse); rename reg into registry end.
  match goal with H : grant_address _ _ _ = Ok ?a |- _ => rename H into Hga; rename a into ga end.
  pose proof (write_registry_spec _ _ _ _ _ _ Hp) as (ra & value & Hra & _ & Helse' & Hv).
  split_and!.
  - intros k n Hne. by rewrite Helse', Helse.
  - intros fp' digest' p' now' sg e' Hne Hle.
    destruct (grant_address fp' digest' p') as [a'|err] eqn:Ha';
      [|left; unfold authorizes; split; intros (? & ? & ? & ? & _); congruence].
    destruct (decide (storage_key a' = storage_key ga)) as [Hk|Hk].
    { right. exists ga, a'. split_and!; [done..|left]. split; [|done]. intros ->. apply Hne.
      by destruct (grant_address_inj _ _ _ _ _ _ _ Ha' Hga) as (-> & -> & ->). }
    destruct (decide (storage_key a' = storage_key ra)) as [Hr|Hr].
    { right. exists ga, a'. split_and!; [done..|right]. exists ra. split; [done|]. split; [|done].
      by eapply grant_not_registry. }
    assert (view_read (grants_of (view s')) now' a' = view_read (grants_of (view s)) now' a') as Hsame.
    { rewrite <- Hread by done. unfold view_read. rewrite Hv, apply_operations_untouched; [done|].
      intros op [->| ->%list_elem_of_singleton]%elem_of_cons; cbn [operation_address]; congruence. }
    left. unfold authorizes. split; intros (a & c & g & Hx & Hc & Hg);
      (replace a with a' in * by congruence); exists a', c, g; rewrite ?Hsame in *; done.
  - exists registry. eexists. split_and!; [exact Hreg| |].
    + eapply write_registry_at; [exact Hp|]. exact (registry_at_version _ _ _ Hreg).
    + done.
Qed.

(** Promoting an approved permission writes the grant it describes and lists
    it in the registry: the caller is authorized on the target with the approved
    lifetime and use, and the registry ends with that permission. *)
Theorem promoted_permission_is_granted caller target p permission now prov s s' :
  promote_permission caller target p permission now prov s = (Ok tt, s') →
  (∃ created e single reg,
     perm_state permission = PermissionState.Granted created e single
     ∧ authorizes (grants_of (view s')) (fingerprint caller) (grant_target_digest target)
         p now single e
     ∧ registry_at (grants_of (view s')) now reg
     ∧ last (pr_permissions reg) = Some {|
         sp_permission := with_target permission (Some (target_scope target))
                            (Some (summary target));
         sp_caller_fingerprint := fingerprint caller;
         sp_target_digest := grant_target_digest target;
         sp_grant_permission := p |})
  ∨ (∃ a, grant_address (fingerprint caller) (grant_target_digest target) p = Ok a
     ∧ registry_clash a).
Proof. apply promote_permission_spec. Qed.

(** ** Exclusive grants *)

(** The recorded holder of a target. *)
Definition holder_at (d : DocumentView) (now : Z) (digest : bytes) (h : ExclusiveHolder) : Prop :=
  ∃ a c, exclusive_holder_address digest = Ok a ∧ view_read d now a = Some c
    ∧ serde_from_slice (cell_value c) = Ok h ∧ h_version h = EXCLUSIVE_HOLDER_VERSION.

(** In a group of changes that agree where they share an address, each takes
    effect. *)
Lemma consistent_operations ops d :
  (∀ op op', op ∈ ops → op' ∈ ops → operation_address op' = operation_address op →
     operation_cell op' = operation_cell op) →
  (∀ op, op ∈ ops →
     apply_operations d ops !! storage_key (operation_address op) = operation_cell op)
  ∨ clash_among (map operation_address ops).
Proof.
  intros Hu. destruct (distinct_keys (map operation_address ops)) as [Hdist|?]; [left|by right].
  intros op Hop. apply apply_operations_unique; [done|]. intros op' Hop' Hk.
  apply Hu; [done..|]. apply Hdist; [by apply (list_elem_of_fmap_2 operation_address)..|done].
Qed.

Lemma superseded_elem previous fp digest ps removed op :
  superseded previous fp digest ps = Ok removed →
  op ∈ removed ↔ ∃ h p a, previous = Some h ∧ p ∈ h_permissions h
    ∧ (h_caller_fingerprint h ≠ fp ∨ p ∉ ps)
    ∧ grant_address (h_caller_fingerprint h) digest p = Ok a
    ∧ op = DocumentOperation.Delete a.
Proof.
  destruct previous as [h|]; cbn [superseded]; [|intros [= <-]; split; [set_solver|naive_solver]].
  intros Hc. split.
  - intros Hop. destruct (try_collect_elem _ _ _ _ Hc Hop) as (p & Hp & Ha).
    apply bind_Ok in Ha as (a & Ha & [= <-]). apply elem_of_retain in Hp as [Hk Hp].
    rewrite orb_true_iff, !negb_true_iff, !bool_decide_eq_false in Hk. exists h, p, a. auto.
  - intros (h' & p & a & [= <-] & Hp & Hk & Ha & ->).
    assert (p ∈ retain (λ permission,
      negb (bool_decide (h_caller_fingerprint h = fp))
        || negb (bool_decide (permission ∈ ps))) (h_permissions h)) as Hin.
    { apply elem_of_retain. by rewrite orb_true_iff, !negb_true_iff, !bool_decide_eq_false. }
    destruct (try_collect_image _ _ _ _ Hc Hin) as (op & Hop & Hpa). rewrite Ha in Hpa.
    by injection Hpa as <-.
Qed.

(** What one change of [store_exclusive_grant] is. *)
Lemma exclusive_change previous fp digest ps removed added ha hv op :
  superseded previous fp digest ps = Ok removed →
  try_collect (put_grant fp digest) ps = Ok added →
  op ∈ removed ++ added ++ [DocumentOperation.Put ha hv None] →
  (∃ h p a, previous = Some h ∧ p ∈ h_permissions h
     ∧ (h_caller_fingerprint h ≠ fp ∨ p ∉ ps)
     ∧ grant_address (h_caller_fingerprint h) digest p = Ok a
     ∧ op = DocumentOperation.Delete a)
  ∨ (∃ p a v, p ∈ ps ∧ grant_address fp digest p = Ok a
     ∧ serde_to_vec (new_grant fp digest p None false) = Ok v
     ∧ op = DocumentOperation.Put a v None)
  ∨ op = DocumentOperation.Put ha hv None.
Proof.
  intros Hr Ha Hop. rewrite !elem_of_app, list_elem_of_singleton in Hop.
  destruct Hop as [Hop|[Hop| ->]]; [left; by eapply superseded_elem in Hop|right; left|by right; right].
  destruct (try_collect_elem _ _ _ _ Ha Hop) as (p & Hp & Hput). unfold put_grant in Hput.
  apply bind_Ok in Hput as (a & Hga & Hput). inv_ok. eauto 10.
Qed.

Lemma exclusive_changes previous fp digest ps removed added ha hv d :
  superseded previous fp digest ps = Ok removed →
  try_collect (put_grant fp digest) ps = Ok added →
  exclusive_holder_address digest = Ok ha →
  (∀ op, op ∈ removed ++ added ++ [DocumentOperation.Put ha hv None] →
     apply_operations d (removed ++ added ++ [DocumentOperation.Put ha hv None])
       !! storage_key (operation_address op) = operation_cell op)
  ∨ clash_among (map operation_address
      (removed ++ added ++ [DocumentOperation.Put ha hv None])).
Proof.
  intros Hr Ha Hha. pose proof (λ op, exclusive_change _ _ _ _ _ _ ha hv op Hr Ha) as Hops.
  apply consistent_operations. intros op op' Hop Hop' Heq. apply Hops in Hop, Hop'.
  destruct Hop as [(h&p&a&Hprev&_&Hnot&Hga&->)|[(p&a&v&Hp&Hga&Hv&->)| ->]],
      Hop' as [(h'&p'&a'&Hprev'&_&Hnot'&Hga'&->)|[(p'&a'&v'&Hp'&Hga'&Hv'&->)| ->]];
      cbn in Heq |- *; subst; try done;
      try (by exfalso; eapply grant_not_holder);
      destruct (grant_address_inj _ _ _ _ _ _ _ Hga Hga') as (Hfp & _ & Hpp);
      first [congruence|destruct Hnot; congruence|destruct Hnot'; congruence].
Qed.

Lemma decoded_holder d now digest ha rest decoded h :
  exclusive_holder_address digest = Ok ha →
  opt_try (λ b, map_err VaultError.Protocol (serde_from_slice b))
    (match (cell_value <$> view_read d now ha) :: rest with Some b :: _ => Some b | _ => None end)
    = Ok decoded →
  holder_at d now digest h ↔
    match decoded with
    | Some holder => if h_version holder =? EXCLUSIVE_HOLDER_VERSION then Some holder else None
    | None => None
    end = Some h.
Proof.
  intros Hha Hdec. unfold holder_at. split.
  - intros (a & c & Ha & Hc & Hh & Hver). replace a with ha in Hc by congruence.
    rewrite Hc in Hdec. cbn in Hdec. inv_ok. replace a0 with h by congruence.
    by rewrite Hver.
  - intros Hsome. destruct decoded as [h'|]; [|done].
    destruct (Z.eqb_spec (h_version h') EXCLUSIVE_HOLDER_VERSION); [|done].
    injection Hsome as ->. destruct (view_read d now ha) as [c|] eqn:Hc; cbn in Hdec; [|discriminate].
    inv_ok. exists ha, c. auto.
Qed.

Lemma already_holds_spec previous fp digest ps d now addrs :
  Forall2 (λ p a, grant_address fp digest p = Ok a) ps addrs →
  already_holds previous fp digest ps (map (λ a, cell_value <$> view_read d now a) addrs) now
    = true →
  (∃ h, previous = Some h ∧ h_caller_fingerprint h = fp ∧ h_permissions h = ps)
  ∧ ∀ p, p ∈ ps → ∃ single, authorizes d fp digest p now single None.
Proof.
  intros Haddrs. unfold already_holds. rewrite andb_true_iff. intros [Hprev Hall]. split.
  - destruct previous as [h|]; [|done]. cbn in Hprev. bool_prop. naive_solver.
  - clear Hprev. induction Haddrs as [|p a ps addrs Ha Haddrs IH]; [set_solver|].
    cbn [map zip zip_with forallb] in Hall. apply andb_true_iff in Hall as [Hp Hall].
    intros p'. rewrite elem_of_cons. intros [->|Hin]; [|by apply IH].
    destruct (view_read d now a) as [c|] eqn:Hc; cbn in Hp; [|done].
    destruct (serde_from_slice (cell_value c)) as [g|] eqn:Hg; [|done].
    apply andb_true_iff in Hp as [He Hsat]. apply bool_decide_eq_true in He.
    exists (g_single_use g), a, c, g. by split_and!.
Qed.

(** The records an exclusive grant can touch: the caller's grants, the previous
    holder's grants and the holder record of the target. *)
Definition exclusive_addresses (previous : option ExclusiveHolder) (fp digest : bytes)
    (ps : list GrantPermission.permission) : list SecretAddress :=
  omap (λ p, ok (grant_address fp digest p)) ps
  ++ match previous with
     | Some h => omap (λ p, ok (grant_address (h_caller_fingerprint h) digest p)) (h_permissions h)
     | None => []
     end
  ++ omap ok [exclusive_holder_address digest].

Lemma exclusive_change_address previous fp digest ps removed added ha hv op :
  superseded previous fp digest ps = Ok removed →
  try_collect (put_grant fp digest) ps = Ok added →
  exclusive_holder_address digest = Ok ha →
  op ∈ removed ++ added ++ [DocumentOperation.Put ha hv None] →
  operation_address op ∈ exclusive_addresses previous fp digest ps.
Proof.
  intros Hr Ha Hha Hop. unfold exclusive_addresses. rewrite !elem_of_app, !list_elem_of_omap.
  destruct (exclusive_change _ _ _ _ _ _ _ _ _ Hr Ha Hop)
    as [(h&p&a&->&Hp&_&Hga&->)|[(p&a&v&Hp&Hga&_&->)| ->]]; cbn [operation_address].
  - right; left. apply list_elem_of_omap. exists p. by rewrite Hga.
  - left. exists p. by rewrite Hga.
  - right; right. rewrite Hha. exists (Ok ha). by rewrite list_elem_of_singleton.
Qed.

(** What an exclusive grant leaves behind, in terms of the previous holder. *)
Definition exclusive_outcome (d' : DocumentView) (previous : option ExclusiveHolder)
    (fp digest : bytes) (ps : list GrantPermission.permission) (now : Z) : Prop :=
  (∀ p, p ∈ ps → ∃ single, authorizes d' fp digest p now single None)
  ∧ holder_at d' now digest {| h_version := EXCLUSIVE_HOLDER_VERSION;
      h_caller_fingerprint := fp; h_permissions := ps |}
  ∧ ∀ h p, previous = Some h → p ∈ h_permissions h →
      h_caller_fingerprint h ≠ fp ∨ p ∉ ps →
      ∀ now' single e, ¬ authorizes d' (h_caller_fingerprint h) digest p now' single e.

Lemma exclusive_written d previous fp digest ps removed added ha hv now :
  superseded previous fp digest ps = Ok removed →
  try_collect (put_grant fp digest) ps = Ok added →
  exclusive_holder_address digest = Ok ha →
  serde_to_vec {| h_version := EXCLUSIVE_HOLDER_VERSION;
    h_caller_fingerprint := fp; h_permissions := ps |} = Ok hv →
  exclusive_outcome
    (apply_operations d (removed ++ added ++ [DocumentOperation.Put ha hv None]))
    previous fp digest ps now
  ∨ clash_among (exclusive_addresses previous fp digest ps).
Proof.
  intros Hr Ha Hha Hhv.
  destruct (exclusive_changes _ _ _ _ _ _ _ hv d Hr Ha Hha) as [Hops|Hclash].
  2: { right. destruct Hclash as (a & b & Hin & Hin' & ?).
       apply list_elem_of_fmap_1 in Hin as (op & -> & ?), Hin' as (op' & -> & ?).
       exists (operation_address op), (operation_address op').
       split_and!; [eapply exclusive_change_address; eassumption..|done]. }
  left.
  set (d' := apply_operations d _) in *. split_and!.
  - intros p Hp. exists false. destruct (try_collect_image _ _ _ _ Ha Hp) as (op & Hop & Hput).
    unfold put_grant in Hput. apply bind_Ok in Hput as (a & Hga & Hput). inv_ok.
    match goal with H : serde_to_vec _ = Ok ?v |- _ => rename H into Hv; rename v into value end.
    specialize (Hops _ ltac:(apply elem_of_app; right; apply elem_of_app; left; exact Hop)).
    cbn in Hops. exists a. eexists _, _. unfold view_read. rewrite Hops.
    split_and!; [done|done|by apply serde_roundtrip| |done|done].
    apply grant_satisfies_iff. split_and!; try done. by apply list_elem_of_singleton.
  - specialize (Hops (DocumentOperation.Put ha hv None)
      ltac:(rewrite !elem_of_app, list_elem_of_singleton; auto)). cbn in Hops.
    exists ha. eexists. unfold view_read. rewrite Hops.
    split_and!; [done|done|by apply serde_roundtrip|done].
  - intros h p Hprev Hp Hnot now' single e (a & c & g & Hga & Hc & _).
    assert (DocumentOperation.Delete a ∈ removed) as Hin
      by (eapply superseded_elem; [exact Hr|by exists h, p, a]).
    specialize (Hops _ ltac:(apply elem_of_app; left; exact Hin)). cbn in Hops.
    unfold view_read in Hc. by rewrite Hops in Hc.
Qed.

(** After [store_exclusive_grant] succeeds, the caller holds every requested
    permission on the target without expiry and is its recorded holder, and the
    previous holder keeps nothing it was not granted again: a superseded caller
    loses all its permissions on the target, the same caller those not asked
    for. *)
Theorem exclusive_grant_supersedes_holder caller target ps now s s' :
  store_exclusive_grant caller target ps now s = (Ok tt, s') →
  let fp := fingerprint caller in
  let digest := grant_target_digest target in
  let d := grants_of (view s) in
  let d' := grants_of (view s') in
  ((∀ p, p ∈ btree_set ps → ∃ single, authorizes d' fp digest p now single None)
   ∧ holder_at d' now digest {| h_version := EXCLUSIVE_HOLDER_VERSION;
       h_caller_fingerprint := fp; h_permissions := btree_set ps |}
   ∧ ∀ h p, holder_at d now digest h → p ∈ h_permissions h →
       h_caller_fingerprint h ≠ fp ∨ p ∉ btree_set ps →
       ∀ now' single e, ¬ authorizes d' (h_caller_fingerprint h) digest p now' single e)
  ∨ ∃ previous, (∀ h, previous = Some h → holder_at d now digest h)
      ∧ clash_among (exclusive_addresses previous fp digest (btree_set ps)).
Proof.
  unfold store_exclusive_grant. intros Hs. inv_sm.
  match goal with H : get_many _ _ _ _ _ = (_, ?s1) |- _ =>
    rename s1 into s_read; apply get_many_spec in H as [Hview Hget] end.
  destruct (Hget _ eq_refl) as [-> _]. clear Hget. cbn [map tail] in Hs.
  match goal with H : exclusive_holder_address _ = Ok _ |- _ => rename H into Hha end.
  match goal with H : opt_try _ _ = Ok _ |- _ => rename H into Hdec end.
  match goal with H : try_collect (grant_address _ _) _ = Ok _ |- _ => rename H into Haddrs end.
  apply try_collect_Ok in Haddrs. cbn zeta.
  pose proof (λ h, decoded_holder _ _ _ _ [] _ h Hha Hdec) as Hholder.
  fold (grants_of (view s)) in Hholder, Hs |- *.
  match type of Hs with (if already_holds ?p _ _ _ _ _ then _ else _) _ = _ =>
    set (previous := p) in * end.
  enough (exclusive_outcome (grants_of (view s')) previous (fingerprint caller)
      (grant_target_digest target) (btree_set ps) now
    ∨ clash_among (exclusive_addresses previous (fingerprint caller)
        (grant_target_digest target) (btree_set ps))) as [(Hall & Hnew & Hold)|Hclash].
  { left. split_and!; [done..|]. intros h p Hh. apply Hold. by apply Hholder. }
  { right. exists previous. split; [intros h; apply Hholder|done]. }
  destruct (already_holds _ _ _ _ _ _) eqn:Hheld.
  - left. apply already_holds_spec in Hheld as [(h & Hprev & Hfp & Hps) Hauth]; [|done].
    assert (s' = s_read) as -> by (by inv_sm). unfold grants_of. rewrite Hview.
    split_and!; [done| |].
    + apply Hholder in Hprev as (a' & c & Ha' & Hc & Hh & Hver).
      replace {| h_version := _ |} with h by (destruct h; cbn in *; by subst).
      by exists a', c.
    + intros h' p Hh'. rewrite Hprev in Hh'. injection Hh' as <-.
      intros Hp [Hne|Hne]; [congruence|]. by rewrite Hps in Hp.
  - inv_sm. apply mutate_spec in Hs as [_ Hv]. rewrite Hview in Hv.
    unfold grants_of at 1. rewrite Hv.
    by eapply exclusive_written.
Qed.
End GrantProofs.
