(* ===== verification/GrantWitness.v ===== *)
(** Runs of the grant component on the in-memory store: each theorem of
    [GrantProofs] applied where its hypotheses hold. *)
From Stdlib Require Import ZArith Lia Bool.
From stdpp Require Import base gmap strings list.
From S2P Require Import Prelude Core Instances Address Text Wire History StoreSpec DemoStore.
From S2P Require Import Grant GrantProofs.

Module GrantDemo.
#[export] Existing Instances demo_sha256 demo_sha256_ok demo_base64 demo_base64_ok.

Definition caller : CallerIdentity := {|
  ci_platform := CallerPlatform.Linux; ci_user_id := "1000"; ci_application_id := "app";
  ci_executable_digest := replicate 32 Byte.x01; ci_signer_id := None |}.
Definition old_caller : CallerIdentity := {|
  ci_platform := CallerPlatform.Linux; ci_user_id := "1000"; ci_application_id := "app";
  ci_executable_digest := replicate 32 Byte.x02; ci_signer_id := None |}.
Definition target : GrantTarget.grant_target :=
  GrantTarget.Project SecretSpecProviderCache (as_bytes "p") "p" None.
Definition requirement : GrantRequirement := {|
  gr_scope := SecretSpecProviderCache; gr_namespace := Some (as_bytes "p");
  gr_address := None; gr_project := Some "p"; gr_base_dir := None;
  gr_permission := GrantPermission.Put |}.
Definition fp : bytes := fingerprint caller.
Definition old_fp : bytes := fingerprint old_caller.
Definition digest : bytes := grant_target_digest target.
Definition prov : Provenance.provenance := provenance_service ServiceReason.GrantStorage.

Definition permission : Permission := {|
  perm_target := None; perm_id := "prm_1"; perm_scope := None;
  perm_operation := PermissionOperation.Put; perm_principal := principal_from caller;
  perm_application := {| app_project := Some "p"; app_profile := None; app_base_dir := None;
    app_reason := None; app_requested_permission_duration_seconds := None;
    app_declared_launch_chain := [] |};
  perm_state := PermissionState.Granted 10 (Some 50) true |}.
Definition stored_permission : StoredPermission := {|
  sp_permission := with_target permission (Some SecretSpecProviderCache) (Some (summary target));
  sp_caller_fingerprint := fp; sp_target_digest := digest;
  sp_grant_permission := GrantPermission.Put |}.

#[export] Instance grant_serde : Serde AccessGrant := table_serde
  [new_grant fp digest GrantPermission.Put (Some 50) false;
   new_grant fp digest GrantPermission.Put (Some 50) true;
   new_grant fp digest GrantPermission.Put None false;
   new_grant old_fp digest GrantPermission.Put None false].
#[export] Instance registry_serde : Serde PermissionRegistry := table_serde
  [{| pr_version := 1; pr_permissions := [] |};
   {| pr_version := 1; pr_permissions := [stored_permission] |}].
#[export] Instance holder_serde : Serde ExclusiveHolder := table_serde
  [{| h_version := 1; h_caller_fingerprint := fp; h_permissions := [GrantPermission.Put] |};
   {| h_version := 1; h_caller_fingerprint := old_fp; h_permissions := [GrantPermission.Put] |}].
#[export] Instance grant_serde_ok : SerdeOk AccessGrant := table_serde_ok _.
#[export] Instance registry_serde_ok : SerdeOk PermissionRegistry := table_serde_ok _.
#[export] Instance holder_serde_ok : SerdeOk ExclusiveHolder := table_serde_ok _.

Definition prepared : list PreparedGrant :=
  match prepare_grant caller target [GrantPermission.Put] (Some 50) 10 with
  | Ok l => l | Err _ => [] end.
(** Stores after a reusable grant, after a promoted single-use one, after it was
    used, and after it was revoked. *)
Definition stored : DemoState := (store_prepared_grants prepared 10 (∅ : DemoState)).2.
Definition promoted : DemoState :=
  (promote_permission caller target GrantPermission.Put permission 10 prov (∅ : DemoState)).2.
Definition spent : DemoState := (require_grant_consuming caller requirement 20 prov promoted).2.
Definition revoked : DemoState := (revoke_permission "prm_1" 20 prov promoted).2.
(** Stores after one build held the target and after the next took it over. *)
Definition held : DemoState :=
  (store_exclusive_grant old_caller target [GrantPermission.Put] 10 (∅ : DemoState)).2.
Definition taken_over : DemoState :=
  (store_exclusive_grant caller target [GrantPermission.Put] 20 held).2.

Lemma run_require : (require_grant_until caller requirement 20 stored).1 = Ok (Some 50).
Proof. vm_compute. reflexivity. Qed.
Lemma run_find : (find_grant caller requirement 20 promoted).1
  = Ok (FoundGrant.SingleUse digest (Some 50)).
Proof. vm_compute. reflexivity. Qed.
Lemma run_consume :
  (require_grant_consuming caller requirement 20 prov promoted).1 = Ok (Some 50).
Proof. vm_compute. reflexivity. Qed.
Lemma run_revoke : (revoke_permission "prm_1" 20 prov promoted).1 = Ok tt.
Proof. vm_compute. reflexivity. Qed.
Lemma run_prepare :
  prepare_grant caller target [GrantPermission.Put] (Some 50) 10 = Ok prepared.
Proof. vm_compute. reflexivity. Qed.
Lemma run_store : (store_prepared_grants prepared 10 (∅ : DemoState)).1 = Ok tt.
Proof. vm_compute. reflexivity. Qed.
Lemma run_promote :
  (promote_permission caller target GrantPermission.Put permission 10 prov (∅ : DemoState)).1
  = Ok tt.
Proof. vm_compute. reflexivity. Qed.
Lemma run_take_over :
  (store_exclusive_grant caller target [GrantPermission.Put] 20 held).1 = Ok tt.
Proof. vm_compute. reflexivity. Qed.
End GrantDemo.
Import GrantDemo.


Example authorization_needs_live_grant_witness :
  ∃ t a c, t ∈ candidate_targets requirement
    ∧ grant_address fp (grant_target_digest t) GrantPermission.Put = Ok a
    ∧ view_read (grants_of (view stored)) 20 a = Some c.
Proof.
  destruct (authorization_needs_live_grant caller requirement 20 stored (Some 50) _
    (sm_run _ _ _ run_require))
    as (_ & t & a & c & g & Ht & Ha & Hc & _).
  exists t, a, c. exact (conj Ht (conj Ha Hc)).
Defined.

(** Every record a grant of the requirement would be in can be read. *)
Lemma readable_check (s : DemoState) :
  forallb (λ t, match grant_address fp (grant_target_digest t) (gr_permission requirement) with
                | Ok a => match view_read (grants_of (view s)) 20 a with
                          | Some c => is_ok (serde_from_slice (A := AccessGrant) (cell_value c))
                          | None => true
                          end
                | Err _ => true
                end) (candidate_targets requirement) = true →
  Forall (readable (grants_of (view s)) caller requirement 20) (candidate_targets requirement).
Proof.
  rewrite forallb_forall. intros H. apply Forall_forall. intros t Ht%list_elem_of_In a c Ha Hc.
  specialize (H t Ht).
  change (fingerprint caller) with fp in Ha. rewrite Ha, Hc in H. by apply is_ok_Ok in H.
Qed.

Definition asked : VaultResult (list SecretAddress) :=
  try_collect (λ digest, grant_address fp digest (gr_permission requirement))
    (map grant_target_digest (candidate_targets requirement)).
Definition asked_of (s : DemoState) : VaultResult (list (option bytes)) :=
  a ← asked; (get_many Authorization GRANT_DOCUMENT_NAMESPACE a 20 s).1.
Lemma run_asked : is_ok (asked_of promoted) && is_ok (asked_of stored) = true.
Proof. vm_compute. reflexivity. Qed.

(** A reusable grant authorizes a read; a single-use grant does not authorize one that would not
    spend it. *)
Example authorization_iff_reusable_grant_witness :
  (require_grant_until caller requirement 20 promoted).1 = Err VaultError.AuthorizationRequired
  ∧ ∃ e s', require_grant_until caller requirement 20 stored = (Ok e, s').
Proof.
  pose proof run_asked as [Hp Hs]%andb_true_iff. split.
  - apply is_ok_Ok in Hp as (v & (a & Ha & Hv)%bind_Ok).
    apply sm_run in Hv.
    destruct (authorization_iff_reusable_grant (H := demo_sha256) (H1 := demo_base64)
      caller requirement 20 promoted a v _ Ha Hv) as [_ Hno].
    rewrite Hno; [reflexivity|apply readable_check; vm_compute; reflexivity|].
    exact (proj2 (proj2 (find_grant_granted _ _ _ _ _ _ (sm_run _ _ _ run_find)))).
  - apply is_ok_Ok in Hs as (v & (a & Ha & Hv)%bind_Ok).
    apply sm_run in Hv.
    destruct (authorization_iff_reusable_grant (H := demo_sha256) (H1 := demo_base64)
      caller requirement 20 stored a v _ Ha Hv) as [Hiff _].
    destruct (proj2 Hiff) as [e He]; [|exists e; eexists; exact He].
    destruct (find_grant_granted _ _ _ _ _ _ (proj1 (require_grant_until_found _ _ _ _ _ _)
      (sm_run _ _ _ run_require))) as [_ (t & Ht & Hau)].
    apply list_elem_of_split in Ht as (before & after & Hl). exists before, t, after, (Some 50).
    split; [exact Hl|]. split; [exact Hau|].
    assert (Forall (readable (grants_of (view stored)) caller requirement 20)
      (candidate_targets requirement)) as Hall by (apply readable_check; vm_compute; reflexivity).
    rewrite Hl in Hall. by apply Forall_app in Hall as [? _].
Defined.

Example single_use_grant_is_spent_witness :
  (require_grant_consuming caller requirement 20 prov promoted).1 = Ok (Some 50)
  ∧ (require_grant_consuming caller requirement 20 prov spent).1
    = Err VaultError.AuthorizationRequired
  ∧ ((∃ t, granted (grants_of (view promoted)) caller requirement 20 false t (Some 50))
     ∨ (∃ t, granted (grants_of (view promoted)) caller requirement 20 true t (Some 50))
     ∨ ∃ t a, t ∈ candidate_targets requirement ∧ registry_clash a
         ∧ grant_address fp (grant_target_digest t) GrantPermission.Put = Ok a).
Proof.
  split; [vm_compute; reflexivity|]. split; [vm_compute; reflexivity|].
  destruct (single_use_grant_is_spent caller requirement 20 prov promoted (Some 50) _
    (sm_run _ _ _ run_consume)) as [(t & Ht & _)|[(t & reg & Ht & _)|Hc]].
  - left. exact (ex_intro _ t Ht).
  - right. left. exact (ex_intro _ t Ht).
  - right. right. exact Hc.
Defined.

Example revoked_permission_grants_nothing_witness :
  (revoke_permission "prm_1" 20 prov promoted).1 = Ok tt
  ∧ (require_grant_consuming caller requirement 20 prov revoked).1
    = Err VaultError.AuthorizationRequired
  ∧ ∃ reg, registry_at (grants_of (view revoked)) 20 reg.
Proof.
  split; [vm_compute; reflexivity|]. split; [vm_compute; reflexivity|].
  destruct (revoked_permission_grants_nothing "prm_1" 20 prov promoted revoked
    (sm_run _ _ _ run_revoke)) as (reg & i & sp & _ & _ & _ & _ & Hreg).
  exact (ex_intro _ _ Hreg).
Defined.

Example stored_grants_authorize_witness :
  (∀ p, p ∈ [GrantPermission.Put] → authorizes (grants_of (view stored)) fp digest p 10 false (Some 50))
  ∨ clash_among (map pg_address prepared).
Proof.
  exact (stored_grants_authorize caller target [GrantPermission.Put] (Some 50) 10 prepared
    (∅ : DemoState) stored run_prepare (sm_run _ _ _ run_store)).
Defined.

Example promoted_permission_is_granted_witness :
  (∃ single e, authorizes (grants_of (view promoted)) fp digest GrantPermission.Put 10 single e)
  ∨ ∃ a, grant_address fp digest GrantPermission.Put = Ok a ∧ registry_clash a.
Proof.
  destruct (promoted_permission_is_granted caller target GrantPermission.Put permission 10 prov
    (∅ : DemoState) promoted (sm_run _ _ _ run_promote))
    as [(created & e & single & reg & _ & Ha & _)|Hc].
  - left. exact (ex_intro _ single (ex_intro _ e Ha)).
  - right. exact Hc.
Defined.

Example exclusive_grant_supersedes_holder_witness :
  (require_grant_until old_caller requirement 10 held).1 = Ok None
  ∧ (require_grant_until old_caller requirement 20 taken_over).1
    = Err VaultError.AuthorizationRequired
  ∧ (require_grant_until caller requirement 20 taken_over).1 = Ok None
  ∧ (holder_at (grants_of (view taken_over)) 20 digest
       {| h_version := 1; h_caller_fingerprint := fp; h_permissions := [GrantPermission.Put] |}
     ∨ ∃ previous, clash_among (exclusive_addresses previous fp digest [GrantPermission.Put])).
Proof.
  split; [vm_compute; reflexivity|]. split; [vm_compute; reflexivity|].
  split; [vm_compute; reflexivity|].
  destruct (exclusive_grant_supersedes_holder caller target [GrantPermission.Put] 20 held
    taken_over (sm_run _ _ _ run_take_over)) as [(_ & Hh & _)|(prev & _ & Hc)].
  - left. exact Hh.
  - right. exact (ex_intro _ prev Hc).
Defined.

Example grant_key_binds_caller_target_permission_witness :
  caller_wf caller ∧ target_fits target.
Proof.
  assert (caller_wf caller) as Hc by (split; vm_compute; reflexivity).
  assert (target_fits target) as Ht
    by (split; [|split; [|exact I]]; apply fits64_lt; vm_compute; reflexivity).
  destruct (grant_address fp digest GrantPermission.Put) as [a|] eqn:Ha; [|discriminate Ha].
  destruct (grant_key_binds_caller_target_permission caller caller target target
    GrantPermission.Put GrantPermission.Put a a Hc Hc Ht Ht Ha Ha eq_refl); split; assumption.
Defined.
