(* ===== verification/Approvals.v ===== *)
(** Pending approvals (src/src/vault/protocol/service/approvals.rs): a bounded,
    rate-limited queue of requests waiting for a person, held in memory and
    written through to the store; an approval needs a device signature over the
    request's challenge and becomes a grant. *)
From Stdlib Require Import ZArith Lia Bool.
From stdpp Require Import base gmap strings list.
From S2P Require Import Prelude Core Address Clock Text Wire History StoreSpec Signature Grant KeyringIndex.

Definition APPROVAL_TTL_SECONDS : Z := 7 * 24 * 60 * 60.
Definition MAX_PENDING_APPROVALS : nat := 128.
Definition MAX_PENDING_PER_CALLER : nat := 16.
Definition APPROVAL_RATE_WINDOW : Z := from_secs 60.
Definition MAX_NEW_APPROVALS_PER_CALLER : nat := 8.
Definition MAX_NEW_APPROVALS : nat := 128.
Definition REQUESTER_GRACE : Z := from_secs 2.
Definition PERMISSION_CONTROL_NAMESPACE : bytes := as_bytes "factorseal/permissions/v1".
Definition PENDING_DOCUMENT_NAMESPACE : bytes := as_bytes "factorseal/pending-approvals/v1".
Definition PENDING_VERSION : Z := 1.

(** ** Data *)

(** The lifetime a person signed: a duration ([None] until revoked), or one use. *)
Record ApprovedLifetime : Set := { al_duration_seconds : option Z; al_single_use : bool }.

Record ApprovalCandidate : Set := {
  ac_caller : CallerIdentity;
  ac_application : VaultApplicationContext;
  ac_scope : DocumentKind;
  ac_namespace : bytes;
  ac_address : option SecretAddress;
  ac_permission : GrantPermission.permission;
  ac_operation : PermissionOperation.operation;
  ac_expiring_write : bool
}.

Record ApprovalRecord : Set := {
  ar_summary : Permission;
  ar_caller : CallerIdentity;
  ar_scope : DocumentKind;
  ar_namespace : bytes;
  ar_address : option SecretAddress;
  ar_permission : GrantPermission.permission;
  (** Not serialized. *)
  ar_awaited_until : option Z
}.

Record StoredApprovals : Set := { sa_version : Z; sa_records : list ApprovalRecord }.

Record ResolvedRecord : Set := {
  rr_id : string;
  rr_caller_fingerprint : bytes;
  rr_status : PermissionWaitStatus.status;
  rr_retain_until : Z
}.

Record PendingApprovals : Set := {
  pa_records : list ApprovalRecord;
  pa_resolved : list ResolvedRecord;
  pa_revision : Z;
  pa_recent_creations : list (Z * bytes);
  pa_unsaved : bool
}.

#[export] Instance approval_record_eq_dec : EqDecision ApprovalRecord.
Proof. solve_decision. Defined.
#[export] Instance stored_approvals_eq_dec : EqDecision StoredApprovals.
Proof. solve_decision. Defined.

Definition approvals_default : PendingApprovals := {|
  pa_records := []; pa_resolved := []; pa_revision := 0; pa_recent_creations := [];
  pa_unsaved := false |}.

Definition set_records (p : PendingApprovals) (rs : list ApprovalRecord) : PendingApprovals := {|
  pa_records := rs; pa_resolved := pa_resolved p; pa_revision := pa_revision p;
  pa_recent_creations := pa_recent_creations p; pa_unsaved := pa_unsaved p |}.
Definition set_resolved (p : PendingApprovals) (rs : list ResolvedRecord) : PendingApprovals := {|
  pa_records := pa_records p; pa_resolved := rs; pa_revision := pa_revision p;
  pa_recent_creations := pa_recent_creations p; pa_unsaved := pa_unsaved p |}.
Definition set_recent (p : PendingApprovals) (rs : list (Z * bytes)) : PendingApprovals := {|
  pa_records := pa_records p; pa_resolved := pa_resolved p; pa_revision := pa_revision p;
  pa_recent_creations := rs; pa_unsaved := pa_unsaved p |}.
Definition set_unsaved (p : PendingApprovals) (u : bool) : PendingApprovals := {|
  pa_records := pa_records p; pa_resolved := pa_resolved p; pa_revision := pa_revision p;
  pa_recent_creations := pa_recent_creations p; pa_unsaved := u |}.
(** [self.revision = self.revision.wrapping_add(1)]. *)
Definition changed (p : PendingApprovals) : PendingApprovals := {|
  pa_records := pa_records p; pa_resolved := pa_resolved p;
  pa_revision := u64_wrapping_add (pa_revision p) 1;
  pa_recent_creations := pa_recent_creations p; pa_unsaved := pa_unsaved p |}.

Definition set_awaited (r : ApprovalRecord) (until : option Z) : ApprovalRecord := {|
  ar_summary := ar_summary r; ar_caller := ar_caller r; ar_scope := ar_scope r;
  ar_namespace := ar_namespace r; ar_address := ar_address r;
  ar_permission := ar_permission r; ar_awaited_until := until |}.

Definition set_state (p : Permission) (s : PermissionState.state) : Permission := {|
  perm_target := perm_target p; perm_id := perm_id p; perm_scope := perm_scope p;
  perm_operation := perm_operation p; perm_principal := perm_principal p;
  perm_application := perm_application p; perm_state := s |}.

(** [Option::max], with [None] least. *)
Definition opt_max (a b : option Z) : option Z :=
  match a, b with
  | Some x, Some y => Some (Z.max x y)
  | Some x, None => Some x
  | None, b => b
  end.

(** Change the first element that satisfies a test ([iter_mut().find]). *)
Fixpoint update_first {A} (p : A → bool) (f : A → A) (l : list A) : list A :=
  match l with
  | [] => []
  | x :: l => if p x then f x :: l else x :: update_first p f l
  end.

(** ** Candidates *)

(** [ApprovalCandidate::for_keyring]. *)
Definition for_keyring (caller : CallerIdentity) (service : string)
    (address : option SecretAddress) (base_dir : string)
    (operation : PermissionOperation.operation) : ApprovalCandidate :=
  let '(project, profile) := access_project service in
  let permission :=
    match operation with
    | PermissionOperation.Get => GrantPermission.Get
    | PermissionOperation.Put => GrantPermission.Put
    | PermissionOperation.Delete => GrantPermission.Delete
    | PermissionOperation.Clear => GrantPermission.Clear
    end in
  {| ac_caller := caller;
     ac_application := {|
       app_project := Some project; app_profile := profile; app_base_dir := Some base_dir;
       app_reason := Some ("System keyring: " +:+ service);
       app_requested_permission_duration_seconds := None;
       app_declared_launch_chain := [] |};
     ac_scope := LinuxSecretService; ac_namespace := as_bytes project;
     ac_address := address; ac_permission := permission; ac_operation := operation;
     ac_expiring_write := false |}.

(** The project, address and operation of an action eligible for approval. *)
Definition approvable (action : VaultAction.action)
    : option (string * SecretSpecAddress * GrantPermission.permission
              * PermissionOperation.operation * bool) :=
  match action with
  | VaultAction.GetCache project address =>
      Some (project, address, GrantPermission.Get, PermissionOperation.Get, false)
  | VaultAction.PutCache project address _ evict_at =>
      Some (project, address, GrantPermission.Put, PermissionOperation.Put,
            match evict_at with Some _ => true | None => false end)
  | VaultAction.DeleteCache project address =>
      Some (project, address, GrantPermission.Delete, PermissionOperation.Delete, false)
  | _ => None
  end.

(** [ApprovalCandidate::for_request]. *)
Definition for_request (caller : CallerIdentity) (application : option VaultApplicationContext)
    (action : VaultAction.action) : option ApprovalCandidate :=
  application ← application;
  project ← app_project application;
  '(requested, address, permission, operation, expiring_write) ← approvable action;
  if String.eqb requested project
     && match secret_spec_project address with
        | Some address_project => String.eqb address_project project
        | None => true
        end
  then
    stored_address ← ok (address_secret_spec address);
    Some {| ac_caller := caller; ac_application := application;
            ac_scope := SecretSpecProviderCache; ac_namespace := as_bytes requested;
            ac_address := Some stored_address; ac_permission := permission;
            ac_operation := operation; ac_expiring_write := expiring_write |}
  else None.

Definition pending_address : VaultResult SecretAddress := address_new "pending" None.

Section Approvals.
Context `{Sha256, Base64}.
Context `{Serde AccessGrant, Serde PermissionRegistry, Serde StoredApprovals}.
Context `{MlDsa65}.
Context `{VaultStore St}.

(** [ApprovalCandidate::require_keyring]. *)
Definition require_keyring (c : ApprovalCandidate) (now : Z) : SM St (option Z) :=
  require_grant_until (ac_caller c) {|
    gr_scope := ac_scope c; gr_namespace := Some (ac_namespace c);
    gr_address := ac_address c; gr_project := app_project (ac_application c);
    gr_base_dir := app_base_dir (ac_application c); gr_permission := ac_permission c |} now.

(** ** Bookkeeping *)

Definition is_pending (p : Permission) : bool :=
  match perm_state p with PermissionState.Pending _ _ _ _ _ => true | _ => false end.

Definition pending_expiry (p : Permission) : option Z :=
  match perm_state p with
  | PermissionState.Pending _ expires_at _ _ _ => Some expires_at
  | PermissionState.Granted _ _ _ => None
  end.

Definition push_resolved (p : PendingApprovals) (id : string) (caller_fingerprint : bytes)
    (status : PermissionWaitStatus.status) (retain_until : Z) : PendingApprovals :=
  let resolved :=
    if bool_decide (length (pa_resolved p) = MAX_PENDING_APPROVALS)
    then tail (pa_resolved p) else pa_resolved p in
  set_resolved p (resolved ++ [{| rr_id := id; rr_caller_fingerprint := caller_fingerprint;
                                  rr_status := status; rr_retain_until := retain_until |}]).

(** The records that expire at [now], with the deadlines they had. *)
Definition expired_records (records : list ApprovalRecord) (now : Z)
    : list (string * bytes * Z) :=
  omap (λ r, match pending_expiry (ar_summary r) with
             | Some expires_at =>
                 if expires_at <=? now
                 then Some (perm_id (ar_summary r), fingerprint (ar_caller r), expires_at)
                 else None
             | None => None
             end) records.

Definition still_pending (now : Z) (r : ApprovalRecord) : bool :=
  match pending_expiry (ar_summary r) with
  | Some expires_at => negb (expires_at <=? now)
  | None => false
  end.

Definition push_expired (p : PendingApprovals) (e : string * bytes * Z) : PendingApprovals :=
  let '(id, caller_fingerprint, expires_at) := e in
  push_resolved p id caller_fingerprint PermissionWaitStatus.Expired
    (u64_saturating_add expires_at APPROVAL_TTL_SECONDS).

Definition purge_expired (p : PendingApprovals) (now : Z) : PendingApprovals :=
  let before := length (pa_records p) in
  let expired := expired_records (pa_records p) now in
  let p := set_records p (retain (still_pending now) (pa_records p)) in
  let p := foldl push_expired p expired in
  let p := set_resolved p (retain (λ r, now <? rr_retain_until r) (pa_resolved p)) in
  if bool_decide (length (pa_records p) = before) then p
  else set_unsaved (changed p) true.

(** ** Persistence *)

(** The serialized form of a record has no waiter. *)
Definition forget_waiter (r : ApprovalRecord) : ApprovalRecord := set_awaited r None.

Definition load_approvals (now : Z) (s : St) : PendingApprovals * St :=
  let '(stored, s) :=
    (address ← lift pending_address;
     get_at Authorization PENDING_DOCUMENT_NAMESPACE address now) s in
  let stored :=
    match stored with
    | Ok (Some b) =>
        match serde_from_slice b with
        | Ok stored => if sa_version stored =? PENDING_VERSION then Some stored else None
        | Err _ => None
        end
    | _ => None
    end in
  match stored with
  | None => (approvals_default, s)
  | Some stored =>
      let records :=
        take MAX_PENDING_APPROVALS
          (retain (λ r, is_pending (ar_summary r) && is_ok (caller_validate (ar_caller r)))
             (sa_records stored)) in
      let approvals := set_records approvals_default records in
      let approvals := set_unsaved approvals
        (negb (bool_decide (length records = length (sa_records stored)))) in
      (purge_expired approvals now, s)
  end.

(** The latest deadline of the pending records. *)
Definition latest_expiry (records : list ApprovalRecord) : option Z :=
  foldl opt_max None (map Some (omap (λ r, pending_expiry (ar_summary r)) records)).

Definition save (p : PendingApprovals) (now : Z) (s : St)
    : VaultResult () * PendingApprovals * St :=
  if negb (pa_unsaved p) then (Ok tt, p, s)
  else
    let '(r, s) :=
      (address ← lift pending_address;
       operation ← lift
         (if bool_decide (pa_records p = []) then Ok (DocumentOperation.Delete address)
          else
            value ← map_err VaultError.Protocol (serde_to_vec
                      {| sa_version := PENDING_VERSION;
                         sa_records := map forget_waiter (pa_records p) |});
            Ok (DocumentOperation.Put address value (latest_expiry (pa_records p))));
       mutate Authorization PENDING_DOCUMENT_NAMESPACE [operation]
         (provenance_service ServiceReason.GrantStorage) now) s in
    (r, match r with Ok _ => set_unsaved p false | Err _ => p end, s).

(** ** Creating *)

(** The pending record a candidate would repeat. *)
Definition repeats (c : ApprovalCandidate) (r : ApprovalRecord) : bool :=
  bool_decide (fingerprint (ar_caller r) = fingerprint (ac_caller c))
    && bool_decide (perm_application (ar_summary r) = ac_application c)
    && bool_decide (ar_address r = ac_address c)
    && bool_decide (ar_namespace r = ac_namespace c)
    && bool_decide (ar_scope r = ac_scope c)
    && bool_decide (ar_permission r = ac_permission c)
    && match perm_state (ar_summary r) with
       | PermissionState.Pending _ _ _ _ expiring_write =>
           Bool.eqb expiring_write (ac_expiring_write c)
       | _ => false
       end.

Definition of_caller (fp : bytes) (r : ApprovalRecord) : bool :=
  bool_decide (fingerprint (ar_caller r) = fp).

Definition young (monotonic_now : Z) (c : Z * bytes) : bool :=
  saturating_duration_since monotonic_now c.1 <? APPROVAL_RATE_WINDOW.

(** The four limits on new approvals. *)
Definition approval_limited (p : PendingApprovals) (fp : bytes) : bool :=
  (MAX_PENDING_APPROVALS <=? length (pa_records p))%nat
    || (MAX_PENDING_PER_CALLER <=? length (retain (of_caller fp) (pa_records p)))%nat
    || (MAX_NEW_APPROVALS <=? length (pa_recent_creations p))%nat
    || (MAX_NEW_APPROVALS_PER_CALLER
          <=? length (retain (λ c, bool_decide (c.2 = fp)) (pa_recent_creations p)))%nat.

(** The request a person will see. *)
Definition new_summary (c : ApprovalCandidate) (address : SecretAddress) (project : string)
    (id : string) (challenge : bytes) (now expires_at : Z) : Permission := {|
  perm_target := Some (summary (GrantTarget.ProjectEntry (ac_scope c) (ac_namespace c) address
                         project (app_base_dir (ac_application c))));
  perm_id := id;
  perm_scope := Some (ac_scope c);
  perm_operation := ac_operation c;
  perm_principal := principal_from (ac_caller c);
  perm_application := ac_application c;
  perm_state := PermissionState.Pending now expires_at challenge false (ac_expiring_write c)
|}.

Definition approval_id (id_bytes : bytes) : string := "prm_" +:+ b64url_encode id_bytes.

(** [create_at]; [random] is what the system's random source yields for the id and
    the challenge.  An application without a project panics in the code; the
    callers only build candidates that have one. *)
Definition create_at (p : PendingApprovals) (c : ApprovalCandidate) (now monotonic_now : Z)
    (random : VaultResult (bytes * bytes))
    : option (VaultResult VaultInteractionReference * PendingApprovals) :=
  let p := purge_expired p now in
  match u64_checked_add now APPROVAL_TTL_SECONDS, ac_address c with
  | None, _ => Some (Err VaultError.Expired, p)
  | Some _, None => Some (Err VaultError.AuthorizationRequired, p)
  | Some expires_at, Some address =>
      if bool_decide (ac_operation c = PermissionOperation.Clear)
      then Some (Err VaultError.AuthorizationRequired, p)
      else
        let fp := fingerprint (ac_caller c) in
        match find_first (repeats c) (pa_records p) with
        | Some existing =>
            expires_at ← pending_expiry (ar_summary existing);
            Some (Ok {| ir_id := perm_id (ar_summary existing); ir_expires_at := expires_at |},
                  set_records p (update_first (repeats c)
                    (λ r, set_awaited r (opt_max (ar_awaited_until r)
                            (Some (monotonic_now + REQUESTER_GRACE)))) (pa_records p)))
        | None =>
            let p := set_recent p (retain (young monotonic_now) (pa_recent_creations p)) in
            if approval_limited p fp then Some (Err VaultError.ApprovalLimited, p)
            else
              match random with
              | Err e => Some (Err e, p)
              | Ok (id_bytes, challenge) =>
                  let id := approval_id id_bytes in
                  project ← app_project (ac_application c);
                  let record := {|
                    ar_summary := new_summary c address project id challenge now expires_at;
                    ar_caller := ac_caller c; ar_scope := ac_scope c;
                    ar_namespace := ac_namespace c; ar_address := ac_address c;
                    ar_permission := ac_permission c;
                    ar_awaited_until := Some (monotonic_now + REQUESTER_GRACE) |} in
                  let p := set_records p (pa_records p ++ [record]) in
                  let p := set_recent p (pa_recent_creations p ++ [(monotonic_now, fp)]) in
                  Some (Ok {| ir_id := id; ir_expires_at := expires_at |},
                        set_unsaved (changed p) true)
              end
        end
  end.

(** ** Reading and waiting *)

Definition listed (monotonic_now : Z) (r : ApprovalRecord) : Permission :=
  match perm_state (ar_summary r) with
  | PermissionState.Pending created_at expires_at challenge _ expiring_write =>
      set_state (ar_summary r) (PermissionState.Pending created_at expires_at challenge
        (opt_test (λ until, monotonic_now <? until) (ar_awaited_until r)) expiring_write)
  | PermissionState.Granted _ _ _ => ar_summary r
  end.

Definition list_at (p : PendingApprovals) (now monotonic_now : Z)
    : Z * list Permission * PendingApprovals :=
  let p := purge_expired p now in
  (pa_revision p, map (listed monotonic_now) (pa_records p), p).

Definition has_id (id : string) (r : ApprovalRecord) : bool :=
  String.eqb (perm_id (ar_summary r)) id.

Definition awaited (p : PendingApprovals) (caller : CallerIdentity) (id : string) (until : Z)
    : PendingApprovals :=
  set_records p (update_first (λ r, has_id id r && of_caller (fingerprint caller) r)
    (λ r, set_awaited r (opt_max (ar_awaited_until r) (Some (until + REQUESTER_GRACE))))
    (pa_records p)).

Definition approval_status (p : PendingApprovals) (caller : CallerIdentity) (id : string)
    (now : Z) : option PermissionWaitStatus.status * PendingApprovals :=
  let p := purge_expired p now in
  let fp := fingerprint caller in
  (if existsb (λ r, has_id id r && of_caller fp r) (pa_records p)
   then Some PermissionWaitStatus.Pending
   else rr_status <$> find_first (λ r, String.eqb (rr_id r) id
          && bool_decide (rr_caller_fingerprint r = fp)) (pa_resolved p), p).

(** ** Deciding *)

Definition missing_permission : VaultError.error :=
  VaultError.Protocol "permission is missing or expired".

(** A record that is not pending panics in the code; the queue holds only pending
    ones. *)
Definition deny (p : PendingApprovals) (id : string) (now : Z)
    : option (VaultResult () * PendingApprovals) :=
  let p := purge_expired p now in
  match position (has_id id) (pa_records p) with
  | None => Some (Err missing_permission, p)
  | Some index =>
      record ← pa_records p !! index;
      expires_at ← pending_expiry (ar_summary record);
      let p := set_unsaved (set_records p (delete index (pa_records p))) true in
      let p := push_resolved p id (fingerprint (ar_caller record))
                 PermissionWaitStatus.Denied
                 (u64_saturating_add expires_at APPROVAL_TTL_SECONDS) in
      Some (Ok tt, changed p)
  end.

(** The checks of [approve] before the grant is written, and what it grants. *)
Definition approval_decision (device_key : bytes) (record : ApprovalRecord) (signature : bytes)
    (lifetime : ApprovedLifetime) (now : Z) : VaultResult (GrantTarget.grant_target * Permission) :=
  match perm_state (ar_summary record) with
  | PermissionState.Granted _ _ _ => Err (VaultError.Protocol "permission is not pending")
  | PermissionState.Pending _ _ challenge _ _ =>
      let single_use := al_single_use lifetime in
      _ ← verify device_key
            (permission_payload (perm_id (ar_summary record)) challenge
               (al_duration_seconds lifetime) single_use) signature;
      _ ← fail_if (single_use
                   && (negb (bool_decide (ar_scope record = SecretSpecProviderCache))
                       || negb (bool_decide (ar_permission record = GrantPermission.Put))))
            (VaultError.Protocol "only a SecretSpec write can be approved for one write");
      let duration := if single_use then Some SINGLE_USE_GRANT_SECONDS
                      else al_duration_seconds lifetime in
      expires_at ← opt_try (λ duration, ok_or VaultError.Expired (u64_checked_add now duration))
                     duration;
      project ← ok_or (VaultError.Protocol "permission has no project")
                  (app_project (perm_application (ar_summary record)));
      address ← ok_or VaultError.AuthorizationRequired (ar_address record);
      Ok (GrantTarget.ProjectEntry (ar_scope record) (ar_namespace record) address project
            (app_base_dir (perm_application (ar_summary record))),
          set_state (ar_summary record) (PermissionState.Granted now expires_at single_use))
  end.

Definition approve (device_key : bytes) (p : PendingApprovals) (id : string)
    (signature : bytes) (lifetime : ApprovedLifetime) (now : Z)
    (provenance : Provenance.provenance) (s : St) : VaultResult () * PendingApprovals * St :=
  let p := purge_expired p now in
  match position (has_id id) (pa_records p) with
  | None => (Err missing_permission, p, s)
  | Some index =>
      match pa_records p !! index with
      | None => (Err missing_permission, p, s)
      | Some record =>
          match approval_decision device_key record signature lifetime now with
          | Err e => (Err e, p, s)
          | Ok (target, permission) =>
              match promote_permission (ar_caller record) target (ar_permission record)
                      permission now provenance s with
              | (Err e, s) => (Err e, p, s)
              | (Ok _, s) =>
                  let p := set_unsaved (set_records p (delete index (pa_records p))) true in
                  let p := push_resolved p id (fingerprint (ar_caller record))
                             PermissionWaitStatus.Granted
                             (u64_saturating_add now APPROVAL_TTL_SECONDS) in
                  (Ok tt, changed p, s)
              end
          end
      end
  end.
End Approvals.
