(* ===== verification/ApprovalProofs.v ===== *)
(** What the approval queue guarantees: its bounds and rate limits in every
    reachable state, what an approval needs and grants, and that pending requests
    survive being saved and loaded. *)
From Stdlib Require Import ZArith Lia Bool.
From stdpp Require Import base gmap strings list relations.
From S2P Require Import Prelude Core Address Clock Text Wire History StoreSpec Signature Grant.
From S2P Require Import GrantProofs Approvals.

(** ** Lists *)

Lemma retain_retain {A} (p q : A → bool) l : retain p (retain q l) = retain (λ x, q x && p x) l.
Proof.
  induction l as [|x l IH]; cbn; [done|]. destruct (q x); cbn; [|done].
  destruct (p x); by rewrite IH.
Qed.

Lemma retain_ext {A} (p q : A → bool) l : (∀ x, x ∈ l → p x = q x) → retain p l = retain q l.
Proof.
  induction l as [|x l IH]; intros Heq; cbn; [done|].
  rewrite (Heq x) by (by left). rewrite IH; [done|]. intros y Hy. apply Heq. by right.
Qed.

Lemma length_retain_sub {A} (p : A → bool) l k :
  sublist l k → (length (retain p l) ≤ length (retain p k))%nat.
Proof. induction 1; cbn; [done|destruct (p _); cbn; lia..]. Qed.

Lemma Forall_update_first {A} (P : A → Prop) p f (l : list A) :
  (∀ x, P x → P (f x)) → Forall P l → Forall P (update_first p f l).
Proof.
  intros Hf. induction 1 as [|x l Hx Hl IH]; cbn; [constructor|].
  destruct (p x); constructor; auto.
Qed.

Lemma length_update_first {A} p f (l : list A) : length (update_first p f l) = length l.
Proof. induction l as [|x l IH]; cbn; [done|]. destruct (p x); cbn; [done|]. by rewrite IH. Qed.

Lemma retain_update_first {A} (q p : A → bool) f (l : list A) :
  (∀ x, q (f x) = q x) → length (retain q (update_first p f l)) = length (retain q l).
Proof.
  intros Hf. induction l as [|x l IH]; cbn; [done|]. destruct (p x); cbn.
  - rewrite Hf. by destruct (q x).
  - destruct (q x); cbn; by rewrite IH.
Qed.

Section ApprovalProofs.
Context `{Sha256Ok, Base64Ok}.

(** ** The bounds *)

(** The limits the queue keeps. *)
Record approvals_wf (p : PendingApprovals) : Prop := {
  wf_pending : Forall (λ r, is_pending (ar_summary r) = true) (pa_records p);
  wf_records : (length (pa_records p) ≤ MAX_PENDING_APPROVALS)%nat;
  wf_per_caller fp :
    (length (retain (of_caller fp) (pa_records p)) ≤ MAX_PENDING_PER_CALLER)%nat;
  wf_resolved : (length (pa_resolved p) ≤ MAX_PENDING_APPROVALS)%nat;
  wf_recent : (length (pa_recent_creations p) ≤ MAX_NEW_APPROVALS)%nat;
  wf_recent_per_caller fp :
    (length (retain (λ c, bool_decide (c.2 = fp)) (pa_recent_creations p))
       ≤ MAX_NEW_APPROVALS_PER_CALLER)%nat
}.

(** The bounds depend only on the lists, and hold of smaller ones. *)
Lemma approvals_wf_sub p q :
  approvals_wf p → sublist (pa_records q) (pa_records p) →
  (length (pa_resolved q) ≤ MAX_PENDING_APPROVALS)%nat →
  sublist (pa_recent_creations q) (pa_recent_creations p) → approvals_wf q.
Proof.
  intros [Hp Hr Hc _ Hn Hnc] Hsub Hres Hrec.
  pose proof (sublist_length _ _ Hsub). pose proof (sublist_length _ _ Hrec).
  split; [|lia| |lia|lia|].
  - rewrite Forall_forall in Hp |- *. intros r Hin. apply Hp. by eapply elem_of_sublist.
  - intros fp. specialize (Hc fp). pose proof (length_retain_sub (of_caller fp) _ _ Hsub). lia.
  - intros fp. specialize (Hnc fp).
    pose proof (length_retain_sub (λ c, bool_decide (c.2 = fp)) _ _ Hrec). lia.
Qed.

Lemma push_resolved_fields p id fp st u :
  pa_records (push_resolved p id fp st u) = pa_records p
  ∧ pa_recent_creations (push_resolved p id fp st u) = pa_recent_creations p
  ∧ ((length (pa_resolved p) ≤ MAX_PENDING_APPROVALS)%nat →
     (length (pa_resolved (push_resolved p id fp st u)) ≤ MAX_PENDING_APPROVALS)%nat).
Proof.
  split_and!; [done..|]. intros Hle. unfold push_resolved; cbn [set_resolved pa_resolved].
  rewrite length_app. cbn [length]. case_bool_decide as Hfull; [|lia].
  destruct (pa_resolved p); cbn in *; unfold MAX_PENDING_APPROVALS in *; lia.
Qed.

Lemma foldl_push_expired l p :
  let q := foldl push_expired p l in
  pa_records q = pa_records p ∧ pa_recent_creations q = pa_recent_creations p
  ∧ ((length (pa_resolved p) ≤ MAX_PENDING_APPROVALS)%nat →
     (length (pa_resolved q) ≤ MAX_PENDING_APPROVALS)%nat).
Proof.
  revert p; induction l as [|[[id fp] e] l IH]; intros p; cbn [foldl]; [done|].
  destruct (push_resolved_fields p id fp PermissionWaitStatus.Expired
    (u64_saturating_add e APPROVAL_TTL_SECONDS)) as (Hr & Hc & Hl).
  destruct (IH (push_expired p (id, fp, e))) as (Hr' & Hc' & Hl'). cbn [push_expired] in *.
  split_and!; [by rewrite Hr', Hr|by rewrite Hc', Hc|auto].
Qed.

(** What purging does: it keeps the records that have not expired, in order. *)
Lemma purge_expired_spec p now :
  pa_records (purge_expired p now) = retain (still_pending now) (pa_records p)
  ∧ pa_recent_creations (purge_expired p now) = pa_recent_creations p
  ∧ ((length (pa_resolved p) ≤ MAX_PENDING_APPROVALS)%nat →
     (length (pa_resolved (purge_expired p now)) ≤ MAX_PENDING_APPROVALS)%nat).
Proof.
  unfold purge_expired.
  destruct (foldl_push_expired (expired_records (pa_records p) now)
    (set_records p (retain (still_pending now) (pa_records p)))) as (Hr & Hc & Hl).
  set (q := foldl _ _ _) in *. cbn [set_records pa_records pa_recent_creations pa_resolved] in *.
  assert ((length (pa_resolved p) ≤ MAX_PENDING_APPROVALS)%nat →
    (length (retain (λ r, (now <? rr_retain_until r)%Z) (pa_resolved q))
       ≤ MAX_PENDING_APPROVALS)%nat) as Hlen.
  { intros Hle. pose proof (length_retain (λ r, now <? rr_retain_until r) (pa_resolved q)).
    specialize (Hl Hle). lia. }
  case_bool_decide; cbn; auto.
Qed.

Lemma purge_expired_resolved p now r :
  r ∈ pa_resolved (purge_expired p now) → now < rr_retain_until r.
Proof.
  unfold purge_expired. case_bool_decide; cbn [changed set_unsaved set_resolved pa_resolved];
    rewrite elem_of_retain, Z.ltb_lt; by intros [? _].
Qed.

Lemma purge_expired_wf p now : approvals_wf p → approvals_wf (purge_expired p now).
Proof.
  intros Hp. destruct (purge_expired_spec p now) as (Hr & Hc & Hl).
  eapply approvals_wf_sub; [exact Hp| | |].
  - rewrite Hr. apply retain_sublist.
  - apply Hl, Hp.
  - by rewrite Hc.
Qed.

Lemma still_pending_is_pending now r : still_pending now r = true → is_pending (ar_summary r) = true.
Proof. unfold still_pending, pending_expiry, is_pending. by destruct (perm_state _). Qed.

(** Marking a record as awaited keeps the bounds. *)
Lemma awaited_wf p f g :
  approvals_wf p →
  approvals_wf (set_records p (update_first f (λ r, set_awaited r (g r)) (pa_records p))).
Proof.
  intros [Hp Hr Hc Hs Hn Hnc]. split; cbn [set_records pa_records pa_resolved pa_recent_creations].
  - by apply Forall_update_first.
  - by rewrite length_update_first.
  - intros fp. by rewrite retain_update_first.
  - done.
  - done.
  - done.
Qed.

Lemma decided_wf p i id fp st u :
  approvals_wf p →
  approvals_wf (changed (push_resolved
    (set_unsaved (set_records p (delete i (pa_records p))) true) id fp st u)).
Proof.
  intros Hp. destruct (push_resolved_fields
    (set_unsaved (set_records p (delete i (pa_records p))) true) id fp st u) as (Hr & Hc & Hl).
  eapply approvals_wf_sub; [exact Hp| | |]; cbn [changed pa_records pa_resolved pa_recent_creations].
  - rewrite Hr. apply sublist_delete.
  - apply Hl, Hp.
  - by rewrite Hc.
Qed.

(** ** Creating a request *)

(** The state with a new record appended. *)
Definition with_new (q : PendingApprovals) (r : ApprovalRecord) (mono : Z) : PendingApprovals :=
  set_unsaved (changed (set_recent (set_records q (pa_records q ++ [r]))
    (pa_recent_creations q ++ [(mono, fingerprint (ar_caller r))]))) true.

Definition trimmed (p : PendingApprovals) (now mono : Z) : PendingApprovals :=
  let q := purge_expired p now in
  set_recent q (retain (young mono) (pa_recent_creations q)).

(** The record a candidate becomes. *)
Definition new_record (c : ApprovalCandidate) (address : SecretAddress) (project id : string)
    (challenge : bytes) (now mono : Z) : ApprovalRecord := {|
  ar_summary := new_summary c address project id challenge now (now + APPROVAL_TTL_SECONDS);
  ar_caller := ac_caller c; ar_scope := ac_scope c; ar_namespace := ac_namespace c;
  ar_address := ac_address c; ar_permission := ac_permission c;
  ar_awaited_until := Some (mono + REQUESTER_GRACE) |}.

(** How a request for approval can end. *)
Inductive creation (p : PendingApprovals) (c : ApprovalCandidate) (now mono : Z)
    : VaultResult VaultInteractionReference → PendingApprovals → Prop :=
| creation_refused e : creation p c now mono (Err e) (purge_expired p now)
| creation_coalesced existing e :
    find_first (repeats c) (pa_records (purge_expired p now)) = Some existing →
    pending_expiry (ar_summary existing) = Some e →
    creation p c now mono
      (Ok {| ir_id := perm_id (ar_summary existing); ir_expires_at := e |})
      (set_records (purge_expired p now) (update_first (repeats c)
         (λ r, set_awaited r (opt_max (ar_awaited_until r) (Some (mono + REQUESTER_GRACE))))
         (pa_records (purge_expired p now))))
| creation_limited e :
    find_first (repeats c) (pa_records (purge_expired p now)) = None →
    creation p c now mono (Err e) (trimmed p now mono)
| creation_new address project id_bytes challenge :
    find_first (repeats c) (pa_records (purge_expired p now)) = None →
    ac_address c = Some address →
    ac_operation c ≠ PermissionOperation.Clear →
    app_project (ac_application c) = Some project →
    approval_limited (trimmed p now mono) (fingerprint (ac_caller c)) = false →
    now + APPROVAL_TTL_SECONDS ≤ U64_MAX →
    creation p c now mono
      (Ok {| ir_id := approval_id id_bytes; ir_expires_at := now + APPROVAL_TTL_SECONDS |})
      (with_new (trimmed p now mono)
         (new_record c address project (approval_id id_bytes) challenge now mono) mono).

Lemma create_at_creation p c now mono random r p' :
  create_at p c now mono random = Some (r, p') → creation p c now mono r p'.
Proof.
  unfold create_at.
  destruct (u64_checked_add now APPROVAL_TTL_SECONDS) as [e|] eqn:He;
    [|intros [= <- <-]; constructor].
  apply u64_checked_add_Some in He as [-> He].
  destruct (ac_address c) as [address|] eqn:Haddr; [|intros [= <- <-]; constructor].
  case_bool_decide as Hclear; [intros [= <- <-]; constructor|].
  destruct (find_first (repeats c) (pa_records (purge_expired p now))) as [existing|] eqn:Hf.
  - cbn. destruct (pending_expiry (ar_summary existing)) as [e|] eqn:Hexp; cbn; [|done].
    intros [= <- <-]. by eapply creation_coalesced.
  - fold (trimmed p now mono).
    destruct (approval_limited (trimmed p now mono) (fingerprint (ac_caller c))) eqn:Hlim;
      [intros [= <- <-]; by constructor|].
    destruct random as [[id_bytes challenge]|e]; [|intros [= <- <-]; by constructor].
    destruct (app_project (ac_application c)) as [project|] eqn:Hproj; cbn; [|done].
    intros [= <- <-]. rewrite <- Haddr. by eapply creation_new.
Qed.

(** A request for a project never panics. *)
Lemma create_at_total p c now mono random project :
  app_project (ac_application c) = Some project → is_Some (create_at p c now mono random).
Proof.
  intros Hproj. unfold create_at.
  destruct (u64_checked_add _ _); [|eauto]. destruct (ac_address c); [|eauto].
  case_bool_decide; [eauto|]. destruct (find_first _ _) as [existing|] eqn:Hf.
  - apply find_first_Some in Hf as [Hrep _]. unfold repeats in Hrep.
    apply andb_true_iff in Hrep as [_ Hst]. unfold pending_expiry.
    destruct (perm_state (ar_summary existing)); [by eexists|done].
  - destruct (approval_limited _ _); [eauto|]. destruct random as [[]|]; [|eauto].
    rewrite Hproj. by eexists.
Qed.

Lemma trimmed_wf p now mono : approvals_wf p → approvals_wf (trimmed p now mono).
Proof.
  intros Hp. apply (purge_expired_wf _ now) in Hp. eapply approvals_wf_sub; [exact Hp|done|apply Hp|].
  apply retain_sublist.
Qed.

Lemma with_new_wf q r mono :
  approvals_wf q → is_pending (ar_summary r) = true →
  approval_limited q (fingerprint (ar_caller r)) = false → approvals_wf (with_new q r mono).
Proof.
  intros [Hp Hr Hc Hs Hn Hnc] Hpend Hlim. unfold approval_limited in Hlim.
  rewrite !orb_false_iff, !Nat.leb_gt in Hlim. destruct Hlim as [[[Hl1 Hl2] Hl3] Hl4].
  split; cbn [with_new set_unsaved changed set_recent set_records
    pa_records pa_resolved pa_recent_creations].
  - apply Forall_app. split; [done|]. by constructor.
  - rewrite length_app. cbn [length]. lia.
  - intros fp. rewrite retain_app, length_app. specialize (Hc fp). cbn [retain].
    unfold of_caller at 2. case_bool_decide as Hfp; [subst fp|]; cbn [length]; lia.
  - done.
  - rewrite length_app. cbn [length]. lia.
  - intros fp. rewrite retain_app, length_app. specialize (Hnc fp). cbn [retain snd].
    case_bool_decide as Hfp; [subst fp|]; cbn [length]; lia.
Qed.

Lemma creation_wf p c now mono r p' :
  creation p c now mono r p' → approvals_wf p → approvals_wf p'.
Proof.
  intros Hcr Hp. destruct Hcr.
  - by apply purge_expired_wf.
  - by apply awaited_wf, purge_expired_wf.
  - by apply trimmed_wf.
  - apply with_new_wf; [by apply trimmed_wf|done|done].
Qed.

(** ** Deciding *)

Lemma deny_outcome p id now r p' :
  deny p id now = Some (r, p') →
  let q := purge_expired p now in
  (p' = q ∧ r = Err missing_permission ∧ ∀ x, x ∈ pa_records q → has_id id x = false)
  ∨ ∃ i record e, pa_records q !! i = Some record ∧ has_id id record = true
      ∧ pending_expiry (ar_summary record) = Some e ∧ r = Ok tt
      ∧ p' = changed (push_resolved
          (set_unsaved (set_records q (delete i (pa_records q))) true) id
          (fingerprint (ar_caller record)) PermissionWaitStatus.Denied
          (u64_saturating_add e APPROVAL_TTL_SECONDS)).
Proof.
  unfold deny. destruct (position (has_id id) _) as [i|] eqn:Hpos.
  - apply position_Some in Hpos as (record & Hi & Hid). rewrite Hi. cbn.
    destruct (pending_expiry (ar_summary record)) as [e|] eqn:He; cbn; [|done].
    intros [= <- <-]. right. by exists i, record, e.
  - intros [= <- <-]. left. split_and!; [done..|]. by apply position_None.
Qed.

Context `{SerdeOk AccessGrant, SerdeOk PermissionRegistry, SerdeOk StoredApprovals}.
Context `{MlDsa65}.
Context `{VaultStore St}.

Lemma approve_outcome key p id sig lt now prov s r p' s' :
  approve key p id sig lt now prov s = (r, p', s') →
  let q := purge_expired p now in
  (p' = q ∧ r ≠ Ok tt)
  ∨ ∃ i record target permission, pa_records q !! i = Some record ∧ has_id id record = true
      ∧ approval_decision key record sig lt now = Ok (target, permission)
      ∧ promote_permission (ar_caller record) target (ar_permission record) permission now prov s
        = (Ok tt, s')
      ∧ r = Ok tt
      ∧ p' = changed (push_resolved
          (set_unsaved (set_records q (delete i (pa_records q))) true) id
          (fingerprint (ar_caller record)) PermissionWaitStatus.Granted
          (u64_saturating_add now APPROVAL_TTL_SECONDS)).
Proof.
  unfold approve. destruct (position (has_id id) _) as [i|] eqn:Hpos;
    [|intros [= <- <- <-]; by left].
  apply position_Some in Hpos as (record & Hi & Hid). rewrite Hi.
  destruct (approval_decision key record sig lt now) as [[target permission]|e] eqn:Hd;
    [|intros [= <- <- <-]; by left].
  destruct (promote_permission _ _ _ _ _ _ _) as [[[]|e] s1] eqn:Hp;
    intros [= <- <- <-]; [right|by left].
  exists i, record, target, permission. auto 10.
Qed.

(** ** Reachable states *)

(** One operation of the service on the queue. *)
Inductive approvals_step : PendingApprovals → PendingApprovals → Prop :=
| step_create p c now mono random r p' :
    create_at p c now mono random = Some (r, p') → approvals_step p p'
| step_list p now mono r p' : list_at p now mono = (r, p') → approvals_step p p'
| step_awaited p caller id until : approvals_step p (awaited p caller id until)
| step_status p caller id now r p' :
    approval_status p caller id now = (r, p') → approvals_step p p'
| step_deny p id now r p' : deny p id now = Some (r, p') → approvals_step p p'
| step_approve key p id sig lt now prov (s : St) r p' s' :
    approve key p id sig lt now prov s = (r, p', s') → approvals_step p p'
| step_save p now (s : St) r p' s' : save p now s = (r, p', s') → approvals_step p p'
| step_changed p : approvals_step p (changed p).

Lemma approvals_default_wf : approvals_wf approvals_default.
Proof. split; cbn; intros; [constructor|unfold MAX_PENDING_APPROVALS, MAX_PENDING_PER_CALLER,
  MAX_NEW_APPROVALS, MAX_NEW_APPROVALS_PER_CALLER; lia..]. Qed.

(** Only the flags change. *)
Lemma approvals_wf_flags p q :
  pa_records q = pa_records p → pa_resolved q = pa_resolved p →
  pa_recent_creations q = pa_recent_creations p → approvals_wf p → approvals_wf q.
Proof. intros Hr Hs Hc []. split; rewrite ?Hr, ?Hs, ?Hc; done. Qed.

Lemma save_queue p now s r p' s' :
  save p now s = (r, p', s') → p' = p ∨ p' = set_unsaved p false.
Proof.
  unfold save. destruct (negb (pa_unsaved p)); [intros [= <- <- <-]; by left|].
  match goal with |- context [let '(x, y) := ?m in _] => destruct m as [[]] end;
    intros [= <- <- <-]; [by right|by left].
Qed.

Lemma approvals_step_wf p p' : approvals_step p p' → approvals_wf p → approvals_wf p'.
Proof.
  intros Hs Hp. destruct Hs as [p c now mono random r p' Hc|p now mono r p' Hl|p caller id u|
    p caller id now r p' Hst|p id now r p' Hd|key p id sig lt now prov s r p' s' Ha|
    p now s r p' s' Hsv|p].
  - eapply creation_wf; [by eapply create_at_creation|done].
  - injection Hl as _ <-. by apply purge_expired_wf.
  - by apply awaited_wf.
  - injection Hst as _ <-. by apply purge_expired_wf.
  - apply deny_outcome in Hd as [(-> & _)|(i & record & e & _ & _ & _ & _ & ->)];
      [by apply purge_expired_wf|by apply decided_wf, purge_expired_wf].
  - apply approve_outcome in Ha as [(-> & _)|(i & record & t & pm & _ & _ & _ & _ & _ & ->)];
      [by apply purge_expired_wf|by apply decided_wf, purge_expired_wf].
  - apply save_queue in Hsv as [->| ->]; [done|by apply (approvals_wf_flags p)].
  - by apply (approvals_wf_flags p).
Qed.

(** In every state the service reaches from an empty queue, at most 128
    requests are pending, at most 16 per caller; at most 128 outcomes are kept;
    the record of recent creations has at most 128 entries and 8 per caller; and
    every queued request is pending. *)
Theorem approval_queue_bounded p :
  rtc approvals_step approvals_default p → approvals_wf p.
Proof.
  intros Hr. pose proof approvals_default_wf as Hwf. revert Hr Hwf.
  induction 1 as [|p q r Hstep _ IH]; [done|]. intros Hp. apply IH.
  by eapply approvals_step_wf.
Qed.

(** ** The rate limit *)

(** Runs of the service on a monotonic clock, with the log of the requests
    accepted as new: the times and the callers' fingerprints. *)
Inductive timed_run : list (Z * bytes) → Z → PendingApprovals → Prop :=
| run_start t : timed_run [] t approvals_default
| run_accepted log t p c now mono random ref p' :
    timed_run log t p → t ≤ mono →
    create_at p c now mono random = Some (Ok ref, p') →
    find_first (repeats c) (pa_records (purge_expired p now)) = None →
    timed_run (log ++ [(mono, fingerprint (ac_caller c))]) mono p'
| run_not_accepted log t p c now mono random r p' :
    timed_run log t p → t ≤ mono →
    create_at p c now mono random = Some (r, p') →
    (∃ e, r = Err e) ∨ is_Some (find_first (repeats c) (pa_records (purge_expired p now))) →
    timed_run log mono p'
| run_other log t p p' :
    timed_run log t p → approvals_step p p' →
    pa_recent_creations p' = pa_recent_creations p → timed_run log t p'.

Lemma young_antitone t t' e : t ≤ t' → young t' e = true → young t e = true.
Proof. unfold young, saturating_duration_since. rewrite !Z.ltb_lt. lia. Qed.

Lemma retain_young_young t t' l :
  t ≤ t' → retain (young t') (retain (young t) l) = retain (young t') l.
Proof.
  intros Hle. rewrite retain_retain. apply retain_ext. intros e _.
  destruct (young t' e) eqn:Hy; [|apply andb_false_r]. by rewrite (young_antitone _ _ _ Hle Hy).
Qed.

Lemma trimmed_recent p now mono :
  pa_recent_creations (trimmed p now mono) = retain (young mono) (pa_recent_creations p).
Proof.
  unfold trimmed. cbn [set_recent pa_recent_creations].
  by destruct (purge_expired_spec p now) as (_ & -> & _).
Qed.

(** The queue's record of recent creations agrees with the log on everything
    young enough to count. *)
Lemma timed_run_recent log t p :
  timed_run log t p →
  approvals_wf p
  ∧ ∀ t', t ≤ t' → retain (young t') (pa_recent_creations p) = retain (young t') log.
Proof.
  induction 1 as [t|log t p c now mono random ref p' _ [Hwf IH] Hle Hc Hnew|
    log t p c now mono random r p' _ [Hwf IH] Hle Hc Hnot|log t p p' _ [Hwf IH] Hs Heq].
  - split; [apply approvals_default_wf|done].
  - apply create_at_creation in Hc. split; [by eapply creation_wf|]. intros t' Ht'.
    inversion Hc as [|existing e Hf|?|address project idb ch Hf Ha Hop Hp Hl Hn]; subst;
      [by rewrite Hnew in Hf|].
    cbn [with_new set_unsaved changed set_recent pa_recent_creations].
    rewrite !retain_app, trimmed_recent, retain_young_young by lia. by rewrite IH by lia.
  - apply create_at_creation in Hc. split; [by eapply creation_wf|]. intros t' Ht'.
    destruct (purge_expired_spec p now) as (_ & Hrec & _).
    inversion Hc as [e|existing e Hf|e Hf|address project idb ch Hf Ha Hop Hp Hl Hn]; subst.
    + rewrite Hrec. apply IH. lia.
    + cbn [set_records pa_recent_creations]. rewrite Hrec. apply IH. lia.
    + rewrite trimmed_recent, retain_young_young by lia. apply IH. lia.
    + destruct Hnot as [[e He]|[x Hx]]; [discriminate|by rewrite Hf in Hx].
  - split; [by eapply approvals_step_wf|]. rewrite Heq. done.
Qed.

(** The rate limit: at every point of a run on a monotonic clock, each caller
    has had at most 8 new requests accepted in the minute before, and all callers
    together at most 128, whatever was approved or denied in between. *)
Theorem approval_rate_limited log t p fp :
  timed_run log t p →
  (length (retain (λ c, young t c && bool_decide (c.2 = fp)) log)
     ≤ MAX_NEW_APPROVALS_PER_CALLER)%nat
  ∧ (length (retain (young t) log) ≤ MAX_NEW_APPROVALS)%nat.
Proof.
  intros Hrun. apply timed_run_recent in Hrun as [Hwf Hlog].
  rewrite <- retain_retain, <- Hlog by lia. split.
  - etrans; [apply length_retain_sub, retain_sublist|]. apply Hwf.
  - etrans; [apply length_retain|]. apply Hwf.
Qed.

(** ** Coalescing and waiting *)

(** Repeating a request that is still pending returns the same id and
    deadline and queues nothing; any other accepted request is appended to the
    unexpired ones, with the address and operation it asks for and a deadline a
    week away. *)
Theorem request_coalesces_or_appends p c now mono random ref p' :
  create_at p c now mono random = Some (Ok ref, p') →
  let pending := retain (still_pending now) (pa_records p) in
  (∃ existing, existing ∈ pending ∧ repeats c existing = true
     ∧ ir_id ref = perm_id (ar_summary existing)
     ∧ pending_expiry (ar_summary existing) = Some (ir_expires_at ref)
     ∧ map forget_waiter (pa_records p') = map forget_waiter pending)
  ∨ ((∀ r, r ∈ pending → repeats c r = false)
     ∧ ∃ record, pa_records p' = pending ++ [record]
     ∧ perm_id (ar_summary record) = ir_id ref ∧ ar_caller record = ac_caller c
     ∧ ar_address record = ac_address c ∧ is_Some (ac_address c)
     ∧ ar_permission record = ac_permission c
     ∧ ac_operation c ≠ PermissionOperation.Clear
     ∧ pending_expiry (ar_summary record) = Some (ir_expires_at ref)
     ∧ ir_expires_at ref = now + APPROVAL_TTL_SECONDS).
Proof.
  intros Hc. apply create_at_creation in Hc.
  destruct (purge_expired_spec p now) as (Hrec & _ & _). rewrite <- Hrec. cbn zeta.
  inversion Hc as [|existing e Hf He|?|address project idb ch Hf Ha Hop Hp Hl Hn]; subst.
  - left. exists existing. apply find_first_Some in Hf as [? ?]. split_and!; [done..|].
    cbn [set_records pa_records]. generalize (pa_records (purge_expired p now)).
    intros l. induction l as [|r l IH]; cbn; [done|]. destruct (repeats c r); cbn; [done|].
    by rewrite IH.
  - right. split; [by apply find_first_None|]. eexists. cbn.
    split_and!; [done|done|done|done|by rewrite Ha|done|done|done|done].
Qed.

(** The outcome of a request is told only to the caller that made it: a
    status other than none means that a pending or resolved request with this id
    has the caller's fingerprint. *)
Theorem status_only_for_requester p caller id now st p' :
  approval_status p caller id now = (Some st, p') →
  (∃ r, r ∈ pa_records p' ∧ perm_id (ar_summary r) = id
     ∧ fingerprint (ar_caller r) = fingerprint caller ∧ st = PermissionWaitStatus.Pending)
  ∨ (∃ r, r ∈ pa_resolved p' ∧ rr_id r = id ∧ rr_caller_fingerprint r = fingerprint caller
     ∧ rr_status r = st ∧ now < rr_retain_until r).
Proof.
  unfold approval_status. intros [= Hst <-].
  destruct (existsb _ _) eqn:Hex.
  - injection Hst as <-. left. apply existsb_exists in Hex as (r & Hin & Hr).
    apply andb_true_iff in Hr as [Hid Hfp]. exists r.
    split_and!; [by apply list_elem_of_In|by apply String.eqb_eq|by apply bool_decide_eq_true in Hfp|done].
  - right. apply fmap_Some in Hst as (r & Hf & ->).
    apply find_first_Some in Hf as [Hr Hin]. apply andb_true_iff in Hr as [Hid Hfp].
    exists r. split_and!; [done|by apply String.eqb_eq|by apply bool_decide_eq_true in Hfp|done|].
    by eapply purge_expired_resolved.
Qed.

(** ** Approving *)

Lemma approval_decision_Ok key record sig lt now target permission :
  approval_decision key record sig lt now = Ok (target, permission) →
  ∃ created expiry challenge aw ew address project e,
    perm_state (ar_summary record) = PermissionState.Pending created expiry challenge aw ew
    ∧ signed_by key (permission_payload (perm_id (ar_summary record)) challenge
        (al_duration_seconds lt) (al_single_use lt)) sig
    ∧ ar_address record = Some address
    ∧ app_project (perm_application (ar_summary record)) = Some project
    ∧ e = (if al_single_use lt then Some (now + SINGLE_USE_GRANT_SECONDS)
           else (λ d, now + d) <$> al_duration_seconds lt)
    ∧ (al_single_use lt = true →
       ar_scope record = SecretSpecProviderCache ∧ ar_permission record = GrantPermission.Put)
    ∧ target = GrantTarget.ProjectEntry (ar_scope record) (ar_namespace record) address
                 project (app_base_dir (perm_application (ar_summary record)))
    ∧ permission = set_state (ar_summary record)
                     (PermissionState.Granted now e (al_single_use lt)).
Proof.
  unfold approval_decision.
  destruct (perm_state (ar_summary record)) as [created expiry challenge aw ew|] eqn:Hst; [|done].
  intros Hd. inv_ok.
  match goal with H : verify _ _ _ = Ok _ |- _ => apply verify_Ok in H end.
  match goal with H : opt_try _ _ = Ok ?e |- _ => rename e into e0; rename H into He end.
  eexists _, _, _, _, _, _, _, e0. split_and!; try done.
  - apply opt_try_Ok in He as [[Hn ->]|(d & d' & Hsome & Hadd & ->)].
    + destruct (al_single_use lt); [done|]. by rewrite Hn.
    + inv_ok. apply u64_checked_add_Some in Hadd as [-> _].
      destruct (al_single_use lt); [by injection Hsome as <-|]. by rewrite Hsome.
  - intros Hsingle. rewrite Hsingle in *. bool_prop. naive_solver.
Qed.

(** C32: a request is granted only by the device's signature: approving it needs a
    signature by the device key over its id, its challenge and the chosen lifetime, while it is
    still pending. What is granted is the operation and entry it asked for, to the caller that
    asked, for the signed lifetime, and a single use only for a SecretSpec write. It is all that
    is granted: no grant of another caller, target or operation appears, ends or changes, no
    other document changes, and the registry gains this permission and loses only expired ones
    and any with the same id. Digest collisions are the exception, and named. *)
Theorem approval_needs_device_signature `{!VaultStoreOk St} key p id sig lt now prov s p' s' :
  approve key p id sig lt now prov s = (Ok tt, p', s') →
  ∃ record challenge address project e,
    record ∈ pa_records p ∧ perm_id (ar_summary record) = id ∧ still_pending now record = true
    ∧ (∃ c e a w, perm_state (ar_summary record) = PermissionState.Pending c e challenge a w)
    ∧ signed_by key (permission_payload id challenge (al_duration_seconds lt) (al_single_use lt)) sig
    ∧ ar_address record = Some address
    ∧ app_project (perm_application (ar_summary record)) = Some project
    ∧ e = (if al_single_use lt then Some (now + SINGLE_USE_GRANT_SECONDS)
           else (λ d, now + d) <$> al_duration_seconds lt)
    ∧ (al_single_use lt = true →
       ar_scope record = SecretSpecProviderCache ∧ ar_permission record = GrantPermission.Put)
    ∧ (let target := GrantTarget.ProjectEntry (ar_scope record) (ar_namespace record) address
                       project (app_base_dir (perm_application (ar_summary record))) in
       let fp := fingerprint (ar_caller record) in
       let digest := grant_target_digest target in
       (authorizes (grants_of (view s')) fp digest (ar_permission record) now (al_single_use lt) e
        ∨ ∃ a, grant_address fp digest (ar_permission record) = Ok a ∧ registry_clash a)
       ∧ only_grant_added (grants_of (view s)) (grants_of (view s')) fp digest (ar_permission record) now
       ∧ same_elsewhere (view s) (view s') Authorization GRANT_DOCUMENT_NAMESPACE
       ∧ ∃ before after, registry_at (grants_of (view s)) now before
           ∧ registry_at (grants_of (view s')) now after
           ∧ listed_in before after {|
               sp_permission := with_target
                 (set_state (ar_summary record) (PermissionState.Granted now e (al_single_use lt)))
                 (Some (ar_scope record)) (Some (summary target));
               sp_caller_fingerprint := fp; sp_target_digest := digest;
               sp_grant_permission := ar_permission record |} now).
Proof.
  intros Ha. apply approve_outcome in Ha as [[_ ?]|(i & record & target & pm & Hi & Hid & Hd & Hp & _)];
    [done|].
  apply list_elem_of_lookup_2 in Hi. destruct (purge_expired_spec p now) as (Hrec & _ & _).
  rewrite Hrec in Hi. apply elem_of_retain in Hi as [Hlive Hi].
  apply String.eqb_eq in Hid. apply approval_decision_Ok in Hd
    as (cr & ex & ch & aw & ew & address & project & e & Hst & Hsig & Hadr & Hproj & He & Hs & -> & ->).
  rewrite Hid in Hsig. exists record, ch, address, project, e. split_and!; try done; [by eexists _, _, _, _|].
  cbn zeta. pose proof (promote_permission_only _ _ _ _ _ _ _ _ Hp) as (Helse & Honly & Hregs).
  split_and!; [|done..].
  apply promote_permission_spec in Hp as [(? & e' & single & reg & Hstate & Hauth & _)|Hc];
    [left|by right].
  cbn in Hstate. by injection Hstate as _ <- <-.
Qed.

(** ** Surviving a restart *)

Lemma foldl_opt_max_le l acc m :
  foldl opt_max acc (map Some l) = Some m →
  (∀ e, acc = Some e → e ≤ m) ∧ ∀ e, e ∈ l → e ≤ m.
Proof.
  revert acc; induction l as [|x l IH]; intros acc; cbn [map foldl].
  - intros ->. split; [by intros e [= ->]|]. intros e He. by apply elem_of_nil in He.
  - intros Hf. apply IH in Hf as [Hacc Hl]. split.
    + intros e ->. specialize (Hacc (Z.max e x) eq_refl). lia.
    + intros e. rewrite elem_of_cons. intros [->|He]; [|by apply Hl].
      destruct acc as [a|]; cbn in Hacc; [specialize (Hacc _ eq_refl); lia|by apply Hacc].
Qed.

(** No record expires after the latest deadline. *)
Lemma latest_expiry_le records m now r :
  latest_expiry records = Some m → m ≤ now → r ∈ records → still_pending now r = false.
Proof.
  intros Hm Hle Hr. apply foldl_opt_max_le in Hm as [_ Hall]. unfold still_pending.
  destruct (pending_expiry (ar_summary r)) as [e|] eqn:He; [|done].
  rewrite negb_false_iff, Z.leb_le. etrans; [|exact Hle]. apply Hall, list_elem_of_omap. eauto.
Qed.

Lemma retain_none {A} (p : A → bool) l : (∀ x, x ∈ l → p x = false) → retain p l = [].
Proof.
  intros Hl. induction l as [|x l IH]; cbn; [done|]. rewrite Hl by (by left).
  apply IH. intros y Hy. apply Hl. by right.
Qed.

Lemma retain_all {A} (p : A → bool) l : Forall (λ x, p x = true) l → retain p l = l.
Proof. induction 1 as [|x l Hx _ IH]; cbn; [done|]. by rewrite Hx, IH. Qed.

Lemma retain_forget now l :
  retain (still_pending now) (map forget_waiter l)
  = map forget_waiter (retain (still_pending now) l).
Proof.
  induction l as [|r l IH]; cbn [map retain]; [done|].
  change (still_pending now (forget_waiter r)) with (still_pending now r).
  destruct (still_pending now r); cbn [map]; by rewrite IH.
Qed.

(** A queue as the service builds it. *)
Definition saveable (p : PendingApprovals) : Prop :=
  approvals_wf p ∧ Forall (λ r, caller_validate (ar_caller r) = Ok tt) (pa_records p).

(** What [save] leaves at the address of the pending document. *)
Lemma save_stores `{!VaultStoreOk St} p now s p' s' :
  pa_unsaved p = true → save p now s = (Ok tt, p', s') →
  ∃ a, pending_address = Ok a ∧
  match view s' Authorization PENDING_DOCUMENT_NAMESPACE !! storage_key a with
  | None => pa_records p = []
  | Some c => cell_evict_at c = latest_expiry (pa_records p)
      ∧ serde_from_slice (cell_value c)
        = Ok {| sa_version := PENDING_VERSION; sa_records := map forget_waiter (pa_records p) |}
  end.
Proof.
  unfold save. intros -> Hs. cbn [negb] in Hs.
  match type of Hs with (let '(x, y) := ?m in _) = _ => destruct m as [r s1] eqn:Hm end.
  injection Hs as -> _ <-. inv_sm. apply mutate_spec in Hm as [_ Hv].
  match goal with H : pending_address = Ok ?x |- _ => exists x; split; [exact H|] end.
  case_bool_decide as Hnil; inv_ok.
  - rewrite Hv. cbn. by rewrite lookup_delete_eq.
  - rewrite Hv. cbn. rewrite lookup_insert_eq. split; [done|]. by apply serde_roundtrip.
Qed.

(** Pending requests survive sealing: after a successful save, loading the
    queue at a later time, if the document can be read, brings back exactly the
    saved requests that have not expired, in order, without their waiters. *)
Theorem saved_approvals_survive `{!VaultStoreOk St} p now s p' s' now' a v s1 q s2 :
  saveable p → pa_unsaved p = true → save p now s = (Ok tt, p', s') →
  pending_address = Ok a → get_at Authorization PENDING_DOCUMENT_NAMESPACE a now' s' = (Ok v, s1) →
  load_approvals now' s' = (q, s2) →
  pa_records q = map forget_waiter (retain (still_pending now') (pa_records p)).
Proof.
  intros [Hwf Hcallers] Hu Hs Ha Hget Hl. apply save_stores in Hs as (a' & Ha' & Hcell); [|done].
  replace a' with a in * by congruence.
  unfold load_approvals, mbind, sm_bind, lift in Hl. rewrite Ha in Hl. cbn zeta in Hl.
  rewrite Hget in Hl. apply get_at_spec in Hget as (_ & _ & Hv). rewrite (Hv _ eq_refl) in Hl.
  unfold view_read in Hl. destruct (_ !! storage_key a) as [c|].
  - destruct Hcell as [He Hdec]. unfold evicted in Hl. rewrite He in Hl.
    destruct (opt_test (λ deadline, deadline <=? now') (latest_expiry (pa_records p))) eqn:Hev.
    + cbn in Hl. injection Hl as <- _. destruct (latest_expiry (pa_records p)) as [m|] eqn:Hm; [|done].
      cbn in Hev. apply Z.leb_le in Hev. rewrite (retain_none _ (pa_records p)); [done|].
      intros r Hr. by eapply latest_expiry_le.
    + cbn [fmap option_fmap option_map] in Hl. rewrite Hdec in Hl. cbn [sa_version sa_records] in Hl.
      rewrite Z.eqb_refl in Hl. injection Hl as <- _.
      destruct (purge_expired_spec (set_unsaved (set_records approvals_default
        (take MAX_PENDING_APPROVALS (retain (λ r, is_pending (ar_summary r)
           && is_ok (caller_validate (ar_caller r))) (map forget_waiter (pa_records p)))))
        (negb (bool_decide (length (take MAX_PENDING_APPROVALS (retain (λ r, is_pending (ar_summary r)
           && is_ok (caller_validate (ar_caller r))) (map forget_waiter (pa_records p))))
           = length (map forget_waiter (pa_records p)))))) now') as [-> _].
      cbn [set_unsaved set_records pa_records].
      rewrite (retain_all _ (map forget_waiter (pa_records p))).
      * rewrite take_ge, retain_forget; [done|]. rewrite length_map. apply Hwf.
      * apply Forall_map. destruct Hwf as [Hp _ _ _ _ _]. rewrite !Forall_forall in *.
        intros r Hr. cbn. rewrite (Hp r Hr), (Hcallers r Hr). done.
  - cbn in Hl. injection Hl as <- _. by rewrite Hcell.
Qed.
End ApprovalProofs.
