(* ===== verification/ApprovalWitness.v ===== *)
(** Runs of the approval queue: each theorem of [ApprovalProofs] applied where its
    hypotheses hold. *)
From Stdlib Require Import ZArith Lia Bool.
From stdpp Require Import base gmap strings list relations.
From S2P Require Import Prelude Core Address Instances Clock Text Wire History StoreSpec DemoStore.
From S2P Require Import Signature Grant GrantProofs Approvals ApprovalProofs.

Module ApprovalDemo.
#[export] Existing Instances demo_sha256 demo_sha256_ok demo_base64 demo_base64_ok.

(** A signature scheme in which the signature is the key before the payload. *)
#[export] Instance demo_mldsa : MlDsa65 := {|
  verifying_key := bytes; mldsa_signature := bytes;
  verifying_key_new b := Some b; signature_try_from b := Some b;
  mldsa_verify key payload sig := bool_decide (sig = key ++ payload) |}.

Definition device_key : bytes := [Byte.x2a].
Definition caller : CallerIdentity := {|
  ci_platform := CallerPlatform.Linux; ci_user_id := "1000"; ci_application_id := "app";
  ci_executable_digest := replicate 32 Byte.x01; ci_signer_id := None |}.
Definition application : VaultApplicationContext := {|
  app_project := Some "p"; app_profile := None; app_base_dir := None; app_reason := None;
  app_requested_permission_duration_seconds := None; app_declared_launch_chain := [] |}.
Definition address : SecretSpecAddress := Convention "p" "default" "KEY".
Definition candidate : ApprovalCandidate :=
  match for_request caller (Some application)
          (VaultAction.PutCache "p" address [] (Some 500)) with
  | Some c => c
  | None => for_keyring caller "" None "" PermissionOperation.Get
  end.
Definition challenge : bytes := replicate 32 Byte.x07.
Definition random : VaultResult (bytes * bytes) := Ok ([Byte.x05], challenge).
Definition prov : Provenance.provenance := provenance_service ServiceReason.GrantStorage.
Definition lifetime : ApprovedLifetime := {| al_duration_seconds := None; al_single_use := true |}.
Definition id : string := approval_id [Byte.x05].

(** The queue with one request. *)
Definition record : ApprovalRecord :=
  new_record candidate (SecretSpec address) "p" id challenge 100 0.
Definition queued : PendingApprovals :=
  with_new (trimmed approvals_default 100 0) record 0.
Definition signature : bytes := device_key ++ permission_payload id challenge None true.

Definition fp : bytes := fingerprint caller.
Definition target : GrantTarget.grant_target :=
  GrantTarget.ProjectEntry SecretSpecProviderCache (as_bytes "p") (SecretSpec address) "p" None.
#[export] Instance grant_serde : Serde AccessGrant := table_serde
  [new_grant fp (grant_target_digest target) GrantPermission.Put (Some 410) true].
#[export] Instance registry_serde : Serde PermissionRegistry := table_serde
  [{| pr_version := 1; pr_permissions := [{|
        sp_permission := with_target
          (set_state (ar_summary record) (PermissionState.Granted 110 (Some 410) true))
          (Some SecretSpecProviderCache) (Some (summary target));
        sp_caller_fingerprint := fp; sp_target_digest := grant_target_digest target;
        sp_grant_permission := GrantPermission.Put |}] |}].
#[export] Instance approvals_serde : Serde StoredApprovals := table_serde
  [{| sa_version := 1; sa_records := [forget_waiter record] |}].
#[export] Instance grant_serde_ok : SerdeOk AccessGrant := table_serde_ok _.
#[export] Instance registry_serde_ok : SerdeOk PermissionRegistry := table_serde_ok _.
#[export] Instance approvals_serde_ok : SerdeOk StoredApprovals := table_serde_ok _.

Lemma run_create : create_at approvals_default candidate 100 0 random
  = Some (Ok {| ir_id := id; ir_expires_at := 100 + APPROVAL_TTL_SECONDS |}, queued).
Proof. vm_compute. reflexivity. Qed.

Definition approved : VaultResult () * PendingApprovals * DemoState :=
  approve device_key queued id signature lifetime 110 prov (∅ : DemoState).
Lemma run_approve : approved.1.1 = Ok tt.
Proof. vm_compute. reflexivity. Qed.

Definition saved : VaultResult () * PendingApprovals * DemoState :=
  save queued 110 (∅ : DemoState).
Lemma run_save : saved.1.1 = Ok tt.
Proof. vm_compute. reflexivity. Qed.
Definition pending_at : SecretAddress := Local "pending" None.
Lemma run_get : is_ok (get_at Authorization PENDING_DOCUMENT_NAMESPACE pending_at 120 saved.2).1
  = true.
Proof. vm_compute. reflexivity. Qed.
Lemma queued_callers : Forall (λ r, caller_validate (ar_caller r) = Ok tt) (pa_records queued).
Proof. vm_compute. repeat constructor. Qed.

Lemma triple_eta {A B C} (m : A * B * C) r : m.1.1 = r → m = (r, m.1.2, m.2).
Proof. intros <-. by destruct m as [[]]. Qed.
End ApprovalDemo.
Import ApprovalDemo.

Example approval_queue_bounded_witness : approvals_wf queued.
Proof.
  apply (approval_queue_bounded (St := DemoState)). eapply rtc_l; [|apply rtc_refl].
  exact (step_create (St := DemoState) _ _ _ _ _ _ _ run_create).
Defined.

Example approval_rate_limited_witness :
  (length (retain (λ c, young 0%Z c && bool_decide (c.2 = fp)) [(0%Z, fp)])
     ≤ MAX_NEW_APPROVALS_PER_CALLER)%nat.
Proof.
  refine (proj1 (approval_rate_limited (St := DemoState) [(0, fp)] 0 queued fp _)).
  refine (run_accepted (St := DemoState) [] 0 _ candidate 100 0 random _ _
    (run_start 0) (Z.le_refl 0) run_create _).
  reflexivity.
Defined.

Example request_coalesces_or_appends_witness : ∃ r, pa_records queued = [r].
Proof.
  destruct (request_coalesces_or_appends _ _ _ _ _ _ _ run_create)
    as [(existing & Hin & _)|(_ & r & Hr & _)].
  - exfalso. by apply elem_of_nil in Hin.
  - exists r. exact Hr.
Defined.

Example status_only_for_requester_witness :
  (approval_status queued caller id 110).1 = Some PermissionWaitStatus.Pending
  ∧ ((∃ r, r ∈ pa_records queued ∧ perm_id (ar_summary r) = id)
     ∨ ∃ r, r ∈ pa_resolved queued ∧ rr_id r = id).
Proof.
  split; [vm_compute; reflexivity|].
  destruct (status_only_for_requester queued caller id 110 PermissionWaitStatus.Pending queued)
    as [(r & Hr & Hid & _)|(r & Hr & Hid & _)].
  - vm_compute. reflexivity.
  - left. exact (ex_intro _ r (conj Hr Hid)).
  - right. exact (ex_intro _ r (conj Hr Hid)).
Defined.

Example approval_needs_device_signature_witness :
  ∃ challenge, signed_by device_key (permission_payload id challenge None true) signature.
Proof.
  destruct (approval_needs_device_signature device_key queued id signature lifetime 110 prov
    (∅ : DemoState) approved.1.2 approved.2) as (r & ch & a & p & e & _ & _ & _ & _ & Hs & _).
  - exact (triple_eta approved _ run_approve).
  - exists ch. exact Hs.
Defined.

Example saved_approvals_survive_witness :
  pa_records (load_approvals 120 saved.2).1
    = map forget_waiter (retain (still_pending 120) (pa_records queued)).
Proof.
  destruct (get_at Authorization PENDING_DOCUMENT_NAMESPACE pending_at 120 saved.2)
    as [[v|e] s1] eqn:Hget; [|exfalso; pose proof run_get as Hr; rewrite Hget in Hr; discriminate Hr].
  refine (saved_approvals_survive queued 110 (∅ : DemoState) saved.1.2 saved.2 120 pending_at v s1
    _ (load_approvals 120 saved.2).2 _ eq_refl _ eq_refl Hget (surjective_pairing _)).
  - split; [|exact queued_callers].
    eapply creation_wf; [exact (create_at_creation _ _ _ _ _ _ _ run_create)|].
    apply approvals_default_wf.
  - exact (triple_eta saved _ run_save).
Defined.
