(* ===== verification/Protocol.v ===== *)
(** Requests and responses of the vault protocol (src/src/vault/protocol/wire.rs),
    the error a caller sees (src/src/vault/protocol/service.rs), and permission
    pages: the server's paging and the client's reader. *)
From Stdlib Require Import ZArith Lia Bool Sorted.
From stdpp Require Import base gmap strings list.
From S2P Require Import Prelude Text Core Address Instances Wire History.

(** ** Messages *)

Record VaultRequest : Set := {
  req_version : Z;
  req_request_id : bytes;
  req_application : option VaultApplicationContext;
  req_action : VaultAction.action
}.

Module VaultResponseBody.
Inductive body : Set :=
| Status (installation_id device_vault_id device_key_id hardware_backend : string)
    (idle_deadline absolute_deadline : Z)
| VaultEntries (entries : list VaultEntryMetadata) (next_cursor : option string)
| VaultEntrySecret (value : bytes) (evict_at : option Z)
| VaultEntryImported (status : VaultEntryImportStatus.import_status)
| Secret (value : option bytes)
| Stored
| Mutated
| Deleted (existed : bool)
| Cleared (entries : Z)
| Projects (projects : list string) (next_cursor : option string)
| ProjectAddresses (addresses : list SecretSpecAddress) (next_cursor : option string)
| History (entries : list HistoryEntry) (next_cursor : option Z)
| Sealed
| ExportRevision (revision : option bytes)
| Permissions (revision : Z) (permissions : list Permission) (next_cursor : option string)
| PermissionChanged (status : PermissionChange.change)
| PermissionWait (status : PermissionWaitStatus.status).
End VaultResponseBody.

Module VaultResponseErrorCode.
Inductive code : Set :=
| InvalidRequest | AuthorizationRequired | Replay | Sealed | Conflict | Internal.
End VaultResponseErrorCode.

Record VaultResponseError : Set := {
  re_code : VaultResponseErrorCode.code;
  re_message : string;
  re_interaction : option VaultInteractionReference
}.

Record VaultResponse : Set := {
  resp_version : Z;
  resp_request_id : bytes;
  resp_result : VaultResponseBody.body + VaultResponseError;
  (** Local delivery bound and cancellation signal, never on the wire. *)
  resp_delivery_deadline : option Z;
  resp_delivery_cancelled : option bool
}.

(** [VaultRequest::with_id], [VaultResponse::success] and [VaultResponse::failure]. *)
Definition with_id (request_id : bytes) (action : VaultAction.action) : VaultRequest := {|
  req_version := PROTOCOL_VERSION; req_request_id := request_id;
  req_application := None; req_action := action |}.

Definition success (request_id : bytes) (b : VaultResponseBody.body) : VaultResponse := {|
  resp_version := PROTOCOL_VERSION; resp_request_id := request_id; resp_result := inl b;
  resp_delivery_deadline := None; resp_delivery_cancelled := None |}.

Definition failure (request_id : bytes) (e : VaultResponseError) : VaultResponse := {|
  resp_version := PROTOCOL_VERSION; resp_request_id := request_id; resp_result := inr e;
  resp_delivery_deadline := None; resp_delivery_cancelled := None |}.

(** ** Validation *)

Definition validate_fields `{Base64} (r : VaultRequest) : VaultResult () :=
  _ ← fail_if (negb (req_version r =? PROTOCOL_VERSION))
        (VaultError.Protocol "unsupported request version");
  _ ← match req_application r with
      | Some application => application_validate application
      | None => Ok tt
      end;
  action_validate (req_action r).

(** [BoundedMessageWriter::write]: the bytes still allowed after a chunk. *)
Definition bounded_write (remaining : Z) (chunk : bytes) : option Z :=
  let n := Z.of_nat (length chunk) in
  if remaining <? n then None else Some (remaining - n).

(** [serde_json::to_writer] with a bounded writer: it writes the serialization in
    chunks and stops at the first refused one. *)
Fixpoint bounded_writes (remaining : Z) (chunks : list bytes) : option Z :=
  match chunks with
  | [] => Some remaining
  | chunk :: chunks =>
      remaining ← bounded_write remaining chunk; bounded_writes remaining chunks
  end.

(** The chunks [serde_json] writes, concatenating to the serialization. *)
Class SerdeChunks (A : Type) := serde_chunks : A → result string (list bytes).
Class SerdeChunksOk (A : Type) `{Serde A} `{SerdeChunks A} : Prop :=
  serde_chunks_concat a chunks :
    serde_chunks a = Ok chunks → serde_to_vec a = Ok (concat chunks).

Definition request_validate `{Base64} `{SerdeChunks VaultRequest} (r : VaultRequest)
    : VaultResult () :=
  _ ← validate_fields r;
  match serde_chunks r with
  | Err _ => Err (VaultError.Protocol "request is too large")
  | Ok chunks =>
      match bounded_writes MAX_MESSAGE_BYTES chunks with
      | None => Err (VaultError.Protocol "request is too large")
      | Some _ => Ok tt
      end
  end.

Definition request_decode `{Base64} `{Serde VaultRequest} (b : bytes) : VaultResult VaultRequest :=
  _ ← fail_if (MAX_MESSAGE_BYTES <? Z.of_nat (length b))
        (VaultError.Protocol "request is too large");
  request ← map_err VaultError.Protocol (serde_from_slice b);
  _ ← validate_fields request;
  Ok request.

Definition response_decode `{Serde VaultResponse} (b : bytes) : VaultResult VaultResponse :=
  _ ← fail_if (MAX_MESSAGE_BYTES <? Z.of_nat (length b))
        (VaultError.Protocol "response is too large");
  response ← map_err VaultError.Protocol (serde_from_slice b);
  _ ← fail_if (negb (resp_version response =? PROTOCOL_VERSION))
        (VaultError.Protocol "unsupported response version");
  Ok response.

(** [check_delivery] when the monotonic clock reads [now]. *)
Definition check_delivery (r : VaultResponse) (now : Z) : VaultResult () :=
  _ ← fail_if (default false (resp_delivery_cancelled r)) VaultError.Sealed;
  fail_if (opt_test (λ deadline, deadline <=? now) (resp_delivery_deadline r)) VaultError.Sealed.

(** [serialize_locked]: a first pass counts and bounds the bytes, a second writes
    them to a buffer of exactly that size. *)
Definition serialize_locked `{SerdeChunks A} (a : A) (maximum : Z) : VaultResult bytes :=
  chunks ← map_err VaultError.Protocol (serde_chunks a);
  remaining ← ok_or (VaultError.Protocol "message exceeds configured bound")
                (bounded_writes maximum chunks);
  let b := concat chunks in
  _ ← fail_if (negb (Z.of_nat (length b) =? maximum - remaining))
        (VaultError.Protocol "serialized length changed");
  Ok b.

Definition request_encode `{Base64} `{SerdeChunks VaultRequest} (r : VaultRequest)
    : VaultResult bytes :=
  _ ← validate_fields r;
  serialize_locked r MAX_MESSAGE_BYTES.

(** The serialized response has no delivery fields. *)
Definition strip_delivery (r : VaultResponse) : VaultResponse := {|
  resp_version := resp_version r; resp_request_id := resp_request_id r;
  resp_result := resp_result r; resp_delivery_deadline := None;
  resp_delivery_cancelled := None |}.

Definition set_cancelled (r : VaultResponse) (cancelled : bool) : VaultResponse := {|
  resp_version := resp_version r; resp_request_id := resp_request_id r;
  resp_result := resp_result r; resp_delivery_deadline := resp_delivery_deadline r;
  resp_delivery_cancelled := (λ _, cancelled) <$> resp_delivery_cancelled r |}.

(** [VaultResponse::encode]: the delivery is checked before and after serializing;
    the shared signal reads [cancelled] and the clock [now] at the first check,
    and [cancelled'] and [now'] at the second. *)
Definition response_encode `{SerdeChunks VaultResponse} (r : VaultResponse)
    (now now' : Z) (cancelled cancelled' : bool) : VaultResult bytes :=
  _ ← check_delivery (set_cancelled r cancelled) now;
  b ← serialize_locked (strip_delivery r) MAX_MESSAGE_BYTES;
  _ ← check_delivery (set_cancelled r cancelled') now';
  Ok b.

(** ** Errors on the wire *)

Definition error_code (e : VaultError.error) : VaultResponseErrorCode.code :=
  match e with
  | VaultError.AuthorizationRequired | VaultError.ApprovalLimited =>
      VaultResponseErrorCode.AuthorizationRequired
  | VaultError.Replay => VaultResponseErrorCode.Replay
  | VaultError.Sealed | VaultError.WorkerUnavailable | VaultError.AgentUnreachable _ =>
      VaultResponseErrorCode.Sealed
  | VaultError.Conflict => VaultResponseErrorCode.Conflict
  | VaultError.EmptyAddress _ | VaultError.AddressTooLong _ _ | VaultError.Expired
  | VaultError.Protocol _ => VaultResponseErrorCode.InvalidRequest
  | _ => VaultResponseErrorCode.Internal
  end.

Definition response_error_with_interaction (e : VaultError.error)
    (interaction : option VaultInteractionReference) : VaultResponseError :=
  let code := error_code e in
  {| re_code := code;
     re_message :=
       match code, e with
       | VaultResponseErrorCode.InvalidRequest, _ => "the request is invalid"
       | VaultResponseErrorCode.AuthorizationRequired, VaultError.ApprovalLimited =>
           "approval request limit reached; retry later"
       | VaultResponseErrorCode.AuthorizationRequired, _ =>
           "application authorization is required"
       | VaultResponseErrorCode.Replay, _ => "the request was already consumed"
       | VaultResponseErrorCode.Sealed, _ => "the vault is sealed"
       | VaultResponseErrorCode.Conflict, _ => "the secret has unresolved concurrent values"
       | VaultResponseErrorCode.Internal, _ => "the vault could not complete the request"
       end;
     re_interaction := interaction |}.

Definition response_error (e : VaultError.error) : VaultResponseError :=
  response_error_with_interaction e None.

(** ** Permission pages *)

Definition PAGE_BUDGET : Z := MAX_MESSAGE_BYTES - 4096.

(** The loop of [permission_page]. *)
Fixpoint fill_page `{Serde Permission} (remaining : Z) (page permissions : list Permission)
    : VaultResult (list Permission * option string) :=
  match permissions with
  | [] => Ok (page, None)
  | permission :: permissions =>
      b ← map_err VaultError.Protocol (serde_to_vec permission);
      let size := Z.of_nat (length b) + 1 in
      if remaining <? size then
        match last page with
        | None => Err (VaultError.Protocol "permission exceeds page budget")
        | Some p => Ok (page, Some (perm_id p))
        end
      else fill_page (remaining - size) (page ++ [permission]) permissions
  end.

Definition after_cursor (cursor : option string) (p : Permission) : bool :=
  match cursor with Some cursor => str_ltb cursor (perm_id p) | None => true end.

Definition permission_page `{Serde Permission} (revision : Z) (permissions : list Permission)
    (cursor : option string) : VaultResult VaultResponseBody.body :=
  '(page, next_cursor) ← fill_page PAGE_BUDGET [] (retain (after_cursor cursor) permissions);
  Ok (VaultResponseBody.Permissions revision page next_cursor).

(** The checks of [read_permission_pages] on one page. *)
Definition check_page (expected : option Z) (cursor : option string)
    (revision : Z) (permissions : list Permission) (next_cursor : option string)
    : VaultResult () :=
  _ ← fail_if (opt_test (λ expected, negb (expected =? revision)) expected) VaultError.Conflict;
  _ ← fail_if (existsb (λ p, opt_test (λ old, negb (str_ltb old (perm_id p))) cursor) permissions
               || any_window2 (λ p q, negb (str_ltb (perm_id p) (perm_id q))) permissions)
        (VaultError.Protocol "permission page did not advance");
  fail_if (opt_test (λ next, match last permissions with
                             | Some p => negb (String.eqb (perm_id p) next)
                             | None => true
                             end) next_cursor)
    (VaultError.Protocol "invalid permission cursor").

(** The loop of [read_permission_pages], asking a server [request]; [fuel] bounds
    the number of pages. *)
Fixpoint read_pages (request : VaultAction.action → VaultResult VaultResponseBody.body)
    (fuel : nat) (action : VaultAction.action) (expected : option Z) (cursor : option string)
    (all : list Permission) : option (VaultResult (Z * list Permission)) :=
  match fuel with
  | O => None
  | S fuel =>
      match request action with
      | Err e => Some (Err e)
      | Ok (VaultResponseBody.Permissions revision permissions next_cursor) =>
          match check_page expected cursor revision permissions next_cursor with
          | Err e => Some (Err e)
          | Ok _ =>
              match next_cursor with
              | None => Some (Ok (revision, all ++ permissions))
              | Some next =>
                  read_pages request fuel (VaultAction.ListPermissionsPage revision next)
                    (Some revision) (Some next) (all ++ permissions)
              end
          end
      | Ok _ => Some (Err (VaultError.Protocol "unexpected permission-list response"))
      end
  end.

Definition read_permission_pages
    (request : VaultAction.action → VaultResult VaultResponseBody.body)
    (fuel : nat) (after_revision : option Z) : option (VaultResult (Z * list Permission)) :=
  let action :=
    match after_revision with
    | Some after_revision => VaultAction.WaitPermissions after_revision MAX_PERMISSION_WAIT_MS
    | None => VaultAction.ListPermissions
    end in
  read_pages request fuel action None None [].

(** * What the message layer guarantees: encoded requests decode to themselves
    within the bound, and reading permission pages returns the whole list. *)

(** ** Bounded writing *)

Lemma bounded_writes_Some remaining chunks r :
  bounded_writes remaining chunks = Some r →
  r = remaining - Z.of_nat (length (concat chunks))
  ∧ (chunks ≠ [] → Z.of_nat (length (concat chunks)) ≤ remaining).
Proof.
  revert remaining; induction chunks as [|c chunks IH]; intros remaining; cbn [bounded_writes concat].
  - intros [= <-]. cbn. split; [lia|done].
  - unfold bounded_write. destruct (Z.ltb_spec remaining (Z.of_nat (length c))); [done|].
    cbn. intros Hw. apply IH in Hw as [-> Hle]. rewrite length_app. split; [lia|].
    intros _. destruct chunks; cbn in *; [lia|]. specialize (Hle ltac:(done)). lia.
Qed.

Lemma bounded_writes_fits remaining chunks :
  Z.of_nat (length (concat chunks)) ≤ remaining →
  bounded_writes remaining chunks = Some (remaining - Z.of_nat (length (concat chunks))).
Proof.
  revert remaining; induction chunks as [|c chunks IH]; intros remaining; cbn [bounded_writes concat].
  - intros _. f_equal. cbn. lia.
  - rewrite length_app. intros Hle. unfold bounded_write.
    destruct (Z.ltb_spec remaining (Z.of_nat (length c))); [lia|]. cbn.
    rewrite IH by lia. f_equal. lia.
Qed.

(** Writing chunk by chunk to a bounded writer accepts exactly the messages of at
    most that many bytes. *)
Lemma bounded_writes_iff maximum chunks :
  0 ≤ maximum →
  is_Some (bounded_writes maximum chunks) ↔ Z.of_nat (length (concat chunks)) ≤ maximum.
Proof.
  intros Hmax. split.
  - intros [r Hr]. apply bounded_writes_Some in Hr as [_ Hle]. destruct chunks; cbn; [lia|by apply Hle].
  - intros Hle. rewrite bounded_writes_fits by done. eauto.
Qed.

(** What is serialized under a bound is the serialization, within it. *)
Lemma serialize_locked_Ok {A} `{Serde A, !SerdeChunks A} {Hchunks : SerdeChunksOk A} (r : A) maximum b :
  0 ≤ maximum → serialize_locked r maximum = Ok b →
  serde_to_vec r = Ok b ∧ Z.of_nat (length b) ≤ maximum.
Proof.
  intros Hmax. unfold serialize_locked. intros Hs. inv_ok. bool_prop.
  match goal with Hc : serde_chunks _ = Ok _ |- _ => apply serde_chunks_concat in Hc end.
  split; [done|]. apply bounded_writes_iff; [done|eauto].
Qed.

Section Messages.
Context `{Base64} `{SerdeOk VaultRequest} `{SerdeChunks VaultRequest}.
Context {Hchunks : SerdeChunksOk VaultRequest}.

(** An encoded request is at most a mebibyte and decodes to exactly that
    request; the service's own validation, which counts the serialized chunks,
    accepts it too. *)
Theorem encoded_request_decodes r b :
  request_encode r = Ok b →
  request_decode b = Ok r ∧ Z.of_nat (length b) ≤ MAX_MESSAGE_BYTES ∧ request_validate r = Ok tt.
Proof.
  unfold request_encode, request_decode, request_validate. intros He. inv_ok.
  pose proof (serialize_locked_Ok r MAX_MESSAGE_BYTES b ltac:(done) He) as [Hto Hle].
  split_and!; [|done|].
  - destruct (Z.ltb_spec MAX_MESSAGE_BYTES (Z.of_nat (length b))); [lia|].
    cbn. rewrite (serde_roundtrip _ _ Hto). cbn.
    match goal with Hv : validate_fields _ = Ok _ |- _ => by rewrite Hv end.
  - match goal with Hv : validate_fields _ = Ok _ |- _ => rewrite Hv end. cbn.
    unfold serialize_locked in He. inv_ok.
    repeat match goal with Hx : _ = Ok _ |- _ => rewrite Hx end.
    match goal with Hx : bounded_writes _ _ = Some _ |- _ => by rewrite Hx end.
Qed.
End Messages.

(** ** The order of ids *)

Definition ids_sorted (l : list Permission) : Prop :=
  StronglySorted (λ p q, str_ltb (perm_id p) (perm_id q) = true) l.

(** ** Pages *)

Section Pages.
Context `{Serde Permission}.

(** The permission fits in a page of its own. *)
Definition pageable (p : Permission) : Prop :=
  ∃ b, serde_to_vec p = Ok b ∧ Z.of_nat (length b) + 1 ≤ PAGE_BUDGET.

Lemma fill_page_spec remaining page perms :
  Forall pageable perms → (page = [] → remaining = PAGE_BUDGET) →
  ∃ n, (n ≤ length perms)%nat ∧
  (fill_page remaining page perms = Ok (page ++ take n perms, None) ∧ n = length perms
   ∨ ∃ p, last (page ++ take n perms) = Some p
       ∧ fill_page remaining page perms = Ok (page ++ take n perms, Some (perm_id p))).
Proof.
  revert remaining page; induction perms as [|x perms IH]; intros remaining page Hall Hpage.
  - exists O. cbn. rewrite app_nil_r. auto.
  - inversion Hall as [|? ? Hx Hrest]; subst. destruct Hx as (b & Hb & Hfit).
    cbn [fill_page]. rewrite Hb. cbn.
    destruct (Z.ltb_spec remaining (Z.of_nat (length b) + 1)) as [Hlt|Hge].
    + destruct (last page) as [p|] eqn:Hlast.
      * exists O. split; [lia|]. right. exists p. by rewrite take_0, app_nil_r.
      * apply last_None in Hlast as ->. specialize (Hpage eq_refl). lia.
    + destruct (IH (remaining - (Z.of_nat (length b) + 1)) (page ++ [x]) Hrest) as (n & Hn & Hres).
      { intros Hnil. by destruct page. }
      exists (S n). split; [cbn; lia|]. cbn [take length].
      rewrite <- app_assoc in Hres. cbn [app] in Hres. destruct Hres as [[? ->]|?]; auto.
Qed.

(** After a cursor, exactly the permissions behind it remain. *)
Lemma retain_after_cursor l k p :
  ids_sorted l → l !! k = Some p →
  retain (after_cursor (Some (perm_id p))) l = drop (S k) l.
Proof. apply (retain_after perm_id). Qed.

Lemma ids_sorted_drop n l : ids_sorted l → ids_sorted (drop n l).
Proof.
  revert n; induction l as [|x l IH]; intros [|n] Hs; try done.
  inversion Hs; subst. by apply IH.
Qed.

Lemma ids_sorted_take n l : ids_sorted l → ids_sorted (take n l).
Proof.
  revert n; induction l as [|x l IH]; intros [|n] Hs; cbn; try constructor;
    inversion Hs; subst; [by apply IH|]. by apply Forall_take.
Qed.

Lemma ids_sorted_windows l :
  ids_sorted l → any_window2 (λ p q, negb (str_ltb (perm_id p) (perm_id q))) l = false.
Proof.
  induction l as [|x [|y l] IH]; intros Hs; try done. inversion Hs as [|? ? Hl Hx]; subst.
  inversion Hx as [|? ? Hxy _]; subst. cbn [any_window2]. rewrite Hxy. by apply IH.
Qed.

(** A server whose permissions do not change: the first request gets the first
    page, a page request for the current revision what follows its cursor. *)
Definition page_server (revision : Z) (permissions : list Permission)
    (action : VaultAction.action) : VaultResult VaultResponseBody.body :=
  match action with
  | VaultAction.ListPermissions | VaultAction.WaitPermissions _ _ =>
      permission_page revision permissions None
  | VaultAction.ListPermissionsPage expected cursor =>
      if negb (revision =? expected) then Err VaultError.Conflict
      else permission_page revision permissions (Some cursor)
  | _ => Err (VaultError.Protocol "not a permission request")
  end.

(** The state of the reader after [k] permissions. *)
Definition read_so_far (revision : Z) (permissions : list Permission) (k : nat)
    (expected : option Z) (cursor : option string) : Prop :=
  match k with
  | O => cursor = None ∧ (expected = None ∨ expected = Some revision)
  | S k => expected = Some revision
      ∧ ∃ p, permissions !! k = Some p ∧ cursor = Some (perm_id p)
  end.

Lemma retain_read_so_far revision permissions k expected cursor :
  ids_sorted permissions → read_so_far revision permissions k expected cursor →
  retain (after_cursor cursor) permissions = drop k permissions.
Proof.
  intros Hs Hk. destruct k as [|k]; cbn in Hk.
  - destruct Hk as [-> _]. rewrite drop_0. clear Hs. induction permissions; cbn; congruence.
  - destruct Hk as (_ & p & Hp & ->). by apply retain_after_cursor.
Qed.

(** Every page the server sends passes the reader's checks. *)
Lemma check_page_ok revision permissions k n expected cursor next :
  ids_sorted permissions → read_so_far revision permissions k expected cursor →
  (∀ id, next = Some id →
     ∃ p, last (take n (drop k permissions)) = Some p ∧ id = perm_id p) →
  check_page expected cursor revision (take n (drop k permissions)) next = Ok tt.
Proof.
  intros Hs Hk Hnext. unfold check_page.
  assert (opt_test (λ e, negb (e =? revision)) expected = false) as ->.
  { destruct k; cbn in Hk; [destruct Hk as [_ [->| ->]]|destruct Hk as [-> _]]; cbn; try done;
      by rewrite Z.eqb_refl. }
  rewrite (ids_sorted_windows (take n (drop k permissions)))
    by (by apply ids_sorted_take, ids_sorted_drop). rewrite orb_false_r.
  assert (existsb (λ p, opt_test (λ old, negb (str_ltb old (perm_id p))) cursor)
    (take n (drop k permissions)) = false) as ->.
  { apply not_true_iff_false. rewrite existsb_exists. intros (p & Hin & Hp).
    destruct cursor as [c|]; cbn in Hp; [|done]. apply negb_true_iff in Hp.
    apply list_elem_of_In, elem_of_take in Hin as (i & Hi & _).
    rewrite <- (retain_read_so_far _ _ _ _ _ Hs Hk) in Hi.
    apply list_elem_of_lookup_2, elem_of_retain in Hi as [Hafter _]. cbn in Hafter. congruence. }
  cbn. destruct next as [id|]; cbn; [|done].
  destruct (Hnext id eq_refl) as (p & -> & ->). by rewrite String.eqb_refl.
Qed.

Lemma read_pages_complete revision permissions k expected cursor action fuel :
  ids_sorted permissions → Forall pageable permissions →
  (k ≤ length permissions)%nat → read_so_far revision permissions k expected cursor →
  page_server revision permissions action = permission_page revision permissions cursor →
  (length permissions - k < fuel)%nat →
  read_pages (page_server revision permissions) fuel action expected cursor
    (take k permissions) = Some (Ok (revision, permissions)).
Proof.
  intros Hs Hall. revert k expected cursor action.
  induction fuel as [|fuel IH]; intros k expected cursor action Hk Hread Hact Hfuel; [lia|].
  cbn [read_pages]. rewrite Hact. unfold permission_page.
  rewrite (retain_read_so_far _ _ _ _ _ Hs Hread).
  destruct (fill_page_spec PAGE_BUDGET [] (drop k permissions)) as (n & Hn & Hfill);
    [by apply Forall_drop|done|]. cbn [app] in Hfill. rewrite length_drop in Hn.
  destruct Hfill as [[-> ->]|(p & Hlast & ->)]; cbn.
  - rewrite (check_page_ok _ _ k _ _ _ None); [|done..].
    rewrite (take_ge (drop k permissions)) by lia. by rewrite take_drop.
  - rewrite (check_page_ok _ _ k n _ _ (Some (perm_id p)));
      [|done|done|intros id [= <-]; by exists p].
    assert (0 < n)%nat as Hpos by (destruct n; [done|lia]).
    rewrite take_take_drop. apply (IH (k + n)%nat (Some revision) (Some (perm_id p))
      (VaultAction.ListPermissionsPage revision (perm_id p))); [lia| |cbn; by rewrite Z.eqb_refl|lia].
    destruct (k + n)%nat as [|m] eqn:Hm; [lia|]. cbn. split; [done|]. exists p. split; [|done].
    rewrite last_lookup, length_take_le, lookup_take_lt, lookup_drop in Hlast
      by (rewrite ?length_drop; lia).
    rewrite <- Hlast. f_equal. lia.
Qed.

(** A client that reads permission pages from a server whose permissions do
    not change, sorted by id and each small enough for a page, gets the complete
    list and its revision, after at most one request more than there are
    permissions; no page is mistaken for one that did not advance. *)
Theorem permission_pages_complete revision permissions after fuel :
  ids_sorted permissions → Forall pageable permissions →
  (length permissions < fuel)%nat →
  read_permission_pages (page_server revision permissions) fuel after
    = Some (Ok (revision, permissions)).
Proof.
  intros Hs Hall Hfuel. unfold read_permission_pages.
  apply (read_pages_complete revision permissions 0 None None); [done|done|lia| | |lia].
  - cbn. auto.
  - by destruct after.
Qed.
End Pages.

Module ProtocolDemo.
Definition demo_permission (id : string) : Permission := {|
  perm_target := None; perm_id := id; perm_scope := None;
  perm_operation := PermissionOperation.Get;
  perm_principal := {| pp_platform := CallerPlatform.Linux; pp_user_id := "1000";
    pp_application_id := "app"; pp_executable_digest := []; pp_signer_id := None |};
  perm_application := {| app_project := None; app_profile := None; app_base_dir := None;
    app_reason := None; app_requested_permission_duration_seconds := None;
    app_declared_launch_chain := [] |};
  perm_state := PermissionState.Granted 0 None false |}.
(** Every permission takes more than half a page, so two need two pages. *)
Definition demo_permission_serde : Serde Permission := {|
  serde_to_vec _ := Ok (replicate (Z.to_nat 600000) Byte.x00);
  serde_from_slice _ := Err "unused" |}.
Definition demo_permissions : list Permission := [demo_permission "a"; demo_permission "b"].

Definition demo_request : VaultRequest := with_id [Byte.x01] VaultAction.Status.
(** A serializer for that request alone. *)
Definition demo_request_serde : Serde VaultRequest := {|
  serde_to_vec r :=
    match r with
    | {| req_version := 18; req_request_id := [Byte.x01]; req_application := None;
         req_action := VaultAction.Status |} => Ok (as_bytes "status")
    | _ => Err "unsupported"
    end;
  serde_from_slice _ := Ok demo_request |}.
Definition demo_request_chunks : SerdeChunks VaultRequest := λ r,
  b ← @serde_to_vec _ demo_request_serde r; Ok [take 3 b; drop 3 b].

Lemma demo_request_serde_ok : @SerdeOk VaultRequest demo_request_serde.
Proof.
  intros [v i [app|] act] b; cbn; intros Hb;
    repeat (match goal with Hb : context [match ?x with _ => _ end] |- _ =>
              destruct x end; try discriminate Hb). done.
Qed.
Lemma demo_request_chunks_ok : @SerdeChunksOk VaultRequest demo_request_serde demo_request_chunks.
Proof.
  intros r chunks. unfold serde_chunks, demo_request_chunks. intros Hc. inv_ok. cbn.
  by rewrite app_nil_r, take_drop.
Qed.
Lemma demo_pageable : @Forall Permission (@pageable demo_permission_serde) demo_permissions.
Proof.
  repeat constructor; eexists; (split; [reflexivity|]); rewrite length_replicate;
    unfold PAGE_BUDGET, MAX_MESSAGE_BYTES; lia.
Qed.
End ProtocolDemo.

Example permission_pages_complete_witness :
  @read_permission_pages (@page_server ProtocolDemo.demo_permission_serde 7
    ProtocolDemo.demo_permissions) 3 None = Some (Ok (7, ProtocolDemo.demo_permissions)).
Proof.
  apply (@permission_pages_complete ProtocolDemo.demo_permission_serde 7
    ProtocolDemo.demo_permissions None 3).
  - repeat constructor.
  - exact ProtocolDemo.demo_pageable.
  - cbn. lia.
Defined.

Example encoded_request_decodes_witness :
  @request_decode demo_base64 ProtocolDemo.demo_request_serde (as_bytes "status")
    = Ok ProtocolDemo.demo_request.
Proof.
  exact (proj1 (@encoded_request_decodes demo_base64 ProtocolDemo.demo_request_serde
    ProtocolDemo.demo_request_serde_ok ProtocolDemo.demo_request_chunks
    ProtocolDemo.demo_request_chunks_ok ProtocolDemo.demo_request (as_bytes "status") eq_refl)).
Defined.
