(* ===== verification/Actions.v ===== *)
(** Executing grant-checked vault actions
    (src/src/vault/protocol/service/actions.rs): every action is scoped to a
    document kind, checked against the stored grants, bounded by the deadline of
    the authority it used, and only then performed. *)
From Stdlib Require Import ZArith Lia Bool.
From stdpp Require Import base gmap strings list.
From S2P Require Import Prelude Core Address Clock Text Wire History StoreSpec Signature Grant.
From S2P Require Import Approvals Protocol.

(** ** Scopes *)

Definition namespace_scope (namespace : bytes) : DocumentKind :=
  if bool_decide (namespace = SECRET_SERVICE_NAMESPACE) then LinuxSecretService
  else if bool_decide (namespace = NETWORK_MANAGER_NAMESPACE) then NetworkManagerWifi
  else LocalKeyring.

Definition scope_action (action : VaultAction.action) : DocumentKind :=
  match action with
  | VaultAction.GetProject _ _ | VaultAction.PutProject _ _ _
  | VaultAction.DeleteProject _ _ | VaultAction.ListProjects _ _
  | VaultAction.ListProjectAddresses _ _ _ | VaultAction.ListProjectHistory _ _ _ _ =>
      SecretSpecProject
  | VaultAction.GetCache _ _ | VaultAction.PutCache _ _ _ _ | VaultAction.DeleteCache _ _
  | VaultAction.ClearCache _ | VaultAction.SealCache _
  | VaultAction.ListCacheHistory _ _ _ _ => SecretSpecProviderCache
  | VaultAction.Get namespace _ | VaultAction.Put namespace _ _ _
  | VaultAction.Mutate namespace _ | VaultAction.Delete namespace _
  | VaultAction.Clear namespace | VaultAction.Seal namespace
  | VaultAction.ListHistory namespace _ _ _ => namespace_scope namespace
  | _ => LocalKeyring
  end.

Definition validate_evict_at (evict_at : option Z) (now : Z) : VaultResult () :=
  fail_if (opt_test (λ deadline, deadline <? now) evict_at) VaultError.Expired.

(** ** The state of one request *)

(** The store, the deadline of the authority used so far, whether the store was
    sealed, and how often the clock was read. *)
Record RequestState (St : Type) : Type := {
  rq_store : St;
  rq_valid_until : option Z;
  rq_sealed : bool;
  rq_ticks : nat
}.
Arguments rq_store {St} _.
Arguments rq_valid_until {St} _.
Arguments rq_sealed {St} _.
Arguments rq_ticks {St} _.

(** What [Status] tells about the device. *)
Record DeviceInfo : Set := {
  di_installation_id : string;
  di_device_vault_id : string;
  di_device_key_id : string;
  di_hardware_backend : string
}.

Section Actions.
Context `{Sha256, Base64}.
Context `{Serde AccessGrant, Serde PermissionRegistry}.
Context `{VaultStore St}.

(** The request's clock, and the instants and system times its readings see. *)
Context (clock : RequestTime) (readings : nat → Z * Z).
Context (device : DeviceInfo).

Abbreviation AM := (SM (RequestState St)).

(** The wall time of the [n]-th reading ([RequestTime::wall]). *)
Definition wall_at (n : nat) : Z :=
  (sample_at clock (readings n).1 (readings n).2 (readings n).1).1.

Definition wall : AM Z := λ st,
  (Ok (wall_at (rq_ticks st)),
   {| rq_store := rq_store st; rq_valid_until := rq_valid_until st;
      rq_sealed := rq_sealed st; rq_ticks := S (rq_ticks st) |}).

Definition on_store {A} (m : SM St A) : AM A := λ st,
  let '(r, s) := m (rq_store st) in
  (r, {| rq_store := s; rq_valid_until := rq_valid_until st;
         rq_sealed := rq_sealed st; rq_ticks := rq_ticks st |}).

Definition store_seal : AM () := λ st,
  (Ok tt, {| rq_store := rq_store st; rq_valid_until := rq_valid_until st;
             rq_sealed := true; rq_ticks := rq_ticks st |}).

Definition tighten_valid_until (deadline : option Z) : AM () := λ st,
  (Ok tt, {| rq_store := rq_store st; rq_valid_until := tighten (rq_valid_until st) deadline;
             rq_sealed := rq_sealed st; rq_ticks := rq_ticks st |}).

(** [clock.check(valid_until.get())]: the clock is read only if there is a
    deadline. *)
Definition check_valid_until : AM () := λ st,
  match rq_valid_until st with
  | None => (Ok tt, st)
  | Some deadline => (now ← wall; lift (check_deadline now (Some deadline))) st
  end.

Definition accept_deadline (deadline : option Z) : AM () :=
  _ ← tighten_valid_until deadline;
  check_valid_until.

(** ** Authorization of one action *)

Context (caller : CallerIdentity).

Definition require_until (requirement : GrantRequirement) : AM () :=
  now ← wall;
  deadline ← on_store (require_grant_until caller requirement now);
  accept_deadline deadline.

Definition namespace_requirement (scope : DocumentKind) (namespace : bytes)
    (address : option SecretAddress) (permission : GrantPermission.permission)
    : GrantRequirement := {|
  gr_scope := scope; gr_namespace := Some namespace; gr_address := address;
  gr_project := None; gr_base_dir := None; gr_permission := permission |}.

Definition project_requirement (scope : DocumentKind) (project : string)
    (address : option SecretAddress) (base_dir : option string)
    (permission : GrantPermission.permission) : GrantRequirement := {|
  gr_scope := scope; gr_namespace := Some (as_bytes project); gr_address := address;
  gr_project := Some project; gr_base_dir := base_dir; gr_permission := permission |}.

Definition kind_requirement (scope : DocumentKind) (permission : GrantPermission.permission)
    : GrantRequirement := {|
  gr_scope := scope; gr_namespace := None; gr_address := None;
  gr_project := None; gr_base_dir := None; gr_permission := permission |}.

Definition manager_requirement : GrantRequirement :=
  namespace_requirement Authorization PERMISSION_CONTROL_NAMESPACE None
    GrantPermission.ManagePermissions.

Context (scope : DocumentKind) (base_dir : option string).
Context (provenance : Provenance.provenance).

Definition require (namespace : bytes) (address : option SecretAddress)
    (permission : GrantPermission.permission) : AM () :=
  require_until (namespace_requirement scope namespace address permission).

Definition require_project (project : string) (address : option SecretAddress)
    (permission : GrantPermission.permission) : AM () :=
  require_until (project_requirement scope project address base_dir permission).

Definition require_kind (permission : GrantPermission.permission) : AM () :=
  require_until (kind_requirement scope permission).

(** ** The operations *)

(** Read a record and hold the response to its expiry. *)
Definition read_secret (namespace : bytes) (address : SecretAddress) : AM (option bytes) :=
  now ← wall;
  stored ← on_store (get_with_deadline scope namespace address now);
  match stored with
  | None => mret None
  | Some secret =>
      _ ← accept_deadline (ss_expires_at secret);
      mret (Some (ss_value secret))
  end.

Definition do_get (namespace : bytes) (address : WireSecretAddress) : AM VaultResponseBody.body :=
  address ← lift (resolve address);
  _ ← require namespace (Some address) GrantPermission.Get;
  value ← read_secret namespace address;
  mret (VaultResponseBody.Secret value).

Definition get_secret_spec (project : string) (address : SecretSpecAddress)
    : AM VaultResponseBody.body :=
  address ← lift (address_secret_spec address);
  _ ← require_project project (Some address) GrantPermission.Get;
  value ← read_secret (as_bytes project) address;
  mret (VaultResponseBody.Secret value).

Definition do_put (namespace : bytes) (address : WireSecretAddress) (value : bytes)
    (evict_at : option Z) : AM VaultResponseBody.body :=
  address ← lift (resolve address);
  _ ← require namespace (Some address) GrantPermission.Put;
  now ← wall;
  _ ← lift (validate_evict_at evict_at now);
  now ← wall;
  _ ← on_store (put_at scope namespace address value evict_at provenance now);
  mret VaultResponseBody.Stored.

Definition put_secret_spec (project : string) (address : SecretSpecAddress) (value : bytes)
    (evict_at : option Z) : AM VaultResponseBody.body :=
  address ← lift (address_secret_spec address);
  now ← wall;
  _ ← lift (validate_evict_at evict_at now);
  now ← wall;
  deadline ← on_store (require_grant_consuming caller
    (project_requirement scope project (Some address) base_dir GrantPermission.Put)
    now provenance);
  _ ← accept_deadline deadline;
  now ← wall;
  _ ← on_store (put_at scope (as_bytes project) address value evict_at provenance now);
  mret VaultResponseBody.Stored.

(** The digest check of [VaultMutation::Check]. *)
Definition check_mutation (namespace : bytes) (address : SecretAddress)
    (expected_sha256 : option bytes) : AM () :=
  now ← wall;
  current ← on_store (get_with_deadline scope namespace address now);
  _ ← match current with
      | Some current => accept_deadline (ss_expires_at current)
      | None => mret tt
      end;
  lift (fail_if (negb (bool_decide ((λ c, sha256 (ss_value c)) <$> current = expected_sha256)))
          VaultError.Conflict).

Fixpoint prepare_mutations (namespace : bytes) (mutations : list VaultMutation.mutation)
    : AM (list DocumentOperation.document_operation) :=
  match mutations with
  | [] => mret []
  | mutation :: mutations =>
      operations ←
        match mutation with
        | VaultMutation.Check address expected_sha256 =>
            address ← lift (resolve address);
            _ ← require namespace (Some address) GrantPermission.Get;
            _ ← check_mutation namespace address expected_sha256;
            mret []
        | VaultMutation.Put address value evict_at =>
            address ← lift (resolve address);
            _ ← require namespace (Some address) GrantPermission.Put;
            now ← wall;
            _ ← lift (validate_evict_at evict_at now);
            mret [DocumentOperation.Put address value evict_at]
        | VaultMutation.Delete address =>
            address ← lift (resolve address);
            _ ← require namespace (Some address) GrantPermission.Delete;
            mret [DocumentOperation.Delete address]
        end;
      rest ← prepare_mutations namespace mutations;
      mret (operations ++ rest)
  end.

Definition do_mutate (namespace : bytes) (mutations : list VaultMutation.mutation)
    : AM VaultResponseBody.body :=
  operations ← prepare_mutations namespace mutations;
  now ← wall;
  _ ← on_store (mutate scope namespace operations provenance now);
  mret VaultResponseBody.Mutated.

Definition do_delete (namespace : bytes) (address : WireSecretAddress)
    : AM VaultResponseBody.body :=
  address ← lift (resolve address);
  _ ← require namespace (Some address) GrantPermission.Delete;
  now ← wall;
  existed ← on_store (delete_at scope namespace address provenance now);
  mret (VaultResponseBody.Deleted existed).

Definition delete_secret_spec (project : string) (address : SecretSpecAddress)
    : AM VaultResponseBody.body :=
  address ← lift (address_secret_spec address);
  _ ← require_project project (Some address) GrantPermission.Delete;
  now ← wall;
  existed ← on_store (delete_at scope (as_bytes project) address provenance now);
  mret (VaultResponseBody.Deleted existed).

Definition do_clear (namespace : bytes) : AM VaultResponseBody.body :=
  _ ← require namespace None GrantPermission.Clear;
  now ← wall;
  entries ← on_store (clear_at scope namespace provenance now);
  mret (VaultResponseBody.Cleared entries).

Definition do_list_projects (cursor : option string) (limit : Z) : AM VaultResponseBody.body :=
  _ ← require_kind GrantPermission.List;
  now ← wall;
  page ← on_store (list_projects cursor limit now);
  mret (VaultResponseBody.Projects (sp_items page) (sp_next_cursor page)).

Definition do_list_project_addresses (project : string) (cursor : option string) (limit : Z)
    : AM VaultResponseBody.body :=
  _ ← require_project project None GrantPermission.List;
  now ← wall;
  page ← on_store (list_project_addresses project cursor limit now);
  mret (VaultResponseBody.ProjectAddresses (sp_items page) (sp_next_cursor page)).

Definition do_seal (namespace : bytes) : AM VaultResponseBody.body :=
  _ ← require namespace None GrantPermission.Seal;
  _ ← store_seal;
  mret VaultResponseBody.Sealed.

(** *** History *)

Definition redact_entry (reader : PermissionPrincipal) (e : HistoryEntry) : HistoryEntry :=
  match he_provenance e with
  | Provenance.Caller principal _ =>
      if bool_decide (principal = reader) then e
      else {| he_version := he_version e; he_seq := he_seq e; he_at := he_at e;
              he_operation := he_operation e; he_address := he_address e;
              he_version_id := he_version_id e;
              he_previous_version_id := he_previous_version_id e;
              he_evict_at := he_evict_at e; he_provenance := Provenance.Redacted;
              he_device_key_id := he_device_key_id e |}
  | _ => e
  end.

(** A permission manager sees every principal, any other reader its own. *)
Definition redact_history (entries : list HistoryEntry) : AM (list HistoryEntry) :=
  now ← wall;
  manager ← catch (on_store (require_grant_until caller manager_requirement now)) (λ r,
    match r with
    | Ok deadline => _ ← accept_deadline deadline; mret true
    | Err VaultError.AuthorizationRequired => mret false
    | Err e => lift (Err e)
    end);
  mret (if (manager : bool) then entries else map (redact_entry (principal_from caller)) entries).

Definition do_list_history (namespace : bytes) (address : option SecretAddress)
    (before_seq : option Z) (limit : Z) : AM VaultResponseBody.body :=
  page ← on_store (list_history scope namespace address before_seq limit);
  entries ← redact_history (hp_items page);
  mret (VaultResponseBody.History entries (hp_next_before_seq page)).

Definition history (action : VaultAction.action) : option (AM VaultResponseBody.body) :=
  match action with
  | VaultAction.ListHistory namespace address cursor limit =>
      Some (address ← lift (opt_try resolve address);
            _ ← require namespace None GrantPermission.List;
            do_list_history namespace address cursor limit)
  | VaultAction.ListProjectHistory project address cursor limit
  | VaultAction.ListCacheHistory project address cursor limit =>
      Some (address ← lift (opt_try address_secret_spec address);
            _ ← require_project project None GrantPermission.List;
            do_list_history (as_bytes project) address cursor limit)
  | _ => None
  end.

(** ** Dispatch *)

Definition refresh {A} (refreshes : bool) (m : AM A) : AM (A * bool) :=
  a ← m; mret (a, refreshes).

(** [execute_action] once the action's scope is known: the response body and
    whether the lease is refreshed.  [None] stands for the actions handled before
    execution, which the code declares unreachable here. *)
Definition execute_scoped (action : VaultAction.action) (lease_deadlines : Z * Z)
    : option (AM (VaultResponseBody.body * bool)) :=
  match action with
  | VaultAction.Status =>
      Some (mret (VaultResponseBody.Status (di_installation_id device)
        (di_device_vault_id device) (di_device_key_id device) (di_hardware_backend device)
        lease_deadlines.1 lease_deadlines.2, false))
  | VaultAction.Get namespace address => Some (refresh true (do_get namespace address))
  | VaultAction.Put namespace address value evict_at =>
      Some (refresh true (do_put namespace address value evict_at))
  | VaultAction.Mutate namespace mutations => Some (refresh true (do_mutate namespace mutations))
  | VaultAction.Delete namespace address => Some (refresh true (do_delete namespace address))
  | VaultAction.Clear namespace => Some (refresh true (do_clear namespace))
  | VaultAction.Seal namespace => Some (refresh false (do_seal namespace))
  | VaultAction.GetProject project address | VaultAction.GetCache project address =>
      Some (refresh true (get_secret_spec project address))
  | VaultAction.PutProject project address value =>
      Some (refresh true (put_secret_spec project address value None))
  | VaultAction.PutCache project address value evict_at =>
      Some (refresh true (put_secret_spec project address value evict_at))
  | VaultAction.DeleteProject project address | VaultAction.DeleteCache project address =>
      Some (refresh true (delete_secret_spec project address))
  | VaultAction.ListProjects cursor limit => Some (refresh true (do_list_projects cursor limit))
  | VaultAction.ListProjectAddresses project cursor limit =>
      Some (refresh true (do_list_project_addresses project cursor limit))
  | VaultAction.ListHistory _ _ _ _ | VaultAction.ListProjectHistory _ _ _ _
  | VaultAction.ListCacheHistory _ _ _ _ => refresh true <$> history action
  | VaultAction.ClearCache project => Some (refresh true (do_clear (as_bytes project)))
  | VaultAction.SealCache project => Some (refresh false (do_seal (as_bytes project)))
  | _ => None
  end.
End Actions.

Definition execute_action `{Sha256, Base64} `{Serde AccessGrant, Serde PermissionRegistry}
    `{VaultStore St} (clock : RequestTime) (readings : nat → Z * Z) (device : DeviceInfo)
    (caller : CallerIdentity) (action : VaultAction.action) (lease_deadlines : Z * Z)
    (provenance : Provenance.provenance) (base_dir : option string)
    : option (SM (RequestState St) (VaultResponseBody.body * bool)) :=
  execute_scoped clock readings device caller (scope_action action) base_dir provenance
    action lease_deadlines.
