(* ===== verification/ActionProofs.v ===== *)
(** What executing an action guarantees: nothing is done or revealed without a
    stored grant for it, the response is valid no longer than the authority it
    used, reads return what is stored, groups of changes are atomic and checked,
    and history hides other callers. *)
From Stdlib Require Import ZArith Lia Bool.
From stdpp Require Import base gmap strings list.
From S2P Require Import Prelude Core Address Clock Text Wire History StoreSpec Signature Grant.
From S2P Require Import GrantProofs Approvals Protocol Actions.

(** ** Deadlines *)

(** [v'] is no later than [v]. *)
Definition tightened (v v' : option Z) : Prop :=
  ∀ d, v = Some d → ∃ d', v' = Some d' ∧ d' ≤ d.

Lemma tightened_refl v : tightened v v.
Proof. intros d ->. by exists d. Qed.

Lemma tightened_trans a b c : tightened a b → tightened b c → tightened a c.
Proof. intros Hab Hbc d Hd. destruct (Hab d Hd) as (d1 & Hd1 & ?).
  destruct (Hbc d1 Hd1) as (d2 & ? & ?). exists d2. split; [done|lia]. Qed.

Lemma tighten_tightened v d : tightened v (tighten v d) ∧ tightened d (tighten v d).
Proof.
  unfold tighten, tightened. destruct d as [d|], v as [v|]; cbn; split; intros x [= <-];
    eexists; (split; [done|lia]).
Qed.

(** What a successful step asks for. *)
Definition for_ok {A B} (x : VaultResult A) (f : A → B) : list B :=
  match x with Ok a => [f a] | Err _ => [] end.

Lemma scope_action_not_authorization a : scope_action a ≠ Authorization.
Proof. destruct a; cbn; unfold namespace_scope; repeat case_bool_decide; done. Qed.

Section ActionProofs.
Context `{Sha256Ok, Base64Ok}.
Context `{SerdeOk AccessGrant, SerdeOk PermissionRegistry}.
Context `{VaultStore St} `{!VaultStoreOk St}.
Context (clock : RequestTime) (readings : nat → Z * Z) (device : DeviceInfo).
Context (caller : CallerIdentity).

Abbreviation RS := (RequestState St).
Abbreviation AM := (SM RS).
Abbreviation wall_at := (wall_at clock readings).

(** The grants a request state stores. *)
Definition grants_in (st : RS) : DocumentView := grants_of (view (rq_store st)).

(** Steps that leave the grants alone: the clock moves on and the deadline can
    only come closer. *)
Definition frame (st st' : RS) : Prop :=
  (rq_ticks st ≤ rq_ticks st')%nat
  ∧ tightened (rq_valid_until st) (rq_valid_until st')
  ∧ grants_in st' = grants_in st.

Lemma frame_refl st : frame st st.
Proof. split_and!; [lia|apply tightened_refl|done]. Qed.

Lemma frame_trans st1 st2 st3 : frame st1 st2 → frame st2 st3 → frame st1 st3.
Proof.
  intros (? & ? & Hg) (? & ? & Hg'). split_and!; [lia|by eapply tightened_trans|by rewrite Hg'].
Qed.

(** Between two states a grant for the requirement was found at one of the clock
    readings, and the deadline respects its expiry. *)
Definition used (r : GrantRequirement) (single : bool) (st st' : RS) : Prop :=
  ∃ n t e, (rq_ticks st ≤ n < rq_ticks st')%nat
    ∧ granted (grants_in st) caller r (wall_at n) single t e
    ∧ tightened e (rq_valid_until st').

Lemma used_frame r single st0 st1 st2 st3 :
  frame st0 st1 → used r single st1 st2 → frame st2 st3 → used r single st0 st3.
Proof.
  intros (? & _ & Hg) (n & t & e & Hn & Ht & He) (? & Htight & _).
  exists n, t, e. rewrite Hg in Ht. split_and!; [lia|lia|done|by eapply tightened_trans].
Qed.

(** A computation that frames the grants and, when it succeeds, has used a grant
    for each of the requirements. *)
Definition uses {A} (m : AM A) (rs : list GrantRequirement) : Prop :=
  ∀ st a st', m st = (Ok a, st') →
    frame st st' ∧ ∀ r, r ∈ rs → used r false st st'.

Lemma uses_ret {A} (a : A) : uses (mret a) [].
Proof. intros st a' st' [= -> <-]. split; [apply frame_refl|]. intros r Hr. by apply elem_of_nil in Hr. Qed.

Lemma uses_lift {A} (x : VaultResult A) : uses (lift x) [].
Proof. intros st a st' Hl. apply lift_Ok in Hl as [_ ->]. by apply (uses_ret a st a st). Qed.

Lemma uses_bind {A B} (m : AM A) (f : A → AM B) rs rs' :
  uses m rs → (∀ a, uses (f a) rs') → uses (m ≫= f) (rs ++ rs').
Proof.
  intros Hm Hf st b st' Hb. apply sm_bind_Ok in Hb as (a & st1 & Ha & Hb).
  apply Hm in Ha as [Hfr Hu]. apply Hf in Hb as [Hfr' Hu'].
  split; [by eapply frame_trans|]. intros r. rewrite elem_of_app. intros [Hr|Hr].
  - eapply used_frame; [apply frame_refl|by apply Hu|done].
  - eapply used_frame; [done|by apply Hu'|apply frame_refl].
Qed.

(** A pure step whose value decides what is needed. *)
Lemma uses_bind_lift {A B} (x : VaultResult A) (f : A → AM B) rs :
  (∀ a, x = Ok a → uses (f a) rs) → uses (lift x ≫= f) rs.
Proof.
  intros Hf st b st' Hb. apply sm_bind_Ok in Hb as (a & st1 & Ha & Hb).
  apply lift_Ok in Ha as [Hx ->]. by eapply Hf.
Qed.

Lemma uses_bind_nil {A B} (m : AM A) (f : A → AM B) rs :
  uses m [] → (∀ a, uses (f a) rs) → uses (m ≫= f) rs.
Proof. apply uses_bind. Qed.

Lemma uses_then {A B} (m : AM A) (f : A → AM B) rs :
  uses m rs → (∀ a, uses (f a) []) → uses (m ≫= f) rs.
Proof. intros Hm Hf. rewrite <- (app_nil_r rs). by apply uses_bind. Qed.

Lemma uses_wall : uses (wall clock readings) [].
Proof.
  intros st a st' [= <- <-]. split; [|intros r Hr; by apply elem_of_nil in Hr].
  split_and!; cbn; [lia|apply tightened_refl|done].
Qed.

(** A store operation that leaves the authorization documents alone. *)
Lemma uses_on_store {A} (m : SM St A) :
  (∀ s r s', m s = (r, s') → grants_of (view s') = grants_of (view s)) →
  uses (on_store m) [].
Proof.
  intros Hm st a st'. unfold on_store. destruct (m (rq_store st)) as [r s] eqn:Hs.
  intros [= -> <-]. split; [|intros r' Hr; by apply elem_of_nil in Hr].
  split_and!; cbn; [lia|apply tightened_refl|]. unfold grants_in. cbn. by eapply Hm.
Qed.

Lemma check_valid_until_Ok (st : RS) a (st' : RS) :
  check_valid_until clock readings st = (Ok a, st') →
  rq_store st' = rq_store st ∧ rq_valid_until st' = rq_valid_until st
  ∧ (rq_ticks st ≤ rq_ticks st')%nat
  ∧ ∀ d, rq_valid_until st = Some d → wall_at (rq_ticks st) < d.
Proof.
  unfold check_valid_until. destruct (rq_valid_until st) as [d|] eqn:Hv.
  - intros Hc. apply sm_bind_Ok in Hc as (now & st1 & [= <- <-] & Hc).
    apply lift_Ok in Hc as [Hc ->]. cbn. split_and!; [done|done|lia|].
    unfold check_deadline in Hc. apply fail_if_Ok, Z.leb_gt in Hc. by intros ? [= <-].
  - intros [= _ <-]. done.
Qed.

Lemma accept_deadline_Ok deadline (st : RS) a (st' : RS) :
  accept_deadline clock readings deadline st = (Ok a, st') →
  rq_store st' = rq_store st ∧ (rq_ticks st ≤ rq_ticks st')%nat
  ∧ tightened (rq_valid_until st) (rq_valid_until st') ∧ tightened deadline (rq_valid_until st').
Proof.
  unfold accept_deadline. intros Ha. apply sm_bind_Ok in Ha as ([] & st1 & [= <-] & Ha).
  apply check_valid_until_Ok in Ha as (Hs & Hv & Ht & _). cbn in *. rewrite Hv.
  destruct (tighten_tightened (rq_valid_until st) deadline). done.
Qed.

Lemma uses_accept deadline : uses (accept_deadline clock readings deadline) [].
Proof.
  intros st a st' Ha. apply accept_deadline_Ok in Ha as (Hs & Ht & Hv & _).
  split; [|intros r Hr; by apply elem_of_nil in Hr].
  split_and!; [done|done|]. unfold grants_in. by rewrite Hs.
Qed.

Lemma uses_require r : uses (require_until clock readings caller r) [r].
Proof.
  intros st a st' Hr. unfold require_until in Hr.
  apply sm_bind_Ok in Hr as (now & st1 & [= <- <-] & Hr).
  apply sm_bind_Ok in Hr as (deadline & st2 & Hg & Hr). unfold on_store in Hg. cbn in Hg.
  destruct (require_grant_until caller r _ (rq_store st)) as [x s] eqn:Hreq.
  injection Hg as -> <-. apply accept_deadline_Ok in Hr as (Hs & Ht & Hv & Hd). cbn in *.
  rewrite require_grant_until_found in Hreq.
  apply find_grant_granted in Hreq as [Hview (t & Hgr)]. split.
  - split_and!; [lia|done|]. unfold grants_in, grants_of. by rewrite Hs.
  - intros r'. rewrite list_elem_of_singleton. intros ->.
    exists (rq_ticks st), t, deadline. split_and!; [lia|lia|done|done].
Qed.

(** ** Store operations of an action *)

Context (scope : DocumentKind) (Hscope : scope ≠ Authorization).
Context (base_dir : option string) (provenance : Provenance.provenance).

Lemma grants_elsewhere v v' p :
  same_elsewhere v v' scope p → grants_of v' = grants_of v.
Proof. intros Hsame. apply Hsame. intros [= Heq _]. by destruct Hscope. Qed.

Lemma uses_get_with_deadline p a now : uses (on_store (get_with_deadline scope p a now)) [].
Proof.
  apply uses_on_store. intros s r s' Hg. apply get_with_deadline_law in Hg as [Hsame _].
  by eapply grants_elsewhere.
Qed.

Lemma uses_put_at p a v e prov now : uses (on_store (put_at scope p a v e prov now)) [].
Proof.
  apply uses_on_store. intros s r s' Hg. apply put_at_law in Hg as [Hsame _].
  by eapply grants_elsewhere.
Qed.

Lemma uses_mutate p ops prov now : uses (on_store (mutate scope p ops prov now)) [].
Proof.
  apply uses_on_store. intros s r s' Hg. apply mutate_law in Hg as [Hsame _].
  by eapply grants_elsewhere.
Qed.

Lemma uses_delete_at p a prov now : uses (on_store (delete_at scope p a prov now)) [].
Proof.
  apply uses_on_store. intros s r s' Hg. apply delete_at_law in Hg as [Hsame _].
  by eapply grants_elsewhere.
Qed.

Lemma uses_clear_at p prov now : uses (on_store (clear_at scope p prov now)) [].
Proof.
  apply uses_on_store. intros s r s' Hg. apply clear_at_law in Hg as [Hsame _].
  by eapply grants_elsewhere.
Qed.

Lemma uses_list_projects c l now : uses (on_store (list_projects c l now)) [].
Proof. apply uses_on_store. intros s r s' Hg. by eapply list_projects_law in Hg. Qed.

Lemma uses_list_project_addresses p c l now :
  uses (on_store (list_project_addresses p c l now)) [].
Proof. apply uses_on_store. intros s r s' Hg. by eapply list_project_addresses_law in Hg. Qed.

Lemma uses_list_history p a b l : uses (on_store (list_history scope p a b l)) [].
Proof.
  apply uses_on_store. intros s r s' Hg. unfold grants_of. by rewrite (list_history_law _ _ _ _ _ _ _ _ Hg).
Qed.

Lemma uses_store_seal : uses store_seal [].
Proof.
  intros st a st' [= <- <-]. split; [|intros r Hr; by apply elem_of_nil in Hr].
  split_and!; cbn; [lia|apply tightened_refl|done].
Qed.

(** A step that needs nothing. *)
Ltac uses_step :=
  first
    [ apply uses_ret | apply uses_lift | apply uses_wall | apply uses_accept
    | apply uses_get_with_deadline | apply uses_put_at | apply uses_mutate
    | apply uses_delete_at | apply uses_clear_at | apply uses_list_projects
    | apply uses_list_project_addresses | apply uses_list_history | apply uses_store_seal ].

(** Everything after the last authorization. *)
Ltac uses_rest := repeat (intros; apply uses_bind_nil; [uses_step|]); intros; uses_step.

(** ** What each action needs *)

(** The requirements of one group member. *)
Definition mutation_requirements (namespace : bytes) (m : VaultMutation.mutation)
    : list GrantRequirement :=
  match m with
  | VaultMutation.Check a _ => for_ok (resolve a) (λ a,
      namespace_requirement scope namespace (Some a) GrantPermission.Get)
  | VaultMutation.Put a _ _ => for_ok (resolve a) (λ a,
      namespace_requirement scope namespace (Some a) GrantPermission.Put)
  | VaultMutation.Delete a => for_ok (resolve a) (λ a,
      namespace_requirement scope namespace (Some a) GrantPermission.Delete)
  end.

(** The requirements of an action: one grant for each entry, project, namespace or
    kind it reads or changes. *)
Definition action_requirements (action : VaultAction.action) : list GrantRequirement :=
  let on_entry n a p := for_ok (resolve a) (λ a, namespace_requirement scope n (Some a) p) in
  let on_project pr a p :=
    for_ok (address_secret_spec a) (λ a, project_requirement scope pr (Some a) base_dir p) in
  match action with
  | VaultAction.Get n a => on_entry n a GrantPermission.Get
  | VaultAction.Put n a _ _ => on_entry n a GrantPermission.Put
  | VaultAction.Delete n a => on_entry n a GrantPermission.Delete
  | VaultAction.Mutate n ms => ms ≫= mutation_requirements n
  | VaultAction.Clear n => [namespace_requirement scope n None GrantPermission.Clear]
  | VaultAction.Seal n => [namespace_requirement scope n None GrantPermission.Seal]
  | VaultAction.ClearCache pr =>
      [namespace_requirement scope (as_bytes pr) None GrantPermission.Clear]
  | VaultAction.SealCache pr =>
      [namespace_requirement scope (as_bytes pr) None GrantPermission.Seal]
  | VaultAction.GetProject pr a | VaultAction.GetCache pr a => on_project pr a GrantPermission.Get
  | VaultAction.PutProject pr a _ | VaultAction.PutCache pr a _ _ =>
      on_project pr a GrantPermission.Put
  | VaultAction.DeleteProject pr a | VaultAction.DeleteCache pr a =>
      on_project pr a GrantPermission.Delete
  | VaultAction.ListProjects _ _ => [kind_requirement scope GrantPermission.List]
  | VaultAction.ListProjectAddresses pr _ _ =>
      [project_requirement scope pr None base_dir GrantPermission.List]
  | VaultAction.ListHistory n _ _ _ => [namespace_requirement scope n None GrantPermission.List]
  | VaultAction.ListProjectHistory pr _ _ _ | VaultAction.ListCacheHistory pr _ _ _ =>
      [project_requirement scope pr None base_dir GrantPermission.List]
  | _ => []
  end.

(** The two actions that may spend a single-use grant. *)
Definition may_spend (action : VaultAction.action) : bool :=
  match action with
  | VaultAction.PutProject _ _ _ | VaultAction.PutCache _ _ _ _ => true
  | _ => false
  end.

Lemma uses_read_secret p a :
  uses (read_secret clock readings scope p a) [].
Proof.
  unfold read_secret. apply uses_bind_nil; [uses_step|]. intros now.
  apply uses_bind_nil; [uses_step|]. intros [secret|]; uses_rest.
Qed.

Lemma uses_check_mutation p a e : uses (check_mutation clock readings scope p a e) [].
Proof.
  unfold check_mutation. apply uses_bind_nil; [uses_step|]. intros now.
  apply uses_bind_nil; [uses_step|]. intros c. apply uses_bind_nil; [destruct c; uses_step|].
  intros. uses_step.
Qed.

Lemma uses_prepare_mutations namespace ms :
  uses (prepare_mutations clock readings caller scope namespace ms)
    (ms ≫= mutation_requirements namespace).
Proof.
  induction ms as [|m ms IH]; cbn [prepare_mutations]; [apply uses_ret|].
  change (uses (prepare_mutations clock readings caller scope namespace (m :: ms))
    (mutation_requirements namespace m ++ (ms ≫= mutation_requirements namespace))).
  cbn [prepare_mutations]. apply uses_bind; [|intros ops; apply uses_then; [done|intros; uses_step]].
  destruct m as [a e|a v e|a]; cbn [mutation_requirements];
    apply uses_bind_lift; intros a' ->; cbn; apply uses_then;
    try (apply uses_require); intros.
  - apply uses_bind_nil; [apply uses_check_mutation|]. uses_rest.
  - uses_rest.
  - uses_rest.
Qed.

Lemma uses_redact_history es : uses (redact_history clock readings caller es) [].
Proof.
  unfold redact_history. apply uses_bind_nil; [uses_step|]. intros now.
  apply uses_bind_nil; [|intros; uses_step].
  intros st a st' Hc. unfold catch, on_store in Hc.
  destruct (require_grant_until caller manager_requirement now (rq_store st)) as [r s1] eqn:Hreq.
  pose proof (require_grant_until_view _ _ _ _ _ _ Hreq) as Hview. cbv zeta in Hc.
  set (st1' := {| rq_store := s1; rq_valid_until := rq_valid_until st;
    rq_sealed := rq_sealed st; rq_ticks := rq_ticks st |}) in Hc.
  assert (frame st st1') as Hframe.
  { split_and!; cbn; [lia|apply tightened_refl|]. unfold grants_in, grants_of. cbn. apply Hview. }
  assert (frame st1' st') as Hframe'.
  { destruct r as [deadline|e].
    - apply (uses_bind_nil (accept_deadline clock readings deadline) (λ _, mret true) [])
        in Hc as [? _]; [done|uses_step|intros; uses_step].
    - destruct e; unfold lift, mret, sm_ret in Hc; try discriminate Hc.
      injection Hc as _ <-. apply frame_refl. }
  split; [by eapply frame_trans|]. intros x Hx. by apply elem_of_nil in Hx.
Qed.

Lemma uses_refresh {A} b (m : AM A) rs : uses m rs → uses (refresh b m) rs.
Proof. intros Hm. apply uses_then; [done|]. intros. uses_step. Qed.

Lemma uses_history_page p a b l :
  uses (do_list_history clock readings caller scope p a b l) [].
Proof.
  unfold do_list_history. apply uses_bind_nil; [uses_step|]. intros page.
  apply uses_bind_nil; [apply uses_redact_history|]. intros. uses_step.
Qed.

(** Authorize, then act. *)
Ltac uses_action :=
  unfold do_get, get_secret_spec, do_put, do_delete, delete_secret_spec, do_clear,
    do_list_projects, do_list_project_addresses, do_seal, require, require_project, require_kind;
  try (apply uses_bind_lift; intros ? ->; cbn [for_ok]);
  apply uses_then; [apply uses_require|intros].

Lemma uses_execute action lease m :
  execute_scoped clock readings device caller scope base_dir provenance action lease = Some m →
  may_spend action = false → uses m (action_requirements action).
Proof.
  destruct action; intros Hm Hspend; try discriminate Hspend; try discriminate Hm;
    injection Hm as <-; try apply uses_refresh; cbn [action_requirements].
  - apply uses_ret.
  - uses_action. apply uses_bind_nil; [apply uses_read_secret|]. uses_rest.
  - uses_action. uses_rest.
  - apply uses_then; [apply uses_prepare_mutations|]. uses_rest.
  - uses_action. uses_rest.
  - uses_action. uses_rest.
  - uses_action. apply uses_bind_nil; [apply uses_read_secret|]. uses_rest.
  - uses_action. uses_rest.
  - uses_action. uses_rest.
  - uses_action. uses_rest.
  - apply uses_bind_nil; [uses_step|]. intros. uses_action. apply uses_history_page.
  - apply uses_bind_nil; [uses_step|]. intros. uses_action. apply uses_history_page.
  - apply uses_bind_nil; [uses_step|]. intros. uses_action. apply uses_history_page.
  - uses_action. apply uses_bind_nil; [apply uses_read_secret|]. uses_rest.
  - uses_action. uses_rest.
  - uses_action. uses_rest.
  - uses_action. uses_rest.
  - uses_action. uses_rest.
Qed.

(** The write that may spend its grant. *)
Lemma put_secret_spec_used project address value evict_at st body st' :
  put_secret_spec clock readings caller scope base_dir provenance project address value evict_at st
    = (Ok body, st') →
  ∀ r, r ∈ for_ok (address_secret_spec address) (λ a,
         project_requirement scope project (Some a) base_dir GrantPermission.Put) →
  ∃ single, used r single st st'.
Proof.
  unfold put_secret_spec. intros Hp. apply sm_bind_Ok in Hp as (a & st1 & Ha & Hp).
  apply lift_Ok in Ha as [-> ->]. cbn [for_ok]. intros r Hr.
  apply list_elem_of_singleton in Hr as ->.
  apply sm_bind_Ok in Hp as (n1 & st1 & [= <- <-] & Hp).
  apply sm_bind_Ok in Hp as ([] & st1 & Hl & Hp). apply lift_Ok in Hl as [_ ->].
  apply sm_bind_Ok in Hp as (n2 & st1 & [= <- <-] & Hp).
  apply sm_bind_Ok in Hp as (deadline & st1 & Hg & Hp). unfold on_store in Hg. cbn in Hg.
  destruct (require_grant_consuming _ _ _ _ _) as [x s] eqn:Hreq. injection Hg as -> <-.
  apply require_grant_consuming_granted in Hreq as (t & single & Hgr).
  apply sm_bind_Ok in Hp as ([] & st2 & Hacc & Hp).
  apply accept_deadline_Ok in Hacc as (_ & Ht & _ & Hd). cbn in Ht.
  assert (frame st2 st') as (Ht' & Hv' & _).
  { eapply (uses_bind_nil (wall clock readings) _ []); [uses_step| |exact Hp]. uses_rest. }
  exists single, (S (rq_ticks st)), t, deadline.
  split_and!; [lia|lia|done|by eapply tightened_trans].
Qed.
End ActionProofs.

Section ActionTheorems.
Context `{Sha256Ok, Base64Ok}.
Context `{SerdeOk AccessGrant, SerdeOk PermissionRegistry}.
Context `{VaultStore St} `{!VaultStoreOk St}.
Context (clock : RequestTime) (readings : nat → Z * Z) (device : DeviceInfo).
Context (caller : CallerIdentity).
Abbreviation RS := (RequestState St).

(** No action succeeds without a grant: for every entry, project, namespace or
    kind it reads or changes there was, when it was checked, an unexpired stored
    grant of the needed permission to the caller, reusable unless the action is a
    SecretSpec write, and the response is valid no longer than that grant. *)
Lemma no_action_without_grant action lease prov base_dir m st body refreshes st' r :
  execute_action clock readings device caller action lease prov base_dir = Some m →
  m st = (Ok (body, refreshes), st') →
  r ∈ action_requirements (scope_action action) base_dir action →
  ∃ single n t e, (rq_ticks st ≤ n < rq_ticks st')%nat
    ∧ granted (grants_of (view (rq_store st))) caller r (wall_at clock readings n) single t e
    ∧ tightened e (rq_valid_until st')
    ∧ (single = true → may_spend action = true).
Proof.
  intros Hm Hrun Hr. pose proof (scope_action_not_authorization action) as Hscope.
  destruct (may_spend action) eqn:Hspend.
  - destruct action; try discriminate Hspend; injection Hm as <-;
      apply sm_bind_Ok in Hrun as (b & st1 & Hrun & [= -> -> <-]);
      destruct (put_secret_spec_used clock readings caller _ Hscope _ _ _ _ _ _ _ _ _ Hrun r Hr)
        as (single & n & t & e & Hn & Hg & Ht); exists single, n, t, e; done.
  - pose proof (uses_execute clock readings device caller _ Hscope _ _ _ _ _ Hm Hspend) as Huses.
    apply Huses in Hrun as [_ Hu]. destruct (Hu r Hr) as (n & t & e & Hn & Hg & Ht).
    by exists false, n, t, e.
Qed.

(** ** Reading *)

(** Authorizing changes no record. *)
Lemma require_until_view r st a st' :
  require_until clock readings caller r st = (Ok a, st') →
  ∀ k n, view (rq_store st') k n = view (rq_store st) k n.
Proof.
  unfold require_until. intros Hr. apply sm_bind_Ok in Hr as (now & st1 & [= <- <-] & Hr).
  apply sm_bind_Ok in Hr as (deadline & st2 & Hg & Hr). unfold on_store in Hg. cbn in Hg.
  destruct (require_grant_until _ _ _ _) as [x s] eqn:Hreq. injection Hg as -> <-.
  apply accept_deadline_Ok in Hr as (-> & _). by eapply require_grant_until_view.
Qed.

Lemma read_secret_Ok scope p a st v st' :
  read_secret clock readings scope p a st = (Ok v, st') → is_personal scope p = false →
  let seen := view_read (view (rq_store st) scope p) (wall_at clock readings (rq_ticks st)) a in
  v = cell_value <$> seen
  ∧ (∀ c, seen = Some c → cell_address c = a ∧ tightened (cell_evict_at c) (rq_valid_until st')).
Proof.
  unfold read_secret. intros Hr Hp. apply sm_bind_Ok in Hr as (now & st1 & [= <- <-] & Hr).
  apply sm_bind_Ok in Hr as (stored & st2 & Hg & Hr). unfold on_store in Hg. cbn in Hg.
  destruct (get_with_deadline _ _ _ _ _) as [x s] eqn:Hget. injection Hg as -> <-.
  apply get_with_deadline_law in Hget as [_ Hget]. destruct (Hget Hp) as [_ Hval].
  destruct (Hval _ eq_refl) as [-> Haddr]. cbn zeta.
  set (seen := view_read _ _ _) in *.
  assert (∀ c, seen = Some c → cell_address c = a) as Hseen.
  { intros c Hc. apply Haddr. subst seen. unfold view_read in Hc.
    destruct (_ !! storage_key a) as [c'|]; [|done]. by destruct (evicted c' _); simplify_eq. }
  destruct seen as [c|]; cbn in Hr.
  - apply sm_bind_Ok in Hr as ([] & st3 & Hacc & [= <- <-]).
    apply accept_deadline_Ok in Hacc as (_ & _ & _ & Ht). cbn in Ht.
    split; [done|]. intros c' [= <-]. auto.
  - injection Hr as <- <-. done.
Qed.

(** The document and the address a read is about. *)
Definition read_target (action : VaultAction.action) : option (bytes * SecretAddress) :=
  match action with
  | VaultAction.Get n a => pair n <$> ok (resolve a)
  | VaultAction.GetProject pr a | VaultAction.GetCache pr a =>
      pair (as_bytes pr) <$> ok (address_secret_spec a)
  | _ => None
  end.

(** A read returns exactly what is stored: the value of the live record at the
    requested address of the requested document, at a clock reading of the
    request, or nothing if there is none; and the response is valid no longer
    than the record. *)
Theorem read_returns_stored_value action lease prov base_dir m st v refreshes st' p a :
  execute_action clock readings device caller action lease prov base_dir = Some m →
  m st = (Ok (VaultResponseBody.Secret v, refreshes), st') →
  read_target action = Some (p, a) → is_personal (scope_action action) p = false →
  ∃ n, (rq_ticks st ≤ n)%nat
    ∧ v = cell_value <$> view_read (view (rq_store st) (scope_action action) p)
                           (wall_at clock readings n) a
    ∧ ∀ c, view_read (view (rq_store st) (scope_action action) p)
             (wall_at clock readings n) a = Some c →
        cell_address c = a ∧ tightened (cell_evict_at c) (rq_valid_until st').
Proof.
  intros Hm Hrun Ht Hp.
  destruct action; try discriminate Ht; injection Hm as <-; cbn [read_target] in Ht;
    apply fmap_Some in Ht as (a' & Ha & [= -> <-]);
    apply sm_bind_Ok in Hrun as (b & st1 & Hrun & [= -> _ <-]);
    apply sm_bind_Ok in Hrun as (a'' & st2 & Hl & Hrun); apply lift_Ok in Hl as [Hl ->];
    rewrite Hl in Ha; injection Ha as ->;
    apply sm_bind_Ok in Hrun as ([] & st3 & Hreq & Hrun);
    pose proof (require_until_view _ _ _ _ Hreq) as Hview;
    pose proof (uses_require clock readings caller _ _ _ _ Hreq) as [(Hticks & _) _];
    apply sm_bind_Ok in Hrun as (v' & st4 & Hrun & [= -> <-]);
    (apply read_secret_Ok in Hrun; [|exact Hp]); rewrite Hview in Hrun; exists (rq_ticks st3); done.
Qed.

(** ** History *)

Lemma redact_entry_hides reader e principal app :
  he_provenance (redact_entry reader e) = Provenance.Caller principal app → principal = reader.
Proof.
  unfold redact_entry. destruct (he_provenance e) as [pr ap|rs|] eqn:He; try congruence.
  case_bool_decide as Hpr; cbn; rewrite ?He; congruence.
Qed.

(** A page is redacted unless the manager's grant was found. *)
Lemma redact_history_Ok es (st : RS) es' (st' : RS) :
  redact_history clock readings caller es st = (Ok es', st') →
  (∃ t e, granted (grants_of (view (rq_store st))) caller manager_requirement
      (wall_at clock readings (rq_ticks st)) false t e ∧ es' = es)
  ∨ es' = map (redact_entry (principal_from caller)) es.
Proof.
  unfold redact_history. intros Hr. apply sm_bind_Ok in Hr as (now & st1 & [= <- <-] & Hr).
  apply sm_bind_Ok in Hr as (manager & st1 & Hc & [= <- <-]).
  unfold catch, on_store in Hc. cbn in Hc.
  destruct (require_grant_until _ _ _ _) as [[e|er] s] eqn:Hreq; cbn in Hc.
  - apply sm_bind_Ok in Hc as ([] & st2 & _ & [= <- _]). left.
    apply require_grant_until_found, find_grant_granted in Hreq as [_ (t & Hg)].
    by exists t, e.
  - right. destruct er; try discriminate Hc. by injection Hc as <- _.
Qed.

(** What every successful history action did. *)
Lemma do_list_history_Ok scope n a before limit (st : RS) b (st' : RS) :
  do_list_history clock readings caller scope n a before limit st = (Ok b, st') →
  ∃ es es' next st1, b = VaultResponseBody.History es' next
    ∧ rq_ticks st1 = rq_ticks st
    ∧ (∀ k p, view (rq_store st1) k p = view (rq_store st) k p)
    ∧ redact_history clock readings caller es st1 = (Ok es', st').
Proof.
  unfold do_list_history. intros Hl. apply sm_bind_Ok in Hl as (page & st1 & Hp & Hl).
  unfold on_store in Hp. destruct (list_history _ _ _ _ _ _) as [r s] eqn:Hh.
  injection Hp as -> <-. apply sm_bind_Ok in Hl as (es' & st2 & Hr & [= <- <-]).
  eexists _, _, _, _. split_and!; [done| | |exact Hr]; [done|].
  cbn. by eapply list_history_law.
Qed.

Lemma map_redact_hides reader es e principal app :
  e ∈ map (redact_entry reader) es → he_provenance e = Provenance.Caller principal app →
  principal = reader.
Proof.
  intros (x & -> & _)%list_elem_of_fmap. apply redact_entry_hides.
Qed.

(** Follow a computation to the value it returns. *)
Ltac last_step H :=
  repeat (apply sm_bind_Ok in H as (? & ? & ? & H)).

(** Only the history actions answer with history, and they redact it against the
    grants the request found. *)
Lemma history_response action lease prov base_dir m st es next refreshes st' :
  execute_action clock readings device caller action lease prov base_dir = Some m →
  m st = (Ok (VaultResponseBody.History es next, refreshes), st') →
  ∃ es0 st1, grants_of (view (rq_store st1)) = grants_of (view (rq_store st))
    ∧ redact_history clock readings caller es0 st1 = (Ok es, st').
Proof.
  intros Hm Hrun.
  destruct action; try discriminate Hm; injection Hm as <-;
    try (apply sm_bind_Ok in Hrun as (b & st1 & Hrun & [= -> _ <-])); try discriminate Hrun;
    try (exfalso; unfold do_get, get_secret_spec, do_put, put_secret_spec, do_mutate,
           do_delete, delete_secret_spec, do_clear, do_list_projects, do_list_project_addresses,
           do_seal in Hrun; last_step Hrun; discriminate Hrun);
    apply sm_bind_Ok in Hrun as (a & st2 & Hl & Hrun); apply lift_Ok in Hl as [_ ->];
    apply sm_bind_Ok in Hrun as ([] & st3 & Hreq & Hrun);
    apply uses_require in Hreq as [(_ & _ & Hg) _];
    apply do_list_history_Ok in Hrun as (es0 & es' & next' & st4 & [= -> ->] & _ & Hv & Hr);
    exists es0, st4; (split; [|done]); unfold grants_in in Hg; rewrite <- Hg; apply Hv.
Qed.

(** A history page shows another caller's identity only to a permission
    manager: in any other response every entry that names a caller names the
    reader. *)
Theorem history_hides_other_callers action lease prov base_dir m st es next refreshes st' :
  execute_action clock readings device caller action lease prov base_dir = Some m →
  m st = (Ok (VaultResponseBody.History es next, refreshes), st') →
  (∃ n t e, granted (grants_of (view (rq_store st))) caller manager_requirement
      (wall_at clock readings n) false t e)
  ∨ ∀ e principal app, e ∈ es → he_provenance e = Provenance.Caller principal app →
      principal = principal_from caller.
Proof.
  intros Hm Hrun.
  destruct (history_response _ _ _ _ _ _ _ _ _ _ Hm Hrun) as
    (es0 & st1 & Hview & Hred).
  apply redact_history_Ok in Hred as [(t & e & Hg & _)|Hes].
  - left. exists (rq_ticks st1), t, e. by rewrite <- Hview.
  - right. intros e principal app. rewrite Hes. apply map_redact_hides.
Qed.

(** ** Groups of changes *)

(** [v'] is [v] without some of the records that had expired by a clock reading of
    the request. *)
Definition expired_away (v v' : DocumentView) : Prop :=
  ∀ k, v' !! k = v !! k
    ∨ v' !! k = None ∧ ∃ c n, v !! k = Some c ∧ evicted c (wall_at clock readings n) = true.

Lemma expired_away_refl v : expired_away v v.
Proof. intros k. by left. Qed.

Lemma expired_away_trans v1 v2 v3 :
  expired_away v1 v2 → expired_away v2 v3 → expired_away v1 v3.
Proof.
  intros H12 H23 k. destruct (H12 k) as [E|[E ?]], (H23 k) as [E'|[E' (c & n & Hc & ?)]];
    rewrite E in *; [by left|right; eauto 6|right; eauto|congruence].
Qed.

(** A computation that, whether it succeeds or fails, changes the document at most
    by evicting expired records. *)
Definition evicting (k : DocumentKind) (p : bytes) {A} (m : SM RS A) : Prop :=
  ∀ st r st', m st = (r, st') → expired_away (view (rq_store st) k p) (view (rq_store st') k p).

Section Evicting.
Context (scope : DocumentKind) (p : bytes) (Hp : is_personal scope p = false).
Abbreviation evicting := (evicting scope p).

Lemma evicting_bind {A B} (m : SM RS A) (f : A → SM RS B) :
  evicting m → (∀ a, evicting (f a)) → evicting (m ≫= f).
Proof.
  intros Hm Hf st r st'. unfold mbind, sm_bind.
  destruct (m st) as [[a|e] st1] eqn:Hr; apply Hm in Hr.
  - intros Hb%Hf. by eapply expired_away_trans.
  - by intros [= _ <-].
Qed.

Lemma evicting_lift {A} (x : VaultResult A) : evicting (lift x).
Proof. intros st r st' [= _ <-]. apply expired_away_refl. Qed.

Lemma evicting_ret {A} (a : A) : evicting (mret a).
Proof. intros st r st' [= _ <-]. apply expired_away_refl. Qed.

Lemma evicting_wall : evicting (wall clock readings).
Proof. intros st r st' [= _ <-]. apply expired_away_refl. Qed.

Lemma evicting_accept deadline : evicting (accept_deadline clock readings deadline).
Proof.
  apply evicting_bind; [intros st r st' [= _ <-]; apply expired_away_refl|].
  intros _ st r st'. unfold check_valid_until. destruct (rq_valid_until st).
  - apply evicting_bind; [apply evicting_wall|intros; apply evicting_lift].
  - intros [= _ <-]. apply expired_away_refl.
Qed.

Lemma evicting_require r : evicting (require_until clock readings caller r).
Proof.
  apply evicting_bind; [apply evicting_wall|]. intros now.
  apply evicting_bind; [|intros; apply evicting_accept].
  intros st x st'. unfold on_store.
  destruct (require_grant_until _ _ _ _) as [y s] eqn:Hr. intros [= _ <-].
  rewrite (require_grant_until_view _ _ _ _ _ _ Hr). apply expired_away_refl.
Qed.

(** Reading a record at a clock reading of the request. *)
Lemma evicting_read a :
  evicting (now ← wall clock readings; on_store (get_with_deadline scope p a now)).
Proof.
  intros st r st' Hr. unfold mbind, sm_bind, wall, on_store in Hr. cbn in Hr.
  destruct (get_with_deadline _ _ _ _ _) as [y s] eqn:Hg. injection Hr as _ <-.
  apply get_with_deadline_law in Hg as [_ Hg]. destruct (Hg Hp) as [Hv _]. cbn in *.
  destruct Hv as [->|[(c & Hc & He) ->]]; [apply expired_away_refl|].
  intros k. destruct (decide (k = storage_key a)) as [->|Hne].
  - right. rewrite lookup_delete_eq. split; [done|]. by exists c, (rq_ticks st).
  - left. by rewrite lookup_delete_ne.
Qed.

Lemma check_mutation_split a expected :
  ∃ f, ∀ st, check_mutation clock readings scope p a expected st
    = ((now ← wall clock readings; on_store (get_with_deadline scope p a now)) ≫= f) st
    ∧ ∀ c, evicting (f c).
Proof.
  eexists (λ current, _ ← match current with
      | Some current => accept_deadline clock readings (ss_expires_at current)
      | None => mret tt end;
    lift (fail_if (negb (bool_decide ((λ c, sha256 (ss_value c)) <$> current = expected)))
      VaultError.Conflict)).
  intros st. split.
  - unfold check_mutation, mbind, sm_bind, wall, on_store. cbn.
    by destruct (get_with_deadline _ _ _ _ _) as [[]].
  - intros [c|]; apply evicting_bind; eauto using evicting_accept, evicting_lift, evicting_ret.
Qed.

Lemma evicting_check a expected : evicting (check_mutation clock readings scope p a expected).
Proof.
  destruct (check_mutation_split a expected) as (f & Hf).
  intros st r st' Hr. destruct (Hf st) as [E Hev]. rewrite E in Hr.
  revert Hr. apply evicting_bind; [apply evicting_read|done].
Qed.

#[local] Hint Resolve evicting_lift evicting_ret evicting_wall evicting_require
  evicting_check : core.

Lemma evicting_prepare ms :
  evicting (prepare_mutations clock readings caller scope p ms).
Proof.
  induction ms as [|m ms IH]; cbn [prepare_mutations]; [done|].
  apply evicting_bind; [|intros; by apply evicting_bind].
  destruct m; (apply evicting_bind; [done|intros]); (apply evicting_bind; [apply evicting_require|intros]);
    repeat (apply evicting_bind; [done|intros]); done.
Qed.

(** The write a mutation of a group stands for. *)
Definition planned_operation (m : VaultMutation.mutation)
    : VaultResult (list DocumentOperation.document_operation) :=
  match m with
  | VaultMutation.Check a _ => _ ← resolve a; Ok []
  | VaultMutation.Put a value evict_at =>
      a ← resolve a; Ok [DocumentOperation.Put a value evict_at]
  | VaultMutation.Delete a => a ← resolve a; Ok [DocumentOperation.Delete a]
  end.

Definition planned_operations (ms : list VaultMutation.mutation)
    : VaultResult (list DocumentOperation.document_operation) :=
  match try_collect planned_operation ms with
  | Ok ops => Ok (mjoin ops)
  | Err e => Err e
  end.

(** The digest check of a mutation held on the document, less expired records. *)
Definition check_held (v : DocumentView) (m : VaultMutation.mutation) : Prop :=
  match m with
  | VaultMutation.Check a expected =>
      ∃ a' n d, resolve a = Ok a' ∧ expired_away v d
        ∧ (λ c, sha256 (cell_value c)) <$> view_read d (wall_at clock readings n) a' = expected
  | _ => True
  end.

Lemma check_mutation_Ok a expected st u st' :
  check_mutation clock readings scope p a expected st = (Ok u, st') →
  (λ c, sha256 (cell_value c)) <$> view_read (view (rq_store st) scope p)
     (wall_at clock readings (rq_ticks st)) a = expected.
Proof.
  unfold check_mutation. intros Hc. apply sm_bind_Ok in Hc as (now & st1 & [= <- <-] & Hc).
  apply sm_bind_Ok in Hc as (current & st1 & Hg & Hc).
  apply sm_bind_Ok in Hc as ([] & st2 & _ & Hc). apply lift_Ok in Hc as [Hc _].
  apply fail_if_Ok in Hc. rewrite negb_false_iff, bool_decide_eq_true in Hc. subst expected.
  unfold on_store in Hg. cbn in Hg. destruct (get_with_deadline _ _ _ _ _) as [x s] eqn:Hget.
  injection Hg as -> _. apply get_with_deadline_law in Hget as [_ Hget].
  destruct (Hget Hp) as [_ Hv]. destruct (Hv _ eq_refl) as [-> _].
  by destruct (view_read _ _ _).
Qed.

Lemma check_held_expired v v' m : expired_away v v' → check_held v' m → check_held v m.
Proof.
  destruct m; cbn; [|done..]. intros Hv (a' & n & d & ? & ? & ?). exists a', n, d.
  split_and!; [done|by eapply expired_away_trans|done].
Qed.

Lemma prepare_mutations_Ok ms st ops st' :
  prepare_mutations clock readings caller scope p ms st = (Ok ops, st') →
  planned_operations ms = Ok ops
  ∧ ∀ m, m ∈ ms → check_held (view (rq_store st) scope p) m.
Proof.
  revert st ops st'; induction ms as [|m ms IH]; intros st ops st'; cbn [prepare_mutations].
  - intros [= <- _]. split; [done|]. intros m Hm. by apply elem_of_nil in Hm.
  - intros Hb. apply sm_bind_Ok in Hb as (ops1 & st1 & Hm1 & Hb).
    apply sm_bind_Ok in Hb as (rest & st2 & Hm2 & [= <- _]).
    assert (planned_operation m = Ok ops1 ∧ check_held (view (rq_store st) scope p) m
      ∧ expired_away (view (rq_store st) scope p) (view (rq_store st1) scope p))
      as (Hplan & Hheld & Hev).
    { destruct m as [a expected|a value evict|a]; cbn [planned_operation check_held].
      all: apply sm_bind_Ok in Hm1 as (a' & st3 & Hl & Hm1); apply lift_Ok in Hl as [-> ->].
      all: apply sm_bind_Ok in Hm1 as ([] & st3 & Hreq & Hm1);
        apply evicting_require in Hreq.
      - apply sm_bind_Ok in Hm1 as ([] & st4 & Hc & [= <- <-]).
        split_and!; [done| |].
        + exists a', (rq_ticks st3), (view (rq_store st3) scope p). split_and!; [done|done|].
          by eapply check_mutation_Ok.
        + eapply expired_away_trans; [done|]. by eapply evicting_check.
      - apply sm_bind_Ok in Hm1 as (now & st4 & [= <- <-] & Hm1).
        apply sm_bind_Ok in Hm1 as ([] & st4 & Hl & [= <- <-]). apply lift_Ok in Hl as [_ ->].
        done.
      - injection Hm1 as <- <-. done. }
    destruct (IH _ _ _ Hm2) as [IHp IHh]. split.
    + unfold planned_operations in *. cbn [try_collect]. rewrite Hplan.
      destruct (try_collect planned_operation ms); [|done]. by injection IHp as <-.
    + intros m' [->|Hm']%elem_of_cons; [done|]. eapply check_held_expired; [done|]. by apply IHh.
Qed.
End Evicting.

(** A group of mutations is all or nothing and checked: it succeeds only if
    every digest check matched the stored value (or absence) and then exactly the
    group's writes were applied, in order, to the document less expired records;
    if it fails the document is otherwise unchanged, or the store failed after
    committing the whole group. *)
Theorem mutation_group_is_atomic namespace mutations lease prov base_dir m st r st' :
  let action := VaultAction.Mutate namespace mutations in
  execute_action clock readings device caller action lease prov base_dir = Some m →
  m st = (r, st') → is_personal (scope_action action) namespace = false →
  let before := view (rq_store st) (scope_action action) namespace in
  let after := view (rq_store st') (scope_action action) namespace in
  ∃ kept, expired_away before kept
    ∧ match r with
      | Ok _ => (∀ mu, mu ∈ mutations → check_held before mu)
          ∧ ∃ ops, planned_operations mutations = Ok ops
            ∧ after = apply_operations kept ops
      | Err _ => after = kept
          ∨ ∃ ops, planned_operations mutations = Ok ops
            ∧ after = apply_operations kept ops
      end.
Proof.
  intros action [= <-] Hrun Hp before after. subst before after.
  unfold refresh, do_mutate, mbind, sm_bind, on_store in Hrun.
  destruct (prepare_mutations _ _ _ _ _ _ _) as [[ops|e] st1] eqn:Hprep;
    pose proof (evicting_prepare _ _ Hp _ _ _ _ Hprep) as Hev.
  - apply (prepare_mutations_Ok _ _ Hp) in Hprep as [Hplan Hheld]. cbn in Hrun.
    destruct (mutate _ _ _ _ _ _) as [x s] eqn:Hm. apply mutate_law in Hm as [_ Hm].
    specialize (Hm Hp). exists (view (rq_store st1) (scope_action action) namespace).
    split; [done|]. destruct x; injection Hrun as <- <-; cbn in *; [by eauto|].
    destruct Hm; eauto.
  - injection Hrun as <- <-. by eauto.
Qed.
End ActionTheorems.
