(* ===== verification/ActionWitness.v ===== *)
(** Runs of the actions on the in-memory store: each theorem of [ActionProofs]
    applied where its hypotheses hold. *)
From Stdlib Require Import ZArith Lia Bool.
From stdpp Require Import base gmap strings list.
From S2P Require Import Prelude Core Instances Address Clock Text Wire History StoreSpec DemoStore.
From S2P Require Import Signature Grant GrantProofs Approvals Protocol Actions ActionProofs.

Module ActionDemo.
#[export] Existing Instances demo_sha256 demo_sha256_ok demo_base64 demo_base64_ok.

Definition caller : CallerIdentity := {|
  ci_platform := CallerPlatform.Linux; ci_user_id := "1000"; ci_application_id := "app";
  ci_executable_digest := replicate 32 Byte.x01; ci_signer_id := None |}.
Definition namespace : bytes := as_bytes "ns".
Definition target : GrantTarget.grant_target := GrantTarget.Namespace LocalKeyring namespace.
Definition fp : bytes := fingerprint caller.
Definition permissions : list GrantPermission.permission :=
  [GrantPermission.Get; GrantPermission.Put; GrantPermission.Delete; GrantPermission.List].
#[export] Instance grant_serde : Serde AccessGrant := table_serde
  (map (λ p, new_grant fp (grant_target_digest target) p (Some 50) false) permissions).
#[export] Instance registry_serde : Serde PermissionRegistry := table_serde
  [{| pr_version := 1; pr_permissions := [] |}].
#[export] Instance grant_serde_ok : SerdeOk AccessGrant := table_serde_ok _.
#[export] Instance registry_serde_ok : SerdeOk PermissionRegistry := table_serde_ok _.

Definition prepared : list PreparedGrant :=
  match prepare_grant caller target permissions (Some 50) 10 with
  | Ok l => l | Err _ => [] end.
Definition granted_store : DemoState := (store_prepared_grants prepared 10 (∅ : DemoState)).2.

(** A clock that advances one second with each reading, starting at 20. *)
Definition clock : RequestTime := request_time_new 20 0 0 0.
Definition readings (n : nat) : Z * Z := (Z.of_nat n * NANOS, Z.of_nat n * NANOS).
Definition device : DeviceInfo := {|
  di_installation_id := "i"; di_device_vault_id := "v"; di_device_key_id := "k";
  di_hardware_backend := "h" |}.
Definition prov : Provenance.provenance := provenance_service ServiceReason.GrantStorage.
Definition start (s : DemoState) : RequestState DemoState := {|
  rq_store := s; rq_valid_until := None; rq_sealed := false; rq_ticks := 0 |}.

Definition run (action : VaultAction.action)
    : SM (RequestState DemoState) (VaultResponseBody.body * bool) :=
  default (lift (Err VaultError.AuthorizationRequired))
    (execute_action clock readings device caller action (0, 0) prov None).

Definition item : WireSecretAddress := {| wa_item := "a"; wa_field := None |}.
Definition value : bytes := as_bytes "secret".
Definition put : VaultAction.action := VaultAction.Put namespace item value (Some 40).
Definition get : VaultAction.action := VaultAction.Get namespace item.
Definition list : VaultAction.action := VaultAction.ListHistory namespace None None 10.
(** Swap the value for another if it is still the one read. *)
Definition swaps : Datatypes.list VaultMutation.mutation :=
  [VaultMutation.Check item (Some (sha256 value));
   VaultMutation.Put item (as_bytes "new") None].
Definition swap : VaultAction.action := VaultAction.Mutate namespace swaps.
Definition filled : DemoState := rq_store (run put (start granted_store)).2.

Lemma program action : is_Some (execute_action (St := DemoState) clock readings device caller
    action (0, 0) prov None) →
  execute_action clock readings device caller action (0, 0) prov None = Some (run action).
Proof. unfold run. by intros [m ->]. Qed.
Lemma program_get :
  execute_action clock readings device caller get (0, 0) prov None = Some (run get).
Proof. apply program. by eexists. Qed.
Lemma program_list :
  execute_action clock readings device caller list (0, 0) prov None = Some (run list).
Proof. apply program. by eexists. Qed.
Lemma program_swap :
  execute_action clock readings device caller swap (0, 0) prov None = Some (run swap).
Proof. apply program. by eexists. Qed.
Lemma get_target : read_target get = Some (namespace, Local "a" None).
Proof. reflexivity. Qed.
Lemma namespace_shared : is_personal (scope_action get) namespace = false.
Proof. reflexivity. Qed.

Lemma run_put : (run put (start granted_store)).1 = Ok (VaultResponseBody.Stored, true).
Proof. vm_compute. reflexivity. Qed.
Lemma run_read : (run get (start filled)).1 = Ok (VaultResponseBody.Secret (Some value), true).
Proof. vm_compute. reflexivity. Qed.
Lemma run_swap : (run swap (start filled)).1 = Ok (VaultResponseBody.Mutated, true).
Proof. vm_compute. reflexivity. Qed.
End ActionDemo.
Import ActionDemo.

Example read_returns_stored_value_witness :
  (run get (start filled)).1 = Ok (VaultResponseBody.Secret (Some value), true)
  ∧ ∃ n, Some value = cell_value <$> view_read (view (rq_store (start filled)) (scope_action get) namespace)
                       (wall_at clock readings n) (Local "a" None).
Proof.
  split; [exact run_read|].
  destruct (read_returns_stored_value clock readings device caller get (0, 0) prov None _
    (start filled) (Some value) true _ namespace (Local "a" None)
    program_get (sm_run _ _ _ run_read) get_target namespace_shared) as (n & _ & Hv & _).
  exists n. exact Hv.
Defined.

Definition redacted : HistoryEntry := redact_entry (principal_from caller) demo_entry.
Lemma run_list :
  (run list (start filled)).1 = Ok (VaultResponseBody.History [redacted] None, true).
Proof. vm_compute. reflexivity. Qed.

Example history_hides_other_callers_witness :
  (run list (start filled)).1 = Ok (VaultResponseBody.History [redacted] None, true)
  ∧ ((∃ n t e, granted (grants_of (view (rq_store (start filled)))) caller manager_requirement
        (wall_at clock readings n) false t e)
     ∨ ∀ e principal app, e ∈ [redacted] → he_provenance e = Provenance.Caller principal app →
         principal = principal_from caller).
Proof.
  split; [exact run_list|].
  exact (history_hides_other_callers clock readings device caller list (0, 0) prov None _
    (start filled) [redacted] None true _ program_list (sm_run _ _ _ run_list)).
Defined.

Example mutation_group_is_atomic_witness :
  (run swap (start filled)).1 = Ok (VaultResponseBody.Mutated, true)
  ∧ ∃ kept ops,
      expired_away clock readings (view (rq_store (start filled)) (scope_action swap) namespace) kept
      ∧ planned_operations swaps = Ok ops
      ∧ view (rq_store (run swap (start filled)).2) (scope_action swap) namespace
        = apply_operations kept ops.
Proof.
  split; [exact run_swap|].
  destruct (mutation_group_is_atomic clock readings device caller namespace swaps
    (0, 0) prov None _ (start filled) _ _ program_swap (sm_run _ _ _ run_swap) namespace_shared)
    as (kept & Hk & _ & ops & Hops & Hv).
  exists kept, ops. exact (conj Hk (conj Hops Hv)).
Defined.
