(* ===== verification/Manifest.v ===== *)
(** Signed commitments to stored state: the historical chain of protected commits
    (src/src/vault/store/chain.rs) and the manifest that commits to the complete
    set of current documents (src/src/vault/store/manifest.rs). *)
From Stdlib Require Import ZArith Lia Bool.
From stdpp Require Import base gmap strings list.
From S2P Require Import Prelude Text Core Address Instances Wire Signature.

(** ** Fixed-width fields *)

(** Fields that hold exactly [n] bytes and 64-bit counters, as their Rust types
    have them. *)
Definition is_array (n : nat) (b : bytes) : Prop := length b = n.
Definition opt_u64 (o : option Z) : Prop := ∀ d, o = Some d → is_u64 d.

Lemma be_bytes_u64_inj x y : is_u64 x → is_u64 y → be_bytes 8 x = be_bytes 8 y → x = y.
Proof. unfold is_u64, U64_MAX. intros ??. apply be_bytes_inj; cbn; lia. Qed.

(** Split an equality of concatenations after a part of known length. *)
Ltac peel H H' :=
  rewrite <- ?app_assoc in H;
  apply app_inj_len in H as [H' H]; 
    [|first [reflexivity | rewrite ?length_be_bytes; unfold is_array in *; congruence]].

Section Manifest.
Context `{Sha256} `{MlDsa65}.

Definition digest (b : bytes) : bytes := sha256 b.

(** ** The historical chain of commits *)

Definition COMMIT_VERSION : Z := 6.
Definition COMMIT_DOMAIN : bytes := as_bytes "factorseal/protected-commit/v6" ++ [Byte.x00].
Definition COMMIT_SIGNATURE_DOMAIN : bytes :=
  as_bytes "factorseal/protected-commit-signature/v6" ++ [Byte.x00].

Record CommitContents : Set := {
  cc_previous_commit_id : option bytes;
  cc_vault_id : bytes;
  cc_document_id : bytes;
  cc_scope : DocumentKind;
  cc_generation : Z;
  cc_key_epoch : Z;
  cc_wrapped_key_digest : bytes;
  cc_snapshot_digest : bytes;
  cc_next_eviction : option Z;
  cc_device_key_id : bytes
}.

Record ProtectedCommit : Set := {
  pc_version : Z;
  pc_signature_algorithm : SignatureAlgorithm.algorithm;
  pc_commit_id : bytes;
  pc_contents : CommitContents;
  pc_signature : bytes
}.

(** [append_bytes]. *)
Definition append_bytes (value : bytes) : bytes := framed value.

Definition commit_transcript (algorithm : SignatureAlgorithm.algorithm) (c : CommitContents)
    : bytes :=
  COMMIT_DOMAIN ++ [byte_of_Z COMMIT_VERSION] ++ [algorithm_code algorithm]
  ++ match cc_previous_commit_id c with
     | Some previous => Byte.x01 :: previous
     | None => [Byte.x00]
     end
  ++ cc_vault_id c ++ cc_document_id c
  ++ append_bytes (as_bytes (kind_as_str (cc_scope c)))
  ++ be_bytes 8 (cc_generation c) ++ be_bytes 8 (cc_key_epoch c)
  ++ cc_wrapped_key_digest c ++ cc_snapshot_digest c
  ++ match cc_next_eviction c with
     | Some deadline => Byte.x01 :: be_bytes 8 deadline
     | None => [Byte.x00]
     end
  ++ cc_device_key_id c.

Definition commit_signature_payload (commit_id : bytes) : bytes :=
  COMMIT_SIGNATURE_DOMAIN ++ commit_id.

Definition commit_new (contents : CommitContents) (signer : SigningProvider)
    : VaultResult ProtectedCommit :=
  let commit_id := digest (commit_transcript CURRENT_SIGNATURE_ALGORITHM contents) in
  signature ← signer (commit_signature_payload commit_id);
  Ok {| pc_version := COMMIT_VERSION; pc_signature_algorithm := CURRENT_SIGNATURE_ALGORITHM;
        pc_commit_id := commit_id; pc_contents := contents; pc_signature := signature |}.

Definition commit_verify (c : ProtectedCommit) (expected_commit_id expected_device_key_id : bytes)
    (public_key : verifying_key) : VaultResult () :=
  _ ← fail_if (negb (pc_version c =? COMMIT_VERSION)
         || negb (bool_decide (pc_commit_id c = expected_commit_id))
         || negb (bool_decide (cc_device_key_id (pc_contents c) = expected_device_key_id)))
        VaultError.Signature;
  _ ← fail_if (negb (bool_decide
         (digest (commit_transcript (pc_signature_algorithm c) (pc_contents c))
          = pc_commit_id c))) VaultError.Signature;
  prepared_verify public_key (pc_signature_algorithm c)
    (commit_signature_payload (pc_commit_id c)) (pc_signature c).

(** ** The manifest of current documents *)

Definition CURRENT_SCHEMA_VERSION : Z := 6.
Definition HEAD_DOMAIN : bytes := as_bytes "factorseal/current-document-head/v1" ++ [Byte.x00].
Definition INVENTORY_DOMAIN : bytes :=
  as_bytes "factorseal/current-document-inventory/v1" ++ [Byte.x00].
Definition MANIFEST_DOMAIN : bytes :=
  as_bytes "factorseal/current-state-manifest/v1" ++ [Byte.x00].
Definition SIGNATURE_DOMAIN : bytes :=
  as_bytes "factorseal/current-state-signature/v1" ++ [Byte.x00].

Record CurrentHead : Set := {
  ch_head_id : bytes;
  ch_vault_id : bytes;
  ch_document_id : bytes;
  ch_scope : DocumentKind;
  ch_generation : Z;
  ch_key_epoch : Z;
  ch_wrapped_key_digest : bytes;
  ch_snapshot_digest : bytes;
  ch_next_eviction : option Z;
  ch_device_key_id : bytes
}.

(** What [calculate_id] hashes. *)
Definition head_preimage (h : CurrentHead) : bytes :=
  HEAD_DOMAIN ++ ch_vault_id h ++ ch_document_id h
  ++ framed (as_bytes (kind_as_str (ch_scope h)))
  ++ be_bytes 8 (ch_generation h) ++ be_bytes 8 (ch_key_epoch h)
  ++ ch_wrapped_key_digest h ++ ch_snapshot_digest h
  ++ [if ch_next_eviction h then Byte.x01 else Byte.x00]
  ++ be_bytes 8 (default 0 (ch_next_eviction h))
  ++ ch_device_key_id h.

Definition calculate_id (h : CurrentHead) : bytes := sha256 (head_preimage h).

Definition with_head_id (h : CurrentHead) (id : bytes) : CurrentHead := {|
  ch_head_id := id; ch_vault_id := ch_vault_id h; ch_document_id := ch_document_id h;
  ch_scope := ch_scope h; ch_generation := ch_generation h; ch_key_epoch := ch_key_epoch h;
  ch_wrapped_key_digest := ch_wrapped_key_digest h;
  ch_snapshot_digest := ch_snapshot_digest h; ch_next_eviction := ch_next_eviction h;
  ch_device_key_id := ch_device_key_id h |}.

Definition head_new (c : CommitContents) : CurrentHead :=
  let head := {|
    ch_head_id := replicate 32 Byte.x00; ch_vault_id := cc_vault_id c;
    ch_document_id := cc_document_id c; ch_scope := cc_scope c;
    ch_generation := cc_generation c; ch_key_epoch := cc_key_epoch c;
    ch_wrapped_key_digest := cc_wrapped_key_digest c;
    ch_snapshot_digest := cc_snapshot_digest c; ch_next_eviction := cc_next_eviction c;
    ch_device_key_id := cc_device_key_id c |} in
  with_head_id head (calculate_id head).

Definition head_verify (h : CurrentHead) (expected : bytes) : VaultResult () :=
  fail_if (negb (bool_decide (ch_head_id h = expected))
           || negb (bool_decide (calculate_id h = expected))) VaultError.Signature.

(** Document identifiers with the identifiers of their heads. *)
Definition inventory_preimage (heads : list (bytes * bytes)) : bytes :=
  INVENTORY_DOMAIN ++ mjoin (map (λ '(document, head), document ++ head) heads).

Definition inventory_digest (heads : list (bytes * bytes)) : bytes :=
  sha256 (inventory_preimage heads).

Record StateManifest : Set := {
  sm_version : Z;
  sm_signature_algorithm : SignatureAlgorithm.algorithm;
  sm_vault_id : bytes;
  sm_device_key_id : bytes;
  sm_document_count : Z;
  sm_inventory_digest : bytes;
  sm_repack_pending : bool;
  sm_manifest_id : bytes;
  sm_signature : bytes
}.

Definition transcript (m : StateManifest) : bytes :=
  MANIFEST_DOMAIN ++ be_bytes 4 (sm_version m)
  ++ [algorithm_code (sm_signature_algorithm m)]
  ++ sm_vault_id m ++ sm_device_key_id m ++ be_bytes 8 (sm_document_count m)
  ++ sm_inventory_digest m ++ [if sm_repack_pending m then Byte.x01 else Byte.x00].

Definition signature_payload (m : StateManifest) : bytes :=
  SIGNATURE_DOMAIN ++ sm_manifest_id m.

(** [StateManifest::new], before and after the identifier and the signature are
    filled in. *)
Definition unsigned_manifest (vault_id device_key_id : bytes) (document_count : Z)
    (inventory_digest : bytes) (repack_pending : bool) (manifest_id signature : bytes)
    : StateManifest := {|
  sm_version := CURRENT_SCHEMA_VERSION;
  sm_signature_algorithm := CURRENT_SIGNATURE_ALGORITHM;
  sm_vault_id := vault_id; sm_device_key_id := device_key_id;
  sm_document_count := document_count; sm_inventory_digest := inventory_digest;
  sm_repack_pending := repack_pending;
  sm_manifest_id := manifest_id; sm_signature := signature |}.

Definition manifest_new (vault_id device_key_id : bytes) (document_count : Z)
    (inventory_digest : bytes) (repack_pending : bool) (signer : SigningProvider)
    : VaultResult StateManifest :=
  let manifest :=
    unsigned_manifest vault_id device_key_id document_count inventory_digest repack_pending in
  let manifest_id := digest (transcript (manifest (replicate 32 Byte.x00) [])) in
  signature ← signer (signature_payload (manifest manifest_id []));
  Ok (manifest manifest_id signature).

Definition manifest_verify (m : StateManifest) (vault_id device_key_id : bytes)
    (verifier : verifying_key) : VaultResult () :=
  _ ← fail_if (negb (sm_version m =? CURRENT_SCHEMA_VERSION)
         || negb (bool_decide (sm_vault_id m = vault_id))
         || negb (bool_decide (sm_device_key_id m = device_key_id))
         || negb (bool_decide (digest (transcript m) = sm_manifest_id m)))
        VaultError.Signature;
  prepared_verify verifier (sm_signature_algorithm m) (signature_payload m) (sm_signature m).
End Manifest.

(** * What the signed records of [Manifest] bind: every transcript determines the
    fields it was made from, so two accepted records with the same identifier are
    equal or exhibit a collision of the digest on their transcripts. *)

#[local] Arguments be_bytes : simpl never.

Section Transcripts.
Context `{Sha256}.

(** The widths the Rust types give the fields. *)
Definition contents_wf (c : CommitContents) : Prop :=
  (∀ p, cc_previous_commit_id c = Some p → is_array 32 p)
  ∧ is_array 16 (cc_vault_id c) ∧ is_array 32 (cc_document_id c)
  ∧ is_u64 (cc_generation c) ∧ is_u64 (cc_key_epoch c)
  ∧ is_array 32 (cc_wrapped_key_digest c) ∧ is_array 32 (cc_snapshot_digest c)
  ∧ opt_u64 (cc_next_eviction c) ∧ is_array 32 (cc_device_key_id c).

Definition head_wf (h : CurrentHead) : Prop :=
  is_array 32 (ch_head_id h)
  ∧ is_array 16 (ch_vault_id h) ∧ is_array 32 (ch_document_id h)
  ∧ is_u64 (ch_generation h) ∧ is_u64 (ch_key_epoch h)
  ∧ is_array 32 (ch_wrapped_key_digest h) ∧ is_array 32 (ch_snapshot_digest h)
  ∧ opt_u64 (ch_next_eviction h) ∧ is_array 32 (ch_device_key_id h).

Definition manifest_wf (m : StateManifest) : Prop :=
  0 ≤ sm_version m < 2 ^ 32
  ∧ is_array 16 (sm_vault_id m) ∧ is_array 32 (sm_device_key_id m)
  ∧ is_u64 (sm_document_count m) ∧ is_array 32 (sm_inventory_digest m).

Definition inventory_wf (l : list (bytes * bytes)) : Prop :=
  Forall (λ p, is_array 32 p.1 ∧ is_array 32 p.2) l.

Lemma kind_fits k : fits64 (as_bytes (kind_as_str k)).
Proof. apply fits64_lt. by destruct k. Qed.

Lemma framed_kind_inj k k' x y :
  framed (as_bytes (kind_as_str k)) ++ x = framed (as_bytes (kind_as_str k')) ++ y →
  k = k' ∧ x = y.
Proof.
  intros Heq. apply framed_app_inj in Heq as [Hk ->]; [|apply kind_fits..].
  by apply as_bytes_inj, kind_as_str_inj in Hk.
Qed.

(** An optional field behind a tag byte. *)
Lemma tagged_array_inj n (o o' : option bytes) x y :
  (∀ p, o = Some p → is_array n p) → (∀ p, o' = Some p → is_array n p) →
  match o with Some p => Byte.x01 :: p | None => [Byte.x00] end ++ x
  = match o' with Some p => Byte.x01 :: p | None => [Byte.x00] end ++ y →
  o = o' ∧ x = y.
Proof.
  intros Ho Ho' Heq. destruct o as [p|], o' as [p'|]; cbn in Heq; try discriminate Heq.
  - apply cons_inj_tail in Heq. apply app_inj_len in Heq as [-> ->]; [done|].
    by rewrite (Ho _ eq_refl), (Ho' _ eq_refl).
  - by apply cons_inj_tail in Heq.
Qed.

Lemma tagged_u64_inj (o o' : option Z) x y : opt_u64 o → opt_u64 o' →
  match o with Some d => Byte.x01 :: be_bytes 8 d | None => [Byte.x00] end ++ x
  = match o' with Some d => Byte.x01 :: be_bytes 8 d | None => [Byte.x00] end ++ y →
  o = o' ∧ x = y.
Proof.
  intros Ho Ho' Heq. destruct o as [d|], o' as [d'|]; cbn in Heq; try discriminate Heq.
  - apply cons_inj_tail, app_inj_len in Heq as [Hd ->]; [|by rewrite !length_be_bytes].
    apply be_bytes_u64_inj in Hd as ->; auto.
  - by apply cons_inj_tail in Heq.
Qed.

Lemma algorithm_unique (a a' : SignatureAlgorithm.algorithm) : a = a'.
Proof. by destruct a, a'. Qed.

(** A commit's transcript determines its contents. *)
Lemma commit_transcript_inj a a' c c' :
  contents_wf c → contents_wf c' →
  commit_transcript a c = commit_transcript a' c' → c = c'.
Proof.
  intros (Hp & Hv & Hd & Hg & He & Hw & Hs & Hn & Hk)
         (Hp' & Hv' & Hd' & Hg' & He' & Hw' & Hs' & Hn' & Hk') Heq.
  rewrite (algorithm_unique a' a) in Heq. unfold commit_transcript, append_bytes in Heq.
  apply app_inj_len in Heq as [_ Heq]; [|done].
  do 2 apply cons_inj_tail in Heq.
  apply (tagged_array_inj 32) in Heq as [E1 Heq]; [|done..].
  peel Heq E2. peel Heq E3. apply framed_kind_inj in Heq as [E4 Heq].
  peel Heq E5. peel Heq E6. peel Heq E7. peel Heq E8.
  apply tagged_u64_inj in Heq as [E9 Heq]; [|done..].
  apply be_bytes_u64_inj in E5, E6; [|done..].
  destruct c, c'; cbn in *; congruence.
Qed.

Lemma head_preimage_inj h h' :
  head_wf h → head_wf h' → ch_head_id h = ch_head_id h' →
  head_preimage h = head_preimage h' → h = h'.
Proof.
  intros (Hi & Hv & Hd & Hg & He & Hw & Hs & Hn & Hk)
         (Hi' & Hv' & Hd' & Hg' & He' & Hw' & Hs' & Hn' & Hk') Hid Heq.
  unfold head_preimage in Heq. apply app_inj_len in Heq as [_ Heq]; [|done].
  peel Heq E2. peel Heq E3. apply framed_kind_inj in Heq as [E4 Heq].
  peel Heq E5. peel Heq E6. peel Heq E7. peel Heq E8. peel Heq E9. peel Heq E10.
  apply be_bytes_u64_inj in E5, E6; [|done..].
  assert (ch_next_eviction h = ch_next_eviction h').
  { destruct (ch_next_eviction h) as [d|], (ch_next_eviction h') as [d'|];
      try discriminate E9; [|done].
    apply be_bytes_u64_inj in E10; cbn in *; [congruence|auto..]. }
  destruct h, h'; cbn in *; congruence.
Qed.

Lemma transcript_inj m m' :
  manifest_wf m → manifest_wf m' → transcript m = transcript m' →
  sm_version m = sm_version m' ∧ sm_vault_id m = sm_vault_id m'
  ∧ sm_device_key_id m = sm_device_key_id m' ∧ sm_document_count m = sm_document_count m'
  ∧ sm_inventory_digest m = sm_inventory_digest m'
  ∧ sm_repack_pending m = sm_repack_pending m'.
Proof.
  intros (Hr & Hv & Hk & Hc & Hd) (Hr' & Hv' & Hk' & Hc' & Hd') Heq.
  unfold transcript in Heq. apply app_inj_len in Heq as [_ Heq]; [|done].
  peel Heq E1. peel Heq E2. peel Heq E3. peel Heq E4. peel Heq E5. peel Heq E6.
  apply be_bytes_inj in E1; [|cbn; lia..]. apply be_bytes_u64_inj in E5; [|done..].
  split_and!; try done. by destruct (sm_repack_pending m), (sm_repack_pending m').
Qed.

Lemma inventory_preimage_inj l l' :
  inventory_wf l → inventory_wf l' → inventory_preimage l = inventory_preimage l' → l = l'.
Proof.
  unfold inventory_preimage. intros Hl Hl' Heq.
  apply app_inj_len in Heq as [_ Heq]; [|done].
  revert l' Hl' Heq; induction l as [|[d h] l IH]; intros [|[d' h'] l'] Hl' Heq; [done| | |].
  - exfalso. apply Forall_cons_1 in Hl' as [[Hd _] _]. destruct d'; [done|]. discriminate Heq.
  - exfalso. apply Forall_cons_1 in Hl as [[Hd _] _]. destruct d; [done|]. discriminate Heq.
  - apply Forall_cons_1 in Hl as [[Hd Hh] Hl], Hl' as [[Hd' Hh'] Hl']. cbn in *.
    rewrite <- !app_assoc in Heq. peel Heq E1. peel Heq E2. subst. f_equal. by apply IH.
Qed.
End Transcripts.

Section Binding.
Context `{Sha256Ok} `{MlDsa65}.

(** A signer whose signatures the verifying key accepts, as the signature scheme
    promises for the two halves of a key pair. *)
Definition signs_for (signer : SigningProvider) (key : verifying_key) : Prop :=
  ∀ payload s, signer payload = Ok s →
    prepared_verify key CURRENT_SIGNATURE_ALGORITHM payload s = Ok tt.

Lemma manifest_verify_Ok m v d key :
  manifest_verify m v d key = Ok tt →
  sm_version m = CURRENT_SCHEMA_VERSION ∧ sm_vault_id m = v ∧ sm_device_key_id m = d
  ∧ digest (transcript m) = sm_manifest_id m
  ∧ prepared_verify key (sm_signature_algorithm m) (signature_payload m) (sm_signature m) = Ok tt.
Proof. unfold manifest_verify. intros Hm. inv_ok. bool_prop. tauto. Qed.

Lemma commit_verify_Ok c id d key :
  commit_verify c id d key = Ok tt →
  pc_commit_id c = id ∧ cc_device_key_id (pc_contents c) = d
  ∧ digest (commit_transcript (pc_signature_algorithm c) (pc_contents c)) = id.
Proof. unfold commit_verify. intros Hc. inv_ok. bool_prop. destruct_and!. split_and!; congruence. Qed.

(** Two commits of the historical chain that are both accepted under the same
    identifier have the same contents, every field of them, or their transcripts
    are a collision of the digest. *)
Theorem protected_commit_binds_fields c c' id d d' key key' :
  contents_wf (pc_contents c) → contents_wf (pc_contents c') →
  commit_verify c id d key = Ok tt → commit_verify c' id d' key' = Ok tt →
  pc_contents c = pc_contents c'
  ∨ sha256_collides (commit_transcript (pc_signature_algorithm c) (pc_contents c))
      (commit_transcript (pc_signature_algorithm c') (pc_contents c')).
Proof.
  intros Hwf Hwf' Hv Hv'. apply commit_verify_Ok in Hv as (_ & _ & <-), Hv' as (_ & _ & Heq).
  symmetry in Heq. apply sha256_eq_or_collides in Heq as [Heq|?]; [left|by right].
  by eapply commit_transcript_inj.
Qed.

(** A manifest accepted for the vault commits to one inventory: two accepted
    manifests with the same identifier list the same documents at the same heads,
    and agree on the number of documents and the pending repack, or one of two
    named pairs of inputs collides. *)
Theorem manifest_binds_inventory m m' v v' d d' key key' heads heads' :
  manifest_wf m → manifest_wf m' → inventory_wf heads → inventory_wf heads' →
  manifest_verify m v d key = Ok tt → manifest_verify m' v' d' key' = Ok tt →
  sm_manifest_id m = sm_manifest_id m' →
  inventory_digest heads = sm_inventory_digest m →
  inventory_digest heads' = sm_inventory_digest m' →
  (heads = heads' ∧ v = v' ∧ d = d' ∧ sm_document_count m = sm_document_count m'
     ∧ sm_repack_pending m = sm_repack_pending m')
  ∨ sha256_collides (transcript m) (transcript m')
  ∨ sha256_collides (inventory_preimage heads) (inventory_preimage heads').
Proof.
  intros Hm Hm' Hh Hh' Hv Hv' Hid Hi Hi'.
  apply manifest_verify_Ok in Hv as (_ & Hvid & Hdev & Ht & _),
    Hv' as (_ & Hvid' & Hdev' & Ht' & _).
  assert (sha256 (transcript m) = sha256 (transcript m')) as Heq
    by (unfold digest in *; congruence).
  apply sha256_eq_or_collides in Heq as [Heq|?]; [|auto].
  apply transcript_inj in Heq as (_ & Ev & Ed & Ec & Ei & Er); [|done..].
  rewrite <- Hi, <- Hi' in Ei. unfold inventory_digest in Ei. apply sha256_eq_or_collides in Ei as [Ei|?]; [|auto].
  apply inventory_preimage_inj in Ei; [|done..]. left. split_and!; congruence.
Qed.

Lemma manifest_new_verifies signer key v d n inventory repack m :
  signs_for signer key → manifest_new v d n inventory repack signer = Ok m →
  manifest_verify m v d key = Ok tt.
Proof.
  intros Hs Hm. unfold manifest_new in Hm. inv_ok. apply Hs in Ha.
  unfold manifest_verify. cbn -[prepared_verify]. by rewrite !bool_decide_true.
Qed.

(** What the device signs it accepts: a new manifest verifies for its vault
    and device under the matching key, a new commit under its own identifier, and
    a new head under its. *)
Theorem signed_records_verify signer key v d n inventory repack m contents c :
  signs_for signer key →
  manifest_new v d n inventory repack signer = Ok m →
  commit_new contents signer = Ok c →
  manifest_verify m v d key = Ok tt
  ∧ commit_verify c (pc_commit_id c) (cc_device_key_id contents) key = Ok tt
  ∧ head_verify (head_new contents) (ch_head_id (head_new contents)) = Ok tt.
Proof.
  intros Hs Hm Hc. apply (manifest_new_verifies _ key) in Hm; [|done].
  unfold commit_new in Hc. inv_ok. apply Hs in Ha. split_and!.
  - done.
  - unfold commit_verify. cbn -[prepared_verify]. by rewrite !bool_decide_true.
  - unfold head_verify. by rewrite !bool_decide_true.
Qed.
End Binding.

(** ** Examples *)

Module ManifestDemo.
#[export] Existing Instances demo_sha256 demo_sha256_ok.
(** The signature is the key before the payload. *)
#[export] Instance demo_mldsa : MlDsa65 := {|
  verifying_key := bytes; mldsa_signature := bytes;
  verifying_key_new b := Some b; signature_try_from b := Some b;
  mldsa_verify key payload sig := bool_decide (sig = key ++ payload) |}.
Definition key : verifying_key := [Byte.x2a].
Definition signer : SigningProvider := {|
  provider_public_key := Ok key; provider_sign payload := Ok (key ++ payload) |}.
Definition id (n : nat) (b : Byte.byte) : bytes := replicate n b.
Definition contents : CommitContents := {|
  cc_previous_commit_id := Some (id 32 Byte.x01); cc_vault_id := id 16 Byte.x02;
  cc_document_id := id 32 Byte.x03; cc_scope := LocalKeyring; cc_generation := 4;
  cc_key_epoch := 4; cc_wrapped_key_digest := id 32 Byte.x05;
  cc_snapshot_digest := id 32 Byte.x06; cc_next_eviction := Some 100;
  cc_device_key_id := id 32 Byte.x07 |}.
Definition heads : list (bytes * bytes) :=
  [(id 32 Byte.x03, ch_head_id (head_new contents))].
Definition manifest_id : bytes := digest (transcript (unsigned_manifest (id 16 Byte.x02)
  (id 32 Byte.x07) 1 (inventory_digest heads) false (id 32 Byte.x00) [])).
Definition manifest : StateManifest := unsigned_manifest (id 16 Byte.x02) (id 32 Byte.x07) 1
  (inventory_digest heads) false manifest_id (key ++ SIGNATURE_DOMAIN ++ manifest_id).
Definition commit_id : bytes :=
  digest (commit_transcript CURRENT_SIGNATURE_ALGORITHM contents).
Definition commit : ProtectedCommit := {|
  pc_version := COMMIT_VERSION; pc_signature_algorithm := CURRENT_SIGNATURE_ALGORITHM;
  pc_commit_id := commit_id; pc_contents := contents;
  pc_signature := key ++ commit_signature_payload commit_id |}.

Lemma manifest_signed :
  manifest_new (id 16 Byte.x02) (id 32 Byte.x07) 1 (inventory_digest heads) false signer
  = Ok manifest.
Proof. reflexivity. Qed.
Lemma commit_signed : commit_new contents signer = Ok commit.
Proof. reflexivity. Qed.
Lemma demo_signs_for : signs_for signer key.
Proof.
  intros payload s [= <-]. unfold prepared_verify, CURRENT_SIGNATURE_ALGORITHM. cbn.
  by rewrite bool_decide_true.
Qed.
Lemma contents_ok : contents_wf contents.
Proof.
  unfold contents_wf, is_array, opt_u64, is_u64, U64_MAX. cbn.
  split_and!; try reflexivity; try lia; intros ? [= <-]; [reflexivity|lia].
Qed.
Lemma manifest_ok : manifest_wf manifest ∧ inventory_wf heads.
Proof.
  assert (∀ b, is_array 32 (digest b)) as Hd by (intros b; apply (sha256_length b)).
  split; [|repeat constructor; apply Hd].
  split_and!; [done|done|reflexivity|reflexivity|done|apply Hd].
Qed.
Lemma commit_accepted : commit_verify commit commit_id (id 32 Byte.x07) key = Ok tt.
Proof. vm_compute. reflexivity. Qed.
Lemma manifest_accepted :
  manifest_verify manifest (id 16 Byte.x02) (id 32 Byte.x07) key = Ok tt.
Proof. vm_compute. reflexivity. Qed.
End ManifestDemo.
Import ManifestDemo.

Example protected_commit_binds_fields_witness :
  pc_contents commit = pc_contents commit
  ∨ sha256_collides (commit_transcript (pc_signature_algorithm commit) (pc_contents commit))
      (commit_transcript (pc_signature_algorithm commit) (pc_contents commit)).
Proof.
  exact (protected_commit_binds_fields commit commit commit_id _ _ key key
    contents_ok contents_ok commit_accepted commit_accepted).
Defined.

Example manifest_binds_inventory_witness :
  sm_document_count manifest = 1
  ∧ ((heads = heads ∧ id 16 Byte.x02 = id 16 Byte.x02 ∧ id 32 Byte.x07 = id 32 Byte.x07
      ∧ sm_document_count manifest = sm_document_count manifest
      ∧ sm_repack_pending manifest = sm_repack_pending manifest)
     ∨ sha256_collides (transcript manifest) (transcript manifest)
     ∨ sha256_collides (inventory_preimage heads) (inventory_preimage heads)).
Proof.
  split; [reflexivity|].
  exact (manifest_binds_inventory manifest manifest _ _ _ _ key key heads heads
    (proj1 manifest_ok) (proj1 manifest_ok) (proj2 manifest_ok) (proj2 manifest_ok)
    manifest_accepted manifest_accepted eq_refl eq_refl eq_refl).
Defined.

Example signed_records_verify_witness :
  manifest_verify manifest (id 16 Byte.x02) (id 32 Byte.x07) key = Ok tt
  ∧ commit_verify commit (pc_commit_id commit) (id 32 Byte.x07) key = Ok tt.
Proof.
  destruct (signed_records_verify signer key _ _ _ _ _ manifest contents commit
    demo_signs_for manifest_signed commit_signed) as (Hm & Hc & _).
  exact (conj Hm Hc).
Defined.
