(* ===== verification/Service.v ===== *)
(** The request service (src/src/vault/protocol/service.rs and service/state.rs):
    one live state behind a lock, with the unseal lease, the replay window and the
    approval queue, and the handler every transport calls.

    Time, randomness, the seal flag that other threads raise and what other
    requests do while one waits come from an environment, indexed by how often the
    clock has been read.  A panic while the lock is held poisons it. *)
From Stdlib Require Import ZArith Lia Bool.
From stdpp Require Import base gmap strings list.
From S2P Require Import Prelude Core Address Clock Lease Text Wire History StoreSpec Signature Grant.
From S2P Require Import Approvals Protocol Actions KeyringIndex.

(** ** State *)

Record ServiceState (St : Type) : Type := {
  (** The store, the deadline of the request in progress, the seal flag, and the
      number of clock readings. *)
  sv_request : RequestState St;
  (** The instant the store seals itself at ([WorkerStatus::deadline]). *)
  sv_deadline : option Z;
  sv_lease : UnsealLease;
  sv_replay : ReplayWindow;
  sv_approvals : PendingApprovals;
  sv_granted_permissions : list Permission;
  sv_last_purge_at : Z;
  sv_poisoned : bool
}.
Arguments sv_request {St} _.
Arguments sv_deadline {St} _.
Arguments sv_lease {St} _.
Arguments sv_replay {St} _.
Arguments sv_approvals {St} _.
Arguments sv_granted_permissions {St} _.
Arguments sv_last_purge_at {St} _.
Arguments sv_poisoned {St} _.

(** What a request comes to: an answer, a request for approval (an error with an
    interaction), or a panic. *)
Module Outcome.
Inductive outcome : Set :=
| Done (b : VaultResponseBody.body)
| Interaction (reference : VaultInteractionReference)
| Panicked.
End Outcome.

Record Environment (St : Type) : Type := {
  env_readings : nat → Z * Z;
  env_seal : nat → bool;
  env_random : nat → VaultResult (bytes * bytes);
  env_interference : nat → ServiceState St → ServiceState St
}.
Arguments env_readings {St} _.
Arguments env_seal {St} _.
Arguments env_random {St} _.
Arguments env_interference {St} _.

Section Updates.
Context {St : Type}.
Abbreviation SS := (ServiceState St).

Definition set_request (st : SS) (r : RequestState St) : SS := {|
  sv_request := r; sv_deadline := sv_deadline st; sv_lease := sv_lease st;
  sv_replay := sv_replay st; sv_approvals := sv_approvals st;
  sv_granted_permissions := sv_granted_permissions st;
  sv_last_purge_at := sv_last_purge_at st; sv_poisoned := sv_poisoned st |}.
Definition set_store_deadline (st : SS) (d : option Z) : SS := {|
  sv_request := sv_request st; sv_deadline := d; sv_lease := sv_lease st;
  sv_replay := sv_replay st; sv_approvals := sv_approvals st;
  sv_granted_permissions := sv_granted_permissions st;
  sv_last_purge_at := sv_last_purge_at st; sv_poisoned := sv_poisoned st |}.
Definition set_lease (st : SS) (l : UnsealLease) : SS := {|
  sv_request := sv_request st; sv_deadline := sv_deadline st; sv_lease := l;
  sv_replay := sv_replay st; sv_approvals := sv_approvals st;
  sv_granted_permissions := sv_granted_permissions st;
  sv_last_purge_at := sv_last_purge_at st; sv_poisoned := sv_poisoned st |}.
Definition set_replay (st : SS) (w : ReplayWindow) : SS := {|
  sv_request := sv_request st; sv_deadline := sv_deadline st; sv_lease := sv_lease st;
  sv_replay := w; sv_approvals := sv_approvals st;
  sv_granted_permissions := sv_granted_permissions st;
  sv_last_purge_at := sv_last_purge_at st; sv_poisoned := sv_poisoned st |}.
Definition set_approvals (st : SS) (p : PendingApprovals) : SS := {|
  sv_request := sv_request st; sv_deadline := sv_deadline st; sv_lease := sv_lease st;
  sv_replay := sv_replay st; sv_approvals := p;
  sv_granted_permissions := sv_granted_permissions st;
  sv_last_purge_at := sv_last_purge_at st; sv_poisoned := sv_poisoned st |}.
Definition set_granted (st : SS) (g : list Permission) : SS := {|
  sv_request := sv_request st; sv_deadline := sv_deadline st; sv_lease := sv_lease st;
  sv_replay := sv_replay st; sv_approvals := sv_approvals st;
  sv_granted_permissions := g;
  sv_last_purge_at := sv_last_purge_at st; sv_poisoned := sv_poisoned st |}.
Definition set_last_purge (st : SS) (now : Z) : SS := {|
  sv_request := sv_request st; sv_deadline := sv_deadline st; sv_lease := sv_lease st;
  sv_replay := sv_replay st; sv_approvals := sv_approvals st;
  sv_granted_permissions := sv_granted_permissions st;
  sv_last_purge_at := now; sv_poisoned := sv_poisoned st |}.
Definition set_poisoned (st : SS) : SS := {|
  sv_request := sv_request st; sv_deadline := sv_deadline st; sv_lease := sv_lease st;
  sv_replay := sv_replay st; sv_approvals := sv_approvals st;
  sv_granted_permissions := sv_granted_permissions st;
  sv_last_purge_at := sv_last_purge_at st; sv_poisoned := true |}.

Definition set_sealed (st : SS) (sealed : bool) : SS :=
  let r := sv_request st in
  set_request st {| rq_store := rq_store r; rq_valid_until := rq_valid_until r;
                    rq_sealed := sealed; rq_ticks := rq_ticks r |}.
Definition set_store (st : SS) (s : St) : SS :=
  let r := sv_request st in
  set_request st {| rq_store := s; rq_valid_until := rq_valid_until r;
                    rq_sealed := rq_sealed r; rq_ticks := rq_ticks r |}.
(** A request starts without a deadline. *)
Definition start_request (st : SS) : SS :=
  let r := sv_request st in
  set_request st {| rq_store := rq_store r; rq_valid_until := None;
                    rq_sealed := rq_sealed r; rq_ticks := rq_ticks r |}.
Definition tick (st : SS) : SS :=
  let r := sv_request st in
  set_request st {| rq_store := rq_store r; rq_valid_until := rq_valid_until r;
                    rq_sealed := rq_sealed r; rq_ticks := S (rq_ticks r) |}.
Definition ticks (st : SS) : nat := rq_ticks (sv_request st).
End Updates.

Section Service.
Context `{Sha256, Base64} `{MlDsa65}.
Context `{Serde AccessGrant, Serde PermissionRegistry, Serde StoredApprovals}.
Context `{Serde Index, Serde PortableItem, Serde Permission} `{SerdeChunks VaultRequest}.
Context `{VaultStore St}.

Context (env : Environment St) (device : DeviceInfo) (device_key : bytes).
(** The process behind a message-bus name, found by the platform. *)
Context (keyring_peer : string → VaultResult (CallerIdentity * string)).
(** Decoding a personal item of any version under its title and encoding it again:
    its identifier and current encoding (src/src/personal.rs). *)
Context (personal_item : string → bytes → option (string * bytes)).

Abbreviation SS := (ServiceState St).
Abbreviation LM := (SM SS).

(** ** Steps *)

Definition on_request {A} (m : SM (RequestState St) A) : LM A := λ st,
  let '(r, rq) := m (sv_request st) in (r, set_request st rq).

Definition with_store {A} (m : SM St A) : LM A := on_request (on_store m).

(** [Instant::now()]. *)
Definition instant : LM Z := λ st, (Ok (env_readings env (ticks st)).1, tick st).

(** [WorkerStatus::is_sealed]: the flag, raised here or by another thread, or the
    deadline has passed, which raises it. *)
Definition is_sealed : LM bool := λ st,
  let n := ticks st in
  let sealed := rq_sealed (sv_request st) || env_seal env n
    || opt_test (λ deadline, deadline <=? (env_readings env n).1) (sv_deadline st) in
  (Ok sealed, tick (set_sealed st sealed)).

(** [VaultStore::seal] and [request_seal]. *)
Definition seal_store : LM () := λ st, (Ok tt, set_sealed st true).

(** [WorkerControl::set_deadline]. *)
Definition set_deadline (deadline : Z) : LM () := λ st,
  let n := ticks st in
  if rq_sealed (sv_request st) || env_seal env n
     || opt_test (λ old, old <=? (env_readings env n).1) (sv_deadline st)
  then (Err VaultError.Sealed, tick (set_sealed st true))
  else (Ok tt, tick (set_store_deadline st (Some deadline))).

(** A panic with the lock held. *)
Definition panic : LM Outcome.outcome := λ st, (Ok Outcome.Panicked, set_poisoned st).

Definition lock_live (now : Z) : LM () :=
  sealed ← is_sealed;
  _ ← lift (fail_if sealed VaultError.Sealed);
  stateful (λ st,
    if sv_poisoned st then (Err VaultError.WorkerUnavailable, st)
    else (sealed ← is_sealed;
          instant_now ← instant;
          if sealed || lease_is_expired (sv_lease st) (Z.max now instant_now)
          then _ ← seal_store; lift (Err VaultError.Sealed)
          else mret tt) st).

Definition check_live (now : Z) : LM () := lock_live now.

(** [ServiceState::seal]. *)
Definition service_seal : LM () := seal_store.

(** [LiveStateGuard::consume]. *)
Definition consume_id (request_id : bytes) : LM () := λ st,
  let '(r, w) := consume (sv_replay st) request_id in (r, set_replay st w).

Definition lease_deadlines (st : SS) : Z * Z :=
  (idle_deadline (sv_lease st), absolute_deadline (sv_lease st)).

(** [LiveStateGuard::touch]. *)
Definition touch_lease (now monotonic_now : Z) : LM () :=
  sealed ← is_sealed;
  instant_now ← instant;
  stateful (λ st,
    if sealed || lease_is_expired (sv_lease st) (Z.max monotonic_now instant_now)
    then (_ ← seal_store; lift (Err VaultError.Sealed)) st
    else
      let '(r, l) := touch (sv_lease st) now monotonic_now in
      (_ ← lift r; set_deadline (expires_at l)) (set_lease st l)).

(** [LiveStateGuard::save_approvals], best effort. *)
Definition save_approvals (now : Z) : LM () := λ st,
  let '(_, p, s) := save (sv_approvals st) now (rq_store (sv_request st)) in
  (Ok tt, set_store (set_approvals st p) s).

(** [LiveStateGuard::create_approval]; [None] is a panic. *)
Definition create_approval (candidate : ApprovalCandidate) (now : Z)
    : LM (option VaultInteractionReference) :=
  instant_now ← instant;
  stateful (λ st,
    let revision := pa_revision (sv_approvals st) in
    match create_at (sv_approvals st) candidate now instant_now (env_random env (ticks st)) with
    | None => (Ok None, st)
    | Some (interaction, p) =>
        (_ ← (if pa_revision p =? revision then mret tt else save_approvals now);
         reference ← lift interaction;
         mret (Some reference)) (set_approvals st p)
    end).

(** [LiveStateGuard::list_permissions]. *)
Definition list_permissions (now : Z) : LM (Z * list Permission) :=
  instant_now ← instant;
  pending ← stateful (λ st,
    let '(_, permissions, p) := list_at (sv_approvals st) now instant_now in
    (Ok permissions, set_approvals st p));
  _ ← save_approvals now;
  granted ← with_store (list_granted_permissions now);
  stateful (λ st,
    let granted := sort_by perm_id granted in
    let st :=
      if bool_decide (granted = sv_granted_permissions st) then st
      else set_approvals (set_granted st granted) (changed (sv_approvals st)) in
    (Ok (pa_revision (sv_approvals st), sort_by perm_id (pending ++ granted)), st)).

(** [LiveStateGuard::deny_approval]; [None] is a panic. *)
Definition deny_approval (id : string) (now : Z) : LM (option ()) := λ st,
  match deny (sv_approvals st) id now with
  | None => (Ok None, st)
  | Some (r, p) => (_ ← lift r; _ ← save_approvals now; mret (Some tt)) (set_approvals st p)
  end.

(** [LiveStateGuard::revoke_permission]. *)
Definition revoke (id : string) (now : Z) (provenance : Provenance.provenance) : LM () :=
  _ ← with_store (revoke_permission id now provenance);
  stateful (λ st, (Ok tt, set_approvals st (changed (sv_approvals st)))).

(** [LiveStateGuard::approve]. *)
Definition approve_request (id : string) (signature : bytes) (lifetime : ApprovedLifetime)
    (now : Z) (provenance : Provenance.provenance) : LM () := λ st,
  let '(r, p, s) := approve device_key (sv_approvals st) id signature lifetime now provenance
                      (rq_store (sv_request st)) in
  (_ ← lift r; save_approvals now) (set_store (set_approvals st p) s).

(** ** Waiting *)

(** The lock is released while a request waits: other requests run.  The deadline
    of this request is its own. *)
Definition interfered (st : SS) : SS :=
  let r := sv_request st in
  let st' := env_interference env (ticks st) st in
  let r' := sv_request st' in
  set_request st' {|
    rq_store := rq_store r'; rq_valid_until := rq_valid_until r;
    rq_sealed := rq_sealed r'; rq_ticks := S (rq_ticks r) |}.

Definition wait : LM () := λ st,
  let st' := interfered st in
  if sv_poisoned st' then (Err VaultError.WorkerUnavailable, st') else (Ok tt, st').

(** The check at the top of both waiting loops. *)
Definition still_live : LM () :=
  sealed ← is_sealed;
  instant_now ← instant;
  stateful (λ st,
    if sealed || lease_is_expired (sv_lease st) instant_now
    then (_ ← seal_store; lift (Err VaultError.Sealed)) st
    else (Ok tt, st)).

Context (clock : RequestTime).

Definition sample : LM (Z * Z) := λ st,
  let '(i, s) := env_readings env (ticks st) in (Ok (sample_at clock i s i), tick st).
Definition wall_now : LM Z := on_request (wall clock (env_readings env)).
Definition check_request : LM () := on_request (check_valid_until clock (env_readings env)).
Definition tighten_request (deadline : option Z) : LM () :=
  on_request (tighten_valid_until deadline).

Definition permission_status (caller : CallerIdentity) (id : string) (now : Z)
    : LM PermissionWaitStatus.status := λ st,
  let '(status, p) := approval_status (sv_approvals st) caller id now in
  (ok_or (VaultError.Protocol "permission does not belong to this caller") status,
   set_approvals st p).

Definition wait_overflows : VaultError.error :=
  VaultError.Protocol "permission wait timeout overflows".

(** The loop of [wait_for_permission]: [wakeups] is how often the wait is woken
    before the timeout has passed. *)
Fixpoint permission_loop (caller : CallerIdentity) (id : string) (wakeups : nat)
    : LM PermissionWaitStatus.status :=
  _ ← still_live;
  now ← wall_now;
  status ← permission_status caller id now;
  if bool_decide (status = PermissionWaitStatus.Pending)
  then match wakeups with
       | O => mret PermissionWaitStatus.Pending
       | S wakeups => _ ← wait; permission_loop caller id wakeups
       end
  else mret status.

Definition wait_for_permission (caller : CallerIdentity) (id : string) (timeout : Z)
    (wakeups : nat) : LM PermissionWaitStatus.status :=
  started ← instant;
  deadline ← lift (ok_or wait_overflows (instant_checked_add started timeout));
  _ ← stateful (λ st, (Ok tt, set_approvals st (awaited (sv_approvals st) caller id deadline)));
  permission_loop caller id wakeups.

(** [permission_manager_deadline] and [require_live_manager]. *)
Definition permission_manager_deadline (caller : CallerIdentity) (now : Z) : LM (option Z) :=
  with_store (require_grant_until caller manager_requirement now).

Definition require_live_manager (caller : CallerIdentity) : LM () :=
  now ← wall_now;
  deadline ← permission_manager_deadline caller now;
  _ ← tighten_request deadline;
  check_request.

(** The loop of [wait_for_approvals]; how long each wait lasts only decides how
    often it is woken. *)
Fixpoint approvals_loop (caller : CallerIdentity) (after_revision : Z) (wakeups : nat)
    : LM (Z * list Permission) :=
  _ ← still_live;
  now ← wall_now;
  _ ← permission_manager_deadline caller now;
  now ← wall_now;
  current ← list_permissions now;
  if current.1 =? after_revision
  then match wakeups with
       | O => mret current
       | S wakeups => _ ← wait; approvals_loop caller after_revision wakeups
       end
  else mret current.

Definition wait_for_approvals (caller : CallerIdentity) (after_revision timeout : Z)
    (wakeups : nat) : LM (Z * list Permission) :=
  now ← instant;
  _ ← lift (ok_or wait_overflows (instant_checked_add now timeout));
  approvals_loop caller after_revision wakeups.

(** ** Moving entries in and out of the vault *)

(** The lease is refreshed once an action has answered: sample, check, touch. *)
Definition refresh_lease : LM () :=
  sampled ← sample;
  _ ← check_request;
  touch_lease sampled.1 sampled.2.

Definition inventory (caller : CallerIdentity) (cursor : option string) (limit : Z)
    : LM VaultResponseBody.body :=
  _ ← require_live_manager caller;
  now ← wall_now;
  page ← with_store (list_vault_entries cursor limit now);
  _ ← refresh_lease;
  mret (VaultResponseBody.VaultEntries (sp_items page) (sp_next_cursor page)).

Definition secret_service_index (now : Z) : LM Index :=
  address ← lift (address_new INDEX_ITEM None);
  stored ← with_store (get_at LinuxSecretService SECRET_SERVICE_NAMESPACE address now);
  lift (index_decode stored).

Definition export_entry (caller : CallerIdentity) (entry : VaultEntryMetadata) (now : Z)
    : LM VaultResponseBody.body :=
  _ ← require_live_manager caller;
  secret ← with_store (get_with_deadline (em_document_kind entry) (em_partition entry)
                         (em_address entry) now);
  secret ← lift (ok_or (VaultError.InvalidData "vault entry disappeared during export") secret);
  _ ← tighten_request (ss_expires_at secret);
  sampled ← sample;
  _ ← check_request;
  _ ← touch_lease sampled.1 sampled.2;
  value ←
    (if bool_decide (em_document_kind entry = LinuxSecretService) then
       index ← secret_service_index sampled.1;
       item ← lift (ok_or (VaultError.InvalidData "keyring value has no index entry")
                (find_first (λ item, match index_item_address item with
                                     | Ok address => bool_decide (address = em_address entry)
                                     | Err _ => false
                                     end) (ix_items index)));
       lift (portable_encode (portable_new item (ss_value secret)))
     else mret (ss_value secret));
  mret (VaultResponseBody.VaultEntrySecret value (ss_expires_at secret)).

(** The items of an index with one replaced or added. *)
Definition index_with (index : Index) (existing : option nat) (item : IndexItem) : Index := {|
  ix_version := ix_version index;
  ix_items := match existing with
              | Some position => <[position := item]> (ix_items index)
              | None => ix_items index ++ [item]
              end |}.

Definition import_status_of (existing : bool) : VaultEntryImportStatus.import_status :=
  if existing then VaultEntryImportStatus.Replaced else VaultEntryImportStatus.Added.

(** [import_secret_service_item]; [request_id] is the random identifier of the
    request that is only built to be validated. *)
Definition import_secret_service_item (entry : VaultEntryMetadata) (value : bytes)
    (evict_at : option Z) (replace_existing : bool) (request_id : VaultResult bytes)
    (provenance : Provenance.provenance) (now : Z)
    : LM VaultEntryImportStatus.import_status :=
  _ ← lift (fail_if (negb (bool_decide (em_partition entry = SECRET_SERVICE_NAMESPACE))
                     || bool_decide (is_Some evict_at))
        (VaultError.Protocol "unsupported portable keyring partition or expiry"));
  portable ← lift (portable_decode value (em_address entry));
  index ← secret_service_index now;
  let existing :=
    position (λ item, String.eqb (ii_id item) (ii_id (pi_item portable))) (ix_items index) in
  if bool_decide (is_Some existing) && negb replace_existing
  then mret VaultEntryImportStatus.KeptExisting
  else
    index_bytes ← lift (map_err VaultError.InvalidData
                          (serde_to_vec (index_with index existing (pi_item portable))));
    local ← lift (ok_or (VaultError.Protocol "invalid keyring address")
                    (as_local (em_address entry)));
    request_id ← lift request_id;
    _ ← lift (request_validate (with_id request_id
           (VaultAction.Mutate SECRET_SERVICE_NAMESPACE
              [VaultMutation.Put {| wa_item := local.1; wa_field := None |}
                 (pi_value portable) None;
               VaultMutation.Put {| wa_item := INDEX_ITEM; wa_field := None |}
                 index_bytes None])));
    index_address ← lift (address_new INDEX_ITEM None);
    _ ← with_store (mutate LinuxSecretService SECRET_SERVICE_NAMESPACE
          [DocumentOperation.Put (em_address entry) (pi_value portable) None;
           DocumentOperation.Put index_address index_bytes None] provenance now);
    mret (import_status_of (bool_decide (is_Some existing))).

(** A personal item is stored under its own identifier, in the current encoding. *)
Definition personal_entry (entry : VaultEntryMetadata) (value : bytes) (evict_at : option Z)
    : VaultResult (SecretAddress * bytes) :=
  if is_personal (em_document_kind entry) (em_partition entry) then
    local ← ok_or (VaultError.Protocol "invalid personal address") (as_local (em_address entry));
    _ ← fail_if (bool_decide (is_Some local.2) || bool_decide (is_Some evict_at))
          (VaultError.Protocol "personal items cannot have fields or expiry");
    item ← ok_or (VaultError.Protocol "invalid personal item") (personal_item local.1 value);
    address ← address_new item.1 None;
    Ok (address, item.2)
  else Ok (em_address entry, value).

Definition import_entry (caller : CallerIdentity) (entry : VaultEntryMetadata) (value : bytes)
    (evict_at : option Z) (replace_existing : bool) (provenance : Provenance.provenance)
    (now : Z) : LM VaultResponseBody.body :=
  _ ← require_live_manager caller;
  _ ← lift (validate_evict_at evict_at now);
  status ←
    (if bool_decide (em_document_kind entry = LinuxSecretService) then
       stateful (λ st, import_secret_service_item entry value evict_at replace_existing
         (random ← env_random env (ticks st); Ok random.1) provenance now st)
     else
       target ← lift (personal_entry entry value evict_at);
       existing ← with_store (get_at (em_document_kind entry) (em_partition entry)
                                target.1 now);
       if bool_decide (is_Some existing) && negb replace_existing
       then mret VaultEntryImportStatus.KeptExisting
       else
         _ ← with_store (put_at (em_document_kind entry) (em_partition entry) target.1
               target.2 evict_at provenance now);
         mret (import_status_of (bool_decide (is_Some existing))));
  _ ← refresh_lease;
  mret (VaultResponseBody.VaultEntryImported status).

Definition write_cache_from_dialog (caller : CallerIdentity) (project : string)
    (address : SecretSpecAddress) (value : bytes) (evict_at : option Z)
    (provenance : Provenance.provenance) (now : Z) : LM VaultResponseBody.body :=
  _ ← require_live_manager caller;
  _ ← lift (validate_evict_at evict_at now);
  _ ← lift (fail_if (opt_test (λ declared, negb (String.eqb declared project))
                       (secret_spec_project address))
        (VaultError.Protocol "secret project mismatch"));
  address ← lift (address_secret_spec address);
  _ ← with_store (put_at SecretSpecProviderCache (as_bytes project) address value evict_at
        provenance now);
  _ ← check_request;
  sampled ← sample;
  _ ← touch_lease sampled.1 sampled.2;
  mret VaultResponseBody.Stored.

(** ** The handler *)

Definition done (m : LM VaultResponseBody.body) : LM Outcome.outcome :=
  b ← m; mret (Outcome.Done b).

(** The grant the host of the keyring adapter holds. *)
Definition adapter_requirement : GrantRequirement :=
  namespace_requirement LinuxSecretService SECRET_SERVICE_NAMESPACE None GrantPermission.Get.

Definition authorize_secret_input (caller : CallerIdentity) (sender : string) (now : Z)
    : LM VaultResponseBody.body :=
  deadline ← with_store (require_grant_until caller adapter_requirement now);
  _ ← tighten_request deadline;
  peer ← lift (keyring_peer sender);
  _ ← require_live_manager peer.1;
  mret (VaultResponseBody.PermissionWait PermissionWaitStatus.Granted).

(** An interaction to send back, or a panic. *)
Definition ask_approval (candidate : ApprovalCandidate) (now : Z) : LM Outcome.outcome :=
  reference ← create_approval candidate now;
  match reference with
  | Some reference => mret (Outcome.Interaction reference)
  | None => panic
  end.

(** Run an action that [execute_action] accepts. *)
Definition run_action (caller : CallerIdentity) (action : VaultAction.action)
    (provenance : Provenance.provenance) (base_dir : option string)
    (continue : VaultResult (VaultResponseBody.body * bool) → LM Outcome.outcome)
    : LM Outcome.outcome :=
  stateful (λ st,
    match execute_action clock (env_readings env) device caller action (lease_deadlines st)
            provenance base_dir with
    | None => panic st
    | Some m => catch (on_request m) continue st
    end).

Definition keyring_access (caller : CallerIdentity) (entry : option SecretAddress)
    (sender service : string) (operation : PermissionOperation.operation)
    (bridged : option VaultAction.action) (pending : option string) (wakeups : nat) (now : Z)
    : LM Outcome.outcome :=
  broker_deadline ← with_store (require_grant_until caller adapter_requirement now);
  _ ← tighten_request broker_deadline;
  _ ← check_request;
  peer ← lift (keyring_peer sender);
  match pending with
  | Some id =>
      status ← wait_for_permission peer.1 id (NANOS / 1000) wakeups;
      mret (Outcome.Done (VaultResponseBody.PermissionWait status))
  | None =>
      let candidate := for_keyring peer.1 service entry peer.2 operation in
      catch (with_store (require_keyring candidate now)) (λ required,
        match required with
        | Err VaultError.AuthorizationRequired => ask_approval candidate now
        | Err e => lift (Err e)
        | Ok deadline =>
            _ ← tighten_request deadline;
            _ ← check_request;
            match bridged with
            | None => mret (Outcome.Done (VaultResponseBody.PermissionWait
                              PermissionWaitStatus.Granted))
            | Some action =>
                run_action caller action (provenance_caller peer.1 None) None (λ r,
                  result ← lift r;
                  _ ← check_request;
                  _ ← (if (result.2 : bool) then
                         sampled ← sample; touch_lease sampled.1 sampled.2
                       else mret tt);
                  mret (Outcome.Done result.1))
            end
        end)
  end.

Definition permissions_page (caller : CallerIdentity) (page : option (Z * string)) (now : Z)
    : LM VaultResponseBody.body :=
  _ ← require_live_manager caller;
  listed ← list_permissions now;
  _ ← lift (fail_if (opt_test (λ '(expected, _), negb (listed.1 =? expected)) page)
        VaultError.Conflict);
  lift (permission_page listed.1 listed.2 (snd <$> page)).

(** The actions a permission manager decides with. *)
Definition deny_action (caller : CallerIdentity) (id : string) : LM Outcome.outcome :=
  _ ← require_live_manager caller;
  now ← wall_now;
  denied ← deny_approval id now;
  match denied with
  | Some _ => mret (Outcome.Done (VaultResponseBody.PermissionChanged PermissionChange.Denied))
  | None => panic
  end.

Definition approve_action (caller : CallerIdentity) (id : string) (signature : bytes)
    (duration_seconds : option Z) (single_use : bool) (provenance : Provenance.provenance)
    : LM VaultResponseBody.body :=
  _ ← require_live_manager caller;
  now ← wall_now;
  _ ← approve_request id signature
        {| al_duration_seconds := duration_seconds; al_single_use := single_use |} now provenance;
  sampled ← sample;
  _ ← touch_lease sampled.1 sampled.2;
  mret (VaultResponseBody.PermissionChanged PermissionChange.Granted).

Definition revoke_action (caller : CallerIdentity) (id : string)
    (provenance : Provenance.provenance) : LM VaultResponseBody.body :=
  _ ← require_live_manager caller;
  now ← wall_now;
  _ ← revoke id now provenance;
  sampled ← sample;
  _ ← touch_lease sampled.1 sampled.2;
  mret (VaultResponseBody.PermissionChanged PermissionChange.Revoked).

(** The action of a request, once its identifier has been consumed. *)
Definition dispatch (caller : CallerIdentity) (application : option VaultApplicationContext)
    (approval : option ApprovalCandidate) (provenance : Provenance.provenance)
    (wakeups : nat) (now : Z) (action : VaultAction.action) : LM Outcome.outcome :=
  match action with
  | VaultAction.ExportRevision => done (
      _ ← require_live_manager caller;
      _ ← with_store (purge_expired_at now);
      revision ← with_store export_revision;
      mret (VaultResponseBody.ExportRevision revision))
  | VaultAction.ListVaultEntries cursor limit => done (inventory caller cursor limit)
  | VaultAction.ExportVaultEntry entry => done (export_entry caller entry now)
  | VaultAction.ImportVaultEntry entry value evict_at replace_existing =>
      done (import_entry caller entry value evict_at replace_existing provenance now)
  | VaultAction.WriteCacheFromDialog project address value evict_at =>
      done (write_cache_from_dialog caller project address value evict_at provenance now)
  | VaultAction.AuthorizeSecretInput sender => done (authorize_secret_input caller sender now)
  | VaultAction.KeyringAccess entry sender service operation bridged pending =>
      keyring_access caller entry sender service operation bridged pending wakeups now
  | VaultAction.ListPermissions => done (permissions_page caller None now)
  | VaultAction.ListPermissionsPage revision cursor =>
      done (permissions_page caller (Some (revision, cursor)) now)
  | VaultAction.WaitPermissions after_revision timeout_ms => done (
      _ ← require_live_manager caller;
      listed ← wait_for_approvals caller after_revision (timeout_ms * (NANOS / 1000)) wakeups;
      lift (permission_page listed.1 listed.2 None))
  | VaultAction.WaitPermission id timeout_ms => done (
      status ← wait_for_permission caller id (timeout_ms * (NANOS / 1000)) wakeups;
      mret (VaultResponseBody.PermissionWait status))
  | VaultAction.DenyPermission id => deny_action caller id
  | VaultAction.ApprovePermission id signature duration_seconds single_use =>
      done (approve_action caller id signature duration_seconds single_use provenance)
  | VaultAction.RevokePermission id => done (revoke_action caller id provenance)
  | action =>
      run_action caller action provenance (application ≫= app_base_dir) (λ r,
        match r with
        | Ok (body, refreshes) =>
            _ ← (if (refreshes : bool) then refresh_lease else mret tt);
            mret (Outcome.Done body)
        | Err VaultError.AuthorizationRequired =>
            match approval with
            | Some candidate => ask_approval candidate now
            | None => lift (Err VaultError.AuthorizationRequired)
            end
        | Err e => lift (Err e)
        end)
  end.

Definition handle_inner (caller : CallerIdentity) (request : VaultRequest) (wakeups : nat)
    : LM Outcome.outcome :=
  _ ← lift (caller_validate caller);
  _ ← lift (request_validate request);
  let application := req_application request in
  let approval := for_request caller application (req_action request) in
  let provenance := provenance_caller caller application in
  sampled ← sample;
  _ ← lock_live sampled.2;
  now ← wall_now;
  _ ← consume_id (req_request_id request);
  dispatch caller application approval provenance wakeups now (req_action request).
End Service.

(** What a trusted host in the same process may grant
    (src/src/vault/protocol/service/authorization.rs). *)

Module AuthorizationTarget.
Inductive target : Set :=
| Kind (kind : DocumentKind)
| Namespace (scope : DocumentKind) (namespace : bytes)
| Entry (scope : DocumentKind) (namespace : bytes) (address : WireSecretAddress)
| PermissionManagement.
End AuthorizationTarget.

Record GrantAuthorization : Set := {
  ga_caller : CallerIdentity;
  ga_target : AuthorizationTarget.target;
  ga_permissions : list GrantPermission.permission;
  ga_expires_at : option Z
}.

(** What the keyring adapter's host is granted (src/src/vault/secret_service.rs). *)
Definition SECRET_SERVICE_PERMISSIONS : list GrantPermission.permission :=
  [GrantPermission.Get; GrantPermission.Put; GrantPermission.Delete; GrantPermission.Seal].

(** ** Entry points *)

Section Entry.
Context `{Sha256, Base64} `{MlDsa65}.
Context `{Serde AccessGrant, Serde PermissionRegistry, Serde StoredApprovals}.
Context `{Serde Index, Serde PortableItem, Serde Permission} `{SerdeChunks VaultRequest}.
Context `{VaultStore St}.
Context (env : Environment St) (device : DeviceInfo) (device_key : bytes).
Context (keyring_peer : string → VaultResult (CallerIdentity * string)).
Context (personal_item : string → bytes → option (string * bytes)).

Abbreviation SS := (ServiceState St).
Abbreviation LM := (SM SS).

(** [RequestTime::new] reads both clocks. *)
Definition start_clock (now monotonic_now : Z) (st : SS) : RequestTime * SS :=
  let '(i, s) := env_readings env (ticks st) in
  (request_time_new now monotonic_now s i, tick st).

Definition earlier (a b : option Z) : option Z :=
  match a, b with
  | Some a, Some b => Some (Z.min a b)
  | Some a, None => Some a
  | None, b => b
  end.

(** The answer of [handle_inner] as the response carries it. *)
Definition answer (r : VaultResult Outcome.outcome)
    : option (VaultResponseBody.body + VaultResponseError) :=
  match r with
  | Ok (Outcome.Done b) => Some (inl b)
  | Ok (Outcome.Interaction reference) =>
      Some (inr (response_error_with_interaction VaultError.AuthorizationRequired
                   (Some reference)))
  | Ok Outcome.Panicked => None
  | Err e => Some (inr (response_error_with_interaction e None))
  end.

(** The final checks: a seal is carried out; otherwise the service must still be
    live, and a result must still be covered by the authority it used. *)
Definition release (clock : RequestTime) (result : VaultResponseBody.body + VaultResponseError)
    (st : SS) : (VaultResponseBody.body + VaultResponseError) * SS :=
  match result with
  | inl VaultResponseBody.Sealed => (result, (service_seal st).2)
  | _ =>
      match (sampled ← sample env clock; check_live env sampled.2) st with
      | (Err _, st) => (inr (response_error VaultError.Sealed), st)
      | (Ok _, st) =>
          match result with
          | inl _ =>
              match check_request env clock st with
              | (Err _, st) => (inr (response_error VaultError.Expired), st)
              | (Ok _, st) => (result, st)
              end
          | inr _ => (result, st)
          end
      end
  end.

(** How long a response may be delivered: until the lease or the authority it used
    ends; errors and seal acknowledgements carry no secrets. *)
Definition delivery_deadline (clock : RequestTime)
    (result : VaultResponseBody.body + VaultResponseError) (st : SS) : option Z :=
  match result with
  | inl VaultResponseBody.Sealed | inr _ => None
  | inl _ =>
      let '(i, s) := env_readings env (ticks st) in
      earlier (sv_deadline st)
        ((λ deadline, deadline_at clock deadline i s) <$> rq_valid_until (sv_request st))
  end.

(** [VaultService::handle_at]; no response if the request panics. *)
Definition handle_at (caller : CallerIdentity) (request : VaultRequest) (now monotonic_now : Z)
    (wakeups : nat) (st : SS) : option VaultResponse * SS :=
  let '(clock, st) := start_clock now monotonic_now (start_request st) in
  let '(r, st) := handle_inner env device device_key keyring_peer personal_item clock
                    caller request wakeups st in
  match answer r with
  | None => (None, st)
  | Some result =>
      let '(result, st) := release clock result st in
      let deadline := delivery_deadline clock result st in
      (Some {| resp_version := PROTOCOL_VERSION;
               resp_request_id := req_request_id request;
               resp_result := result;
               resp_delivery_deadline := deadline;
               resp_delivery_cancelled :=
                 (λ _, rq_sealed (sv_request st) || env_seal env (ticks st)) <$> deadline |}, st)
  end.

(** [VaultService::handle]: [monotonic_now] is read when the request arrives. *)
Definition handle (caller : CallerIdentity) (request : VaultRequest) (now : Z)
    (wakeups : nat) (st : SS) : option VaultResponse * SS :=
  handle_at caller request now (env_readings env (ticks st)).1 wakeups (tick st).

(** [ServiceState::new]: the lease starts, the store is told when to seal, and the
    requests still waiting for review are loaded. *)
Definition service_new (store : St) (now : Z) (policy : UnsealLeasePolicy)
    : VaultResult SS :=
  lease ← new_at now (env_readings env 0).1 policy;
  _ ← fail_if (env_seal env 1) VaultError.Sealed;
  let '(approvals, store) := load_approvals now store in
  Ok {| sv_request := {| rq_store := store; rq_valid_until := None; rq_sealed := false;
                         rq_ticks := 2 |};
        sv_deadline := Some (expires_at lease); sv_lease := lease; sv_replay := replay_new;
        sv_approvals := approvals; sv_granted_permissions := []; sv_last_purge_at := now;
        sv_poisoned := false |}.

(** [ServiceState::expire_if_needed]: seal when the lease is over, and sweep
    expired records once a second. *)
Definition expire_if_needed (now monotonic_now : Z) : LM bool :=
  clock ← stateful (λ st, let '(clock, st) := start_clock now monotonic_now st in (Ok clock, st));
  sealed ← is_sealed env;
  if (sealed : bool) then mret true
  else
    _ ← stateful (λ st, (if sv_poisoned st then Err VaultError.WorkerUnavailable else Ok tt, st));
    sealed ← is_sealed env;
    if (sealed : bool) then mret true
    else
      sampled ← sample env clock;
      instant_now ← instant env;
      stateful (λ st,
        if lease_is_expired (sv_lease st) (Z.max sampled.2 instant_now)
        then (_ ← seal_store; mret true) st
        else if sv_last_purge_at st =? sampled.1 then (Ok false, st)
        else (_ ← with_store (purge_expired_at sampled.1);
              stateful (λ st, (Ok false, set_last_purge st sampled.1))) st).

(** *** Grants issued by the host *)

Definition authorization_target (t : AuthorizationTarget.target)
    : VaultResult GrantTarget.grant_target :=
  match t with
  | AuthorizationTarget.Kind kind => Ok (GrantTarget.Kind kind)
  | AuthorizationTarget.Namespace scope namespace => Ok (GrantTarget.Namespace scope namespace)
  | AuthorizationTarget.PermissionManagement =>
      Ok (GrantTarget.Namespace Authorization PERMISSION_CONTROL_NAMESPACE)
  | AuthorizationTarget.Entry scope namespace address =>
      address ← resolve address; Ok (GrantTarget.Entry scope namespace address)
  end.

Definition prepare_authorization (g : GrantAuthorization) (now : Z)
    : VaultResult (list PreparedGrant) :=
  target ← authorization_target (ga_target g);
  prepare_grant (ga_caller g) target (ga_permissions g) (ga_expires_at g) now.

Definition authorize_batch (grants : list GrantAuthorization) (now : Z) : LM () :=
  i ← instant env;
  _ ← lock_live env i;
  prepared ← lift (try_collect (λ g, prepare_authorization g now) grants);
  _ ← with_store (store_prepared_grants (mjoin prepared) now);
  i ← instant env;
  touch_lease env now i.

Definition authorize (caller : CallerIdentity) (target : AuthorizationTarget.target)
    (permissions : list GrantPermission.permission) (expires_at : option Z) (now : Z) : LM () :=
  authorize_batch [{| ga_caller := caller; ga_target := target; ga_permissions := permissions;
                      ga_expires_at := expires_at |}] now.

Definition authorize_document_kind (caller : CallerIdentity) (kind : DocumentKind)
    (permissions : list GrantPermission.permission) (expires_at : option Z) (now : Z) : LM () :=
  authorize caller (AuthorizationTarget.Kind kind) permissions expires_at now.

Definition authorize_permission_manager (caller : CallerIdentity) (now : Z) : LM () :=
  authorize caller
    (AuthorizationTarget.Namespace Authorization PERMISSION_CONTROL_NAMESPACE)
    [GrantPermission.ManagePermissions] None now.

Definition authorize_entry (caller : CallerIdentity) (namespace : bytes)
    (address : WireSecretAddress) (permissions : list GrantPermission.permission)
    (expires_at : option Z) (now : Z) : LM () :=
  authorize caller (AuthorizationTarget.Entry LocalKeyring namespace address) permissions
    expires_at now.

Definition authorize_cache_entry (caller : CallerIdentity) (namespace : bytes)
    (address : WireSecretAddress) (permissions : list GrantPermission.permission)
    (expires_at : option Z) (now : Z) : LM () :=
  authorize caller (AuthorizationTarget.Entry SecretSpecProviderCache namespace address)
    permissions expires_at now.

Definition authorize_namespace (caller : CallerIdentity) (namespace : bytes)
    (permissions : list GrantPermission.permission) (expires_at : option Z) (now : Z) : LM () :=
  authorize caller (AuthorizationTarget.Namespace LocalKeyring namespace) permissions
    expires_at now.

Definition authorize_cache_namespace (caller : CallerIdentity) (namespace : bytes)
    (permissions : list GrantPermission.permission) (expires_at : option Z) (now : Z) : LM () :=
  authorize caller (AuthorizationTarget.Namespace SecretSpecProviderCache namespace)
    permissions expires_at now.

Definition authorize_exclusive `{Serde ExclusiveHolder} (caller : CallerIdentity)
    (target : GrantTarget.grant_target) (permissions : list GrantPermission.permission)
    (now : Z) : LM () :=
  i ← instant env;
  _ ← lock_live env i;
  _ ← with_store (store_exclusive_grant caller target permissions now);
  i ← instant env;
  touch_lease env now i.

Definition authorize_network_manager_host `{Serde ExclusiveHolder} (caller : CallerIdentity)
    (now : Z) : LM () :=
  authorize_exclusive caller
    (GrantTarget.Namespace NetworkManagerWifi NETWORK_MANAGER_NAMESPACE)
    [GrantPermission.Get; GrantPermission.Put; GrantPermission.Delete] now.

Definition authorize_secret_service_namespace `{Serde ExclusiveHolder}
    (caller : CallerIdentity) (namespace : bytes)
    (permissions : list GrantPermission.permission) (now : Z) : LM () :=
  authorize_exclusive caller (GrantTarget.Namespace LinuxSecretService namespace)
    permissions now.

(** The adapter of the Linux system keyring. *)
Definition authorize_secret_service_host `{Serde ExclusiveHolder} (caller : CallerIdentity)
    (now : Z) : LM () :=
  _ ← authorize_secret_service_namespace caller SECRET_SERVICE_NAMESPACE
        SECRET_SERVICE_PERMISSIONS now;
  authorize_network_manager_host caller now.
End Entry.
