(* ===== verification/ServiceSteps.v ===== *)
(** What the steps of a request preserve.  A relation between states that every
    elementary change respects is respected by every computation of the service. *)
From Stdlib Require Import ZArith Lia Bool.
From stdpp Require Import base gmap strings list.
From S2P Require Import Prelude Core Address Clock Lease Text Wire History StoreSpec Signature Grant.
From S2P Require Import GrantProofs Approvals ApprovalProofs Protocol Actions ActionProofs.
From S2P Require Import KeyringIndex Service.

Section Steps.
Context `{Sha256Ok, Base64Ok} `{MlDsa65}.
Context `{Serde AccessGrant, Serde PermissionRegistry, Serde StoredApprovals}.
Context `{Serde Index, Serde PortableItem, Serde Permission} `{SerdeChunks VaultRequest}.
Context `{VaultStore St}.
Context (env : Environment St) (device : DeviceInfo) (device_key : bytes).
Context (keyring_peer : string → VaultResult (CallerIdentity * string)).
Context (personal_item : string → bytes → option (string * bytes)).
Context (clock : RequestTime).
Abbreviation SS := (ServiceState St).
Abbreviation LM := (SM SS).

(** The elementary changes of a request: the clock and the request's deadline move
    on, fields are replaced, the queue takes one of its steps, and other requests
    run. *)
Class Passage (R : SS → SS → Prop) : Prop := {
  passage_pre :: PreOrder R;
  passage_request st rq :
    (rq_ticks (sv_request st) ≤ rq_ticks rq)%nat →
    tightened (rq_valid_until (sv_request st)) (rq_valid_until rq) → R st (set_request st rq);
  passage_deadline st d : R st (set_store_deadline st d);
  passage_lease st l : R st (set_lease st l);
  passage_replay st w : R st (set_replay st w);
  passage_granted st g : R st (set_granted st g);
  passage_poisoned st : R st (set_poisoned st);
  passage_approvals st p :
    approvals_step (St := St) (sv_approvals st) p → R st (set_approvals st p);
  passage_wait st : R st (interfered env st)
}.

Context (R : SS → SS → Prop) `{!Passage R}.

Definition steady {A} (m : LM A) : Prop := ∀ st r st', m st = (r, st') → R st st'.

Lemma passage_same st rq :
  rq_ticks rq = rq_ticks (sv_request st) → rq_valid_until rq = rq_valid_until (sv_request st) →
  R st (set_request st rq).
Proof.
  intros Ht Hv. apply passage_request; [by rewrite Ht|rewrite Hv; apply tightened_refl].
Qed.

Lemma passage_tick st : R st (tick st).
Proof. apply passage_request; cbn; [lia|apply tightened_refl]. Qed.

Lemma passage_sealed st b : R st (set_sealed st b).
Proof. by apply passage_same. Qed.

Lemma passage_store st s : R st (set_store st s).
Proof. by apply passage_same. Qed.

Create HintDb passage.
#[local] Hint Constructors approvals_step : passage.

(** Compose elementary changes from the outside in. *)
Ltac passage :=
  repeat match goal with
  | |- R ?st ?st => reflexivity
  | |- R _ (tick _) => etransitivity; [|apply passage_tick]
  | |- R _ (set_sealed _ _) => etransitivity; [|apply passage_sealed]
  | |- R _ (set_store _ _) => etransitivity; [|apply passage_store]
  | |- R _ (set_store_deadline _ _) => etransitivity; [|apply passage_deadline]
  | |- R _ (set_lease _ _) => etransitivity; [|apply passage_lease]
  | |- R _ (set_replay _ _) => etransitivity; [|apply passage_replay]
  | |- R _ (set_granted _ _) => etransitivity; [|apply passage_granted]
  | |- R _ (set_poisoned _) => etransitivity; [|apply passage_poisoned]
  | |- R _ (set_approvals _ _) => etransitivity; [|apply passage_approvals; by eauto with passage]
  end.

Lemma steady_ret {A} (a : A) : steady (mret a).
Proof. intros st r st' [= _ <-]. reflexivity. Qed.

Lemma steady_lift {A} (x : VaultResult A) : steady (lift x).
Proof. intros st r st' [= _ <-]. reflexivity. Qed.

Lemma steady_bind {A B} (m : LM A) (f : A → LM B) :
  steady m → (∀ a, steady (f a)) → steady (m ≫= f).
Proof.
  intros Hm Hf st r st'. unfold mbind, sm_bind. destruct (m st) as [[a|e] st1] eqn:Hr;
    apply Hm in Hr.
  - intros Hb%Hf. by etransitivity.
  - by intros [= _ <-].
Qed.

Lemma steady_catch {A B} (m : LM A) (f : VaultResult A → LM B) :
  steady m → (∀ r, steady (f r)) → steady (catch m f).
Proof.
  intros Hm Hf st r st'. unfold catch. destruct (m st) as [x st1] eqn:Hr.
  intros Hb. etransitivity; [by eapply Hm|by eapply Hf].
Qed.

Lemma steady_stateful {A} (f : SS → VaultResult A * SS) :
  (∀ st r st', f st = (r, st') → R st st') → steady (stateful f).
Proof. done. Qed.

(** A step that continues from an updated state. *)
Lemma steady_from {A} (m : LM A) st0 st r st' :
  R st st0 → steady m → m st0 = (r, st') → R st st'.
Proof. intros ? Hm Hr. etransitivity; [done|by eapply Hm]. Qed.

Lemma steady_on_request {A} (m : SM (RequestState St) A) :
  (∀ rq r rq', m rq = (r, rq') → (rq_ticks rq ≤ rq_ticks rq')%nat
     ∧ tightened (rq_valid_until rq) (rq_valid_until rq')) → steady (on_request m).
Proof.
  intros Hm st r st'. unfold on_request. destruct (m (sv_request st)) as [x rq] eqn:Hr.
  intros [= _ <-]. apply Hm in Hr as [? ?]. by apply passage_request.
Qed.

Lemma steady_with_store {A} (m : SM St A) : steady (with_store m).
Proof.
  apply steady_on_request. intros rq r rq'. unfold on_store.
  destruct (m (rq_store rq)). intros [= _ <-]. cbn. split; [lia|apply tightened_refl].
Qed.

Lemma steady_instant : steady (instant env).
Proof. intros st r st' [= _ <-]. passage. Qed.

Lemma steady_is_sealed : steady (is_sealed env).
Proof. intros st r st' [= _ <-]. passage. Qed.

Lemma steady_seal_store : steady (seal_store (St := St)).
Proof. intros st r st' [= _ <-]. passage. Qed.

Lemma steady_set_deadline d : steady (set_deadline env d).
Proof. intros st r st'. unfold set_deadline. destruct (_ || _); intros [= _ <-]; passage. Qed.

Lemma steady_panic : steady (panic (St := St)).
Proof. intros st r st' [= _ <-]. passage. Qed.

Lemma steady_sample : steady (sample env clock).
Proof.
  intros st r st'. unfold sample. destruct (env_readings env (ticks st)). intros [= _ <-].
  passage.
Qed.

Lemma steady_wall : steady (wall_now env clock).
Proof.
  apply steady_on_request. intros rq r rq' [= _ <-]. cbn. split; [lia|apply tightened_refl].
Qed.

Lemma steady_check : steady (check_request env clock).
Proof.
  apply steady_on_request. intros rq r rq'. unfold check_valid_until.
  destruct (rq_valid_until rq) as [d|] eqn:Hd.
  - unfold mbind, sm_bind, wall, lift. intros [= _ <-]. cbn. rewrite Hd.
    split; [lia|apply tightened_refl].
  - intros [= _ <-]. rewrite Hd. split; [lia|apply tightened_refl].
Qed.

Lemma steady_tighten d : steady (tighten_request d).
Proof.
  apply steady_on_request. intros rq r rq' [= _ <-]. cbn.
  split; [lia|apply tighten_tightened].
Qed.

Create HintDb steady.
#[local] Hint Resolve steady_ret steady_lift steady_with_store steady_instant steady_is_sealed
  steady_seal_store steady_set_deadline steady_panic steady_sample steady_wall steady_check
  steady_tighten : steady.

Ltac steady_step :=
  match goal with
  | |- steady (let x := _ in _) => cbv zeta
  | |- steady (_ ≫= _) => apply steady_bind; [|intros]
  | |- steady (catch _ _) => apply steady_catch; [|intros]
  | |- steady (if ?b then _ else _) => destruct b
  | |- steady (match ?x with _ => _ end) => destruct x
  | |- _ => solve [auto with steady]
  end.
Ltac steady := repeat steady_step.

Lemma steady_lock now : steady (lock_live env now).
Proof.
  unfold lock_live. steady. apply steady_stateful. intros st r st'.
  destruct (sv_poisoned st).
  - intros [= _ <-]. reflexivity.
  - apply steady_from; [reflexivity|]. steady.
Qed.

Lemma steady_touch now mono : steady (touch_lease env now mono).
Proof.
  unfold touch_lease. steady. apply steady_stateful. intros st r st'. destruct (_ || _).
  - apply steady_from; [reflexivity|]. steady.
  - destruct (touch _ _ _) as [x l]. apply steady_from; [passage|]. steady.
Qed.

Lemma steady_save now : steady (save_approvals now).
Proof.
  intros st r st'. unfold save_approvals. destruct (save _ _ _) as [[x p] s] eqn:Hq.
  intros [= _ <-]. passage.
Qed.
#[local] Hint Resolve steady_lock steady_touch steady_save : steady.

Lemma steady_create c now : steady (create_approval env c now).
Proof.
  unfold create_approval. steady. apply steady_stateful. intros st r st'.
  destruct (create_at _ _ _ _ _) as [[x p]|] eqn:Hq.
  - apply steady_from; [passage|]. steady.
  - intros [= _ <-]. reflexivity.
Qed.

Lemma steady_list now : steady (list_permissions env now).
Proof.
  unfold list_permissions. steady; apply steady_stateful; intros st r st'.
  - destruct (list_at _ _ _) as [[x l] p] eqn:Hq. intros [= _ <-]. passage.
  - case_bool_decide; intros [= _ <-]; passage.
Qed.

Lemma steady_deny id now : steady (deny_approval id now).
Proof.
  intros st r st'. unfold deny_approval. destruct (deny _ _ _) as [[x p]|] eqn:Hq.
  - apply steady_from; [passage|]. steady.
  - intros [= _ <-]. reflexivity.
Qed.

Lemma steady_revoke id now prov : steady (revoke id now prov).
Proof.
  unfold revoke. steady. apply steady_stateful. intros st r st' [= _ <-]. passage.
Qed.

Lemma steady_approve id sig lt now prov : steady (approve_request device_key id sig lt now prov).
Proof.
  intros st r st'. unfold approve_request. destruct (approve _ _ _ _ _ _ _) as [[x p] s] eqn:Hq.
  apply steady_from; [passage|]. steady.
Qed.

Lemma steady_wait : steady (wait env).
Proof.
  intros st r st'. unfold wait. destruct (sv_poisoned _); intros [= _ <-]; apply passage_wait.
Qed.

Lemma steady_still_live : steady (still_live env).
Proof.
  unfold still_live. steady. apply steady_stateful. intros st r st'. destruct (_ || _).
  - apply steady_from; [reflexivity|]. steady.
  - intros [= _ <-]. reflexivity.
Qed.

Lemma steady_status c id now : steady (permission_status c id now).
Proof.
  intros st r st'. unfold permission_status. destruct (approval_status _ _ _ _) as [x p] eqn:Hq.
  intros [= _ <-]. passage.
Qed.
#[local] Hint Resolve steady_create steady_list steady_deny steady_revoke steady_approve
  steady_wait steady_still_live steady_status : steady.

Lemma steady_permission_loop c id n : steady (permission_loop env clock c id n).
Proof. induction n; cbn [permission_loop]; steady. Qed.

Lemma steady_approvals_loop c rev n : steady (approvals_loop env clock c rev n).
Proof. induction n; cbn [approvals_loop]; unfold permission_manager_deadline; steady. Qed.
#[local] Hint Resolve steady_permission_loop steady_approvals_loop : steady.

Lemma steady_wait_permission c id t n : steady (wait_for_permission env clock c id t n).
Proof.
  unfold wait_for_permission. steady. apply steady_stateful. intros st r st' [= _ <-]. passage.
Qed.

Lemma steady_wait_approvals c rev t n : steady (wait_for_approvals env clock c rev t n).
Proof. unfold wait_for_approvals. steady. Qed.

Lemma steady_refresh : steady (refresh_lease env clock).
Proof. unfold refresh_lease. steady. Qed.

Lemma steady_manager caller : steady (require_live_manager env clock caller).
Proof. unfold require_live_manager, permission_manager_deadline. steady. Qed.

Lemma steady_index now : steady (secret_service_index now).
Proof. unfold secret_service_index. steady. Qed.
#[local] Hint Resolve steady_wait_permission steady_wait_approvals steady_refresh steady_manager
  steady_index : steady.

Lemma steady_import_item e v ev rep id prov now :
  steady (import_secret_service_item e v ev rep id prov now).
Proof. unfold import_secret_service_item. steady. Qed.
#[local] Hint Resolve steady_import_item : steady.

(** *** Actions move on *)

Abbreviation RS := (RequestState St).
Definition moves {A} (m : SM RS A) : Prop :=
  ∀ rq r rq', m rq = (r, rq') → (rq_ticks rq ≤ rq_ticks rq')%nat
    ∧ tightened (rq_valid_until rq) (rq_valid_until rq').

Lemma moves_same {A} (m : SM RS A) :
  (∀ rq, (rq_ticks rq ≤ rq_ticks (m rq).2)%nat
     ∧ rq_valid_until (m rq).2 = rq_valid_until rq) → moves m.
Proof.
  intros Hm rq r rq' Hr. specialize (Hm rq). rewrite Hr in Hm. destruct Hm as [? Hv].
  split; [done|]. cbn in Hv. rewrite Hv. apply tightened_refl.
Qed.

Lemma moves_ret {A} (a : A) : moves (mret a).
Proof. by apply moves_same. Qed.
Lemma moves_lift {A} (x : VaultResult A) : moves (lift x).
Proof. by apply moves_same. Qed.
Lemma moves_wall : moves (wall clock (env_readings env)).
Proof. apply moves_same. intros rq. cbn. split; [lia|done]. Qed.
Lemma moves_seal : moves (store_seal (St := St)).
Proof. by apply moves_same. Qed.
Lemma moves_on_store {A} (m : SM St A) : moves (on_store m).
Proof. apply moves_same. intros rq. unfold on_store. by destruct (m _). Qed.

Lemma moves_bind {A B} (m : SM RS A) (f : A → SM RS B) :
  moves m → (∀ a, moves (f a)) → moves (m ≫= f).
Proof.
  intros Hm Hf rq r rq'. unfold mbind, sm_bind. destruct (m rq) as [[a|e] rq1] eqn:Hr;
    apply Hm in Hr as [? ?].
  - intros [? ?]%Hf. split; [lia|by eapply tightened_trans].
  - by intros [= _ <-].
Qed.

Lemma moves_catch {A B} (m : SM RS A) (f : VaultResult A → SM RS B) :
  moves m → (∀ r, moves (f r)) → moves (catch m f).
Proof.
  intros Hm Hf rq r rq'. unfold catch. destruct (m rq) as [x rq1] eqn:Hr.
  apply Hm in Hr as [? ?]. intros [? ?]%Hf. split; [lia|by eapply tightened_trans].
Qed.

Lemma moves_check : moves (check_valid_until clock (env_readings env)).
Proof.
  intros rq r rq'. unfold check_valid_until. destruct (rq_valid_until rq) as [d|] eqn:Hd.
  - rewrite <- Hd. apply moves_bind; [apply moves_wall|intros; apply moves_lift].
  - intros [= _ <-]. rewrite Hd. split; [lia|apply tightened_refl].
Qed.

Lemma moves_tighten d : moves (tighten_valid_until (St := St) d).
Proof. intros rq r rq' [= _ <-]. split; [done|apply tighten_tightened]. Qed.

Create HintDb moves.
#[local] Hint Resolve moves_ret moves_lift moves_wall moves_seal moves_on_store moves_check
  moves_tighten : moves.
Ltac moves :=
  repeat match goal with
  | |- moves (_ ≫= _) => apply moves_bind; [|intros]
  | |- moves (catch _ _) => apply moves_catch; [|intros]
  | |- moves (match ?x with _ => _ end) => destruct x
  | |- _ => solve [auto with moves]
  end.

Lemma moves_require caller r : moves (require_until clock (env_readings env) caller r).
Proof. unfold require_until, accept_deadline. moves. Qed.
Lemma moves_accept d : moves (accept_deadline clock (env_readings env) (St := St) d).
Proof. unfold accept_deadline. moves. Qed.
#[local] Hint Resolve moves_require moves_accept : moves.

Lemma moves_prepare caller scope n ms :
  moves (prepare_mutations clock (env_readings env) caller scope n ms).
Proof.
  induction ms; cbn [prepare_mutations]; unfold require, check_mutation; moves.
Qed.
#[local] Hint Resolve moves_prepare : moves.

Lemma moves_history_page caller scope n a c l :
  moves (do_list_history clock (env_readings env) caller scope n a c l).
Proof. unfold do_list_history, redact_history. moves. Qed.
#[local] Hint Resolve moves_history_page : moves.

Lemma moves_action caller action lease prov base_dir m :
  execute_action clock (env_readings env) device caller action lease prov base_dir = Some m →
  moves m.
Proof.
  destruct action; intros Hm; try discriminate Hm; injection Hm as <-;
    unfold refresh, do_get, get_secret_spec, do_put, put_secret_spec, do_mutate, do_delete,
      delete_secret_spec, do_clear, do_list_projects, do_list_project_addresses, do_seal,
      read_secret, require, require_project, require_kind; moves.
Qed.

Lemma steady_run_action caller action prov base_dir continue :
  (∀ r, steady (continue r)) →
  steady (run_action env device clock caller action prov base_dir continue).
Proof.
  intros Hc. apply steady_stateful. intros st r st'.
  destruct (execute_action _ _ _ _ _ _ _ _) as [m|] eqn:Hm; [|apply steady_panic].
  apply steady_catch; [|done]. apply steady_on_request. by eapply moves_action.
Qed.

Lemma steady_ask c now : steady (ask_approval env c now).
Proof. unfold ask_approval. steady. Qed.
#[local] Hint Resolve steady_ask : steady.


(** *** The whole handler *)

Lemma steady_export caller e now : steady (export_entry env clock caller e now).
Proof. unfold export_entry. steady. Qed.

Lemma steady_import caller e v ev rep prov now :
  steady (import_entry env personal_item clock caller e v ev rep prov now).
Proof.
  unfold import_entry. steady. apply steady_stateful. intros st r st'.
  apply steady_from; [reflexivity|]. steady.
Qed.

Lemma steady_write_cache caller pr a v ev prov now :
  steady (write_cache_from_dialog env clock caller pr a v ev prov now).
Proof. unfold write_cache_from_dialog. steady. Qed.

Lemma steady_keyring caller e s sv op br pd w now :
  steady (keyring_access env device keyring_peer clock caller e s sv op br pd w now).
Proof.
  unfold keyring_access. steady. apply steady_run_action. intros. steady.
Qed.
#[local] Hint Resolve steady_export steady_import steady_write_cache steady_keyring : steady.

Lemma steady_dispatch caller app approval prov w now action :
  steady (dispatch env device device_key keyring_peer personal_item clock caller app approval
    prov w now action).
Proof.
  destruct action; cbn [dispatch];
    unfold done, inventory, authorize_secret_input, permissions_page, deny_action,
      approve_action, revoke_action; try (apply steady_run_action; intros); steady.
Qed.

Lemma steady_consume id : steady (consume_id id).
Proof.
  intros st r st'. unfold consume_id. destruct (consume _ _). intros [= _ <-]. passage.
Qed.
#[local] Hint Resolve steady_dispatch steady_consume : steady.

Lemma steady_handle_inner caller req w :
  steady (handle_inner env device device_key keyring_peer personal_item clock caller req w).
Proof. unfold handle_inner. steady. Qed.
End Steps.

(** ** Proving that a computation keeps a relation *)

#[export] Hint Resolve steady_ret steady_lift steady_with_store steady_instant steady_is_sealed
  steady_seal_store steady_set_deadline steady_panic steady_sample steady_wall steady_check
  steady_tighten steady_lock steady_touch steady_save steady_create steady_list steady_deny
  steady_revoke steady_approve steady_wait steady_still_live steady_status
  steady_permission_loop steady_approvals_loop steady_wait_permission steady_wait_approvals
  steady_refresh steady_manager steady_index steady_import_item steady_ask steady_export
  steady_import steady_write_cache steady_keyring steady_dispatch steady_consume
  steady_handle_inner : steady.

Ltac keeps :=
  repeat match goal with
  | |- steady _ (let x := _ in _) => cbv zeta
  | |- steady _ (_ ≫= _) => eapply steady_bind; [apply _| |intros]
  | |- steady _ (catch _ _) => eapply steady_catch; [apply _| |intros]
  | |- steady _ (run_action _ _ _ _ _ _ _ _) => eapply steady_run_action; [apply _|intros]
  | |- steady _ (if ?b then _ else _) => destruct b
  | |- steady _ (match ?x with _ => _ end) => destruct x
  | |- steady _ _ => solve [typeclasses eauto with steady typeclass_instances]
  end.
