(* ===== verification/ServiceProofs.v ===== *)
(** Lemmas on the request service: every action that answers was backed by the
    grants it needs, what the liveness checks establish, and how a request gets to
    its action.  The guarantees are stated in ServiceGuarantees. *)
From Stdlib Require Import ZArith Lia Bool.
From stdpp Require Import base gmap strings list.
From S2P Require Import Prelude Core Address Clock Lease Text Wire History StoreSpec Signature Grant.
From S2P Require Import GrantProofs Approvals ApprovalProofs Protocol Actions ActionProofs.
From S2P Require Import KeyringIndex Service ServiceSteps.

Section Authority.
Context `{Sha256Ok, Base64Ok} `{MlDsa65}.
Context `{SerdeOk AccessGrant, SerdeOk PermissionRegistry, Serde StoredApprovals}.
Context `{Serde Index, Serde PortableItem, Serde Permission} `{SerdeChunks VaultRequest}.
Context `{VaultStore St} `{!VaultStoreOk St}.
Context (env : Environment St) (device : DeviceInfo) (device_key : bytes).
Context (keyring_peer : string → VaultResult (CallerIdentity * string)).
Context (personal_item : string → bytes → option (string * bytes)).
Context (clock : RequestTime).
Abbreviation SS := (ServiceState St).
Abbreviation LM := (SM SS).

Definition store_of (st : SS) : St := rq_store (sv_request st).
Definition valid_of (st : SS) : option Z := rq_valid_until (sv_request st).

(** The clock advances and the deadline of the request can only come closer. *)
Definition onward (st st' : SS) : Prop :=
  (ticks st ≤ ticks st')%nat ∧ tightened (valid_of st) (valid_of st').

#[export] Instance onward_pre : PreOrder onward.
Proof.
  split.
  - intros st. split; [lia|apply tightened_refl].
  - intros a b c [? ?] [? ?]. split; [lia|by eapply tightened_trans].
Qed.

#[export] Instance onward_passage : Passage env onward.
Proof.
  split; [apply _|intros; by split|..]; intros; (split; [unfold ticks; cbn; lia|apply tightened_refl]).
Qed.

(** ** Authority *)

Abbreviation wall_at := (wall_at clock (env_readings env)).
Definition grants_at (st : SS) : DocumentView := grants_of (view (store_of st)).

(** At a clock reading of the request, from [start] on, a grant for the requirement
    was stored in [st0], and the deadline respects its expiry. *)
Definition backed (start : nat) (st0 st' : SS) (caller : CallerIdentity) (r : GrantRequirement)
    (single : bool) : Prop :=
  ∃ n t e, (start ≤ n < ticks st')%nat
    ∧ granted (grants_at st0) caller r (wall_at n) single t e
    ∧ tightened e (valid_of st').

Lemma backed_onward start st0 st1 st2 caller r single :
  backed start st0 st1 caller r single → onward st1 st2 → backed start st0 st2 caller r single.
Proof.
  intros (n & t & e & Hn & Hg & He) [Hle Ht]. exists n, t, e.
  split_and!; [lia|lia|done|by eapply tightened_trans].
Qed.

Lemma require_live_manager_Ok caller st a st' :
  require_live_manager env clock caller st = (Ok a, st') →
  backed (ticks st) st st' caller manager_requirement false.
Proof.
  unfold require_live_manager. intros Hr. apply sm_bind_Ok in Hr as (now & st1 & [= <- <-] & Hr).
  apply sm_bind_Ok in Hr as (deadline & st2 & Hg & Hr).
  unfold permission_manager_deadline, with_store, on_request, on_store in Hg. cbn in Hg.
  destruct (require_grant_until _ _ _ _) as [x s] eqn:Hreq. injection Hg as -> <-.
  apply require_grant_until_found, find_grant_granted in Hreq as [_ (t & Hgr)].
  apply sm_bind_Ok in Hr as ([] & st3 & [= <-] & Hr). apply (steady_check env clock onward) in Hr as [Hle Ht].
  exists (ticks st), t, deadline. unfold ticks, valid_of in *. cbn in *.
  split_and!; [lia|lia|done|]. eapply tightened_trans; [|done]. apply tighten_tightened.
Qed.

(** A grant found at the time the request was dispatched. *)
Lemma with_store_require_Ok caller r n0 st deadline st' :
  with_store (require_grant_until caller r (wall_at n0)) st = (Ok deadline, st') →
  (∃ t, granted (grants_at st) caller r (wall_at n0) false t deadline)
  ∧ onward st st' ∧ grants_at st' = grants_at st.
Proof.
  intros Hr. pose proof (steady_with_store env onward _ _ _ _ Hr) as Hon.
  unfold with_store, on_request, on_store in Hr.
  destruct (require_grant_until _ _ _ _) as [x s] eqn:Hreq. injection Hr as -> <-.
  pose proof (require_grant_until_view _ _ _ _ _ _ Hreq) as Hview.
  apply require_grant_until_found, find_grant_granted in Hreq as [_ (t & Hgr)].
  split_and!; [by exists t|done|]. unfold grants_at, store_of, grants_of. cbn. apply Hview.
Qed.

(** The actions only a permission manager may ask for. *)
Definition manager_action (a : VaultAction.action) : bool :=
  match a with
  | VaultAction.ExportRevision | VaultAction.ListVaultEntries _ _
  | VaultAction.ExportVaultEntry _ | VaultAction.ImportVaultEntry _ _ _ _
  | VaultAction.WriteCacheFromDialog _ _ _ _ | VaultAction.ListPermissions
  | VaultAction.ListPermissionsPage _ _ | VaultAction.WaitPermissions _ _
  | VaultAction.DenyPermission _ | VaultAction.ApprovePermission _ _ _ _
  | VaultAction.RevokePermission _ => true
  | _ => false
  end.

(** What the process behind a keyring request needs for it. *)
Definition keyring_permission (operation : PermissionOperation.operation)
    : GrantPermission.permission :=
  match operation with
  | PermissionOperation.Get => GrantPermission.Get
  | PermissionOperation.Put => GrantPermission.Put
  | PermissionOperation.Delete => GrantPermission.Delete
  | PermissionOperation.Clear => GrantPermission.Clear
  end.
Definition keyring_requirement (service : string) (entry : option SecretAddress)
    (base_dir : string) (operation : PermissionOperation.operation) : GrantRequirement := {|
  gr_scope := LinuxSecretService; gr_namespace := Some (as_bytes (access_project service).1);
  gr_address := entry; gr_project := Some (access_project service).1;
  gr_base_dir := Some base_dir; gr_permission := keyring_permission operation |}.

(** What a request needs, and of whom: the manager's grant; for what the keyring adapter asks,
    its own grant, a grant of the process it speaks for, and the grants of the action it
    passes on; or the grants of the action itself. *)
Definition request_requirements (caller : CallerIdentity) (a : VaultAction.action)
    (base_dir : option string) : list (CallerIdentity * GrantRequirement) :=
  if manager_action a then [(caller, manager_requirement)]
  else match a with
       | VaultAction.AuthorizeSecretInput sender =>
           (caller, adapter_requirement)
           :: match keyring_peer sender with
              | Ok peer => [(peer.1, manager_requirement)]
              | Err _ => []
              end
       | VaultAction.KeyringAccess entry sender service operation bridged pending =>
           (caller, adapter_requirement)
           :: match keyring_peer sender, pending with
              | Ok peer, None =>
                  (peer.1, keyring_requirement service entry peer.2 operation)
                  :: match bridged with
                     | Some a => pair caller <$> action_requirements (scope_action a) None a
                     | None => []
                     end
              | _, _ => []
              end
       | _ => pair caller <$> action_requirements (scope_action a) base_dir a
       end.

Lemma done_Ok (m : LM VaultResponseBody.body) st b st' :
  done m st = (Ok (Outcome.Done b), st') → m st = (Ok b, st').
Proof.
  unfold done. intros Hd. by apply sm_bind_Ok in Hd as (x & st1 & Hm & [= -> <-]).
Qed.

(** What follows the manager's check only moves on. *)
Lemma manager_then {A} caller (f : LM A) st a st' :
  (_ ← require_live_manager env clock caller; f) st = (Ok a, st') → steady onward f →
  backed (ticks st) st st' caller manager_requirement false.
Proof.
  intros Hb Hf. apply sm_bind_Ok in Hb as ([] & st1 & Hr & Hb).
  eapply backed_onward; [by eapply require_live_manager_Ok|by eapply Hf].
Qed.

Lemma dispatch_manager caller app approval prov wakeups now action st b st' :
  dispatch env device device_key keyring_peer personal_item clock caller app approval prov
    wakeups now action st = (Ok (Outcome.Done b), st') →
  manager_action action = true →
  backed (ticks st) st st' caller manager_requirement false.
Proof.
  intros Hd Ha. destruct action; try discriminate Ha; cbn [dispatch] in Hd;
    unfold deny_action in Hd; try apply done_Ok in Hd; (eapply manager_then; [exact Hd|]);
    unfold permissions_page, personal_entry; keeps.
  apply steady_stateful. intros s r s' Hs.
  eapply (steady_from env onward); [reflexivity| |exact Hs]. keeps.
Qed.

Lemma run_action_done caller action prov base_dir continue st b st' :
  run_action env device clock caller action prov base_dir continue st
    = (Ok (Outcome.Done b), st') →
  ∃ m r rq, execute_action clock (env_readings env) device caller action (lease_deadlines st)
              prov base_dir = Some m
    ∧ m (sv_request st) = (r, rq)
    ∧ continue r (set_request st rq) = (Ok (Outcome.Done b), st').
Proof.
  unfold run_action, stateful. destruct (execute_action _ _ _ _ _ _ _ _) as [m|];
    [|discriminate]. unfold catch, on_request. destruct (m (sv_request st)) as [r rq] eqn:Hm.
  intros Hc. by exists m, r, rq.
Qed.

(** An action that answers was backed by its grants. *)
Lemma action_backed caller action prov base_dir lease m st b refreshes rq st' r :
  execute_action clock (env_readings env) device caller action lease prov base_dir = Some m →
  m (sv_request st) = (Ok (b, refreshes), rq) → onward (set_request st rq) st' →
  r ∈ action_requirements (scope_action action) base_dir action →
  ∃ single, backed (ticks st) st st' caller r single
    ∧ (single = true → may_spend action = true).
Proof.
  intros Hm Hrun Hon Hr.
  destruct (no_action_without_grant _ _ _ _ _ _ _ _ _ _ _ _ _ _ Hm Hrun Hr)
    as (single & n & t & e & Hn & Hg & Ht & Hs).
  exists single. split; [|done]. eapply backed_onward; [|exact Hon]. by exists n, t, e.
Qed.

Lemma ask_not_done candidate now st b st' :
  ask_approval env candidate now st = (Ok (Outcome.Done b), st') → False.
Proof.
  unfold ask_approval. intros Ha. apply sm_bind_Ok in Ha as ([x|] & st1 & _ & Ha);
    discriminate Ha.
Qed.

(** The adapter's two actions answer only for the holder of its grant. *)
Lemma adapter_then {A} caller n0 (f : LM A) st a st' :
  (deadline ← with_store (require_grant_until caller adapter_requirement (wall_at n0));
   _ ← tighten_request deadline; f) st = (Ok a, st') → steady onward f →
  (n0 < ticks st)%nat →
  backed n0 st st' caller adapter_requirement false.
Proof.
  intros Hb Hf Hn. apply sm_bind_Ok in Hb as (deadline & st1 & Hr & Hb).
  apply with_store_require_Ok in Hr as ((t & Hg) & [Hle _] & _).
  apply sm_bind_Ok in Hb as ([] & st2 & Ht & Hb). injection Ht as <-.
  apply Hf in Hb as [Hle' Hv]. exists n0, t, deadline. unfold ticks, valid_of in *. cbn in *.
  split_and!; [lia|lia|done|]. eapply tightened_trans; [|done]. apply tighten_tightened.
Qed.

(** The continuation of an ordinary action answers only after the action did. *)
Lemma answered_backed caller action prov base_dir approval now st b st' r :
  run_action env device clock caller action prov base_dir (λ r,
      match r with
      | Ok (body, refreshes) =>
          _ ← (if (refreshes : bool) then refresh_lease env clock else mret tt);
          mret (Outcome.Done body)
      | Err VaultError.AuthorizationRequired =>
          match approval with
          | Some candidate => ask_approval env candidate now
          | None => lift (Err VaultError.AuthorizationRequired)
          end
      | Err e => lift (Err e)
      end) st = (Ok (Outcome.Done b), st') →
  r ∈ action_requirements (scope_action action) base_dir action →
  ∃ single, backed (ticks st) st st' caller r single
    ∧ (single = true → may_spend action = true).
Proof.
  intros Hrun Hr. apply run_action_done in Hrun as (m & x & rq & Hm & Hx & Hc).
  destruct x as [[body refreshes]|e].
  - eapply action_backed; [exact Hm|exact Hx| |exact Hr].
    eapply (steady_from env onward); [reflexivity| |exact Hc]. keeps.
  - exfalso. destruct e; try discriminate Hc.
    destruct approval; [by eapply ask_not_done|discriminate Hc].
Qed.

Lemma check_request_grants st r st' :
  check_request env clock st = (r, st') → grants_at st' = grants_at st.
Proof.
  unfold check_request, on_request, check_valid_until. destruct (rq_valid_until _); intros Hr;
    injection Hr as _ <-; reflexivity.
Qed.

Lemma require_keyring_requirement peer service entry base_dir operation now :
  require_keyring (St := St) (for_keyring peer service entry base_dir operation) now
  = require_grant_until peer (keyring_requirement service entry base_dir operation) now.
Proof.
  unfold require_keyring, for_keyring, keyring_requirement. destruct (access_project service).
  by destruct operation.
Qed.

(** A grant found at a clock reading counts from then on. *)
Lemma required_backed c r n0 st st1 st' deadline :
  with_store (require_grant_until c r (wall_at n0)) st = (Ok deadline, st1) →
  (n0 < ticks st)%nat → onward (set_request st1 {|
    rq_store := rq_store (sv_request st1);
    rq_valid_until := tighten (rq_valid_until (sv_request st1)) deadline;
    rq_sealed := rq_sealed (sv_request st1); rq_ticks := rq_ticks (sv_request st1) |}) st' →
  backed n0 st st' c r false.
Proof.
  intros ((t & Hg) & [Hle _] & _)%with_store_require_Ok Hn [Hle' Ht].
  exists n0, t, deadline. unfold ticks, valid_of in *. cbn in *.
  split_and!; [lia|lia|done|]. eapply tightened_trans; [|done]. apply tighten_tightened.
Qed.

Lemma backed_from start start' st0 st0' st' c r single :
  backed start st0 st' c r single → grants_at st0 = grants_at st0' → (start' ≤ start)%nat →
  backed start' st0' st' c r single.
Proof. intros (n & t & e & Hn & Hg & He) Heq Hle. exists n, t, e. rewrite <- Heq. split_and!; [lia|lia|done..]. Qed.

(** The rest of a keyring request, once its adapter was admitted. *)
Lemma keyring_backed caller entry sender service operation bridged pending wakeups n0 st b st' c r :
  keyring_access env device keyring_peer clock caller entry sender service operation bridged
    pending wakeups (wall_at n0) st = (Ok (Outcome.Done b), st') →
  (n0 < ticks st)%nat → (∀ a, bridged = Some a → may_spend a = false) →
  (c, r) ∈ request_requirements caller
    (VaultAction.KeyringAccess entry sender service operation bridged pending) None →
  backed n0 st st' c r false.
Proof.
  intros Hd Hn Hbr Hr. cbn [request_requirements manager_action] in Hr.
  apply elem_of_cons in Hr as [[= -> ->]|Hr].
  { unfold keyring_access in Hd. eapply adapter_then; [exact Hd| |exact Hn]. keeps. }
  unfold keyring_access in Hd. apply sm_bind_Ok in Hd as (d & st1 & Hq & Hd).
  apply with_store_require_Ok in Hq as (_ & [On1 _] & Hv1).
  apply sm_bind_Ok in Hd as ([] & st2 & [= <-] & Hd).
  apply sm_bind_Ok in Hd as ([] & st3 & Hc & Hd).
  pose proof (check_request_grants _ _ _ Hc) as Hv3. apply (steady_check env clock onward) in Hc as [On3 _].
  apply sm_bind_Ok in Hd as (peer & st4 & Hp & Hd). injection Hp as Hp <-. rewrite Hp in Hr.
  destruct pending as [id|]; [by apply elem_of_nil in Hr|]. cbv zeta in Hd.
  assert (grants_at st3 = grants_at st) as Hgr by (rewrite Hv3, <- Hv1; reflexivity).
  assert (ticks st ≤ ticks st3)%nat as Hle by (unfold ticks in *; cbn in *; lia).
  eapply backed_from; [|exact Hgr|reflexivity]. clear Hv1 Hv3 On1 On3.
  rewrite require_keyring_requirement in Hd.
  unfold catch at 1 in Hd. destruct (with_store _ st3) as [x st5] eqn:Hq.
  destruct x as [d2|e]; [|exfalso; destruct e; try discriminate Hd; by eapply ask_not_done].
  apply sm_bind_Ok in Hd as ([] & st6 & [= <-] & Hd).
  apply elem_of_cons in Hr as [[= -> ->]|Hr].
  { eapply required_backed; [exact Hq|lia|].
    eapply (steady_from env onward); [reflexivity| |exact Hd]. keeps. }
  apply with_store_require_Ok in Hq as (_ & [On5 _] & Hv5).
  apply sm_bind_Ok in Hd as ([] & st7 & Hc & Hd).
  pose proof (check_request_grants _ _ _ Hc) as Hv7. apply (steady_check env clock onward) in Hc as [On7 _].
  assert (grants_at st7 = grants_at st3) as Hgr7 by (rewrite Hv7, <- Hv5; reflexivity).
  assert (ticks st3 ≤ ticks st7)%nat as Hle7 by (unfold ticks in *; cbn in *; lia).
  eapply backed_from; [|exact Hgr7|]; [|shelve].
  destruct bridged as [action|]; [|by apply elem_of_nil in Hr].
  apply list_elem_of_fmap in Hr as (r' & [= -> ->] & Hr).
  apply run_action_done in Hd as (m & y & rq & Hm & Hy & Hd).
  apply sm_bind_Ok in Hd as (res & st8 & [= -> <-] & Hd). destruct res as [body refreshes].
  edestruct action_backed as (single & Hb & Hs); [exact Hm|exact Hy| |exact Hr|].
  { eapply (steady_from env onward); [reflexivity| |exact Hd]. keeps. }
  destruct single; [|exact Hb]. rewrite (Hbr _ eq_refl) in Hs. discriminate (Hs eq_refl).
  Unshelve. lia.
Qed.

Lemma input_backed caller sender n0 st b st' c r :
  authorize_secret_input env keyring_peer clock caller sender (wall_at n0) st = (Ok b, st') →
  (n0 < ticks st)%nat →
  (c, r) ∈ request_requirements caller (VaultAction.AuthorizeSecretInput sender) None →
  backed n0 st st' c r false.
Proof.
  intros Hd Hn Hr. cbn [request_requirements manager_action] in Hr.
  apply elem_of_cons in Hr as [[= -> ->]|Hr].
  { unfold authorize_secret_input in Hd. eapply adapter_then; [exact Hd| |exact Hn]. keeps. }
  unfold authorize_secret_input in Hd. apply sm_bind_Ok in Hd as (d & st1 & Hq & Hd).
  apply with_store_require_Ok in Hq as (_ & [On1 _] & Hv1).
  apply sm_bind_Ok in Hd as ([] & st2 & [= <-] & Hd).
  apply sm_bind_Ok in Hd as (peer & st3 & Hp & Hd). injection Hp as Hp <-. rewrite Hp in Hr.
  apply list_elem_of_singleton in Hr as [= -> ->].
  eapply backed_from; [eapply manager_then; [exact Hd|keeps]|exact Hv1|].
  unfold ticks in *. cbn in *. lia.
Qed.

Lemma bridged_spends_nothing e s sv op br pd a :
  action_validate (VaultAction.KeyringAccess e s sv op br pd) = Ok tt → br = Some a →
  may_spend a = false.
Proof. intros Hv ->. cbn [action_validate] in Hv. inv_ok. by destruct a. Qed.

Lemma dispatch_backed caller app approval prov wakeups n0 action st b st' c r :
  dispatch env device device_key keyring_peer personal_item clock caller app approval prov
    wakeups (wall_at n0) action st = (Ok (Outcome.Done b), st') →
  (n0 < ticks st)%nat → action_validate action = Ok tt →
  (c, r) ∈ request_requirements caller action (app ≫= app_base_dir) →
  ∃ single, backed n0 st st' c r single ∧ (single = true → may_spend action = true).
Proof.
  intros Hd Hn Hval Hr.
  destruct (manager_action action) eqn:Ha.
  { unfold request_requirements in Hr. rewrite Ha in Hr.
    apply list_elem_of_singleton in Hr as [= -> ->]. exists false. split; [|done].
    eapply backed_from; [eapply dispatch_manager; [exact Hd|exact Ha]|done|lia]. }
  destruct action; try discriminate Ha; cbn [dispatch] in Hd;
    try (cbn in Hr; by apply elem_of_nil in Hr).
  1: { exists false. split; [|done]. apply done_Ok in Hd. by eapply input_backed. }
  1: { exists false. split; [|done]. eapply keyring_backed; [exact Hd|exact Hn| |exact Hr].
       intros a. by eapply bridged_spends_nothing. }
  all: apply list_elem_of_fmap in Hr as (r' & [= -> ->] & Hr);
    apply (answered_backed _ _ _ _ _ _ _ _ _ r') in Hd as (single & Hb & Hs); [|exact Hr];
    exists single; (split; [eapply backed_from; [exact Hb|done|lia]|done]).
Qed.
End Authority.

(** ** Release *)

Section Handle.
Context `{Sha256Ok, Base64Ok} `{MlDsa65}.
Context `{SerdeOk AccessGrant, SerdeOk PermissionRegistry, Serde StoredApprovals}.
Context `{Serde Index, Serde PortableItem, Serde Permission} `{SerdeChunks VaultRequest}.
Context `{VaultStore St} `{!VaultStoreOk St}.
Context (env : Environment St).
Abbreviation SS := (ServiceState St).

(** The instant of the [n]-th clock reading. *)
Definition instant_at (n : nat) : Z := (env_readings env n).1.

(** The monotonic time a request takes the [n]-th reading for. *)
Definition monotonic_at (clock : RequestTime) (n : nat) : Z :=
  (sample_at clock (env_readings env n).1 (env_readings env n).2 (env_readings env n).1).2.

(** The vault is not sealed; at a clock reading nothing asks for it to be, and the instants the
    store and the lease end at have not come. *)
Definition live_at (st : SS) (n : nat) : Prop :=
  rq_sealed (sv_request st) = false ∧ env_seal env n = false
  ∧ (∀ d, sv_deadline st = Some d → instant_at n < d)
  ∧ ∃ m, (n < m)%nat ∧ lease_is_expired (sv_lease st) (instant_at m) = false.

(** At a clock reading the vault has to seal itself: another thread asked for it, or the instant
    the store or the lease ends at has come. *)
Definition due_at (st : SS) (monotonic_now : Z) (n : nat) : Prop :=
  env_seal env n = true
  ∨ (∃ d, sv_deadline st = Some d ∧ d ≤ instant_at n)
  ∨ lease_is_expired (sv_lease st) (Z.max monotonic_now (instant_at n)) = true.

(** A vault that is sealed after a request either was before or had to be. *)
Definition sealed_when_due (clock : RequestTime) (st st' : SS) : Prop :=
  rq_sealed (sv_request st') = true →
  rq_sealed (sv_request st) = true
  ∨ ∃ n m, (ticks st ≤ n < ticks st')%nat ∧ (ticks st ≤ m < ticks st')%nat
      ∧ due_at st (monotonic_at clock m) n.

(** Only the clock and the seal flag change. *)
Definition unchanged (st st' : SS) : Prop :=
  store_of st' = store_of st ∧ sv_deadline st' = sv_deadline st ∧ sv_lease st' = sv_lease st
  ∧ sv_replay st' = sv_replay st ∧ sv_approvals st' = sv_approvals st
  ∧ sv_granted_permissions st' = sv_granted_permissions st
  ∧ sv_last_purge_at st' = sv_last_purge_at st ∧ sv_poisoned st' = sv_poisoned st
  ∧ valid_of st' = valid_of st ∧ (ticks st ≤ ticks st')%nat.

Lemma unchanged_refl st : unchanged st st.
Proof. by repeat split. Qed.

Lemma unchanged_trans a b c : unchanged a b → unchanged b c → unchanged a c.
Proof. unfold unchanged. intros Hab Hbc. destruct_and!. split_and!; try congruence. lia. Qed.

Lemma unchanged_tick st st' : unchanged st st' → unchanged st (tick st').
Proof.
  intros U. eapply unchanged_trans; [exact U|]. split_and!; try reflexivity.
  unfold ticks. cbn. lia.
Qed.

Lemma sealed_when_due_refl clock st : sealed_when_due clock st st.
Proof. by left. Qed.

Lemma sealed_when_due_trans clock a b c :
  unchanged a b → (ticks b ≤ ticks c)%nat →
  sealed_when_due clock a b → sealed_when_due clock b c → sealed_when_due clock a c.
Proof.
  intros (_ & Hd & Hl & _ & _ & _ & _ & _ & _ & Hle) Hle' Hab Hbc Hs.
  destruct (Hbc Hs) as [Hb|(n & m & ? & ? & Hdue)].
  - destruct (Hab Hb) as [?|(n & m & ? & ? & Hdue)]; [by left|]. right. exists n, m.
    split_and!; [lia..|exact Hdue].
  - right. exists n, m. split_and!; [lia..|]. unfold due_at in *. by rewrite <- Hd, <- Hl.
Qed.

Lemma sealed_when_due_same clock st st' :
  rq_sealed (sv_request st') = rq_sealed (sv_request st) → sealed_when_due clock st st'.
Proof. intros Heq Hs. left. by rewrite <- Heq. Qed.

Lemma lease_is_expired_mono l i j :
  i ≤ j → lease_is_expired l j = false → lease_is_expired l i = false.
Proof. unfold lease_is_expired. intros ? Hl. bool_prop. lia. Qed.

Lemma is_sealed_spec st : ∃ b st',
  is_sealed env st = (Ok b, st') ∧ unchanged st st' ∧ ticks st' = S (ticks st)
  ∧ (b = false → rq_sealed (sv_request st) = false ∧ env_seal env (ticks st) = false
       ∧ ∀ d, sv_deadline st = Some d → instant_at (ticks st) < d)
  ∧ (b = true → rq_sealed (sv_request st) = true ∨ ∀ mono, due_at st mono (ticks st))
  ∧ rq_sealed (sv_request st') = b.
Proof.
  eexists _, _. split; [reflexivity|].
  split; [split_and!; try reflexivity; unfold ticks; cbn; lia|]. split; [reflexivity|].
  unfold opt_test, due_at, instant_at. split_and!; [| |done].
  - intros Hb. bool_prop. destruct Hb as [[? ?] Hd]. split_and!; [done..|].
    intros d Heq. rewrite Heq in Hd. by apply Z.leb_gt in Hd.
  - intros [[?|?]%orb_true_iff|Hd]%orb_true_iff; [by left|right; by left|].
    destruct (sv_deadline st) as [d|]; [|discriminate Hd]. apply Z.leb_le in Hd.
    right. intros Hk0. right. left. by exists d.
Qed.

Lemma lock_live_spec now st r st' :
  lock_live env now st = (r, st') →
  unchanged st st'
  ∧ (r = Ok tt → rq_sealed (sv_request st') = false
       ∧ ∃ n, (ticks st ≤ n < ticks st')%nat ∧ live_at st n)
  ∧ (rq_sealed (sv_request st') = true → rq_sealed (sv_request st) = true
       ∨ ∃ n, (ticks st ≤ n < ticks st')%nat ∧ due_at st now n)
  ∧ (rq_sealed (sv_request st) = true →
       r = Err VaultError.Sealed ∧ rq_sealed (sv_request st') = true).
Proof.
  unfold lock_live, mbind, sm_bind, lift, fail_if, stateful.
  destruct (is_sealed_spec st) as (b & st1 & -> & U1 & T1 & L1 & D1 & F1).
  destruct b.
  { intros [= <- <-]. split_and!; [done|discriminate| |done]. intros _.
    destruct (D1 eq_refl) as [?|Hdue]; [by left|right]. exists (ticks st). split; [lia|done]. }
  destruct (L1 eq_refl) as (Hs & _). cbv beta iota.
  destruct (sv_poisoned st1).
  { intros [= <- <-]. split_and!; [done|discriminate| |]; congruence. }
  destruct (is_sealed_spec st1) as (b & st2 & -> & U2 & T2 & Hb & D2 & F2).
  assert (unchanged st (tick st2)) as U.
  { apply unchanged_tick. by eapply unchanged_trans. }
  destruct U1 as (_ & Hdl & Hle & _), U2 as (_ & _ & Hle2 & _).
  assert (∀ n, due_at st1 now n → due_at st now n) as Hdue
    by (unfold due_at; rewrite Hdl, Hle; done).
  unfold instant. cbv beta iota.
  destruct b; cbv beta iota.
  { intros [= <- <-]. split_and!; [done|discriminate| |congruence]. intros _.
    destruct (D2 eq_refl) as [?|Hd]; [congruence|right]. exists (ticks st1).
    split; [unfold ticks in *; cbn in *; lia|]. auto. }
  destruct (lease_is_expired _ _) eqn:Hl; intros [= <- <-].
  - split_and!; [done|discriminate| |congruence]. intros _. right. exists (ticks st2).
    split; [unfold ticks in *; cbn in *; lia|]. right. right. rewrite <- Hle. exact Hl.
  - split_and!; [done| |intros Hs2; cbn in Hs2; congruence|congruence].
    intros _. split; [done|]. exists (ticks st1). destruct (Hb eq_refl) as (_ & Hseal & Hd).
    split; [unfold ticks in *; cbn in *; lia|]. split_and!; [done|done| |].
    + intros d Heq. apply Hd. congruence.
    + exists (ticks st2). split; [lia|]. rewrite <- Hle.
      eapply lease_is_expired_mono; [|exact Hl]. unfold instant_at. lia.
Qed.

(** Taking the lock with a fresh sample of the clock. *)
Lemma sampled_lock_spec clock st r st' :
  (sampled ← sample env clock; lock_live env sampled.2) st = (r, st') →
  unchanged st st' ∧ sealed_when_due clock st st'
  ∧ (r = Ok tt → rq_sealed (sv_request st') = false
       ∧ ∃ n, (ticks st ≤ n < ticks st')%nat ∧ live_at st n)
  ∧ (rq_sealed (sv_request st) = true →
       r = Err VaultError.Sealed ∧ rq_sealed (sv_request st') = true).
Proof.
  intros Hr. apply sm_bind_either in Hr as [(e & Hs & _)|(p & s & Hs & Hl)];
    unfold sample in Hs; destruct (env_readings env (ticks st)) as [i sy] eqn:He;
    [discriminate Hs|injection Hs as <- <-].
  apply lock_live_spec in Hl as (U & Hok & Hdue & Hsealed).
  assert (ticks (tick st) = S (ticks st)) as Ht by done.
  split; [eapply unchanged_trans; [apply unchanged_tick, unchanged_refl|exact U]|].
  split_and!; [|intros Hx; destruct (Hok Hx) as [? (n & ? & ?)]; split; [done|];
    exists n; split; [lia|done]|exact Hsealed].
  intros Hs. destruct (Hdue Hs) as [?|(n & Hn & Hd)]; [by left|right].
  exists n, (ticks st). split; [lia|]. split; [lia|].
  unfold monotonic_at. by rewrite He.
Qed.

(** What the final checks let out. *)
Lemma release_spec clock result st result' st' :
  release env clock result st = (result', st') →
  unchanged st st'
  ∧ (result ≠ inl VaultResponseBody.Sealed → sealed_when_due clock st st')
  ∧ (∀ b, result' = inl b → result = inl b ∧ (b ≠ VaultResponseBody.Sealed →
       rq_sealed (sv_request st') = false
       ∧ (∃ n, (ticks st ≤ n)%nat ∧ live_at st n)
       ∧ ∀ v, valid_of st = Some v → ∃ m, (ticks st ≤ m)%nat
           ∧ wall_at clock (env_readings env) m < v)).
Proof using Type.
  unfold release. change (check_live env) with (lock_live env).
  set (checked := (sampled ← sample env clock; lock_live env sampled.2) st).
  destruct (sampled_lock_spec clock st checked.1 checked.2 (surjective_pairing checked))
    as (Uc & Hd & Hlive & _).
  clearbody checked.
  assert (∀ r st1, check_request env clock checked.2 = (r, st1) →
    unchanged st st1 ∧ rq_sealed (sv_request st1) = rq_sealed (sv_request checked.2)
    ∧ sealed_when_due clock st st1
    ∧ (r = Ok tt → ∀ v, valid_of st = Some v →
      ∃ m, (ticks st ≤ m)%nat ∧ wall_at clock (env_readings env) m < v)) as Hcheck.
  { intros r st1 Hr. assert (unchanged checked.2 st1
      ∧ rq_sealed (sv_request st1) = rq_sealed (sv_request checked.2)
      ∧ (r = Ok tt → ∀ v, valid_of checked.2 = Some v →
           wall_at clock (env_readings env) (ticks checked.2) < v)) as (U1 & Hseal & Hv).
    { revert Hr. unfold check_request, on_request, check_valid_until, valid_of.
      destruct (rq_valid_until (sv_request checked.2)) as [v|] eqn:Hvu; intros [= <- <-].
      - split; [apply unchanged_tick, unchanged_refl|]. split; [done|].
        unfold check_deadline. intros Hx v' [= <-]. by apply fail_if_Ok, Z.leb_gt in Hx.
      - split; [by destruct checked as [? [[] ]]|]. split; [done|]. by intros _ v'. }
    split; [by eapply unchanged_trans|]. split; [done|]. split.
    - eapply sealed_when_due_trans; [exact Uc|apply U1|done|by apply sealed_when_due_same].
    - intros Hx v Hst. exists (ticks checked.2). split; [apply Uc|]. apply Hv; [done|].
      destruct Uc as (_ & _ & _ & _ & _ & _ & _ & _ & -> & _). exact Hst. }
  assert (match checked with
    | (Ok _, st) => match result with
        | inl _ => match check_request env clock st with
                   | (Ok _, st) => (result, st)
                   | (Err _, st) => (inr (response_error VaultError.Expired), st) end
        | inr _ => (result, st) end
    | (Err _, st) => (inr (response_error VaultError.Sealed), st) end = (result', st') →
    unchanged st st' ∧ sealed_when_due clock st st' ∧ ∀ b, result' = inl b → result = inl b ∧
      (rq_sealed (sv_request st') = false ∧ (∃ n, (ticks st ≤ n)%nat ∧ live_at st n)
       ∧ ∀ v, valid_of st = Some v → ∃ m, (ticks st ≤ m)%nat
           ∧ wall_at clock (env_readings env) m < v)) as Hgen.
  { destruct checked as [[[]|e] st1]; cbn [fst snd] in *.
    - destruct result as [b|e]; [|intros [= <- <-]; done].
      destruct (check_request env clock st1) as [[[]|e] st2] eqn:Hq;
        destruct (Hcheck _ _ eq_refl) as (? & Hseal & ? & Hin); intros [= <- <-];
        (split_and!; [done..|]); [|done].
      intros b' [= <-]. destruct (Hlive eq_refl) as [Hs (n & Hn & Hl)]. rewrite Hseal.
      split_and!; [done|done|exists n; split; [lia|done]|auto].
    - intros [= <- <-]. done. }
  destruct result as [[]|e]; intros Hr;
    try (apply Hgen in Hr as (? & ? & Hr); split_and!; [done|done|]; intros b' Hb';
         destruct (Hr b' Hb') as [? ?]; by split).
  injection Hr as <- <-. split_and!; [split_and!; done|done|]. intros b [= <-]. done.
Qed.

(** ** A request, up to its action *)

Context (device : DeviceInfo) (device_key : bytes).
Context (keyring_peer : string → VaultResult (CallerIdentity * string)).
Context (personal_item : string → bytes → option (string * bytes)).

(** Either the request is refused with nothing but the clock changed, and the seal flag when it
    had to be, or its identifier is new and its action runs. *)
Lemma handle_inner_cases clock caller request wakeups st r st' :
  handle_inner env device device_key keyring_peer personal_item clock caller request wakeups st
    = (r, st') →
  (∃ e, r = Err e ∧ unchanged st st' ∧ sealed_when_due clock st st')
  ∨ ∃ n0 st1 app, (ticks st ≤ n0 < ticks st1)%nat
      ∧ unchanged st (set_replay st1 (sv_replay st))
      ∧ consume (sv_replay st) (req_request_id request) = (Ok tt, sv_replay st1)
      ∧ app = req_application request
      ∧ action_validate (req_action request) = Ok tt
      ∧ (∃ n, (ticks st ≤ n)%nat ∧ live_at st n)
      ∧ dispatch env device device_key keyring_peer personal_item clock caller app
          (for_request caller app (req_action request)) (provenance_caller caller app)
          wakeups (wall_at clock (env_readings env) n0) (req_action request) st1 = (r, st').
Proof.
  unfold handle_inner. intros Hr.
  apply sm_bind_either in Hr as [(e & [= _ <-] & ->)|(u1 & s1 & [= _ <-] & Hr)];
    [left; eauto using unchanged_refl, sealed_when_due_refl|].
  apply sm_bind_either in Hr as [(e & [= _ <-] & ->)|(u2 & s2 & [= Hv <-] & Hr)];
    [left; eauto using unchanged_refl, sealed_when_due_refl|].
  cbv zeta in Hr.
  assert (∀ (k : SM SS Outcome.outcome) s, ((sampled ← sample env clock; _ ← lock_live env sampled.2; k) s)
    = ((sampled ← sample env clock; lock_live env sampled.2) ≫= λ _, k) s) as Hassoc.
  { intros k s. unfold mbind, sm_bind, sample. by destruct (env_readings env (ticks s)). }
  rewrite Hassoc in Hr. clear Hassoc.
  apply sm_bind_either in Hr as [(e & Hl & ->)|([] & s4 & Hl & Hr)];
    apply sampled_lock_spec in Hl as (U & Hdue & Hlive & _); [by left; eauto|].
  destruct (Hlive eq_refl) as (Hsl & n & Hn & Hat). clear Hlive.
  apply sm_bind_either in Hr as [(e & Hw & _)|(now & s5 & [= <- <-] & Hr)]; [discriminate Hw|].
  apply (unchanged_tick st) in U as U2.
  apply sm_bind_either in Hr as [(e & Hc & ->)|([] & s6 & Hc & Hr)];
    unfold consume_id in Hc; cbn [set_request sv_replay] in Hc;
    destruct (consume _ _) as [x w] eqn:Hcons; injection Hc as -> <-.
  - left. exists e. split; [done|]. apply consume_Err in Hcons as ->.
    split; [by destruct s4 as [[]]|]. intros Hs. exfalso. cbn in Hs. congruence.
  - right. destruct U as (? & ? & ? & Hrep & ? & ? & ? & ? & ? & Hle).
    exists (ticks s4), (set_replay (tick s4) w), (req_application request).
    split; [unfold ticks in *; cbn in *; lia|]. split; [by destruct s4 as [[]]; cbn in *; subst|].
    split; [by rewrite <- Hrep|]. split; [done|]. split.
    { unfold request_validate, validate_fields in Hv. inv_ok. done. }
    split; [exists n; split; [unfold ticks in *; cbn in *; lia|exact Hat]|exact Hr].
Qed.
End Handle.
