(* ===== verification/ServiceGuarantees.v ===== *)
(** What the request service guarantees on every path: every answer is backed by a
    stored grant that still holds when the answer leaves, answers leave only while
    the vault is unsealed, a sealed vault and a replayed request change nothing, and
    no request panics. *)
From Stdlib Require Import ZArith Lia Bool.
From stdpp Require Import base gmap strings list.
From S2P Require Import Prelude Core Address Clock Lease Text Wire History StoreSpec Signature Grant.
From S2P Require Import GrantProofs Approvals ApprovalProofs Protocol Actions ActionProofs.
From S2P Require Import KeyringIndex Service ServiceSteps ServiceProofs.

Section Guarantees.
Context `{Sha256Ok, Base64Ok} `{MlDsa65}.
Context `{SerdeOk AccessGrant, SerdeOk PermissionRegistry, Serde StoredApprovals}.
Context `{Serde Index, Serde PortableItem, Serde Permission} `{SerdeChunks VaultRequest}.
Context `{VaultStore St} `{!VaultStoreOk St}.
Context (env : Environment St) (device : DeviceInfo) (device_key : bytes).
Context (keyring_peer : string → VaultResult (CallerIdentity * string)).
Context (personal_item : string → bytes → option (string * bytes)).
Abbreviation SS := (ServiceState St).
Abbreviation LM := (SM SS).
Abbreviation serve := (handle_at env device device_key keyring_peer personal_item).

(** The clock of a request that arrives in a state. *)
Definition request_clock (now monotonic_now : Z) (st : SS) : RequestTime :=
  (start_clock env now monotonic_now st).1.

(** A request that is refused leaves everything but the clock, and seals the vault only if it
    has to be sealed by then. *)
Definition refused (clock : RequestTime) (st st' : SS) : Prop :=
  store_of st' = store_of st ∧ sv_deadline st' = sv_deadline st ∧ sv_lease st' = sv_lease st
  ∧ sv_replay st' = sv_replay st ∧ sv_approvals st' = sv_approvals st
  ∧ sv_granted_permissions st' = sv_granted_permissions st
  ∧ sv_last_purge_at st' = sv_last_purge_at st ∧ sv_poisoned st' = sv_poisoned st
  ∧ sealed_when_due env clock st st'.

(** The steps of [handle_at]. *)
Lemma handle_at_steps caller request now mono wakeups st resp st' :
  serve caller request now mono wakeups st = (Some resp, st') →
  let clock := request_clock now mono st in
  ∃ r st1 result, handle_inner env device device_key keyring_peer personal_item clock caller
      request wakeups (tick (start_request st)) = (r, st1)
    ∧ answer r = Some result
    ∧ release env clock result st1 = (resp_result resp, st')
    ∧ resp_delivery_deadline resp = delivery_deadline env clock (resp_result resp) st'.
Proof.
  unfold handle_at, request_clock, start_clock, ticks.
  cbn [start_request set_request sv_request rq_ticks].
  destruct (env_readings env (rq_ticks (sv_request st))) as [i sy]. cbn [fst].
  destruct (handle_inner _ _ _ _ _ _ _ _ _ _) as [r st1] eqn:Hi.
  destruct (answer r) as [result|] eqn:Ha; [|discriminate].
  destruct (release _ _ _ _) as [x st2] eqn:Hrel. intros [= <- <-]. cbv zeta.
  by exists r, st1, result.
Qed.

Lemma answer_done r b : answer r = Some (inl b) → r = Ok (Outcome.Done b).
Proof. destruct r as [[]|]; cbn; naive_solver. Qed.

(** An answer that leaves went through its action and the final checks. *)
Lemma answer_released caller request now mono wakeups st resp st' b :
  serve caller request now mono wakeups st = (Some resp, st') → resp_result resp = inl b →
  let clock := request_clock now mono st in
  ∃ n0 st1 st2, (ticks st < n0 < ticks st1)%nat
    ∧ store_of st1 = store_of st
    ∧ (∃ n, (ticks st < n)%nat ∧ live_at env st n)
    ∧ dispatch env device device_key keyring_peer personal_item clock caller
        (req_application request) (for_request caller (req_application request) (req_action request))
        (provenance_caller caller (req_application request)) wakeups
        (wall_at clock (env_readings env) n0) (req_action request) st1 = (Ok (Outcome.Done b), st2)
    ∧ action_validate (req_action request) = Ok tt
    ∧ release env clock (inl b) st2 = (inl b, st')
    ∧ resp_delivery_deadline resp = delivery_deadline env clock (inl b) st'.
Proof.
  intros Hs Hb. apply handle_at_steps in Hs as (r & st2 & result & Hi & Ha & Hrel & Hd).
  rewrite Hb in Hrel, Hd. pose proof Hrel as Hrel'.
  apply release_spec in Hrel' as (_ & _ & Hrel'). destruct (Hrel' b eq_refl) as [-> _].
  apply answer_done in Ha as ->.
  apply handle_inner_cases in Hi as [(e & [=] & _)|(n0 & st1 & app & Hn & U & _ & -> & Hv & Hl & Hdis)].
  destruct U as (Hst & _). destruct Hl as (n & Hn' & Hl).
  exists n0, st1, st2. split; [unfold ticks in *; cbn in *; lia|]. split; [exact Hst|].
  split; [exists n; split; [unfold ticks in *; cbn in *; lia|exact Hl]|done].
Qed.

(** C1: an answer only leaves on the authority of stored grants.  When a request is
    answered without an error, then for everything the request needs, the store held a grant
    that was live at a clock reading of the request: the manager's grant or the grants of the
    action itself, of the caller; and for a request of the keyring adapter the adapter's
    grant, the grant of the process it speaks for to the entry and operation (or that process's
    manager grant), and the grants of the action it passes on.  A single-use grant counts only
    for the two actions that spend one.  If that grant expires, the answer passed a later check
    strictly before the expiry, and its delivery deadline lies within the time that is left. *)
Theorem no_response_without_authority caller request now mono wakeups st resp st' b c r :
  serve caller request now mono wakeups st = (Some resp, st') → resp_result resp = inl b →
  (c, r) ∈ request_requirements keyring_peer caller (req_action request)
    (req_application request ≫= app_base_dir) →
  let clock := request_clock now mono st in
  ∃ n t e single, (ticks st < n)%nat
    ∧ granted (grants_at st) c r (wall_at clock (env_readings env) n) single t e
    ∧ (single = true → may_spend (req_action request) = true)
    ∧ (b ≠ VaultResponseBody.Sealed → ∀ d, e = Some d →
         ∃ v m k dd, v ≤ d ∧ (n < m)%nat ∧ wall_at clock (env_readings env) m < v
           ∧ resp_delivery_deadline resp = Some dd
           ∧ dd ≤ deadline_at clock v (env_readings env k).1 (env_readings env k).2).
Proof.
  intros Hs Hb Hr clock.
  apply (answer_released _ _ _ _ _ _ _ _ b) in Hs
    as (n0 & st1 & st2 & Hn & Hst & _ & Hdis & Hv0 & Hrel & Hd); [|done]. fold clock in Hdis, Hrel, Hd.
  apply (dispatch_backed _ _ _ _ _ _ _ _ _ _ _ _ _ _ _ _ c r) in Hdis
    as (single & (n & t & e & Hn' & Hg & Ht) & Hsp); [|lia|done|done].
  exists n, t, e, single. split; [lia|]. split; [by unfold grants_at in *; rewrite <- Hst|].
  split; [done|]. intros Hns d ->. destruct (Ht d eq_refl) as (v & Hv & Hvd).
  apply release_spec in Hrel as (U & _ & Hrel). destruct (Hrel b eq_refl) as [_ Hq].
  destruct (Hq Hns) as (_ & _ & Hq'). destruct (Hq' v Hv) as (m & Hm & Hw).
  destruct U as (_ & _ & _ & _ & _ & _ & _ & _ & Hv' & _).
  exists v, m, (ticks st'). rewrite Hd. unfold delivery_deadline.
  destruct (env_readings env (ticks st')) as [i sy]. cbn [fst snd].
  unfold valid_of in *. rewrite Hv', Hv. cbn [fmap option_fmap option_map].
  destruct (sv_deadline st') as [q|]; cbn [earlier]; destruct b; try done;
    eexists; (split_and!; [lia|lia|done|reflexivity|lia]).
Qed.

(** C2: an answer is given only by a vault that is unsealed when the request is
    accepted; and, other than the acknowledgement of a seal, only if the vault is
    still unsealed afterwards: the seal flag is down, the store's deadline and the
    lease have not run out.  The delivery deadline of the answer never lies beyond
    the instant the store seals itself. *)
Theorem response_only_while_unsealed caller request now mono wakeups st resp st' b :
  serve caller request now mono wakeups st = (Some resp, st') → resp_result resp = inl b →
  (∃ n, (ticks st < n)%nat ∧ live_at env st n)
  ∧ (b ≠ VaultResponseBody.Sealed →
       (∃ n, (ticks st < n)%nat ∧ live_at env st' n)
       ∧ ∀ d, sv_deadline st' = Some d →
           ∃ dd, resp_delivery_deadline resp = Some dd ∧ dd ≤ d).
Proof.
  intros Hs Hb.
  apply (answer_released _ _ _ _ _ _ _ _ b) in Hs
    as (n0 & st1 & st2 & Hn & _ & Hl & Hdis & _ & Hrel & Hd); [|done].
  split; [done|]. intros Hns. pose proof (steady_dispatch env device device_key keyring_peer
    personal_item (request_clock now mono st) (onward (St := St)) _ _ _ _ _ _ _ _ _ _ Hdis) as [Hle _].
  apply release_spec in Hrel as (U & _ & Hrel). destruct (Hrel b eq_refl) as [_ Hq].
  destruct (Hq Hns) as (Hs' & (n & Hn2 & Hlive) & _). destruct U as (_ & Hdl & Hle' & _).
  split; [exists n; split; [lia|]; unfold live_at in *; rewrite Hs', Hdl, Hle'; naive_solver|].
  intros d Hd'. rewrite Hd. unfold delivery_deadline.
  destruct (env_readings env (ticks st')) as [i sy]. rewrite Hd'.
  destruct (rq_valid_until (sv_request st')); cbn [fmap option_fmap option_map earlier];
    destruct b; try done; eexists; (split; [reflexivity|lia]).
Qed.

(** ** Refusals *)

(** A result that is already an error stays one and changes nothing. *)
Lemma release_error clock e st : ∃ e' st', release env clock (inr e) st = (inr e', st')
  ∧ unchanged st st' ∧ sealed_when_due env clock st st'
  ∧ (rq_sealed (sv_request st) = true → e' = response_error VaultError.Sealed
       ∧ rq_sealed (sv_request st') = true).
Proof.
  unfold release. change (check_live env) with (lock_live env).
  destruct ((sampled ← sample env clock; lock_live env sampled.2) st) as [[[]|e'] st1] eqn:Hl;
    apply sampled_lock_spec in Hl as (U & D & _ & Hs);
    (eexists _, _; split; [reflexivity|]; split_and!; [done|done|];
     intros Hseal; destruct (Hs Hseal) as [[=] Hsealed]; done).
Qed.

Lemma unchanged_refused clock st st' :
  unchanged (tick (start_request st)) st' →
  sealed_when_due env clock (tick (start_request st)) st' → refused clock st st'.
Proof.
  intros (? & ? & ? & ? & ? & ? & ? & ? & _) D. split_and!; try done.
  intros Hs. destruct (D Hs) as [?|(n & m & Hn & Hm & Hd)]; [by left|right].
  exists n, m. unfold ticks in *. cbn in *. split_and!; [lia..|exact Hd].
Qed.

(** A request that [handle_inner] refuses is answered with an error. *)
Lemma handle_at_refused caller request now mono wakeups st e st1 :
  let clock := request_clock now mono st in
  handle_inner env device device_key keyring_peer personal_item clock
    caller request wakeups (tick (start_request st)) = (Err e, st1) →
  unchanged (tick (start_request st)) st1 →
  sealed_when_due env clock (tick (start_request st)) st1 →
  ∃ e' st', (serve caller request now mono wakeups st = (Some {|
      resp_version := PROTOCOL_VERSION; resp_request_id := req_request_id request;
      resp_result := inr e'; resp_delivery_deadline := None; resp_delivery_cancelled := None |},
      st'))
    ∧ refused clock st st'
    ∧ (rq_sealed (sv_request st1) = true → e' = response_error VaultError.Sealed
         ∧ rq_sealed (sv_request st') = true).
Proof.
  unfold handle_at, request_clock, start_clock, ticks.
  cbn [start_request set_request sv_request rq_ticks].
  destruct (env_readings env (rq_ticks (sv_request st))) as [i sy]. cbn [fst].
  intros -> U D. cbn [answer].
  destruct (release_error (request_time_new now mono sy i)
    (response_error_with_interaction e None) st1) as (e' & st' & -> & U' & D' & Hs).
  exists e', st'. split; [reflexivity|]. split; [|exact Hs].
  apply unchanged_refused; [by eapply unchanged_trans|].
  eapply sealed_when_due_trans; [exact U|apply U'|exact D|exact D'].
Qed.

(** C34: a sealed vault answers every request with the same error, carries no
    delivery deadline, stays sealed, and keeps its store, lease, replay window and
    approval queue as they were. *)
Theorem sealed_vault_refuses caller request now mono wakeups st :
  rq_sealed (sv_request st) = true →
  ∃ st', serve caller request now mono wakeups st = (Some {|
      resp_version := PROTOCOL_VERSION; resp_request_id := req_request_id request;
      resp_result := inr (response_error VaultError.Sealed);
      resp_delivery_deadline := None; resp_delivery_cancelled := None |}, st')
    ∧ refused (request_clock now mono st) st st' ∧ rq_sealed (sv_request st') = true.
Proof.
  intros Hseal.
  destruct (handle_inner env device device_key keyring_peer personal_item
    (request_clock now mono st) caller request wakeups (tick (start_request st)))
    as [r st1] eqn:Hi.
  assert (∃ e, r = Err e ∧ unchanged (tick (start_request st)) st1
    ∧ sealed_when_due env (request_clock now mono st) (tick (start_request st)) st1
    ∧ rq_sealed (sv_request st1) = true) as (e & -> & U & D & Hs1).
  { pose proof Hi as Hi'.
    apply handle_inner_cases in Hi as [(e & -> & U & D)|(n0 & s1 & app & _ & _ & _ & _ & _ & Hl & _)];
      [|destruct Hl as (n & _ & Hl & _); cbn in Hl; congruence].
    exists e. split_and!; [done..|]. unfold handle_inner in Hi'.
    apply sm_bind_either in Hi' as [(e1 & [= _ <-] & _)|(u1 & s1 & [= _ <-] & Hi)]; [done|].
    apply sm_bind_either in Hi as [(e2 & [= _ <-] & _)|(u2 & s2 & [= _ <-] & Hi)]; [done|].
    cbv zeta in Hi. unfold mbind, sm_bind, sample in Hi.
    destruct (env_readings env _) as [i sy]. cbv beta iota in Hi.
    destruct (lock_live env _ _) as [x s3] eqn:Hl.
    apply lock_live_spec in Hl as (_ & _ & _ & Hs). destruct (Hs Hseal) as [-> Hs3].
    injection Hi as _ <-. exact Hs3. }
  destruct (handle_at_refused _ _ _ _ _ _ _ _ Hi U D) as (e' & st' & Hr & Href & Hs).
  destruct (Hs Hs1) as [-> Hs']. by exists st'.
Qed.

(** C35: a request whose identifier is still in the replay window is refused:
    whatever the caller asked for, the answer is an error, and nothing but the clock changes:
    not the store, the lease, the replay window, the approval queue or the granted list, and
    the vault is sealed after only if it was before or its time is over at a clock reading of
    the request. *)
Theorem replayed_request_changes_nothing caller request now mono wakeups st :
  req_request_id request ∈ rw_set (sv_replay st) →
  ∃ e st', serve caller request now mono wakeups st = (Some {|
      resp_version := PROTOCOL_VERSION; resp_request_id := req_request_id request;
      resp_result := inr e; resp_delivery_deadline := None; resp_delivery_cancelled := None |},
      st')
    ∧ refused (request_clock now mono st) st st'.
Proof.
  intros Hid.
  destruct (handle_inner env device device_key keyring_peer personal_item
    (request_clock now mono st) caller request wakeups (tick (start_request st)))
    as [r st1] eqn:Hi.
  pose proof Hi as Hi'.
  apply handle_inner_cases in Hi as [(e & -> & U & D)|(n0 & s1 & app & _ & _ & Hc & _)].
  - destruct (handle_at_refused _ _ _ _ _ _ _ _ Hi' U D) as (e' & st' & Hr & Href & _). eauto.
  - unfold consume in Hc. rewrite bool_decide_eq_true_2 in Hc by exact Hid. discriminate Hc.
Qed.

(** ** No panics *)

Definition queue_wf (st : SS) : Prop := approvals_wf (sv_approvals st).

(** Every step keeps the queue within its bounds, as long as the other requests do. *)
Definition keeps_queue (st st' : SS) : Prop := queue_wf st → queue_wf st'.

Context (Henv : ∀ n st, queue_wf st → queue_wf (env_interference env n st)).

#[local] Instance keeps_queue_passage : Passage env keeps_queue.
Proof.
  split; unfold keeps_queue, queue_wf; try (by intros).
  - split; red; naive_solver.
  - intros st p Hs Hwf. eapply approvals_step_wf; [exact Hs|exact Hwf].
  - intros st Hwf. by apply Henv.
Qed.

(** A computation that does not panic on a queue within its bounds. *)
Definition calm (m : LM Outcome.outcome) : Prop :=
  ∀ st st', queue_wf st → m st ≠ (Ok Outcome.Panicked, st').

Lemma calm_done m : calm (done m).
Proof.
  intros st st' _ Hd. unfold done in Hd. by apply sm_bind_Ok in Hd as (b & s & _ & [=]).
Qed.

Lemma calm_ret o : o ≠ Outcome.Panicked → calm (mret o).
Proof. intros Ho st st' _ [= Hr _]. done. Qed.

Lemma calm_err e : calm (lift (Err e)).
Proof. intros st st' _ [=]. Qed.

Lemma calm_bind {A} (m : LM A) f :
  steady keeps_queue m → (∀ a, calm (f a)) → calm (m ≫= f).
Proof.
  intros Hm Hf st st' Hwf Hr. apply sm_bind_Ok in Hr as (a & s & Hr & Ha).
  eapply Hf; [|exact Ha]. by eapply Hm.
Qed.

Lemma calm_catch {A} (m : LM A) f :
  steady keeps_queue m → (∀ r, calm (f r)) → calm (catch m f).
Proof.
  intros Hm Hf st st' Hwf. unfold catch. destruct (m st) as [r s] eqn:Hr.
  apply Hf. by eapply Hm.
Qed.

Lemma calm_ask c now project :
  app_project (ac_application c) = Some project → calm (ask_approval env c now).
Proof.
  intros Hp st st' _ Ha. unfold ask_approval in Ha.
  apply sm_bind_Ok in Ha as ([reference|] & s & Hc & [=]).
  unfold create_approval in Hc. apply sm_bind_Ok in Hc as (i & s1 & _ & Hc).
  unfold stateful in Hc.
  destruct (create_at_total (sv_approvals s1) c now i (env_random env (ticks s1)) _ Hp)
    as [[x p] Heq]. rewrite Heq in Hc. apply sm_bind_Ok in Hc as (? & ? & _ & Hc).
  by apply sm_bind_Ok in Hc as (? & ? & _ & [=]).
Qed.

Lemma deny_total p id now : approvals_wf p → is_Some (deny p id now).
Proof.
  intros Hwf. unfold deny. apply (purge_expired_wf _ now) in Hwf.
  destruct (position _ _) as [i|] eqn:Hi; [|eauto].
  apply position_Some in Hi as (r & Hr & _). rewrite Hr. cbn.
  pose proof (wf_pending _ Hwf) as Hall. rewrite Forall_lookup in Hall.
  specialize (Hall _ _ Hr). unfold is_pending in Hall. unfold pending_expiry.
  destruct (perm_state (ar_summary r)); [by eexists|done].
Qed.

Lemma calm_deny clock caller id : calm (deny_action env clock caller id).
Proof.
  apply calm_bind; [keeps|]. intros _. apply calm_bind; [keeps|]. intros now st st' Hwf Hd.
  apply sm_bind_Ok in Hd as ([[]|] & s & Hd & [=]). unfold deny_approval in Hd.
  destruct (deny_total (sv_approvals st) id now Hwf) as [[r p] Heq]. rewrite Heq in Hd.
  apply sm_bind_Ok in Hd as (? & ? & _ & Hd). by apply sm_bind_Ok in Hd as (? & ? & _ & [=]).
Qed.

(** The actions [execute_action] accepts. *)
Lemma execute_total clock caller action lease prov base_dir :
  manager_action action = false →
  match action with
  | VaultAction.AuthorizeSecretInput _ | VaultAction.KeyringAccess _ _ _ _ _ _
  | VaultAction.WaitPermission _ _ => False
  | _ => True
  end →
  is_Some (execute_action (St := St) clock (env_readings env) device caller action lease prov base_dir).
Proof. destruct action; try discriminate; try done; intros _ _; by eexists. Qed.

Lemma calm_run_action clock caller action prov base_dir continue :
  (∀ lease, is_Some (execute_action (St := St) clock (env_readings env) device caller action
     lease prov base_dir)) →
  (∀ r, calm (continue r)) →
  calm (run_action env device clock caller action prov base_dir continue).
Proof.
  intros Hex Hc st st' Hwf. unfold run_action, stateful.
  destruct (Hex (lease_deadlines st)) as [m Hm]. rewrite Hm.
  apply calm_catch; [|done|done]. eapply steady_on_request; [apply _|]. by eapply moves_action.
Qed.

Lemma for_request_project caller app action c :
  for_request caller app action = Some c → is_Some (app_project (ac_application c)).
Proof.
  unfold for_request. destruct app as [app|]; [|done]. cbn.
  destruct (app_project app) as [p|] eqn:Hp; [|done]. cbn.
  destruct (approvable action) as [[[[[]]]]|]; [|done]. cbn.
  destruct (_ && _); [|done]. destruct (address_secret_spec _); [|done]. cbn.
  intros [= <-]. cbn. by rewrite Hp.
Qed.

Lemma bridged_total clock caller e s sv op br pd action lease prov base_dir :
  action_validate (VaultAction.KeyringAccess e s sv op br pd) = Ok tt → br = Some action →
  is_Some (execute_action (St := St) clock (env_readings env) device caller action lease prov base_dir).
Proof.
  intros Hv ->. cbn [action_validate] in Hv. inv_ok.
  destruct action; try discriminate Hv; by eexists.
Qed.

Lemma calm_keyring clock caller e s sv op br pd w now :
  action_validate (VaultAction.KeyringAccess e s sv op br pd) = Ok tt →
  calm (keyring_access env device keyring_peer clock caller e s sv op br pd w now).
Proof.
  intros Hv. unfold keyring_access.
  do 4 (apply calm_bind; [keeps|intros ?]). destruct pd as [id|].
  - apply calm_bind; [keeps|]. intros ?. by apply calm_ret.
  - cbv zeta. apply calm_catch; [keeps|]. intros [d|[]]; try apply calm_err.
    + do 2 (apply calm_bind; [keeps|intros ?]). destruct br as [action|]; [|by apply calm_ret].
      apply calm_run_action; [intros; by eapply bridged_total|]. intros r.
      do 3 (apply calm_bind; [keeps|intros ?]). by apply calm_ret.
    + unfold for_keyring. destruct (access_project sv). by eapply calm_ask.
Qed.

Lemma calm_dispatch clock caller app prov w now action :
  action_validate action = Ok tt →
  calm (dispatch env device device_key keyring_peer personal_item clock caller app
    (for_request caller app action) prov w now action).
Proof.
  intros Hv. destruct action; cbn [dispatch]; try apply calm_done; try apply calm_deny;
    try (by apply calm_keyring);
    (apply calm_run_action; [intros; by apply execute_total|]);
    (intros [[body refreshes]|[]]; try apply calm_err);
    try (apply calm_bind; [keeps|intros ?]; by apply calm_ret);
    (destruct (for_request _ _ _) as [c|] eqn:Hc; [|apply calm_err]);
    apply for_request_project in Hc as [pr Hp]; by eapply calm_ask.
Qed.

(** C33: every request is answered.  None of the [expect]s and [unreachable]s on
    the way is reached, as long as the approval queue keeps its bounds, which this
    request and, by assumption, the requests it waits for preserve. *)
Theorem no_request_panics caller request now mono wakeups st :
  queue_wf st →
  ∃ resp st', serve caller request now mono wakeups st = (Some resp, st')
    ∧ queue_wf st'.
Proof.
  intros Hwf. unfold handle_at. destruct (start_clock _ _ _ _) as [clock st0] eqn:Hclk.
  assert (queue_wf st0) as Hwf0.
  { unfold start_clock in Hclk. destruct (env_readings _ _). by injection Hclk as _ <-. }
  destruct (handle_inner _ _ _ _ _ _ _ _ _ _) as [r st1] eqn:Hi.
  assert (queue_wf st1) as Hwf1.
  { eapply (steady_handle_inner env device device_key keyring_peer personal_item clock
      keeps_queue); [exact Hi|exact Hwf0]. }
  assert (is_Some (answer r)) as [result Ha].
  { apply handle_inner_cases in Hi as [(e & -> & _)|(n0 & s1 & app & _ & U & _ & -> & Hv & _ & Hd)];
      [by eexists|].
    destruct r as [[]|]; try by eexists. exfalso. eapply calm_dispatch; [exact Hv| |exact Hd].
    destruct U as (_ & _ & _ & _ & Hq & _). unfold queue_wf. cbn in Hq. by rewrite Hq. }
  rewrite Ha. destruct (release env clock result st1) as [x st2] eqn:Hrel.
  eexists _, st2. split; [reflexivity|].
  apply release_spec in Hrel as [(_ & _ & _ & _ & Hq & _) _]. unfold queue_wf. by rewrite Hq.
Qed.
End Guarantees.
