(* ===== verification/ServiceWitness.v ===== *)
(** Requests served on the in-memory store: each guarantee of the service applied to
    a run where its hypotheses hold. *)
From Stdlib Require Import ZArith Lia Bool.
From stdpp Require Import base gmap strings list.
From S2P Require Import Prelude Core Instances Address Clock Lease Text Wire History StoreSpec.
From S2P Require Import DemoStore Signature Grant GrantProofs Approvals ApprovalProofs.
From S2P Require Import ApprovalWitness Protocol Actions ActionProofs ActionWitness KeyringIndex.
From S2P Require Import Service ServiceProofs ServiceGuarantees.

Module ServiceDemo.
Import ActionDemo.
#[export] Existing Instance ApprovalDemo.demo_mldsa.

#[export] Instance approvals_serde : Serde StoredApprovals :=
  {| serde_to_vec _ := Err "unused"; serde_from_slice _ := Err "unused" |}.
#[export] Instance index_serde : Serde Index :=
  {| serde_to_vec _ := Err "unused"; serde_from_slice _ := Err "unused" |}.
#[export] Instance portable_serde : Serde PortableItem :=
  {| serde_to_vec _ := Err "unused"; serde_from_slice _ := Err "unused" |}.
#[export] Instance permission_serde : Serde Permission :=
  {| serde_to_vec _ := Err "unused"; serde_from_slice _ := Err "unused" |}.
#[export] Instance request_chunks : SerdeChunks VaultRequest := λ _, Ok [as_bytes "request"].

(** The clock advances a second with each reading; nothing else happens. *)
Definition env : Environment DemoState := {|
  env_readings n := (Z.of_nat n * NANOS, Z.of_nat n * NANOS);
  env_seal _ := false;
  env_random _ := Ok ([], []);
  env_interference _ st := st |}.

Definition request_id : bytes := replicate 16 Byte.x07.
Definition request : VaultRequest := with_id request_id get.

Definition lease : UnsealLease :=
  match new_at 20 0 default_policy with Ok l => l | Err _ => witness_lease end.
(** An unsealed vault that holds one secret, readable by [caller] until second 50. *)
Definition unsealed : ServiceState DemoState := {|
  sv_request := start filled; sv_deadline := Some (expires_at lease); sv_lease := lease;
  sv_replay := replay_new; sv_approvals := approvals_default; sv_granted_permissions := [];
  sv_last_purge_at := 0; sv_poisoned := false |}.
Definition sealed : ServiceState DemoState := set_sealed unsealed true.
Definition replayed : ServiceState DemoState :=
  set_replay unsealed (consume replay_new request_id).2.

Definition peer (_ : string) : VaultResult (CallerIdentity * string) := Err VaultError.Sealed.
Definition personal (_ : string) (_ : bytes) : option (string * bytes) := None.
Abbreviation served := (handle_at env device [] peer personal caller request 20 0 0).

Definition response : VaultResponse := {|
  resp_version := PROTOCOL_VERSION; resp_request_id := request_id;
  resp_result := inl (VaultResponseBody.Secret (Some value));
  resp_delivery_deadline := Some (20 * NANOS); resp_delivery_cancelled := Some false |}.
Lemma run_served : (served unsealed).1 = Some response.
Proof. vm_compute. reflexivity. Qed.

Lemma served_pair st r : (served st).1 = r → served st = (r, (served st).2).
Proof. intros <-. by destruct (served st). Qed.

Definition requirement : GrantRequirement :=
  namespace_requirement LocalKeyring namespace (Some (Local "a" None)) GrantPermission.Get.
Lemma required : (caller, requirement) ∈ request_requirements peer caller get None.
Proof. by left. Qed.
End ServiceDemo.

Section Witnesses.
Import ActionDemo ServiceDemo.

Example no_response_without_authority_witness :
  (served unsealed).1 = Some response
  ∧ ∃ n t e single, granted (grants_at unsealed) caller requirement
      (wall_at (request_clock env 20 0 unsealed) (env_readings env) n) single t e.
Proof.
  split; [exact run_served|].
  destruct (no_response_without_authority env device [] peer personal caller request 20 0 0
    unsealed response _ _ caller requirement (served_pair _ _ run_served) eq_refl required)
    as (n & t & e & single & _ & Hg & _).
  exists n, t, e, single. exact Hg.
Defined.

Example response_only_while_unsealed_witness :
  (served unsealed).1 = Some response
  ∧ (∃ n, (0 < n)%nat ∧ live_at env unsealed n)
  ∧ ∃ n, (0 < n)%nat ∧ live_at env (served unsealed).2 n.
Proof.
  split; [exact run_served|].
  destruct (response_only_while_unsealed env device [] peer personal caller request 20 0 0
    unsealed response _ _ (served_pair _ _ run_served) eq_refl) as [Hbefore Hafter].
  split; [exact Hbefore|]. exact (proj1 (Hafter ltac:(discriminate))).
Defined.

Example sealed_vault_refuses_witness :
  ∃ st', served sealed = (Some {|
      resp_version := PROTOCOL_VERSION; resp_request_id := request_id;
      resp_result := inr (response_error VaultError.Sealed);
      resp_delivery_deadline := None; resp_delivery_cancelled := None |}, st')
    ∧ refused env (request_clock env 20 0 sealed) sealed st'.
Proof.
  destruct (sealed_vault_refuses env device [] peer personal caller request 20 0 0
    sealed eq_refl) as (st' & Hr & Href & _).
  exists st'. exact (conj Hr Href).
Defined.

Lemma id_replayed : req_request_id request ∈ rw_set (sv_replay replayed).
Proof. cbn. set_solver. Qed.

Example replayed_request_changes_nothing_witness :
  ∃ e st', served replayed = (Some {|
      resp_version := PROTOCOL_VERSION; resp_request_id := request_id;
      resp_result := inr e; resp_delivery_deadline := None; resp_delivery_cancelled := None |},
      st') ∧ refused env (request_clock env 20 0 replayed) replayed st'.
Proof.
  exact (replayed_request_changes_nothing env device [] peer personal caller request 20 0 0
    replayed id_replayed).
Defined.

Example no_request_panics_witness :
  ∃ resp st', served unsealed = (Some resp, st') ∧ queue_wf st'.
Proof.
  exact (no_request_panics env device [] peer personal (λ _ _ H, H) caller request 20 0 0
    unsealed approvals_default_wf).
Defined.
End Witnesses.
