(* ===== verification/Envelope.v ===== *)
(** Encryption of documents: the AEAD boundary (src/src/crypto.rs), the keys under
    the installation root (src/src/vault/keys.rs) and the encrypted snapshot of one
    document generation (src/src/vault/envelope.rs).  AES-256-GCM, HMAC-SHA-256 and
    the random source are parameters; a random draw is an argument. *)
From Stdlib Require Import ZArith Lia Bool.
From stdpp Require Import base gmap strings list.
From S2P Require Import Prelude Text Core Address Instances Wire Signature Manifest.

(** ** The AEAD boundary *)

(** The [aes_gcm] crate: encryption fails on oversized messages, decryption on a tag
    that does not verify. *)
Class Aes256Gcm := {
  gcm_encrypt : bytes → bytes → bytes → bytes → option bytes;
  gcm_decrypt : bytes → bytes → bytes → bytes → option bytes
}.
Class Aes256GcmOk `{Aes256Gcm} : Prop := {
  gcm_round_trip key nonce aad plaintext ciphertext :
    gcm_encrypt key nonce aad plaintext = Some ciphertext →
    gcm_decrypt key nonce aad ciphertext = Some plaintext;
  (** The ciphertext carries a tag of 16 bytes. *)
  gcm_length key nonce aad plaintext ciphertext :
    gcm_encrypt key nonce aad plaintext = Some ciphertext →
    length ciphertext = (length plaintext + 16)%nat
}.

(** One ciphertext that authenticates under two different headers. *)
Definition gcm_confused `{Aes256Gcm} (key nonce aad aad' ciphertext : bytes) : Prop :=
  aad ≠ aad' ∧ is_Some (gcm_decrypt key nonce aad ciphertext)
  ∧ is_Some (gcm_decrypt key nonce aad' ciphertext).

(** The [hmac] crate. *)
Class HmacSha256 := hmac_sha256 : bytes → bytes → bytes.

Definition KEY_BYTES : Z := 32.
Definition NONCE_BYTES : Z := 12.

Module EncryptionAlgorithm.
Inductive algorithm : Set := Aes256Gcm.
End EncryptionAlgorithm.

Definition encryption_code (a : EncryptionAlgorithm.algorithm) : Byte.byte :=
  match a with EncryptionAlgorithm.Aes256Gcm => Byte.x01 end.

Definition CURRENT_ENCRYPTION_ALGORITHM : EncryptionAlgorithm.algorithm :=
  EncryptionAlgorithm.Aes256Gcm.

Record EncryptedPayload : Set := {
  ep_algorithm : EncryptionAlgorithm.algorithm;
  ep_nonce : bytes;
  ep_ciphertext : bytes
}.

Section Crypto.
Context `{Aes256Gcm}.

(** [crypto::encrypt]: the nonce is drawn first.  Every caller reports [Crypto]. *)
Definition encrypt (key aad plaintext : bytes) (nonce : VaultResult bytes)
    : VaultResult EncryptedPayload :=
  nonce ← map_err (λ _, VaultError.Crypto) nonce;
  ciphertext ← ok_or VaultError.Crypto (gcm_encrypt key nonce aad plaintext);
  Ok {| ep_algorithm := CURRENT_ENCRYPTION_ALGORITHM; ep_nonce := nonce;
        ep_ciphertext := ciphertext |}.

(** [crypto::decrypt] and [provider_for]. *)
Definition decrypt (algorithm : EncryptionAlgorithm.algorithm) (key nonce aad ciphertext : bytes)
    : option bytes :=
  match algorithm with
  | EncryptionAlgorithm.Aes256Gcm => gcm_decrypt key nonce aad ciphertext
  end.

(** [crypto::decrypt_key]. *)
Definition decrypt_key (algorithm : EncryptionAlgorithm.algorithm)
    (key nonce aad ciphertext : bytes) : option bytes :=
  if negb (Z.of_nat (length ciphertext) =? KEY_BYTES + 16) then None
  else decrypt algorithm key nonce aad ciphertext.

(** ** Keys under the installation root *)

Definition INSTALLATION_KEY_DOMAIN : bytes :=
  as_bytes "factorseal/installation-key/v1" ++ [Byte.x00].
Definition INDEX_KEY_DOMAIN : bytes := as_bytes "factorseal/index-key/v1" ++ [Byte.x00].
Definition DOCUMENT_KEY_DOMAIN : bytes := as_bytes "factorseal/document-key/v1" ++ [Byte.x00].

Record WrappedKey : Set := {
  wk_encryption_algorithm : EncryptionAlgorithm.algorithm;
  wk_nonce : bytes;
  wk_ciphertext : bytes
}.

Definition wrapped_key_validate (w : WrappedKey) : VaultResult () :=
  fail_if (negb (Z.of_nat (length (wk_ciphertext w)) =? KEY_BYTES + 16))
    (VaultError.Protection "wrapped key structure is invalid").

Definition wrap_key (root_key aad plaintext : bytes) (nonce : VaultResult bytes)
    : VaultResult WrappedKey :=
  encrypted ← encrypt root_key aad plaintext nonce;
  Ok {| wk_encryption_algorithm := ep_algorithm encrypted; wk_nonce := ep_nonce encrypted;
        wk_ciphertext := ep_ciphertext encrypted |}.

Definition unwrap_key (root_key aad : bytes) (wrapped : WrappedKey) (label : string)
    : VaultResult bytes :=
  _ ← wrapped_key_validate wrapped;
  plaintext ← ok_or (VaultError.Protection ("cannot authenticate " +:+ label))
                (decrypt_key (wk_encryption_algorithm wrapped) root_key (wk_nonce wrapped) aad
                   (wk_ciphertext wrapped));
  _ ← fail_if (negb (Z.of_nat (length plaintext) =? KEY_BYTES))
        (VaultError.Protection ("invalid " +:+ label +:+ " length"));
  Ok plaintext.

Definition installation_key_aad (installation_id device_vault_id purpose : bytes) : bytes :=
  INSTALLATION_KEY_DOMAIN ++ installation_id ++ device_vault_id ++ append_bytes purpose.

Definition document_key_aad (installation_id vault_id document_id : bytes) (kind : DocumentKind)
    (epoch : Z) : bytes :=
  DOCUMENT_KEY_DOMAIN ++ installation_id ++ vault_id ++ document_id
  ++ append_bytes (as_bytes (kind_as_str kind)) ++ be_bytes 8 epoch.

(** A root-encrypted reference to a key the secure enclave keeps. *)
Record WrappedSigningReference : Set := {
  wr_encryption_algorithm : EncryptionAlgorithm.algorithm;
  wr_nonce : bytes;
  wr_ciphertext : bytes
}.

Record WrappedInstallationSecrets : Set := {
  wi_signing_seed : option WrappedKey;
  wi_enclave_mldsa65 : option WrappedSigningReference
}.

(** Exactly one signing provider. *)
Definition installation_validate (w : WrappedInstallationSecrets) : VaultResult () :=
  match wi_signing_seed w, wi_enclave_mldsa65 w with
  | Some seed, None => wrapped_key_validate seed
  | None, Some reference =>
      let n := Z.of_nat (length (wr_ciphertext reference)) in
      fail_if (negb ((17 <=? n) && (n <=? 32768 + 16)))
        (VaultError.Protection "installation must contain exactly one valid signing provider")
  | _, _ =>
      Err (VaultError.Protection "installation must contain exactly one valid signing provider")
  end.

(** The root and the index key derived from it, retained for one unseal lease. *)
Record InstallationSecrets : Set := {
  is_root_key : bytes;
  is_index_key : bytes;
  is_wrapped_signing_seed : option WrappedKey;
  is_wrapped_enclave_key : option WrappedSigningReference
}.

Context `{HmacSha256}.

Definition derive_index_key (root_key installation_id device_vault_id : bytes) : bytes :=
  hmac_sha256 root_key (INDEX_KEY_DOMAIN ++ installation_id ++ device_vault_id).

(** [InstallationSecrets::generate]. *)
Definition secrets_generate (installation_id device_vault_id root_key signing_seed : bytes)
    (nonce : VaultResult bytes) : VaultResult (InstallationSecrets * WrappedInstallationSecrets) :=
  seed ← wrap_key root_key
           (installation_key_aad installation_id device_vault_id (as_bytes "signing-seed"))
           signing_seed nonce;
  Ok ({| is_root_key := root_key;
         is_index_key := derive_index_key root_key installation_id device_vault_id;
         is_wrapped_signing_seed := Some seed; is_wrapped_enclave_key := None |},
      {| wi_signing_seed := Some seed; wi_enclave_mldsa65 := None |}).

(** [InstallationSecrets::generate_new]: a key of the secure enclave where the build and
    the platform have one, [enclave] the reference of the key it generates; otherwise a
    random seed. *)
Definition secrets_generate_new (installation_id device_vault_id root_key : bytes)
    (macos native_signing : bool) (enclave : option (VaultResult bytes))
    (seed nonce : VaultResult bytes)
    : VaultResult (InstallationSecrets * WrappedInstallationSecrets) :=
  match enclave with
  | Some reference =>
      if native_signing && macos then
        reference ← reference;
        encrypted ← encrypt root_key
          (installation_key_aad installation_id device_vault_id
             (as_bytes "secure-enclave-mldsa65-reference-v1")) reference nonce;
        let wrapped := {| wr_encryption_algorithm := ep_algorithm encrypted;
          wr_nonce := ep_nonce encrypted; wr_ciphertext := ep_ciphertext encrypted |} in
        Ok ({| is_root_key := root_key;
               is_index_key := derive_index_key root_key installation_id device_vault_id;
               is_wrapped_signing_seed := None; is_wrapped_enclave_key := Some wrapped |},
            {| wi_signing_seed := None; wi_enclave_mldsa65 := Some wrapped |})
      else
        seed ← seed; secrets_generate installation_id device_vault_id root_key seed nonce
  | None => seed ← seed; secrets_generate installation_id device_vault_id root_key seed nonce
  end.

(** [InstallationSecrets::signing_seed]. *)
Definition secrets_signing_seed (s : InstallationSecrets) (installation_id device_vault_id : bytes)
    : VaultResult bytes :=
  seed ← ok_or (VaultError.Protection "Secure Enclave signing keys have no exportable seed")
           (is_wrapped_signing_seed s);
  unwrap_key (is_root_key s)
    (installation_key_aad installation_id device_vault_id (as_bytes "signing-seed"))
    seed "operational signing seed".

Definition enclave_signer `{MlDsa65, Signers} (s : InstallationSecrets)
    (installation_id device_vault_id : bytes) : VaultResult SigningProvider :=
  wrapped ← ok_or (VaultError.Protection "missing enclave signing reference")
              (is_wrapped_enclave_key s);
  reference ← ok_or (VaultError.Protection "cannot authenticate enclave signing reference")
                (decrypt (wr_encryption_algorithm wrapped) (is_root_key s) (wr_nonce wrapped)
                   (installation_key_aad installation_id device_vault_id
                      (as_bytes "secure-enclave-mldsa65-reference-v1")) (wr_ciphertext wrapped));
  key ← enclave_from_reference reference;
  Ok (EnclaveSigner key).

(** [InstallationSecrets::signer]. *)
Definition secrets_signer `{MlDsa65, Signers} (s : InstallationSecrets)
    (installation_id device_vault_id : bytes) : VaultResult SigningProvider :=
  if bool_decide (is_Some (is_wrapped_enclave_key s))
  then enclave_signer s installation_id device_vault_id
  else
    seed ← secrets_signing_seed s installation_id device_vault_id;
    Ok (SoftwareSigner seed).

(** [InstallationSecrets::open]: the signing capability is authenticated before the
    store opens. *)
Definition secrets_open `{MlDsa65, Signers} (installation_id device_vault_id root_key : bytes)
    (wrapped : WrappedInstallationSecrets) : VaultResult InstallationSecrets :=
  _ ← installation_validate wrapped;
  _ ← match wi_signing_seed wrapped with
      | Some seed =>
          _ ← unwrap_key root_key
                (installation_key_aad installation_id device_vault_id (as_bytes "signing-seed"))
                seed "operational signing seed";
          Ok tt
      | None => Ok tt
      end;
  let secrets := {|
    is_root_key := root_key;
    is_index_key := derive_index_key root_key installation_id device_vault_id;
    is_wrapped_signing_seed := wi_signing_seed wrapped;
    is_wrapped_enclave_key := wi_enclave_mldsa65 wrapped |} in
  _ ← (if bool_decide (is_Some (is_wrapped_enclave_key secrets))
       then
         signer ← enclave_signer secrets installation_id device_vault_id;
         _ ← provider_public_key signer; Ok tt
       else Ok tt);
  Ok secrets.

(** [generate_document_key]: the key and the nonce are drawn at random. *)
Definition generate_document_key (s : InstallationSecrets)
    (installation_id vault_id document_id : bytes) (kind : DocumentKind) (epoch : Z)
    (key nonce : VaultResult bytes) : VaultResult (bytes * WrappedKey) :=
  key ← key;
  wrapped ← wrap_key (is_root_key s)
              (document_key_aad installation_id vault_id document_id kind epoch) key nonce;
  Ok (key, wrapped).

Definition unwrap_document_key (s : InstallationSecrets)
    (installation_id vault_id document_id : bytes) (kind : DocumentKind) (epoch : Z)
    (wrapped : WrappedKey) : VaultResult bytes :=
  unwrap_key (is_root_key s) (document_key_aad installation_id vault_id document_id kind epoch)
    wrapped "document data-encryption key".

(** ** Encrypted snapshots *)

Definition ENVELOPE_VERSION : Z := 7.
Definition SNAPSHOT_DOMAIN : bytes := as_bytes "factorseal/encrypted-snapshot/v7" ++ [Byte.x00].

(** Which of the two ciphertexts a header authenticates. *)
Inductive SnapshotPart : Set := Records | HistoryPart.

Definition part_code (p : SnapshotPart) : Byte.byte :=
  match p with Records => Byte.x00 | HistoryPart => Byte.x01 end.

Record EncryptedSnapshot : Set := {
  es_version : Z;
  es_encryption_algorithm : EncryptionAlgorithm.algorithm;
  es_vault_id : bytes;
  es_document_id : bytes;
  es_scope : DocumentKind;
  es_device_key_id : bytes;
  es_generation : Z;
  es_key_epoch : Z;
  es_nonce : bytes;
  es_ciphertext : bytes;
  es_history_nonce : bytes;
  es_history_ciphertext : bytes
}.

Record EnvelopeContext : Set := {
  ec_vault_id : bytes;
  ec_document_id : bytes;
  ec_scope : DocumentKind;
  ec_device_key_id : bytes;
  ec_generation : Z;
  ec_key_epoch : Z
}.

Definition envelope_context (e : EncryptedSnapshot) : EnvelopeContext := {|
  ec_vault_id := es_vault_id e; ec_document_id := es_document_id e; ec_scope := es_scope e;
  ec_device_key_id := es_device_key_id e; ec_generation := es_generation e;
  ec_key_epoch := es_key_epoch e |}.

Definition snapshot_header (c : EnvelopeContext) (algorithm : EncryptionAlgorithm.algorithm)
    (part : SnapshotPart) : bytes :=
  SNAPSHOT_DOMAIN ++ [byte_of_Z ENVELOPE_VERSION] ++ [part_code part]
  ++ [encryption_code algorithm] ++ ec_vault_id c ++ ec_document_id c
  ++ append_bytes (as_bytes (kind_as_str (ec_scope c))) ++ ec_device_key_id c
  ++ be_bytes 8 (ec_generation c) ++ be_bytes 8 (ec_key_epoch c).

Definition encrypt_snapshot (c : EnvelopeContext) (records history data_key : bytes)
    (nonce history_nonce : VaultResult bytes) : VaultResult EncryptedSnapshot :=
  let algorithm := CURRENT_ENCRYPTION_ALGORITHM in
  encrypted_records ← encrypt data_key (snapshot_header c algorithm Records) records nonce;
  encrypted_history ← encrypt data_key (snapshot_header c algorithm HistoryPart) history
                        history_nonce;
  Ok {| es_version := ENVELOPE_VERSION; es_encryption_algorithm := algorithm;
        es_vault_id := ec_vault_id c; es_document_id := ec_document_id c;
        es_scope := ec_scope c; es_device_key_id := ec_device_key_id c;
        es_generation := ec_generation c; es_key_epoch := ec_key_epoch c;
        es_nonce := ep_nonce encrypted_records;
        es_ciphertext := ep_ciphertext encrypted_records;
        es_history_nonce := ep_nonce encrypted_history;
        es_history_ciphertext := ep_ciphertext encrypted_history |}.

(** [EncryptedSnapshot::decrypt]. *)
Definition decrypt_part (e : EncryptedSnapshot) (part : SnapshotPart) (data_key : bytes)
    : VaultResult bytes :=
  _ ← fail_if (negb (es_version e =? ENVELOPE_VERSION)) VaultError.Signature;
  let '(nonce, ciphertext) :=
    match part with
    | Records => (es_nonce e, es_ciphertext e)
    | HistoryPart => (es_history_nonce e, es_history_ciphertext e)
    end in
  ok_or VaultError.Crypto
    (decrypt (es_encryption_algorithm e) data_key nonce
       (snapshot_header (envelope_context e) (es_encryption_algorithm e) part) ciphertext).

Definition decrypt_snapshot (e : EncryptedSnapshot) (data_key : bytes) : VaultResult bytes :=
  decrypt_part e Records data_key.
Definition decrypt_history (e : EncryptedSnapshot) (data_key : bytes) : VaultResult bytes :=
  decrypt_part e HistoryPart data_key.
End Crypto.

(** * What the encryption of documents guarantees: wrapped keys and snapshots open
    again, and a ciphertext opens only as the part of the document and generation it
    was sealed for, unless AES-256-GCM authenticates it under two headers. *)

#[local] Arguments be_bytes : simpl never.

Section Binding.

(** The widths the Rust types give the fields. *)
Definition context_wf (c : EnvelopeContext) : Prop :=
  is_array 16 (ec_vault_id c) ∧ is_array 32 (ec_document_id c)
  ∧ is_array 32 (ec_device_key_id c) ∧ is_u64 (ec_generation c) ∧ is_u64 (ec_key_epoch c).

Lemma part_code_inj p p' : part_code p = part_code p' → p = p'.
Proof. by destruct p, p'. Qed.

Lemma encryption_unique (a a' : EncryptionAlgorithm.algorithm) : a = a'.
Proof. by destruct a, a'. Qed.

(** A header determines its fields and its part. *)
Lemma snapshot_header_inj c c' a a' p p' :
  context_wf c → context_wf c' →
  snapshot_header c a p = snapshot_header c' a' p' → c = c' ∧ p = p'.
Proof.
  intros (Hv & Hd & Hk & Hg & He) (Hv' & Hd' & Hk' & Hg' & He') Heq.
  rewrite (encryption_unique a' a) in Heq. unfold snapshot_header, append_bytes in Heq.
  apply app_inj_len in Heq as [_ Heq]; [|done]. apply cons_inj_tail in Heq.
  apply app_inj_len in Heq as [Hp Heq]; [|done]. injection Hp as Hp%part_code_inj.
  apply cons_inj_tail in Heq.
  peel Heq E1. peel Heq E2. apply framed_kind_inj in Heq as [E3 Heq].
  peel Heq E4. peel Heq E5. apply be_bytes_u64_inj in E5, Heq; [|done..].
  split; [destruct c, c'; cbn in *; congruence|done].
Qed.

(** So does the header a document key is wrapped under. *)
Lemma document_key_aad_inj i i' v v' d d' k k' e e' :
  is_array 16 i → is_array 16 i' → is_array 16 v → is_array 16 v' →
  is_array 32 d → is_array 32 d' → is_u64 e → is_u64 e' →
  document_key_aad i v d k e = document_key_aad i' v' d' k' e' →
  i = i' ∧ v = v' ∧ d = d' ∧ k = k' ∧ e = e'.
Proof.
  intros ???????? Heq. unfold document_key_aad, append_bytes in Heq.
  apply app_inj_len in Heq as [_ Heq]; [|done].
  peel Heq E1. peel Heq E2. peel Heq E3. apply framed_kind_inj in Heq as [E4 Heq].
  apply be_bytes_u64_inj in Heq; done.
Qed.

Context `{Aes256Gcm}.

Lemma decrypt_part_opened e part key x :
  decrypt_part e part key = Ok x →
  ∃ nonce ct, (nonce, ct) = match part with
      | Records => (es_nonce e, es_ciphertext e)
      | HistoryPart => (es_history_nonce e, es_history_ciphertext e)
      end
    ∧ gcm_decrypt key nonce (snapshot_header (envelope_context e) (es_encryption_algorithm e) part)
        ct = Some x.
Proof.
  unfold decrypt_part. intros Hd. inv_ok.
  destruct part; inv_ok; eexists _, _; (split; [reflexivity|]);
    by destruct (es_encryption_algorithm e).
Qed.

(** ** Claims *)

(** A ciphertext is bound to its document.  If two envelopes open the same
    ciphertext under the same key and nonce, as whichever part, they name the same
    vault, document, kind, device, generation and key epoch and open it as the same
    part, or AES-256-GCM authenticates that ciphertext under two different headers. *)
Theorem snapshot_bound_to_document e e' part part' key x y nonce ct :
  context_wf (envelope_context e) → context_wf (envelope_context e') →
  decrypt_part e part key = Ok x → decrypt_part e' part' key = Ok y →
  match part with
  | Records => (es_nonce e, es_ciphertext e)
  | HistoryPart => (es_history_nonce e, es_history_ciphertext e)
  end = (nonce, ct) →
  match part' with
  | Records => (es_nonce e', es_ciphertext e')
  | HistoryPart => (es_history_nonce e', es_history_ciphertext e')
  end = (nonce, ct) →
  (envelope_context e = envelope_context e' ∧ part = part' ∧ x = y)
  ∨ gcm_confused key nonce
      (snapshot_header (envelope_context e) (es_encryption_algorithm e) part)
      (snapshot_header (envelope_context e') (es_encryption_algorithm e') part') ct.
Proof.
  intros Hwf Hwf' Hx Hy Hn Hn'.
  apply decrypt_part_opened in Hx as (n & c & Hnc & Hx), Hy as (n' & c' & Hnc' & Hy).
  rewrite Hn in Hnc. rewrite Hn' in Hnc'. injection Hnc as -> ->. injection Hnc' as -> ->.
  destruct (decide (snapshot_header (envelope_context e) (es_encryption_algorithm e) part
    = snapshot_header (envelope_context e') (es_encryption_algorithm e') part')) as [Heq|Hne].
  - left. rewrite <- Heq, Hx in Hy. injection Hy as ->.
    apply snapshot_header_inj in Heq as [-> ->]; done.
  - right. split; [done|]. by rewrite Hx, Hy.
Qed.
End Binding.

(** ** Round trips *)

Section RoundTrips.
Context `{Aes256GcmOk}.

Lemma encrypt_Ok key aad plaintext nonce p :
  encrypt key aad plaintext nonce = Ok p →
  nonce = Ok (ep_nonce p) ∧ gcm_encrypt key (ep_nonce p) aad plaintext = Some (ep_ciphertext p)
  ∧ ep_algorithm p = CURRENT_ENCRYPTION_ALGORITHM.
Proof. unfold encrypt. intros He. inv_ok. done. Qed.

Lemma wrap_unwrap root aad key nonce w label :
  wrap_key root aad key nonce = Ok w → length key = 32%nat →
  unwrap_key root aad w label = Ok key.
Proof.
  unfold wrap_key. intros Hw Hl. inv_ok. apply encrypt_Ok in Ha as (_ & Hc & Halg).
  pose proof (gcm_length _ _ _ _ _ Hc) as Hlen. apply gcm_round_trip in Hc.
  unfold unwrap_key, wrapped_key_validate, decrypt_key, decrypt.
  cbn [wk_encryption_algorithm wk_nonce wk_ciphertext].
  rewrite Hlen, Hl, Halg. cbn [CURRENT_ENCRYPTION_ALGORITHM]. rewrite Hc.
  change (Z.of_nat (32 + 16) =? KEY_BYTES + 16) with true.
  cbn [negb fail_if mbind result_bind ok_or]. by rewrite Hl.
Qed.

Context `{HmacSha256}.

(** A generated document key is the one its wrapped form opens to. *)
Lemma document_key_round_trip s i v d k e key nonce dek w :
  generate_document_key s i v d k e key nonce = Ok (dek, w) →
  (∀ b, key = Ok b → length b = 32%nat) →
  unwrap_document_key s i v d k e w = Ok dek ∧ key = Ok dek.
Proof.
  unfold generate_document_key. intros Hg Hl. inv_ok. split; [|done].
  eapply wrap_unwrap; [done|by apply Hl].
Qed.

Lemma encrypt_snapshot_opens c records history key n hn e :
  encrypt_snapshot c records history key n hn = Ok e →
  decrypt_snapshot e key = Ok records ∧ decrypt_history e key = Ok history
  ∧ envelope_context e = c.
Proof.
  unfold encrypt_snapshot. intros He. inv_ok.
  apply encrypt_Ok in Ha as (_ & Hr & _), Ha0 as (_ & Hh & _).
  apply gcm_round_trip in Hr, Hh.
  destruct c. unfold decrypt_snapshot, decrypt_history, decrypt_part, decrypt, envelope_context.
  unfold CURRENT_ENCRYPTION_ALGORITHM in *. cbn -[snapshot_header] in *. by rewrite Hr, Hh.
Qed.
End RoundTrips.

(** New installation secrets open under the root they were made with, and so does the
    seed. *)
Lemma secrets_generate_opens `{Aes256GcmOk} `{HmacSha256} `{MlDsa65, Signers}
    i v root seed nonce secrets wrapped :
  secrets_generate i v root seed nonce = Ok (secrets, wrapped) → length seed = 32%nat →
  secrets_open i v root wrapped = Ok secrets ∧ secrets_signing_seed secrets i v = Ok seed.
Proof.
  unfold secrets_generate. intros Hs Hseed. inv_ok. rename Ha into Hw.
  pose proof (λ label, wrap_unwrap _ _ _ _ _ label Hw Hseed) as Hun. split.
  - unfold secrets_open, installation_validate. cbn.
    assert (wrapped_key_validate a = Ok tt) as ->.
    { specialize (Hun ""). unfold unwrap_key in Hun. by apply bind_Ok in Hun as ([] & ? & _). }
    cbn. by rewrite Hun.
  - unfold secrets_signing_seed. cbn. apply Hun.
Qed.

(** Keys and snapshots open again.  A freshly generated document key is what
    its wrapped form unwraps to under the same installation, vault, document, kind
    and epoch; a snapshot encrypted under it decrypts to the records and the history
    log it was made from; and the secrets of a new installation open to the same root,
    index and signing keys. *)
Theorem sealed_data_opens `{Aes256GcmOk} `{HmacSha256} `{MlDsa65, Signers}
    s i v d k epoch key nonce dek w c records history n hn e
    root seed seed_nonce secrets wrapped :
  generate_document_key s i v d k epoch key nonce = Ok (dek, w) →
  (∀ b, key = Ok b → length b = 32%nat) →
  encrypt_snapshot c records history dek n hn = Ok e →
  secrets_generate i v root seed seed_nonce = Ok (secrets, wrapped) → length seed = 32%nat →
  unwrap_document_key s i v d k epoch w = Ok dek
  ∧ decrypt_snapshot e dek = Ok records ∧ decrypt_history e dek = Ok history
  ∧ secrets_open i v root wrapped = Ok secrets
  ∧ secrets_signing_seed secrets i v = Ok seed.
Proof.
  intros Hg Hkey He Hs Hseed.
  destruct (document_key_round_trip _ _ _ _ _ _ _ _ _ _ Hg Hkey) as [Hu _].
  destruct (encrypt_snapshot_opens _ _ _ _ _ _ _ He) as (Hr & Hh & _).
  destruct (secrets_generate_opens _ _ _ _ _ _ _ Hs Hseed). done.
Qed.

(** ** Examples *)

Module EnvelopeDemo.
(** Encryption that appends 16 bytes, and checks them. *)
Definition tag : bytes := replicate 16 Byte.x00.
Definition open_tagged (c : bytes) : option bytes :=
  if bool_decide (drop (length c - 16) c = tag) then Some (take (length c - 16) c) else None.
#[export] Instance demo_gcm : Aes256Gcm := {|
  gcm_encrypt _ _ _ p := Some (p ++ tag); gcm_decrypt _ _ _ c := open_tagged c |}.
Lemma open_tag p : open_tagged (p ++ tag) = Some p.
Proof.
  unfold open_tagged. rewrite length_app. change (length tag) with 16%nat.
  replace (length p + 16 - 16)%nat with (length p) by lia.
  by rewrite drop_app_length, take_app_length, bool_decide_eq_true_2.
Qed.
#[export] Instance demo_gcm_ok : Aes256GcmOk.
Proof.
  split; cbn -[tag open_tagged]; intros key nonce aad p c Hc; apply (inj Some) in Hc as <-.
  - apply open_tag.
  - by rewrite length_app.
Qed.
#[export] Instance demo_hmac : HmacSha256 := λ key msg, key.
#[export] Instance demo_signers : Signers := {|
  public_key_for_seed seed := seed;
  software_sign seed payload := Ok (seed ++ payload);
  enclave_key := Empty_set;
  enclave_from_reference _ := Err VaultError.Crypto;
  enclave_public_key k := match k with end;
  enclave_sign k _ := match k with end |}.
Definition key : bytes := replicate 32 Byte.x09.
Definition context : EnvelopeContext := {|
  ec_vault_id := replicate 16 Byte.x06; ec_document_id := replicate 32 Byte.x07;
  ec_scope := LocalKeyring; ec_device_key_id := replicate 32 Byte.x08;
  ec_generation := 3; ec_key_epoch := 3 |}.
Definition nonce : VaultResult bytes := Ok (replicate 12 Byte.x01).
Definition sealed : EncryptedSnapshot := {|
  es_version := 7; es_encryption_algorithm := EncryptionAlgorithm.Aes256Gcm;
  es_vault_id := replicate 16 Byte.x06; es_document_id := replicate 32 Byte.x07;
  es_scope := LocalKeyring; es_device_key_id := replicate 32 Byte.x08;
  es_generation := 3; es_key_epoch := 3; es_nonce := replicate 12 Byte.x01;
  es_ciphertext := as_bytes "records" ++ replicate 16 Byte.x00;
  es_history_nonce := replicate 12 Byte.x01;
  es_history_ciphertext := as_bytes "log" ++ replicate 16 Byte.x00 |}.
Definition wrapped : WrappedKey := {|
  wk_encryption_algorithm := EncryptionAlgorithm.Aes256Gcm;
  wk_nonce := replicate 12 Byte.x01; wk_ciphertext := key ++ replicate 16 Byte.x00 |}.
Definition secrets : InstallationSecrets := {|
  is_root_key := key; is_index_key := key; is_wrapped_signing_seed := Some wrapped;
  is_wrapped_enclave_key := None |}.
Definition stored : WrappedInstallationSecrets := {|
  wi_signing_seed := Some wrapped; wi_enclave_mldsa65 := None |}.
Lemma run_key :
  generate_document_key secrets [] [] [] LocalKeyring 1 (Ok key) nonce = Ok (key, wrapped).
Proof. vm_compute. reflexivity. Qed.
Lemma run_seal :
  encrypt_snapshot context (as_bytes "records") (as_bytes "log") key nonce nonce = Ok sealed.
Proof. vm_compute. reflexivity. Qed.
Lemma run_generate : secrets_generate [] [] key key nonce = Ok (secrets, stored).
Proof. vm_compute. reflexivity. Qed.
Lemma run_open : decrypt_part sealed Records key = Ok (as_bytes "records").
Proof. vm_compute. reflexivity. Qed.
Lemma context_ok : context_wf context.
Proof. repeat split; vm_compute; congruence. Qed.
End EnvelopeDemo.

Section Witnesses.
Import ManifestDemo EnvelopeDemo.

Example snapshot_bound_to_document_witness :
  decrypt_part sealed Records key = Ok (as_bytes "records")
  ∧ (envelope_context sealed = envelope_context sealed
     ∧ Records = Records ∧ as_bytes "records" = as_bytes "records"
     ∨ gcm_confused key (replicate 12 Byte.x01)
         (snapshot_header context EncryptionAlgorithm.Aes256Gcm Records)
         (snapshot_header context EncryptionAlgorithm.Aes256Gcm Records)
         (as_bytes "records" ++ replicate 16 Byte.x00)).
Proof.
  split; [exact run_open|].
  exact (snapshot_bound_to_document sealed sealed Records Records
    key (as_bytes "records") (as_bytes "records") _ _
    context_ok context_ok run_open run_open eq_refl eq_refl).
Defined.

Example sealed_data_opens_witness :
  unwrap_document_key secrets [] [] [] LocalKeyring 1 wrapped
    = Ok key
  ∧ decrypt_snapshot sealed key = Ok (as_bytes "records")
  ∧ secrets_open [] [] key stored = Ok secrets.
Proof.
  destruct (sealed_data_opens secrets [] [] [] LocalKeyring 1
    (Ok key) nonce key wrapped
    context (as_bytes "records") (as_bytes "log") nonce
    nonce sealed key key
    nonce secrets stored
    run_key ltac:(by intros b [= <-]) run_seal run_generate eq_refl) as (Hu & Hr & _ & Ho & _).
  exact (conj Hu (conj Hr Ho)).
Defined.
End Witnesses.
