(* ===== verification/Automerge.v ===== *)
(** The [automerge] crate as the vault uses it: a document of map objects whose keys
    hold one value or several concurrent ones.  [Automerge] names the operations,
    [AutomergeOk] their documented behaviour on what is visible. *)
From Stdlib Require Import ZArith Lia Bool.
From stdpp Require Import base gmap strings list.
From S2P Require Import Prelude Core.

Module ObjType.
Inductive obj_type : Set := Map | List | Text | Table.
End ObjType.

#[export] Instance obj_type_eq_dec : EqDecision ObjType.obj_type.
Proof. solve_decision. Defined.

Inductive AmValue (S : Type) : Type :=
| AmObject (ty : ObjType.obj_type)
| AmScalar (s : S).
Arguments AmObject {S} ty.
Arguments AmScalar {S} s.

Class Automerge := {
  am_doc : Type;
  am_obj : Type;
  am_root : am_obj;
  (** Scalars, with the conversions of [ScalarValue]. *)
  am_scalar : Type;
  scalar_str : string → am_scalar;
  scalar_u64 : Z → am_scalar;
  scalar_bytes : bytes → am_scalar;
  as_str : am_scalar → option string;
  as_u64 : am_scalar → option Z;
  into_bytes : am_scalar → option bytes;
  (** [AutoCommit].  A failed operation changes nothing. *)
  am_new : bytes → am_doc;
  am_load : bytes → result string am_doc;
  am_save : am_doc → bytes * am_doc;
  am_actor : am_doc → bytes;
  am_set_actor : bytes → am_doc → am_doc;
  am_get : am_doc → am_obj → string → result string (option (AmValue am_scalar * am_obj));
  am_get_all : am_doc → am_obj → string → result string (list (AmValue am_scalar * am_obj));
  am_keys : am_doc → am_obj → list string;
  am_put : am_doc → am_obj → string → am_scalar → result string am_doc;
  am_put_object : am_doc → am_obj → string → ObjType.obj_type → result string (am_doc * am_obj);
  am_delete : am_doc → am_obj → string → result string am_doc;
  am_commit : am_doc → am_doc;
  am_rollback : am_doc → am_doc
}.

(** The values at a key of an object, and their identifiers. *)
Abbreviation am_values := (gmap string (list (AmValue am_scalar * am_obj))).

Section Same.
Context `{Automerge}.
(** Two documents with the same objects and the same visible values. *)
Definition am_same (visible : am_doc → am_obj → am_values) (known : am_doc → am_obj → Prop)
    (d d' : am_doc) : Prop :=
  (∀ o, known d o ↔ known d' o) ∧ ∀ o, known d o → visible d' o = visible d o.
End Same.

Class AutomergeOk `{Automerge} := {
  am_visible : am_doc → am_obj → am_values;
  am_known : am_doc → am_obj → Prop;
  (** The document the open change set started from. *)
  am_base : am_doc → am_doc;
  as_str_law s : as_str (scalar_str s) = Some s;
  as_u64_law n : as_u64 (scalar_u64 n) = Some n;
  into_bytes_law b : into_bytes (scalar_bytes b) = Some b;
  am_root_law d : am_known d am_root;
  am_visible_law d o k : am_visible d o !! k ≠ Some [];
  (** A nested object exists, and is not the root. *)
  am_object_law d o k l ty id :
    am_known d o → am_visible d o !! k = Some l → (AmObject ty, id) ∈ l →
    am_known d id ∧ id ≠ am_root;
  am_get_all_law d o k :
    am_known d o → am_get_all d o k = Ok (default [] (am_visible d o !! k));
  am_get_law d o k :
    am_known d o → ∃ r, am_get d o k = Ok r
      ∧ match am_visible d o !! k with
        | None => r = None
        | Some l => ∃ v, v ∈ l ∧ r = Some v
        end;
  am_keys_law d o :
    am_known d o → NoDup (am_keys d o) ∧ ∀ k, k ∈ am_keys d o ↔ is_Some (am_visible d o !! k);
  am_new_law actor : am_visible (am_new actor) am_root = ∅ ∧ am_actor (am_new actor) = actor;
  am_put_law d o k v d' :
    am_put d o k v = Ok d' → am_known d o →
    (∀ o', am_known d' o' ↔ am_known d o') ∧ am_base d' = am_base d ∧ am_actor d' = am_actor d
    ∧ (∃ id, am_visible d' o = <[k := [(AmScalar v, id)]]> (am_visible d o))
    ∧ ∀ o', am_known d o' → o' ≠ o → am_visible d' o' = am_visible d o';
  am_put_object_law d o k ty d' id :
    am_put_object d o k ty = Ok (d', id) → am_known d o →
    ¬ am_known d id ∧ (∀ o', am_known d' o' ↔ am_known d o' ∨ o' = id)
    ∧ am_base d' = am_base d ∧ am_actor d' = am_actor d
    ∧ am_visible d' o = <[k := [(AmObject ty, id)]]> (am_visible d o)
    ∧ am_visible d' id = ∅
    ∧ ∀ o', am_known d o' → o' ≠ o → am_visible d' o' = am_visible d o';
  am_delete_law d o k d' :
    am_delete d o k = Ok d' → am_known d o →
    (∀ o', am_known d' o' ↔ am_known d o') ∧ am_base d' = am_base d ∧ am_actor d' = am_actor d
    ∧ am_visible d' o = delete k (am_visible d o)
    ∧ ∀ o', am_known d o' → o' ≠ o → am_visible d' o' = am_visible d o';
  am_commit_law d :
    am_same am_visible am_known d (am_commit d) ∧ am_base (am_commit d) = am_commit d
    ∧ am_actor (am_commit d) = am_actor d;
  am_rollback_law d :
    am_same am_visible am_known (am_base d) (am_rollback d)
    ∧ am_actor (am_rollback d) = am_actor (am_base d);
  am_set_actor_law actor d :
    am_same am_visible am_known d (am_set_actor actor d)
    ∧ am_actor (am_set_actor actor d) = actor;
  (** Saving loses nothing that is visible. *)
  am_save_law d : am_same am_visible am_known d (am_save d).2
    ∧ am_actor (am_save d).2 = am_actor d
    ∧ ∃ d', am_load (am_save d).1 = Ok d' ∧ am_same am_visible am_known d d'
}.

(** * A document in memory with the laws of [AutomergeOk]: a root map, at most one nested
    map, and the contents its change set started from.  It shows that the laws the
    document theorems assume can hold, and the examples run the model on it. *)

Inductive DemoScalar : Set :=
| DStr (s : string)
| DU64 (n : Z)
| DBytes (b : bytes).
#[export] Instance demo_scalar_eq_dec : EqDecision DemoScalar.
Proof. solve_decision. Defined.
#[export] Program Instance demo_scalar_countable : Countable DemoScalar :=
  inj_countable'
    (λ s, match s with DStr s => inl (inl s) | DU64 n => inl (inr n) | DBytes b => inr b end)
    (λ x : (string + Z) + bytes,
       match x with inl (inl s) => DStr s | inl (inr n) => DU64 n | inr b => DBytes b end) _.
Next Obligation. by intros []. Qed.

(** The scalars of the root, and the nested map with the key it hangs on. *)
Abbreviation DemoContents :=
  (gmap string DemoScalar * option (option string * gmap string DemoScalar))%type.

Record DemoDocument : Type := {
  dd_contents : DemoContents;
  dd_base : DemoContents;
  dd_actor : bytes
}.
Definition with_contents (d : DemoDocument) (c : DemoContents) : DemoDocument := {|
  dd_contents := c; dd_base := dd_base d; dd_actor := dd_actor d |}.

(** ** Saving *)

Fixpoint pos_bytes (p : positive) : bytes :=
  match p with
  | xH => []
  | xO p => Byte.x00 :: pos_bytes p
  | xI p => Byte.x01 :: pos_bytes p
  end.
Fixpoint bytes_pos (b : bytes) : positive :=
  match b with
  | [] => xH
  | Byte.x00 :: b => xO (bytes_pos b)
  | _ :: b => xI (bytes_pos b)
  end.
Lemma bytes_pos_bytes p : bytes_pos (pos_bytes p) = p.
Proof. induction p as [p IH|p IH|]; cbn; [by rewrite IH..|done]. Qed.

(** ** Objects *)

(** The root is [false], the nested map is [true]. *)
Definition demo_values (m : gmap string DemoScalar)
    : gmap string (list (AmValue DemoScalar * bool)) :=
  (λ s, [(AmScalar s, false)]) <$> m.

Definition demo_visible (c : DemoContents) (o : bool)
    : gmap string (list (AmValue DemoScalar * bool)) :=
  match o, c.2 with
  | false, Some (Some k, _) => <[k := [(AmObject ObjType.Map, true)]]> (demo_values c.1)
  | false, _ => demo_values c.1
  | true, Some (_, m) => demo_values m
  | true, None => ∅
  end.

Definition demo_known (c : DemoContents) (o : bool) : bool :=
  match o, c.2 with
  | false, _ | true, Some _ => true
  | true, None => false
  end.

(** Unhang the nested map when its key changes. *)
Definition unhang (c : DemoContents) (k : string) : option (option string * gmap string DemoScalar) :=
  match c.2 with
  | Some (Some k', m) => Some (if decide (k' = k) then None else Some k', m)
  | x => x
  end.

Definition demo_update (c : DemoContents) (o : bool) (k : string)
    (f : gmap string DemoScalar → gmap string DemoScalar) : option DemoContents :=
  match o, c.2 with
  | false, _ => Some (f c.1, unhang c k)
  | true, Some (h, m) => Some (c.1, Some (h, f m))
  | true, None => None
  end.

Definition missing {A} : result string A := Err "no such object".

#[export] Instance demo_automerge : Automerge := {|
  am_doc := DemoDocument; am_obj := bool; am_root := false; am_scalar := DemoScalar;
  scalar_str := DStr; scalar_u64 := DU64; scalar_bytes := DBytes;
  as_str s := match s with DStr s => Some s | _ => None end;
  as_u64 s := match s with DU64 n => Some n | _ => None end;
  into_bytes s := match s with DBytes b => Some b | _ => None end;
  am_new actor := {| dd_contents := (∅, None); dd_base := (∅, None); dd_actor := actor |};
  am_load b := match decode (bytes_pos b) with
               | Some c => Ok {| dd_contents := c; dd_base := c; dd_actor := [] |}
               | None => Err "not a document"
               end;
  am_save d := (pos_bytes (encode (dd_contents d)), d);
  am_actor := dd_actor;
  am_set_actor actor d := {| dd_contents := dd_contents d; dd_base := dd_base d; dd_actor := actor |};
  am_get d o k := if demo_known (dd_contents d) o
                  then Ok (demo_visible (dd_contents d) o !! k ≫= head) else missing;
  am_get_all d o k := if demo_known (dd_contents d) o
                      then Ok (default [] (demo_visible (dd_contents d) o !! k)) else missing;
  am_keys d o := (map_to_list (demo_visible (dd_contents d) o)).*1;
  am_put d o k v := match demo_update (dd_contents d) o k (insert k v) with
                    | Some c => Ok (with_contents d c)
                    | None => missing
                    end;
  am_put_object d o k ty :=
    match o, ty, (dd_contents d).2 with
    | false, ObjType.Map, None => Ok (with_contents d ((dd_contents d).1, Some (Some k, ∅)), true)
    | _, _, _ => Err "only one nested map"
    end;
  am_delete d o k := match demo_update (dd_contents d) o k (delete k) with
                     | Some c => Ok (with_contents d c)
                     | None => missing
                     end;
  am_commit d := {| dd_contents := dd_contents d; dd_base := dd_contents d; dd_actor := dd_actor d |};
  am_rollback d := {| dd_contents := dd_base d; dd_base := dd_base d; dd_actor := dd_actor d |}
|}.

(** ** Laws *)

Lemma demo_values_insert m k v : demo_values (<[k := v]> m) = <[k := [(AmScalar v, false)]]> (demo_values m).
Proof. unfold demo_values. by rewrite fmap_insert. Qed.
Lemma demo_values_delete m k : demo_values (delete k m) = delete k (demo_values m).
Proof. unfold demo_values. by rewrite fmap_delete. Qed.

Lemma demo_visible_spec c o k l :
  demo_visible c o !! k = Some l →
  ∃ v, l = [v] ∧ ∀ ty id, v = (AmObject ty, id) → id = true ∧ demo_known c true = true.
Proof.
  assert (∀ m, demo_values m !! k = Some l →
    ∃ v, l = [v] ∧ ∀ ty id, v = (AmObject ty, id) → id = true ∧ demo_known c true = true) as Hv.
  { intros m Hm. apply lookup_fmap_Some in Hm as (s & <- & _). by eexists. }
  unfold demo_visible. destruct o, c as [root [[[h|] m]|]]; cbn; try apply Hv; [done|].
  intros [[<- <-]|[_ ?]]%lookup_insert_Some; [|by eapply Hv]. eexists. split; [done|]. by intros ? ? [= _ <-].
Qed.

(** A change to a key touches that key of that object. *)
Lemma demo_update_spec c o k f g c' :
  demo_update c o k f = Some c' →
  (∀ m, demo_values (f m) = g (demo_values m)) →
  (∀ x m, g (<[k := x]> m) = g m) → (∀ k' x m, k' ≠ k → g (<[k' := x]> m) = <[k' := x]> (g m)) →
  (∀ o', demo_known c' o' = demo_known c o') ∧ demo_visible c' o = g (demo_visible c o)
  ∧ ∀ o', o' ≠ o → demo_visible c' o' = demo_visible c o'.
Proof.
  intros Hu Hf Hk Hne. destruct c as [root child], o; cbn in Hu.
  - destruct child as [[h m]|]; [|done]. injection Hu as <-. split_and!.
    + by intros [].
    + cbn. apply Hf.
    + by intros [].
  - injection Hu as <-. split_and!.
    + intros []; [|done]. unfold unhang. cbn. by destruct child as [[[]]|].
    + unfold demo_visible, unhang. cbn. destruct child as [[[h|] m]|]; cbn; try apply Hf.
      destruct (decide (h = k)) as [->|Hh]; [by rewrite Hk|by rewrite Hne, Hf].
    + intros [] Ho; [|done]. unfold unhang. cbn. by destruct child as [[[]]|].
Qed.

#[export] Instance demo_automerge_ok : AutomergeOk.
Proof.
  refine {| am_visible d := demo_visible (dd_contents d);
            am_known d o := demo_known (dd_contents d) o = true;
            am_base d := {| dd_contents := dd_base d; dd_base := dd_base d; dd_actor := dd_actor d |} |};
    try done.
  - intros d o k Hl. by apply demo_visible_spec in Hl as (v & ? & _).
  - intros d o k l ty id Ho Hl Hin. apply demo_visible_spec in Hl as (v & -> & Hv).
    apply list_elem_of_singleton in Hin. destruct (Hv ty id) as [-> ?]; done.
  - intros d o k Ho. cbn. by rewrite Ho.
  - intros d o k Ho. cbn. rewrite Ho. eexists. split; [done|].
    destruct (demo_visible _ _ !! k) as [l|] eqn:Hl; [|done].
    apply demo_visible_spec in Hl as (v & -> & _). exists v. split; [by left|done].
  - intros d o _. cbn. split; [apply NoDup_fst_map_to_list|]. intros k.
    rewrite list_elem_of_fmap. split.
    + intros ([k' l] & -> & Hin). apply elem_of_map_to_list in Hin. by eexists.
    + intros [l Hl]. exists (k, l). split; [done|]. by apply elem_of_map_to_list.
  - intros d o k v d' Hp _. cbn in Hp. destruct (demo_update _ _ _ _) as [c|] eqn:Hu; [|done].
    injection Hp as <-. eapply (demo_update_spec _ _ _ _ (insert k [(AmScalar v, false)])) in Hu
      as (Hk & Hv & Ho); cbn.
    + split_and!; [intros o'; by rewrite Hk|done|done|by exists false|]. intros o' _. apply Ho.
    + intros m. apply demo_values_insert.
    + intros x m. apply insert_insert_eq.
    + intros k' x m Hne. by apply insert_insert_ne.
  - intros d o k ty d' id Hp _. cbn in Hp.
    destruct o, ty, d as [[root [[]|]] b actor]; try discriminate. injection Hp as <- <-.
    split_and!; try done; cbn.
    + intros []; cbn; naive_solver.
    + intros [] ? ?; [done|done].
  - intros d o k d' Hp _. cbn in Hp. destruct (demo_update _ _ _ _) as [c|] eqn:Hu; [|done].
    injection Hp as <-. eapply (demo_update_spec _ _ _ _ (delete k)) in Hu as (Hk & Hv & Ho); cbn.
    + split_and!; [intros o'; by rewrite Hk|done|done|done|]. intros o' _. apply Ho.
    + intros m. apply demo_values_delete.
    + intros x m. apply delete_insert_eq.
    + intros k' x m Hne. by apply delete_insert_ne.
  - intros d. cbn. split_and!; [done|done|]. eexists. rewrite bytes_pos_bytes, decode_encode. done.
Defined.
