(* ===== verification/Document.v ===== *)
(** One secret document (src/src/vault/document.rs, with the storage side of personal
    items in document/personal.rs and document/replicas.rs): records in an Automerge
    map, changed in groups that either all apply or leave the document as it was, and
    persisted as a fresh document that holds exactly the visible records. *)
From Stdlib Require Import ZArith Lia Bool.
From stdpp Require Import base gmap strings list.
From S2P Require Import Prelude Core Address Text Wire History StoreSpec Automerge.

Definition ENTRIES_KEY : string := "entries".
Definition FORMAT_KEY : string := "format".
Definition FORMAT_VERSION_KEY : string := "format-version".
Definition PARTITION_KEY : string := "partition".
Definition FORMAT_VERSION : Z := 3.
Definition PERSONAL_FORMAT_VERSION : Z := 6.
Definition RECORD_VERSION : Z := 2.

Record SecretRecord : Set := {
  sr_version : Z;
  sr_address : SecretAddress;
  sr_value : bytes;
  sr_evict_at : option Z;
  sr_version_id : bytes;
  sr_created_at : Z;
  sr_updated_at : Z
}.

(** The one field of a record the projection reads. *)
Record RecordDeadline : Set := { rd_evict_at : option Z }.

(** A record also decodes as its deadline. *)
Class RecordSerdeOk `{Serde SecretRecord, Serde RecordDeadline} : Prop :=
  record_deadline_law b r :
    serde_from_slice b = Ok r → serde_from_slice b = Ok {| rd_evict_at := sr_evict_at r |}.

Module SecretRead.
Inductive secret_read : Set :=
| Missing
| Value (value : bytes)
| Conflict
| Expired.
End SecretRead.

Record DocumentMutation : Set := {
  dm_address_migrations : list (SecretAddress * SecretAddress);
  dm_snapshot : bytes;
  dm_partition : bytes;
  dm_history : list PendingHistory;
  dm_next_eviction : option Z
}.

(** When a mutation happens and for whom, with the version identifiers it draws. *)
Record MutationContext : Type := {
  mc_now : Z;
  mc_provenance : Provenance.provenance;
  mc_device_key_id : bytes;
  mc_version_ids : nat → VaultResult bytes
}.

(** ** Personal items *)

(** A personal item (src/src/personal.rs) and its replicated register
    (src/src/personal/replica.rs), as far as the document uses them. *)
Class PersonalItems := {
  PersonalSecret : Type;
  decode_current : bytes → option PersonalSecret;
  ps_id : PersonalSecret → string;
  ps_title : PersonalSecret → string;
  ps_kind_label : PersonalSecret → string;
  ps_username : PersonalSecret → option string;
  ps_website_host : PersonalSecret → option string;
  ps_favorite : PersonalSecret → bool;
  PersonalReplica : Type;
  replica_new : string → bytes → VaultResult PersonalReplica;
  replica_load : string → bytes → bytes → VaultResult PersonalReplica;
  replica_values : PersonalReplica → VaultResult (list (option PersonalSecret));
  replica_set : PersonalReplica → option PersonalSecret → VaultResult PersonalReplica;
  replica_save : PersonalReplica → VaultResult bytes
}.

Definition PERSONAL_LAYOUT : string := "personal-layout".
Definition PERSONAL_ALIASES : string := "personal-legacy-addresses".
Definition REPLICAS : string := "personal-automerge-v1".
Definition PERSONAL_SYNC : string := "personal-sync-v1".
Definition MAX_CATALOG_BYTES : Z := 32 * 1024 * 1024.

Record ReplicaCatalog : Type := {
  rc_replicas : gmap string bytes;
  rc_pending : gset string
}.
Definition catalog_default : ReplicaCatalog := {| rc_replicas := ∅; rc_pending := ∅ |}.

(** What a listing shows of a personal item. *)
Record PersonalSummary : Set := {
  pm_title : string;
  pm_kind : string;
  pm_username : option string;
  pm_website : option string;
  pm_updated_at : Z;
  pm_favorite : bool
}.

Definition display_text (value : string) : string :=
  String.substring 0
    (boundary_below (as_bytes value) (length (as_bytes value) `min` 1024)) value.

Definition descriptor_mismatch : VaultError.error :=
  VaultError.InvalidData "Automerge document metadata does not match its protected descriptor".

Definition catalog_load `{PersonalItems} (c : ReplicaCatalog) (id : string) (actor : bytes)
    : VaultResult (option PersonalReplica) :=
  opt_try (λ b, replica_load id b actor) (rc_replicas c !! id).

Definition catalog_store `{PersonalItems} (c : ReplicaCatalog) (id : string)
    (replica : PersonalReplica) (pending : bool) : VaultResult ReplicaCatalog :=
  _ ← fail_if (bool_decide (rc_replicas c !! id = None)
               && (4096 <=? Z.of_nat (size (rc_replicas c))))
        (VaultError.Protocol "personal replica catalog is full");
  saved ← replica_save replica;
  Ok {| rc_replicas := <[id := saved]> (rc_replicas c);
        rc_pending := if pending then {[id]} ∪ rc_pending c else rc_pending c |}.

(** ** The document *)

Section Document.
Context `{Sha256, Base64} `{Automerge} `{PersonalItems}.
Context `{Serde SecretRecord, Serde RecordDeadline, Serde ReplicaCatalog}.

Record SecretDocument : Type := {
  sd_document : am_doc;
  sd_entries : am_obj;
  sd_kind : DocumentKind;
  sd_partition : bytes;
  sd_pending : list PendingHistory
}.
Abbreviation DM := (SM SecretDocument).

Definition set_document (d : SecretDocument) (a : am_doc) : SecretDocument := {|
  sd_document := a; sd_entries := sd_entries d; sd_kind := sd_kind d;
  sd_partition := sd_partition d; sd_pending := sd_pending d |}.
Definition set_pending (d : SecretDocument) (l : list PendingHistory) : SecretDocument := {|
  sd_document := sd_document d; sd_entries := sd_entries d; sd_kind := sd_kind d;
  sd_partition := sd_partition d; sd_pending := l |}.

(** [automerge_error]. *)
Definition automerge_error {A} (r : result string A) : VaultResult A :=
  map_err VaultError.Automerge r.

(** Change the Automerge document. *)
Definition am_change (f : am_doc → result string am_doc) : DM () := λ d,
  match f (sd_document d) with
  | Ok a => (Ok tt, set_document d a)
  | Err e => (Err (VaultError.Automerge e), d)
  end.

Definition document_is_personal (d : SecretDocument) : bool :=
  is_personal (sd_kind d) (sd_partition d).

Definition format_version (kind : DocumentKind) (partition : bytes) : Z :=
  if is_personal kind partition then PERSONAL_FORMAT_VERSION else FORMAT_VERSION.

(** [SecretDocument::new]. *)
Definition document_new (actor_id : bytes) (kind : DocumentKind) (partition : bytes)
    : VaultResult SecretDocument :=
  let document := am_new actor_id in
  document ← automerge_error
    (am_put document am_root FORMAT_KEY (scalar_str (kind_as_str kind)));
  document ← automerge_error
    (am_put document am_root FORMAT_VERSION_KEY (scalar_u64 (format_version kind partition)));
  document ← automerge_error (am_put document am_root PARTITION_KEY (scalar_bytes partition));
  made ← automerge_error (am_put_object document am_root ENTRIES_KEY ObjType.Map);
  Ok {| sd_document := made.1; sd_entries := made.2; sd_kind := kind;
        sd_partition := partition; sd_pending := [] |}.

(** A scalar at the root, converted. *)
Definition root_scalar {A} (document : am_doc) (key : string) (f : am_scalar → option A)
    : VaultResult (option A) :=
  found ← automerge_error (am_get document am_root key);
  Ok (match found with Some (AmScalar s, _) => f s | _ => None end).

Definition root_object (document : am_doc) (key : string) (expected : ObjType.obj_type)
    : VaultResult am_obj :=
  found ← automerge_error (am_get document am_root key);
  match found with
  | None => Err (VaultError.InvalidData ("secret document has no `" +:+ key +:+ "` object"))
  | Some (AmObject ty, object) =>
      if bool_decide (ty = expected) then Ok object
      else Err (VaultError.InvalidData
                  ("secret document `" +:+ key +:+ "` value has the wrong type"))
  | Some (AmScalar _, _) =>
      Err (VaultError.InvalidData
             ("secret document `" +:+ key +:+ "` value has the wrong type"))
  end.

(** [SecretDocument::load]. *)
Definition document_load (snapshot actor_id : bytes) (kind : DocumentKind)
    (expected_partition : option bytes) : VaultResult SecretDocument :=
  document ← automerge_error (am_load snapshot);
  let document := am_set_actor actor_id document in
  format ← root_scalar document FORMAT_KEY as_str;
  version ← root_scalar document FORMAT_VERSION_KEY as_u64;
  partition ← root_scalar document PARTITION_KEY into_bytes;
  partition ← ok_or descriptor_mismatch partition;
  _ ← fail_if
        (negb (bool_decide (format = Some (kind_as_str kind)))
         || negb (bool_decide (version = Some FORMAT_VERSION)
                  || (is_personal kind partition
                      && opt_test (λ v, (v =? 4) || (v =? 5) || (v =? PERSONAL_FORMAT_VERSION))
                           version))
         || opt_test (λ expected, negb (bool_decide (partition = expected))) expected_partition)
        descriptor_mismatch;
  entries ← root_object document ENTRIES_KEY ObjType.Map;
  Ok {| sd_document := document; sd_entries := entries; sd_kind := kind;
        sd_partition := partition; sd_pending := [] |}.

(** [record_bytes]. *)
Definition record_bytes (v : AmValue am_scalar) : VaultResult bytes :=
  ok_or (VaultError.InvalidData "secret document record is not bytes")
    (match v with AmScalar s => into_bytes s | AmObject _ => None end).

(** Every visible record for one storage key. *)
Definition document_records (d : SecretDocument) (key : string) : VaultResult (list SecretRecord) :=
  values ← automerge_error (am_get_all (sd_document d) (sd_entries d) key);
  try_collect (λ '(value, _),
    b ← record_bytes value; map_err VaultError.InvalidData (serde_from_slice b)) values.

Definition validate_record (r : SecretRecord) (a : SecretAddress) : VaultResult () :=
  fail_if (negb (sr_version r =? RECORD_VERSION) || negb (bool_decide (sr_address r = a)))
    (VaultError.InvalidData "secret document record does not match its authenticated address").

Definition validate_record_key (r : SecretRecord) (key : string) : VaultResult () :=
  fail_if (negb (sr_version r =? RECORD_VERSION)
           || negb (String.eqb (storage_key (sr_address r)) key))
    (VaultError.InvalidData "secret document record does not match its authenticated index").

(** *** Personal items in the document *)

Definition personal_replicas (d : SecretDocument) : VaultResult ReplicaCatalog :=
  _ ← fail_if (negb (document_is_personal d)) descriptor_mismatch;
  found ← automerge_error (am_get (sd_document d) am_root REPLICAS);
  match found with
  | Some (value, _) =>
      b ← ok_or descriptor_mismatch
            (match value with AmScalar s => into_bytes s | AmObject _ => None end);
      _ ← fail_if (MAX_CATALOG_BYTES <? Z.of_nat (length b)) descriptor_mismatch;
      catalog ← map_err (λ _, descriptor_mismatch) (serde_from_slice b);
      _ ← fail_if ((4096 <? Z.of_nat (size (rc_replicas catalog)))
                   || negb (forallb (λ id, bool_decide (is_Some (rc_replicas catalog !! id)))
                              (elements (rc_pending catalog)))) descriptor_mismatch;
      Ok catalog
  | None => Ok catalog_default
  end.

Definition save_personal_replicas (c : ReplicaCatalog) : DM () :=
  b ← lift (map_err (λ _, descriptor_mismatch) (serde_to_vec c));
  _ ← lift (fail_if (MAX_CATALOG_BYTES <? Z.of_nat (length b))
        (VaultError.Protocol "personal replica catalog is full"));
  am_change (λ a, am_put a am_root REPLICAS (scalar_bytes b)).

Definition ensure_personal_unconflicted (d : SecretDocument) (a : SecretAddress)
    : VaultResult () :=
  if document_is_personal d then
    match as_local a with
    | Some (id, _) =>
        catalog ← personal_replicas d;
        replica ← catalog_load catalog id (am_actor (sd_document d));
        match replica with
        | Some replica =>
            values ← replica_values replica;
            fail_if (1 <? Z.of_nat (length values)) VaultError.Conflict
        | None => Ok tt
        end
    | None => Ok tt
    end
  else Ok tt.

Definition validate_personal_put (a : SecretAddress) (value : bytes) (evict_at : option Z)
    : DM () := λ d,
  if negb (document_is_personal d) then (Ok tt, d)
  else
    (item ← lift (ok_or (VaultError.Protocol "invalid personal item") (decode_current value));
     _ ← lift (fail_if (negb (bool_decide (as_local a = Some (ps_id item, None)))
                        || bool_decide (is_Some evict_at))
           (VaultError.Protocol "personal items must be addressed by ID and cannot expire"));
     am_change (λ a, am_put a am_root PERSONAL_LAYOUT (scalar_u64 1))) d.

Definition record_personal_change (a : SecretAddress) (deleted : bool) : DM () := λ d,
  if negb (document_is_personal d) then (Ok tt, d)
  else
    (local ← lift (ok_or descriptor_mismatch (as_local a));
     _ ← lift (fail_if (bool_decide (is_Some local.2)) descriptor_mismatch);
     catalog ← reading personal_replicas;
     let id := local.1 in
     let actor := am_actor (sd_document d) in
     found ← lift (catalog_load catalog id actor);
     fresh ← lift (replica_new id actor);
     let replica := default fresh found in
     item ← (if deleted then mret None
             else
               found ← reading (λ d, document_records d (storage_key a));
               record ← lift (ok_or descriptor_mismatch (head found));
               item ← lift (ok_or descriptor_mismatch (decode_current (sr_value record)));
               mret (Some item));
     replica ← lift (replica_set replica item);
     catalog ← lift (catalog_store catalog id replica true);
     save_personal_replicas catalog) d.

(** [project_personal_metadata]: copy the root scalars of a personal document. *)
Fixpoint copy_scalars (source : am_doc) (keys : list string) (target : am_doc)
    : VaultResult am_doc :=
  match keys with
  | [] => Ok target
  | key :: keys =>
      found ← automerge_error (am_get source am_root key);
      target ← match found with
               | None => Ok target
               | Some (AmScalar s, _) => automerge_error (am_put target am_root key s)
               | Some (AmObject _, _) => Err descriptor_mismatch
               end;
      copy_scalars source keys target
  end.

Definition project_personal_metadata (d : SecretDocument) (projection : am_doc)
    : VaultResult am_doc :=
  if document_is_personal d
  then copy_scalars (sd_document d) [PERSONAL_LAYOUT; PERSONAL_ALIASES; REPLICAS; PERSONAL_SYNC]
         projection
  else Ok projection.

(** *** Reading *)

Definition document_get_with_deadline (d : SecretDocument) (a : SecretAddress) (now : Z)
    : VaultResult (SecretRead.secret_read * option Z) :=
  _ ← ensure_personal_unconflicted d a;
  found ← document_records d (storage_key a);
  match found with
  | [] => Ok (SecretRead.Missing, None)
  | first :: rest =>
      _ ← try_collect (λ r, validate_record r a) found;
      if existsb (λ r, opt_test (λ deadline, deadline <=? now) (sr_evict_at r)) found
      then Ok (SecretRead.Expired, None)
      else if existsb (λ r, negb (bool_decide (sr_value r = sr_value first))) rest
      then Ok (SecretRead.Conflict, None)
      else Ok (SecretRead.Value (sr_value first),
               foldl opt_min None (omap sr_evict_at found))
  end.

Definition document_get (d : SecretDocument) (a : SecretAddress) (now : Z)
    : VaultResult SecretRead.secret_read :=
  read ← document_get_with_deadline d a now; Ok read.1.

(** The sorted keys of the entries. *)
Definition entry_keys (d : SecretDocument) : list string :=
  sort_by id (am_keys (sd_document d) (sd_entries d)).

(** The address of one entry; concurrent records must agree on it. *)
Fixpoint entry_address (key : string) (found : list SecretRecord) (visible : option SecretAddress)
    : VaultResult (option SecretAddress) :=
  match found with
  | [] => Ok visible
  | r :: found =>
      _ ← validate_record_key r key;
      _ ← fail_if (opt_test (λ v, negb (bool_decide (v = sr_address r))) visible)
            VaultError.Conflict;
      entry_address key found (Some (sr_address r))
  end.

Definition document_addresses (d : SecretDocument) : VaultResult (list (string * SecretAddress)) :=
  try_collect (λ key,
    found ← document_records d key;
    address ← entry_address key found None;
    address ← ok_or (VaultError.InvalidData "secret document entry has no visible record") address;
    Ok (key, address)) (entry_keys d).

Definition personal_summary (d : SecretDocument) (a : SecretAddress) (now : Z)
    : VaultResult (option PersonalSummary) :=
  if negb (document_is_personal d) then Ok None
  else
    found ← document_records d (storage_key a);
    let updated_at := foldr Z.max 0 (sr_updated_at <$> found) in
    match head found with
    | Some record =>
        item ← ok_or (VaultError.InvalidData "invalid personal item")
                 (decode_current (sr_value record));
        Ok (Some {|
          pm_title := display_text (ps_title item); pm_kind := ps_kind_label item;
          pm_username := display_text <$> ps_username item; pm_website := ps_website_host item;
          pm_updated_at := updated_at; pm_favorite := ps_favorite item |})
    | None => Ok None
    end.

(** *** Projection *)

(** The bytes every visible value of an entry agrees on. *)
Fixpoint visible_bytes (values : list (AmValue am_scalar * am_obj)) (visible : option bytes)
    : VaultResult (option bytes) :=
  match values with
  | [] => Ok visible
  | (value, _) :: values =>
      b ← record_bytes value;
      _ ← fail_if (opt_test (λ v, negb (bool_decide (v = b))) visible) VaultError.Conflict;
      visible_bytes values (Some b)
  end.

(** Copy entries into the projection and find the earliest deadline. *)
Fixpoint project_entries (d : SecretDocument) (keys : list string) (projection : SecretDocument)
    (next_eviction : option Z) : VaultResult (SecretDocument * option Z) :=
  match keys with
  | [] => Ok (projection, next_eviction)
  | key :: keys =>
      values ← automerge_error (am_get_all (sd_document d) (sd_entries d) key);
      visible ← visible_bytes values None;
      b ← ok_or (VaultError.InvalidData "secret document entry has no visible record") visible;
      deadline ← map_err VaultError.InvalidData (serde_from_slice (A := RecordDeadline) b);
      document ← automerge_error
                   (am_put (sd_document projection) (sd_entries projection) key (scalar_bytes b));
      project_entries d keys (set_document projection document)
        (match rd_evict_at deadline with
         | Some deadline => opt_min next_eviction deadline
         | None => next_eviction
         end)
  end.

Definition document_project (d : SecretDocument) : VaultResult (SecretDocument * option Z) :=
  projection ← document_new (am_actor (sd_document d)) (sd_kind d) (sd_partition d);
  document ← project_personal_metadata d (sd_document projection);
  project_entries d (entry_keys d) (set_document projection document) None.

Definition finish_mutation : DM DocumentMutation := λ d,
  match document_project d with
  | Err e => (Err e, d)
  | Ok (projection, next_eviction) =>
      let '(snapshot, document) := am_save (sd_document projection) in
      (Ok {| dm_address_migrations := []; dm_snapshot := snapshot;
             dm_partition := sd_partition projection; dm_history := sd_pending d;
             dm_next_eviction := next_eviction |},
       set_document projection document)
  end.

(** *** Changes *)

(** [SecretDocument::mutate]: a failed group is undone. *)
Definition transact {A} (operation : DM A) : DM A := λ d,
  match operation (set_document d (am_commit (sd_document d))) with
  | (Ok a, d') => (Ok a, d')
  | (Err e, d') => (Err e, set_pending (set_document d' (am_rollback (sd_document d'))) [])
  end.

Definition push_pending (p : PendingHistory) : DM () := λ d,
  (Ok tt, set_pending d (sd_pending d ++ [p])).

Definition put_value_uncommitted (a : SecretAddress) (value : bytes) (evict_at : option Z)
    (context : MutationContext) (record_revision : bool) : DM () :=
  _ ← validate_personal_put a value evict_at;
  let key := storage_key a in
  found ← reading (λ d, document_records d key);
  let existing := head found in
  let changed :=
    match existing with
    | Some r => negb (bool_decide (sr_value r = value))
                || negb (bool_decide (sr_evict_at r = evict_at))
    | None => true
    end in
  version_id ← reading (λ d, match existing with
                          | Some r =>
                              if changed then mc_version_ids context (length (sd_pending d))
                              else Ok (sr_version_id r)
                          | None => mc_version_ids context (length (sd_pending d))
                          end);
  let record := {|
    sr_version := RECORD_VERSION; sr_address := a; sr_value := value; sr_evict_at := evict_at;
    sr_version_id := version_id;
    sr_created_at := match existing with Some r => sr_created_at r | None => mc_now context end;
    sr_updated_at := mc_now context |} in
  b ← lift (map_err VaultError.InvalidData (serde_to_vec record));
  _ ← stateful (λ d, am_change (λ am, am_put am (sd_entries d) key (scalar_bytes b)) d);
  _ ← (if changed && record_revision then record_personal_change a false else mret tt);
  stateful (λ d, if changed || record_unchanged (history_retention (sd_kind d))
        then push_pending {|
          ph_operation := HistoryOperation.Put changed; ph_address := a;
          ph_version_id := Some version_id;
          ph_previous_version_id := sr_version_id <$> existing; ph_evict_at := evict_at |} d
        else (Ok tt, d)).

Definition put_uncommitted (a : SecretAddress) (value : bytes) (evict_at : option Z)
    (context : MutationContext) : DM () :=
  _ ← reading (λ d, ensure_personal_unconflicted d a);
  put_value_uncommitted a value evict_at context true.

Definition delete_value_uncommitted (a : SecretAddress)
    (operation : HistoryOperation.history_operation) (record_revision : bool) : DM bool :=
  let key := storage_key a in
  found ← reading (λ d, document_records d key);
  match found with
  | [] => mret false
  | existing :: _ =>
      _ ← stateful (λ d, am_change (λ am, am_delete am (sd_entries d) key) d);
      _ ← (if record_revision then record_personal_change a true else mret tt);
      _ ← push_pending {|
            ph_operation := operation; ph_address := a; ph_version_id := None;
            ph_previous_version_id := Some (sr_version_id existing);
            ph_evict_at := sr_evict_at existing |};
      mret true
  end.

Definition delete_uncommitted (a : SecretAddress)
    (operation : HistoryOperation.history_operation) : DM bool :=
  _ ← reading (λ d, ensure_personal_unconflicted d a);
  delete_value_uncommitted a operation true.

Definition document_put (a : SecretAddress) (value : bytes) (evict_at : option Z)
    (context : MutationContext) : DM DocumentMutation :=
  transact (_ ← put_uncommitted a value evict_at context; finish_mutation).

(** The loop of [apply]: whether anything changed. *)
Fixpoint apply_all (operations : list DocumentOperation.document_operation)
    (context : MutationContext) (changed : bool) : DM bool :=
  match operations with
  | [] => mret changed
  | DocumentOperation.Put a value evict_at :: operations =>
      _ ← put_uncommitted a value evict_at context;
      apply_all operations context true
  | DocumentOperation.Delete a :: operations =>
      deleted ← delete_uncommitted a HistoryOperation.Delete;
      apply_all operations context (changed || deleted)
  end.

(** Finish when there is something to persist. *)
Definition finish_if (changed : bool) : DM (option DocumentMutation) :=
  if changed then (m ← finish_mutation; mret (Some m)) else mret None.

Definition document_apply (operations : list DocumentOperation.document_operation)
    (context : MutationContext) : DM (option DocumentMutation) :=
  transact (changed ← apply_all operations context false; finish_if changed).

Definition document_remove (a : SecretAddress) (operation : HistoryOperation.history_operation)
    : DM (option DocumentMutation) :=
  transact (deleted ← delete_uncommitted a operation; finish_if deleted).

Definition document_delete (a : SecretAddress) : DM (option DocumentMutation) :=
  document_remove a HistoryOperation.Delete.
Definition expire (a : SecretAddress) : DM (option DocumentMutation) :=
  document_remove a HistoryOperation.Expire.

(** The first record of an entry whose deadline has passed, if any. *)
Fixpoint expired_record (key : string) (found : list SecretRecord) (now : Z)
    : VaultResult (option SecretAddress) :=
  match found with
  | [] => Ok None
  | r :: found =>
      _ ← validate_record_key r key;
      if opt_test (λ deadline, deadline <=? now) (sr_evict_at r) then Ok (Some (sr_address r))
      else expired_record key found now
  end.

Fixpoint expired_in (d : SecretDocument) (keys : list string) (now : Z)
    : VaultResult (list SecretAddress) :=
  match keys with
  | [] => Ok []
  | key :: keys =>
      found ← document_records d key;
      first ← expired_record key found now;
      rest ← expired_in d keys now;
      Ok (match first with Some a => a :: rest | None => rest end)
  end.

Definition expired_addresses (d : SecretDocument) (now : Z) : VaultResult (list SecretAddress) :=
  expired_in d (am_keys (sd_document d) (sd_entries d)) now.

Fixpoint delete_each (l : list SecretAddress) (operation : HistoryOperation.history_operation)
    : DM () :=
  match l with
  | [] => mret tt
  | a :: l => _ ← delete_uncommitted a operation; delete_each l operation
  end.

Definition document_purge_expired (now : Z) : DM (option DocumentMutation) :=
  transact (
    expired ← reading (λ d, expired_addresses d now);
    _ ← delete_each expired HistoryOperation.Expire;
    finish_if (negb (bool_decide (expired = [])))).

Fixpoint clear_keys (keys : list string) : DM () :=
  match keys with
  | [] => mret tt
  | key :: keys =>
      found ← reading (λ d, document_records d key);
      _ ← match found with
          | [] => mret false
          | r :: _ => delete_uncommitted (sr_address r) HistoryOperation.Clear
          end;
      clear_keys keys
  end.

Definition document_clear : DM (option (Z * DocumentMutation)) :=
  transact (λ d,
    let keys := am_keys (sd_document d) (sd_entries d) in
    (if bool_decide (keys = []) then mret None
     else
       _ ← clear_keys keys;
       m ← finish_mutation;
       mret (Some (Z.of_nat (length keys), m))) d).
End Document.
