(* ===== verification/DocumentProofs.v ===== *)
(** What a secret document promises: reads return what is stored, a group of changes
    has exactly its effect, and the persisted snapshot loads back to the same records. *)
From Stdlib Require Import ZArith Lia Bool.
From stdpp Require Import base gmap strings list.
From S2P Require Import Prelude Core Address Text Wire History StoreSpec Automerge Document.

Section DocumentProofs.
Context `{Sha256, Base64} `{AutomergeOk} `{PersonalItems}.
Context `{SerdeOk SecretRecord, Serde RecordDeadline, Serde ReplicaCatalog} `{!RecordSerdeOk}.
Abbreviation DM := (SM SecretDocument).

(** ** Views *)

(** The values of the entries. *)
Definition entries (d : SecretDocument) : am_values := am_visible (sd_document d) (sd_entries d).

Definition decode_record (v : AmValue am_scalar * am_obj) : VaultResult SecretRecord :=
  b ← record_bytes v.1; map_err VaultError.InvalidData (serde_from_slice b).

(** Concurrent records expire with the first of them. *)
Definition earliest (rs : list SecretRecord) : option Z :=
  foldl opt_min None (omap sr_evict_at rs).

(** The record at a key, when everything there decodes. *)
Definition cell_of (l : list (AmValue am_scalar * am_obj)) : option Cell :=
  match try_collect decode_record l with
  | Ok (r :: rs) => Some {| cell_address := sr_address r; cell_value := sr_value r;
                            cell_evict_at := earliest (r :: rs) |}
  | _ => None
  end.

Definition document_view (d : SecretDocument) : DocumentView := omap cell_of (entries d).

(** The entries are an object of their own. *)
Definition document_ok (d : SecretDocument) : Prop :=
  am_known (sd_document d) (sd_entries d) ∧ sd_entries d ≠ am_root.

Lemma lookup_view d key : document_view d !! key = entries d !! key ≫= cell_of.
Proof. apply lookup_omap. Qed.

Lemma try_collect_ext {E A B} (f g : A → result E B) l :
  (∀ x, f x = g x) → try_collect f l = try_collect g l.
Proof. intros Hf. induction l as [|x l IH]; cbn; [done|]. by rewrite Hf, IH. Qed.

Lemma records_spec d key :
  document_ok d →
  document_records d key = try_collect decode_record (default [] (entries d !! key)).
Proof.
  intros [Hk _]. unfold document_records. rewrite am_get_all_law by done. cbn.
  apply try_collect_ext. by intros [? ?].
Qed.

(** What the records at a key say about the view. *)
Lemma records_view d key found :
  document_ok d → document_records d key = Ok found →
  match found with
  | [] => entries d !! key = None ∧ document_view d !! key = None
  | r :: rs => is_Some (entries d !! key)
      ∧ document_view d !! key = Some {| cell_address := sr_address r; cell_value := sr_value r;
                                         cell_evict_at := earliest (r :: rs) |}
  end.
Proof.
  intros Hd Hr. rewrite records_spec in Hr by done. rewrite lookup_view.
  pose proof (am_visible_law (sd_document d) (sd_entries d) key) as Hne. fold (entries d) in Hne.
  destruct (entries d !! key) as [l|] eqn:Hl; cbn in *.
  - unfold cell_of. rewrite Hr. destruct found; [|eauto].
    apply try_collect_Ok, Forall2_nil_inv_r in Hr as ->. done.
  - injection Hr as <-. done.
Qed.

(** ** Deadlines *)

(** The earliest deadline has passed exactly when one of them has. *)
Lemma earliest_passed rs now :
  opt_test (λ deadline, deadline <=? now) (earliest rs)
  = existsb (λ r, opt_test (λ deadline, deadline <=? now) (sr_evict_at r)) rs.
Proof.
  unfold earliest.
  assert (∀ acc, opt_test (λ deadline, deadline <=? now) (foldl opt_min acc (omap sr_evict_at rs))
    = opt_test (λ deadline, deadline <=? now) acc
      || existsb (λ r, opt_test (λ deadline, deadline <=? now) (sr_evict_at r)) rs) as Hgen.
  { induction rs as [|r rs IH]; intros acc; cbn; [by rewrite orb_false_r|].
    destruct (sr_evict_at r) as [e|]; cbn; rewrite IH; [|done].
    destruct acc as [c|]; cbn; [|done].
    destruct (Z.leb_spec c now), (Z.leb_spec e now), (Z.leb_spec (c `min` e) now); cbn; try lia; done. }
  apply Hgen.
Qed.

(** ** Reading *)

Lemma unconflicted_plain d a :
  document_is_personal d = false → ensure_personal_unconflicted d a = Ok tt.
Proof. unfold ensure_personal_unconflicted. by intros ->. Qed.

(** A read of a document says what its view holds. *)
Lemma get_with_deadline_view d a now read deadline :
  document_ok d → document_is_personal d = false →
  document_get_with_deadline d a now = Ok (read, deadline) →
  (∀ c, document_view d !! storage_key a = Some c → cell_address c = a)
  ∧ match read with
    | SecretRead.Missing => document_view d !! storage_key a = None
    | SecretRead.Value value => ∃ c, document_view d !! storage_key a = Some c
        ∧ evicted c now = false ∧ cell_value c = value ∧ cell_evict_at c = deadline
    | SecretRead.Expired => ∃ c, document_view d !! storage_key a = Some c ∧ evicted c now = true
    | SecretRead.Conflict => True
    end.
Proof.
  intros Hd Hp Hg. unfold document_get_with_deadline in Hg.
  rewrite unconflicted_plain in Hg by done. cbn in Hg.
  apply bind_Ok in Hg as (found & Hf & Hg). apply records_view in Hf; [|done].
  destruct found as [|r rs].
  { destruct Hf as [_ Hf]. injection Hg as <- <-. rewrite Hf. naive_solver. }
  destruct Hf as [_ Hf]. rewrite Hf. apply bind_Ok in Hg as (ok & Hv & Hg).
  assert (sr_address r = a) as Ha.
  { cbn in Hv. apply bind_Ok in Hv as ([] & Hv & _). unfold validate_record in Hv. inv_ok.
    bool_prop. naive_solver. }
  split; [by intros c [= <-]|].
  destruct (existsb _ (r :: rs)) eqn:He; rewrite <- earliest_passed in He;
    [injection Hg as <- <-; by eexists|].
  destruct (existsb _ rs); injection Hg as <- <-; [done|].
  eexists. split_and!; [done|exact He|done|done].
Qed.

(** ** Single changes *)

(** The same document otherwise, with another view of the entries. *)
Definition with_entries (d d' : SecretDocument) (es : am_values) : Prop :=
  document_ok d' ∧ sd_kind d' = sd_kind d ∧ sd_partition d' = sd_partition d
  ∧ am_actor (sd_document d') = am_actor (sd_document d) ∧ entries d' = es.

Lemma with_entries_refl d : document_ok d → with_entries d d (entries d).
Proof. intros Hd. unfold with_entries. by split_and!. Qed.

Lemma with_entries_trans d1 d2 d3 es es' :
  with_entries d1 d2 es → with_entries d2 d3 es' → with_entries d1 d3 es'.
Proof.
  intros (? & ? & ? & ? & ?) (? & ? & ? & ? & ?). unfold with_entries.
  split_and!; try done; congruence.
Qed.

Lemma with_entries_personal d d' es :
  with_entries d d' es → document_is_personal d' = document_is_personal d.
Proof. intros (_ & Hk & Hp & _). unfold document_is_personal. by rewrite Hk, Hp. Qed.

(** What the records at a key become after one change. *)
Definition one_cell (r : SecretRecord) : Cell := {|
  cell_address := sr_address r; cell_value := sr_value r; cell_evict_at := sr_evict_at r |}.

Lemma cell_of_saved r b id :
  serde_to_vec r = Ok b → cell_of [(AmScalar (scalar_bytes b), id)] = Some (one_cell r).
Proof.
  intros Hb. unfold cell_of, decode_record, record_bytes. cbn. rewrite into_bytes_law. cbn.
  rewrite (serde_roundtrip _ _ Hb). cbn. unfold one_cell, earliest. cbn.
  by destruct (sr_evict_at r).
Qed.

Lemma put_entry d key b d' :
  document_ok d →
  am_change (λ am, am_put am (sd_entries d) key (scalar_bytes b)) d = (Ok tt, d') →
  ∃ id, with_entries d d' (<[key := [(AmScalar (scalar_bytes b), id)]]> (entries d)).
Proof.
  intros [Hk Hr] Hc. unfold am_change in Hc.
  destruct (am_put _ _ _ _) as [a|] eqn:Hput; [|discriminate]. injection Hc as <-.
  apply am_put_law in Hput as (Hkn & _ & Ha & (id & Hv) & _); [|done].
  exists id. unfold with_entries, document_ok. split_and!; try done. cbn. by apply Hkn.
Qed.

Lemma delete_entry d key d' :
  document_ok d →
  am_change (λ am, am_delete am (sd_entries d) key) d = (Ok tt, d') →
  with_entries d d' (delete key (entries d)).
Proof.
  intros [Hk Hr] Hc. unfold am_change in Hc.
  destruct (am_delete _ _ _) as [a|] eqn:Hdel; [|discriminate]. injection Hc as <-.
  apply am_delete_law in Hdel as (Hkn & _ & Ha & Hv & _); [|done].
  unfold with_entries, document_ok. split_and!; try done. cbn. by apply Hkn.
Qed.

Lemma with_pending d d' es l :
  with_entries d d' es → with_entries d (set_pending d' l) es.
Proof. done. Qed.

Lemma put_value_view d a value evict_at ctx rev d' :
  document_ok d → document_is_personal d = false →
  put_value_uncommitted a value evict_at ctx rev d = (Ok tt, d') →
  ∃ es, with_entries d d' es
    ∧ omap cell_of es = apply_operation (document_view d) (DocumentOperation.Put a value evict_at).
Proof.
  intros Hd Hp Hput. unfold put_value_uncommitted in Hput.
  apply sm_bind_Ok in Hput as ([] & d1 & Hv & Hput).
  unfold validate_personal_put in Hv. rewrite Hp in Hv. injection Hv as <-.
  apply sm_bind_Ok in Hput as (found & d2 & Hf & Hput). unfold reading in Hf.
  injection Hf as Hf <-.
  apply sm_bind_Ok in Hput as (version & d3 & [= Hver <-] & Hput).
  apply sm_bind_Ok in Hput as (b & d4 & Hb & Hput). apply lift_Ok in Hb as [Hb ->].
  apply map_err_Ok in Hb.
  apply sm_bind_Ok in Hput as ([] & d5 & Hc & Hput).
  apply put_entry in Hc as (id & Hw); [|done].
  apply sm_bind_Ok in Hput as ([] & d6 & Hrev & Hput).
  assert (d6 = d5) as ->.
  { destruct (_ && rev); [|by injection Hrev as <-]. unfold record_personal_change in Hrev.
    rewrite (with_entries_personal _ _ _ Hw), Hp in Hrev. by injection Hrev as <-. }
  eexists. split.
  { unfold stateful in Hput. destruct (_ || _); injection Hput as <-; [by apply with_pending|exact Hw]. }
  rewrite omap_insert. erewrite cell_of_saved by done. done.
Qed.

Lemma put_uncommitted_view d a value evict_at ctx d' :
  document_ok d → document_is_personal d = false →
  put_uncommitted a value evict_at ctx d = (Ok tt, d') →
  ∃ es, with_entries d d' es
    ∧ omap cell_of es = apply_operation (document_view d) (DocumentOperation.Put a value evict_at).
Proof.
  intros Hd Hp Hput. unfold put_uncommitted in Hput.
  apply sm_bind_Ok in Hput as ([] & d1 & [= _ <-] & Hput). by apply put_value_view in Hput.
Qed.

(** A deletion removes one key and says whether it was there. *)
Lemma delete_uncommitted_view d a op b d' :
  document_ok d → document_is_personal d = false →
  delete_uncommitted a op d = (Ok b, d') →
  with_entries d d' (delete (storage_key a) (entries d))
  ∧ b = bool_decide (is_Some (document_view d !! storage_key a))
  ∧ b = bool_decide (is_Some (entries d !! storage_key a)).
Proof.
  intros Hd Hp Hdel. unfold delete_uncommitted in Hdel.
  apply sm_bind_Ok in Hdel as ([] & d1 & [= _ <-] & Hdel).
  unfold delete_value_uncommitted in Hdel.
  apply sm_bind_Ok in Hdel as (found & d2 & [= Hf <-] & Hdel).
  apply records_view in Hf; [|done]. destruct found as [|r rs].
  - injection Hdel as <- <-. destruct Hf as [He Hv]. rewrite Hv, He, delete_id by done.
    split_and!; [by apply with_entries_refl|by rewrite bool_decide_eq_false_2 by (by intros [])..].
  - destruct Hf as [He Hv]. apply sm_bind_Ok in Hdel as ([] & d3 & Hc & Hdel).
    apply delete_entry in Hc; [|done].
    apply sm_bind_Ok in Hdel as ([] & d4 & Hrev & Hdel).
    unfold record_personal_change in Hrev.
    rewrite (with_entries_personal _ _ _ Hc), Hp in Hrev. injection Hrev as <-.
    apply sm_bind_Ok in Hdel as ([] & d5 & [= <-] & [= <- <-]).
    split; [by apply with_pending|].
    rewrite Hv. by rewrite !bool_decide_eq_true_2 by eauto.
Qed.

Lemma view_delete d d' key :
  with_entries d d' (delete key (entries d)) → document_view d' = delete key (document_view d).
Proof.
  intros (_ & _ & _ & _ & He). unfold document_view. by rewrite He, omap_delete.
Qed.

Lemma view_with d d' es : with_entries d d' es → document_view d' = omap cell_of es.
Proof. intros (_ & _ & _ & _ & He). unfold document_view. by rewrite He. Qed.

(** ** Groups of changes *)

(** The same document otherwise, with another view. *)
Definition turns (d d' : SecretDocument) (v : DocumentView) : Prop :=
  document_ok d' ∧ sd_kind d' = sd_kind d ∧ sd_partition d' = sd_partition d
  ∧ am_actor (sd_document d') = am_actor (sd_document d) ∧ document_view d' = v.

Lemma turns_entries d d' es v :
  with_entries d d' es → omap cell_of es = v → turns d d' v.
Proof.
  intros Hw Hv. pose proof (view_with _ _ _ Hw) as Hview.
  destruct Hw as (? & ? & ? & ? & ?). unfold turns. split_and!; try done. congruence.
Qed.

Lemma turns_trans d1 d2 d3 v v' : turns d1 d2 v → turns d2 d3 v' → turns d1 d3 v'.
Proof. intros (? & ? & ? & ? & ?) (? & ? & ? & ? & ?). unfold turns. split_and!; congruence || done. Qed.

Lemma turns_refl d : document_ok d → turns d d (document_view d).
Proof. intros Hd. unfold turns. by split_and!. Qed.

Lemma turns_personal d d' v : turns d d' v → document_is_personal d' = document_is_personal d.
Proof. intros (_ & Hk & Hp & _). unfold document_is_personal. by rewrite Hk, Hp. Qed.

Lemma apply_all_view ops ctx c d b d' :
  document_ok d → document_is_personal d = false →
  apply_all ops ctx c d = (Ok b, d') →
  turns d d' (apply_operations (document_view d) ops)
  ∧ (b = false → c = false ∧ document_view d' = document_view d).
Proof.
  revert c d. induction ops as [|[a value evict_at|a] ops IH]; intros c d Hd Hp Ha;
    cbn [apply_all] in Ha.
  - injection Ha as <- <-. split; [by apply turns_refl|done].
  - apply sm_bind_Ok in Ha as ([] & d1 & Hput & Ha).
    apply put_uncommitted_view in Hput as (es & Hw & Hes); [|done..].
    pose proof (turns_entries _ _ _ _ Hw Hes) as Ht. pose proof Ht as (Hd1 & _ & _ & _ & Hv1).
    apply IH in Ha as [Ht' Hb]; [|done|by rewrite (turns_personal _ _ _ Ht)].
    split; [rewrite Hv1 in Ht'; by eapply turns_trans|].
    intros ->. by destruct (Hb eq_refl).
  - apply sm_bind_Ok in Ha as (deleted & d1 & Hdel & Ha).
    apply delete_uncommitted_view in Hdel as (Hw & Hb1 & _); [|done..].
    pose proof (turns_entries _ _ _ _ Hw eq_refl) as Ht. pose proof Ht as (Hd1 & _).
    pose proof (view_delete _ _ _ Hw) as Hv1.
    apply IH in Ha as [Ht' Hb]; [|done|by rewrite (turns_personal _ _ _ Ht)].
    rewrite Hv1 in Ht', Hb. split; [by eapply turns_trans|].
    intros ->. destruct (Hb eq_refl) as [Hc ->]. apply orb_false_iff in Hc as [-> ->].
    split; [done|]. apply delete_id. symmetry in Hb1. apply bool_decide_eq_false in Hb1.
    by apply eq_None_not_Some.
Qed.

Lemma delete_each_view l op d d' :
  document_ok d → document_is_personal d = false →
  delete_each l op d = (Ok tt, d') →
  turns d d' (foldl (λ v a, delete (storage_key a) v) (document_view d) l).
Proof.
  revert d. induction l as [|a l IH]; intros d Hd Hp Hl; cbn [delete_each] in Hl.
  - injection Hl as <-. by apply turns_refl.
  - apply sm_bind_Ok in Hl as (b & d1 & Hdel & Hl).
    apply delete_uncommitted_view in Hdel as (Hw & _); [|done..].
    pose proof (turns_entries _ _ _ _ Hw eq_refl) as Ht. pose proof Ht as (Hd1 & _).
    apply IH in Hl; [|done|by rewrite (turns_personal _ _ _ Ht)].
    rewrite (view_delete _ _ _ Hw) in Hl. by eapply turns_trans.
Qed.

Lemma foldl_delete_lookup (l : list SecretAddress) (v : DocumentView) key :
  foldl (λ v a, delete (storage_key a) v) v l !! key
  = if bool_decide (key ∈ map storage_key l) then None else v !! key.
Proof.
  revert v. induction l as [|a l IH]; intros v; cbn [foldl map].
  - by rewrite bool_decide_eq_false_2 by apply not_elem_of_nil.
  - rewrite IH. destruct (decide (key = storage_key a)) as [->|Hne].
    + rewrite lookup_delete_eq, (bool_decide_eq_true_2 (_ ∈ _ :: _)) by (by left).
      by case_bool_decide.
    + rewrite lookup_delete_ne by done.
      assert (key ∈ map storage_key l ↔ key ∈ storage_key a :: map storage_key l) as Hiff
        by (rewrite elem_of_cons; naive_solver).
      by rewrite (bool_decide_ext _ _ Hiff).
Qed.

(** ** Transactions *)

Lemma transact_Ok {A} (m : DM A) d a d' :
  document_ok d → transact m d = (Ok a, d') →
  ∃ d0, m d0 = (Ok a, d') ∧ turns d d0 (document_view d) ∧ entries d0 = entries d
    ∧ sd_pending d0 = sd_pending d ∧ sd_entries d0 = sd_entries d.
Proof.
  intros [Hk Hr] Ht. unfold transact in Ht.
  destruct (m _) as [[x|e] d1] eqn:Hm; [|discriminate]. injection Ht as -> ->.
  eexists. split; [exact Hm|].
  destruct (am_commit_law (sd_document d)) as ((Hkn & Hv) & _ & Ha).
  assert (entries (set_document d (am_commit (sd_document d))) = entries d) as He
    by (unfold entries; cbn; by apply Hv).
  split; [|done]. unfold turns, document_ok, document_view. rewrite He.
  split_and!; try done. cbn. by apply Hkn.
Qed.

(** ** Projection *)

Lemma visible_bytes_spec l acc r :
  visible_bytes l acc = Ok r →
  match r with
  | Some b => (acc = None ∨ acc = Some b) ∧ Forall (λ v, record_bytes v.1 = Ok b) l
      ∧ (acc = None → l ≠ [])
  | None => acc = None ∧ l = []
  end.
Proof.
  revert acc. induction l as [|[v id] l IH]; intros acc Hl; cbn in Hl.
  - injection Hl as <-. destruct acc; naive_solver.
  - apply bind_Ok in Hl as (b & Hb & Hl). apply bind_Ok in Hl as ([] & Hf & Hl).
    apply fail_if_Ok in Hf. apply IH in Hl. destruct r as [x|]; [|naive_solver].
    destruct Hl as ([?|[= ->]] & Hl & _); [done|]. split_and!; [|by constructor|done].
    destruct acc as [y|]; [|by left]. right. cbn in Hf.
    apply negb_false_iff, bool_decide_eq_true in Hf. congruence.
Qed.

(** An entry whose values agree reads as one record. *)
Lemma earliest_replicate n r : earliest (r :: replicate n r) = sr_evict_at r.
Proof.
  unfold earliest. cbn. destruct (sr_evict_at r) as [x|] eqn:Hx; cbn.
  - assert (opt_min (Some x) x = Some x) as Hm by (unfold opt_min; by rewrite Z.min_id).
    induction n as [|n IH]; [done|]. cbn -[opt_min]. rewrite Hx. cbn -[opt_min]. change (opt_min None x) with (Some x). by rewrite Hm.
  - induction n as [|n IH]; [done|]. cbn. by rewrite Hx.
Qed.

Lemma decode_agrees v id b :
  record_bytes v = Ok b →
  decode_record (v, id) = map_err VaultError.InvalidData (serde_from_slice b).
Proof. unfold decode_record. cbn [fst]. by intros ->. Qed.

Lemma cell_of_uniform l b :
  l ≠ [] → Forall (λ v, record_bytes v.1 = Ok b) l →
  cell_of l = match serde_from_slice b with Ok r => Some (one_cell r) | Err _ => None end.
Proof.
  intros Hne Hall. unfold cell_of.
  destruct (serde_from_slice b) as [r|e] eqn:Hb.
  - assert (try_collect decode_record l = Ok (replicate (length l) r)) as ->.
    { clear Hne. induction Hall as [|[v id] l Hv Hall IH]; [done|]. cbn [try_collect].
      rewrite (decode_agrees _ _ _ Hv), Hb, IH. done. }
    destruct l as [|v l]; [done|]. cbn [length replicate]. unfold one_cell.
    by rewrite earliest_replicate.
  - destruct Hall as [|[v id] l Hv Hall]; [done|]. cbn [try_collect].
    by rewrite (decode_agrees _ _ _ Hv), Hb.
Qed.

(** The second deadline is there and no later than the first. *)
Definition bounds (e n : option Z) : Prop := ∀ x, e = Some x → ∃ y, n = Some y ∧ y ≤ x.

Lemma bounds_min n e : bounds n (opt_min n e) ∧ bounds (Some e) (opt_min n e).
Proof. unfold bounds, opt_min. destruct n; split; intros x [= <-]; eexists; (split; [done|lia]). Qed.

Lemma bounds_trans a b c : bounds a b → bounds b c → bounds a c.
Proof.
  intros Hab Hbc x Hx. destruct (Hab x Hx) as (y & Hy & ?). destruct (Hbc y Hy) as (z & ? & ?).
  exists z. split; [done|lia].
Qed.

Lemma project_entries_spec d keys p n p' n' :
  document_ok d → document_ok p → NoDup keys →
  project_entries d keys p n = Ok (p', n') →
  ∃ es, with_entries p p' es ∧ sd_entries p' = sd_entries p
    ∧ am_visible (sd_document p') am_root = am_visible (sd_document p) am_root
    ∧ (∀ k, k ∉ keys → es !! k = entries p !! k)
    ∧ (∀ k, k ∈ keys → is_Some (es !! k) ∧ es !! k ≫= cell_of = entries d !! k ≫= cell_of)
    ∧ bounds n n'
    ∧ ∀ k c, k ∈ keys → entries d !! k ≫= cell_of = Some c → bounds (cell_evict_at c) n'.
Proof.
  intros Hd. revert p n. induction keys as [|k keys IH]; intros p n Hp Hnd Hpr;
    cbn [project_entries] in Hpr.
  { injection Hpr as <- <-. exists (entries p). split; [by apply with_entries_refl|].
    split_and!; try done; [by intros k ?%elem_of_nil|intros x ?; by exists x|].
    by intros k c ?%elem_of_nil. }
  apply NoDup_cons in Hnd as [Hk Hnd].
  apply bind_Ok in Hpr as (values & Hv & Hpr).
  rewrite am_get_all_law in Hv by apply Hd. injection Hv as Hv.
  apply bind_Ok in Hpr as (visible & Hvis & Hpr).
  apply bind_Ok in Hpr as (b & Hb & Hpr). apply ok_or_Ok in Hb as ->.
  apply visible_bytes_spec in Hvis as (_ & Hall & Hne). specialize (Hne eq_refl).
  apply bind_Ok in Hpr as (deadline & Hdl & Hpr). apply map_err_Ok in Hdl.
  apply bind_Ok in Hpr as (am & Ham & Hpr). apply map_err_Ok in Ham.
  apply am_put_law in Ham as (Hkn & _ & Hact & (id & Hput) & Hother); [|apply Hp].
  assert (document_ok (set_document p am)) as Hp1 by (split; [apply Hkn, Hp|apply Hp]).
  apply IH in Hpr as (es & Hw & Hse & Hroot & Hout & Hin & Hn & Hdls); [|done..].
  assert (entries (set_document p am) = <[k := [(AmScalar (scalar_bytes b), id)]]> (entries p))
    as Hes by done.
  assert (entries d !! k = Some values) as Hk'.
  { unfold entries. destruct (am_visible _ _ !! k); cbn in Hv; [by f_equal|by subst values]. }
  assert (record_bytes (AmScalar (scalar_bytes b)) = Ok b) as Hrb
    by (unfold record_bytes; by rewrite into_bytes_law).
  exists es. split_and!; try done.
  - destruct Hw as (? & ? & ? & ? & ?). unfold with_entries. split_and!; try done. cbn in *. congruence.
  - rewrite Hroot. cbn. apply Hother; [apply am_root_law|]. intros Hr. by apply Hp.
  - intros k' [Hne' Hk'']%not_elem_of_cons. rewrite Hout, Hes by done.
    by rewrite lookup_insert_ne.
  - intros k' [->|Hin']%elem_of_cons; [|by apply Hin].
    rewrite Hout, Hes, lookup_insert_eq by done. split; [done|]. rewrite Hk'. cbn.
    rewrite (cell_of_uniform values b), (cell_of_uniform [_] b); [done|done|by repeat constructor|done..].
  - eapply bounds_trans; [|exact Hn]. destruct (rd_evict_at deadline); [apply bounds_min|].
    intros x ?. by exists x.
  - intros k' c [->|Hin']%elem_of_cons Hc; [|by eapply Hdls]. rewrite Hk' in Hc. cbn in Hc.
    rewrite (cell_of_uniform values b) in Hc by done.
    destruct (serde_from_slice (A := SecretRecord) b) as [r|] eqn:Hr; [|done]. injection Hc as <-. cbn.
    apply record_deadline_law in Hr. rewrite Hdl in Hr. injection Hr as ->. cbn in Hn.
    destruct (sr_evict_at r) as [x|]; [|done]. eapply bounds_trans; [|exact Hn]. apply bounds_min.
Qed.

(** ** New documents and snapshots *)

(** The keys of the metadata of personal documents. *)
Definition personal_keys : list string := [PERSONAL_LAYOUT; PERSONAL_ALIASES; REPLICAS; PERSONAL_SYNC].
Lemma personal_keys_NoDup : NoDup personal_keys.
Proof. by apply (bool_decide_unpack _). Qed.

(** The root of a document describes it. *)
Definition described (d : SecretDocument) : Prop :=
  let root := am_visible (sd_document d) am_root in
  (∃ i, root !! FORMAT_KEY = Some [(AmScalar (scalar_str (kind_as_str (sd_kind d))), i)])
  ∧ (∃ i, root !! FORMAT_VERSION_KEY
       = Some [(AmScalar (scalar_u64 (format_version (sd_kind d) (sd_partition d))), i)])
  ∧ (∃ i, root !! PARTITION_KEY = Some [(AmScalar (scalar_bytes (sd_partition d)), i)])
  ∧ root !! ENTRIES_KEY = Some [(AmObject ObjType.Map, sd_entries d)].

Lemma document_new_spec actor kind partition d :
  document_new actor kind partition = Ok d →
  document_ok d ∧ described d ∧ sd_kind d = kind ∧ sd_partition d = partition
  ∧ sd_pending d = [] ∧ am_actor (sd_document d) = actor ∧ entries d = ∅
  ∧ ∀ key, key ∈ personal_keys → am_visible (sd_document d) am_root !! key = None.
Proof.
  unfold document_new. intros Hn.
  apply bind_Ok in Hn as (a1 & H1' & Hn). apply bind_Ok in Hn as (a2 & H2' & Hn).
  apply bind_Ok in Hn as (a3 & H3' & Hn). apply bind_Ok in Hn as ([a4 o] & H4' & Hn).
  apply map_err_Ok in H1', H2', H3', H4'. injection Hn as <-. cbn in *.
  pose proof (am_new_law actor) as [Hv0 Ha0].
  apply am_put_law in H1' as (K1 & _ & A1 & (i1 & V1) & _); [|apply am_root_law].
  apply am_put_law in H2' as (K2 & _ & A2 & (i2 & V2) & _); [|apply am_root_law].
  apply am_put_law in H3' as (K3 & _ & A3 & (i3 & V3) & _); [|apply am_root_law].
  apply am_put_object_law in H4' as (Hfresh & K4 & _ & A4 & V4 & E4 & _); [|apply am_root_law].
  split_and!; try done.
  - split; cbn; [apply K4; by right|]. intros ->. apply Hfresh, am_root_law.
  - unfold described; cbn. rewrite V4, V3, V2, V1, Hv0.
    split_and!; [exists i1|exists i2|exists i3|]; by simplify_map_eq.
  - cbn. congruence.
  - intros key Hkey. cbn. rewrite V4, V3, V2, V1, Hv0.
    unfold personal_keys in Hkey. rewrite !elem_of_cons, elem_of_nil in Hkey.
    destruct_or! Hkey; subst key; by simplify_map_eq.
Qed.

Lemma root_scalar_spec {A} (doc : am_doc) key (f : am_scalar → option A) v i :
  am_visible doc am_root !! key = Some [(AmScalar v, i)] → root_scalar doc key f = Ok (f v).
Proof.
  intros Hv. unfold root_scalar.
  destruct (am_get_law doc am_root key (am_root_law doc)) as (r & -> & Hr). rewrite Hv in Hr.
  destruct Hr as (x & Hx & ->). apply list_elem_of_singleton in Hx as ->. done.
Qed.

Lemma root_object_spec (doc : am_doc) key ty o :
  am_visible doc am_root !! key = Some [(AmObject ty, o)] → root_object doc key ty = Ok o.
Proof.
  intros Hv. unfold root_object.
  destruct (am_get_law doc am_root key (am_root_law doc)) as (r & -> & Hr). rewrite Hv in Hr.
  destruct Hr as (x & Hx & ->). apply list_elem_of_singleton in Hx as ->. cbn.
  by rewrite bool_decide_eq_true_2.
Qed.

(** Every document that loads is one. *)
Lemma document_load_ok snapshot actor kind expected d :
  document_load snapshot actor kind expected = Ok d →
  document_ok d ∧ sd_kind d = kind ∧ sd_pending d = []
  ∧ ∀ p, expected = Some p → sd_partition d = p.
Proof.
  unfold document_load. intros Hl.
  apply bind_Ok in Hl as (a & _ & Hl). cbv zeta in Hl.
  apply bind_Ok in Hl as (f & _ & Hl). apply bind_Ok in Hl as (v & _ & Hl).
  apply bind_Ok in Hl as (op & _ & Hl). apply bind_Ok in Hl as (p & _ & Hl).
  apply bind_Ok in Hl as ([] & Hf & Hl). apply bind_Ok in Hl as (o & Ho & Hl).
  injection Hl as <-. cbn. split_and!; try done.
  - unfold root_object in Ho.
    destruct (am_get_law (am_set_actor actor a) am_root ENTRIES_KEY (am_root_law _))
      as (r & Hr & Hvis). rewrite Hr in Ho. cbn in Ho.
    destruct r as [[[ty|s] id]|]; try discriminate Ho. case_bool_decide; [|discriminate Ho].
    injection Ho as ->. destruct (am_visible _ _ !! ENTRIES_KEY) as [l|] eqn:Hl; [|done].
    destruct Hvis as (x & Hx & [= <-]). eapply am_object_law; [apply am_root_law|done|done].
  - intros q ->. apply fail_if_Ok in Hf. bool_prop. destruct Hf as [_ Hf]. cbn in Hf.
    by apply negb_false_iff, bool_decide_eq_true in Hf.
Qed.

(** A saved document loads to the same entries. *)
Definition holds (snapshot : bytes) (kind : DocumentKind) (partition : bytes) (v : DocumentView)
    : Prop :=
  ∀ actor expected, (∀ p, expected = Some p → p = partition) →
  ∃ d, document_load snapshot actor kind expected = Ok d
    ∧ sd_partition d = partition ∧ document_view d = v.

Lemma saved_holds d :
  document_ok d → described d →
  holds (am_save (sd_document d)).1 (sd_kind d) (sd_partition d) (document_view d).
Proof.
  intros [Hk Hne] ((i1 & D1) & (i2 & D2) & (i3 & D3) & D4) actor expected Hexp.
  destruct (am_save_law (sd_document d)) as (_ & _ & a & Hload & Hkn & Hvis).
  destruct (am_set_actor_law actor a) as [[Hkn' Hvis'] _].
  assert (∀ o, am_known (sd_document d) o →
    am_visible (am_set_actor actor a) o = am_visible (sd_document d) o) as Hsame.
  { intros o Ho. rewrite Hvis' by (by apply Hkn). by apply Hvis. }
  pose proof (Hsame am_root (am_root_law _)) as Hroot.
  rewrite <- Hroot in D1, D2, D3, D4.
  eexists. split; [|split].
  - unfold document_load. rewrite Hload. cbn [automerge_error map_err mbind result_bind].
    rewrite (root_scalar_spec _ _ _ _ _ D1), (root_scalar_spec _ _ _ _ _ D2),
      (root_scalar_spec _ _ _ _ _ D3), as_str_law, as_u64_law, into_bytes_law. cbn.
    rewrite (bool_decide_eq_true_2 (Some (kind_as_str _) = _)) by done.
    replace (opt_test _ expected) with false; [|destruct expected as [q|]; cbn; [|done];
      by rewrite (Hexp q eq_refl), bool_decide_eq_true_2].
    unfold format_version. destruct (is_personal _ _); cbn; rewrite (root_object_spec _ _ _ _ D4);
      reflexivity.
  - done.
  - unfold document_view, entries. cbn. by rewrite Hsame.
Qed.

(** ** The root scalars of a personal document *)

(** A root value that is copied: what is not there is left as it was, and of concurrent
    values one is taken. *)
Definition copied (source target result : option (list (AmValue am_scalar * am_obj))) : Prop :=
  match source with
  | None => result = target
  | Some l => ∃ s i j, (AmScalar s, i) ∈ l ∧ result = Some [(AmScalar s, j)]
  end.

Lemma copy_scalars_spec source keys target target' :
  copy_scalars source keys target = Ok target' → NoDup keys →
  (∀ o, am_known target' o ↔ am_known target o) ∧ am_actor target' = am_actor target
  ∧ (∀ o, am_known target o → o ≠ am_root → am_visible target' o = am_visible target o)
  ∧ (∀ key, key ∉ keys → am_visible target' am_root !! key = am_visible target am_root !! key)
  ∧ ∀ key, key ∈ keys → copied (am_visible source am_root !! key) (am_visible target am_root !! key)
                          (am_visible target' am_root !! key).
Proof.
  revert target. induction keys as [|k keys IH]; intros target Hc Hnd; cbn [copy_scalars] in Hc.
  { injection Hc as <-. split_and!; try done. by intros key ?%elem_of_nil. }
  apply NoDup_cons in Hnd as [Hk Hnd].
  apply bind_Ok in Hc as (found & Hf & Hc). apply bind_Ok in Hc as (t1 & Ht & Hc).
  apply IH in Hc as (Hkn & Ha & Hv & Hout & Hin); [|done]. apply map_err_Ok in Hf.
  destruct (am_get_law source am_root k (am_root_law _)) as (r & Hr & Hvis).
  rewrite Hr in Hf. injection Hf as ->.
  assert ((∀ o, am_known t1 o ↔ am_known target o) ∧ am_actor t1 = am_actor target
    ∧ (∀ o, am_known target o → o ≠ am_root → am_visible t1 o = am_visible target o)
    ∧ (∀ key, key ≠ k → am_visible t1 am_root !! key = am_visible target am_root !! key)
    ∧ copied (am_visible source am_root !! k) (am_visible target am_root !! k)
        (am_visible t1 am_root !! k)) as (Hkn1 & Ha1 & Hv1 & Hout1 & Hin1).
  { destruct found as [[[ty|s] x]|]; [discriminate| |].
    - apply map_err_Ok in Ht. apply am_put_law in Ht as (? & _ & ? & (id & Hp) & ?); [|apply am_root_law].
      split_and!; [done|done|done|intros key Hne; by rewrite Hp, lookup_insert_ne|].
      rewrite Hp, lookup_insert_eq. destruct (am_visible source am_root !! k) as [l|]; [|done].
      destruct Hvis as (v & Hv' & [= <-]). by exists s, x, id.
    - injection Ht as <-. split_and!; try done.
      destruct (am_visible source am_root !! k) as [l|]; [|done]. by destruct Hvis as (? & _ & ?). }
  split_and!.
  - intros o. by rewrite Hkn, Hkn1.
  - congruence.
  - intros o Hko Hor. rewrite Hv; [by apply Hv1|by apply Hkn1|done].
  - intros key [Hne Hkey]%not_elem_of_cons. rewrite Hout by done. by apply Hout1.
  - intros key [->|Hkey]%elem_of_cons; [by rewrite Hout|].
    rewrite <- (Hout1 key) by (by intros ->). by apply Hin.
Qed.

(** Copying the personal metadata into a projection touches the root only, and its other keys
    not at all. *)
Lemma project_metadata_spec d p a :
  project_personal_metadata d (sd_document p) = Ok a → document_ok p →
  document_ok (set_document p a) ∧ am_actor a = am_actor (sd_document p)
  ∧ am_visible a (sd_entries p) = entries p
  ∧ (∀ key, key ∉ personal_keys →
       am_visible a am_root !! key = am_visible (sd_document p) am_root !! key)
  ∧ ∀ key, document_is_personal d = true → key ∈ personal_keys →
       copied (am_visible (sd_document d) am_root !! key)
         (am_visible (sd_document p) am_root !! key) (am_visible a am_root !! key).
Proof.
  unfold project_personal_metadata. intros Ha [Hk Hne]. destruct (document_is_personal d).
  - apply copy_scalars_spec in Ha as (Hkn & Hact & Hv & Hout & Hin); [|apply personal_keys_NoDup].
    split_and!; [split; cbn; [by apply Hkn|done]|done|by apply Hv|done|by intros key _; apply Hin].
  - injection Ha as <-. by split_and!.
Qed.

(** What a document that is finished saves: a description, the same records, and the personal
    metadata. *)
Lemma finish_projects d m d' :
  document_ok d → finish_mutation d = (Ok m, d') →
  ∃ p saved, am_save (sd_document p) = (dm_snapshot m, saved) ∧ d' = set_document p saved
    ∧ document_ok p ∧ described p ∧ sd_kind p = sd_kind d ∧ sd_partition p = sd_partition d
    ∧ am_actor (sd_document p) = am_actor (sd_document d) ∧ document_view p = document_view d
    ∧ dm_partition m = sd_partition d ∧ dm_history m = sd_pending d ∧ dm_address_migrations m = []
    ∧ (∀ key c, document_view d !! key = Some c → bounds (cell_evict_at c) (dm_next_eviction m))
    ∧ ∀ key, document_is_personal d = true → key ∈ personal_keys →
        copied (am_visible (sd_document d) am_root !! key) None
          (am_visible (sd_document p) am_root !! key).
Proof.
  intros Hd Hf. unfold finish_mutation in Hf.
  destruct (document_project d) as [[p n]|] eqn:Hproj; [|discriminate].
  destruct (am_save (sd_document p)) as [snapshot saved] eqn:Hsave. injection Hf as <- <-. cbn.
  unfold document_project in Hproj. apply bind_Ok in Hproj as (p0 & Hnew & Hproj).
  apply bind_Ok in Hproj as (a & Ha & Hproj).
  apply document_new_spec in Hnew as (Hok0 & Hdesc & Hkind & Hpart & Hpend & Hact & He0 & Hnone).
  apply project_metadata_spec in Ha as (Hok1 & Hact1 & He1 & Hout1 & Hin1); [|done].
  destruct (am_keys_law (sd_document d) (sd_entries d)) as [Hnd Hkeys]; [apply Hd|].
  pose proof (sort_by_perm id (am_keys (sd_document d) (sd_entries d))) as Hperm.
  apply project_entries_spec in Hproj as (es & Hw & Hse & Hroot & Hout & Hin & _ & Hdl);
    [|done|done|unfold entry_keys; by rewrite Hperm].
  destruct Hw as (Hokp & Hkp & Hpp & Hap & Hes). cbn in *.
  assert (entries (set_document p0 a) = ∅) as He2 by (rewrite <- He0, <- He1; done).
  assert (∀ k, k ∈ entry_keys d ↔ is_Some (entries d !! k)) as Hek.
  { intros k. unfold entry_keys. rewrite Hperm. apply Hkeys. }
  exists p, saved. split_and!; try done; try congruence.
  - unfold described in *. rewrite Hroot, Hse, Hkp, Hpp.
    rewrite !Hout1 by (apply (bool_decide_unpack _); done). done.
  - apply map_eq. intros k. rewrite !lookup_view, Hes.
    destruct (decide (k ∈ entry_keys d)) as [Hk|Hk]; [apply Hin, Hk|].
    rewrite Hout, He2, lookup_empty by done. rewrite Hek in Hk.
    by apply eq_None_not_Some in Hk as ->.
  - intros key c Hc. rewrite lookup_view in Hc. eapply Hdl; [|exact Hc]. apply Hek.
    destruct (entries d !! key); [done|discriminate].
  - intros key Hp Hkey. rewrite Hroot, <- (Hnone key Hkey). by apply Hin1.
Qed.

Lemma finish_mutation_spec d m d' :
  document_ok d → finish_mutation d = (Ok m, d') →
  turns d d' (document_view d) ∧ dm_partition m = sd_partition d
  ∧ holds (dm_snapshot m) (sd_kind d) (sd_partition d) (document_view d)
  ∧ dm_history m = sd_pending d ∧ dm_address_migrations m = []
  ∧ ∀ key c, document_view d !! key = Some c → bounds (cell_evict_at c) (dm_next_eviction m).
Proof.
  intros Hd Hf. apply finish_projects in Hf
    as (p & saved & Hsave & -> & Hokp & Hdp & Hkp & Hpp & Hap & Hview & Hm & Hh & Hmig & Hb & _); [|done].
  pose proof (saved_holds p Hokp Hdp) as Hho. rewrite Hsave, Hkp, Hpp, Hview in Hho.
  pose proof (am_save_law (sd_document p)) as ((Hkn & Hvs) & Has & _).
  rewrite Hsave in Hkn, Hvs, Has. cbn in Hkn, Hvs, Has.
  assert (entries (set_document p saved) = entries p) as Hents
    by (unfold entries; cbn; apply Hvs, Hokp).
  split_and!; try done.
  unfold turns. split_and!; cbn; try congruence.
  - split; cbn; [apply Hkn, Hokp|apply Hokp].
  - unfold document_view. by rewrite Hents.
Qed.

(** ** Whole operations *)

(** A group that ends by persisting its result. *)
Definition persists (d : SecretDocument) (m : DocumentMutation) (v : DocumentView) : Prop :=
  dm_partition m = sd_partition d ∧ holds (dm_snapshot m) (sd_kind d) (sd_partition d) v
  ∧ ∀ key c, v !! key = Some c → bounds (cell_evict_at c) (dm_next_eviction m).

Lemma finish_persists d0 d v m d' :
  turns d0 d v → document_is_personal d0 = false → finish_mutation d = (Ok m, d') →
  persists d0 m v.
Proof.
  intros Ht Hp Hf. pose proof (turns_personal _ _ _ Ht) as Hp'.
  destruct Ht as (Hd & Hk & Hpart & _ & Hv).
  apply finish_mutation_spec in Hf as (_ & Hmp & Hh & _ & _ & Hb); [|done].
  unfold persists. rewrite Hk, Hpart, Hv in *. done.
Qed.

(** Nothing changed, or the result is persisted. *)
Definition settles (d : SecretDocument) (r : option DocumentMutation) (v : DocumentView) : Prop :=
  match r with
  | Some m => persists d m v
  | None => v = document_view d
  end.

Lemma finish_if_settles d0 d v changed r d' :
  turns d0 d v → document_is_personal d0 = false → (changed = false → v = document_view d0) →
  finish_if changed d = (Ok r, d') → settles d0 r v.
Proof.
  intros Ht Hp Hc Hf. destruct changed; cbn in Hf.
  - apply sm_bind_Ok in Hf as (m & d1 & Hm & [= <- <-]). by eapply finish_persists.
  - injection Hf as <- <-. by apply Hc.
Qed.

Lemma turns_start d d0 v : turns d d0 (document_view d) → turns d0 d v → turns d d v.
Proof. intros (? & ? & ? & ? & ?) (? & ? & ? & ? & ?). unfold turns. split_and!; congruence || done. Qed.

Lemma document_put_spec d a value evict_at ctx m d' :
  document_ok d → document_is_personal d = false →
  document_put a value evict_at ctx d = (Ok m, d') →
  persists d m (apply_operation (document_view d) (DocumentOperation.Put a value evict_at)).
Proof.
  intros Hd Hp Hput. unfold document_put in Hput.
  apply transact_Ok in Hput as (d0 & Hput & Ht & _); [|done].
  pose proof Ht as (Hd0 & _ & _ & _ & Hv0).
  apply sm_bind_Ok in Hput as ([] & d1 & Hput & Hf).
  apply put_uncommitted_view in Hput as (es & Hw & Hes);
    [|done|by rewrite (turns_personal _ _ _ Ht)].
  eapply finish_persists; [|done|exact Hf]. eapply turns_trans; [exact Ht|].
  eapply turns_entries; [exact Hw|]. by rewrite Hes, Hv0.
Qed.

Lemma document_apply_spec d ops ctx r d' :
  document_ok d → document_is_personal d = false →
  document_apply ops ctx d = (Ok r, d') →
  settles d r (apply_operations (document_view d) ops).
Proof.
  intros Hd Hp Ha. unfold document_apply in Ha.
  apply transact_Ok in Ha as (d0 & Ha & Ht & _); [|done].
  pose proof Ht as (Hd0 & _ & _ & _ & Hv0).
  apply sm_bind_Ok in Ha as (c & d1 & Ha & Hf).
  apply apply_all_view in Ha as [Ht1 Hc]; [|done|by rewrite (turns_personal _ _ _ Ht)].
  pose proof Ht1 as (_ & _ & _ & _ & Hv1). rewrite Hv0 in Ht1, Hv1.
  eapply finish_if_settles; [by eapply turns_trans|done| |exact Hf].
  intros ->. destruct (Hc eq_refl) as [_ Hv]. congruence.
Qed.

Lemma document_remove_spec d a op r d' :
  document_ok d → document_is_personal d = false →
  document_remove a op d = (Ok r, d') →
  settles d r (delete (storage_key a) (document_view d))
  ∧ bool_decide (is_Some r) = bool_decide (is_Some (document_view d !! storage_key a)).
Proof.
  intros Hd Hp Ha. unfold document_remove in Ha.
  apply transact_Ok in Ha as (d0 & Ha & Ht & _); [|done].
  pose proof Ht as (Hd0 & _ & _ & _ & Hv0).
  apply sm_bind_Ok in Ha as (b & d1 & Ha & Hf).
  apply delete_uncommitted_view in Ha as (Hw & Hb & _); [|done|by rewrite (turns_personal _ _ _ Ht)].
  pose proof (view_delete _ _ _ Hw) as Hv1. rewrite Hv0 in Hb, Hv1. split.
  - eapply finish_if_settles; [eapply turns_trans; [exact Ht|]|done| |exact Hf].
    + eapply turns_entries; [exact Hw|]. by rewrite omap_delete, <- Hv0.
    + intros ->. symmetry in Hb. apply bool_decide_eq_false in Hb.
      by apply delete_id, eq_None_not_Some.
  - rewrite <- Hb. destruct b; cbn in Hf; [apply sm_bind_Ok in Hf as (m & d2 & _ & Hf)|];
      injection Hf as <- <-; done.
Qed.

(** *** Expiry *)

Lemma expired_record_spec key found now r :
  expired_record key found now = Ok r →
  match r with
  | Some a => storage_key a = key
      ∧ existsb (λ r, opt_test (λ deadline, deadline <=? now) (sr_evict_at r)) found = true
  | None => existsb (λ r, opt_test (λ deadline, deadline <=? now) (sr_evict_at r)) found = false
  end.
Proof.
  induction found as [|x found IH]; cbn; intros Hr; [by injection Hr as <-|].
  apply bind_Ok in Hr as ([] & Hv & Hr). unfold validate_record_key in Hv.
  apply fail_if_Ok, orb_false_iff in Hv as [_ Hv].
  apply negb_false_iff, String.eqb_eq in Hv.
  destruct (opt_test _ _); [injection Hr as <-; done|]. apply IH in Hr. by destruct r.
Qed.

Lemma expired_in_spec d keys now l :
  document_ok d → expired_in d keys now = Ok l →
  ∀ key, key ∈ map storage_key l ↔
    key ∈ keys ∧ ∃ c, document_view d !! key = Some c ∧ evicted c now = true.
Proof.
  intros Hd. revert l. induction keys as [|k keys IH]; intros l Hl key; cbn in Hl.
  { injection Hl as <-. cbn. rewrite !elem_of_nil. naive_solver. }
  apply bind_Ok in Hl as (found & Hf & Hl). apply bind_Ok in Hl as (first & Hr & Hl).
  apply bind_Ok in Hl as (rest & Hrest & Hl). injection Hl as <-.
  pose proof (IH _ Hrest key) as IHk. apply records_view in Hf; [|done].
  apply expired_record_spec in Hr.
  rewrite elem_of_cons. destruct first as [a|]; [destruct Hr as [<- Hr]|].
  - cbn [map]. rewrite elem_of_cons, IHk.
    assert (∃ c, document_view d !! storage_key a = Some c ∧ evicted c now = true) as Hx.
    { destruct found as [|r rs]; [done|]. destruct Hf as [_ ->].
      rewrite <- earliest_passed in Hr. by eexists. }
    clear -Hx. split; [intros [->|[]]|intros [[->|] ]]; auto.
  - rewrite IHk.
    assert (¬ ∃ c, document_view d !! k = Some c ∧ evicted c now = true) as Hx.
    { intros (c & Hc & He). destruct found as [|r rs]; destruct Hf as [_ Hf]; [congruence|].
      rewrite <- earliest_passed in Hr. rewrite Hf in Hc. injection Hc as <-.
      unfold evicted in He. cbn [cell_evict_at] in He. congruence. }
    clear -Hx. split; [intros []|intros [[->|] ]]; auto; by destruct Hx.
Qed.

Lemma view_key d key c :
  document_ok d → document_view d !! key = Some c → key ∈ am_keys (sd_document d) (sd_entries d).
Proof.
  intros [Hk _] Hv. apply (am_keys_law _ _ Hk). rewrite lookup_view in Hv.
  unfold entries in Hv. by destruct (am_visible _ _ !! key).
Qed.

Lemma document_purge_spec d now r d' :
  document_ok d → document_is_personal d = false →
  document_purge_expired now d = (Ok r, d') →
  settles d r (unexpired_records (document_view d) now).
Proof.
  intros Hd Hp Ha. unfold document_purge_expired in Ha.
  apply transact_Ok in Ha as (d0 & Ha & Ht & _); [|done].
  pose proof Ht as (Hd0 & _ & _ & _ & Hv0).
  apply sm_bind_Ok in Ha as (l & d1 & [= Hl <-] & Ha).
  apply sm_bind_Ok in Ha as ([] & d2 & Hdel & Hf).
  pose proof (expired_in_spec _ _ _ _ Hd0 Hl) as Hspec.
  apply delete_each_view in Hdel; [|done|by rewrite (turns_personal _ _ _ Ht)].
  rewrite Hv0 in Hdel, Hspec.
  assert (foldl (λ v a, delete (storage_key a) v) (document_view d) l
          = unexpired_records (document_view d) now) as Heq.
  { apply map_eq. intros key. rewrite foldl_delete_lookup. unfold unexpired_records.
    destruct (document_view d !! key) as [c|] eqn:Hc.
    - destruct (evicted c now) eqn:He.
      + rewrite bool_decide_eq_true_2; [symmetry; apply map_lookup_filter_None_2; right;
          intros c' Hc'; cbn; congruence|].
        apply Hspec. split; [|by exists c]. apply (view_key _ _ c Hd0). congruence.
      + rewrite bool_decide_eq_false_2 by (rewrite Hspec; intros (_ & c' & Hc' & ?); congruence).
        symmetry. by apply map_lookup_filter_Some_2.
    - transitivity (None : option Cell); [by destruct (bool_decide (key ∈ map storage_key l))|].
      symmetry. apply map_lookup_filter_None_2. by left. }
  rewrite Heq in Hdel.
  eapply finish_if_settles; [by eapply turns_trans|done| |exact Hf].
  intros Hnil. apply negb_false_iff, bool_decide_eq_true in Hnil. subst l. by rewrite <- Heq.
Qed.
(** *** Clearing *)

Lemma clear_keys_view keys d d' :
  document_ok d → document_is_personal d = false → view_keyed (document_view d) → NoDup keys →
  clear_keys keys d = (Ok tt, d') →
  (∃ v, turns d d' v
    ∧ ∀ key, v !! key = if bool_decide (key ∈ keys) then None else document_view d !! key)
  ∧ ∀ key, key ∈ keys → is_Some (entries d !! key) → is_Some (document_view d !! key).
Proof.
  revert d. induction keys as [|k keys IH]; intros d Hd Hp Hkeyed Hnd Hc; cbn [clear_keys] in Hc.
  { injection Hc as <-. split; [|by intros ? ?%elem_of_nil].
    exists (document_view d). split; [by apply turns_refl|done]. }
  apply NoDup_cons in Hnd as [Hk Hnd].
  apply sm_bind_Ok in Hc as (found & d1 & [= Hf <-] & Hc). apply records_view in Hf; [|done].
  apply sm_bind_Ok in Hc as (b & d1 & Hdel & Hc).
  assert (with_entries d d1 (delete k (entries d))
    ∧ (is_Some (entries d !! k) → is_Some (document_view d !! k))) as [Hw Hsome].
  { destruct found as [|r rs]; destruct Hf as [Hf1 Hf2].
    - injection Hdel as <- <-. rewrite delete_id by done.
      split; [by apply with_entries_refl|]. rewrite Hf1. by intros [].
    - apply delete_uncommitted_view in Hdel as (Hw & _); [|done..].
      apply Hkeyed in Hf2 as Hkey. cbn in Hkey. rewrite Hkey in Hw. by rewrite Hf2. }
  pose proof (turns_entries _ _ _ _ Hw eq_refl) as Ht. pose proof (view_delete _ _ _ Hw) as Hv.
  pose proof Ht as (Hd1 & _). pose proof Hw as (_ & _ & _ & _ & He1).
  apply IH in Hc as [(v & Htv & Hlook) Hrest];
    [|done|by rewrite (turns_personal _ _ _ Ht)| |done].
  - split.
    + exists v. split; [by eapply turns_trans|]. intros key. rewrite Hlook, Hv.
      destruct (decide (key = k)) as [->|Hne].
      * by rewrite (bool_decide_eq_true_2 (k ∈ k :: _)), lookup_delete_eq by (by left);
          case_bool_decide.
      * rewrite lookup_delete_ne by done.
        by rewrite (bool_decide_ext (key ∈ k :: keys) (key ∈ keys)) by (rewrite elem_of_cons; tauto).
    + intros key [->|Hin]%elem_of_cons; [done|]. intros Hs.
      assert (key ≠ k) by (by intros ->).
      specialize (Hrest key Hin). rewrite Hv, He1, !lookup_delete_ne in Hrest by done. auto.
  - intros key c. rewrite Hv. intros [_ Hl]%lookup_delete_Some. by apply Hkeyed.
Qed.

Lemma document_clear_spec d r d' :
  document_ok d → document_is_personal d = false → view_keyed (document_view d) →
  document_clear d = (Ok r, d') →
  match r with
  | Some (count, m) => persists d m ∅ ∧ count = Z.of_nat (size (document_view d))
  | None => document_view d = ∅
  end.
Proof.
  intros Hd Hp Hkeyed Ha. unfold document_clear in Ha.
  apply transact_Ok in Ha as (d0 & Ha & Ht & _); [|done].
  pose proof Ht as (Hd0 & _ & _ & _ & Hv0). cbv zeta in Ha.
  destruct (am_keys_law (sd_document d0) (sd_entries d0)) as [Hnd Hkeys]; [apply Hd0|].
  fold (entries d0) in Hkeys.
  destruct (bool_decide (am_keys (sd_document d0) (sd_entries d0) = [])) eqn:Hnil.
  { injection Ha as <- <-. apply bool_decide_eq_true in Hnil. rewrite <- Hv0.
    apply map_eq. intros key. rewrite lookup_empty. apply eq_None_not_Some. intros [c Hc].
    apply view_key in Hc; [|done]. rewrite Hnil in Hc. by apply elem_of_nil in Hc. }
  clear Hnil. apply sm_bind_Ok in Ha as ([] & d1 & Hc & Ha). apply sm_bind_Ok in Ha as (m & d2 & Hf & Ha).
  injection Ha as <- <-.
  apply clear_keys_view in Hc as [(v & Ht1 & Hlook) Hsome];
    [|done|by rewrite (turns_personal _ _ _ Ht)|by rewrite Hv0|done].
  assert (v = ∅) as ->.
  { apply map_eq. intros key. rewrite lookup_empty, Hlook. case_bool_decide as Hin; [done|].
    apply eq_None_not_Some. intros [c Hc]. by apply Hin, (view_key _ _ c). }
  split; [eapply finish_persists; [by eapply turns_trans|done|exact Hf]|].
  f_equal. rewrite <- Hv0, <- size_dom.
  assert (dom (document_view d0) = list_to_set (am_keys (sd_document d0) (sd_entries d0))) as ->.
  { apply set_eq. intros key. rewrite elem_of_list_to_set, elem_of_dom. split.
    - intros [c Hc]. by apply (view_key _ _ c).
    - intros Hin. apply Hsome; [done|]. by apply Hkeys. }
  by rewrite size_list_to_set.
Qed.
End DocumentProofs.
