(* ===== verification/DocumentAtomic.v ===== *)
(** A group of changes to a secret document that fails leaves the document as it was:
    every step of a group stays inside the change set that [transact] opens, so the
    rollback on failure undoes all of them. *)
From Stdlib Require Import ZArith Lia Bool.
From stdpp Require Import base gmap strings list.
From S2P Require Import Prelude Text Core Address Wire History StoreSpec Automerge Document.
From S2P Require Import DocumentProofs.

Section DocumentAtomic.
Context `{Sha256, Base64} `{AutomergeOk} `{PersonalItems}.
Context `{Serde SecretRecord, Serde RecordDeadline, Serde ReplicaCatalog}.
Abbreviation DM := (SM SecretDocument).

(** ** Steps inside a change set *)

(** The same document in the same change set, its contents aside. *)
Definition same_base (d d' : SecretDocument) : Prop :=
  document_ok d' ∧ am_base (sd_document d') = am_base (sd_document d)
  ∧ sd_entries d' = sd_entries d ∧ sd_kind d' = sd_kind d ∧ sd_partition d' = sd_partition d.

(** Whatever a step returns, it stays in the change set. *)
Definition within {A} (m : DM A) : Prop :=
  ∀ d r d', document_ok d → m d = (r, d') → same_base d d'.

(** A step that stays in the change set when it fails. *)
Definition within_err {A} (m : DM A) : Prop :=
  ∀ d e d', document_ok d → m d = (Err e, d') → same_base d d'.

Lemma same_base_refl d : document_ok d → same_base d d.
Proof. intros Hd. unfold same_base. by split_and!. Qed.

Lemma same_base_trans d1 d2 d3 : same_base d1 d2 → same_base d2 d3 → same_base d1 d3.
Proof. intros (? & ? & ? & ? & ?) (? & ? & ? & ? & ?). unfold same_base. split_and!; congruence || done. Qed.

Lemma within_err_of {A} (m : DM A) : within m → within_err m.
Proof. intros Hm d e d' Hd Hr. by eapply Hm. Qed.

Lemma within_ret {A} (a : A) : within (mret a : DM A).
Proof. intros d r d' Hd [= _ <-]. by apply same_base_refl. Qed.

Lemma within_lift {A} (v : VaultResult A) : within (lift v : DM A).
Proof. intros d r d' Hd [= _ <-]. by apply same_base_refl. Qed.

Lemma within_reading {A} (f : SecretDocument → VaultResult A) : within (reading f).
Proof. intros d r d' Hd [= _ <-]. by apply same_base_refl. Qed.

Lemma within_bind {A B} (m : DM A) (f : A → DM B) :
  within m → (∀ a, within (f a)) → within (m ≫= f).
Proof.
  intros Hm Hf d r d' Hd Hr. apply sm_bind_either in Hr as [(e & Hr & ->)|(a & d1 & Hr & Hr')].
  - by eapply Hm.
  - apply Hm in Hr; [|done]. eapply same_base_trans; [done|]. eapply Hf; [apply Hr|done].
Qed.

Lemma within_bind_err {A B} (m : DM A) (f : A → DM B) :
  within m → (∀ a, within_err (f a)) → within_err (m ≫= f).
Proof.
  intros Hm Hf d e d' Hd Hr. apply sm_bind_Err in Hr as [Hr|(a & d1 & Hr & Hr')].
  - by eapply Hm.
  - apply Hm in Hr; [|done]. eapply same_base_trans; [done|]. eapply Hf; [apply Hr|done].
Qed.

Lemma within_stateful {A} (f : SecretDocument → DM A) :
  (∀ d0, document_ok d0 → ∀ r d', f d0 d0 = (r, d') → same_base d0 d') →
  within (stateful (λ d, f d d)).
Proof. intros Hf d r d' Hd Hr. by eapply Hf. Qed.

Lemma within_match {A} (b : bool) (m1 m2 : DM A) :
  within m1 → within m2 → within (if b then m1 else m2).
Proof. by destruct b. Qed.

(** Writing a scalar at the root or among the entries. *)
Lemma change_within d o (f : am_doc → result string am_doc) r d' :
  document_ok d → o = am_root ∨ o = sd_entries d →
  (∀ a, f (sd_document d) = Ok a → am_known (sd_document d) o →
     (∀ o', am_known a o' ↔ am_known (sd_document d) o') ∧ am_base a = am_base (sd_document d)) →
  am_change f d = (r, d') → same_base d d'.
Proof.
  intros Hd Ho Hf Hr. unfold am_change in Hr. destruct (f _) as [a|e] eqn:Hfa.
  - injection Hr as _ <-. destruct (Hf a eq_refl) as [Hk Hb].
    { destruct Ho as [->| ->]; [apply am_root_law|apply Hd]. }
    unfold same_base, document_ok. cbn. split_and!; try done; [apply Hk, Hd|apply Hd].
  - injection Hr as _ <-. by apply same_base_refl.
Qed.

Lemma put_root_within key (s : am_scalar) :
  within (am_change (λ a, am_put a am_root key s)).
Proof.
  intros d r d' Hd Hr. eapply change_within; [done|by left| |done].
  intros a (Hk & Hb & _)%am_put_law; [done|]. apply am_root_law.
Qed.

Lemma put_entry_within key (s : am_scalar) :
  within (stateful (λ d, am_change (λ a, am_put a (sd_entries d) key s) d)).
Proof.
  intros d r d' Hd Hr. eapply change_within; [done|by right| |exact Hr].
  intros a Ha Hk. apply am_put_law in Ha as (? & ? & _); done.
Qed.

Lemma delete_entry_within key :
  within (stateful (λ d, am_change (λ a, am_delete a (sd_entries d) key) d)).
Proof.
  intros d r d' Hd Hr. eapply change_within; [done|by right| |exact Hr].
  intros a Ha Hk. apply am_delete_law in Ha as (? & ? & _); done.
Qed.

Lemma push_pending_within p : within (push_pending p).
Proof. intros d r d' Hd [= _ <-]. unfold same_base. by split_and!. Qed.

Create HintDb within.
#[local] Hint Resolve within_ret within_lift within_reading within_bind within_match
  put_root_within put_entry_within delete_entry_within push_pending_within : within.

(** ** The operations of a group *)

Lemma save_personal_replicas_within c : within (save_personal_replicas c).
Proof. unfold save_personal_replicas. eauto 10 with within. Qed.
#[local] Hint Resolve save_personal_replicas_within : within.

Lemma validate_personal_put_within a value evict_at :
  within (validate_personal_put a value evict_at).
Proof.
  intros d r d' Hd Hr. unfold validate_personal_put in Hr.
  destruct (negb _); [injection Hr as _ <-; by apply same_base_refl|].
  revert Hr. eapply within_bind; eauto with within.
Qed.

Lemma record_personal_change_within a deleted : within (record_personal_change a deleted).
Proof.
  intros d r d' Hd Hr. unfold record_personal_change in Hr.
  destruct (negb _); [injection Hr as _ <-; by apply same_base_refl|].
  revert Hr. eapply within_bind; [|intros local|exact Hd]; eauto 20 with within.
Qed.
#[local] Hint Resolve validate_personal_put_within record_personal_change_within : within.

Lemma put_uncommitted_within a value evict_at ctx :
  within (put_uncommitted a value evict_at ctx).
Proof.
  unfold put_uncommitted, put_value_uncommitted.
  apply within_bind; [eauto with within|intros _].
  apply within_bind; [eauto with within|intros _]. cbv zeta.
  apply within_bind; [eauto with within|intros found].
  apply within_bind; [eauto with within|intros version].
  apply within_bind; [eauto with within|intros b].
  apply within_bind; [eauto with within|intros _].
  apply within_bind; [eauto with within|intros _].
  intros d r d' Hd Hr. unfold stateful in Hr.
  destruct (_ || _); [|injection Hr as _ <-; by apply same_base_refl].
  by eapply push_pending_within.
Qed.

Lemma delete_uncommitted_within a op : within (delete_uncommitted a op).
Proof.
  unfold delete_uncommitted, delete_value_uncommitted.
  apply within_bind; [eauto with within|intros _].
  apply within_bind; [eauto with within|intros [|x found]]; eauto 10 with within.
Qed.
#[local] Hint Resolve put_uncommitted_within delete_uncommitted_within : within.

Lemma apply_all_within ops ctx c : within (apply_all ops ctx c).
Proof.
  revert c. induction ops as [|[] ops IH]; intros c; cbn [apply_all]; eauto with within.
Qed.

Lemma delete_each_within l op : within (delete_each l op).
Proof. induction l as [|a l IH]; cbn [delete_each]; eauto with within. Qed.

Lemma clear_keys_within keys : within (clear_keys keys).
Proof.
  induction keys as [|k keys IH]; cbn [clear_keys]; [eauto with within|].
  apply within_bind; [eauto with within|intros [|r found]]; eauto with within.
Qed.

Lemma finish_mutation_within : within_err finish_mutation.
Proof.
  intros d e d' Hd Hr. unfold finish_mutation in Hr.
  destruct (document_project d) as [[p n]|]; [by destruct (am_save _)|].
  injection Hr as _ <-. by apply same_base_refl.
Qed.

Lemma finish_if_within changed : within_err (finish_if changed).
Proof.
  destruct changed; cbn; [|apply within_err_of, within_ret].
  intros d e d' Hd Hr. apply sm_bind_Err in Hr as [Hr|(m & d1 & _ & Hr)]; [|discriminate].
  by eapply finish_mutation_within.
Qed.

(** ** Undoing *)

(** A document whose contents and description are those of the first; the history it
    had collected is dropped. *)
Definition undone (d d' : SecretDocument) : Prop :=
  am_same am_visible am_known (sd_document d) (sd_document d')
  ∧ am_actor (sd_document d') = am_actor (sd_document d)
  ∧ sd_entries d' = sd_entries d ∧ sd_kind d' = sd_kind d ∧ sd_partition d' = sd_partition d
  ∧ sd_pending d' = [].

Lemma am_same_trans a b c :
  am_same am_visible am_known a b → am_same am_visible am_known b c →
  am_same am_visible am_known a c.
Proof.
  intros [Hk Hv] [Hk' Hv']. split; [intros o; by rewrite Hk|].
  intros o Ho. rewrite Hv' by (by apply Hk). by apply Hv.
Qed.

Lemma transact_Err {A} (m : DM A) d e d' :
  within_err m → document_ok d → transact m d = (Err e, d') → undone d d'.
Proof.
  intros Hm Hd Ht. unfold transact in Ht.
  destruct (m _) as [[x|e'] d1] eqn:Hr; [discriminate|]. injection Ht as <- <-.
  destruct (am_commit_law (sd_document d)) as (Hsame & Hbase & Hact).
  apply Hm in Hr as (_ & Hb & ? & ? & ?);
    [|split; [apply Hsame, Hd|apply Hd]].
  cbn in Hb. rewrite Hbase in Hb.
  destruct (am_rollback_law (sd_document d1)) as [Hroll Hra]. rewrite Hb in Hroll, Hra.
  unfold undone. cbn. split_and!; try done; [by eapply am_same_trans|congruence].
Qed.

Lemma undone_view d d' :
  document_ok d → undone d d' → document_ok d' ∧ document_view d' = document_view d.
Proof.
  intros [Hk Hr] ([Hkn Hv] & _ & He & _). unfold document_ok, document_view, entries.
  rewrite He. split; [split; [by apply Hkn|done]|by rewrite Hv].
Qed.

(** The groups of changes a document offers. *)
Inductive document_group : Type :=
| GroupPut (a : SecretAddress) (value : bytes) (evict_at : option Z) (ctx : MutationContext)
| GroupApply (ops : list DocumentOperation.document_operation) (ctx : MutationContext)
| GroupRemove (a : SecretAddress) (op : HistoryOperation.history_operation)
| GroupPurge (now : Z)
| GroupClear.

(** Run a group; only whether it failed matters here. *)
Definition run_group (g : document_group) : DM () :=
  match g with
  | GroupPut a value evict_at ctx => _ ← document_put a value evict_at ctx; mret tt
  | GroupApply ops ctx => _ ← document_apply ops ctx; mret tt
  | GroupRemove a op => _ ← document_remove a op; mret tt
  | GroupPurge now => _ ← document_purge_expired now; mret tt
  | GroupClear => _ ← document_clear; mret tt
  end.

Lemma forget_Err {A} (m : DM A) d e d' :
  (_ ← m; mret tt : DM ()) d = (Err e, d') → m d = (Err e, d').
Proof. intros [?|(a & d1 & _ & ?)]%sm_bind_Err; done. Qed.

(** C39: A group of changes that fails on any step, whatever it did before, leaves the
    document with the contents, the description and the actor it had, and with no
    history waiting to be recorded. *)
Theorem failed_group_undone g d e d' :
  document_ok d → run_group g d = (Err e, d') → undone d d'.
Proof.
  intros Hd Hr. destruct g; cbn [run_group] in Hr; apply forget_Err in Hr;
    (eapply transact_Err; [|exact Hd|exact Hr]).
  - apply within_bind_err; [apply put_uncommitted_within|intros _; apply finish_mutation_within].
  - apply within_bind_err; [apply apply_all_within|intros c; apply finish_if_within].
  - apply within_bind_err; [apply delete_uncommitted_within|intros c; apply finish_if_within].
  - apply within_bind_err; [apply within_reading|intros l].
    apply within_bind_err; [apply delete_each_within|intros _; apply finish_if_within].
  - intros d0 e0 d1 Hd0 Hr0. cbv zeta in Hr0. destruct (bool_decide _); [discriminate|].
    revert Hr0. apply within_bind_err; [apply clear_keys_within|intros _|done].
    intros d2 e2 d3 Hd2 Hr2. apply sm_bind_Err in Hr2 as [Hr2|(m & d4 & _ & Hr2)]; [|discriminate].
    by eapply finish_mutation_within.
Qed.
End DocumentAtomic.

(** * What every group of changes persists, personal documents included: a snapshot of
    the same kind and partition, with a deadline that is a time. *)

(** Deadlines are unsigned. *)
Class DeadlineSerdeOk `{Serde RecordDeadline} : Prop :=
  deadline_unsigned b r d :
    serde_from_slice b = Ok r → rd_evict_at r = Some d → 0 ≤ d.

(** A deadline that is a time. *)
Definition deadline_counts (n : option Z) : Prop := ∀ d, n = Some d → 0 ≤ d.

Section DocumentGroups.
Context `{Sha256, Base64} `{AutomergeOk} `{PersonalItems}.
Context `{Serde SecretRecord, Serde RecordDeadline, Serde ReplicaCatalog} `{!DeadlineSerdeOk}.
Abbreviation DM := (SM SecretDocument).

(** ** Loading with and without an expected partition *)

Lemma document_load_Some snapshot actor kind p d :
  document_load snapshot actor kind (Some p) = Ok d ↔
  document_load snapshot actor kind None = Ok d ∧ sd_partition d = p.
Proof.
  unfold document_load.
  destruct (automerge_error (am_load snapshot)) as [a|]; cbn [mbind result_bind]; [|naive_solver].
  destruct (root_scalar _ FORMAT_KEY _) as [f|]; cbn [mbind result_bind]; [|naive_solver].
  destruct (root_scalar _ FORMAT_VERSION_KEY _) as [v|]; cbn [mbind result_bind]; [|naive_solver].
  destruct (root_scalar _ PARTITION_KEY _) as [q|]; cbn [mbind result_bind]; [|naive_solver].
  destruct (ok_or _ q) as [x|]; cbn [mbind result_bind]; [|naive_solver].
  destruct (negb (bool_decide (f = _)) || _) eqn:Hc; cbn [orb].
  { cbn. naive_solver. }
  cbn [opt_test]. destruct (decide (x = p)) as [->|Hne].
  - rewrite bool_decide_eq_true_2 by done. cbn.
    destruct (root_object _ _ _); cbn; naive_solver.
  - rewrite bool_decide_eq_false_2 by done. cbn.
    destruct (root_object _ _ _); cbn; naive_solver.
Qed.

(** ** The partition of a snapshot *)

(** However a snapshot loads, it is of this partition. *)
Definition of_partition (snapshot : bytes) (kind : DocumentKind) (p : bytes) : Prop :=
  ∀ actor e d, document_load snapshot actor kind e = Ok d → sd_partition d = p.

Lemma saved_partition d p i :
  am_visible (sd_document d) am_root !! PARTITION_KEY = Some [(AmScalar (scalar_bytes p), i)] →
  of_partition (am_save (sd_document d)).1 (sd_kind d) p.
Proof.
  intros Hp actor e d' Hl. unfold document_load in Hl.
  destruct (am_save_law (sd_document d)) as (_ & _ & a & Hload & Hkn & Hvis).
  rewrite Hload in Hl. cbn [automerge_error map_err mbind result_bind] in Hl.
  destruct (am_set_actor_law actor a) as [[Hkn' Hvis'] _].
  assert (am_visible (am_set_actor actor a) am_root = am_visible (sd_document d) am_root) as Hroot.
  { rewrite Hvis' by apply am_root_law. apply Hvis, am_root_law. }
  rewrite <- Hroot in Hp. apply bind_Ok in Hl as (f & _ & Hl). apply bind_Ok in Hl as (v & _ & Hl).
  rewrite (root_scalar_spec _ _ _ _ _ Hp), into_bytes_law in Hl. cbn [mbind result_bind ok_or] in Hl.
  apply bind_Ok in Hl as ([] & _ & Hl). apply bind_Ok in Hl as (o & _ & Hl). by injection Hl as <-.
Qed.

Lemma project_entries_root d keys p n p' n' :
  document_ok p → deadline_counts n → project_entries d keys p n = Ok (p', n') →
  am_visible (sd_document p') am_root = am_visible (sd_document p) am_root
  ∧ sd_kind p' = sd_kind p ∧ sd_partition p' = sd_partition p ∧ deadline_counts n'.
Proof.
  revert p n. induction keys as [|k keys IH]; intros p n Hp Hn Hpr; cbn [project_entries] in Hpr.
  { by injection Hpr as <- <-. }
  apply bind_Ok in Hpr as (values & _ & Hpr). apply bind_Ok in Hpr as (visible & _ & Hpr).
  apply bind_Ok in Hpr as (b & _ & Hpr).
  apply bind_Ok in Hpr as (dl & Hdl & Hpr). apply map_err_Ok in Hdl.
  apply bind_Ok in Hpr as (am & Ham & Hpr). apply map_err_Ok in Ham.
  apply am_put_law in Ham as (Hkn & _ & _ & _ & Hother); [|apply Hp].
  apply IH in Hpr as (Hroot & ? & ? & ?).
  - split_and!; [|done..]. rewrite Hroot. cbn. apply Hother; [apply am_root_law|].
    intros Hr. by apply Hp.
  - split; [apply Hkn, Hp|apply Hp].
  - destruct (rd_evict_at dl) as [x|] eqn:Hx; [|done].
    pose proof (deadline_unsigned _ _ _ Hdl Hx) as Hx0.
    intros y [= <-]. destruct n as [c|]; [|done]. specialize (Hn c eq_refl). lia.
Qed.

(** ** Groups *)

(** The result of a group: what a document of the same kind and partition persists. *)
Definition finished (d : SecretDocument) (m : DocumentMutation) : Prop :=
  dm_partition m = sd_partition d ∧ of_partition (dm_snapshot m) (sd_kind d) (sd_partition d)
  ∧ deadline_counts (dm_next_eviction m).

Lemma finish_finished d m d' :
  document_ok d → finish_mutation d = (Ok m, d') → finished d m.
Proof.
  intros Hd Hf. unfold finish_mutation in Hf.
  destruct (document_project d) as [[p n]|] eqn:Hproj; [|discriminate].
  destruct (am_save (sd_document p)) as [snapshot saved] eqn:Hsave. injection Hf as <- _.
  unfold document_project in Hproj. apply bind_Ok in Hproj as (p0 & Hnew & Hproj).
  apply bind_Ok in Hproj as (a & Ha & Hproj).
  apply document_new_spec in Hnew as (Hok & (_ & _ & (i & Hpart) & _) & Hk & Hp & _).
  apply project_metadata_spec in Ha as (Hok1 & _ & _ & Hpart1 & _); [|done].
  specialize (Hpart1 PARTITION_KEY). rewrite Hpart in Hpart1.
  apply project_entries_root in Hproj as (Hroot & Hk' & Hp' & Hn); [|done|done].
  cbn in Hk', Hp', Hroot. rewrite <- Hroot in Hpart1.
  apply saved_partition in Hpart1; [|by apply (bool_decide_unpack _)]. rewrite Hsave, Hk', Hk, Hp in Hpart1.
  split_and!; cbn; [congruence|done|done].
Qed.

Lemma finished_same d d1 m :
  sd_kind d1 = sd_kind d → sd_partition d1 = sd_partition d → finished d1 m → finished d m.
Proof. unfold finished. by intros -> ->. Qed.

Lemma finish_if_finished c d m d' :
  document_ok d → finish_if c d = (Ok (Some m), d') → finished d m.
Proof.
  intros Hd Hf. destruct c; [|discriminate]. apply sm_bind_Ok in Hf as (x & d1 & Hx & [= <- _]).
  by eapply finish_finished.
Qed.

(** A group whose steps stay in the document and that ends by finishing it. *)
Lemma transact_finished {A B} (m : DM A) (f : A → DM B) d r d' (P : B → DocumentMutation → Prop) :
  within m → (∀ a d1 b d2 x, document_ok d1 → f a d1 = (Ok b, d2) → P b x → finished d1 x) →
  document_ok d → transact (m ≫= f) d = (Ok r, d') → ∀ x, P r x → finished d x.
Proof.
  intros Hm Hfin Hd Ht x Hx. unfold transact in Ht.
  destruct ((m ≫= f) _) as [[b|e] d2] eqn:Hr; [|discriminate]. injection Ht as -> ->.
  apply sm_bind_Ok in Hr as (a & d1 & Hr & Hr').
  destruct (am_commit_law (sd_document d)) as ((Hkn & _) & _).
  apply Hm in Hr as (Hd1 & _ & _ & Hk & Hp); [|split; [apply Hkn, Hd|apply Hd]].
  eapply finished_same; [exact Hk|exact Hp|]. by eapply Hfin.
Qed.

Lemma document_put_finished d a value evict_at ctx m d' :
  document_ok d → document_put a value evict_at ctx d = (Ok m, d') → finished d m.
Proof.
  intros Hd Hp. eapply (transact_finished _ _ d m d' eq); [apply put_uncommitted_within| |done|done|done].
  intros u d1 b d2 x Hd1 Hf <-. by eapply finish_finished.
Qed.

Lemma document_apply_finished d ops ctx m d' :
  document_ok d → document_apply ops ctx d = (Ok (Some m), d') → finished d m.
Proof.
  intros Hd Hp. eapply (transact_finished _ _ d _ d' (λ r x, r = Some x));
    [apply apply_all_within| |done|done|done].
  intros c d1 b d2 x Hd1 Hf ->. by eapply finish_if_finished.
Qed.

Lemma document_remove_finished d a op m d' :
  document_ok d → document_remove a op d = (Ok (Some m), d') → finished d m.
Proof.
  intros Hd Hp. eapply (transact_finished _ _ d _ d' (λ r x, r = Some x));
    [apply delete_uncommitted_within| |done|done|done].
  intros c d1 b d2 x Hd1 Hf ->. by eapply finish_if_finished.
Qed.

Lemma document_purge_finished d now m d' :
  document_ok d → document_purge_expired now d = (Ok (Some m), d') → finished d m.
Proof.
  intros Hd Hp. eapply (transact_finished _ _ d _ d' (λ r x, r = Some x));
    [apply within_reading| |done|exact Hp|done].
  intros l d1 b d2 x Hd1 Hf ->. apply sm_bind_Ok in Hf as ([] & d3 & Hdel & Hf).
  apply delete_each_within in Hdel as (Hd3 & _ & _ & Hk & Hpt); [|done].
  eapply finished_same; [exact Hk|exact Hpt|]. by eapply finish_if_finished.
Qed.

Lemma document_clear_finished d n m d' :
  document_ok d → document_clear d = (Ok (Some (n, m)), d') → finished d m.
Proof.
  intros Hd Hp. unfold document_clear, transact in Hp.
  destruct (bool_decide _) in Hp; [discriminate|].
  match type of Hp with match ?x with _ => _ end = _ => destruct x as [[b|e] d2] eqn:Hr end;
    [|discriminate]. injection Hp as -> ->.
  apply sm_bind_Ok in Hr as ([] & d1 & Hc & Hr).
  destruct (am_commit_law (sd_document d)) as ((Hkn & _) & _).
  apply clear_keys_within in Hc as (Hd1 & _ & _ & Hk & Hpt); [|split; [apply Hkn, Hd|apply Hd]].
  apply sm_bind_Ok in Hr as (x & d3 & Hf & [= _ <- _]).
  eapply finished_same; [exact Hk|exact Hpt|]. by eapply finish_finished.
Qed.
End DocumentGroups.
