(* ===== verification/Database.v ===== *)
(** The vault's SQL database as the store worker uses it (src/src/vault/store/database.rs
    and the schema in src/src/vault/store/bootstrap.rs).  Columns hold dynamically typed
    values, tables are keyed by their primary keys, and any call to the database can
    fail: an oracle says which. *)
From Stdlib Require Import ZArith Lia Bool.
From stdpp Require Import base gmap strings list sets.
From S2P Require Import Prelude Core Address StoreSpec.

(** ** Values *)

Module Value.
Inductive value : Set :=
| Null
| Integer (i : Z)
| Real (bits : Z)
| Text (s : string)
| Blob (b : bytes).
End Value.
Abbreviation Value := Value.value.

#[export] Instance value_eq_dec : EqDecision Value.
Proof. solve_decision. Defined.

#[export] Program Instance value_countable : Countable Value :=
  inj_countable'
    (λ v, match v with
          | Value.Null => inl (inl ())
          | Value.Integer i => inl (inr (false, i))
          | Value.Real i => inl (inr (true, i))
          | Value.Text s => inr (inl s)
          | Value.Blob b => inr (inr b)
          end)
    (λ x : (() + (bool * Z)) + (string + bytes), match x with
          | inl (inl ()) => Value.Null
          | inl (inr (false, i)) => Value.Integer i
          | inl (inr (true, i)) => Value.Real i
          | inr (inl s) => Value.Text s
          | inr (inr b) => Value.Blob b
          end) _.
Next Obligation. by intros []. Qed.

(** *** Reading columns *)

Definition row_blob (v : Value) : VaultResult bytes :=
  match v with
  | Value.Blob b => Ok b
  | _ => Err (VaultError.InvalidData "database column is not a BLOB")
  end.

Definition row_optional_blob (v : Value) : VaultResult (option bytes) :=
  match v with
  | Value.Null => Ok None
  | Value.Blob b => Ok (Some b)
  | _ => Err (VaultError.InvalidData "database column is not a nullable BLOB")
  end.

Definition row_text (v : Value) : VaultResult string :=
  match v with
  | Value.Text s => Ok s
  | _ => Err (VaultError.InvalidData "database column is not text")
  end.

Definition row_integer (v : Value) : VaultResult Z :=
  match v with
  | Value.Integer i => Ok i
  | _ => Err (VaultError.InvalidData "database column is not an integer")
  end.

Definition I64_MAX : Z := 9223372036854775807.

Definition to_i64 (value : Z) : VaultResult Z :=
  _ ← fail_if (I64_MAX <? value) (VaultError.InvalidData "integer exceeds database range");
  Ok value.

Definition from_i64 (value : Z) (name : string) : VaultResult Z :=
  _ ← fail_if (value <? 0) (VaultError.InvalidData (name +:+ " is negative"));
  Ok value.

Definition row_deadline (v : Value) : VaultResult (option Z) :=
  match v with
  | Value.Null => Ok None
  | Value.Integer i => d ← from_i64 i "eviction deadline"; Ok (Some d)
  | _ => Err (VaultError.InvalidData "invalid eviction deadline")
  end.

Definition array_from_blob (n : nat) (b : bytes) (name : string) : VaultResult bytes :=
  _ ← fail_if (negb (bool_decide (length b = n)))
        (VaultError.InvalidData (name +:+ " has the wrong size"));
  Ok b.

Definition document_id_from_blob (b : bytes) : VaultResult bytes :=
  array_from_blob 32 b "document ID".

(** What a successful read says of the column. *)
Lemma row_blob_Ok v b : row_blob v = Ok b ↔ v = Value.Blob b.
Proof. destruct v; split; cbn; congruence. Qed.
Lemma row_integer_Ok v z : row_integer v = Ok z ↔ v = Value.Integer z.
Proof. destruct v; split; cbn; congruence. Qed.
Lemma row_text_Ok v s : row_text v = Ok s ↔ v = Value.Text s.
Proof. destruct v; split; cbn; congruence. Qed.
Lemma to_i64_Ok z x : to_i64 z = Ok x ↔ x = z ∧ z ≤ I64_MAX.
Proof.
  unfold to_i64. rewrite then_Ok, fail_if_Ok, Z.ltb_ge. split; [intros [? [= ->]]|intros [-> ?]]; done.
Qed.
Lemma from_i64_Ok z name x : from_i64 z name = Ok x ↔ x = z ∧ 0 ≤ z.
Proof.
  unfold from_i64. rewrite then_Ok, fail_if_Ok, Z.ltb_ge. split; [intros [? [= ->]]|intros [-> ?]]; done.
Qed.
Lemma array_from_blob_Ok n b name x : array_from_blob n b name = Ok x ↔ x = b ∧ length b = n.
Proof.
  unfold array_from_blob. rewrite then_Ok, fail_if_Ok, negb_false_iff, bool_decide_eq_true.
  split; [intros [? [= ->]]|intros [-> ?]]; done.
Qed.
Lemma document_id_from_blob_Ok b x : document_id_from_blob b = Ok x ↔ x = b ∧ length b = 32%nat.
Proof. apply array_from_blob_Ok. Qed.

(** Read successful column reads off the hypotheses. *)
Ltac inv_columns :=
  repeat match goal with
  | H : row_blob _ = Ok _ |- _ => apply row_blob_Ok in H
  | H : row_integer _ = Ok _ |- _ => apply row_integer_Ok in H
  | H : row_text _ = Ok _ |- _ => apply row_text_Ok in H
  | H : to_i64 _ = Ok _ |- _ => apply to_i64_Ok in H as [-> ?]
  | H : from_i64 _ _ = Ok _ |- _ => apply from_i64_Ok in H as [-> ?]
  | H : array_from_blob _ _ _ = Ok _ |- _ => apply array_from_blob_Ok in H as [-> ?]
  | H : document_id_from_blob _ = Ok _ |- _ => apply document_id_from_blob_Ok in H as [-> ?]
  end.

(** ** Tables *)

(** A row of [documents] beside its key, the document. *)
Record DocumentColumns : Set := {
  dc_vault_id : Value;
  dc_document_kind : Value;
  dc_generation : Value;
  dc_key_epoch : Value;
  dc_wrapped_dek : Value;
  dc_current_commit_id : Value;
  dc_next_eviction : Value
}.
#[export] Instance document_columns_eq_dec : EqDecision DocumentColumns.
Proof. solve_decision. Defined.

(** A row of [document_heads] beside its key, the document. *)
Record HeadColumns : Set := { hc_head_id : Value; hc_record : Value }.

(** A row of [protected_commits], the table of the schema before the manifest, beside
    its key, the commit. *)
Record CommitColumns : Set := {
  co_previous_commit_id : Value;
  co_document_id : Value;
  co_generation : Value;
  co_record : Value
}.

Record Tables : Type := {
  t_documents : gmap Value DocumentColumns;
  (** Snapshots by document and generation. *)
  t_snapshots : gmap (Value * Value) Value;
  t_heads : gmap Value HeadColumns;
  t_meta : gmap Value Value;
  t_commits : gmap Value CommitColumns;
  (** The identifiers in [vaults]. *)
  t_vaults : gset Value
}.

Definition set_documents (t : Tables) (m : gmap Value DocumentColumns) : Tables := {|
  t_documents := m; t_snapshots := t_snapshots t; t_heads := t_heads t; t_meta := t_meta t;
  t_commits := t_commits t; t_vaults := t_vaults t |}.
Definition set_snapshots (t : Tables) (m : gmap (Value * Value) Value) : Tables := {|
  t_documents := t_documents t; t_snapshots := m; t_heads := t_heads t; t_meta := t_meta t;
  t_commits := t_commits t; t_vaults := t_vaults t |}.
Definition set_heads (t : Tables) (m : gmap Value HeadColumns) : Tables := {|
  t_documents := t_documents t; t_snapshots := t_snapshots t; t_heads := m; t_meta := t_meta t;
  t_commits := t_commits t; t_vaults := t_vaults t |}.
Definition set_meta (t : Tables) (m : gmap Value Value) : Tables := {|
  t_documents := t_documents t; t_snapshots := t_snapshots t; t_heads := t_heads t; t_meta := m;
  t_commits := t_commits t; t_vaults := t_vaults t |}.
Definition set_commits (t : Tables) (m : gmap Value CommitColumns) : Tables := {|
  t_documents := t_documents t; t_snapshots := t_snapshots t; t_heads := t_heads t;
  t_meta := t_meta t; t_commits := m; t_vaults := t_vaults t |}.

(** *** Order of values *)

(** [ORDER BY] on one column: nulls, numbers, texts, blobs. *)
Definition value_rank (v : Value) : Z :=
  match v with
  | Value.Null => 0
  | Value.Integer _ | Value.Real _ => 1
  | Value.Text _ => 2
  | Value.Blob _ => 3
  end.

Definition value_ltb (a b : Value) : bool :=
  match a, b with
  | Value.Integer x, Value.Integer y => x <? y
  | Value.Text x, Value.Text y => str_ltb x y
  | Value.Blob x, Value.Blob y => bytes_ltb x y
  | _, _ => value_rank a <? value_rank b
  end.

Fixpoint insert_row {A} (lt : A → A → bool) (x : A) (l : list A) : list A :=
  match l with
  | [] => [x]
  | y :: l' => if lt y x then y :: insert_row lt x l' else x :: l
  end.
Definition order_by {A} (lt : A → A → bool) (l : list A) : list A := foldr (insert_row lt) [] l.

Lemma insert_row_perm {A} (lt : A → A → bool) x l : insert_row lt x l ≡ₚ x :: l.
Proof.
  induction l as [|y l IH]; cbn; [done|]. destruct (lt _ _); [|done].
  rewrite IH. apply Permutation_swap.
Qed.

Lemma order_by_perm {A} (lt : A → A → bool) l : order_by lt l ≡ₚ l.
Proof. induction l as [|x l IH]; cbn; [done|]. by rewrite insert_row_perm, IH. Qed.

(** [SELECT … FROM documents ORDER BY document_id] and the like. *)
Definition rows_by_key {A} (m : gmap Value A) : list (Value * A) :=
  order_by (λ a b, value_ltb a.1 b.1) (map_to_list m).

(** *** Statements of the worker *)

Definition document_key (id : bytes) : Value := Value.Blob id.
Definition META_MANIFEST : Value := Value.Text "current-state-manifest".
Definition META_HEAD : Value := Value.Text "current-commit-head".
Definition META_SCHEMA : Value := Value.Text "schema-version".

(** [SELECT envelope FROM document_snapshots WHERE document_id = ?1 AND generation = ?2]. *)
Definition select_snapshot (t : Tables) (id : bytes) (generation : Z) : option Value :=
  t_snapshots t !! (document_key id, Value.Integer generation).

(** [SELECT record FROM document_heads WHERE document_id = ?1 AND head_id = ?2]. *)
Definition select_head (t : Tables) (id head_id : bytes) : option Value :=
  match t_heads t !! document_key id with
  | Some h => if bool_decide (hc_head_id h = Value.Blob head_id) then Some (hc_record h) else None
  | None => None
  end.

(** [DELETE FROM document_snapshots WHERE document_id = ?1]. *)
Definition delete_snapshots (t : Tables) (id : bytes) : Tables :=
  set_snapshots t (filter (λ kv, kv.1.1 ≠ document_key id) (t_snapshots t)).

(** Whether a snapshot belongs to the current generation of a document. *)
Definition snapshot_is_current (t : Tables) (key : Value * Value) : bool :=
  match t_documents t !! key.1 with
  | Some d => bool_decide (dc_generation d = key.2)
  | None => false
  end.

(** The [WITH RECURSIVE] query over [protected_commits]: a commit and its ancestors. *)
Fixpoint commit_rows (t : Tables) (n : nat) (id : Value) : list (Value * CommitColumns) :=
  match n with
  | O => []
  | S n =>
      match id, t_commits t !! id with
      | Value.Null, _ | _, None => []
      | _, Some c => (id, c) :: commit_rows t n (co_previous_commit_id c)
      end
  end.

(** ** Calls *)

(** What the environment does to the worker: which database call fails, when sealing is
    requested or the lease runs out, when memory cannot be locked. *)
Record Environment : Type := {
  env_fault : nat → option string;
  env_sealed : nat → bool;
  env_memory : nat → option string;
  (** [PRAGMA page_count], [freelist_count] and [page_size]. *)
  env_pages : nat → Z * Z * Z
}.

Definition quiet_environment : Environment := {|
  env_fault := λ _, None; env_sealed := λ _, false; env_memory := λ _, None;
  env_pages := λ _, (0, 0, 4096) |}.

(** [getrandom]: the draw of a step, its index within the step and the bytes wanted. *)
Class Random := random_fill : nat → nat → nat → VaultResult bytes.
Class RandomOk `{Random} : Prop :=
  random_length tick i n b : random_fill tick i n = Ok b → length b = n.
