(* ===== verification/Policy.v ===== *)
(** Unlock policies (src/src/vault/seal/policy.rs) and the cryptographic profile of a
    vault (seal/profile.rs): the factors of a group are all required, the groups of a
    policy are alternatives.  The ordered set and the binary search of the standard
    library are translated as the source uses them.  The rules for a new password are
    those of src/src/security/password.rs, over the [zxcvbn] crate as a parameter. *)
From Stdlib Require Import ZArith Lia Bool.
From stdpp Require Import base gmap strings list sorting.
From S2P Require Import Prelude Text Core Address.

(** ** Ordered sets and binary search *)

Section Ordered.
Context {A : Type} (rank : A → Z).

(** [BTreeSet::insert] on the ascending elements; an equal element stays. *)
Fixpoint btree_insert (x : A) (l : list A) : list A :=
  match l with
  | [] => [x]
  | y :: l' =>
      if rank x <? rank y then x :: l
      else if rank x =? rank y then l
      else y :: btree_insert x l'
  end.
Definition btree_collect (l : list A) : list A := foldl (λ set x, btree_insert x set) [] l.

(** [slice::binary_search]: halve the window, keep its upper half when the probe is not
    above the target, and compare the last element left. *)
Fixpoint search_window (fuel : nat) (x : Z) (l : list A) (base size : nat) : nat :=
  match fuel with
  | O => base
  | S fuel =>
      if (size <=? 1)%nat then base
      else
        let half := (size / 2)%nat in
        let mid := (base + half)%nat in
        let base' := match l !! mid with
                     | Some y => if x <? rank y then base else mid
                     | None => base
                     end in
        search_window fuel x l base' (size - half)
  end.
Definition binary_search (x : Z) (l : list A) : bool :=
  match l !! search_window (length l) x l 0 (length l) with
  | Some y => x =? rank y
  | None => false
  end.

(** Strictly ascending. *)
Definition ascending (l : list A) : Prop := StronglySorted (λ x y, rank x < rank y) l.

Lemma btree_insert_Forall x y l :
  rank y < rank x → Forall (λ z, rank y < rank z) l → Forall (λ z, rank y < rank z) (btree_insert x l).
Proof.
  intros Hx. induction 1 as [|z l Hz Hl IH]; cbn; [by repeat constructor|].
  repeat case_match; repeat constructor; done.
Qed.

Lemma btree_insert_ascending x l : ascending l → ascending (btree_insert x l).
Proof.
  induction 1 as [|y l Hl IH Hy]; cbn; [by repeat constructor|].
  destruct (Z.ltb_spec (rank x) (rank y)).
  - constructor; [by constructor|]. constructor; [done|].
    eapply Forall_impl; [exact Hy|]. cbn. lia.
  - destruct (Z.eqb_spec (rank x) (rank y)); [by constructor|].
    constructor; [done|]. apply btree_insert_Forall; [lia|done].
Qed.

Lemma btree_collect_ascending l : ascending (btree_collect l).
Proof.
  unfold btree_collect. assert (ascending []) as H by constructor. revert H.
  generalize (@nil A). induction l as [|x l IH]; intros acc Hacc; cbn; [done|].
  by apply IH, btree_insert_ascending.
Qed.

Lemma length_btree_insert x l : (length (btree_insert x l) ≤ S (length l))%nat.
Proof. induction l as [|y l IH]; cbn; [done|]. repeat case_match; cbn; lia. Qed.

Lemma btree_insert_last x l :
  Forall (λ y, rank y < rank x) l → btree_insert x l = l ++ [x].
Proof.
  induction 1 as [|y l Hy Hl IH]; cbn; [done|].
  destruct (Z.ltb_spec (rank x) (rank y)); [lia|].
  destruct (Z.eqb_spec (rank x) (rank y)); [lia|]. by rewrite IH.
Qed.

(** Collecting an ascending list changes nothing. *)
Lemma btree_collect_id l : ascending l → btree_collect l = l.
Proof.
  intros Hl. unfold btree_collect. change l with ([] ++ l) at 2.
  assert (ascending ([] ++ l)) as H by done. clear Hl. revert H.
  generalize (@nil A) as acc.
  induction l as [|x l IH]; intros acc Hacc; cbn; [by rewrite app_nil_r|].
  assert (Forall (λ y, rank y < rank x) acc) as Hlt.
  { apply Forall_forall. intros y Hy. apply (StronglySorted_app_1_elem_of (λ x y, rank x < rank y) acc (x :: l)); [done..|].
    by left. }
  rewrite btree_insert_last by done. rewrite (cons_middle x acc l), (app_assoc acc [x] l) in Hacc |- *.
  by apply IH.
Qed.

Lemma ascending_lookup_lt l i j x y :
  ascending l → l !! i = Some x → l !! j = Some y → (i < j)%nat → rank x < rank y.
Proof.
  intros Hl. revert i j. induction Hl as [|z l Hl IH Hz]; intros i j Hi Hj Hlt; [done|].
  destruct i as [|i], j as [|j]; cbn in *; try lia.
  - injection Hi as <-. eapply Forall_lookup_1 in Hj; [|exact Hz]. done.
  - apply (IH i j); [done..|lia].
Qed.

(** The window keeps the position of the target. *)
Lemma search_window_finds fuel l base size i x :
  ascending l → l !! i = Some x → (base ≤ i < base + size)%nat →
  (base + size ≤ length l)%nat → (size ≤ S fuel)%nat →
  search_window fuel (rank x) l base size = i.
Proof.
  revert base size. induction fuel as [|fuel IH]; intros base size Hl Hi Hin Hlen Hfuel;
    cbn [search_window]; [lia|].
  destruct (Nat.leb_spec size 1); [lia|].
  pose proof (Nat.div_mod_eq size 2). pose proof (Nat.mod_upper_bound size 2).
  destruct (lookup_lt_is_Some_2 l (base + size / 2)) as [y Hy]; [lia|].
  cbv zeta. rewrite Hy. destruct (Z.ltb_spec (rank x) (rank y)).
  - apply IH; [done..| |lia|lia]. assert (i < base + size / 2)%nat; [|lia].
    destruct (Nat.lt_trichotomy i (base + size / 2)) as [?|[->|Hgt]]; [lia| |].
    + rewrite Hi in Hy. injection Hy as <-. lia.
    + pose proof (ascending_lookup_lt _ _ _ _ _ Hl Hy Hi Hgt). lia.
  - apply IH; [done..| |lia|lia]. assert (base + size / 2 ≤ i)%nat; [|lia].
    destruct (Nat.lt_ge_cases i (base + size / 2)) as [Hlt|]; [|lia].
    pose proof (ascending_lookup_lt _ _ _ _ _ Hl Hi Hy Hlt). lia.
Qed.

(** On an ascending list the search decides membership. *)
Lemma binary_search_spec x l :
  ascending l → binary_search x l = true ↔ ∃ y, y ∈ l ∧ rank y = x.
Proof.
  intros Hl. unfold binary_search. split.
  - destruct (l !! _) as [y|] eqn:Hy; [|done]. intros ->%Z.eqb_eq.
    exists y. split; [by eapply list_elem_of_lookup_2|done].
  - intros (y & Hy & <-). apply list_elem_of_lookup in Hy as [i Hi].
    pose proof (lookup_lt_Some _ _ _ Hi).
    rewrite (search_window_finds _ _ _ _ i) by (done || lia). rewrite Hi. by apply Z.eqb_eq.
Qed.
End Ordered.

(** ** Factors *)

Module UnlockFactorKind.
Inductive kind : Set := Password | Biometric.
End UnlockFactorKind.
#[export] Instance factor_kind_eq_dec : EqDecision UnlockFactorKind.kind.
Proof. solve_decision. Defined.

(** The derived order is the order of declaration. *)
Definition factor_rank (k : UnlockFactorKind.kind) : Z :=
  match k with UnlockFactorKind.Password => 0 | UnlockFactorKind.Biometric => 1 end.

Definition factor_as_str (k : UnlockFactorKind.kind) : string :=
  match k with
  | UnlockFactorKind.Password => "password"
  | UnlockFactorKind.Biometric => "biometric"
  end.

Definition factor_from_str (value : string) : VaultResult UnlockFactorKind.kind :=
  if String.eqb value "password" then Ok UnlockFactorKind.Password
  else if String.eqb value "biometric" then Ok UnlockFactorKind.Biometric
  else Err (VaultError.Protection
         ("unknown unlock factor `" +:+ value +:+ "`; expected password or biometric")).

(** ** Groups *)

Record UnlockGroup : Set := { ug_factors : list UnlockFactorKind.kind }.
#[export] Instance unlock_group_eq_dec : EqDecision UnlockGroup.
Proof. solve_decision. Defined.

Definition group_new (supplied : list UnlockFactorKind.kind) : VaultResult UnlockGroup :=
  let canonical := btree_collect factor_rank supplied in
  _ ← fail_if (bool_decide (canonical = []))
        (VaultError.Protection "an unlock group must contain at least one factor");
  _ ← fail_if (negb (length canonical =? length supplied)%nat)
        (VaultError.Protection "an unlock group contains a repeated factor");
  Ok {| ug_factors := canonical |}.

Definition requires (g : UnlockGroup) (factor : UnlockFactorKind.kind) : bool :=
  binary_search factor_rank (factor_rank factor) (ug_factors g).

Definition group_validate (g : UnlockGroup) : VaultResult () :=
  _ ← group_new (ug_factors g); Ok tt.

(** [Display]: the factors with commas between them. *)
Fixpoint join_factors (index : nat) (l : list UnlockFactorKind.kind) : string :=
  match l with
  | [] => ""
  | factor :: l =>
      (if (index =? 0)%nat then "" else ",") +:+ factor_as_str factor
      +:+ join_factors (S index) l
  end.
Definition group_display (g : UnlockGroup) : string := join_factors 0 (ug_factors g).

Definition group_from_str (value : string) : VaultResult UnlockGroup :=
  factors ← try_collect (λ piece, factor_from_str (of_bytes (str_trim piece)))
              (str_split Byte.x2c (as_bytes value));
  group_new factors.

(** ** Policies *)

Definition UNLOCK_POLICY_VERSION : Z := 1.
Definition MAX_UNLOCK_GROUPS : nat := 8.

Record UnlockPolicy : Set := { up_version : Z; up_groups : list UnlockGroup }.

(** The loop over [groups[..index].contains(group)]. *)
Fixpoint repeated_group (seen groups : list UnlockGroup) : bool :=
  match groups with
  | [] => false
  | group :: rest => bool_decide (group ∈ seen) || repeated_group (seen ++ [group]) rest
  end.

Definition unlock_policy_validate (p : UnlockPolicy) : VaultResult () :=
  _ ← fail_if (negb (up_version p =? UNLOCK_POLICY_VERSION)
               || bool_decide (up_groups p = [])
               || (MAX_UNLOCK_GROUPS <? length (up_groups p))%nat)
        (VaultError.Protection "unsupported or invalid unlock policy");
  _ ← try_collect group_validate (up_groups p);
  fail_if (repeated_group [] (up_groups p))
    (VaultError.Protection "unlock policy contains a repeated group").

Definition policy_new (groups : list UnlockGroup) : VaultResult UnlockPolicy :=
  let policy := {| up_version := UNLOCK_POLICY_VERSION; up_groups := groups |} in
  _ ← unlock_policy_validate policy;
  Ok policy.

(** ** Credentials and profiles *)

Record UnlockCredentials : Set := { uc_password : option bytes }.

Definition password_for (c : UnlockCredentials) (group : UnlockGroup)
    : VaultResult (option bytes) :=
  if negb (requires group UnlockFactorKind.Password) then Ok None
  else
    password ← ok_or (VaultError.Protection
                 ("the " +:+ group_display group +:+ " unlock group requires a password"))
                 (uc_password c);
    _ ← fail_if (bool_decide (password = []))
          (VaultError.Protection "the password factor must not be empty");
    Ok (Some password).

Module VaultCryptoProfile.
Inductive profile : Set := Default | Fips.
End VaultCryptoProfile.

Definition profile_as_str (p : VaultCryptoProfile.profile) : string :=
  match p with
  | VaultCryptoProfile.Default => "default"
  | VaultCryptoProfile.Fips => "fips"
  end.

(** ** New passwords *)

(** The [zxcvbn] crate: the score of a text, from 0 to 4, and its feedback. *)
Class Zxcvbn := {
  zxcvbn_score : bytes → Z;
  zxcvbn_feedback : bytes → option string
}.

Definition validate_new_password `{Zxcvbn} (password : bytes) : result string () :=
  _ ← fail_if (64 * 1024 <? Z.of_nat (length password)) "password must not exceed 64 KiB";
  _ ← fail_if (negb (utf8_valid password)) "new passwords must be valid UTF-8";
  if 3 <=? zxcvbn_score password then Ok tt
  else
    let guidance :=
      match zxcvbn_feedback password with
      | Some feedback =>
          if String.eqb feedback "" then "Use a few uncommon words that are easy to remember."
          else feedback
      | None => "Use a few uncommon words that are easy to remember."
      end in
    Err ("Choose a stronger password. " +:+ guidance).

(** [password_score]. *)
Definition password_score `{Zxcvbn} (password : bytes) : Z :=
  if 64 * 1024 <? Z.of_nat (length password) then 0 else zxcvbn_score password.

(** * What unlock groups and policies guarantee: a group made from factors is canonical, asks
    for exactly the factors it was made from and survives its text form; a policy has
    between one and eight distinct groups.  A stored group that is not in canonical order
    is accepted although its factors are not all found in it. *)

Lemma factor_rank_inj k k' : factor_rank k = factor_rank k' → k = k'.
Proof. by destruct k, k'. Qed.

(** In canonical order, at least one factor, none repeated. *)
Definition canonical (g : UnlockGroup) : Prop :=
  ascending factor_rank (ug_factors g) ∧ ug_factors g ≠ [].

Section BTree.
Context {A : Type} `{EqDecision A} (rank : A → Z).
Hypothesis rank_inj : ∀ x y, rank x = rank y → x = y.

Lemma btree_insert_elem x y l : y ∈ btree_insert rank x l ↔ y = x ∨ y ∈ l.
Proof.
  induction l as [|z l IH]; cbn; [set_solver|].
  destruct (rank x <? rank z); [set_solver|].
  destruct (Z.eqb_spec (rank x) (rank z)) as [Heq|]; [apply rank_inj in Heq; set_solver|].
  set_solver.
Qed.

Lemma btree_insert_new x l : x ∉ l → btree_insert rank x l ≡ₚ x :: l.
Proof.
  induction l as [|z l IH]; intros Hx; cbn; [done|].
  destruct (rank x <? rank z); [done|].
  destruct (Z.eqb_spec (rank x) (rank z)) as [Heq|]; [apply rank_inj in Heq; set_solver|].
  rewrite IH by set_solver. apply Permutation_swap.
Qed.

Lemma btree_insert_old x l :
  ascending rank l → x ∈ l → btree_insert rank x l = l.
Proof.
  induction 1 as [|z l Hl IH Hz]; intros Hx; cbn; [by apply elem_of_nil in Hx|].
  rewrite Forall_forall in Hz. apply elem_of_cons in Hx as [->|Hx].
  - by rewrite Z.ltb_irrefl, Z.eqb_refl.
  - specialize (Hz x Hx). cbn in Hz.
    destruct (Z.ltb_spec (rank x) (rank z)); [lia|].
    destruct (Z.eqb_spec (rank x) (rank z)); [lia|]. by rewrite IH.
Qed.

(** Collecting keeps the elements, and their number exactly when none is repeated. *)
Lemma btree_foldl l acc :
  ascending rank acc → NoDup acc →
  let r := foldl (λ set x, btree_insert rank x set) acc l in
  (∀ x, x ∈ r ↔ x ∈ acc ∨ x ∈ l)
  ∧ (length r ≤ length acc + length l)%nat
  ∧ (length r = (length acc + length l)%nat ↔ NoDup (acc ++ l)).
Proof.
  revert acc. induction l as [|x l IH]; intros acc Ha Hnd; cbn.
  - rewrite app_nil_r. split_and!; [set_solver|lia|]. split; [done|]. intros _. lia.
  - destruct (IH (btree_insert rank x acc)) as (He & Hle & Hlen).
    { by apply btree_insert_ascending. }
    { destruct (decide (x ∈ acc)) as [Hin|Hin].
      - by rewrite btree_insert_old.
      - rewrite btree_insert_new by done. by constructor. }
    cbn in *. split_and!.
    + intros y. rewrite He, btree_insert_elem. set_solver.
    + pose proof (length_btree_insert rank x acc). lia.
    + destruct (decide (x ∈ acc)) as [Hin|Hin].
      * rewrite btree_insert_old in * by done. split; [lia|].
        intros Hd. apply NoDup_app in Hd as (_ & Hd & _). specialize (Hd x Hin). set_solver.
      * pose proof (btree_insert_new x acc Hin) as Hp.
        rewrite (Permutation_length Hp) in Hlen. rewrite <- Permutation_middle.
        change (x :: acc ++ l) with ((x :: acc) ++ l). rewrite <- Hp, Nat.add_succ_r. exact Hlen.
Qed.
End BTree.

(** ** Groups *)

Lemma group_new_Ok supplied g :
  group_new supplied = Ok g ↔
    supplied ≠ [] ∧ NoDup supplied ∧ ug_factors g = btree_collect factor_rank supplied.
Proof.
  unfold group_new.
  destruct (btree_foldl factor_rank factor_rank_inj supplied []) as (He & _ & Hlen);
    [constructor..|]. fold (btree_collect factor_rank supplied) in *. cbn in Hlen, He.
  assert (btree_collect factor_rank supplied = [] ↔ supplied = []) as Hnil.
  { split; intros Hn; [|by subst].
    destruct supplied as [|x l]; [done|]. exfalso.
    assert (x ∈ btree_collect factor_rank (x :: l)) as Hx by (apply He; set_solver).
    rewrite Hn in Hx. by apply elem_of_nil in Hx. }
  split.
  - intros Hg. inv_ok. bool_prop. subst. tauto.
  - intros (Hne & Hnd & Heq). rewrite bool_decide_eq_false_2 by tauto. cbn.
    apply Hlen in Hnd. rewrite Hnd, Nat.eqb_refl. cbn. destruct g. cbn in *. by subst.
Qed.

Lemma group_new_canonical supplied g :
  group_new supplied = Ok g → canonical g ∧ ∀ k, k ∈ ug_factors g ↔ k ∈ supplied.
Proof.
  intros (Hne & Hnd & Heq)%group_new_Ok.
  destruct (btree_foldl factor_rank factor_rank_inj supplied []) as (He & _ & _); [constructor..|].
  fold (btree_collect factor_rank supplied) in He. rewrite <- Heq in He.
  split; [|intros k; rewrite He; set_solver]. split.
  - rewrite Heq. apply btree_collect_ascending.
  - destruct supplied as [|x l]; [done|]. intros Hn.
    assert (x ∈ ug_factors g) as Hx by (apply He; set_solver). rewrite Hn in Hx.
    by apply elem_of_nil in Hx.
Qed.

Lemma requires_spec g k : ascending factor_rank (ug_factors g) → requires g k = true ↔ k ∈ ug_factors g.
Proof.
  intros Ha. unfold requires. rewrite (binary_search_spec factor_rank) by done. split.
  - by intros (y & Hy & <-%factor_rank_inj).
  - eauto.
Qed.

(** A list of factors in order is one of these. *)
Lemma canonical_cases g :
  canonical g →
  g = {| ug_factors := [UnlockFactorKind.Password] |}
  ∨ g = {| ug_factors := [UnlockFactorKind.Biometric] |}
  ∨ g = {| ug_factors := [UnlockFactorKind.Password; UnlockFactorKind.Biometric] |}.
Proof.
  destruct g as [l]. intros [Ha Hne]. cbn in *.
  destruct Ha as [|x l Ha Hx]; [done|]. destruct Ha as [|y l Ha Hy].
  - destruct x; auto.
  - apply Forall_cons_1 in Hx as [Hxy Hx]. destruct x, y; cbn in Hxy; try lia.
    destruct l as [|z l]; [auto|]. apply Forall_cons_1 in Hy as [Hyz _]. destruct z; cbn in Hyz; lia.
Qed.

Lemma canonical_group_new g : canonical g → group_new (ug_factors g) = Ok g.
Proof. intros [->|[->| ->]]%canonical_cases; vm_compute; reflexivity. Qed.

Lemma canonical_validates g : canonical g → group_validate g = Ok tt.
Proof. intros Hg. unfold group_validate. by rewrite canonical_group_new. Qed.

Lemma canonical_text g : canonical g → group_from_str (group_display g) = Ok g.
Proof. intros [->|[->| ->]]%canonical_cases; vm_compute; reflexivity. Qed.

(** C24: a group asks for exactly the factors it was made from.  The binary search over its
    canonical factors is membership in the list the caller gave, in whatever order; the
    same factors in another order make the same group; and the text of the group parses
    back to it. *)
Theorem group_requires_its_factors supplied g :
  group_new supplied = Ok g →
  (∀ k, requires g k = true ↔ k ∈ supplied)
  ∧ (∀ supplied', supplied' ≡ₚ supplied → group_new supplied' = Ok g)
  ∧ group_validate g = Ok tt
  ∧ group_from_str (group_display g) = Ok g.
Proof.
  intros Hg. pose proof Hg as [Hc He]%group_new_canonical. split_and!.
  - intros k. rewrite requires_spec by apply Hc. apply He.
  - intros supplied' Hp. apply group_new_Ok in Hg as (Hne & Hnd & _).
    assert (group_new supplied' = Ok {| ug_factors := btree_collect factor_rank supplied' |})
      as Hg'.
    { apply group_new_Ok. split_and!; [|by rewrite Hp|done].
      intros ->. by apply Permutation_nil_l in Hp. }
    rewrite Hg'. revert Hg'. generalize {| ug_factors := btree_collect factor_rank supplied' |}.
    intros g' Hg'.
    apply group_new_canonical in Hg' as [Hc' He'].
    assert (∀ k, k ∈ ug_factors g' ↔ k ∈ ug_factors g) as Hsame
      by (intros k; by rewrite He', He, Hp). f_equal.
    apply canonical_cases in Hc as [->|[->| ->]], Hc' as [->|[->| ->]]; try done; exfalso;
      pose proof (Hsame UnlockFactorKind.Password); pose proof (Hsame UnlockFactorKind.Biometric);
      cbn in *; set_solver.
  - by apply canonical_validates.
  - by apply canonical_text.
Qed.

Example group_requires_its_factors_witness :
  requires {| ug_factors := [UnlockFactorKind.Password; UnlockFactorKind.Biometric] |}
    UnlockFactorKind.Biometric = true
  ∧ group_from_str "password,biometric"
    = Ok {| ug_factors := [UnlockFactorKind.Password; UnlockFactorKind.Biometric] |}.
Proof.
  destruct (group_requires_its_factors
    [UnlockFactorKind.Biometric; UnlockFactorKind.Password]
    {| ug_factors := [UnlockFactorKind.Password; UnlockFactorKind.Biometric] |} eq_refl)
    as (Hr & _ & _ & Ht).
  split; [apply Hr; left|exact Ht].
Defined.

(** ** Policies *)

Lemma repeated_group_false seen groups :
  repeated_group seen groups = false ↔ NoDup groups ∧ ∀ g, g ∈ groups → g ∉ seen.
Proof.
  revert seen. induction groups as [|g groups IH]; intros seen; cbn.
  - split; [|done]. intros _. split; [constructor|]. intros g Hg. by apply elem_of_nil in Hg.
  - rewrite orb_false_iff, bool_decide_eq_false, IH. split.
    + intros (Hg & Hnd & Hnew). split; [constructor; [|done]|].
      * intros Hin. apply (Hnew g Hin). set_solver.
      * intros g' [->|Hin]%elem_of_cons; [done|]. specialize (Hnew g' Hin). set_solver.
    + intros [[Hg Hnd]%NoDup_cons Hnew]. split_and!; [apply Hnew; set_solver|done|].
      intros g' Hin. specialize (Hnew g' ltac:(set_solver)). set_solver.
Qed.

Lemma collect_units {A} (f : A → VaultResult ()) l :
  (∃ r, try_collect f l = Ok r) ↔ Forall (λ x, f x = Ok tt) l.
Proof.
  induction l as [|x l IH]; cbn.
  - split; [constructor|eauto].
  - rewrite Forall_cons, <- IH. setoid_rewrite bind_Ok. setoid_rewrite bind_Ok. split.
    + intros (r & [] & Hx & ys & Hys & _). eauto.
    + intros [Hx [ys Hys]]. do 2 eexists. split; [exact Hx|]. by exists ys.
Qed.

Lemma policy_validate_Ok p :
  unlock_policy_validate p = Ok tt ↔
    up_version p = UNLOCK_POLICY_VERSION
    ∧ (0 < length (up_groups p) ≤ MAX_UNLOCK_GROUPS)%nat
    ∧ Forall (λ g, group_validate g = Ok tt) (up_groups p) ∧ NoDup (up_groups p).
Proof.
  assert (up_groups p = [] ↔ length (up_groups p) = 0%nat) as Hlen
    by (destruct (up_groups p); cbn; split; done).
  unfold unlock_policy_validate. rewrite then_Ok, fail_if_Ok, bind_Ok, <- collect_units. split.
  - intros (Hf & r & Hr & Hrep%fail_if_Ok%repeated_group_false).
    bool_prop. destruct Hf as [[Hv Hn] Hl]. split_and!; [done| |lia|eauto|tauto].
    destruct (up_groups p); cbn in *; [by destruct Hn|lia].
  - intros (Hv & Hl & [r Hr] & Hnd). split.
    + rewrite Hv, Z.eqb_refl. cbn [negb orb]. rewrite orb_false_iff. split; [|apply Nat.ltb_ge; lia].
      apply bool_decide_eq_false. intros Hn%Hlen. lia.
    + exists r. split; [done|]. apply fail_if_Ok, repeated_group_false. split; [done|].
      intros g _ Hg. by apply elem_of_nil in Hg.
Qed.

(** Whether a policy is one its constructor gives: the type the code means. *)
Definition policy_wf (p : UnlockPolicy) : Prop :=
  up_version p = UNLOCK_POLICY_VERSION
  ∧ (0 < length (up_groups p) ≤ MAX_UNLOCK_GROUPS)%nat
  ∧ Forall canonical (up_groups p) ∧ NoDup (up_groups p).

(** The constructor of policies is a typing rule.  From groups made by the constructor
    of groups it accepts exactly the lists of one to eight distinct groups, and gives a
    well-formed policy of those groups, which validates whenever it is read again. *)
Theorem policy_new_well_formed factors groups :
  Forall2 (λ supplied g, group_new supplied = Ok g) factors groups →
  (is_ok (policy_new groups) = true ↔ (0 < length groups ≤ 8)%nat ∧ NoDup groups)
  ∧ ∀ p, policy_new groups = Ok p → up_groups p = groups ∧ policy_wf p ∧ unlock_policy_validate p = Ok tt.
Proof.
  intros Hnew. assert (Forall canonical groups) as Hc.
  { eapply Forall2_Forall_r; [exact Hnew|]. apply Forall_forall. intros supplied _ g Hg.
    by apply group_new_canonical in Hg as [? _]. }
  assert (Forall (λ g, group_validate g = Ok tt) groups) as Hv
    by (eapply Forall_impl; [exact Hc|apply canonical_validates]).
  unfold policy_new. set (p := {| up_version := _; up_groups := groups |}).
  assert (unlock_policy_validate p = Ok tt ↔ (0 < length groups ≤ 8)%nat ∧ NoDup groups) as Hp.
  { rewrite policy_validate_Ok. cbn. unfold MAX_UNLOCK_GROUPS. tauto. }
  split.
  - rewrite <- Hp. destruct (unlock_policy_validate p) as [[]|]; cbn; by split.
  - intros q Hq. inv_ok. pose proof Ha as [? ?]%Hp. done.
Qed.

Example policy_new_well_formed_witness :
  is_ok (policy_new [{| ug_factors := [UnlockFactorKind.Password] |}]) = true.
Proof.
  apply (policy_new_well_formed [[UnlockFactorKind.Password]]
    [{| ug_factors := [UnlockFactorKind.Password] |}]).
  - repeat constructor.
  - split; [cbn; lia|]. apply NoDup_singleton.
Defined.

(** ** Stored groups *)

(** Metadata that lists the factors of a group in the other order passes validation, but
    the search does not find the biometric factor: opening the group asks for no biometric
    approval. *)
Theorem stored_order_hides_biometric :
  let stored :=
    {| ug_factors := [UnlockFactorKind.Biometric; UnlockFactorKind.Password] |} in
  group_validate stored = Ok tt
  ∧ unlock_policy_validate {| up_version := 1; up_groups := [stored] |} = Ok tt
  ∧ UnlockFactorKind.Biometric ∈ ug_factors stored
  ∧ requires stored UnlockFactorKind.Password = true
  ∧ requires stored UnlockFactorKind.Biometric = false.
Proof. split_and!; try (vm_compute; reflexivity). left. Qed.
