(* ===== verification/Factor.v ===== *)
(** The factor nested inside the hardware wrapping of the root key
    (src/src/vault/seal/factor.rs): recorded parameters of the password derivation, their
    bounds, and the encryption of the root key under the derived key.  Argon2id and PBKDF2
    are parameters; the salt and the nonce are drawn by the caller. *)
From Stdlib Require Import ZArith Lia Bool.
From stdpp Require Import base gmap strings list pretty.
From S2P Require Import Prelude Core Address Signature Manifest Envelope.
From S2P Require Import Policy.

Definition SALT_BYTES : Z := 16.
Definition ARGON2_MEMORY_KIB : Z := 128 * 1024.
Definition ARGON2_ITERATIONS : Z := 3.
Definition ARGON2_PARALLELISM : Z := 1.
Definition MAX_ARGON2_MEMORY_KIB : Z := 256 * 1024.
Definition MAX_ARGON2_ITERATIONS : Z := 10.
Definition MAX_ARGON2_PARALLELISM : Z := 16.
Definition PBKDF2_ITERATIONS : Z := 600000.
Definition MIN_PBKDF2_ITERATIONS : Z := 1000.
Definition MAX_PBKDF2_ITERATIONS : Z := 10000000.

(** The [argon2] and [pbkdf2] crates: [Params::new] with the number of memory blocks, and
    the derivations of 32 bytes from the password and the salt. *)
Class PasswordKdf := {
  argon2_block_count : Z → Z → Z → result string Z;
  argon2id : Z → Z → Z → bytes → bytes → result string bytes;
  pbkdf2_hmac_sha256 : bytes → bytes → Z → bytes
}.

Module FactorParameters.
Inductive parameters : Set :=
| Argon2id (version memory_kib iterations parallelism : Z) (salt : bytes)
| Pbkdf2HmacSha256 (iterations : Z) (salt : bytes).
End FactorParameters.

Module NestedFactorKind.
Inductive kind : Set := Password | Argon2idPassword | Pbkdf2HmacSha256Password.
End NestedFactorKind.

Definition nested_kind_as_str (k : NestedFactorKind.kind) : string :=
  match k with
  | NestedFactorKind.Password => "password"
  | NestedFactorKind.Argon2idPassword => "argon2id-password"
  | NestedFactorKind.Pbkdf2HmacSha256Password => "pbkdf2-hmac-sha256-password"
  end.

Definition parameters_kind (p : FactorParameters.parameters) : NestedFactorKind.kind :=
  match p with
  | FactorParameters.Argon2id _ _ _ _ _ => NestedFactorKind.Argon2idPassword
  | FactorParameters.Pbkdf2HmacSha256 _ _ => NestedFactorKind.Pbkdf2HmacSha256Password
  end.

Record NestedProtection : Set := {
  np_factor : FactorParameters.parameters;
  np_encryption_algorithm : EncryptionAlgorithm.algorithm;
  np_vault_root_key_nonce : bytes
}.

Definition in_range (low high n : Z) : bool := (low <=? n) && (n <=? high).

Definition validate_factor_parameters (p : FactorParameters.parameters) : VaultResult () :=
  let valid :=
    match p with
    | FactorParameters.Argon2id version memory_kib iterations parallelism _ =>
        (version =? 19)
        && in_range (8 * 1024) MAX_ARGON2_MEMORY_KIB memory_kib
        && in_range 1 MAX_ARGON2_ITERATIONS iterations
        && in_range 1 MAX_ARGON2_PARALLELISM parallelism
    | FactorParameters.Pbkdf2HmacSha256 iterations _ =>
        in_range MIN_PBKDF2_ITERATIONS MAX_PBKDF2_ITERATIONS iterations
    end in
  if valid then Ok tt
  else Err (VaultError.Protection "unsupported or unsafe nested-factor parameters").

(** [crypto::supports_algorithm]: the one provider. *)
Definition supports_algorithm (a : EncryptionAlgorithm.algorithm) : bool :=
  match a with EncryptionAlgorithm.Aes256Gcm => true end.

Definition protection_validate (p : NestedProtection) : VaultResult () :=
  _ ← fail_if (negb (supports_algorithm (np_encryption_algorithm p)))
        (VaultError.Protection "unsupported nested-factor encryption algorithm");
  validate_factor_parameters (np_factor p).

Definition matches_profile (p : NestedProtection) (profile : VaultCryptoProfile.profile) : bool :=
  match np_factor p, profile with
  | FactorParameters.Argon2id _ _ _ _ _, VaultCryptoProfile.Default
  | FactorParameters.Pbkdf2HmacSha256 _ _, VaultCryptoProfile.Fips => true
  | _, _ => false
  end.

Definition factor_empty_error (k : NestedFactorKind.kind) : VaultError.error :=
  VaultError.Protection ("the " +:+ nested_kind_as_str k +:+ " factor must not be empty").

Definition factor_aad (installation_id purpose : bytes) : bytes :=
  as_bytes "factorseal/vault-factor/v2" ++ [Byte.x00] ++ installation_id ++ framed purpose.

(** [decode_key::<KEY_BYTES>]. *)
Definition decode_key (plaintext : bytes) (name : string) : VaultResult bytes :=
  let len := Z.of_nat (length plaintext) in
  _ ← fail_if (negb (len =? KEY_BYTES))
        (VaultError.Protection ("unwrapped " +:+ name +:+ " has " +:+ pretty len +:+ " bytes"));
  Ok plaintext.

(** ** Scratch memory of Argon2 (seal/factor/memory.rs) *)

(** A block is 128 words of 8 bytes, aligned to 8 words. *)
Definition WORDS_PER_BLOCK : Z := 128.
Definition ALIGNMENT_WORDS : Z := 8.
Definition USIZE_MAX : Z := U64_MAX.
Definition ISIZE_MAX : Z := 2 ^ 63 - 1.

(** The number of words [Argon2Memory::new] allocates. *)
Definition argon2_memory_words (block_count : Z) : VaultResult Z :=
  let words := block_count * WORDS_PER_BLOCK in
  if (words <=? USIZE_MAX) && (words + ALIGNMENT_WORDS <=? USIZE_MAX)
     && (words + ALIGNMENT_WORDS <=? ISIZE_MAX / 8)
  then Ok (words + ALIGNMENT_WORDS)
  else Err (VaultError.Protection "Argon2 scratch memory is too large").

(** ** Derivation and protection *)

Section Factor.
Context `{PasswordKdf, Aes256Gcm}.

Definition new_factor_parameters (password : bytes) (profile : VaultCryptoProfile.profile)
    (salt : VaultResult bytes) : VaultResult FactorParameters.parameters :=
  _ ← fail_if (bool_decide (password = []))
        (factor_empty_error match profile with
           | VaultCryptoProfile.Default => NestedFactorKind.Argon2idPassword
           | VaultCryptoProfile.Fips => NestedFactorKind.Pbkdf2HmacSha256Password
           end);
  salt ← salt;
  Ok match profile with
     | VaultCryptoProfile.Default =>
         FactorParameters.Argon2id 19 ARGON2_MEMORY_KIB ARGON2_ITERATIONS ARGON2_PARALLELISM salt
     | VaultCryptoProfile.Fips => FactorParameters.Pbkdf2HmacSha256 PBKDF2_ITERATIONS salt
     end.

Definition derive_factor_key (password : bytes) (p : FactorParameters.parameters)
    : VaultResult bytes :=
  _ ← validate_factor_parameters p;
  match p with
  | FactorParameters.Argon2id _ memory_kib iterations parallelism salt =>
      _ ← fail_if (bool_decide (password = [])) (factor_empty_error (parameters_kind p));
      blocks ← map_err (λ e, VaultError.Protection ("invalid Argon2 parameters: " +:+ e))
                 (argon2_block_count memory_kib iterations parallelism);
      _ ← argon2_memory_words blocks;
      map_err (λ e, VaultError.Protection ("factor derivation failed: " +:+ e))
        (argon2id memory_kib iterations parallelism password salt)
  | FactorParameters.Pbkdf2HmacSha256 iterations salt =>
      _ ← fail_if (bool_decide (password = [])) (factor_empty_error (parameters_kind p));
      Ok (pbkdf2_hmac_sha256 password salt iterations)
  end.

Definition protect_with_factor (installation_id vault_root_key password : bytes)
    (profile : VaultCryptoProfile.profile) (salt nonce : VaultResult bytes)
    : VaultResult (bytes * NestedProtection) :=
  parameters ← new_factor_parameters password profile salt;
  factor_key ← derive_factor_key password parameters;
  root ← encrypt factor_key (factor_aad installation_id (as_bytes "vault-root-key"))
           vault_root_key nonce;
  Ok (ep_ciphertext root,
      {| np_factor := parameters; np_encryption_algorithm := ep_algorithm root;
         np_vault_root_key_nonce := ep_nonce root |}).

Definition unprotect_with_factor (installation_id : bytes) (protection : NestedProtection)
    (vault_root_key_payload password : bytes) : VaultResult bytes :=
  factor_key ← derive_factor_key password (np_factor protection);
  vault_root_key ← ok_or VaultError.PasswordRejected
    (decrypt (np_encryption_algorithm protection) factor_key
       (np_vault_root_key_nonce protection)
       (factor_aad installation_id (as_bytes "vault-root-key")) vault_root_key_payload);
  decode_key vault_root_key "vault root key".

(** ** Laws *)

(** What is protected opens with the same password, under the recorded profile. *)
Lemma protect_unprotect `{!Aes256GcmOk} i root password profile salt nonce payload p :
  protect_with_factor i root password profile salt nonce = Ok (payload, p) →
  length root = 32%nat →
  unprotect_with_factor i p payload password = Ok root
  ∧ protection_validate p = Ok tt ∧ matches_profile p profile = true.
Proof.
  unfold protect_with_factor. intros Hp Hl. inv_ok.
  rename a into params, a0 into key.
  apply encrypt_Ok in Ha1 as (_ & Hopen%gcm_round_trip & ->).
  assert (validate_factor_parameters params = Ok tt) as Hv.
  { unfold derive_factor_key in Ha0. by apply then_Ok in Ha0 as [? _]. }
  split_and!.
  - unfold unprotect_with_factor, decrypt. cbn -[factor_aad as_bytes]. rewrite Ha0. cbn -[factor_aad as_bytes].
    rewrite Hopen. cbn.
    unfold decode_key. rewrite Hl. done.
  - done.
  - unfold new_factor_parameters in Ha. inv_ok. by destruct profile.
Qed.

(** An empty password protects nothing and opens nothing. *)
Lemma derive_factor_key_nonempty password p key :
  derive_factor_key password p = Ok key → password ≠ [] ∧ validate_factor_parameters p = Ok tt.
Proof.
  unfold derive_factor_key. intros Hd. apply then_Ok in Hd as [Hv Hd]. split; [|done].
  destruct p; inv_ok; by bool_prop.
Qed.

(** A protected root opens only through a key derived from a password by the recorded
    parameters, for the same installation. *)
Lemma unprotect_Ok i p payload password root :
  unprotect_with_factor i p payload password = Ok root ↔
  ∃ key, derive_factor_key password (np_factor p) = Ok key
    ∧ gcm_decrypt key (np_vault_root_key_nonce p) (factor_aad i (as_bytes "vault-root-key"))
        payload = Some root
    ∧ length root = 32%nat.
Proof.
  unfold unprotect_with_factor, decrypt, decode_key. destruct (np_encryption_algorithm p). split.
  - intros Hu. inv_ok. subst. eexists. split_and!; [done..|]. bool_prop. unfold KEY_BYTES in *. lia.
  - intros (key & -> & Hd & Hl). cbn -[factor_aad as_bytes]. rewrite Hd. cbn.
    by rewrite Hl.
Qed.

(** Within the accepted bounds the scratch memory of Argon2 always fits. *)
Lemma argon2_memory_fits blocks :
  0 ≤ blocks ≤ MAX_ARGON2_MEMORY_KIB →
  argon2_memory_words blocks = Ok (blocks * 128 + 8).
Proof.
  unfold argon2_memory_words, MAX_ARGON2_MEMORY_KIB, WORDS_PER_BLOCK, ALIGNMENT_WORDS,
    USIZE_MAX, U64_MAX, ISIZE_MAX. intros Hb. change ((2 ^ 63 - 1) / 8) with 1152921504606846975.
  change (2 ^ 64 - 1) with 18446744073709551615.
  repeat match goal with |- context [?a <=? ?b] => destruct (Z.leb_spec a b); [|lia] end. done.
Qed.
End Factor.

Lemma factor_aad_inj i i' purpose purpose' :
  is_array 16 i → is_array 16 i' → fits64 purpose → fits64 purpose' →
  factor_aad i purpose = factor_aad i' purpose' → i = i' ∧ purpose = purpose'.
Proof.
  unfold is_array, factor_aad. intros Hi Hi' Hp Hp' Heq.
  apply app_inj_len in Heq as [_ Heq]; [|done]. apply app_inj_len in Heq as [_ Heq]; [|done].
  apply app_inj_len in Heq as [-> Heq]; [|congruence]. split; [done|]. by apply framed_inj.
Qed.
