(* ===== verification/Metadata.v ===== *)
(** Persisted metadata of a vault (src/src/vault/seal/metadata.rs), the backends of the
    platforms (src/src/vault/protection.rs) and the directory the metadata is kept in
    (src/src/vault/seal/filesystem.rs).  JSON is a parameter; the file system is the
    directory of one vault, and an oracle says which of its calls fail. *)
From Stdlib Require Import ZArith Lia Bool.
From stdpp Require Import base gmap strings list pretty.
From S2P Require Import Prelude Text Core Address StoreSpec Signature Manifest Envelope Policy.
From S2P Require Import Factor.

(** ** Platforms and backends *)

Module VaultPlatform.
Inductive platform : Set := Android | Ios | Linux | Macos | Windows.
End VaultPlatform.
#[export] Instance vault_platform_eq_dec : EqDecision VaultPlatform.platform.
Proof. solve_decision. Defined.

Definition platform_as_str (p : VaultPlatform.platform) : string :=
  match p with
  | VaultPlatform.Android => "android"
  | VaultPlatform.Ios => "ios"
  | VaultPlatform.Linux => "linux"
  | VaultPlatform.Macos => "macos"
  | VaultPlatform.Windows => "windows"
  end.

Module HardwareBackend.
Inductive backend : Set :=
| SecureEnclave
| AndroidStrongBox
| AndroidTrustedEnvironment
| Tpm
| WindowsTpm.
End HardwareBackend.

Definition backend_as_str (b : HardwareBackend.backend) : string :=
  match b with
  | HardwareBackend.SecureEnclave => "secure-enclave"
  | HardwareBackend.AndroidStrongBox => "android-strongbox"
  | HardwareBackend.AndroidTrustedEnvironment => "android-trusted-environment"
  | HardwareBackend.Tpm => "tpm"
  | HardwareBackend.WindowsTpm => "windows-tpm"
  end.

Definition platform_accepts_backend (p : VaultPlatform.platform) (backend : string) : bool :=
  match p with
  | VaultPlatform.Android =>
      String.eqb backend "android-strongbox" || String.eqb backend "android-trusted-environment"
  | VaultPlatform.Ios | VaultPlatform.Macos => String.eqb backend "secure-enclave"
  | VaultPlatform.Linux => String.eqb backend "tpm"
  | VaultPlatform.Windows => String.eqb backend "windows-tpm"
  end.

(** ** The metadata *)

Definition VAULT_FORMAT : string := "factorseal-vault".
Definition VAULT_VERSION : Z := 9.
Definition SOFTWARE_SEED_VAULT_VERSION : Z := 8.
Definition COMPATIBLE_VAULT_VERSION : Z := 7.
Definition MAX_VAULT_FILE_BYTES : Z := 1024 * 1024.

Record UnlockSlot : Set := {
  us_group : UnlockGroup;
  us_wrapping_key_label : string;
  us_wrapped_vault_root_key : bytes;
  us_password_protection : option NestedProtection
}.

Record VaultFile : Set := {
  vf_format : string;
  vf_version : Z;
  vf_installation_id : bytes;
  vf_device_vault_id : bytes;
  vf_device_key_id : bytes;
  vf_public_signing_key : bytes;
  vf_actor_id : bytes;
  vf_platform : VaultPlatform.platform;
  vf_hardware_backend : string;
  vf_cryptographic_profile : VaultCryptoProfile.profile;
  vf_unlock_policy : UnlockPolicy;
  vf_preferred_unlock_group : option UnlockGroup;
  vf_unlock_slots : list UnlockSlot;
  vf_wrapped_installation_secrets : WrappedInstallationSecrets;
  vf_created_at : Z
}.

(** [VaultMetadata], the public part. *)
Record PublicMetadata : Set := {
  md_installation_id : bytes;
  md_device_vault_id : bytes;
  md_device_key_id : bytes;
  md_public_signing_key : bytes;
  md_actor_id : bytes;
  md_platform : VaultPlatform.platform;
  md_hardware_backend : string;
  md_enclave_signing : bool;
  md_cryptographic_profile : VaultCryptoProfile.profile;
  md_unlock_policy : UnlockPolicy;
  md_preferred_unlock_group : UnlockGroup;
  md_created_at : Z
}.

Definition uses_enclave_signer (w : WrappedInstallationSecrets) : bool :=
  bool_decide (is_Some (wi_enclave_mldsa65 w)).

Section Metadata.
Context `{Sha256}.

(** [DeviceKeyId::for_public_key]. *)
Definition device_key_id_for_public_key (public_key : bytes) : bytes :=
  sha256 (as_bytes "factorseal/device-key-id/v1" ++ [Byte.x00] ++ public_key).
Definition actor_id_for_public_key (public_key : bytes) : bytes :=
  sha256 (as_bytes "factorseal/automerge-actor/v1" ++ [Byte.x00] ++ public_key).

(** [VaultFile::new]; the fields of [NewVaultFile] are the arguments. *)
Definition vault_file_new (installation_id device_vault_id device_key_id public_signing_key
    actor_id : bytes) (platform : VaultPlatform.platform) (hardware_backend : string)
    (profile : VaultCryptoProfile.profile) (policy : UnlockPolicy) (slots : list UnlockSlot)
    (wrapped : WrappedInstallationSecrets) (created_at : Z) : VaultFile := {|
  vf_format := VAULT_FORMAT;
  vf_version := if uses_enclave_signer wrapped then VAULT_VERSION
                else SOFTWARE_SEED_VAULT_VERSION;
  vf_installation_id := installation_id; vf_device_vault_id := device_vault_id;
  vf_device_key_id := device_key_id; vf_public_signing_key := public_signing_key;
  vf_actor_id := actor_id; vf_platform := platform; vf_hardware_backend := hardware_backend;
  vf_cryptographic_profile := profile; vf_unlock_policy := policy;
  vf_preferred_unlock_group := head (up_groups policy); vf_unlock_slots := slots;
  vf_wrapped_installation_secrets := wrapped; vf_created_at := created_at |}.

(** [VaultFile::public]; [None] is the panic of [expect] on a policy without groups. *)
Definition vault_file_public (v : VaultFile) : option PublicMetadata :=
  preferred ← match vf_preferred_unlock_group v with
              | Some group => Some group
              | None => head (up_groups (vf_unlock_policy v))
              end;
  Some {|
    md_installation_id := vf_installation_id v; md_device_vault_id := vf_device_vault_id v;
    md_device_key_id := vf_device_key_id v; md_public_signing_key := vf_public_signing_key v;
    md_actor_id := vf_actor_id v; md_platform := vf_platform v;
    md_hardware_backend := vf_hardware_backend v;
    md_enclave_signing := uses_enclave_signer (vf_wrapped_installation_secrets v);
    md_cryptographic_profile := vf_cryptographic_profile v;
    md_unlock_policy := vf_unlock_policy v; md_preferred_unlock_group := preferred;
    md_created_at := vf_created_at v |}.

Definition slot_validate (profile : VaultCryptoProfile.profile) (s : UnlockSlot)
    : VaultResult () :=
  _ ← group_validate (us_group s);
  _ ← fail_if (bool_decide (us_wrapping_key_label s = "")
               || bool_decide (us_wrapped_vault_root_key s = [])
               || negb (Bool.eqb (bool_decide (is_Some (us_password_protection s)))
                          (requires (us_group s) UnlockFactorKind.Password)))
        (VaultError.Protection "unlock wrapping slot is inconsistent");
  match us_password_protection s with
  | Some protection =>
      _ ← protection_validate protection;
      fail_if (negb (matches_profile protection profile))
        (VaultError.Protection
           "password KDF does not match the vault cryptographic profile")
  | None => Ok tt
  end.

(** The loop of [VaultFile::validate] over the slots beside the groups: it returns the
    labels. *)
Fixpoint validate_slots (profile : VaultCryptoProfile.profile) (slots : list UnlockSlot)
    (groups : list UnlockGroup) : VaultResult (list string) :=
  match slots, groups with
  | slot :: slots, group :: groups =>
      _ ← slot_validate profile slot;
      _ ← fail_if (negb (bool_decide (us_group slot = group)))
            (VaultError.Protection "unlock policy and wrapping slot order do not match");
      labels ← validate_slots profile slots groups;
      Ok (us_wrapping_key_label slot :: labels)
  | _, _ => Ok []
  end.

Definition vault_file_validate (v : VaultFile) : VaultResult () :=
  _ ← fail_if (negb (String.eqb (vf_format v) VAULT_FORMAT)
               || negb ((vf_version v =? COMPATIBLE_VAULT_VERSION)
                        || (vf_version v =? SOFTWARE_SEED_VAULT_VERSION)
                        || (vf_version v =? VAULT_VERSION)))
        (VaultError.Protection "unsupported vault metadata format or version");
  _ ← installation_validate (vf_wrapped_installation_secrets v);
  _ ← fail_if (uses_enclave_signer (vf_wrapped_installation_secrets v)
               && ((vf_version v <? 9)
                   || negb (bool_decide (vf_platform v = VaultPlatform.Macos))))
        (VaultError.Protection "enclave signing requires macOS vault metadata version 9");
  _ ← fail_if (bool_decide (vf_installation_id v = vf_device_vault_id v)
               || negb (platform_accepts_backend (vf_platform v) (vf_hardware_backend v))
               || bool_decide (vf_actor_id v = [])
               || negb (bool_decide (device_key_id_for_public_key (vf_public_signing_key v)
                                     = vf_device_key_id v))
               || negb (bool_decide (actor_id_for_public_key (vf_public_signing_key v)
                                     = vf_actor_id v)))
        (VaultError.Protection "vault metadata is inconsistent");
  _ ← unlock_policy_validate (vf_unlock_policy v);
  _ ← fail_if match vf_preferred_unlock_group v with
              | Some preferred =>
                  negb (bool_decide (preferred ∈ up_groups (vf_unlock_policy v)))
              | None => false
              end
        (VaultError.Protection "preferred unlock group is not in the unlock policy");
  _ ← fail_if (negb (length (vf_unlock_slots v)
                     =? length (up_groups (vf_unlock_policy v)))%nat)
        (VaultError.Protection "unlock policy and wrapping slots do not match");
  labels ← validate_slots (vf_cryptographic_profile v) (vf_unlock_slots v)
             (up_groups (vf_unlock_policy v));
  fail_if (any_window2 String.eqb (sort_by id labels))
    (VaultError.Protection "unlock wrapping key labels must be distinct").

(** ** Reading *)

(** The stamp a rejected file is inspected for. *)
Record Stamp : Set := { st_format : string; st_version : Z }.

Context `{Serde VaultFile, Serde Stamp}.

Definition unsupported_version_error (b : bytes) (original : string) : VaultError.error :=
  match serde_from_slice b with
  | Ok stamp =>
      if String.eqb (st_format stamp) VAULT_FORMAT && (st_version stamp <? VAULT_VERSION) then
        VaultError.Protection ("vault metadata version " +:+ pretty (st_version stamp)
          +:+ " predates this Factorseal build and is not supported")
      else if String.eqb (st_format stamp) VAULT_FORMAT && (VAULT_VERSION <? st_version stamp)
      then VaultError.Protection ("vault metadata version " +:+ pretty (st_version stamp)
          +:+ " was written by a newer Factorseal build")
      else VaultError.Protection original
  | Err _ => VaultError.Protection original
  end.

Definition decode_vault_file (b : bytes) : VaultResult VaultFile :=
  _ ← fail_if (MAX_VAULT_FILE_BYTES <? Z.of_nat (length b))
        (VaultError.Protection "metadata exceeds size limit");
  stored ← map_err (unsupported_version_error b) (serde_from_slice b);
  _ ← map_err (λ e, unsupported_version_error b (error_display e)) (vault_file_validate stored);
  Ok stored.
End Metadata.

(** ** The directory of a vault *)

(** The directory: its owner and permission bits, and the two metadata files. *)
Record VaultRoot : Set := {
  vr_owner : Z;
  vr_mode : Z;
  vr_vault : option bytes;
  vr_pending : option bytes
}.
Inductive Entry : Set :=
| Directory (root : VaultRoot)
| NotDirectory.

(** The host: what is at the path of the vault, the labels of the hardware keys that exist, and
    how many of the directories that lead to the vault do not exist. *)
Record Host : Set := { h_root : option Entry; h_keys : list string; h_missing : nat }.
Definition set_root (h : Host) (r : option Entry) : Host := {|
  h_root := r; h_keys := h_keys h; h_missing := h_missing h |}.
Definition set_keys (h : Host) (k : list string) : Host := {|
  h_root := h_root h; h_keys := k; h_missing := h_missing h |}.
Definition set_missing (h : Host) (n : nat) : Host := {|
  h_root := h_root h; h_keys := h_keys h; h_missing := n |}.

Module SystemCall.
Inductive call : Set :=
| CreateParent | CreateRoot | StatRoot | OpenMetadata | ReadMetadata
| CreateFile | WriteFile | SyncFile | RenameFile | RemoveRoot | ReadClock.
End SystemCall.

Module VaultPath.
Inductive path : Set := Parent | Root | Published | Pending.
End VaultPath.

(** The operating system: the text of a path, the user, the permission bits of a new
    private directory, the calls that fail with the text of their error, how many directories
    a failed call made, and how much of a file a failed write leaves. *)
Class Os := {
  os_display : VaultPath.path → string;
  os_euid : Z;
  os_new_mode : Z;
  os_not_found : string;
  os_already_exists : string;
  os_fault : SystemCall.call → option string;
  os_made : nat;
  os_written : nat;
  os_now : Z
}.

Section Filesystem.
Context `{Os}.

Definition path_error (path : VaultPath.path) (error : string) : VaultError.error :=
  VaultError.Protection ("I/O error for `" +:+ os_display path +:+ "`: " +:+ error).

(** A call that can only fail. *)
Definition system (call : SystemCall.call) (path : VaultPath.path) : VaultResult () :=
  match os_fault call with Some e => Err (path_error path e) | None => Ok tt end.

(** Three octal digits, as [{mode:o}] prints permission bits. *)
Fixpoint octal_digits (fuel : nat) (n : Z) (acc : string) : string :=
  match fuel with
  | O => acc
  | S fuel =>
      let acc := pretty (n mod 8) +:+ acc in
      if n / 8 =? 0 then acc else octal_digits fuel (n / 8) acc
  end.

Definition validate_private_permissions (r : VaultRoot) : VaultResult () :=
  _ ← fail_if (negb (vr_owner r =? os_euid))
        (VaultError.Protection "vault root must be owned by the current user");
  let mode := Z.land (vr_mode r) 511 in
  fail_if (negb (Z.land mode 63 =? 0))
    (VaultError.Protection ("vault root `" +:+ os_display VaultPath.Root
       +:+ "` is accessible by group or other users (mode " +:+ octal_digits 4 mode "" +:+ ")")).

Definition validate_root : SM Host () := λ h,
  (match h_root h with
   | None => Err (path_error VaultPath.Root os_not_found)
   | Some entry =>
       _ ← system SystemCall.StatRoot VaultPath.Root;
       match entry with
       | NotDirectory => Err (VaultError.Protection
           ("vault root `" +:+ os_display VaultPath.Root +:+ "` is not a directory"))
       | Directory r => validate_private_permissions r
       end
   end, h).

(** [fs::create_dir_all] of the parent. *)
Definition create_parents : SM Host () := λ h,
  match system SystemCall.CreateParent VaultPath.Parent with
  | Err e => (Err e, set_missing h (h_missing h - os_made))
  | Ok _ => (Ok tt, set_missing h 0)
  end.

(** [prepare_root] and [create_private_root]. *)
Definition new_root : VaultRoot := {|
  vr_owner := os_euid; vr_mode := os_new_mode; vr_vault := None; vr_pending := None |}.
Definition create_private_root : SM Host () := λ h,
  match h_root h with
  | Some _ => (Err (VaultError.Protection
      ("refusing to initialize in pre-existing vault root `" +:+ os_display VaultPath.Root
       +:+ "`")), h)
  | None =>
      match system SystemCall.CreateRoot VaultPath.Root with
      | Err e => (Err e, h)
      | Ok _ => (Ok tt, set_root h (Some (Directory new_root)))
      end
  end.
Definition prepare_root : SM Host () :=
  _ ← create_parents;
  _ ← create_private_root;
  validate_root.

Definition file_path (pending : bool) : VaultPath.path :=
  if pending then VaultPath.Pending else VaultPath.Published.
Definition root_file (pending : bool) (r : VaultRoot) : option bytes :=
  if pending then vr_pending r else vr_vault r.
Definition set_file (pending : bool) (b : option bytes) (r : VaultRoot) : VaultRoot :=
  if pending
  then {| vr_owner := vr_owner r; vr_mode := vr_mode r; vr_vault := vr_vault r; vr_pending := b |}
  else {| vr_owner := vr_owner r; vr_mode := vr_mode r; vr_vault := b; vr_pending := vr_pending r |}.

Definition host_file (pending : bool) (h : Host) : option bytes :=
  match h_root h with Some (Directory r) => root_file pending r | _ => None end.

(** [write_new_private_file] and [write_and_sync]: the file must not exist; a write that
    fails leaves a part of the bytes. *)
Definition write_new_private_file (pending : bool) (b : bytes) : SM Host () := λ h,
  match h_root h with
  | Some (Directory r) =>
      let path := file_path pending in
      let written b := set_root h (Some (Directory (set_file pending (Some b) r))) in
      match root_file pending r with
      | Some _ => (Err (path_error path os_already_exists), h)
      | None =>
          match system SystemCall.CreateFile path with
          | Err e => (Err e, h)
          | Ok _ =>
              match system SystemCall.WriteFile path with
              | Err e => (Err e, written (take os_written b))
              | Ok _ => (system SystemCall.SyncFile path, written b)
              end
          end
      end
  | _ => (Err (path_error (file_path pending) os_not_found), h)
  end.

(** [read_bounded_vault_file]. *)
Definition read_bounded_vault_file (pending : bool) : SM Host bytes := λ h,
  (let path := file_path pending in
   match host_file pending h with
   | None => Err (path_error path os_not_found)
   | Some b =>
       _ ← system SystemCall.OpenMetadata path;
       _ ← fail_if (MAX_VAULT_FILE_BYTES <? Z.of_nat (length b))
             (VaultError.Protection "vault metadata is not a bounded regular file");
       _ ← system SystemCall.ReadMetadata path;
       Ok b
   end, h).

(** [fs::remove_dir_all] with the text of its error; a path that is not a directory
    fails. *)
Definition remove_dir_all (h : Host) : option string * Host :=
  match os_fault SystemCall.RemoveRoot with
  | Some e => (Some e, h)
  | None =>
      match h_root h with
      | Some (Directory _) => (None, set_root h None)
      | _ => (Some os_not_found, h)
      end
  end.

Definition unix_time : VaultResult Z :=
  match os_fault SystemCall.ReadClock with
  | Some e => Err (VaultError.Protection e)
  | None => Ok os_now
  end.

Context `{Sha256} `{Serde VaultFile, Serde Stamp}.

(** [read_vault] and [read_pending_vault]. *)
Definition read_vault_file (pending : bool) : SM Host VaultFile :=
  b ← read_bounded_vault_file pending;
  lift (decode_vault_file b).
Definition read_vault : SM Host VaultFile := read_vault_file false.
Definition read_pending_vault : SM Host VaultFile := read_vault_file true.

Definition write_vault (stored : VaultFile) (pending : bool) : SM Host () :=
  _ ← lift (vault_file_validate stored);
  b ← lift (map_err VaultError.Protection (serde_to_vec stored));
  write_new_private_file pending b.
End Filesystem.

(** * What accepted metadata guarantees: validation decides a well-formedness predicate, so
    decoded metadata has one slot per unlock group, a password derivation within bounds
    exactly where a group has a password, and identifiers that belong to its key. *)

(** ** Well-formed parameters, slots and files *)

Definition parameters_wf (p : FactorParameters.parameters) : Prop :=
  match p with
  | FactorParameters.Argon2id version memory_kib iterations parallelism _ =>
      version = 19 ∧ 8 * 1024 ≤ memory_kib ≤ 256 * 1024 ∧ 1 ≤ iterations ≤ 10
      ∧ 1 ≤ parallelism ≤ 16
  | FactorParameters.Pbkdf2HmacSha256 iterations _ => 1000 ≤ iterations ≤ 10000000
  end.

Lemma validate_factor_parameters_Ok p :
  validate_factor_parameters p = Ok tt ↔ parameters_wf p.
Proof.
  unfold validate_factor_parameters. destruct p; cbn -[Z.mul];
    match goal with |- (if ?c then _ else _) = _ ↔ _ => destruct c eqn:Hc end;
    unfold in_range, MAX_ARGON2_MEMORY_KIB, MAX_ARGON2_ITERATIONS, MAX_ARGON2_PARALLELISM,
      MIN_PBKDF2_ITERATIONS, MAX_PBKDF2_ITERATIONS in Hc; bool_prop; split; try done; lia.
Qed.

Definition profile_of (p : FactorParameters.parameters) : VaultCryptoProfile.profile :=
  match p with
  | FactorParameters.Argon2id _ _ _ _ _ => VaultCryptoProfile.Default
  | FactorParameters.Pbkdf2HmacSha256 _ _ => VaultCryptoProfile.Fips
  end.

Lemma matches_profile_true p profile :
  matches_profile p profile = true ↔ profile_of (np_factor p) = profile.
Proof. unfold matches_profile. destruct (np_factor p), profile; cbn; split; done. Qed.

Definition slot_wf (profile : VaultCryptoProfile.profile) (s : UnlockSlot) (g : UnlockGroup)
    : Prop :=
  us_group s = g ∧ group_validate g = Ok tt ∧ us_wrapping_key_label s ≠ ""
  ∧ us_wrapped_vault_root_key s ≠ []
  ∧ (requires g UnlockFactorKind.Password = true ↔ is_Some (us_password_protection s))
  ∧ ∀ p, us_password_protection s = Some p →
      parameters_wf (np_factor p) ∧ profile_of (np_factor p) = profile.

Lemma slot_validate_Ok profile s :
  slot_validate profile s = Ok tt ↔ slot_wf profile s (us_group s).
Proof.
  unfold slot_validate, slot_wf. rewrite !then_Ok, fail_if_Ok.
  rewrite !orb_false_iff, !bool_decide_eq_false, negb_false_iff, eqb_true_iff.
  assert (∀ c, bool_decide (is_Some (us_password_protection s)) = c
    ↔ (c = true ↔ is_Some (us_password_protection s))) as ->.
  { intros c. destruct (us_password_protection s) as [p|].
    - rewrite bool_decide_eq_true_2 by eauto. split; [intros <-; split; eauto|].
      intros Hc. symmetry. by apply Hc.
    - rewrite bool_decide_eq_false_2 by (by intros [? ?]).
      destruct c; split; naive_solver. }
  assert (match us_password_protection s with
          | Some protection => _ ← protection_validate protection;
              fail_if (negb (matches_profile protection profile)) (VaultError.Protection
                "password KDF does not match the vault cryptographic profile")
          | None => Ok tt
          end = Ok tt ↔ ∀ p, us_password_protection s = Some p →
            parameters_wf (np_factor p) ∧ profile_of (np_factor p) = profile) as ->.
  { destruct (us_password_protection s) as [p|]; [|naive_solver].
    rewrite then_Ok, fail_if_Ok, negb_false_iff, matches_profile_true.
    unfold protection_validate. destruct (np_encryption_algorithm p). cbn.
    rewrite validate_factor_parameters_Ok. naive_solver. }
  tauto.
Qed.

Lemma validate_slots_Ok profile slots groups labels :
  length slots = length groups →
  validate_slots profile slots groups = Ok labels ↔
    Forall2 (slot_wf profile) slots groups ∧ labels = us_wrapping_key_label <$> slots.
Proof.
  revert groups labels. induction slots as [|s slots IH]; intros [|g groups] labels Hl; try done.
  - cbn. split; [intros [= <-]; by split|by intros [_ ->]].
  - injection Hl as Hl. cbn [validate_slots]. rewrite !then_Ok, fail_if_Ok, bind_Ok.
    setoid_rewrite (IH groups _ Hl).
    rewrite slot_validate_Ok, negb_false_iff, bool_decide_eq_true, Forall2_cons. cbn. split.
    + intros (Hs & <- & ls & [Hf ->] & [= <-]). done.
    + intros [[Hs Hf] ->]. pose proof Hs as [<- _]. split_and!; [done..|]. eauto.
Qed.

Section Validate.
Context `{Sha256}.

Definition version_wf (v : Z) : Prop := v = 7 ∨ v = 8 ∨ v = 9.

Record vault_file_wf (v : VaultFile) : Prop := {
  wf_format : vf_format v = VAULT_FORMAT;
  wf_version : version_wf (vf_version v);
  wf_secrets : installation_validate (vf_wrapped_installation_secrets v) = Ok tt;
  wf_enclave : uses_enclave_signer (vf_wrapped_installation_secrets v) = true →
    9 ≤ vf_version v ∧ vf_platform v = VaultPlatform.Macos;
  wf_identifiers : vf_installation_id v ≠ vf_device_vault_id v;
  wf_backend : platform_accepts_backend (vf_platform v) (vf_hardware_backend v) = true;
  wf_actor_nonempty : vf_actor_id v ≠ [];
  wf_device_key : device_key_id_for_public_key (vf_public_signing_key v) = vf_device_key_id v;
  wf_actor : actor_id_for_public_key (vf_public_signing_key v) = vf_actor_id v;
  wf_policy : unlock_policy_validate (vf_unlock_policy v) = Ok tt;
  wf_preferred : ∀ g, vf_preferred_unlock_group v = Some g → g ∈ up_groups (vf_unlock_policy v);
  wf_slots : Forall2 (slot_wf (vf_cryptographic_profile v)) (vf_unlock_slots v)
               (up_groups (vf_unlock_policy v));
  wf_labels : NoDup (us_wrapping_key_label <$> vf_unlock_slots v)
}.

Lemma vault_file_validate_Ok v : vault_file_validate v = Ok tt ↔ vault_file_wf v.
Proof.
  unfold vault_file_validate. rewrite !then_Ok, !fail_if_Ok, bind_Ok. split.
  - intros (Hf & Hi & He & Hid & Hp & Hpr & Hl & labels & Hs & Hw).
    bool_prop. apply (validate_slots_Ok _ _ _ _ Hl) in Hs as [Hs ->].
    destruct Hf as [Hfmt Hv], Hid as [[[[Hid Hb] Hn] Hk] Ha].
    apply fail_if_Ok, sorted_windows_NoDup in Hw. split; try done.
    + by apply String.eqb_eq.
    + unfold version_wf, COMPATIBLE_VAULT_VERSION, SOFTWARE_SEED_VAULT_VERSION, VAULT_VERSION
        in *. bool_prop. tauto.
    + intros Heq. rewrite Heq in He. destruct He as [?|[? ?]]; [done|]. split; [lia|done].
    + intros g Hg. rewrite Hg in Hpr. by bool_prop.
  - intros []. rewrite wf_format0, String.eqb_refl. split_and!; try done.
    + unfold COMPATIBLE_VAULT_VERSION, SOFTWARE_SEED_VAULT_VERSION, VAULT_VERSION.
      cbn. destruct wf_version0 as [->|[->| ->]]; done.
    + destruct (uses_enclave_signer _); [|done]. destruct (wf_enclave0 eq_refl) as [? ->].
      rewrite bool_decide_eq_true_2 by done. bool_prop. lia.
    + rewrite wf_backend0, !orb_false_iff, !negb_false_iff, !bool_decide_eq_false,
        !bool_decide_eq_true. split_and!; done.
    + destruct (vf_preferred_unlock_group v) as [g|]; [|done].
      rewrite bool_decide_eq_true_2; [done|]. by apply wf_preferred0.
    + apply Forall2_length in wf_slots0. by rewrite wf_slots0, Nat.eqb_refl.
    + eexists. split; [by apply validate_slots_Ok; [by apply Forall2_length in wf_slots0|]|].
      by apply fail_if_Ok, sorted_windows_NoDup.
Qed.

(** Validated metadata always has a public part. *)
Lemma validated_public v : vault_file_wf v → ∃ m, vault_file_public v = Some m.
Proof.
  intros []. apply policy_validate_Ok in wf_policy0 as (_ & Hlen & _).
  unfold vault_file_public. destruct (vf_preferred_unlock_group v); cbn; [eauto|].
  destruct (up_groups (vf_unlock_policy v)); cbn in *; [lia|]. eauto.
Qed.

Context `{Serde VaultFile, Serde Stamp}.

Lemma decode_vault_file_Ok b v :
  decode_vault_file b = Ok v ↔
    Z.of_nat (length b) ≤ MAX_VAULT_FILE_BYTES ∧ serde_from_slice b = Ok v ∧ vault_file_wf v.
Proof.
  unfold decode_vault_file. rewrite then_Ok, fail_if_Ok, bind_Ok, <- vault_file_validate_Ok. split.
  - intros (Hl & v' & Hs & Hv). inv_ok. bool_prop. done.
  - intros (Hl & Hs & Hv). split; [by bool_prop|]. exists v.
    rewrite Hs. cbn. split; [done|]. by rewrite Hv.
Qed.

(** The slot of a group: the only one with that group. *)
Lemma slot_of_group v g :
  vault_file_wf v → g ∈ up_groups (vf_unlock_policy v) →
  ∃ i slot, vf_unlock_slots v !! i = Some slot ∧ up_groups (vf_unlock_policy v) !! i = Some g
    ∧ find_first (λ s, bool_decide (us_group s = g)) (vf_unlock_slots v) = Some slot.
Proof.
  intros Hwf Hg. pose proof (wf_slots v Hwf) as Hs.
  pose proof (wf_policy v Hwf) as (_ & _ & _ & Hnd)%policy_validate_Ok.
  destruct (find_first (λ s, bool_decide (us_group s = g)) (vf_unlock_slots v)) as [slot|] eqn:Hf.
  - apply find_first_Some in Hf as Hfound. destruct Hfound as [Heq Hin]. bool_prop.
    apply list_elem_of_lookup in Hin as [i Hi].
    destruct (Forall2_lookup_l _ _ _ _ _ Hs Hi) as (g' & Hg' & (Hgg & _)).
    exists i, slot. split_and!; congruence.
  - apply list_elem_of_lookup in Hg as [i Hi].
    destruct (Forall2_lookup_r _ _ _ _ _ Hs Hi) as (slot & Hslot & (Heq & _)).
    assert (bool_decide (us_group slot = g) = false) as Hno.
    { apply (proj1 (find_first_None _ _) Hf). by eapply list_elem_of_lookup_2. }
    by bool_prop.
Qed.

(** Metadata that decodes is well formed, and only that.  Accepted bytes are within the
    size limit and parse to a file that satisfies every clause of [vault_file_wf]: one slot
    per unlock group in order, distinct labels, a password derivation within the accepted
    bounds and of the vault's profile exactly where the group has a password, and device
    and actor identifiers that are those of the signing key; so its public part exists. *)
Theorem decoded_metadata_well_formed b :
  (∀ v, decode_vault_file b = Ok v →
     Z.of_nat (length b) ≤ 1048576 ∧ serde_from_slice b = Ok v ∧ vault_file_wf v
     ∧ ∃ m, vault_file_public v = Some m)
  ∧ (∀ v, Z.of_nat (length b) ≤ 1048576 → serde_from_slice b = Ok v → vault_file_wf v →
     decode_vault_file b = Ok v).
Proof.
  split.
  - intros v Hv. apply decode_vault_file_Ok in Hv as (? & ? & Hwf).
    split_and!; [done..|by apply validated_public].
  - intros v Hl Hs Hwf. by apply decode_vault_file_Ok.
Qed.

(** The version of a rejected file is blamed whenever it is below the newest, although
    versions 7 and 8 are readable: a file of version 8 that is inconsistent is reported as
    written by a build that is not supported any more. *)
Theorem inconsistent_current_file_blamed_on_version b v stamp e :
  Z.of_nat (length b) ≤ MAX_VAULT_FILE_BYTES →
  serde_from_slice b = Ok v → serde_from_slice b = Ok stamp →
  st_format stamp = VAULT_FORMAT → st_version stamp = SOFTWARE_SEED_VAULT_VERSION →
  vault_file_validate v = Err e →
  decode_vault_file b = Err (VaultError.Protection
    "vault metadata version 8 predates this Factorseal build and is not supported").
Proof.
  intros Hl Hv Hs Hf Hver He. unfold decode_vault_file, unsupported_version_error.
  assert (MAX_VAULT_FILE_BYTES <? Z.of_nat (length b) = false) as -> by (by apply Z.ltb_ge).
  cbn [fail_if]. unfold mbind at 1, result_bind at 1. rewrite Hv. cbn [map_err].
  unfold mbind, result_bind. rewrite He. cbn [map_err].
  rewrite Hs, Hf, Hver, String.eqb_refl. reflexivity.
Qed.
End Validate.
