(* ===== verification/Seal.v ===== *)
(** Creating, unsealing and destroying a vault (src/src/vault/seal.rs and
    src/src/vault/seal/protectors.rs): the root key is wrapped once per unlock group by a
    hardware key, and the groups with a password encrypt it under that first.  The
    hardware adapter is a parameter; which of its keys exist is part of the host. *)
From Stdlib Require Import ZArith Lia Bool.
From stdpp Require Import base gmap strings list pretty.
From S2P Require Import Prelude Core Address Text StoreSpec Signature Manifest Envelope Database.
From S2P Require Import Policy Factor Metadata.

(** ** The hardware adapter *)

(** [KeyProtector]: one native wrapping key. *)
Record KeyProtector : Type := {
  kp_backend : HardwareBackend.backend;
  kp_wrap : bytes → VaultResult bytes;
  kp_unwrap : bytes → VaultResult bytes;
  kp_delete : VaultResult ()
}.

(** [KeyProtectorFactory]: creates and opens the key of a label, with or without
    biometric approval. *)
Class KeyProtectorFactory := {
  factory_create : string → bool → VaultResult KeyProtector;
  factory_open : string → bool → VaultResult KeyProtector
}.

(** An opened key belongs to the created one: same backend, and it unwraps what that
    wrapped. *)
Definition reopens (created opened : KeyProtector) : Prop :=
  kp_backend opened = kp_backend created
  ∧ ∀ payload wrapped, kp_wrap created payload = Ok wrapped → kp_unwrap opened wrapped = Ok payload.

(** The keys of the host: creation adds the label, deletion takes it away. *)
Definition create_key `{KeyProtectorFactory} (label : string) (biometric : bool)
    : SM Host KeyProtector := λ h,
  match factory_create label biometric with
  | Ok key => (Ok key, set_keys h (label :: h_keys h))
  | Err e => (Err e, h)
  end.
Definition delete_key (label : string) (key : KeyProtector) : SM Host () := λ h,
  match kp_delete key with
  | Ok _ => (Ok tt, set_keys h (retain (λ l, negb (String.eqb l label)) (h_keys h)))
  | Err e => (Err e, h)
  end.

Record SlotProtector : Type := {
  sp_group : UnlockGroup;
  sp_label : string;
  sp_key : KeyProtector
}.

Record VaultCreation : Set := {
  vc_installation_id : bytes;
  vc_device_vault_id : bytes;
  vc_created_at : Z;
  vc_platform : VaultPlatform.platform;
  vc_cryptographic_profile : VaultCryptoProfile.profile;
  vc_native_signing : bool
}.

(** [public] is absent where the code panics. *)
Record UnsealedVault : Set := {
  uv_public : option PublicMetadata;
  uv_secrets : InstallationSecrets;
  uv_initialize_store : bool
}.

Record CreationMode : Set := { cm_pending : bool; cm_native_signing : bool }.

Definition validate_protector (platform : VaultPlatform.platform) (slot : SlotProtector)
    (common_backend : option string) : VaultResult string :=
  _ ← fail_if (bool_decide (sp_label slot = ""))
        (VaultError.Protection "wrapping key label must not be empty");
  let backend := backend_as_str (kp_backend (sp_key slot)) in
  _ ← fail_if (negb (platform_accepts_backend platform backend))
        (VaultError.Protection ("the " +:+ backend +:+ " backend is not valid for "
           +:+ platform_as_str platform +:+ " vaults"));
  _ ← fail_if match common_backend with
              | Some common => negb (String.eqb common backend)
              | None => false
              end
        (VaultError.Protection "unlock groups use different hardware backends");
  Ok backend.

(** The draws of one creation: the identifiers, the root, a salt and a nonce for each
    slot, the signing seed and the nonce of its encryption. *)
Definition DRAW_INSTALLATION : nat := 0.
Definition DRAW_VAULT : nat := 1.
Definition DRAW_ROOT : nat := 2.
Definition DRAW_SEED : nat := 3.
Definition DRAW_SEED_NONCE : nat := 4.
Definition draw_salt (slot : nat) : nat := 5 + 2 * slot.
Definition draw_nonce (slot : nat) : nat := 6 + 2 * slot.

Section Seal.
Context `{Os} `{Sha256, HmacSha256, Aes256Gcm, PasswordKdf, MlDsa65, Signers, Random}.
Context `{Serde VaultFile, Serde Stamp}.

(** ** Creation through given protectors *)

(** The loop of [create_with_protectors]. *)
Fixpoint create_slots (run : nat) (creation : VaultCreation) (vault_root_key : bytes)
    (credentials : UnlockCredentials) (index : nat) (protectors : list SlotProtector)
    (groups : list UnlockGroup) (hardware_backend : option string)
    : VaultResult (option string * list UnlockSlot) :=
  match protectors, groups with
  | slot :: protectors, expected_group :: groups =>
      _ ← fail_if (negb (bool_decide (sp_group slot = expected_group)))
            (VaultError.Protection
               "unlock policy and hardware protector order do not match");
      backend ← validate_protector (vc_platform creation) slot hardware_backend;
      password ← password_for credentials (sp_group slot);
      protected ←
        match password with
        | Some password =>
            protected ← protect_with_factor (vc_installation_id creation) vault_root_key password
              (vc_cryptographic_profile creation) (random_fill run (draw_salt index) 16)
              (random_fill run (draw_nonce index) 12);
            Ok (protected.1, Some protected.2)
        | None => Ok (vault_root_key, None)
        end;
      wrapped ← kp_wrap (sp_key slot) protected.1;
      rest ← create_slots run creation vault_root_key credentials (S index) protectors groups
               (Some backend);
      Ok (rest.1, {| us_group := sp_group slot; us_wrapping_key_label := sp_label slot;
                     us_wrapped_vault_root_key := wrapped;
                     us_password_protection := protected.2 |} :: rest.2)
  | _, _ => Ok (hardware_backend, [])
  end.

(** What [create_with_protectors] stores, and the secrets. *)
Definition build_vault (run : nat) (enclave : option (VaultResult bytes))
    (creation : VaultCreation) (policy : UnlockPolicy) (protectors : list SlotProtector)
    (credentials : UnlockCredentials) : VaultResult (VaultFile * InstallationSecrets) :=
  _ ← unlock_policy_validate policy;
  _ ← fail_if (negb (length protectors =? length (up_groups policy))%nat)
        (VaultError.Protection "unlock policy and hardware protectors do not match");
  vault_root_key ← random_fill run DRAW_ROOT 32;
  slots ← create_slots run creation vault_root_key credentials 0 protectors (up_groups policy)
            None;
  secrets ← secrets_generate_new (vc_installation_id creation) (vc_device_vault_id creation)
              vault_root_key (bool_decide (vc_platform creation = VaultPlatform.Macos))
              (vc_native_signing creation) enclave (random_fill run DRAW_SEED 32)
              (random_fill run DRAW_SEED_NONCE 12);
  signer ← secrets_signer secrets.1 (vc_installation_id creation) (vc_device_vault_id creation);
  public_signing_key ← provider_public_key signer;
  hardware_backend ← ok_or (VaultError.Protection "unlock policy has no hardware protector")
                       slots.1;
  Ok (vault_file_new (vc_installation_id creation) (vc_device_vault_id creation)
        (device_key_id_for_public_key public_signing_key) public_signing_key
        (actor_id_for_public_key public_signing_key) (vc_platform creation) hardware_backend
        (vc_cryptographic_profile creation) policy slots.2 secrets.2 (vc_created_at creation),
      secrets.1).

Definition create_with_protectors (run : nat) (enclave : option (VaultResult bytes))
    (creation : VaultCreation) (policy : UnlockPolicy) (protectors : list SlotProtector)
    (credentials : UnlockCredentials) (pending : bool) : SM Host UnsealedVault :=
  built ← lift (build_vault run enclave creation policy protectors credentials);
  _ ← write_vault built.1 pending;
  mret {| uv_public := vault_file_public built.1; uv_secrets := built.2;
          uv_initialize_store := true |}.

(** ** Unsealing through a given protector *)

Definition unseal_with_protectors (stored : VaultFile) (slot : UnlockSlot)
    (wrapping : KeyProtector) (credentials : UnlockCredentials) : VaultResult UnsealedVault :=
  _ ← vault_file_validate stored;
  _ ← fail_if (negb (String.eqb (backend_as_str (kp_backend wrapping))
                        (vf_hardware_backend stored)))
        (VaultError.Protection "vault hardware backend does not match its metadata");
  root_payload ← kp_unwrap wrapping (us_wrapped_vault_root_key slot);
  vault_root_key ←
    match us_password_protection slot with
    | Some protection =>
        password ← password_for credentials (us_group slot);
        password ← ok_or (VaultError.Protection
          "password-protected slot has no password factor") password;
        unprotect_with_factor (vf_installation_id stored) protection root_payload password
    | None =>
        _ ← fail_if (requires (us_group slot) UnlockFactorKind.Password)
              (VaultError.Protection "password unlock group has no password protection");
        decode_key root_payload "vault root key"
    end;
  secrets ← secrets_open (vf_installation_id stored) (vf_device_vault_id stored) vault_root_key
              (vf_wrapped_installation_secrets stored);
  signer ← secrets_signer secrets (vf_installation_id stored) (vf_device_vault_id stored);
  public_signing_key ← provider_public_key signer;
  _ ← fail_if (negb (bool_decide (public_signing_key = vf_public_signing_key stored))
               || negb (bool_decide (device_key_id_for_public_key public_signing_key
                                     = vf_device_key_id stored))
               || negb (bool_decide (actor_id_for_public_key public_signing_key
                                     = vf_actor_id stored)))
        (VaultError.Protection "device-signing key does not match installation identity");
  Ok {| uv_public := vault_file_public stored; uv_secrets := secrets;
        uv_initialize_store := false |}.

(** [UnsealedVault::sign_permission_approval]; [None] in [public] is unreachable. *)
Definition sign_permission_approval (v : UnsealedVault) (id : string) (challenge : bytes)
    (duration_seconds : option Z) (single_use : bool) : VaultResult bytes :=
  _ ← fail_if (single_use && bool_decide (is_Some duration_seconds))
        (VaultError.Protocol "a single-use approval takes no duration");
  match uv_public v with
  | Some public =>
      signer ← secrets_signer (uv_secrets v) (md_installation_id public)
                 (md_device_vault_id public);
      provider_sign signer (permission_payload id challenge duration_seconds single_use)
  | None => Err VaultError.WorkerUnavailable
  end.

(** ** The operations of [Vault] *)

Definition inspect : SM Host (option PublicMetadata) :=
  _ ← validate_root;
  stored ← read_vault;
  mret (vault_file_public stored).

Definition random_installation_and_device_vault_ids (run : nat) : VaultResult (bytes * bytes) :=
  installation_id ← random_fill run DRAW_INSTALLATION 16;
  device_vault_id ← random_fill run DRAW_VAULT 16;
  _ ← fail_if (bool_decide (installation_id = device_vault_id))
        (VaultError.Random "installation and device vault identifiers collided; retry");
  Ok (installation_id, device_vault_id).

Definition slot_label (index : nat) (suffix : string) : string :=
  "vault-slot-" +:+ pretty index +:+ "-root-" +:+ suffix.

Context `{KeyProtectorFactory} `{Zxcvbn}.

(** Every group's key is created, in order; the keys created so far are kept on failure. *)
Fixpoint create_protectors (index : nat) (groups : list UnlockGroup) (suffix : string)
    (created : list SlotProtector) : Host → VaultResult () * list SlotProtector * Host :=
  match groups with
  | [] => λ h, (Ok tt, created, h)
  | group :: groups => λ h,
      let label := slot_label index suffix in
      match create_key label (requires group UnlockFactorKind.Biometric) h with
      | (Ok key, h) =>
          create_protectors (S index) groups suffix
            (created ++ [{| sp_group := group; sp_label := label; sp_key := key |}]) h
      | (Err e, h) => (Err e, created, h)
      end
  end.

(** The closure of [create_with_key_protector_policy_mode]: its result, and the protectors
    that exist when it returns. *)
Definition create_inner (run : nat) (enclave : option (VaultResult bytes))
    (platform : VaultPlatform.platform) (policy : UnlockPolicy) (credentials : UnlockCredentials)
    (profile : VaultCryptoProfile.profile) (mode : CreationMode)
    : Host → VaultResult UnsealedVault * list SlotProtector * Host := λ h,
  match random_installation_and_device_vault_ids run with
  | Err e => (Err e, [], h)
  | Ok (installation_id, device_vault_id) =>
      match create_protectors 0 (up_groups policy) (hex_text installation_id) [] h with
      | (Err e, protectors, h) => (Err e, protectors, h)
      | (Ok _, protectors, h) =>
          match unix_time with
          | Err e => (Err e, protectors, h)
          | Ok created_at =>
              let '(r, h) := create_with_protectors run enclave
                {| vc_installation_id := installation_id; vc_device_vault_id := device_vault_id;
                   vc_created_at := created_at; vc_platform := platform;
                   vc_cryptographic_profile := profile;
                   vc_native_signing := cm_native_signing mode |}
                policy protectors credentials (cm_pending mode) h in
              (r, protectors, h)
          end
      end
  end.

(** The first error of the cleanup. *)
Definition first_error {E} (cleanup error : option E) : option E :=
  match cleanup with Some _ => cleanup | None => error end.
Definition error_of {A} (r : VaultResult A) : option VaultError.error :=
  match r with Ok _ => None | Err e => Some e end.
Fixpoint delete_protectors (protectors : list SlotProtector) (cleanup : option string)
    : Host → option string * Host :=
  match protectors with
  | [] => λ h, (cleanup, h)
  | p :: protectors => λ h,
      let '(r, h) := delete_key (sp_label p) (sp_key p) h in
      delete_protectors protectors (first_error cleanup (error_display <$> error_of r)) h
  end.

(** The passwords of a new vault are checked before anything is created. *)
Fixpoint validate_passwords (credentials : UnlockCredentials) (groups : list UnlockGroup)
    : VaultResult () :=
  match groups with
  | [] => Ok tt
  | group :: groups =>
      password ← password_for credentials group;
      _ ← match password with
          | Some password => map_err VaultError.Protection (validate_new_password password)
          | None => Ok tt
          end;
      validate_passwords credentials groups
  end.

Definition rollback_failed (error : VaultError.error) (cleanup : string) : VaultError.error :=
  VaultError.Protection (error_display error +:+ "; initialization rollback failed for `"
    +:+ os_display VaultPath.Root +:+ "`: " +:+ cleanup).

Definition create_with_key_protector_policy_mode (run : nat)
    (enclave : option (VaultResult bytes)) (platform : VaultPlatform.platform)
    (policy : UnlockPolicy) (credentials : UnlockCredentials)
    (profile : VaultCryptoProfile.profile) (mode : CreationMode) : SM Host UnsealedVault :=
  _ ← lift (unlock_policy_validate policy);
  _ ← lift (validate_passwords credentials (up_groups policy));
  _ ← prepare_root;
  stateful (λ h,
    match create_inner run enclave platform policy credentials profile mode h with
    | (Ok unsealed, _, h) => (Ok unsealed, h)
    | (Err error, protectors, h) =>
        let '(cleanup, h) := delete_protectors protectors None h in
        let '(r, h) := remove_dir_all h in
        match first_error cleanup r with
        | Some cleanup => (Err (rollback_failed error cleanup), h)
        | None => (Err error, h)
        end
    end).

(** [Vault::complete_initialization]: the staged metadata is read whole before one rename
    makes it visible. *)
Definition publish : SM Host () := λ h,
  match system SystemCall.RenameFile VaultPath.Published with
  | Err e => (Err e, h)
  | Ok _ =>
      match h_root h with
      | Some (Directory r) =>
          (Ok tt, set_root h (Some (Directory
             (set_file true None (set_file false (vr_pending r) r)))))
      | _ => (Err (path_error VaultPath.Published os_not_found), h)
      end
  end.
Definition complete_initialization : SM Host () :=
  _ ← validate_root;
  _ ← reading (λ h, fail_if (bool_decide (is_Some (host_file false h)))
        (VaultError.Protection ("refusing to replace existing vault metadata `"
           +:+ os_display VaultPath.Published +:+ "`")));
  _ ← read_pending_vault;
  publish.

(** [Vault::unseal_with_key_protector_group]: one exact group, opened with the biometric
    requirement of that group. *)
Definition unseal_with_key_protector_group (group : UnlockGroup)
    (credentials : UnlockCredentials) : SM Host UnsealedVault :=
  _ ← validate_root;
  stored ← read_vault;
  _ ← lift (group_validate group);
  slot ← lift (ok_or (VaultError.Protection
           ("the " +:+ group_display group +:+ " unlock group is not configured for this vault"))
           (find_first (λ slot, bool_decide (us_group slot = group)) (vf_unlock_slots stored)));
  wrapping ← lift (factory_open (us_wrapping_key_label slot)
                     (requires group UnlockFactorKind.Biometric));
  lift (unseal_with_protectors stored slot wrapping credentials).

Definition single_password_group (stored : VaultFile) : VaultResult UnlockGroup :=
  match retain (λ g, requires g UnlockFactorKind.Password)
          (up_groups (vf_unlock_policy stored)) with
  | [] => Err (VaultError.Protection
            "this vault has no password unlock group; select an explicit unlock group")
  | [group] => Ok group
  | _ => Err (VaultError.Protection
            "this vault has multiple password unlock groups; select one explicitly")
  end.

(** [Vault::unseal_with_key_protector]. *)
Definition unseal_with_key_protector (password : bytes) : SM Host UnsealedVault :=
  _ ← validate_root;
  stored ← read_vault;
  group ← lift (single_password_group stored);
  unseal_with_key_protector_group group {| uc_password := Some password |}.

(** [password_policy]. *)
Definition password_policy (password : bytes) (biometric : bool)
    : VaultResult (UnlockPolicy * UnlockCredentials) :=
  group ← group_new (UnlockFactorKind.Password ::
                     if biometric then [UnlockFactorKind.Biometric] else []);
  policy ← policy_new [group];
  Ok (policy, {| uc_password := Some password |}).

(** [Vault::create_with_key_protector]. *)
Definition create_with_key_protector (run : nat) (enclave : option (VaultResult bytes))
    (platform : VaultPlatform.platform) (password : bytes) (biometric : bool)
    : SM Host UnsealedVault :=
  policy ← lift (password_policy password biometric);
  create_with_key_protector_policy_mode run enclave platform policy.1 policy.2
    VaultCryptoProfile.Default {| cm_pending := false; cm_native_signing := false |}.

(** The loop of [discard_initialization_with_factory] over the stored slots. *)
Fixpoint delete_slots (slots : list UnlockSlot) (cleanup : option VaultError.error)
    : Host → option VaultError.error * Host :=
  match slots with
  | [] => λ h, (cleanup, h)
  | slot :: slots => λ h,
      let '(r, h) :=
        match factory_open (us_wrapping_key_label slot)
                (requires (us_group slot) UnlockFactorKind.Biometric) with
        | Ok protector => delete_key (us_wrapping_key_label slot) protector h
        | Err e => (Err e, h)
        end in
      delete_slots slots (first_error cleanup (error_of r)) h
  end.

Definition discard_initialization_with_factory : SM Host () := λ h,
  match h_root h with
  | None => (Ok tt, h)
  | Some entry =>
      match system SystemCall.StatRoot VaultPath.Root with
      | Err e => (Err e, h)
      | Ok _ =>
          match entry with
          | NotDirectory => (Err (VaultError.Protection
              ("refusing to discard non-directory vault root `"
               +:+ os_display VaultPath.Root +:+ "`")), h)
          | Directory r =>
              let '(cleanup, h) :=
                if bool_decide (is_Some (vr_vault r)) || bool_decide (is_Some (vr_pending r)) then
                  match read_vault_file (negb (bool_decide (is_Some (vr_vault r)))) h with
                  | (Ok stored, h) => delete_slots (vf_unlock_slots stored) None h
                  | (Err e, h) => (Some e, h)
                  end
                else (None, h) in
              let '(removed, h) := remove_dir_all h in
              (match first_error cleanup (path_error VaultPath.Root <$> removed) with
               | Some e => Err e
               | None => Ok tt
               end, h)
          end
      end
  end.

(** [Vault::destroy_with_key_protector_group]: only after a successful unseal. *)
Definition destroy_with_key_protector_group (group : UnlockGroup)
    (credentials : UnlockCredentials) : SM Host () :=
  _ ← unseal_with_key_protector_group group credentials;
  discard_initialization_with_factory.
Definition destroy_with_key_protector (password : bytes) : SM Host () :=
  _ ← unseal_with_key_protector password;
  discard_initialization_with_factory.
End Seal.
