(* ===== verification/SealProofs.v ===== *)
(** What sealing guarantees: a vault opens only through a configured group, with its
    hardware key, its biometric requirement and its password; what was created opens
    through every group of its policy; a failed creation is undone; staged metadata
    becomes visible whole or not at all; and a vault is destroyed only after it opened. *)
From Stdlib Require Import ZArith Lia Bool.
From stdpp Require Import base gmap strings list pretty.
From S2P Require Import Prelude Core Text StoreSpec Signature Manifest Envelope.
From S2P Require Import Database Policy Factor Metadata Seal.

Section SealProofs.
Context `{Os} `{Sha256, HmacSha256, Aes256Gcm, PasswordKdf, MlDsa65, Signers, Random}.
Context `{Serde VaultFile, Serde Stamp}.

(** ** Reading the directory *)

Lemma validate_root_same h r h' : validate_root h = (r, h') → h' = h.
Proof. unfold validate_root. intros Hv. by injection Hv as _ <-. Qed.
Lemma read_bounded_Ok pending h r h' :
  read_bounded_vault_file pending h = (r, h') →
  h' = h ∧ ∀ b, r = Ok b → host_file pending h = Some b.
Proof.
  unfold read_bounded_vault_file. intros Hr. injection Hr as Hr <-. split; [done|].
  intros b ->. destruct (host_file pending h); [|done]. inv_ok. congruence.
Qed.

Lemma read_vault_file_same pending h r h' : read_vault_file pending h = (r, h') → h' = h.
Proof.
  unfold read_vault_file. intros Hr. apply sm_bind_either in Hr as
    [(e & Hb & _)|(b & h1 & Hb & Hd)]; apply read_bounded_Ok in Hb as [-> _]; [done|].
  unfold lift in Hd. congruence.
Qed.

Lemma read_vault_file_Ok pending h v h' :
  read_vault_file pending h = (Ok v, h') →
  h' = h ∧ ∃ b, host_file pending h = Some b ∧ decode_vault_file b = Ok v.
Proof.
  unfold read_vault_file. intros Hr. apply sm_bind_Ok in Hr as (b & h1 & Hb & Hd).
  apply read_bounded_Ok in Hb as [-> Hb]. apply lift_Ok in Hd as [Hd ->]. eauto.
Qed.

Lemma read_vault_file_run pending h b v :
  host_file pending h = Some b → decode_vault_file b = Ok v →
  os_fault SystemCall.OpenMetadata = None → os_fault SystemCall.ReadMetadata = None →
  read_vault_file pending h = (Ok v, h).
Proof.
  intros Hb Hd Ho Hr. pose proof Hd as [Hl _]%decode_vault_file_Ok.
  unfold read_vault_file, read_bounded_vault_file, mbind, sm_bind. rewrite Hb.
  unfold system. rewrite Ho, Hr. cbn [mbind result_bind].
  assert (MAX_VAULT_FILE_BYTES <? Z.of_nat (length b) = false) as -> by (by apply Z.ltb_ge).
  cbn. unfold lift. by rewrite Hd.
Qed.

(** ** Opening *)

(** The root key of a slot, recovered with the hardware key and, where the group has a
    password, a key derived from it. *)
Definition slot_opens (installation_id : bytes) (slot : UnlockSlot) (wrapping : KeyProtector)
    (credentials : UnlockCredentials) (root : bytes) : Prop :=
  ∃ payload, kp_unwrap wrapping (us_wrapped_vault_root_key slot) = Ok payload
  ∧ length root = 32%nat
  ∧ if requires (us_group slot) UnlockFactorKind.Password
    then ∃ password protection key,
           uc_password credentials = Some password ∧ password ≠ []
           ∧ us_password_protection slot = Some protection
           ∧ derive_factor_key password (np_factor protection) = Ok key
           ∧ gcm_decrypt key (np_vault_root_key_nonce protection)
               (factor_aad installation_id (as_bytes "vault-root-key")) payload = Some root
    else payload = root.

(** The signing key the secrets give is the one the metadata names. *)
Definition secrets_belong (stored : VaultFile) (secrets : InstallationSecrets) : Prop :=
  ∃ signer, secrets_signer secrets (vf_installation_id stored) (vf_device_vault_id stored)
              = Ok signer
    ∧ provider_public_key signer = Ok (vf_public_signing_key stored).

Lemma password_for_Ok credentials g r :
  password_for credentials g = Ok r ↔
    if requires g UnlockFactorKind.Password
    then ∃ password, uc_password credentials = Some password ∧ password ≠ [] ∧ r = Some password
    else r = None.
Proof.
  unfold password_for. destruct (requires g _); cbn; [|split; congruence].
  rewrite bind_Ok. setoid_rewrite then_Ok. setoid_rewrite ok_or_Ok. setoid_rewrite fail_if_Ok.
  setoid_rewrite bool_decide_eq_false. split.
  - intros (password & -> & Hne & [= <-]). eauto.
  - intros (password & -> & Hne & ->). eauto.
Qed.

Lemma decode_key_Ok payload name root :
  decode_key payload name = Ok root ↔ payload = root ∧ length root = 32%nat.
Proof.
  unfold decode_key. rewrite then_Ok, fail_if_Ok. split.
  - intros [Hl [= <-]]. split; [done|]. bool_prop. unfold KEY_BYTES in Hl. lia.
  - intros [-> Hl]. by rewrite Hl.
Qed.

Lemma unseal_with_protectors_Ok stored slot wrapping credentials v :
  unseal_with_protectors stored slot wrapping credentials = Ok v →
  vault_file_wf stored
  ∧ backend_as_str (kp_backend wrapping) = vf_hardware_backend stored
  ∧ ∃ root, slot_opens (vf_installation_id stored) slot wrapping credentials root
    ∧ secrets_open (vf_installation_id stored) (vf_device_vault_id stored) root
        (vf_wrapped_installation_secrets stored) = Ok (uv_secrets v)
    ∧ secrets_belong stored (uv_secrets v)
    ∧ uv_public v = vault_file_public stored ∧ uv_initialize_store v = false.
Proof.
  unfold unseal_with_protectors. intros Hu. apply then_Ok in Hu as [Hv%vault_file_validate_Ok Hu].
  apply then_Ok in Hu as [Hb Hu]. rewrite fail_if_Ok, negb_false_iff in Hb.
  apply String.eqb_eq in Hb. apply bind_Ok in Hu as (payload & Hp & Hu).
  apply bind_Ok in Hu as (root & Hroot & Hu). split_and!; [done..|]. exists root.
  inv_ok. cbn. split_and!; try done.
  - exists payload. split; [done|].
    destruct (us_password_protection slot) as [protection|] eqn:Hprot.
    + apply bind_Ok in Hroot as (o & Hpw & Hroot). apply bind_Ok in Hroot as (pw & Ho & Hroot).
      apply ok_or_Ok in Ho as ->. apply password_for_Ok in Hpw.
      destruct (requires (us_group slot) _); [|done]. destruct Hpw as (pw' & Hc & Hne & [= <-]).
      apply unprotect_Ok in Hroot as (key & Hk & Hd & Hlen). split; [done|].
      exists pw, protection, key. done.
    + apply then_Ok in Hroot as [Hr Hroot]. rewrite fail_if_Ok in Hr. rewrite Hr.
      apply decode_key_Ok in Hroot as [-> ?]. done.
  - eexists. split; [done|]. bool_prop. naive_solver.
Qed.

Lemma unseal_with_protectors_run stored slot wrapping credentials root secrets :
  vault_file_wf stored →
  backend_as_str (kp_backend wrapping) = vf_hardware_backend stored →
  slot_wf (vf_cryptographic_profile stored) slot (us_group slot) →
  slot_opens (vf_installation_id stored) slot wrapping credentials root →
  secrets_open (vf_installation_id stored) (vf_device_vault_id stored) root
    (vf_wrapped_installation_secrets stored) = Ok secrets →
  secrets_belong stored secrets →
  unseal_with_protectors stored slot wrapping credentials
    = Ok {| uv_public := vault_file_public stored; uv_secrets := secrets;
            uv_initialize_store := false |}.
Proof.
  intros Hwf Hb Hs (payload & Hp & Hl & Hopen) Ho (signer & Hsig & Hpk).
  unfold unseal_with_protectors. rewrite (proj2 (vault_file_validate_Ok stored) Hwf).
  cbn [mbind result_bind]. rewrite Hb, String.eqb_refl. cbn [negb fail_if]. rewrite Hp.
  assert (match us_password_protection slot with
    | Some protection =>
        password ← password_for credentials (us_group slot);
        password ← ok_or (VaultError.Protection
          "password-protected slot has no password factor") password;
        unprotect_with_factor (vf_installation_id stored) protection payload password
    | None =>
        _ ← fail_if (requires (us_group slot) UnlockFactorKind.Password)
              (VaultError.Protection "password unlock group has no password protection");
        decode_key payload "vault root key"
    end = Ok root) as Hroot.
  { destruct Hs as (_ & _ & _ & _ & Hreq & _).
    destruct (requires (us_group slot) UnlockFactorKind.Password) eqn:Hr.
    - destruct Hopen as (pw & prot & key & Hc & Hne & -> & Hk & Hd).
      apply bind_Ok. exists (Some pw). split.
      + apply password_for_Ok. rewrite Hr. eauto.
      + cbn. apply unprotect_Ok. eauto.
    - destruct (us_password_protection slot) as [prot|]; [|subst payload].
      + by specialize (proj2 Hreq ltac:(eauto)).
      + by apply decode_key_Ok. }
  cbn [mbind result_bind]. setoid_rewrite Hroot. cbn [mbind result_bind].
  rewrite Ho. cbn [mbind result_bind]. rewrite Hsig. cbn [mbind result_bind]. rewrite Hpk.
  cbn [mbind result_bind]. rewrite (wf_device_key stored Hwf), (wf_actor stored Hwf).
  by rewrite !bool_decide_eq_true_2.
Qed.

Context `{KeyProtectorFactory}.

(** Unsealing reads and never writes. *)
Lemma unseal_group_same group credentials h r h' :
  unseal_with_key_protector_group group credentials h = (r, h') → h' = h.
Proof.
  unfold unseal_with_key_protector_group. intros Hu.
  apply sm_bind_either in Hu as [(e & Hv & _)|([] & h1 & Hv & Hu)];
    apply validate_root_same in Hv as ->; [done|].
  apply sm_bind_either in Hu as [(e & Hr & _)|(v & h1 & Hr & Hu)];
    apply read_vault_file_same in Hr as ->; [done|].
  do 3 (apply sm_bind_either in Hu as [(e & Hl & _)|(? & h1 & Hl & Hu)];
    unfold lift in Hl; injection Hl as _ <-; [done|]).
  unfold lift in Hu. by injection Hu as _ <-.
Qed.

Lemma unseal_group_Ok group credentials h v h' :
  unseal_with_key_protector_group group credentials h = (Ok v, h') →
  ∃ b stored slot key,
    host_file false h = Some b ∧ decode_vault_file b = Ok stored
    ∧ find_first (λ s, bool_decide (us_group s = group)) (vf_unlock_slots stored) = Some slot
    ∧ factory_open (us_wrapping_key_label slot)
        (requires group UnlockFactorKind.Biometric) = Ok key
    ∧ unseal_with_protectors stored slot key credentials = Ok v.
Proof.
  unfold unseal_with_key_protector_group. intros Hu.
  apply sm_bind_Ok in Hu as ([] & h1 & Hv & Hu). apply validate_root_same in Hv as ->.
  apply sm_bind_Ok in Hu as (stored & h1 & Hr & Hu).
  apply read_vault_file_Ok in Hr as [-> (b & Hb & Hd)].
  apply sm_bind_Ok in Hu as ([] & h1 & Hg & Hu). apply lift_Ok in Hg as [_ ->].
  apply sm_bind_Ok in Hu as (slot & h1 & Hs & Hu). apply lift_Ok in Hs as [Hs ->].
  apply sm_bind_Ok in Hu as (key & h1 & Hk & Hu). apply lift_Ok in Hk as [Hk ->].
  apply lift_Ok in Hu as [Hu _]. apply ok_or_Ok in Hs. eauto 10.
Qed.

(** The same by the factors that the group lists. *)
Definition listed_opens (installation_id : bytes) (slot : UnlockSlot) (wrapping : KeyProtector)
    (credentials : UnlockCredentials) (root : bytes) : Prop :=
  ∃ payload, kp_unwrap wrapping (us_wrapped_vault_root_key slot) = Ok payload
  ∧ length root = 32%nat
  ∧ (UnlockFactorKind.Password ∉ ug_factors (us_group slot) → payload = root)
  ∧ (UnlockFactorKind.Password ∈ ug_factors (us_group slot) →
       ∃ password protection key,
         uc_password credentials = Some password ∧ password ≠ []
         ∧ us_password_protection slot = Some protection
         ∧ derive_factor_key password (np_factor protection) = Ok key
         ∧ gcm_decrypt key (np_vault_root_key_nonce protection)
             (factor_aad installation_id (as_bytes "vault-root-key")) payload = Some root).

Lemma slot_opens_listed installation_id slot wrapping credentials root :
  canonical (us_group slot) → slot_opens installation_id slot wrapping credentials root →
  listed_opens installation_id slot wrapping credentials root.
Proof.
  intros [Ha _] (payload & Hp & Hl & Ho). exists payload. split_and!; [done..| |];
    rewrite <- (requires_spec _ UnlockFactorKind.Password Ha); intros Hr;
    destruct (requires _ _); [by exfalso|exact Ho|exact Ho|discriminate Hr].
Qed.

(** C7: a vault opens only with every factor that the group lists, if the group is in
    canonical order, as [UnlockGroup::new] and the parser make every group.  When unsealing
    succeeds, the published metadata decoded and is well formed; the group is one of its
    policy and the slot is that group's; the hardware key of the slot's label was opened
    with biometric approval exactly if the group lists it, is of the recorded backend
    and unwrapped the slot; if the group lists a password, one was given, not empty, and
    the key derived from it by the recorded parameters decrypts the root under the
    installation; and the secrets under that root sign for the recorded public key.  Metadata
    that lists a group in another order is read too, and then opens without a factor it lists
    ([stored_order_hides_biometric]). *)
Theorem unseal_needs_every_factor group credentials h v h' :
  canonical group →
  unseal_with_key_protector_group group credentials h = (Ok v, h') →
  h' = h ∧ ∃ b stored slot key root,
    host_file false h = Some b ∧ decode_vault_file b = Ok stored ∧ vault_file_wf stored
    ∧ group ∈ up_groups (vf_unlock_policy stored)
    ∧ slot ∈ vf_unlock_slots stored ∧ us_group slot = group
    ∧ factory_open (us_wrapping_key_label slot)
        (bool_decide (UnlockFactorKind.Biometric ∈ ug_factors group)) = Ok key
    ∧ backend_as_str (kp_backend key) = vf_hardware_backend stored
    ∧ listed_opens (vf_installation_id stored) slot key credentials root
    ∧ secrets_open (vf_installation_id stored) (vf_device_vault_id stored) root
        (vf_wrapped_installation_secrets stored) = Ok (uv_secrets v)
    ∧ secrets_belong stored (uv_secrets v)
    ∧ uv_public v = vault_file_public stored ∧ is_Some (uv_public v).
Proof.
  intros Hcan Hu. split; [by eapply unseal_group_same|].
  apply unseal_group_Ok in Hu as (b & stored & slot & key & Hb & Hd & Hf & Hk & Hu).
  apply unseal_with_protectors_Ok in Hu as (Hwf & Hback & root & Hopen & Hsec & Hbel & Hpub & _).
  apply find_first_Some in Hf as [Hg Hin]. bool_prop.
  exists b, stored, slot, key, root. split_and!; try done.
  - apply list_elem_of_lookup in Hin as [i Hi].
    destruct (Forall2_lookup_l _ _ _ _ _ (wf_slots stored Hwf) Hi) as (g & Hgi & (Hgg & _)).
    apply list_elem_of_lookup. exists i. congruence.
  - rewrite <- Hk. f_equal. apply eq_true_iff_eq. rewrite bool_decide_eq_true. symmetry.
    apply requires_spec, Hcan.
  - apply slot_opens_listed; [by rewrite Hg|done].
  - rewrite Hpub. destruct (validated_public stored Hwf) as [m ->]. by eexists.
Qed.

(** ** Destruction *)

Lemma discard_missing h : h_root h = None → discard_initialization_with_factory h = (Ok tt, h).
Proof. unfold discard_initialization_with_factory. by intros ->. Qed.

Lemma delete_slots_error slots e h : (delete_slots slots (Some e) h).1 = Some e.
Proof.
  revert h. induction slots as [|s slots IH]; intros h; cbn; [done|].
  destruct (factory_open _ _); [destruct (delete_key _ _ h)|]; apply IH.
Qed.

(** Without an error every key of the slots is gone, and no other key is touched. *)
Lemma delete_slots_None slots h h' :
  delete_slots slots None h = (None, h') →
  h_root h' = h_root h
  ∧ ∀ l, l ∈ h_keys h' ↔ l ∈ h_keys h ∧ l ∉ us_wrapping_key_label <$> slots.
Proof.
  revert h. induction slots as [|s slots IH]; intros h; cbn.
  - intros [= <-]. split; [done|]. intros l. split; [|tauto]. intros Hl. split; [done|].
    intros Hn. by apply elem_of_nil in Hn.
  - assert (∀ e h1, delete_slots slots (Some e) h1 = (None, h') → False) as Hno.
    { intros e h1 Hd. pose proof (delete_slots_error slots e h1) as He. by rewrite Hd in He. }
    destruct (factory_open _ _) as [key|e]; cbn; [|by intros ?%Hno].
    unfold delete_key. destruct (kp_delete key) as [u|e]; cbn; [|by intros ?%Hno].
    intros [Hr Hk]%IH. split; [done|]. intros l. rewrite Hk. cbn.
    rewrite elem_of_retain, negb_true_iff, String.eqb_neq, not_elem_of_cons. tauto.
Qed.

Lemma remove_dir_all_None h h' :
  remove_dir_all h = (None, h') → h_root h' = None ∧ h_keys h' = h_keys h.
Proof.
  unfold remove_dir_all. destruct (os_fault _); [done|].
  destruct (h_root h) as [[]|]; try done. by intros [= <-].
Qed.

(** Discarding a published vault without an error removes the directory and exactly the
    keys of its slots. *)
Lemma discard_Ok h h' b stored :
  discard_initialization_with_factory h = (Ok tt, h') →
  host_file false h = Some b → decode_vault_file b = Ok stored →
  h_root h' = None
  ∧ ∀ l, l ∈ h_keys h' ↔ l ∈ h_keys h ∧ l ∉ us_wrapping_key_label <$> vf_unlock_slots stored.
Proof.
  unfold discard_initialization_with_factory, host_file. intros Hd Hb Hdec.
  destruct (h_root h) as [[r|]|] eqn:Hr; [|done..]. cbn in Hb.
  destruct (system SystemCall.StatRoot _); [|done]. rewrite Hb in Hd. cbn [negb] in Hd.
  rewrite bool_decide_eq_true_2 in Hd by eauto. cbn [orb negb] in Hd.
  destruct (read_vault_file false h) as [[v|e] h1] eqn:Hread.
  2:{ destruct (remove_dir_all h1). by cbn in Hd. }
  apply read_vault_file_Ok in Hread as [-> (b' & Hb' & Hdec')].
  unfold host_file in Hb'. rewrite Hr in Hb'. cbn in Hb'.
  assert (v = stored) as -> by congruence.
  destruct (delete_slots (vf_unlock_slots stored) None h) as [cleanup h2] eqn:Hdel.
  destruct (remove_dir_all h2) as [removed h3] eqn:Hrm.
  destruct cleanup; [done|]. destruct removed; [done|]. injection Hd as <-.
  apply delete_slots_None in Hdel as [_ Hkeys]. apply remove_dir_all_None in Hrm as [Hroot Hk].
  split; [done|]. intros l. by rewrite Hk.
Qed.

(** A vault is destroyed only by whoever can open it, and then completely.  If
    destroying it through a group changes the host in any way, unsealing through that group
    succeeds on the same host; and if it reports success, the directory is gone, and of the
    hardware keys exactly those of the vault's slots are. *)
Theorem destroy_needs_unlock group credentials h r h' :
  destroy_with_key_protector_group group credentials h = (r, h') → h' ≠ h →
  (∃ v, unseal_with_key_protector_group group credentials h = (Ok v, h))
  ∧ (r = Ok tt → ∃ b stored, host_file false h = Some b ∧ decode_vault_file b = Ok stored
       ∧ h_root h' = None
       ∧ ∀ l, l ∈ h_keys h' ↔
           l ∈ h_keys h ∧ l ∉ us_wrapping_key_label <$> vf_unlock_slots stored).
Proof.
  unfold destroy_with_key_protector_group. intros Hd Hne.
  apply sm_bind_either in Hd as [(e & Hu & _)|(v & h1 & Hu & Hd)];
    pose proof (unseal_group_same _ _ _ _ _ Hu) as ->; [done|]. split; [by exists v|].
  intros ->. apply unseal_group_Ok in Hu as (b & stored & _ & _ & Hb & Hdec & _).
  exists b, stored. split_and!; [done..|by eapply discard_Ok|by eapply discard_Ok].
Qed.
End SealProofs.
