(* ===== verification/SealCreation.v ===== *)
(** Creation of vaults: the slots a creation makes are those every group opens with, the
    stored metadata is what unsealing reads back, a failed creation leaves nothing behind,
    and staged metadata is published whole. *)
From Stdlib Require Import ZArith Lia Bool.
From stdpp Require Import base gmap strings list pretty.
From S2P Require Import Prelude Core Text Chars StoreSpec Signature Manifest Envelope.
From S2P Require Import Database Policy Factor Metadata Seal SealProofs.

(** A filter that keeps everything. *)
Lemma filter_all {A} (P : A → Prop) `{∀ x, Decision (P x)} (l : list A) :
  (∀ x, x ∈ l → P x) → filter P l = l.
Proof.
  induction l as [|x l IH]; intros Hl; [done|].
  rewrite filter_cons_True by (apply Hl; by left). f_equal. apply IH. intros y Hy. apply Hl. by right.
Qed.

Section Slots.
Context `{Sha256, HmacSha256, Aes256GcmOk, PasswordKdf, MlDsa65, Signers, RandomOk}.

(** How a slot was made from its protector and the root. *)
Definition slot_made (creation : VaultCreation) (root : bytes) (credentials : UnlockCredentials)
    (p : SlotProtector) (s : UnlockSlot) : Prop :=
  us_group s = sp_group p ∧ us_wrapping_key_label s = sp_label p
  ∧ ∃ payload, kp_wrap (sp_key p) payload = Ok (us_wrapped_vault_root_key s)
  ∧ match us_password_protection s with
    | Some protection => ∃ password salt nonce,
        password_for credentials (sp_group p) = Ok (Some password)
        ∧ protect_with_factor (vc_installation_id creation) root password
            (vc_cryptographic_profile creation) salt nonce = Ok (payload, protection)
    | None => password_for credentials (sp_group p) = Ok None ∧ payload = root
    end.

Definition backend_text (p : SlotProtector) : string := backend_as_str (kp_backend (sp_key p)).

Lemma validate_protector_Ok platform p common backend :
  validate_protector platform p common = Ok backend →
  backend = backend_text p ∧ (∀ c, common = Some c → c = backend).
Proof.
  unfold validate_protector. intros Hv. apply then_Ok in Hv as [_ Hv].
  apply then_Ok in Hv as [_ Hv]. apply then_Ok in Hv as [Hc [= <-]]. split; [done|].
  intros c ->. rewrite fail_if_Ok, negb_false_iff in Hc. by apply String.eqb_eq in Hc.
Qed.

Lemma create_slots_Ok run creation root credentials i protectors groups common r :
  create_slots run creation root credentials i protectors groups common = Ok r →
  length protectors = length groups →
  Forall2 (slot_made creation root credentials) protectors r.2
  ∧ sp_group <$> protectors = groups
  ∧ (∀ c, common = Some c → r.1 = Some c)
  ∧ Forall (λ p, r.1 = Some (backend_text p)) protectors.
Proof.
  revert i groups common r. induction protectors as [|p protectors IH];
    intros i [|g groups] common r Hc Hl; try done.
  - cbn in Hc. injection Hc as <-. split_and!; try done; constructor.
  - injection Hl as Hl. cbn [create_slots] in Hc.
    apply then_Ok in Hc as [Hg Hc]. rewrite fail_if_Ok, negb_false_iff, bool_decide_eq_true in Hg.
    apply bind_Ok in Hc as (backend & Hb & Hc).
    apply validate_protector_Ok in Hb as [-> Hcommon].
    apply bind_Ok in Hc as (password & Hpw & Hc). apply bind_Ok in Hc as (protected & Hp & Hc).
    apply bind_Ok in Hc as (wrapped & Hw & Hc). apply bind_Ok in Hc as (rest & Hrest & [= <-]).
    destruct (IH _ _ _ _ Hrest Hl) as (Hmade & Hgroups & Hkeep & Hall). cbn.
    specialize (Hkeep _ eq_refl).
    split_and!.
    + constructor; [|done]. split_and!; try done. cbn. exists protected.1. split; [done|].
      destruct password as [pw|]; cbn in Hp.
      * apply bind_Ok in Hp as (q & Hq & [= <-]). cbn. exists pw. do 2 eexists.
        split; [done|]. rewrite Hq. by destruct q.
      * by injection Hp as <-.
    + cbn. by rewrite Hg, Hgroups.
    + intros c ->. rewrite Hkeep. by rewrite (Hcommon c).
    + constructor; [done|]. done.
Qed.

(** What creation wrapped, the reopened key and the same credentials open. *)
Lemma made_slot_opens creation root credentials p s wrapping :
  slot_made creation root credentials p s → reopens (sp_key p) wrapping → length root = 32%nat →
  slot_opens (vc_installation_id creation) s wrapping credentials root.
Proof.
  intros (Hg & _ & payload & Hw & Hprot) [_ Hre] Hl. exists payload.
  split; [by apply Hre|]. split; [done|]. rewrite Hg.
  destruct (us_password_protection s) as [prot|].
  - destruct Hprot as (pw & salt & nonce & Hpw & Hpr).
    apply protect_unprotect in Hpr as (Hun & _ & _); [|done].
    apply password_for_Ok in Hpw. destruct (requires (sp_group p) _); [|done].
    destruct Hpw as (pw' & Hc & Hne & [= <-]).
    apply unprotect_Ok in Hun as (key & Hk & Hd & _). exists pw, prot, key. done.
  - destruct Hprot as [Hpw ->]. apply password_for_Ok in Hpw.
    destruct (requires (sp_group p) _); [|done]. by destruct Hpw as (? & _ & _ & ?).
Qed.

(** Secrets that sign when they are made open again under the same root. *)
Lemma generate_new_opens i v root macos native enclave run k k' secrets wrapped signer :
  secrets_generate_new i v root macos native enclave (random_fill run k 32) k'
    = Ok (secrets, wrapped) →
  installation_validate wrapped = Ok tt →
  secrets_signer secrets i v = Ok signer → is_ok (provider_public_key signer) = true →
  secrets_open i v root wrapped = Ok secrets.
Proof.
  intros Hg Hv Hs Hp.
  assert (∀ b, secrets_generate i v root b k' = Ok (secrets, wrapped) →
    random_fill run k 32 = Ok b → secrets_open i v root wrapped = Ok secrets) as Hseed.
  { intros b Hb Hr. apply random_length in Hr. by eapply secrets_generate_opens. }
  unfold secrets_generate_new in Hg.
  assert (∀ b, (seed ← random_fill run k 32; secrets_generate i v root seed k') = Ok b →
    b = (secrets, wrapped) → secrets_open i v root wrapped = Ok secrets) as Hsoft.
  { intros b Hb ->. apply bind_Ok in Hb as (seed & Hr & Hb). by eapply Hseed. }
  destruct enclave as [reference|]; [|by eapply Hsoft].
  destruct (native && macos); [|by eapply Hsoft].
  apply bind_Ok in Hg as (ref & -> & Hg). apply bind_Ok in Hg as (enc & He & [= <- <-]).
  unfold secrets_open. rewrite Hv. cbn -[derive_index_key enclave_signer].
  unfold secrets_signer in Hs. cbn -[derive_index_key enclave_signer] in Hs.
  rewrite Hs. cbn. by destruct (provider_public_key signer).
Qed.
End Slots.

Section Creation.
Context `{Os} `{Sha256, HmacSha256, Aes256GcmOk, PasswordKdf, MlDsa65, Signers, RandomOk}.
Context `{SerdeOk VaultFile, Serde Stamp} `{KeyProtectorFactory, Zxcvbn}.

Lemma build_vault_Ok run enclave creation policy protectors credentials file secrets :
  build_vault run enclave creation policy protectors credentials = Ok (file, secrets) →
  vault_file_wf file →
  length protectors = length (up_groups policy)
  ∧ vf_unlock_policy file = policy ∧ vf_installation_id file = vc_installation_id creation
  ∧ ∃ root, length root = 32%nat
    ∧ Forall2 (slot_made creation root credentials) protectors (vf_unlock_slots file)
    ∧ sp_group <$> protectors = up_groups policy
    ∧ Forall (λ p, vf_hardware_backend file = backend_text p) protectors
    ∧ secrets_open (vf_installation_id file) (vf_device_vault_id file) root
        (vf_wrapped_installation_secrets file) = Ok secrets
    ∧ secrets_belong file secrets.
Proof.
  unfold build_vault. intros Hb Hwf. apply then_Ok in Hb as [_ Hb].
  apply then_Ok in Hb as [Hl Hb]. rewrite fail_if_Ok, negb_false_iff, Nat.eqb_eq in Hl.
  apply bind_Ok in Hb as (root & Hroot%random_length & Hb).
  apply bind_Ok in Hb as (slots & Hs & Hb). apply create_slots_Ok in Hs as (Hm & Hg & _ & Hback); [|done].
  apply bind_Ok in Hb as ([secrets' wrapped] & Hgen & Hb).
  apply bind_Ok in Hb as (signer & Hsig & Hb). apply bind_Ok in Hb as (pk & Hpk & Hb).
  apply bind_Ok in Hb as (backend & Hbk%ok_or_Ok & [= <- <-]).
  cbn in *. split_and!; [done..|]. exists root. split_and!; try done.
  - eapply Forall_impl; [exact Hback|]. cbn. intros p Hp. congruence.
  - eapply generate_new_opens; [exact Hgen|exact (wf_secrets _ Hwf)|exact Hsig|by rewrite Hpk].
  - by exists signer.
Qed.

(** Every protector came from the factory, for its label and its group. *)
Definition from_factory (p : SlotProtector) : Prop :=
  factory_create (sp_label p) (requires (sp_group p) UnlockFactorKind.Biometric) = Ok (sp_key p).

Lemma create_protectors_spec i groups suffix created h r protectors h' :
  create_protectors i groups suffix created h = (r, protectors, h') →
  ∃ new, protectors = created ++ new ∧ Forall from_factory new
    ∧ h_root h' = h_root h ∧ h_keys h' = reverse (sp_label <$> new) ++ h_keys h
    ∧ h_missing h' = h_missing h
    ∧ Forall (λ p, ∃ j, sp_label p = slot_label j suffix) new.
Proof.
  revert i created h. induction groups as [|g groups IH]; intros i created h; cbn.
  - intros [= <- <- <-]. exists []. by rewrite app_nil_r.
  - unfold create_key. destruct (factory_create _ _) as [key|e] eqn:Hf.
    + intros (new & -> & Hnew & Hroot & Hkeys & Hmiss & Hlab)%IH.
      exists ({| sp_group := g; sp_label := slot_label i suffix; sp_key := key |} :: new).
      split_and!; [by rewrite <- app_assoc|by constructor|done| |done|constructor; [eauto|done]].
      rewrite Hkeys, fmap_cons, reverse_cons, <- app_assoc. done.
    + intros [= <- <- <-]. exists []. by rewrite app_nil_r.
Qed.

Lemma write_new_private_file_Ok pending b h h' :
  write_new_private_file pending b h = (Ok tt, h') →
  ∃ r, h_root h = Some (Directory r) ∧ root_file pending r = None
    ∧ h' = set_root h (Some (Directory (set_file pending (Some b) r))).
Proof.
  unfold write_new_private_file. destruct (h_root h) as [[r|]|] eqn:Hr; try done.
  destruct (root_file pending r) eqn:Hf; [done|].
  destruct (system SystemCall.CreateFile _); [|done].
  destruct (system SystemCall.WriteFile _); [|done]. intros [= _ <-]. eauto.
Qed.

Lemma create_parents_made h r h' :
  create_parents h = (r, h') →
  h_root h' = h_root h ∧ h_keys h' = h_keys h ∧ (h_missing h' ≤ h_missing h)%nat
  ∧ (r = Ok tt → h' = set_missing h 0).
Proof.
  unfold create_parents. destruct (system _ _) as [u|e]; intros [= <- <-]; cbn; split_and!;
    first [done|lia].
Qed.

Lemma prepare_root_Ok h h' :
  prepare_root h = (Ok tt, h') →
  h_root h = None ∧ ∃ r, h' = set_root (set_missing h 0) (Some (Directory r))
    ∧ vr_vault r = None ∧ vr_pending r = None
    ∧ validate_private_permissions r = Ok tt ∧ os_fault SystemCall.StatRoot = None.
Proof.
  unfold prepare_root. intros Hp. apply sm_bind_Ok in Hp as ([] & h1 & Hs & Hp).
  apply create_parents_made in Hs as (_ & _ & _ & Hs). specialize (Hs eq_refl) as ->.
  apply sm_bind_Ok in Hp as ([] & h1 & Hc & Hp).
  unfold create_private_root in Hc. cbn [h_root set_missing] in Hc.
  destruct (h_root h) as [[]|] eqn:Hr; try done.
  destruct (system SystemCall.CreateRoot _); [|done]. injection Hc as <-.
  split; [done|]. eexists. pose proof (validate_root_same _ _ _ Hp) as ->. split; [done|].
  unfold validate_root in Hp. cbn [h_root set_root] in Hp. injection Hp as Hp.
  apply then_Ok in Hp as [Hs Hp]. split_and!; [done..|]. unfold system in Hs.
  by destruct (os_fault _).
Qed.

(** The host after a successful creation. *)
Lemma create_Ok run enclave platform policy credentials profile mode h v h' :
  create_with_key_protector_policy_mode run enclave platform policy credentials profile mode h
    = (Ok v, h') →
  ∃ creation protectors file r b,
    build_vault run enclave creation policy protectors credentials = Ok (file, uv_secrets v)
    ∧ vault_file_wf file ∧ serde_to_vec file = Ok b
    ∧ uv_public v = vault_file_public file ∧ uv_initialize_store v = true
    ∧ Forall from_factory protectors
    ∧ h_root h' = Some (Directory r) ∧ root_file (cm_pending mode) r = Some b
    ∧ root_file (negb (cm_pending mode)) r = None
    ∧ validate_private_permissions r = Ok tt ∧ os_fault SystemCall.StatRoot = None.
Proof.
  unfold create_with_key_protector_policy_mode. intros Hc.
  apply sm_bind_Ok in Hc as ([] & h1 & Hp & Hc). apply lift_Ok in Hp as [_ ->].
  apply sm_bind_Ok in Hc as ([] & h1 & Hp & Hc). apply lift_Ok in Hp as [_ ->].
  apply sm_bind_Ok in Hc as ([] & h1 & Hp & Hc).
  apply prepare_root_Ok in Hp as (_ & r & -> & Hv & Hpd & Hperm & Hst).
  unfold stateful in Hc. set (h1 := set_root (set_missing h 0) (Some (Directory r))) in *.
  destruct (create_inner run enclave platform policy credentials profile mode h1)
    as [[[u|e] protectors] h2] eqn:Hi.
  2:{ destruct (delete_protectors _ _ _). destruct (remove_dir_all _).
      by destruct (first_error _ _). }
  injection Hc as -> ->. unfold create_inner in Hi.
  destruct (random_installation_and_device_vault_ids run) as [[inst vault]|] eqn:Hids; [|done].
  destruct (create_protectors 0 _ _ [] h1) as [[[[]|] ps] h3] eqn:Hps; [|done].
  apply create_protectors_spec in Hps as (new & -> & Hnew & Hroot & _ & _ & _).
  destruct unix_time as [now|]; [|done].
  destruct (create_with_protectors _ _ _ _ _ _ _ h3) as [res h4] eqn:Hcw.
  injection Hi as -> <- ->. unfold create_with_protectors in Hcw.
  apply sm_bind_Ok in Hcw as ([file secrets] & h5 & Hb & Hcw). apply lift_Ok in Hb as [Hb ->].
  apply sm_bind_Ok in Hcw as ([] & h5 & Hw & [= <- ->]). unfold write_vault in Hw. inv_sm.
  apply vault_file_validate_Ok in Ha.
  apply write_new_private_file_Ok in Hw as (r' & Hr' & Hnone & ->).
  rewrite Hroot in Hr'. injection Hr' as <-.
  do 3 eexists. exists (set_file (cm_pending mode) (Some a0) r), a0.
  split_and!; try done; cbn; by destruct (cm_pending mode).
Qed.

Lemma validate_root_run h r :
  h_root h = Some (Directory r) → validate_private_permissions r = Ok tt →
  os_fault SystemCall.StatRoot = None → validate_root h = (Ok tt, h).
Proof. unfold validate_root, system. intros -> Hp ->. cbn. by rewrite Hp. Qed.

Lemma complete_initialization_Ok h h' :
  complete_initialization h = (Ok tt, h') →
  ∃ r b stored, h_root h = Some (Directory r) ∧ vr_vault r = None ∧ vr_pending r = Some b
    ∧ decode_vault_file b = Ok stored
    ∧ h' = set_root h (Some (Directory (set_file true None (set_file false (Some b) r)))).
Proof.
  unfold complete_initialization. intros Hc.
  apply sm_bind_Ok in Hc as ([] & h1 & Hv & Hc). apply validate_root_same in Hv as ->.
  apply sm_bind_Ok in Hc as ([] & h1 & Hn & Hc). unfold reading in Hn. injection Hn as Hn <-.
  apply sm_bind_Ok in Hc as (stored & h1 & Hr & Hc).
  apply read_vault_file_Ok in Hr as [-> (b & Hb & Hd)].
  rewrite fail_if_Ok, bool_decide_eq_false in Hn. unfold host_file in *.
  destruct (h_root h) as [[r|]|] eqn:Hr; try done. cbn in *.
  exists r, b, stored. unfold publish in Hc. rewrite Hr in Hc.
  destruct (system _ _); [|done]. injection Hc as <-. rewrite Hb. split_and!; try done.
  destruct (vr_vault r); [|done]. destruct Hn. by eexists.
Qed.

(** The key of a label can be opened again and is the same key. *)
Definition factory_reopens : Prop :=
  ∀ label biometric key, factory_create label biometric = Ok key →
    ∃ key', factory_open label biometric = Ok key' ∧ reopens key key'.

(** A host that holds the metadata of a built vault opens it through every group. *)
Lemma built_vault_unseals run enclave creation policy protectors credentials file secrets h r b g :
  build_vault run enclave creation policy protectors credentials = Ok (file, secrets) →
  vault_file_wf file → serde_to_vec file = Ok b → Forall from_factory protectors →
  factory_reopens → Z.of_nat (length b) ≤ MAX_VAULT_FILE_BYTES →
  h_root h = Some (Directory r) → vr_vault r = Some b →
  validate_private_permissions r = Ok tt → os_fault SystemCall.StatRoot = None →
  os_fault SystemCall.OpenMetadata = None → os_fault SystemCall.ReadMetadata = None →
  g ∈ up_groups policy →
  unseal_with_key_protector_group g credentials h
    = (Ok {| uv_public := vault_file_public file; uv_secrets := secrets;
             uv_initialize_store := false |}, h).
Proof.
  intros Hb Hwf Hser Hfac Hre Hsize Hroot Hv Hperm Hst Ho Hr Hg.
  destruct (build_vault_Ok _ _ _ _ _ _ _ _ Hb Hwf)
    as (Hlen & Hpol & Hinst & root & Hrl & Hmade & Hgroups & Hback & Hopen & Hbel).
  assert (decode_vault_file b = Ok file) as Hd
    by (apply decode_vault_file_Ok; split_and!; [done|by apply serde_roundtrip|done]).
  rewrite <- Hpol in Hg. destruct (slot_of_group file g Hwf Hg) as (i & slot & Hi & Hgi & Hfind).
  destruct (Forall2_lookup_r _ _ _ _ _ Hmade Hi) as (p & Hpi & Hslot).
  pose proof (Forall_lookup_1 _ _ _ _ Hfac Hpi) as Hp.
  pose proof (Forall_lookup_1 _ _ _ _ Hback Hpi) as Hpb. cbn in Hpb.
  destruct (Forall2_lookup_l _ _ _ _ _ (wf_slots file Hwf) Hi) as (g' & Hg' & Hswf).
  rewrite Hgi in Hg'. injection Hg' as <-. pose proof Hswf as (Hsg & Hgv & _).
  pose proof Hslot as (Hsp & Hsl & _).
  unfold from_factory in Hp. rewrite <- Hsp, Hsg in Hp.
  destruct (Hre _ _ _ Hp) as (key & Hkey & Hreopen).
  unfold unseal_with_key_protector_group, mbind, sm_bind.
  rewrite (validate_root_run h r) by done. unfold read_vault.
  rewrite (read_vault_file_run false h b file); [|unfold host_file; by rewrite Hroot|done..].
  unfold lift. rewrite Hgv. rewrite Hfind. cbn [ok_or]. rewrite Hsl, Hkey.
  f_equal. apply (unseal_with_protectors_run _ _ _ _ root); try done.
  - destruct Hreopen as [-> _]. done.
  - by rewrite Hsg.
  - rewrite Hinst. by eapply made_slot_opens.
Qed.

(** C8: what is created opens.  If creating a vault succeeds (staged metadata having been
    published), the keys of the adapter can be reopened, and the metadata fits its limit
    and can be read, then unsealing through every group of the policy with the credentials
    given at creation succeeds, changes nothing, and returns the very secrets and public
    metadata that creation returned. *)
Theorem created_vault_unseals run enclave platform policy credentials profile mode h v h1 h2 g :
  create_with_key_protector_policy_mode run enclave platform policy credentials profile mode h
    = (Ok v, h1) →
  (if cm_pending mode then complete_initialization h1 = (Ok tt, h2) else h2 = h1) →
  factory_reopens →
  (∀ b, host_file false h2 = Some b → Z.of_nat (length b) ≤ MAX_VAULT_FILE_BYTES) →
  os_fault SystemCall.OpenMetadata = None → os_fault SystemCall.ReadMetadata = None →
  g ∈ up_groups policy →
  unseal_with_key_protector_group g credentials h2
    = (Ok {| uv_public := uv_public v; uv_secrets := uv_secrets v;
             uv_initialize_store := false |}, h2)
  ∧ is_Some (uv_public v) ∧ uv_initialize_store v = true.
Proof.
  intros Hc Hpub Hre Hsize Ho Hr Hg.
  apply create_Ok in Hc as (creation & protectors & file & r & b & Hb & Hwf & Hser & Hup & Hinit
    & Hfac & Hroot & Hfile & _ & Hperm & Hst).
  split; [|split; [|done]].
  - rewrite Hup. destruct (cm_pending mode).
    + apply complete_initialization_Ok in Hpub as (r' & b' & stored & Hr' & Hnone & Hb' & _ & ->).
      rewrite Hroot in Hr'. injection Hr' as <-. cbn in Hfile. rewrite Hfile in Hb'.
      injection Hb' as <-.
      eapply built_vault_unseals; try done. by apply Hsize.
    + subst h2. eapply built_vault_unseals; try done. apply Hsize. unfold host_file.
      by rewrite Hroot.
  - rewrite Hup. destruct (validated_public file Hwf) as [m ->]. by eexists.
Qed.

(** ** Staged metadata *)

(** Publishing shows the staged metadata whole or not at all.  When it succeeds, no
    metadata had been published, what is visible then is the staged bytes, which decode,
    and nothing is staged any more; when it fails, the host is unchanged.  So published
    metadata is never replaced. *)
Theorem staged_metadata_published_whole h r h' :
  complete_initialization h = (r, h') →
  match r with
  | Ok _ => ∃ b stored, host_file false h = None ∧ host_file true h = Some b
      ∧ decode_vault_file b = Ok stored ∧ vault_file_wf stored
      ∧ host_file false h' = Some b ∧ host_file true h' = None
  | Err _ => h' = h
  end.
Proof.
  intros Hc. destruct r as [[]|e].
  - apply complete_initialization_Ok in Hc as (r & b & stored & Hroot & Hv & Hp & Hd & ->).
    pose proof Hd as (_ & _ & Hwf)%decode_vault_file_Ok.
    exists b, stored. unfold host_file. rewrite Hroot. done.
  - unfold complete_initialization in Hc.
    apply sm_bind_either in Hc as [(? & Hv & _)|([] & h1 & Hv & Hc)];
      apply validate_root_same in Hv as ->; [done|].
    apply sm_bind_either in Hc as [(? & Hn & _)|([] & h1 & Hn & Hc)];
      unfold reading in Hn; injection Hn as _ <-; [done|].
    apply sm_bind_either in Hc as [(? & Hr & _)|(? & h1 & Hr & Hc)];
      apply read_vault_file_same in Hr as ->; [done|].
    unfold publish in Hc. destruct (system _ _); [|by injection Hc as _ <-].
    destruct (h_root h) as [[]|]; congruence.
Qed.

(** ** Rollback *)

Lemma delete_protectors_error protectors c h : (delete_protectors protectors (Some c) h).1 = Some c.
Proof.
  revert h. induction protectors as [|p protectors IH]; intros h; cbn; [done|].
  destruct (delete_key _ _ h). apply IH.
Qed.

Lemma delete_protectors_None protectors h h' :
  delete_protectors protectors None h = (None, h') →
  h_root h' = h_root h ∧ h_keys h' = filter (λ l, l ∉ sp_label <$> protectors) (h_keys h)
  ∧ h_missing h' = h_missing h.
Proof.
  revert h. induction protectors as [|p protectors IH]; intros h; cbn.
  - intros [= <-]. split_and!; [done| |done]. symmetry. apply filter_all.
    intros l _ Hl. by apply elem_of_nil in Hl.
  - unfold delete_key. destruct (kp_delete (sp_key p)) as [u|e] eqn:Hd; cbn.
    + intros (-> & -> & ->)%IH. split_and!; [done| |done]. cbn. rewrite retain_filter, list_filter_filter.
      apply list_filter_iff. intros l. rewrite not_elem_of_cons, negb_true_iff, String.eqb_neq.
      tauto.
    + pose proof (delete_protectors_error protectors (error_display e) h) as He.
      destruct (delete_protectors _ _ _). cbn in He. congruence.
Qed.

Lemma write_vault_host file pending h r h' rt :
  write_vault file pending h = (r, h') → h_root h = Some (Directory rt) →
  (h_keys h' = h_keys h ∧ h_missing h' = h_missing h)
  ∧ ∃ rt', h_root h' = Some (Directory rt').
Proof.
  unfold write_vault. intros Hw Hr.
  apply sm_bind_either in Hw as [(e & Hl & _)|([] & h1 & Hl & Hw)];
    unfold lift in Hl; injection Hl as _ <-; [eauto|].
  apply sm_bind_either in Hw as [(e & Hl & _)|(b & h1 & Hl & Hw)];
    unfold lift in Hl; injection Hl as _ <-; [eauto|].
  unfold write_new_private_file in Hw. rewrite Hr in Hw.
  repeat (case_match; simplify_eq/=); eauto.
Qed.

(** What the closure leaves when it fails: the keys it created, and the directory. *)
Lemma create_inner_host run enclave platform policy credentials profile mode h rt e ps h' :
  create_inner run enclave platform policy credentials profile mode h = (Err e, ps, h') →
  h_root h = Some (Directory rt) →
  (∃ rt', h_root h' = Some (Directory rt'))
  ∧ h_keys h' = reverse (sp_label <$> ps) ++ h_keys h ∧ h_missing h' = h_missing h
  ∧ Forall from_factory ps
  ∧ (ps = [] ∨ ∃ id, random_fill run DRAW_INSTALLATION 16 = Ok id
       ∧ Forall (λ p, ∃ j, sp_label p = slot_label j (hex_text id)) ps).
Proof.
  unfold create_inner. intros Hi Hr.
  destruct (random_installation_and_device_vault_ids run) as [[id vault]|e'] eqn:Hids.
  2:{ injection Hi as _ <- <-. eauto 10. }
  assert (random_fill run DRAW_INSTALLATION 16 = Ok id) as Hid.
  { unfold random_installation_and_device_vault_ids in Hids. inv_ok. congruence. }
  destruct (create_protectors 0 _ _ [] h) as [[res ps'] h3] eqn:Hps.
  apply create_protectors_spec in Hps as (new & -> & Hnew & Hroot & Hkeys & Hmiss & Hlab).
  assert (∀ h4, (∃ rt', h_root h4 = Some (Directory rt')) →
    h_keys h4 = h_keys h3 ∧ h_missing h4 = h_missing h3 →
    (∃ rt', h_root h4 = Some (Directory rt'))
    ∧ h_keys h4 = reverse (sp_label <$> new) ++ h_keys h ∧ h_missing h4 = h_missing h
    ∧ Forall from_factory new
    ∧ (new = [] ∨ ∃ id, random_fill run DRAW_INSTALLATION 16 = Ok id
         ∧ Forall (λ p, ∃ j, sp_label p = slot_label j (hex_text id)) new)) as Hdone.
  { intros h4 Hh4 [-> ->]. split_and!; try done. right. eauto. }
  destruct res as [[]|e1].
  2:{ injection Hi as _ <- <-. apply Hdone; [|done]. exists rt. by rewrite Hroot. }
  destruct unix_time as [now|e2].
  2:{ injection Hi as _ <- <-. apply Hdone; [|done]. exists rt. by rewrite Hroot. }
  destruct (create_with_protectors _ _ _ _ _ _ _ h3) as [res' h4] eqn:Hcw.
  injection Hi as -> <- <-. unfold create_with_protectors in Hcw.
  apply sm_bind_either in Hcw as [(e3 & Hb & _)|([file secrets] & h5 & Hb & Hcw)].
  { unfold lift in Hb. injection Hb as _ <-. apply Hdone; [|done]. exists rt. by rewrite Hroot. }
  unfold lift in Hb. injection Hb as _ <-.
  apply sm_bind_either in Hcw as [(e3 & Hw & _)|([] & h5 & Hw & Hcw)].
  - eapply write_vault_host in Hw as [Hk Hrt]; [|by rewrite Hroot]. by apply Hdone.
  - done.
Qed.

(** The labels of this creation are taken away, and only those. *)
Lemma filter_new_labels run h ps :
  (∀ id j, random_fill run DRAW_INSTALLATION 16 = Ok id →
     slot_label j (hex_text id) ∉ h_keys h) →
  (ps = [] ∨ ∃ id, random_fill run DRAW_INSTALLATION 16 = Ok id
     ∧ Forall (λ p, ∃ j, sp_label p = slot_label j (hex_text id)) ps) →
  filter (λ l, l ∉ sp_label <$> ps) (reverse (sp_label <$> ps) ++ h_keys h) = h_keys h.
Proof.
  intros Hfresh Hlab. rewrite filter_app.
  assert (filter (λ l, l ∉ sp_label <$> ps) (reverse (sp_label <$> ps)) = []) as ->.
  { apply filter_none. intros l Hl Hn. by apply Hn, elem_of_reverse. }
  apply filter_all. intros l Hl Hin.
  destruct Hlab as [->|(id & Hid & Hall)]; [by apply elem_of_nil in Hin|].
  apply list_elem_of_fmap in Hin as (p & -> & Hp).
  rewrite Forall_forall in Hall. destruct (Hall p Hp) as [j Hj].
  by apply (Hfresh id j Hid); rewrite <- Hj.
Qed.

Lemma delete_protectors_succeed ps h :
  (∀ label biometric key, factory_create label biometric = Ok key → kp_delete key = Ok tt) →
  Forall from_factory ps →
  delete_protectors ps None h = (None, (delete_protectors ps None h).2).
Proof.
  intros Hdel Hfac. revert h. induction Hfac as [|p ps Hp _ IH]; intros h; [done|].
  cbn. unfold delete_key. rewrite (Hdel _ _ _ Hp). cbn. by rewrite IH.
Qed.

(** Only directories on the way to the vault were made. *)
Definition restored (h h' : Host) : Prop :=
  h_root h' = h_root h ∧ h_keys h' = h_keys h ∧ (h_missing h' ≤ h_missing h)%nat.

(** The new directory of the vault could not be examined or is not private: it is left, empty. *)
Definition left_empty (h h' : Host) (e : VaultError.error) : Prop :=
  h_root h = None ∧ h' = set_root (set_missing h 0) (Some (Directory new_root))
  ∧ (os_fault SystemCall.StatRoot ≠ None ∨ Z.land (Z.land os_new_mode 511) 63 ≠ 0)
  ∧ validate_root h' = (Err e, h').

Lemma prepare_root_Err h e h' :
  prepare_root h = (Err e, h') → restored h h' ∨ left_empty h h' e.
Proof.
  unfold prepare_root. intros Hp.
  apply sm_bind_either in Hp as [(e0 & Hl & _)|([] & h1 & Hl & Hp)];
    apply create_parents_made in Hl as (Hr & Hk & Hm & Hs); [by left; split_and!|].
  specialize (Hs eq_refl) as ->.
  apply sm_bind_either in Hp as [(e0 & Hc & _)|([] & h2 & Hc & Hp)];
    unfold create_private_root in Hc; cbn [h_root set_missing] in Hc;
    destruct (h_root h) as [entry|] eqn:Hroot; try done.
  1,2: left; try destruct (system SystemCall.CreateRoot _); try done; injection Hc as _ <-;
    by split_and!.
  destruct (system SystemCall.CreateRoot _); [|done]. injection Hc as <-. right.
  pose proof (validate_root_same _ _ _ Hp) as ->. split_and!; [done|done| |done].
  destruct (os_fault SystemCall.StatRoot) as [f|] eqn:Hst; [by left|right].
  intros Hm'. unfold validate_root, system in Hp. cbn [h_root set_root] in Hp. rewrite Hst in Hp.
  injection Hp as Hp. cbn [mbind result_bind] in Hp.
  unfold validate_private_permissions, new_root in Hp. cbn [vr_owner vr_mode] in Hp.
  rewrite Z.eqb_refl, Hm' in Hp. done.
Qed.

(** C9: a creation that fails is undone or says so, if the random identifier of the vault makes
    labels that no hardware key has.  Either the directory and the keys are as they were, with
    no more than parent directories made; or the error is the one that names the failed
    rollback; or the creation stopped at its first check, of the directory it had just made,
    which then is left empty with no key made: only if it could not be examined or the system
    did not make it private.  If the keys of the adapter and the directory can be removed,
    rollback does not fail. *)
Theorem failed_creation_undone run enclave platform policy credentials profile mode h e h' :
  create_with_key_protector_policy_mode run enclave platform policy credentials profile mode h
    = (Err e, h') →
  (∀ id j, random_fill run DRAW_INSTALLATION 16 = Ok id →
     slot_label j (hex_text id) ∉ h_keys h) →
  (restored h h' ∨ (∃ error cleanup, e = rollback_failed error cleanup) ∨ left_empty h h' e)
  ∧ ((∀ label biometric key, factory_create label biometric = Ok key → kp_delete key = Ok tt) →
     os_fault SystemCall.RemoveRoot = None → restored h h' ∨ left_empty h h' e).
Proof.
  intros Hc Hfresh. unfold create_with_key_protector_policy_mode in Hc.
  assert (restored h h) as Hsame by (split_and!; done).
  apply sm_bind_either in Hc as [(e0 & Hl & _)|([] & h1 & Hl & Hc)];
    unfold lift in Hl; injection Hl as _ <-; [by eauto|].
  apply sm_bind_either in Hc as [(e0 & Hl & _)|([] & h1 & Hl & Hc)];
    unfold lift in Hl; injection Hl as _ <-; [by eauto|].
  apply sm_bind_either in Hc as [(e0 & Hp & [= ->])|([] & h1 & Hp & Hc)].
  { apply prepare_root_Err in Hp as [?|?]; by eauto. }
  apply prepare_root_Ok in Hp as (Hnone & rt & -> & _).
  unfold stateful in Hc. set (h1 := set_root (set_missing h 0) (Some (Directory rt))) in *.
  destruct (create_inner run enclave platform policy credentials profile mode h1)
    as [[[u|e1] ps] h2] eqn:Hi; [done|].
  eapply create_inner_host in Hi as ((rt' & Hroot) & Hkeys & Hmiss & Hfac & Hlab); [|done].
  destruct (delete_protectors ps None h2) as [cleanup h3] eqn:Hdel.
  assert (cleanup = None → h_root h3 = Some (Directory rt') ∧ h_keys h3 = h_keys h
    ∧ (h_missing h3 ≤ h_missing h)%nat) as Hdeleted.
  { intros ->. apply delete_protectors_None in Hdel as (-> & -> & ->).
    split_and!; [done| |rewrite Hmiss; cbn; lia].
    rewrite Hkeys. change (h_keys h1) with (h_keys h). by eapply filter_new_labels. }
  unfold remove_dir_all in Hc. split.
  - destruct cleanup as [c|].
    { right. left. destruct (os_fault SystemCall.RemoveRoot); [|destruct (h_root h3) as [[]|]];
        cbn in Hc; injection Hc as <- _; eauto. }
    destruct (Hdeleted eq_refl) as (Hr3 & Hk3 & Hle). rewrite Hr3 in Hc.
    destruct (os_fault SystemCall.RemoveRoot); cbn in Hc; injection Hc as <- <-; [eauto|].
    left. by split_and!.
  - intros Hdelete Hrm. rewrite Hrm in Hc. left.
    rewrite (delete_protectors_succeed ps h2 Hdelete Hfac) in Hdel. injection Hdel as <- Hh3.
    destruct (Hdeleted eq_refl) as (Hr3 & Hk3 & Hle). subst h3. rewrite Hr3 in Hc.
    cbn in Hc. injection Hc as _ <-. by split_and!.
Qed.
End Creation.
