(* ===== verification/SealWitness.v ===== *)
(** A vault sealed under two groups, run: it is created, staged and published, opened
    through either group, and a failed creation leaves nothing. *)
From Stdlib Require Import ZArith Lia Bool.
From stdpp Require Import base gmap strings list pretty.
From S2P Require Import Prelude Core Instances Text StoreSpec Signature Manifest.
From S2P Require Import Envelope Database Policy Factor Metadata.
From S2P Require Import Seal SealProofs SealCreation.

Module SealDemo.
#[export] Existing Instances demo_sha256 demo_sha256_ok ManifestDemo.demo_mldsa.
#[export] Existing Instances EnvelopeDemo.demo_gcm EnvelopeDemo.demo_gcm_ok EnvelopeDemo.demo_hmac
  EnvelopeDemo.demo_signers.

(** Every draw is different within a run. *)
#[export] Instance seal_random : Random := λ _ i n, Ok (replicate n (byte_of_Z (Z.of_nat i + 1))).
#[export] Instance seal_random_ok : RandomOk.
Proof. intros tick i n b [= <-]. apply length_replicate. Qed.

#[export] Instance seal_kdf : PasswordKdf := {|
  argon2_block_count memory _ _ := Ok memory;
  argon2id _ _ _ password salt := Ok (take 32 (password ++ salt ++ replicate 32 Byte.x00));
  pbkdf2_hmac_sha256 password salt _ := take 32 (password ++ salt ++ replicate 32 Byte.x00) |}.
#[export] Instance seal_strength : Zxcvbn := {|
  zxcvbn_score p := Z.of_nat (length p) / 8; zxcvbn_feedback _ := None |}.

(** A key of the TPM per label: a wrapped payload carries a mark. *)
Definition tpm_key : KeyProtector := {|
  kp_backend := HardwareBackend.Tpm;
  kp_wrap payload := Ok (Byte.x57 :: payload);
  kp_unwrap wrapped := match wrapped with
                       | Byte.x57 :: payload => Ok payload
                       | _ => Err VaultError.HardwareUnavailable
                       end;
  kp_delete := Ok tt |}.
#[export] Instance seal_factory : KeyProtectorFactory := {|
  factory_create _ _ := Ok tpm_key; factory_open _ _ := Ok tpm_key |}.

Definition quiet_os (fault : SystemCall.call → option string) : Os := {|
  os_display _ := "vault"; os_euid := 1000; os_new_mode := 448; os_not_found := "not found";
  os_already_exists := "exists"; os_fault := fault; os_made := 0; os_written := 3; os_now := 1700000000 |}.
#[export] Instance seal_os : Os := quiet_os (λ _, None).

#[export] Instance algorithm_eq_dec : EqDecision EncryptionAlgorithm.algorithm.
Proof. solve_decision. Defined.
#[export] Instance profile_eq_dec : EqDecision VaultCryptoProfile.profile.
Proof. solve_decision. Defined.
#[export] Instance policy_eq_dec : EqDecision UnlockPolicy.
Proof. solve_decision. Defined.
#[export] Instance parameters_eq_dec : EqDecision FactorParameters.parameters.
Proof. solve_decision. Defined.
#[export] Instance protection_eq_dec : EqDecision NestedProtection.
Proof. solve_decision. Defined.
#[export] Instance slot_eq_dec : EqDecision UnlockSlot.
Proof. solve_decision. Defined.
#[export] Instance wrapped_key_eq_dec : EqDecision WrappedKey.
Proof. solve_decision. Defined.
#[export] Instance reference_eq_dec : EqDecision WrappedSigningReference.
Proof. solve_decision. Defined.
#[export] Instance wrapped_secrets_eq_dec : EqDecision WrappedInstallationSecrets.
Proof. solve_decision. Defined.
#[export] Instance vault_file_eq_dec : EqDecision VaultFile.
Proof. solve_decision. Defined.

(** ** The vault *)

Definition both : UnlockGroup :=
  {| ug_factors := [UnlockFactorKind.Password; UnlockFactorKind.Biometric] |}.
Definition touch : UnlockGroup := {| ug_factors := [UnlockFactorKind.Biometric] |}.
Definition policy : UnlockPolicy := {| up_version := 1; up_groups := [both; touch] |}.
Definition credentials : UnlockCredentials :=
  {| uc_password := Some (as_bytes "opal nebula lantern saffron velocity") |}.
Definition mode (pending : bool) : CreationMode :=
  {| cm_pending := pending; cm_native_signing := false |}.

Definition installation : bytes := replicate 16 Byte.x01.
Definition protectors : list SlotProtector :=
  imap (λ i g, {| sp_group := g; sp_label := slot_label i (hex_text installation);
                  sp_key := tpm_key |}) [both; touch].
Definition creation : VaultCreation := {|
  vc_installation_id := installation; vc_device_vault_id := replicate 16 Byte.x02;
  vc_created_at := 1700000000; vc_platform := VaultPlatform.Linux;
  vc_cryptographic_profile := VaultCryptoProfile.Default; vc_native_signing := false |}.
Definition built : list (VaultFile * InstallationSecrets) :=
  match build_vault 0 None creation policy protectors credentials with
  | Ok b => [b]
  | Err _ => []
  end.
#[export] Instance vault_file_serde : Serde VaultFile := table_serde built.*1.
#[export] Instance vault_file_serde_ok : SerdeOk VaultFile := table_serde_ok _.
#[export] Instance stamp_serde : Serde Stamp := {|
  serde_to_vec _ := Err "not written"; serde_from_slice _ := Err "no stamp" |}.

Definition empty_host : Host := {| h_root := None; h_keys := []; h_missing := 1 |}.
(** After a creation that was undone: the parent directory stays. *)
Definition bare_host : Host := {| h_root := None; h_keys := []; h_missing := 0 |}.
Definition create (pending : bool) (h : Host) : VaultResult UnsealedVault * Host :=
  create_with_key_protector_policy_mode 0 None VaultPlatform.Linux policy credentials
    VaultCryptoProfile.Default (mode pending) h.
Definition opened (b : VaultFile * InstallationSecrets) (initialize : bool) : UnsealedVault := {|
  uv_public := vault_file_public b.1; uv_secrets := b.2; uv_initialize_store := initialize |}.
Definition created : UnsealedVault :=
  match built with
  | b :: _ => opened b true
  | [] => {| uv_public := None; uv_secrets := EnvelopeDemo.secrets; uv_initialize_store := false |}
  end.
Definition created_host : Host := (create false empty_host).2.
Definition staged_host : Host := (create true empty_host).2.
Definition published_host : Host := (complete_initialization staged_host).2.

Lemma run_creation : create false empty_host = (Ok created, created_host).
Proof. vm_compute. reflexivity. Qed.
Lemma run_stage : create true empty_host = (Ok created, staged_host).
Proof. vm_compute. reflexivity. Qed.
Lemma run_publish : complete_initialization staged_host = (Ok tt, published_host).
Proof. vm_compute. reflexivity. Qed.
Lemma reopens_all : factory_reopens.
Proof. intros label biometric key [= <-]. exists tpm_key. split; [done|]. split; [done|]. by intros payload wrapped [= <-]. Qed.
Lemma fits_limit b :
  host_file false published_host = Some b → Z.of_nat (length b) ≤ MAX_VAULT_FILE_BYTES.
Proof.
  assert (host_file false published_host = Some []) as -> by (vm_compute; reflexivity).
  intros [= <-]. done.
Qed.

(** A disk that is full. *)
Definition full_disk : Os :=
  quiet_os (λ c, match c with SystemCall.WriteFile => Some "disk full" | _ => None end).
Definition failed : VaultResult UnsealedVault * Host :=
  create_with_key_protector_policy_mode (H := full_disk) 0 None VaultPlatform.Linux policy
    credentials VaultCryptoProfile.Default (mode false) empty_host.
Lemma run_failed :
  failed = (Err (VaultError.Protection "I/O error for `vault`: disk full"), bare_host).
Proof. vm_compute. reflexivity. Qed.
End SealDemo.

Section Witnesses.
Import SealDemo.

Example decoded_metadata_well_formed_witness :
  (∃ v, serde_from_slice [] = Ok v ∧ vault_file_wf v).
Proof.
  destruct (decode_vault_file []) as [v|e] eqn:Hd; [|vm_compute in Hd; discriminate Hd].
  destruct (proj1 (decoded_metadata_well_formed []) v Hd) as (_ & Hs & Hwf & _).
  exists v. exact (conj Hs Hwf).
Defined.

Example created_vault_unseals_witness :
  unseal_with_key_protector_group both credentials published_host
    = (Ok {| uv_public := uv_public created; uv_secrets := uv_secrets created;
             uv_initialize_store := false |}, published_host).
Proof.
  exact (proj1 (created_vault_unseals 0 None VaultPlatform.Linux policy credentials
    VaultCryptoProfile.Default (mode true) empty_host created staged_host published_host both
    run_stage run_publish reopens_all fits_limit eq_refl eq_refl ltac:(left))).
Defined.

Lemma run_unseal :
  unseal_with_key_protector_group touch credentials created_host
    = (Ok {| uv_public := uv_public created; uv_secrets := uv_secrets created;
             uv_initialize_store := false |}, created_host).
Proof. vm_compute. reflexivity. Qed.

Lemma touch_canonical : canonical touch.
Proof. apply (group_new_canonical (ug_factors touch)). reflexivity. Qed.

Example unseal_needs_every_factor_witness :
  ∃ b, host_file false created_host = Some b.
Proof.
  destruct (unseal_needs_every_factor touch credentials created_host _ created_host touch_canonical run_unseal)
    as (_ & b & _ & _ & _ & _ & Hb & _).
  exists b. exact Hb.
Defined.

Lemma run_destroy :
  destroy_with_key_protector_group touch credentials created_host = (Ok tt, bare_host).
Proof. vm_compute. reflexivity. Qed.
Lemma destroyed_differs : bare_host ≠ created_host.
Proof. intros Heq. apply (f_equal h_root) in Heq. vm_compute in Heq. discriminate Heq. Qed.

Example destroy_needs_unlock_witness :
  (∃ v, unseal_with_key_protector_group touch credentials created_host = (Ok v, created_host))
  ∧ h_root bare_host = None.
Proof.
  destruct (destroy_needs_unlock touch credentials created_host (Ok tt) bare_host run_destroy
    destroyed_differs) as [Hv Hd].
  split; [exact Hv|]. destruct (Hd eq_refl) as (_ & _ & _ & _ & Hr & _). exact Hr.
Defined.

Example staged_metadata_published_whole_witness :
  ∃ b, host_file true staged_host = Some b ∧ host_file false published_host = Some b.
Proof.
  destruct (staged_metadata_published_whole staged_host (Ok tt) published_host run_publish)
    as (b & _ & _ & Hs & _ & _ & Hp & _).
  exists b. exact (conj Hs Hp).
Defined.

Lemma removable label biometric key : factory_create label biometric = Ok key → kp_delete key = Ok tt.
Proof. intros [= <-]. reflexivity. Qed.

(** A directory that cannot be examined right after it was made is left, and stands in the way
    of the next attempt. *)
Definition blind : Os :=
  quiet_os (λ c, match c with SystemCall.StatRoot => Some "input/output error" | _ => None end).
Definition blind_creation (h : Host) : VaultResult UnsealedVault * Host :=
  create_with_key_protector_policy_mode (H := blind) 0 None VaultPlatform.Linux policy
    credentials VaultCryptoProfile.Default (mode false) h.
Example unexamined_root_left :
  h_root (blind_creation empty_host).2 = Some (Directory (new_root (H := blind)))
  ∧ (create false (blind_creation empty_host).2).1
    = Err (VaultError.Protection "refusing to initialize in pre-existing vault root `vault`").
Proof. split; vm_compute; reflexivity. Qed.

Example failed_creation_undone_witness :
  failed = (Err (VaultError.Protection "I/O error for `vault`: disk full"), bare_host)
  ∧ restored empty_host bare_host.
Proof.
  split; [exact run_failed|].
  destruct (proj2 (failed_creation_undone (H := full_disk) 0 None VaultPlatform.Linux policy credentials
    VaultCryptoProfile.Default (mode false) empty_host _ bare_host run_failed
    (λ id j _, not_elem_of_nil _)) removable eq_refl) as [Hr|(_ & Hr & _)]; [exact Hr|discriminate Hr].
Defined.
End Witnesses.
