(* ===== verification/Worker.v ===== *)
(** The store worker (src/src/vault/store/worker.rs, with worker/integrity.rs,
    worker/state.rs and worker/mutation.rs): documents loaded only against the state
    verified at startup, changes written as one encrypted generation in one
    transaction, and the commands of the store over them. *)
From Stdlib Require Import ZArith Lia Bool.
From stdpp Require Import base gmap strings list.
From S2P Require Import Prelude Core Address Text Wire History StoreSpec Signature Manifest KeyringIndex Envelope Automerge Document Database.

(** ** State *)

(** What the worker uses of [VaultMetadata]; a vault identifier has 16 bytes. *)
Record VaultMetadata : Set := {
  vm_installation_id : bytes;
  vm_device_vault_id : bytes;
  vm_device_vault_id_size : length vm_device_vault_id = 16%nat;
  vm_device_key_id : bytes;
  vm_public_signing_key : bytes;
  vm_actor_id : bytes
}.

(** One row of [documents]. *)
Record DocumentRow : Set := {
  row_vault_id : bytes;
  row_document_id : bytes;
  row_scope : DocumentKind;
  row_generation : Z;
  row_key_epoch : Z;
  row_wrapped_key_digest : bytes;
  row_current_commit_id : bytes;
  row_next_eviction : option Z
}.
#[export] Instance document_row_eq_dec : EqDecision DocumentRow.
Proof. solve_decision. Defined.

Record VerifiedDocument : Set := {
  vd_row : DocumentRow;
  vd_snapshot_digest : bytes;
  vd_snapshot_bytes : Z
}.
#[export] Instance verified_document_eq_dec : EqDecision VerifiedDocument.
Proof. solve_decision. Defined.

(** The state verified at startup and carried forward by every commit. *)
Record VerifiedStoreState : Type := {
  vs_head : option bytes;
  vs_documents : gmap bytes VerifiedDocument;
  vs_manifest_digest : option bytes
}.
#[export] Instance verified_store_state_eq_dec : EqDecision VerifiedStoreState.
Proof. solve_decision. Defined.

Definition verified_default : VerifiedStoreState := {|
  vs_head := None; vs_documents := ∅; vs_manifest_digest := None |}.

(** A [BTreeMap] keyed by documents iterates in their order. *)
Definition btree_list {A} (m : gmap bytes A) : list (bytes * A) :=
  order_by (λ a b, bytes_ltb a.1 b.1) (map_to_list m).

Record DocumentHead : Set := {
  dh_current_commit_id : bytes;
  dh_generation : Z;
  dh_key_epoch : Z;
  dh_wrapped_dek : bytes;
  dh_envelope : EncryptedSnapshot;
  dh_data_key : bytes
}.

Record PreparedCommit : Set := {
  pp_vault_id : bytes;
  pp_document_id : bytes;
  pp_scope : DocumentKind;
  pp_expected : option DocumentHead;
  pp_generation : Z;
  pp_key_epoch : Z;
  pp_wrapped_dek : bytes;
  pp_snapshot_envelope : bytes;
  pp_current_head : CurrentHead;
  pp_head_record : bytes;
  pp_next_eviction : option Z
}.

Definition MAX_MANIFEST_BYTES : Z := 32 * 1024.
Definition DOCUMENT_ID_DOMAIN : bytes := as_bytes "factorseal/document-id/v3" ++ [Byte.x00].
Definition CURSOR_DOMAIN : bytes := as_bytes "factorseal/vault-entry-cursor/v1" ++ [Byte.x00].

(** Provenance of a record the store removes on its own. *)
Definition EXPIRY : Provenance.provenance := provenance_service ServiceReason.Expiry.

(** [VerifiedDocument::new]. *)
Definition verified_document_new (head : CurrentHead) (snapshot_bytes : Z) : VerifiedDocument := {|
  vd_row := {|
    row_vault_id := ch_vault_id head; row_document_id := ch_document_id head;
    row_scope := ch_scope head; row_generation := ch_generation head;
    row_key_epoch := ch_key_epoch head; row_wrapped_key_digest := ch_wrapped_key_digest head;
    row_current_commit_id := ch_head_id head; row_next_eviction := ch_next_eviction head |};
  vd_snapshot_digest := ch_snapshot_digest head;
  vd_snapshot_bytes := snapshot_bytes |}.

Section Worker.
Context `{Sha256, Base64, MlDsa65, Aes256Gcm, HmacSha256, Signers, Random}.
Context `{Automerge, PersonalItems}.
Context `{Serde SecretRecord, Serde RecordDeadline, Serde ReplicaCatalog}.
Context `{Serde HistoryEntry, Serde HistoryLog, Serde WrappedKey, Serde EncryptedSnapshot}.
Context `{Serde CurrentHead, Serde StateManifest, Serde Index, AttributeJson}.

Record LoadedDocument : Type := { ld_document : SecretDocument; ld_head : DocumentHead }.

Record StoreWorker : Type := {
  w_tables : Tables;
  w_device : VaultMetadata;
  w_secrets : InstallationSecrets;
  w_verified : VerifiedStoreState;
  w_verifying_key : verifying_key;
  (** Whether sealing was requested, and the environment with the steps it took. *)
  w_sealed : bool;
  w_environment : Environment;
  w_tick : nat
}.
Abbreviation WM := (SM StoreWorker).

Definition set_tables (w : StoreWorker) (t : Tables) : StoreWorker := {|
  w_tables := t; w_device := w_device w; w_secrets := w_secrets w; w_verified := w_verified w;
  w_verifying_key := w_verifying_key w; w_sealed := w_sealed w;
  w_environment := w_environment w; w_tick := w_tick w |}.
Definition set_verified (w : StoreWorker) (v : VerifiedStoreState) : StoreWorker := {|
  w_tables := w_tables w; w_device := w_device w; w_secrets := w_secrets w; w_verified := v;
  w_verifying_key := w_verifying_key w; w_sealed := w_sealed w;
  w_environment := w_environment w; w_tick := w_tick w |}.
Definition set_sealed (w : StoreWorker) (b : bool) : StoreWorker := {|
  w_tables := w_tables w; w_device := w_device w; w_secrets := w_secrets w;
  w_verified := w_verified w; w_verifying_key := w_verifying_key w; w_sealed := b;
  w_environment := w_environment w; w_tick := w_tick w |}.
Definition step (w : StoreWorker) : StoreWorker := {|
  w_tables := w_tables w; w_device := w_device w; w_secrets := w_secrets w;
  w_verified := w_verified w; w_verifying_key := w_verifying_key w; w_sealed := w_sealed w;
  w_environment := w_environment w; w_tick := S (w_tick w) |}.

(** ** Calls to the database *)

(** One call, which the environment may fail. *)
Definition db_call : WM () := λ w,
  (match env_fault (w_environment w) (w_tick w) with
   | Some e => Err (VaultError.Database e)
   | None => Ok tt
   end, step w).

Definition query {A} (f : Tables → A) : WM A :=
  _ ← db_call; reading (λ w, Ok (f (w_tables w))).

(** A statement that changes tables, or breaks a constraint. *)
Definition execute {A} (f : Tables → option (A * Tables)) : WM A :=
  _ ← db_call;
  stateful (λ w, match f (w_tables w) with
                 | Some (a, t) => (Ok a, set_tables w t)
                 | None => (Err (VaultError.Database "constraint failed"), w)
                 end).

(** Fetch the rows of a query one by one. *)
Fixpoint for_rows {A B} (rows : list A) (body : B → A → WM B) (acc : B) : WM B :=
  _ ← db_call;
  match rows with
  | [] => mret acc
  | row :: rows => acc ← body acc row; for_rows rows body acc
  end.

(** [query_optional_blob] of a query on a primary key. *)
Definition query_optional_blob (f : Tables → option Value) : WM (option bytes) :=
  found ← query f;
  _ ← db_call;
  result ← lift (opt_try row_blob found);
  _ ← db_call;
  mret result.

(** [query_count]. *)
Definition query_count (f : Tables → Z) : WM Z :=
  count ← query f;
  _ ← db_call;
  lift (from_i64 count "row count").

(** [Transaction]: dropped without a commit, it is rolled back. *)
Definition transaction {A} (body : WM A) : WM A := λ w,
  match db_call w with
  | (Err e, w) => (Err e, w)
  | (Ok _, w) =>
      match body w with
      | (Err e, w') => (Err e, set_tables w' (w_tables w))
      | (Ok a, w') =>
          match db_call w' with
          | (Err e, w'') => (Err e, set_tables w'' (w_tables w))
          | (Ok _, w'') => (Ok a, w'')
          end
      end
  end.

(** [checkpoint]: the query, its one row and the end of the rows; a status that says
    busy is one of the failures of the environment. *)
Definition checkpoint : WM () :=
  _ ← db_call; _ ← db_call; db_call.

(** ** Verified state *)

Definition current_commit_head : WM (option bytes) :=
  found ← query_optional_blob (λ t, t_meta t !! META_HEAD);
  lift (opt_try (λ b, array_from_blob 32 b "current commit head") found).

Definition read_manifest : WM (StateManifest * bytes) :=
  found ← query_optional_blob (λ t, t_meta t !! META_MANIFEST);
  b ← lift (ok_or (VaultError.InvalidData "current-state manifest is missing") found);
  _ ← lift (fail_if (MAX_MANIFEST_BYTES <? Z.of_nat (length b))
        (VaultError.InvalidData "current-state manifest is too large"));
  manifest ← lift (map_err VaultError.InvalidData (serde_from_slice b));
  mret (manifest, b).

Definition verify_state_anchor : WM () :=
  manifest ← read_manifest;
  verified ← reading (λ w, Ok (w_verified w));
  if negb (bool_decide (Some (digest manifest.2) = vs_manifest_digest verified))
  then lift (Err VaultError.Signature)
  else
    head ← current_commit_head;
    lift (fail_if (negb (bool_decide (head = vs_head verified))) VaultError.Signature).

(** A row of [documents] with its columns checked. *)
Definition read_document_row (key : VaultResult bytes) (c : DocumentColumns)
    : VaultResult DocumentRow :=
  vault_id ← row_blob (dc_vault_id c);
  vault_id ← array_from_blob 16 vault_id "vault ID";
  id ← key;
  kind ← row_text (dc_document_kind c);
  kind ← kind_parse kind;
  generation ← row_integer (dc_generation c);
  generation ← from_i64 generation "document generation";
  key_epoch ← row_integer (dc_key_epoch c);
  key_epoch ← from_i64 key_epoch "document key epoch";
  wrapped ← row_blob (dc_wrapped_dek c);
  commit ← row_blob (dc_current_commit_id c);
  commit ← array_from_blob 32 commit "document commit ID";
  next_eviction ← row_deadline (dc_next_eviction c);
  Ok {| row_vault_id := vault_id; row_document_id := id; row_scope := kind;
        row_generation := generation; row_key_epoch := key_epoch;
        row_wrapped_key_digest := digest wrapped; row_current_commit_id := commit;
        row_next_eviction := next_eviction |}.

Definition document_rows : WM (list DocumentRow) :=
  rows ← query (λ t, rows_by_key (t_documents t));
  for_rows rows (λ documents '(key, columns),
    row ← lift (read_document_row (id ← row_blob key; document_id_from_blob id) columns);
    mret (documents ++ [row])) [].

Definition inventory_row_ok (verified : VerifiedStoreState) (row : DocumentRow) : VaultResult () :=
  fail_if (match vs_documents verified !! row_document_id row with
           | Some expected => negb (bool_decide (vd_row expected = row))
           | None => true
           end)
    (VaultError.InvalidData
       "document is not at its newest protected commit or signed metadata changed").

Definition verify_inventory (verified : VerifiedStoreState) : WM () :=
  head ← current_commit_head;
  _ ← lift (fail_if (negb (bool_decide (head = vs_head verified))) VaultError.Signature);
  rows ← document_rows;
  _ ← lift (fail_if (negb (bool_decide (length rows = size (vs_documents verified))))
        (VaultError.InvalidData "protected document inventory changed"));
  _ ← lift (try_collect (inventory_row_ok verified) rows);
  mret tt.

Definition verify_current_row_sets : WM () :=
  expected ← reading (λ w, Ok (Z.of_nat (size (vs_documents (w_verified w)))));
  heads ← query_count (λ t, Z.of_nat (size (t_heads t)));
  _ ← lift (fail_if (negb (heads =? expected))
        (VaultError.InvalidData "current-state row inventory changed"));
  snapshots ← query_count (λ t, Z.of_nat (size (t_snapshots t)));
  _ ← lift (fail_if (negb (snapshots =? expected))
        (VaultError.InvalidData "current-state row inventory changed"));
  stale ← query_count (λ t, Z.of_nat (size
            (filter (λ kv, snapshot_is_current t kv.1 = false) (t_snapshots t))));
  lift (fail_if (negb (stale =? 0)) VaultError.Signature).

Definition verify_live_inventory : WM () :=
  _ ← verify_state_anchor;
  verified ← reading (λ w, Ok (w_verified w));
  _ ← verify_inventory verified;
  verify_current_row_sets.

Definition verify_snapshot_against_head (head_id document_id : bytes) (generation key_epoch : Z)
    (envelope : bytes) : WM () :=
  verified ← reading (λ w, Ok (w_verified w));
  trusted ← lift (ok_or VaultError.Signature (vs_documents verified !! document_id));
  _ ← lift (fail_if
        (negb (bool_decide (row_current_commit_id (vd_row trusted) = head_id))
         || negb (row_generation (vd_row trusted) =? generation)
         || negb (row_key_epoch (vd_row trusted) =? key_epoch)
         || negb (bool_decide (vd_snapshot_digest trusted = digest envelope)))
        VaultError.Signature);
  found ← query_optional_blob (λ t, select_head t document_id head_id);
  b ← lift (ok_or (VaultError.InvalidData "document head is missing") found);
  head ← lift (map_err VaultError.InvalidData (serde_from_slice b));
  lift (head_verify head (row_current_commit_id (vd_row trusted))).

(** ** Loading *)

(** The current head of a document: its row, its envelope checked against the
    authenticated head, and its key; nothing is decrypted. *)
Definition load_head (document_id : bytes) (expected_scope : DocumentKind)
    : WM (option DocumentHead) :=
  _ ← verify_state_anchor;
  found ← query (λ t, t_documents t !! document_key document_id);
  _ ← db_call;
  verified ← reading (λ w, Ok (w_verified w));
  device ← reading (λ w, Ok (w_device w));
  match found with
  | None =>
      if bool_decide (is_Some (vs_documents verified !! document_id))
      then lift (Err (VaultError.InvalidData "protected document is missing"))
      else mret None
  | Some columns =>
      actual ← lift (read_document_row (Ok document_id) columns);
      wrapped_bytes ← lift (row_blob (dc_wrapped_dek columns));
      _ ← lift (fail_if (match vs_documents verified !! document_id with
                         | Some expected => negb (bool_decide (vd_row expected = actual))
                         | None => true
                         end) VaultError.Signature);
      wrapped ← lift (map_err VaultError.InvalidData (serde_from_slice wrapped_bytes));
      _ ← lift (fail_if
            (negb (bool_decide (row_vault_id actual = vm_device_vault_id device))
             || negb (bool_decide (row_scope actual = expected_scope)))
            (VaultError.InvalidData
               "document vault or kind does not match requested operation"));
      data_key ← reading (λ w,
        unwrap_document_key (w_secrets w) (vm_installation_id device) (row_vault_id actual)
          document_id (row_scope actual) (row_key_epoch actual) wrapped);
      generation ← lift (to_i64 (row_generation actual));
      found ← query_optional_blob (λ t, select_snapshot t document_id generation);
      envelope_bytes ← lift (ok_or (VaultError.InvalidData "document has no current snapshot")
                               found);
      envelope ← lift (map_err VaultError.InvalidData (serde_from_slice envelope_bytes));
      _ ← lift (fail_if
            (negb (bool_decide (es_vault_id envelope = row_vault_id actual))
             || negb (bool_decide (es_document_id envelope = document_id))
             || negb (bool_decide (es_scope envelope = row_scope actual))
             || negb (bool_decide (es_device_key_id envelope = vm_device_key_id device))
             || negb (es_generation envelope =? row_generation actual)
             || negb (es_key_epoch envelope =? row_key_epoch actual))
            (VaultError.InvalidData "snapshot metadata does not match document row"));
      _ ← verify_snapshot_against_head (row_current_commit_id actual) document_id
            (row_generation actual) (row_key_epoch actual) envelope_bytes;
      mret (Some {|
        dh_current_commit_id := row_current_commit_id actual;
        dh_generation := row_generation actual; dh_key_epoch := row_key_epoch actual;
        dh_wrapped_dek := wrapped_bytes; dh_envelope := envelope; dh_data_key := data_key |})
  end.

Definition load_document (document_id : bytes) (expected_scope : DocumentKind)
    (expected_partition : option bytes) : WM (option LoadedDocument) :=
  head ← load_head document_id expected_scope;
  match head with
  | None => mret None
  | Some head =>
      snapshot ← lift (decrypt_snapshot (dh_envelope head) (dh_data_key head));
      document ← reading (λ w,
        document_load snapshot (vm_actor_id (w_device w)) expected_scope expected_partition);
      mret (Some {| ld_document := document; ld_head := head |})
  end.

Definition load_history (document_id : bytes) (expected_scope : DocumentKind)
    (expected_partition : option bytes) : WM (option HistoryLog) :=
  head ← load_head document_id expected_scope;
  match head with
  | None => mret None
  | Some head =>
      b ← lift (decrypt_history (dh_envelope head) (dh_data_key head));
      log ← lift (log_load b expected_scope expected_partition);
      mret (Some log)
  end.

(** ** Committing *)

Definition history_record (log : HistoryLog) (pending : list PendingHistory)
    (context : MutationContext) : VaultResult HistoryLog :=
  match record log pending (mc_now context) (mc_provenance context)
          (mc_device_key_id context) with
  | (Ok _, log) => Ok log
  | (Err e, _) => Err e
  end.

(** [prepare_commit]; [draw] are the random draws: the key and the three nonces. *)
Definition prepare_commit (w : StoreWorker) (draw : nat → nat → VaultResult bytes)
    (document_id : bytes) (scope : DocumentKind) (current : option DocumentHead)
    (mutation : DocumentMutation) (context : MutationContext) : VaultResult PreparedCommit :=
  let device := w_device w in
  let generation := match current with
                    | Some head => u64_saturating_add (dh_generation head) 1
                    | None => 1
                    end in
  let key_epoch := match current with
                   | Some head => u64_saturating_add (dh_key_epoch head) 1
                   | None => 1
                   end in
  _ ← fail_if ((generation =? U64_MAX) || (key_epoch =? U64_MAX))
        (VaultError.InvalidData "document generation is exhausted");
  history ← match current with
            | Some head =>
                b ← decrypt_history (dh_envelope head) (dh_data_key head);
                log_load b scope (Some (dm_partition mutation))
            | None => Ok (log_new scope (dm_partition mutation))
            end;
  let history := migrate_addresses history (dm_address_migrations mutation) in
  history ← history_record history (dm_history mutation) context;
  history_bytes ← log_serialize history;
  key ← generate_document_key (w_secrets w) (vm_installation_id device)
          (vm_device_vault_id device) document_id scope key_epoch (draw 0%nat 32%nat)
          (draw 1%nat 12%nat);
  wrapped_dek ← map_err VaultError.InvalidData (serde_to_vec key.2);
  let envelope_context := {|
    ec_vault_id := vm_device_vault_id device; ec_document_id := document_id; ec_scope := scope;
    ec_device_key_id := vm_device_key_id device; ec_generation := generation;
    ec_key_epoch := key_epoch |} in
  envelope ← encrypt_snapshot envelope_context (dm_snapshot mutation) history_bytes key.1
               (draw 2%nat 12%nat) (draw 3%nat 12%nat);
  snapshot_bytes ← map_err VaultError.InvalidData (serde_to_vec envelope);
  let current_head := head_new {|
    cc_previous_commit_id := None; cc_vault_id := vm_device_vault_id device;
    cc_document_id := document_id; cc_scope := scope; cc_generation := generation;
    cc_key_epoch := key_epoch; cc_wrapped_key_digest := digest wrapped_dek;
    cc_snapshot_digest := digest snapshot_bytes; cc_next_eviction := dm_next_eviction mutation;
    cc_device_key_id := vm_device_key_id device |} in
  head_bytes ← map_err VaultError.InvalidData (serde_to_vec current_head);
  Ok {| pp_vault_id := vm_device_vault_id device; pp_document_id := document_id;
        pp_scope := scope; pp_expected := current; pp_generation := generation;
        pp_key_epoch := key_epoch; pp_wrapped_dek := wrapped_dek;
        pp_snapshot_envelope := snapshot_bytes; pp_current_head := current_head;
        pp_head_record := head_bytes; pp_next_eviction := dm_next_eviction mutation |}.

(** The columns a commit writes. *)
Definition prepared_columns (p : PreparedCommit) (generation key_epoch : Z) (next_eviction : Value)
    : DocumentColumns := {|
  dc_vault_id := Value.Blob (pp_vault_id p);
  dc_document_kind := Value.Text (kind_as_str (pp_scope p));
  dc_generation := Value.Integer generation; dc_key_epoch := Value.Integer key_epoch;
  dc_wrapped_dek := Value.Blob (pp_wrapped_dek p);
  dc_current_commit_id := Value.Blob (ch_head_id (pp_current_head p));
  dc_next_eviction := next_eviction |}.

(** The [WHERE] clause of the update: the row is exactly the one that was loaded. *)
Definition matches_expected (p : PreparedCommit) (expected : DocumentHead)
    (generation key_epoch : Z) (c : DocumentColumns) : bool :=
  bool_decide (dc_vault_id c = Value.Blob (pp_vault_id p))
  && bool_decide (dc_generation c = Value.Integer generation)
  && bool_decide (dc_document_kind c = Value.Text (kind_as_str (pp_scope p)))
  && bool_decide (dc_wrapped_dek c = Value.Blob (dh_wrapped_dek expected))
  && bool_decide (dc_current_commit_id c = Value.Blob (dh_current_commit_id expected))
  && bool_decide (dc_key_epoch c = Value.Integer key_epoch).

Definition persist_document_head (p : PreparedCommit) : WM () :=
  next_eviction ← lift (opt_try to_i64 (pp_next_eviction p));
  let next_eviction := match next_eviction with
                       | Some deadline => Value.Integer deadline
                       | None => Value.Null
                       end in
  generation ← lift (to_i64 (pp_generation p));
  key_epoch ← lift (to_i64 (pp_key_epoch p));
  let columns := prepared_columns p generation key_epoch next_eviction in
  let key := document_key (pp_document_id p) in
  match pp_expected p with
  | Some expected =>
      expected_generation ← lift (to_i64 (dh_generation expected));
      expected_epoch ← lift (to_i64 (dh_key_epoch expected));
      updated ← execute (λ t,
        match t_documents t !! key with
        | Some c =>
            if matches_expected p expected expected_generation expected_epoch c
            then Some (1, set_documents t (<[key := columns]> (t_documents t)))
            else Some (0, t)
        | None => Some (0, t)
        end);
      lift (fail_if (negb (updated =? 1))
              (VaultError.Database "document generation or wrapped key changed concurrently"))
  | None =>
      execute (λ t,
        if bool_decide (t_documents t !! key = None)
           && bool_decide (Value.Blob (pp_vault_id p) ∈ t_vaults t)
        then Some (tt, set_documents t (<[key := columns]> (t_documents t)))
        else None)
  end.

Definition persist_snapshot (document_id : bytes) (generation : Z) (envelope : bytes) : WM () :=
  _ ← execute (λ t, Some (tt, delete_snapshots t document_id));
  generation ← lift (to_i64 generation);
  let key := (document_key document_id, Value.Integer generation) in
  execute (λ t,
    if bool_decide (t_snapshots t !! key = None)
       && bool_decide (is_Some (t_documents t !! document_key document_id))
    then Some (tt, set_snapshots t (<[key := Value.Blob envelope]> (t_snapshots t)))
    else None).

(** The insert or update keeps [head_id] unique. *)
Definition persist_head_record (document_id : bytes) (current_head : CurrentHead)
    (record : bytes) : WM () :=
  let row := {| hc_head_id := Value.Blob (ch_head_id current_head);
                hc_record := Value.Blob record |} in
  execute (λ t,
    if bool_decide (map_Forall (λ key h, key = document_key document_id
                                         ∨ hc_head_id h ≠ hc_head_id row) (t_heads t))
    then Some (tt, set_heads t (<[document_key document_id := row]> (t_heads t)))
    else None).

Definition sign_manifest (w : StoreWorker) (documents : gmap bytes VerifiedDocument)
    (repack_pending : bool) : VaultResult StateManifest :=
  let device := w_device w in
  signer ← secrets_signer (w_secrets w) (vm_installation_id device) (vm_device_vault_id device);
  manifest_new (vm_device_vault_id device) (vm_device_key_id device)
    (Z.of_nat (size documents))
    (inventory_digest (map (λ '(id, d), (id, row_current_commit_id (vd_row d)))
                         (btree_list documents)))
    repack_pending signer.

Definition upsert_meta (key : Value) (value : bytes) : WM () :=
  execute (λ t, Some (tt, set_meta t (<[key := Value.Blob value]> (t_meta t)))).

Definition persist_manifest (manifest : StateManifest) : WM bytes :=
  b ← lift (map_err VaultError.InvalidData (serde_to_vec manifest));
  _ ← upsert_meta META_MANIFEST b;
  _ ← upsert_meta META_HEAD (sm_manifest_id manifest);
  mret (digest b).

Definition persist_commit (p : PreparedCommit) : WM () :=
  next ← transaction (
    _ ← verify_live_inventory;
    _ ← persist_document_head p;
    _ ← persist_snapshot (pp_document_id p) (pp_generation p) (pp_snapshot_envelope p);
    _ ← persist_head_record (pp_document_id p) (pp_current_head p) (pp_head_record p);
    stateful (λ w,
      let next := <[pp_document_id p :=
                      verified_document_new (pp_current_head p)
                        (Z.of_nat (length (pp_snapshot_envelope p)))]>
                    (vs_documents (w_verified w)) in
      (manifest ← lift (sign_manifest w next false);
       fingerprint ← persist_manifest manifest;
       mret {| vs_head := Some (sm_manifest_id manifest); vs_documents := next;
               vs_manifest_digest := Some fingerprint |}) w));
  stateful (λ w, (Ok tt, set_verified w next)).

Definition commit_mutation (document_id : bytes) (scope : DocumentKind)
    (current : option DocumentHead) (mutation : DocumentMutation) (context : MutationContext)
    : WM () :=
  prepared ← stateful (λ w,
    (prepare_commit w (random_fill (w_tick w)) document_id scope current mutation context,
     step w));
  _ ← persist_commit prepared;
  checkpoint.

(** ** Operations *)

Definition worker_context (w : StoreWorker) (provenance : Provenance.provenance) (now : Z)
    : MutationContext := {|
  mc_now := now; mc_provenance := provenance; mc_device_key_id := vm_device_key_id (w_device w);
  mc_version_ids := λ i, random_fill (w_tick w) i (Z.to_nat VERSION_ID_BYTES) |}.

Definition document_id (w : StoreWorker) (kind : DocumentKind) (partition : bytes) : bytes :=
  hmac_sha256 (is_index_key (w_secrets w))
    (DOCUMENT_ID_DOMAIN ++ vm_device_vault_id (w_device w)
     ++ framed (as_bytes (kind_as_str kind)) ++ framed partition).

(** [LockedBytes::from_zeroizing]: only an empty value needs no pages. *)
Definition lock_bytes (b : bytes) : WM bytes := λ w,
  match b with
  | [] => (Ok b, w)
  | _ => (match env_memory (w_environment w) (w_tick w) with
          | Some e => Err (VaultError.Protection ("cannot allocate locked secret memory: " +:+ e))
          | None => Ok b
          end, step w)
  end.

(** Run one operation of a loaded document. *)
Definition on_document {A} (d : SecretDocument) (m : SM SecretDocument A)
    : WM (A * SecretDocument) :=
  match m d with
  | (Ok a, d') => mret (a, d')
  | (Err e, _) => lift (Err e)
  end.

Definition worker_get (id : bytes) (scope : DocumentKind) (partition : bytes)
    (address : SecretAddress) (now : Z) : WM (option StoredSecret) :=
  loaded ← load_document id scope (Some partition);
  match loaded with
  | None => mret None
  | Some loaded =>
      read ← lift (document_get_with_deadline (ld_document loaded) address now);
      match read.1 with
      | SecretRead.Missing => mret None
      | SecretRead.Value value =>
          value ← lock_bytes value;
          mret (Some {| ss_value := value; ss_expires_at := read.2 |})
      | SecretRead.Conflict => lift (Err VaultError.Conflict)
      | SecretRead.Expired =>
          context ← reading (λ w, Ok (worker_context w EXPIRY now));
          removed ← on_document (ld_document loaded) (expire address);
          mutation ← lift (ok_or (VaultError.InvalidData
                             "expired secret disappeared during deletion") removed.1);
          _ ← commit_mutation id scope (Some (ld_head loaded)) mutation context;
          mret None
      end
  end.

(** The loop of [get_many]. *)
Fixpoint read_each (d : SecretDocument) (addresses : list SecretAddress) (now : Z)
    : WM (list (option bytes)) :=
  match addresses with
  | [] => mret []
  | address :: addresses =>
      read ← lift (document_get d address now);
      value ← match read with
              | SecretRead.Value value => value ← lock_bytes value; mret (Some value)
              | SecretRead.Missing | SecretRead.Expired => mret None
              | SecretRead.Conflict => lift (Err VaultError.Conflict)
              end;
      values ← read_each d addresses now;
      mret (value :: values)
  end.

Definition worker_get_many (id : bytes) (scope : DocumentKind) (partition : bytes)
    (addresses : list SecretAddress) (now : Z) : WM (list (option bytes)) :=
  loaded ← load_document id scope (Some partition);
  match loaded with
  | None => mret (map (λ _, None) addresses)
  | Some loaded => read_each (ld_document loaded) addresses now
  end.

(** The document to change, and the head it replaces. *)
Definition open_or_new (id : bytes) (scope : DocumentKind) (partition : bytes)
    (loaded : option LoadedDocument) : WM (SecretDocument * option DocumentHead) :=
  match loaded with
  | Some loaded => mret (ld_document loaded, Some (ld_head loaded))
  | None =>
      document ← reading (λ w, document_new (vm_actor_id (w_device w)) scope partition);
      mret (document, None)
  end.

Definition worker_put (id : bytes) (scope : DocumentKind) (partition : bytes)
    (address : SecretAddress) (value : bytes) (evict_at : option Z)
    (context : MutationContext) : WM () :=
  loaded ← load_document id scope (Some partition);
  opened ← open_or_new id scope partition loaded;
  changed ← on_document opened.1 (document_put address value evict_at context);
  commit_mutation id scope opened.2 changed.1 context.

Definition is_put (op : DocumentOperation.document_operation) : bool :=
  match op with DocumentOperation.Put _ _ _ => true | DocumentOperation.Delete _ => false end.

Definition worker_mutate (id : bytes) (scope : DocumentKind) (partition : bytes)
    (operations : list DocumentOperation.document_operation) (context : MutationContext)
    : WM () :=
  loaded ← load_document id scope (Some partition);
  if bool_decide (is_Some loaded) || existsb is_put operations then
    opened ← open_or_new id scope partition loaded;
    changed ← on_document opened.1 (document_apply operations context);
    match changed.1 with
    | Some mutation => commit_mutation id scope opened.2 mutation context
    | None => mret tt
    end
  else mret tt.

Definition worker_delete (id : bytes) (scope : DocumentKind) (partition : bytes)
    (address : SecretAddress) (context : MutationContext) : WM bool :=
  loaded ← load_document id scope (Some partition);
  match loaded with
  | None => mret false
  | Some loaded =>
      removed ← on_document (ld_document loaded) (document_delete address);
      match removed.1 with
      | None => mret false
      | Some mutation =>
          _ ← commit_mutation id scope (Some (ld_head loaded)) mutation context;
          mret true
      end
  end.

Definition worker_clear (id : bytes) (scope : DocumentKind) (partition : bytes)
    (context : MutationContext) : WM Z :=
  loaded ← load_document id scope (Some partition);
  match loaded with
  | None => mret 0
  | Some loaded =>
      cleared ← on_document (ld_document loaded) document_clear;
      match cleared.1 with
      | None => mret 0
      | Some (count, mutation) =>
          _ ← commit_mutation id scope (Some (ld_head loaded)) mutation context;
          mret count
      end
  end.

(** Purge one loaded document; says whether it changed, and what it is now. *)
Definition purge_loaded (id : bytes) (kind : DocumentKind) (loaded : LoadedDocument) (now : Z)
    (context : MutationContext) : WM (bool * SecretDocument) :=
  purged ← on_document (ld_document loaded) (document_purge_expired now);
  match purged.1 with
  | Some mutation =>
      _ ← commit_mutation id kind (Some (ld_head loaded)) mutation context;
      mret (true, purged.2)
  | None => mret (false, purged.2)
  end.

(** The documents of the verified state that a test selects. *)
Definition verified_documents (p : DocumentRow → bool) (w : StoreWorker)
    : list (bytes * DocumentKind) :=
  (λ '(_, d), (row_document_id (vd_row d), row_scope (vd_row d)))
    <$> filter (λ '(_, d), p (vd_row d) = true) (btree_list (vs_documents (w_verified w))).

Fixpoint purge_each (due : list (bytes * DocumentKind)) (now : Z) (context : MutationContext)
    (changed : Z) : WM Z :=
  match due with
  | [] => mret changed
  | (id, kind) :: due =>
      loaded ← load_document id kind None;
      match loaded with
      | None => purge_each due now context changed
      | Some loaded =>
          purged ← purge_loaded id kind loaded now context;
          purge_each due now context (changed + Z.b2z purged.1)
      end
  end.

Definition worker_purge_expired (now : Z) : WM Z :=
  _ ← verify_live_inventory;
  due ← reading (λ w, Ok (verified_documents
          (λ row, opt_test (λ deadline, deadline <=? now) (row_next_eviction row)) w));
  context ← reading (λ w, Ok (worker_context w EXPIRY now));
  purge_each due now context 0.

(** ** Listings *)

(** [paginate]; no result is the panic of a limit of zero with more to come. *)
Definition paginate {A} (entries : list (string * A)) (cursor : option string) (limit : Z)
    : option (StorePage A) :=
  let matching := retain (λ e, match cursor with Some c => str_ltb c e.1 | None => true end)
                    entries in
  let page := take (Z.to_nat limit + 1) matching in
  if (Z.to_nat limit <? length page)%nat
  then
    let page := take (Z.to_nat limit) page in
    last_entry ← last page;
    Some {| sp_items := page.*2; sp_next_cursor := Some last_entry.1 |}
  else Some {| sp_items := page.*2; sp_next_cursor := None |}.

(** A panic ends the worker: its callers find the channel closed. *)
Definition expect {A} (o : option A) : WM A := λ w,
  match o with
  | Some a => (Ok a, w)
  | None => (Err VaultError.WorkerUnavailable, set_sealed w true)
  end.

(** A sorted listing names every cursor once. *)
Definition sorted_page {A} (entries : list (string * A)) (cursor : option string) (limit : Z)
    (duplicate : string) : WM (StorePage A) :=
  let entries := sort_by fst entries in
  _ ← lift (fail_if (any_window2 (λ x y, String.eqb x.1 y.1) entries)
        (VaultError.InvalidData duplicate));
  expect (paginate entries cursor limit).

Fixpoint project_entries_of (documents : list (bytes * DocumentKind)) (now : Z)
    (context : MutationContext) (projects : list (string * string)) : WM (list (string * string)) :=
  match documents with
  | [] => mret projects
  | (id, _) :: documents =>
      loaded ← load_document id SecretSpecProject None;
      match loaded with
      | None => project_entries_of documents now context projects
      | Some loaded =>
          let partition := sd_partition (ld_document loaded) in
          _ ← lift (fail_if (negb (utf8_valid partition))
                (VaultError.InvalidData "project document partition is not UTF-8"));
          let project := of_bytes partition in
          _ ← lift (convention project "default" "validation");
          purged ← purge_loaded id SecretSpecProject loaded now context;
          addresses ← lift (document_addresses purged.2);
          project_entries_of documents now context
            (if bool_decide (addresses = []) then projects else projects ++ [(project, project)])
      end
  end.

Definition worker_list_projects (cursor : option string) (limit now : Z)
    : WM (StorePage string) :=
  _ ← verify_live_inventory;
  documents ← reading (λ w, Ok (verified_documents
                (λ row, bool_decide (row_scope row = SecretSpecProject)) w));
  context ← reading (λ w, Ok (worker_context w EXPIRY now));
  projects ← project_entries_of documents now context [];
  sorted_page projects cursor limit "duplicate durable project partitions".

(** An address of a project document names that project, if any. *)
Definition project_address (project : string) (entry : string * SecretAddress)
    : VaultResult (string * SecretSpecAddress) :=
  address ← ok_or (VaultError.InvalidData "durable project document contains a local address")
              (as_secret_spec entry.2);
  _ ← fail_if (opt_test (λ p, negb (String.eqb p project)) (secret_spec_project address))
        (VaultError.InvalidData "durable project address belongs to another project");
  Ok (entry.1, address).

Definition worker_list_project_addresses (project : string) (cursor : option string)
    (limit now : Z) : WM (StorePage SecretSpecAddress) :=
  id ← reading (λ w, Ok (document_id w SecretSpecProject (as_bytes project)));
  loaded ← load_document id SecretSpecProject (Some (as_bytes project));
  match loaded with
  | None => mret {| sp_items := []; sp_next_cursor := None |}
  | Some loaded =>
      context ← reading (λ w, Ok (worker_context w EXPIRY now));
      purged ← purge_loaded id SecretSpecProject loaded now context;
      found ← lift (document_addresses purged.2);
      addresses ← lift (try_collect (project_address project) found);
      expect (paginate addresses cursor limit)
  end.

Definition vault_entry_cursor (w : StoreWorker) (kind : DocumentKind) (id : bytes)
    (key : string) : string :=
  b64url_encode (hmac_sha256 (is_index_key (w_secrets w))
    (CURSOR_DOMAIN ++ as_bytes (kind_as_str kind) ++ id ++ as_bytes key)).

(** The labels and access projects of the items of the system keyring. *)
Definition keyring_items_of (d : SecretDocument) (kind : DocumentKind) (partition : bytes) (now : Z)
    : VaultResult (gmap string (string * string)) :=
  if bool_decide (kind = LinuxSecretService) && bool_decide (partition = SECRET_SERVICE_NAMESPACE)
  then
    index_address ← address_new INDEX_ITEM None;
    read ← document_get d index_address now;
    let b := match read with SecretRead.Value value => Some value | _ => None end in
    index ← index_decode b;
    Ok (foldl (λ items item,
          <["item/" +:+ ii_id item :=
              (ii_label item, (access_project (service_target (ii_attributes item))).1)]> items)
          ∅ (ix_items index))
  else Ok ∅.

(** Records that belong to another entry. *)
Definition hidden_entry (kind : DocumentKind) (a : SecretAddress) : bool :=
  (bool_decide (kind = NetworkManagerWifi)
   && opt_test (λ l, bool_decide (l.2 = Some "connection-name")) (as_local a))
  || (bool_decide (kind = LinuxSecretService)
      && bool_decide (as_local a = Some (INDEX_ITEM, None))).

(** What a listing shows of one record. *)
Definition vault_entry (d : SecretDocument) (kind : DocumentKind)
    (keyring_items : gmap string (string * string)) (a : SecretAddress) (now : Z)
    : VaultResult VaultEntryMetadata :=
  summary ← personal_summary d a now;
  display_name ← match kind, as_local a with
                 | NetworkManagerWifi, Some (uuid, _) =>
                     name ← address_new uuid (Some "connection-name");
                     read ← document_get d name now;
                     Ok (match read with
                         | SecretRead.Value value =>
                             if utf8_valid value then Some (of_bytes value) else None
                         | _ => pm_title <$> summary
                         end)
                 | _, _ => Ok (pm_title <$> summary)
                 end;
  let keyring := match as_local a with
                 | Some (item, None) => keyring_items !! item
                 | _ => None
                 end in
  Ok {| em_access_project := snd <$> keyring;
        em_display_name := match keyring with
                           | Some (label, _) => Some label
                           | None => display_name
                           end;
        em_display_type := pm_kind <$> summary;
        em_display_username := summary ≫= pm_username;
        em_display_website := summary ≫= pm_website;
        em_updated_at := pm_updated_at <$> summary;
        em_favorite := match summary with Some s => pm_favorite s | None => false end;
        em_document_kind := kind; em_partition := sd_partition d; em_address := a |}.

Fixpoint vault_entries_of (documents : list (bytes * DocumentKind)) (now : Z)
    (context : MutationContext) (entries : list (string * VaultEntryMetadata))
    : WM (list (string * VaultEntryMetadata)) :=
  match documents with
  | [] => mret entries
  | (id, kind) :: documents =>
      loaded ← load_document id kind None;
      match loaded with
      | None => vault_entries_of documents now context entries
      | Some loaded =>
          purged ← purge_loaded id kind loaded now context;
          let d := purged.2 in
          keyring_items ← lift (keyring_items_of d kind (sd_partition d) now);
          addresses ← lift (document_addresses d);
          found ← reading (λ w, try_collect (λ '(key, a),
            entry ← vault_entry d kind keyring_items a now;
            Ok (vault_entry_cursor w kind id key, entry))
              (retain (λ ka, negb (hidden_entry kind ka.2)) addresses));
          vault_entries_of documents now context (entries ++ found)
      end
  end.

Definition worker_list_vault_entries (cursor : option string) (limit now : Z)
    : WM (StorePage VaultEntryMetadata) :=
  _ ← verify_live_inventory;
  documents ← reading (λ w, Ok (verified_documents
                (λ row, negb (bool_decide (row_scope row = Authorization))) w));
  context ← reading (λ w, Ok (worker_context w EXPIRY now));
  entries ← vault_entries_of documents now context [];
  sorted_page entries cursor limit "duplicate vault inventory cursors".

(** Newest first. *)
Definition worker_list_history (id : bytes) (scope : DocumentKind) (partition : bytes)
    (address : option SecretAddress) (before_seq : option Z) (limit : Z) : WM HistoryPage :=
  log ← load_history id scope (Some partition);
  match log with
  | None => mret {| hp_items := []; hp_next_before_seq := None |}
  | Some log =>
      let entries := retain (λ e,
        negb (opt_test (λ a, negb (bool_decide (he_address e = a))) address)
        && negb (opt_test (λ before, before <=? he_seq e) before_seq)) (hl_entries log) in
      let entries := order_by (λ a b, he_seq b <? he_seq a) entries in
      let has_more := limit <? Z.of_nat (length entries) in
      let entries := take (Z.to_nat limit) entries in
      mret {| hp_items := entries;
              hp_next_before_seq := if has_more then he_seq <$> last entries else None |}
  end.

(** ** Commands *)

(** [WorkerStatus::is_sealed]. *)
Definition worker_is_sealed : WM bool := λ w,
  let sealed := w_sealed w || env_sealed (w_environment w) (w_tick w) in
  (Ok sealed, step (set_sealed w sealed)).

(** Errors after which the worker stops. *)
Definition fatal {A} (r : VaultResult A) : bool :=
  match r with
  | Err (VaultError.Signature | VaultError.Crypto | VaultError.InvalidData _
         | VaultError.Database _ | VaultError.Automerge _) => true
  | _ => false
  end.

Definition send_result {A} (r : VaultResult A) : WM A := λ w,
  let w := (worker_is_sealed w).2 in
  (if w_sealed w then Err VaultError.Sealed else r,
   if fatal r then set_sealed w true else w).

(** [request], with [run_worker] and [execute_command] on the other side of the
    channel: a sealed worker takes no more commands. *)
Definition request {A} (command : WM A) : WM A :=
  _ ← worker_is_sealed;
  _ ← worker_is_sealed;
  stateful (λ w,
    if w_sealed w then (Err VaultError.WorkerUnavailable, w)
    else
      match command w with
      | (Err VaultError.WorkerUnavailable, w) => (Err VaultError.WorkerUnavailable, w)
      | (r, w) => send_result r w
      end).

(** A command that addresses one document. *)
Definition at_document {A} (scope : DocumentKind) (partition : bytes) (command : bytes → WM A)
    : WM A := λ w, command (document_id w scope partition) w.
Definition with_context {A} (provenance : Provenance.provenance) (now : Z)
    (command : MutationContext → WM A) : WM A := λ w, command (worker_context w provenance now) w.

#[export] Instance worker_store : VaultStore StoreWorker := {|
  get_with_deadline scope partition address now :=
    request (at_document scope partition (λ id, worker_get id scope partition address now));
  get_many scope partition addresses now :=
    request (at_document scope partition (λ id, worker_get_many id scope partition addresses now));
  put_at scope partition address value evict_at provenance now :=
    request (at_document scope partition (λ id, with_context provenance now
      (worker_put id scope partition address value evict_at)));
  mutate scope partition operations provenance now :=
    request (at_document scope partition (λ id, with_context provenance now
      (worker_mutate id scope partition operations)));
  delete_at scope partition address provenance now :=
    request (at_document scope partition (λ id, with_context provenance now
      (worker_delete id scope partition address)));
  clear_at scope partition provenance now :=
    request (at_document scope partition (λ id, with_context provenance now
      (worker_clear id scope partition)));
  purge_expired_at now := request (worker_purge_expired now);
  list_projects cursor limit now := request (worker_list_projects cursor limit now);
  list_project_addresses project cursor limit now :=
    request (worker_list_project_addresses project cursor limit now);
  list_vault_entries cursor limit now := request (worker_list_vault_entries cursor limit now);
  list_history scope partition address before_seq limit :=
    request (at_document scope partition (λ id,
      worker_list_history id scope partition address before_seq limit));
  export_revision :=
    request (_ ← verify_live_inventory; reading (λ w, Ok (vs_head (w_verified w))))
|}.
End Worker.
