(* ===== verification/WorkerReads.v ===== *)
(** Reads of the store worker: whatever the database does, a read changes nothing, and
    what it returns is what the same read returns when no call fails. *)
From Stdlib Require Import ZArith Lia Bool.
From stdpp Require Import base gmap strings list.
From S2P Require Import Prelude Core Address Text Wire History StoreSpec Signature Manifest KeyringIndex Envelope Automerge Document Database Worker.

Section WorkerReads.
Context `{Sha256, Base64, MlDsa65, Aes256Gcm, HmacSha256, Signers, Random}.
Context `{Automerge, PersonalItems}.
Context `{Serde SecretRecord, Serde RecordDeadline, Serde ReplicaCatalog}.
Context `{Serde HistoryEntry, Serde HistoryLog, Serde WrappedKey, Serde EncryptedSnapshot}.
Context `{Serde CurrentHead, Serde StateManifest, Serde Index, AttributeJson}.
Abbreviation WM := (SM StoreWorker).

(** ** The data of a worker *)

(** Workers with the same data, the environment and the seal aside. *)
Definition same_data (w w' : StoreWorker) : Prop :=
  w_tables w' = w_tables w ∧ w_device w' = w_device w ∧ w_secrets w' = w_secrets w
  ∧ w_verified w' = w_verified w ∧ w_verifying_key w' = w_verifying_key w.

#[export] Instance same_data_equivalence : Equivalence same_data.
Proof.
  split; [done| |].
  - intros w w' (? & ? & ? & ? & ?). by split_and!.
  - intros w1 w2 w3 (? & ? & ? & ? & ?) (? & ? & ? & ? & ?). unfold same_data.
    split_and!; congruence.
Qed.

(** The worker with its data, and an environment in which nothing fails. *)
Definition quiet (w : StoreWorker) : StoreWorker := {|
  w_tables := w_tables w; w_device := w_device w; w_secrets := w_secrets w;
  w_verified := w_verified w; w_verifying_key := w_verifying_key w; w_sealed := false;
  w_environment := quiet_environment; w_tick := 0 |}.

Definition undisturbed (w : StoreWorker) : Prop := w_environment w = quiet_environment.

Lemma quiet_same w : same_data w (quiet w).
Proof. done. Qed.

Lemma quiet_ext w w' : same_data w w' → quiet w' = quiet w.
Proof. intros (Ht & Hd & Hs & Hv & Hk). unfold quiet. by rewrite Ht, Hd, Hs, Hv, Hk. Qed.

(** What a command returns when no call fails. *)
Definition pure {A} (m : WM A) (w : StoreWorker) : VaultResult A := (m (quiet w)).1.

Lemma pure_ext {A} (m : WM A) w w' : same_data w w' → pure m w' = pure m w.
Proof. intros Hw. unfold pure. by rewrite (quiet_ext _ _ Hw). Qed.

(** A command that only reads. *)
Definition reads {A} (m : WM A) : Prop :=
  ∀ w r w', m w = (r, w') →
    same_data w w' ∧ w_environment w' = w_environment w
    ∧ (∀ a, r = Ok a → pure m w = Ok a) ∧ (undisturbed w → r = pure m w).

Lemma reads_frame {A} (m : WM A) w r w' : reads m → m w = (r, w') → same_data w w'.
Proof. intros Hm Hr. by apply Hm in Hr as [? _]. Qed.

Lemma reads_Ok {A} (m : WM A) w a w' :
  reads m → m w = (Ok a, w') → same_data w w' ∧ pure m w = Ok a.
Proof. intros Hm (? & _ & Hr & _)%Hm. split; [done|by apply Hr]. Qed.

(** ** Composition *)

Lemma reads_local {A} (f : StoreWorker → VaultResult A) :
  (∀ w w', same_data w w' → f w' = f w) → reads (reading f).
Proof.
  intros Hf w r w' [= <- <-]. unfold pure, reading. cbn.
  rewrite (Hf w (quiet w)) by apply quiet_same. done.
Qed.

Lemma reads_lift {A} (r : VaultResult A) : reads (lift r).
Proof. by intros w x w' [= <- <-]. Qed.

Lemma reads_ret {A} (a : A) : reads (mret a).
Proof. by intros w x w' [= <- <-]. Qed.

Lemma reads_db_call : reads db_call.
Proof.
  intros w r w' [= <- <-]. split_and!; [done|done| |].
  - by destruct (env_fault _ _).
  - unfold undisturbed. by intros ->.
Qed.

Lemma reads_bind_pure {A B} (m : WM A) (f : A → WM B) w :
  reads m → (∀ a, reads (f a)) → pure (m ≫= f) w = a ← pure m w; pure (f a) w.
Proof.
  intros Hm Hf. unfold pure at 1, mbind at 1, sm_bind.
  destruct (m (quiet w)) as [r w1] eqn:Hr. pose proof Hr as Hr'.
  apply Hm in Hr' as (Hd & He & _ & _).
  assert (pure m w = r) as -> by (unfold pure; by rewrite Hr). destruct r as [a|e]; [|done]. cbn.
  destruct (f a w1) as [x w2] eqn:Hx. cbn. apply Hf in Hx as (_ & _ & _ & Hq).
  rewrite Hq by (unfold undisturbed; by rewrite He).
  apply pure_ext. by rewrite (quiet_same w), Hd.
Qed.

Lemma reads_bind {A B} (m : WM A) (f : A → WM B) :
  reads m → (∀ a, reads (f a)) → reads (m ≫= f).
Proof.
  intros Hm Hf w r w' Hr. rewrite reads_bind_pure by done.
  apply sm_bind_either in Hr as [(e & Hr & ->)|(a & w1 & Hr & Hr')].
  - apply Hm in Hr as (? & ? & _ & Hq). split_and!; [done|done|done|].
    intros Hu. by rewrite <- Hq.
  - apply Hm in Hr as (Hd & He & Ha & Hq). specialize (Ha a eq_refl).
    apply Hf in Hr' as (Hd' & He' & Ha' & Hq'). rewrite Ha. cbn.
    rewrite (pure_ext (f a) w w1) in * by done.
    split_and!; [by rewrite Hd, Hd'|congruence|done|].
    intros Hu. apply Hq'. unfold undisturbed. congruence.
Qed.

Lemma reads_if {A} (b : bool) (m1 m2 : WM A) :
  reads m1 → reads m2 → reads (if b then m1 else m2).
Proof. by destruct b. Qed.

(** A read that depends on the data it starts from. *)
Lemma reads_stateful {A} (f : StoreWorker → WM A) :
  (∀ w0, reads (f w0)) → (∀ w0 w1, same_data w0 w1 → f w1 = f w0) →
  reads (λ w, f w w).
Proof.
  intros Hf Hext w r w' Hr. pose proof (Hf w _ _ _ Hr) as (Hd & He & Ha & Hq).
  assert (pure (λ w, f w w) w = pure (f w) w) as Hp.
  { unfold pure. by rewrite (Hext w (quiet w)). }
  by rewrite Hp.
Qed.

Create HintDb reads.
#[local] Hint Resolve reads_lift reads_ret reads_db_call reads_bind reads_if : reads.
#[local] Hint Extern 2 (reads (reading _)) =>
  apply reads_local; let Hs := fresh in intros ? ? Hs;
  destruct Hs as (Hs & ? & ? & ? & ?); congruence : reads.

(** ** The reads of the worker *)

Lemma query_reads {A} (f : Tables → A) : reads (query f).
Proof. unfold query. eauto with reads. Qed.
#[local] Hint Resolve query_reads : reads.

Lemma pure_query {A} (f : Tables → A) w : pure (query f) w = Ok (f (w_tables w)).
Proof. done. Qed.

Lemma query_optional_blob_reads f : reads (query_optional_blob f).
Proof. unfold query_optional_blob. eauto 10 with reads. Qed.
#[local] Hint Resolve query_optional_blob_reads : reads.

Lemma pure_optional_blob f w :
  pure (query_optional_blob f) w = opt_try row_blob (f (w_tables w)).
Proof.
  unfold pure, query_optional_blob, query, mbind, sm_bind, reading, lift, db_call. cbn.
  by destruct (f (w_tables w)) as [[]|].
Qed.

Lemma query_count_reads f : reads (query_count f).
Proof. unfold query_count. eauto 10 with reads. Qed.
#[local] Hint Resolve query_count_reads : reads.

Lemma for_rows_reads {A B} (rows : list A) (body : B → A → WM B) acc :
  (∀ b a, reads (body b a)) → reads (for_rows rows body acc).
Proof.
  intros Hb. revert acc. induction rows as [|row rows IH]; intros acc; cbn [for_rows];
    eauto with reads.
Qed.

Lemma current_commit_head_reads : reads current_commit_head.
Proof. unfold current_commit_head. eauto with reads. Qed.
#[local] Hint Resolve current_commit_head_reads : reads.

Lemma read_manifest_reads : reads read_manifest.
Proof. unfold read_manifest. eauto 10 with reads. Qed.
#[local] Hint Resolve read_manifest_reads : reads.

Lemma verify_state_anchor_reads : reads verify_state_anchor.
Proof. unfold verify_state_anchor. eauto 10 with reads. Qed.
#[local] Hint Resolve verify_state_anchor_reads : reads.

Lemma document_rows_reads : reads document_rows.
Proof.
  unfold document_rows. apply reads_bind; [eauto with reads|intros rows].
  apply for_rows_reads. intros b [k c]. eauto with reads.
Qed.
#[local] Hint Resolve document_rows_reads : reads.

Lemma verify_inventory_reads v : reads (verify_inventory v).
Proof. unfold verify_inventory. eauto 10 with reads. Qed.
#[local] Hint Resolve verify_inventory_reads : reads.

Lemma verify_current_row_sets_reads : reads verify_current_row_sets.
Proof. unfold verify_current_row_sets. eauto 12 with reads. Qed.
#[local] Hint Resolve verify_current_row_sets_reads : reads.

Lemma verify_live_inventory_reads : reads verify_live_inventory.
Proof. unfold verify_live_inventory. eauto 10 with reads. Qed.
#[local] Hint Resolve verify_live_inventory_reads : reads.

Lemma verify_snapshot_against_head_reads h id g e b :
  reads (verify_snapshot_against_head h id g e b).
Proof. unfold verify_snapshot_against_head. eauto 12 with reads. Qed.
#[local] Hint Resolve verify_snapshot_against_head_reads : reads.

Lemma load_head_reads id k : reads (load_head id k).
Proof.
  unfold load_head. apply reads_bind; [eauto with reads|intros _].
  apply reads_bind; [eauto with reads|intros found].
  apply reads_bind; [eauto with reads|intros _].
  apply reads_bind; [eauto with reads|intros verified].
  apply reads_bind; [eauto with reads|intros device].
  destruct found as [columns|]; [|eauto with reads].
  eauto 30 with reads.
Qed.
#[local] Hint Resolve load_head_reads : reads.

Lemma load_document_reads id k e : reads (load_document id k e).
Proof.
  unfold load_document. apply reads_bind; [eauto with reads|intros [head|]]; eauto 10 with reads.
Qed.

Lemma load_history_reads id k e : reads (load_history id k e).
Proof.
  unfold load_history. apply reads_bind; [eauto with reads|intros [head|]]; eauto 10 with reads.
Qed.
End WorkerReads.

#[export] Hint Resolve query_reads query_optional_blob_reads query_count_reads
  current_commit_head_reads read_manifest_reads verify_state_anchor_reads document_rows_reads
  verify_inventory_reads verify_current_row_sets_reads verify_live_inventory_reads
  verify_snapshot_against_head_reads load_head_reads load_document_reads load_history_reads
  : reads.


#[export] Hint Resolve reads_lift reads_ret reads_db_call reads_bind reads_if : reads.
#[export] Hint Extern 2 (reads (reading _)) =>
  apply reads_local; let Hs := fresh in intros ? ? Hs;
  destruct Hs as (Hs & ? & ? & ? & ?); congruence : reads.

(** Prove that a composed command only reads. *)
Ltac solve_reads :=
  repeat first
    [ progress intros
    | match goal with |- reads (match ?x with _ => _ end) => destruct x end
    | solve [eauto 3 with reads]
    | apply reads_bind ].
