(* ===== verification/WorkerCommit.v ===== *)
(** Commits of the store worker: a commit that fails inside its transaction changes
    nothing, and one that goes through replaces one document and leaves the others
    loading as before. *)
From Stdlib Require Import ZArith Lia Bool.
From stdpp Require Import base gmap strings list.
From S2P Require Import Prelude Core Address Text Wire History StoreSpec Signature Manifest KeyringIndex Envelope Automerge Document DocumentProofs DocumentAtomic Database Worker WorkerReads.

Section WorkerCommit.
Context `{Sha256, Base64, MlDsa65, Aes256Gcm, HmacSha256, Signers, Random}.
Context `{Automerge, PersonalItems}.
Context `{Serde SecretRecord, Serde RecordDeadline, Serde ReplicaCatalog}.
Context `{Serde HistoryEntry, Serde HistoryLog, Serde WrappedKey, Serde EncryptedSnapshot}.
Context `{Serde CurrentHead, Serde StateManifest, Serde Index, AttributeJson}.
Abbreviation WM := (SM StoreWorker).

(** ** What a load depends on *)

(** [load_head] after the anchor, from the rows and the verified state of one document. *)
Definition checked_head (row : option DocumentColumns) (snapshot : Z → option Value)
    (head : bytes → option Value) (trusted : option VerifiedDocument)
    (device : VaultMetadata) (secrets : InstallationSecrets) (id : bytes) (k : DocumentKind)
    : VaultResult (option DocumentHead) :=
  match row with
  | None =>
      if bool_decide (is_Some trusted)
      then Err (VaultError.InvalidData "protected document is missing") else Ok None
  | Some columns =>
      actual ← read_document_row (Ok id) columns;
      wrapped_bytes ← row_blob (dc_wrapped_dek columns);
      _ ← fail_if (match trusted with
                   | Some expected => negb (bool_decide (vd_row expected = actual))
                   | None => true
                   end) VaultError.Signature;
      wrapped ← map_err VaultError.InvalidData (serde_from_slice wrapped_bytes);
      _ ← fail_if
            (negb (bool_decide (row_vault_id actual = vm_device_vault_id device))
             || negb (bool_decide (row_scope actual = k)))
            (VaultError.InvalidData "document vault or kind does not match requested operation");
      data_key ← unwrap_document_key secrets (vm_installation_id device) (row_vault_id actual)
                   id (row_scope actual) (row_key_epoch actual) wrapped;
      generation ← to_i64 (row_generation actual);
      found ← opt_try row_blob (snapshot generation);
      envelope_bytes ← ok_or (VaultError.InvalidData "document has no current snapshot") found;
      envelope ← map_err VaultError.InvalidData (serde_from_slice envelope_bytes);
      _ ← fail_if
            (negb (bool_decide (es_vault_id envelope = row_vault_id actual))
             || negb (bool_decide (es_document_id envelope = id))
             || negb (bool_decide (es_scope envelope = row_scope actual))
             || negb (bool_decide (es_device_key_id envelope = vm_device_key_id device))
             || negb (es_generation envelope =? row_generation actual)
             || negb (es_key_epoch envelope =? row_key_epoch actual))
            (VaultError.InvalidData "snapshot metadata does not match document row");
      trusted ← ok_or VaultError.Signature trusted;
      _ ← fail_if
            (negb (bool_decide (row_current_commit_id (vd_row trusted)
                                = row_current_commit_id actual))
             || negb (row_generation (vd_row trusted) =? row_generation actual)
             || negb (row_key_epoch (vd_row trusted) =? row_key_epoch actual)
             || negb (bool_decide (vd_snapshot_digest trusted = digest envelope_bytes)))
            VaultError.Signature;
      found ← opt_try row_blob (head (row_current_commit_id actual));
      b ← ok_or (VaultError.InvalidData "document head is missing") found;
      head ← map_err VaultError.InvalidData (serde_from_slice b);
      _ ← head_verify head (row_current_commit_id (vd_row trusted));
      Ok (Some {|
        dh_current_commit_id := row_current_commit_id actual;
        dh_generation := row_generation actual; dh_key_epoch := row_key_epoch actual;
        dh_wrapped_dek := wrapped_bytes; dh_envelope := envelope; dh_data_key := data_key |})
  end.

Lemma result_bind_ext {E A B} (m : result E A) (f g : A → result E B) :
  (∀ a, f a = g a) → m ≫= f = m ≫= g.
Proof. intros Hf. destruct m; [apply Hf|done]. Qed.

Lemma checked_head_ext row s s' h h' trusted device secrets id k :
  (∀ x, s x = s' x) → (∀ x, h x = h' x) →
  checked_head row s h trusted device secrets id k
  = checked_head row s' h' trusted device secrets id k.
Proof.
  intros Hs Hh. unfold checked_head. destruct row as [c|]; [|done].
  repeat (first [rewrite Hs|rewrite Hh|idtac]; apply result_bind_ext; intros ?). done.
Qed.

(** One step of a pure computation on both sides. *)
Lemma pure_step {A B} (m : WM A) (f : A → WM B) w (r : VaultResult A) (g : A → VaultResult B) :
  reads m → (∀ a, reads (f a)) → pure m w = r → (∀ a, r = Ok a → pure (f a) w = g a) →
  pure (m ≫= f) w = r ≫= g.
Proof.
  intros Hm Hf Hr Hg. rewrite reads_bind_pure, Hr by done. destruct r; [|done]. by apply Hg.
Qed.

Lemma pure_next {A B} (m : WM A) (f : A → WM B) w a :
  reads m → (∀ a, reads (f a)) → pure m w = Ok a → pure (m ≫= f) w = pure (f a) w.
Proof. intros Hm Hf Ha. by rewrite reads_bind_pure, Ha by done. Qed.

Ltac pure_steps :=
  repeat (eapply pure_step;
    [solve [eauto with reads]|solve [solve_reads]
    |first [reflexivity|by rewrite pure_optional_blob]|intros ? _]).

Lemma snapshot_against_head_pure h id g e b w :
  pure (verify_snapshot_against_head h id g e b) w =
    trusted ← ok_or VaultError.Signature (vs_documents (w_verified w) !! id);
    _ ← fail_if
          (negb (bool_decide (row_current_commit_id (vd_row trusted) = h))
           || negb (row_generation (vd_row trusted) =? g)
           || negb (row_key_epoch (vd_row trusted) =? e)
           || negb (bool_decide (vd_snapshot_digest trusted = digest b)))
          VaultError.Signature;
    found ← opt_try row_blob (select_head (w_tables w) id h);
    b ← ok_or (VaultError.InvalidData "document head is missing") found;
    head ← map_err VaultError.InvalidData (serde_from_slice b);
    head_verify head (row_current_commit_id (vd_row trusted)).
Proof.
  unfold verify_snapshot_against_head. rewrite reads_bind_pure by solve_reads. cbn -[fail_if].
  pure_steps. reflexivity.
Qed.

Lemma load_head_pure id k w :
  pure (load_head id k) w =
    _ ← pure verify_state_anchor w;
    checked_head (t_documents (w_tables w) !! document_key id)
      (select_snapshot (w_tables w) id) (select_head (w_tables w) id)
      (vs_documents (w_verified w) !! id) (w_device w) (w_secrets w) id k.
Proof.
  unfold load_head.
  eapply pure_step; [solve_reads|solve_reads|done|intros _ _].
  do 4 (etrans; [eapply pure_next; [solve_reads|solve_reads|reflexivity]|]).
  cbn [quiet step w_tables w_verified w_device].
  destruct (t_documents (w_tables w) !! document_key id) as [columns|];
    [|cbn [checked_head]; by destruct (bool_decide _)].
  cbn [checked_head]. pure_steps.
  rewrite reads_bind_pure, snapshot_against_head_pure by solve_reads.
  repeat (match goal with |- (?m ≫= _) ≫= _ = ?m ≫= _ => destruct m; cbn [mbind result_bind] end;
    [|reflexivity]).
  by destruct (head_verify _ _).
Qed.

(** The document a load returns when nothing fails. *)
Definition loaded_at (w : StoreWorker) (id : bytes) (k : DocumentKind) (e : option bytes)
    : VaultResult (option LoadedDocument) := pure (load_document id k e) w.

Lemma load_document_pure id k e w :
  loaded_at w id k e =
    head ← pure (load_head id k) w;
    match head with
    | None => Ok None
    | Some head =>
        snapshot ← decrypt_snapshot (dh_envelope head) (dh_data_key head);
        document ← document_load snapshot (vm_actor_id (w_device w)) k e;
        Ok (Some {| ld_document := document; ld_head := head |})
    end.
Proof.
  unfold loaded_at, load_document.
  eapply pure_step; [solve_reads|solve_reads|done|intros [head|] _; [|done]]. pure_steps. done.
Qed.

(** *** The anchor *)

Lemma read_manifest_pure w :
  pure read_manifest w =
    found ← opt_try row_blob (t_meta (w_tables w) !! META_MANIFEST);
    b ← ok_or (VaultError.InvalidData "current-state manifest is missing") found;
    _ ← fail_if (MAX_MANIFEST_BYTES <? Z.of_nat (length b))
          (VaultError.InvalidData "current-state manifest is too large");
    manifest ← map_err VaultError.InvalidData (serde_from_slice b);
    Ok (manifest, b).
Proof. unfold read_manifest. pure_steps. done. Qed.

Lemma current_commit_head_pure w :
  pure current_commit_head w =
    found ← opt_try row_blob (t_meta (w_tables w) !! META_HEAD);
    opt_try (λ b, array_from_blob 32 b "current commit head") found.
Proof. unfold current_commit_head. pure_steps. done. Qed.

Lemma anchor_holds w b (m : StateManifest) h :
  t_meta (w_tables w) !! META_MANIFEST = Some (Value.Blob b) →
  Z.of_nat (length b) ≤ MAX_MANIFEST_BYTES → serde_from_slice b = Ok m →
  vs_manifest_digest (w_verified w) = Some (digest b) →
  t_meta (w_tables w) !! META_HEAD = Some (Value.Blob h) → length h = 32%nat →
  vs_head (w_verified w) = Some h →
  pure verify_state_anchor w = Ok tt.
Proof.
  intros Hm Hlen Hser Hdig Hh Hl Hhead. unfold verify_state_anchor.
  rewrite reads_bind_pure by solve_reads. rewrite read_manifest_pure, Hm. cbn.
  rewrite (proj2 (Z.ltb_ge _ _)) by done. cbn. rewrite Hser. cbn.
  rewrite reads_bind_pure by solve_reads. change (pure (reading _) w) with (Ok (w_verified w) : VaultResult _).
  cbn. rewrite Hdig, bool_decide_eq_true_2 by done. cbn.
  rewrite reads_bind_pure by solve_reads. rewrite current_commit_head_pure, Hh. cbn.
  unfold array_from_blob. rewrite bool_decide_eq_true_2 by done. cbn.
  rewrite Hhead. unfold pure, lift. cbn. by rewrite bool_decide_eq_true_2.
Qed.

(** ** Writing *)

(** The worker before, with other tables. *)
Definition with_tables (w w' : StoreWorker) (t : Tables) : Prop :=
  same_data (set_tables w t) w'.

Lemma execute_Ok {A} (f : Tables → option (A * Tables)) w a w' :
  execute f w = (Ok a, w') → ∃ t, f (w_tables w) = Some (a, t) ∧ with_tables w w' t.
Proof.
  unfold execute. intros Hx. apply sm_bind_Ok in Hx as ([] & w1 & Hc & Hx).
  apply reads_Ok in Hc as [Hd _]; [|apply reads_db_call]. destruct Hd as (Ht & ? & ? & ? & ?).
  unfold stateful in Hx. rewrite Ht in Hx.
  destruct (f (w_tables w)) as [[x t]|]; [|discriminate]. injection Hx as <- <-.
  exists t. split; [done|]. unfold with_tables, same_data. by split_and!.
Qed.

Lemma with_tables_trans w w1 w2 t t' :
  with_tables w w1 t → with_tables w1 w2 t' → with_tables w w2 t'.
Proof.
  unfold with_tables, same_data. intros (? & ? & ? & ? & ?) (? & ? & ? & ? & ?). cbn in *.
  split_and!; congruence.
Qed.

Lemma with_tables_data w w1 w2 t : same_data w w1 → with_tables w1 w2 t → with_tables w w2 t.
Proof.
  unfold with_tables, same_data. intros (? & ? & ? & ? & ?) (? & ? & ? & ? & ?). cbn in *.
  split_and!; congruence.
Qed.

Lemma persist_document_head_Ok p w w' :
  persist_document_head p w = (Ok tt, w') →
  ∃ next_eviction,
    opt_try to_i64 (pp_next_eviction p) = Ok next_eviction
    ∧ to_i64 (pp_generation p) = Ok (pp_generation p)
    ∧ to_i64 (pp_key_epoch p) = Ok (pp_key_epoch p)
    ∧ with_tables w w' (set_documents (w_tables w)
        (<[document_key (pp_document_id p) :=
             prepared_columns p (pp_generation p) (pp_key_epoch p)
               (match next_eviction with Some d => Value.Integer d | None => Value.Null end)]>
           (t_documents (w_tables w)))).
Proof.
  assert (∀ z y, to_i64 z = Ok y → y = z) as Hto by (unfold to_i64; intros; inv_ok; done).
  unfold persist_document_head. intros Hp.
  apply sm_bind_Ok in Hp as (n & w1 & Hn & Hp). apply lift_Ok in Hn as [Hn ->].
  apply sm_bind_Ok in Hp as (g & w1 & Hg & Hp). apply lift_Ok in Hg as [Hg ->].
  apply sm_bind_Ok in Hp as (e & w1 & He & Hp). apply lift_Ok in He as [He ->].
  pose proof (Hto _ _ Hg) as ->. pose proof (Hto _ _ He) as ->. exists n.
  split_and!; [done..|]. cbv zeta in Hp. destruct (pp_expected p) as [expected|].
  - apply sm_bind_Ok in Hp as (eg & w1 & Heg & Hp). apply lift_Ok in Heg as [_ ->].
    apply sm_bind_Ok in Hp as (ee & w1 & Hee & Hp). apply lift_Ok in Hee as [_ ->].
    apply sm_bind_Ok in Hp as (updated & w1 & Hu & Hp). apply lift_Ok in Hp as [Hp ->].
    apply fail_if_Ok, negb_false_iff, Z.eqb_eq in Hp as ->.
    apply execute_Ok in Hu as (t & Hf & Hw).
    destruct (t_documents _ !! _) as [c|]; [|discriminate].
    destruct (matches_expected _ _ _ _ _); [|discriminate]. by injection Hf as <-.
  - apply execute_Ok in Hp as (t & Hf & Hw). destruct (_ && _); [|discriminate].
    by injection Hf as <-.
Qed.

(** The row that is replaced is the one the commit was prepared from; a new one replaces none. *)
Definition replaces (t : Tables) (p : PreparedCommit) : Prop :=
  match pp_expected p with
  | Some expected => ∃ c, t_documents t !! document_key (pp_document_id p) = Some c
      ∧ dc_generation c = Value.Integer (dh_generation expected)
  | None => t_documents t !! document_key (pp_document_id p) = None
  end.
Lemma persist_document_head_replaces p w w' :
  persist_document_head p w = (Ok tt, w') → replaces (w_tables w) p.
Proof.
  assert (∀ z y, to_i64 z = Ok y → y = z) as Hto by (unfold to_i64; intros; inv_ok; done).
  unfold persist_document_head, replaces. intros Hp. do 3 (apply sm_bind_Ok in Hp as (? & w1 & [_ ->]%lift_Ok & Hp)).
  cbv zeta in Hp. destruct (pp_expected p) as [expected|].
  - apply sm_bind_Ok in Hp as (eg & w1 & [->%Hto ->]%lift_Ok & Hp).
    apply sm_bind_Ok in Hp as (ee & w1 & [_ ->]%lift_Ok & Hp).
    apply sm_bind_Ok in Hp as (updated & w1 & Hu & Hp). apply lift_Ok in Hp as [Hp ->].
    apply fail_if_Ok, negb_false_iff, Z.eqb_eq in Hp as ->.
    apply execute_Ok in Hu as (t & Hf & _).
    destruct (t_documents _ !! _) as [c|]; [|discriminate]. exists c. split; [done|].
    destruct (matches_expected _ _ _ _ _) eqn:Hm; [|discriminate].
    unfold matches_expected in Hm. rewrite !andb_true_iff, !bool_decide_eq_true in Hm. tauto.
  - apply execute_Ok in Hp as (t & Hf & _). destruct (bool_decide _) eqn:Hn; [|discriminate].
    by apply bool_decide_eq_true in Hn.
Qed.

Lemma persist_snapshot_Ok id g b w w' :
  persist_snapshot id g b w = (Ok tt, w') →
  with_tables w w' (set_snapshots (w_tables w)
    (<[(document_key id, Value.Integer g) := Value.Blob b]>
       (filter (λ kv, kv.1.1 ≠ document_key id) (t_snapshots (w_tables w))))).
Proof.
  unfold persist_snapshot. intros Hp. apply sm_bind_Ok in Hp as ([] & w1 & Hd & Hp).
  apply execute_Ok in Hd as (t & [= <-] & Hw1).
  apply sm_bind_Ok in Hp as (z & w2 & Hz & Hp). apply lift_Ok in Hz as [Hz ->].
  assert (z = g) as -> by (unfold to_i64 in Hz; inv_ok; done).
  apply execute_Ok in Hp as (t & Hf & Hw2). pose proof Hw1 as (Ht & _). rewrite Ht in Hf.
  destruct (_ && _); [|discriminate]. injection Hf as <-.
  eapply with_tables_trans; [exact Hw1|]. exact Hw2.
Qed.

Lemma persist_head_record_Ok id h record w w' :
  persist_head_record id h record w = (Ok tt, w') →
  with_tables w w' (set_heads (w_tables w)
    (<[document_key id := {| hc_head_id := Value.Blob (ch_head_id h);
                             hc_record := Value.Blob record |}]> (t_heads (w_tables w)))).
Proof.
  unfold persist_head_record. intros Hp. apply execute_Ok in Hp as (t & Hf & Hw).
  destruct (bool_decide _); [|discriminate]. by injection Hf as <-.
Qed.

Lemma persist_manifest_Ok m w d w' :
  persist_manifest m w = (Ok d, w') →
  ∃ b, serde_to_vec m = Ok b ∧ d = digest b
    ∧ with_tables w w' (set_meta (w_tables w)
        (<[META_HEAD := Value.Blob (sm_manifest_id m)]>
           (<[META_MANIFEST := Value.Blob b]> (t_meta (w_tables w))))).
Proof.
  unfold persist_manifest, upsert_meta. intros Hp.
  apply sm_bind_Ok in Hp as (b & w1 & Hb & Hp). apply lift_Ok in Hb as [Hb ->].
  apply map_err_Ok in Hb.
  apply sm_bind_Ok in Hp as ([] & w1 & Hu1 & Hp). apply execute_Ok in Hu1 as (t1 & [= <-] & Hw1).
  apply sm_bind_Ok in Hp as ([] & w2 & Hu2 & Hp). apply execute_Ok in Hu2 as (t2 & [= <-] & Hw2).
  injection Hp as <- <-. exists b. split_and!; [done..|].
  pose proof Hw1 as (Ht & _). rewrite Ht in Hw2. by eapply with_tables_trans.
Qed.

(** *** Transactions *)

(** A command that changes nothing but the tables, whatever it returns. *)
Definition confined {A} (m : WM A) : Prop :=
  ∀ w r w', m w = (r, w') → same_data (set_tables w (w_tables w')) w'.

Lemma confined_data w w' : same_data w w' → same_data (set_tables w (w_tables w')) w'.
Proof. intros (? & ? & ? & ? & ?). by split_and!. Qed.

Lemma reads_confined {A} (m : WM A) : reads m → confined m.
Proof. intros Hm w r w' Hr. apply Hm in Hr as [Hd _]. by apply confined_data. Qed.

Lemma confined_bind {A B} (m : WM A) (f : A → WM B) :
  confined m → (∀ a, confined (f a)) → confined (m ≫= f).
Proof.
  intros Hm Hf w r w' Hr.
  apply sm_bind_either in Hr as [(e & Hr & _)|(a & w1 & Hr & Hr')]; [by apply Hm in Hr|].
  apply Hm in Hr as (? & ? & ? & ? & ?). apply Hf in Hr' as (? & ? & ? & ? & ?). cbn in *.
  unfold same_data; cbn. split_and!; congruence.
Qed.

Lemma execute_confined {A} (f : Tables → option (A * Tables)) : confined (execute f).
Proof.
  unfold execute. apply confined_bind; [apply reads_confined, reads_db_call|intros _].
  intros w r w' Hr. unfold stateful in Hr. destruct (f _) as [[a t]|]; by injection Hr as _ <-.
Qed.

Lemma transaction_spec {A} (m : WM A) w r w' :
  confined m → transaction m w = (r, w') →
  match r with
  | Ok a => ∃ w1 w2, same_data w w1 ∧ m w1 = (Ok a, w2) ∧ same_data w2 w'
  | Err _ => same_data w w'
  end.
Proof.
  intros Hm Ht. unfold transaction in Ht.
  destruct (db_call w) as [[[]|e] w1] eqn:Hc; apply reads_frame in Hc; try apply reads_db_call;
    [|by injection Ht as <- <-].
  destruct (m w1) as [[a|e] w2] eqn:Hr.
  - destruct (db_call w2) as [[[]|e] w3] eqn:Hc2; pose proof (reads_frame _ _ _ _ reads_db_call Hc2);
      injection Ht as <- <-; [by exists w1, w2|].
    apply Hm in Hr as (? & ? & ? & ? & ?). destruct Hc as (? & ? & ? & ? & ?).
    match goal with Hd : same_data w2 w3 |- _ => destruct Hd as (? & ? & ? & ? & ?) end.
    unfold same_data; cbn in *. split_and!; congruence.
  - injection Ht as <- <-. apply Hm in Hr as (? & ? & ? & ? & ?).
    destruct Hc as (? & ? & ? & ? & ?). unfold same_data; cbn in *. split_and!; congruence.
Qed.

(** ** One commit *)

Definition next_documents (w : StoreWorker) (p : PreparedCommit) : gmap bytes VerifiedDocument :=
  <[pp_document_id p := verified_document_new (pp_current_head p)
                          (Z.of_nat (length (pp_snapshot_envelope p)))]>
    (vs_documents (w_verified w)).

Definition deadline_value (n : option Z) : Value :=
  match n with Some d => Value.Integer d | None => Value.Null end.

(** The tables after a commit. *)
Definition committed_tables (t : Tables) (p : PreparedCommit) (n : option Z) (m : StateManifest)
    (b : bytes) : Tables := {|
  t_documents := <[document_key (pp_document_id p) :=
    prepared_columns p (pp_generation p) (pp_key_epoch p) (deadline_value n)]> (t_documents t);
  t_snapshots := <[(document_key (pp_document_id p), Value.Integer (pp_generation p)) :=
    Value.Blob (pp_snapshot_envelope p)]>
      (filter (λ kv, kv.1.1 ≠ document_key (pp_document_id p)) (t_snapshots t));
  t_heads := <[document_key (pp_document_id p) :=
    {| hc_head_id := Value.Blob (ch_head_id (pp_current_head p));
       hc_record := Value.Blob (pp_head_record p) |}]> (t_heads t);
  t_meta := <[META_HEAD := Value.Blob (sm_manifest_id m)]>
    (<[META_MANIFEST := Value.Blob b]> (t_meta t));
  t_commits := t_commits t;
  t_vaults := t_vaults t |}.

(** The commit went through. *)
Definition written (w w' : StoreWorker) (p : PreparedCommit) : Prop :=
  pure verify_live_inventory w = Ok tt ∧
  ∃ n m b, opt_try to_i64 (pp_next_eviction p) = Ok n
    ∧ to_i64 (pp_generation p) = Ok (pp_generation p)
    ∧ to_i64 (pp_key_epoch p) = Ok (pp_key_epoch p)
    ∧ sign_manifest w (next_documents w p) false = Ok m ∧ serde_to_vec m = Ok b
    ∧ same_data (set_verified (set_tables w (committed_tables (w_tables w) p n m b))
                   {| vs_head := Some (sm_manifest_id m); vs_documents := next_documents w p;
                      vs_manifest_digest := Some (digest b) |}) w'.

Lemma persist_body_confined p : confined (
    _ ← verify_live_inventory;
    _ ← persist_document_head p;
    _ ← persist_snapshot (pp_document_id p) (pp_generation p) (pp_snapshot_envelope p);
    _ ← persist_head_record (pp_document_id p) (pp_current_head p) (pp_head_record p);
    stateful (λ w,
      let next := next_documents w p in
      (manifest ← lift (sign_manifest w next false);
       fingerprint ← persist_manifest manifest;
       mret {| vs_head := Some (sm_manifest_id manifest); vs_documents := next;
               vs_manifest_digest := Some fingerprint |}) w)).
Proof.
  assert (∀ A (r : VaultResult A), confined (lift r)) as Hl
    by (intros; apply reads_confined, reads_lift).
  apply confined_bind; [apply reads_confined, verify_live_inventory_reads|intros _].
  apply confined_bind; [|intros _; apply confined_bind; [|intros _; apply confined_bind; [|intros _]]].
  - unfold persist_document_head. repeat (apply confined_bind; [apply Hl|intros ?]).
    destruct (pp_expected p); [|apply execute_confined].
    repeat (apply confined_bind; [apply Hl|intros ?]).
    apply confined_bind; [apply execute_confined|intros ?; apply Hl].
  - unfold persist_snapshot. apply confined_bind; [apply execute_confined|intros _].
    apply confined_bind; [apply Hl|intros ?; apply execute_confined].
  - apply execute_confined.
  - intros w0 r w' Hr. unfold stateful in Hr. cbv zeta in Hr. revert Hr.
    apply confined_bind; [apply Hl|intros m].
    apply confined_bind; [|intros ?; apply reads_confined, reads_ret].
    unfold persist_manifest. apply confined_bind; [apply Hl|intros b].
    repeat (apply confined_bind; [apply execute_confined|intros ?]).
    apply reads_confined, reads_ret.
Qed.

Lemma same_tables_device w w' t : with_tables w w' t →
  w_tables w' = t ∧ w_device w' = w_device w ∧ w_secrets w' = w_secrets w
  ∧ w_verified w' = w_verified w ∧ w_verifying_key w' = w_verifying_key w.
Proof. done. Qed.

Lemma persist_commit_spec p w r w' :
  persist_commit p w = (r, w') →
  match r with Ok _ => written w w' p | Err _ => same_data w w' end.
Proof.
  unfold persist_commit. intros Hp.
  apply sm_bind_either in Hp as [(e & Ht & ->)|(next & w3 & Ht & Hp)];
    apply transaction_spec in Ht; try exact (persist_body_confined p); [done|].
  destruct Ht as (w1 & w2 & Hd1 & Ht & Hd3). injection Hp as <- <-.
  apply sm_bind_Ok in Ht as ([] & a1 & Hv & Ht).
  apply reads_Ok in Hv as [Hda1 Hv]; [|apply verify_live_inventory_reads].
  apply sm_bind_Ok in Ht as ([] & a2 & Hhead & Ht).
  apply sm_bind_Ok in Ht as ([] & a3 & Hsnap & Ht).
  apply sm_bind_Ok in Ht as ([] & a4 & Hrec & Ht).
  unfold stateful in Ht. apply sm_bind_Ok in Ht as (m & a5 & Hsign & Ht).
  apply lift_Ok in Hsign as [Hsign ->]. apply sm_bind_Ok in Ht as (d & a6 & Hman & [= <- <-]).
  apply persist_document_head_Ok in Hhead as (n & Hn & Hg & He & Hw1).
  apply persist_snapshot_Ok in Hsnap. apply persist_head_record_Ok in Hrec.
  apply persist_manifest_Ok in Hman as (b & Hb & -> & Hw4).
  destruct Hda1 as (T1 & D1 & S1 & V1 & K1). destruct Hd1 as (T0 & D0 & S0 & V0 & K0).
  destruct Hw1 as (T2 & D2 & S2 & V2 & K2). destruct Hsnap as (T3 & D3 & S3 & V3 & K3).
  destruct Hrec as (T4 & D4 & S4 & V4 & K4). destruct Hw4 as (T5 & D5 & S5 & V5 & K5).
  destruct Hd3 as (T6 & D6 & S6 & V6 & K6). cbn in *.
  assert (w_verified a4 = w_verified w) as Hver by congruence.
  assert (w_device a4 = w_device w) as Hdev by congruence.
  assert (w_secrets a4 = w_secrets w) as Hsec by congruence.
  unfold sign_manifest in Hsign. unfold next_documents in *. rewrite Hver, Hdev, Hsec in Hsign.
  split; [by rewrite <- (pure_ext verify_live_inventory w w1) by (by split_and!)|].
  exists n, m, b. split_and!; [done..|].
  unfold same_data, next_documents; cbn. rewrite Hver. split_and!; [|congruence..|done|congruence].
  rewrite T6, T5, T4, T3, T2, T1, T0. done.
Qed.

(** A commit that is stored replaces the row it was prepared from. *)
Lemma persist_commit_replaces p w x w' :
  persist_commit p w = (Ok x, w') → replaces (w_tables w) p.
Proof.
  unfold persist_commit. intros Hp. apply sm_bind_Ok in Hp as (next & w3 & Ht & _).
  apply transaction_spec in Ht; [|exact (persist_body_confined p)].
  destruct Ht as (w1 & w2 & (Hw1 & _) & Ht & _).
  apply sm_bind_Ok in Ht as ([] & a1 & Hv & Ht).
  apply reads_Ok in Hv as [(Ha1 & _) _]; [|apply verify_live_inventory_reads].
  apply sm_bind_Ok in Ht as ([] & a2 & Hhead & _).
  apply persist_document_head_replaces in Hhead. by rewrite Ha1, Hw1 in Hhead.
Qed.

(** ** Loads after a commit *)

(** A manifest the device signs fits the limit of the reader. *)
Definition manifests_fit : Prop := ∀ w documents repack m b,
  sign_manifest w documents repack = Ok m → serde_to_vec m = Ok b →
  Z.of_nat (length b) ≤ MAX_MANIFEST_BYTES.

Context `{!Sha256Ok, !SerdeOk StateManifest} (Hfit : manifests_fit).

Lemma live_inventory_anchor w :
  pure verify_live_inventory w = Ok tt → pure verify_state_anchor w = Ok tt.
Proof.
  unfold verify_live_inventory. rewrite reads_bind_pure by solve_reads.
  intros (u & Hu & _)%bind_Ok. by destruct u.
Qed.

Lemma written_anchor w w' p : written w w' p → pure verify_state_anchor w' = Ok tt.
Proof using All.
  intros (_ & n & m & b & _ & _ & _ & Hs & Hb & Hw).
  rewrite (pure_ext _ _ _ Hw). eapply (anchor_holds _ b m (sm_manifest_id m)); cbn.
  - rewrite lookup_insert_ne, lookup_insert_eq by done. done.
  - by eapply Hfit.
  - by apply serde_roundtrip.
  - done.
  - by rewrite lookup_insert_eq.
  - unfold sign_manifest, manifest_new in Hs. inv_ok. apply sha256_length.
  - done.
Qed.

Lemma document_key_inj a b : document_key a = document_key b → a = b.
Proof. by intros [= ->]. Qed.

(** Other documents load as before. *)
Lemma written_other w w' p id k :
  written w w' p → id ≠ pp_document_id p →
  pure (load_head id k) w' = pure (load_head id k) w.
Proof using All.
  intros Hw Hne. pose proof (written_anchor _ _ _ Hw) as Ha'.
  rewrite !load_head_pure, Ha'. destruct Hw as (Hl & n & m & b & _ & _ & _ & _ & _ & Hw).
  rewrite (live_inventory_anchor _ Hl). cbn [mbind result_bind].
  destruct Hw as (Ht & Hd & Hs & Hv & _). cbn in Ht, Hd, Hs, Hv. rewrite Ht, Hd, Hs, Hv.
  cbn [t_documents committed_tables vs_documents]. unfold next_documents.
  assert (document_key id ≠ document_key (pp_document_id p)) as Hk by (by intros ?%document_key_inj).
  rewrite !lookup_insert_ne by done.
  apply checked_head_ext; intros x.
  - unfold select_snapshot. cbn. rewrite lookup_insert_ne by congruence.
    destruct (t_snapshots (w_tables w) !! (document_key id, Value.Integer x)) as [v|] eqn:Hx.
    + by apply map_lookup_filter_Some_2.
    + apply map_lookup_filter_None_2. by left.
  - unfold select_head. cbn. by rewrite lookup_insert_ne by congruence.
Qed.

(** *** The committed document *)

Context `{!SerdeOk WrappedKey, !SerdeOk EncryptedSnapshot, !SerdeOk CurrentHead}.
Context `{!Aes256GcmOk, !RandomOk}.

(** What a prepared commit holds. *)
Record prepared_for (w : StoreWorker) (id : bytes) (k : DocumentKind)
    (current : option DocumentHead) (mutation : DocumentMutation) (p : PreparedCommit) : Prop := {
  pf_vault : pp_vault_id p = vm_device_vault_id (w_device w);
  pf_id : pp_document_id p = id;
  pf_scope : pp_scope p = k;
  pf_generation : pp_generation p = match current with
    | Some head => u64_saturating_add (dh_generation head) 1 | None => 1 end;
  pf_epoch : pp_key_epoch p = match current with
    | Some head => u64_saturating_add (dh_key_epoch head) 1 | None => 1 end;
  pf_eviction : pp_next_eviction p = dm_next_eviction mutation;
  pf_contents : ∃ dek wrapped envelope,
    serde_from_slice (pp_wrapped_dek p) = Ok wrapped
    ∧ unwrap_document_key (w_secrets w) (vm_installation_id (w_device w))
        (vm_device_vault_id (w_device w)) id k (pp_key_epoch p) wrapped = Ok dek
    ∧ serde_from_slice (pp_snapshot_envelope p) = Ok envelope
    ∧ decrypt_snapshot envelope dek = Ok (dm_snapshot mutation)
    ∧ envelope_context envelope = {|
        ec_vault_id := vm_device_vault_id (w_device w); ec_document_id := id; ec_scope := k;
        ec_device_key_id := vm_device_key_id (w_device w); ec_generation := pp_generation p;
        ec_key_epoch := pp_key_epoch p |};
  pf_record : serde_from_slice (pp_head_record p) = Ok (pp_current_head p);
  pf_head : pp_current_head p = head_new {|
    cc_previous_commit_id := None; cc_vault_id := vm_device_vault_id (w_device w);
    cc_document_id := id; cc_scope := k; cc_generation := pp_generation p;
    cc_key_epoch := pp_key_epoch p; cc_wrapped_key_digest := digest (pp_wrapped_dek p);
    cc_snapshot_digest := digest (pp_snapshot_envelope p);
    cc_next_eviction := dm_next_eviction mutation;
    cc_device_key_id := vm_device_key_id (w_device w) |}
}.

Lemma prepare_commit_Ok w tick id k current mutation ctx p :
  prepare_commit w (random_fill tick) id k current mutation ctx = Ok p →
  prepared_for w id k current mutation p.
Proof using All.
  unfold prepare_commit. intros Hp.
  apply bind_Ok in Hp as ([] & _ & Hp). apply bind_Ok in Hp as (hist & _ & Hp).
  apply bind_Ok in Hp as (hist' & _ & Hp). apply bind_Ok in Hp as (hb & _ & Hp).
  apply bind_Ok in Hp as ([dek wrapped] & Hk & Hp). apply bind_Ok in Hp as (wb & Hwb & Hp).
  apply bind_Ok in Hp as (envelope & He & Hp). apply bind_Ok in Hp as (sb & Hsb & Hp).
  apply bind_Ok in Hp as (hd & Hhd & Hp). injection Hp as <-.
  apply map_err_Ok in Hwb, Hsb, Hhd. cbn [fst snd] in *.
  apply document_key_round_trip in Hk as [Hk _]; [|by intros ? ?%random_length].
  apply encrypt_snapshot_opens in He as (Hs & _ & Hc).
  split; cbn; try done; [|by apply serde_roundtrip].
  exists dek, wrapped, envelope. split_and!; [by apply serde_roundtrip|done|by apply serde_roundtrip|done|done].
Qed.

(** Counters of a loaded head are not negative. *)
Definition head_counts (current : option DocumentHead) : Prop :=
  match current with
  | Some head => 0 ≤ dh_generation head ∧ 0 ≤ dh_key_epoch head
  | None => True
  end.

Lemma from_i64_count z name : 0 ≤ z → from_i64 z name = Ok z.
Proof. intros Hz. unfold from_i64. by rewrite (proj2 (Z.ltb_ge _ _)). Qed.

Lemma successor_counts z : 0 ≤ z → 0 ≤ u64_saturating_add z 1.
Proof. unfold u64_saturating_add, U64_MAX. lia. Qed.

Lemma array_from_blob_size n b name : length b = n → array_from_blob n b name = Ok b.
Proof. intros Hl. unfold array_from_blob. by rewrite bool_decide_eq_true_2. Qed.

(** The row a commit writes reads back as the row it verified. *)
Lemma read_committed_row w id k current mutation p n :
  prepared_for w id k current mutation p → head_counts current →
  deadline_counts (dm_next_eviction mutation) →
  opt_try to_i64 (pp_next_eviction p) = Ok n →
  read_document_row (Ok id)
    (prepared_columns p (pp_generation p) (pp_key_epoch p) (deadline_value n))
  = Ok (vd_row (verified_document_new (pp_current_head p)
                  (Z.of_nat (length (pp_snapshot_envelope p))))).
Proof using All.
  intros [Hv Hi Hs Hg He Hn Hc Hr Hh] Hcnt Hdl Hto.
  assert (0 ≤ pp_generation p ∧ 0 ≤ pp_key_epoch p) as [Hg0 He0].
  { rewrite Hg, He. destruct current as [head|]; [|lia]. destruct Hcnt.
    split; by apply successor_counts. }
  assert (row_deadline (deadline_value n) = Ok (dm_next_eviction mutation)) as Hrow.
  { rewrite Hn in Hto. destruct (dm_next_eviction mutation) as [d|]; cbn in Hto.
    - apply bind_Ok in Hto as (x & Hx & [= <-]). unfold to_i64 in Hx. inv_ok. cbn.
      by rewrite from_i64_count by (by apply Hdl).
    - by injection Hto as <-. }
  unfold read_document_row, prepared_columns.
  cbn [dc_vault_id dc_document_kind dc_generation dc_key_epoch dc_wrapped_dek
       dc_current_commit_id dc_next_eviction row_blob row_text row_integer mbind result_bind].
  rewrite (array_from_blob_size 16) by (rewrite Hv; apply vm_device_vault_id_size).
  cbn [mbind result_bind]. rewrite kind_parse_as_str. cbn [mbind result_bind].
  rewrite !from_i64_count by done. cbn [mbind result_bind].
  rewrite (array_from_blob_size 32) by (rewrite Hh; apply sha256_length).
  cbn [mbind result_bind]. rewrite Hrow. cbn [mbind result_bind]. rewrite Hh, Hv, Hs. done.
Qed.

Lemma head_new_verifies c : head_verify (head_new c) (ch_head_id (head_new c)) = Ok tt.
Proof.
  unfold head_verify. rewrite bool_decide_eq_true_2 by done.
  by rewrite (bool_decide_eq_true_2 (calculate_id _ = _)).
Qed.

Lemma checked_head_Some columns snapshot head trusted device secrets id k wb wrapped dek eb
    envelope rb hd :
  let row := vd_row trusted in
  read_document_row (Ok id) columns = Ok row → row_blob (dc_wrapped_dek columns) = Ok wb →
  serde_from_slice wb = Ok wrapped → row_vault_id row = vm_device_vault_id device →
  row_scope row = k →
  unwrap_document_key secrets (vm_installation_id device) (row_vault_id row) id k
    (row_key_epoch row) wrapped = Ok dek →
  to_i64 (row_generation row) = Ok (row_generation row) →
  snapshot (row_generation row) = Some (Value.Blob eb) → serde_from_slice eb = Ok envelope →
  envelope_context envelope = {|
    ec_vault_id := row_vault_id row; ec_document_id := id; ec_scope := k;
    ec_device_key_id := vm_device_key_id device; ec_generation := row_generation row;
    ec_key_epoch := row_key_epoch row |} →
  vd_snapshot_digest trusted = digest eb →
  head (row_current_commit_id row) = Some (Value.Blob rb) → serde_from_slice rb = Ok hd →
  head_verify hd (row_current_commit_id row) = Ok tt →
  checked_head (Some columns) snapshot head (Some trusted) device secrets id k
  = Ok (Some {| dh_current_commit_id := row_current_commit_id row;
                dh_generation := row_generation row; dh_key_epoch := row_key_epoch row;
                dh_wrapped_dek := wb; dh_envelope := envelope; dh_data_key := dek |}).
Proof.
  intros row Hr Hwb Hwk Hv Hk Hu Hg Hs He Hc Hd Hh Hhd Hver.
  unfold envelope_context in Hc. injection Hc as Hc1 Hc2 Hc3 Hc4 Hc5 Hc6.
  assert (∀ (P : Prop) `{Decision P}, P → negb (bool_decide P) = false) as Hdec
    by (intros P dec HP; by rewrite bool_decide_eq_true_2).
  unfold checked_head. rewrite Hr. cbn [mbind result_bind]. rewrite Hwb. cbn [mbind result_bind].
  fold row. rewrite (Hdec (row = row)) by done. cbn [fail_if mbind result_bind]. rewrite Hwk.
  cbn [map_err mbind result_bind]. rewrite (Hdec _ _ Hv), (Hdec _ _ Hk).
  cbn [orb fail_if mbind result_bind]. rewrite Hk, Hu. cbn [mbind result_bind]. rewrite Hg.
  cbn [mbind result_bind]. rewrite Hs. cbn [opt_try row_blob ok_or mbind result_bind]. rewrite He.
  cbn [map_err mbind result_bind].
  rewrite (Hdec _ _ Hc1), (Hdec _ _ Hc2), (Hdec _ _ Hc3), (Hdec _ _ Hc4), Hc5, Hc6, !Z.eqb_refl.
  cbn [orb negb fail_if mbind result_bind]. fold row.
  rewrite (Hdec (row_current_commit_id row = row_current_commit_id row)) by done.
  rewrite ?Z.eqb_refl, (Hdec _ _ Hd). cbn [orb negb fail_if mbind result_bind]. rewrite Hh.
  cbn [opt_try row_blob ok_or mbind result_bind]. rewrite Hhd. cbn [map_err mbind result_bind].
  by rewrite Hver.
Qed.

(** A row of another kind is refused. *)
Lemma checked_head_kind columns snapshot head trusted device secrets id k k' row :
  read_document_row (Ok id) columns = Ok row → row_scope row = k → k' ≠ k →
  ∃ e, checked_head (Some columns) snapshot head trusted device secrets id k' = Err e.
Proof.
  intros Hr Hk Hne.
  destruct (checked_head (Some columns) snapshot head trusted device secrets id k') as [x|e] eqn:Hx;
    [|by eexists].
  exfalso. unfold checked_head in Hx. rewrite Hr in Hx. cbn [mbind result_bind] in Hx.
  apply bind_Ok in Hx as (wb & _ & Hx). apply bind_Ok in Hx as ([] & _ & Hx).
  apply bind_Ok in Hx as (wk & _ & Hx). apply bind_Ok in Hx as ([] & Hf & _).
  apply fail_if_Ok, orb_false_iff in Hf as [_ Hf].
  apply negb_false_iff, bool_decide_eq_true in Hf. congruence.
Qed.

(** After a commit, the document loads with the contents the commit sealed. *)
Lemma written_this w w' p id k current mutation :
  prepared_for w id k current mutation p → written w w' p → head_counts current →
  deadline_counts (dm_next_eviction mutation) →
  (∃ head, pure (load_head id k) w' = Ok (Some head)
     ∧ decrypt_snapshot (dh_envelope head) (dh_data_key head) = Ok (dm_snapshot mutation))
  ∧ ∀ k', k' ≠ k → ∃ e, pure (load_head id k') w' = Err e.
Proof using All.
  intros Hpf Hw Hcnt Hdl. pose proof (written_anchor _ _ _ Hw) as Ha.
  destruct Hw as (_ & n & m & b & Hto & Hg & _ & _ & _ & Ht & Hd & Hs & Hv & _).
  cbn in Ht, Hd, Hs, Hv.
  pose proof (read_committed_row _ _ _ _ _ _ _ Hpf Hcnt Hdl Hto) as Hrow.
  destruct Hpf as [Hvid Hi Hsc _ _ _ (dek & wrapped & envelope & Hwk & Hun & Hen & Hsnap & Hctx)
    Hrec Hh].
  assert (∀ k', pure (load_head id k') w' =
    checked_head (Some (prepared_columns p (pp_generation p) (pp_key_epoch p) (deadline_value n)))
      (select_snapshot (w_tables w') id) (select_head (w_tables w') id)
      (Some (verified_document_new (pp_current_head p) (Z.of_nat (length (pp_snapshot_envelope p)))))
      (w_device w) (w_secrets w) id k') as Heq.
  { intros k'. rewrite load_head_pure, Ha, Hd, Hs, Hv. cbn [mbind result_bind vs_documents].
    unfold next_documents. rewrite Hi, lookup_insert_eq, Ht. cbn [t_documents committed_tables].
    by rewrite Hi, lookup_insert_eq. }
  set (trusted := verified_document_new _ _) in *.
  assert (row_vault_id (vd_row trusted) = vm_device_vault_id (w_device w)
    ∧ row_scope (vd_row trusted) = k ∧ row_key_epoch (vd_row trusted) = pp_key_epoch p
    ∧ row_generation (vd_row trusted) = pp_generation p
    ∧ vd_snapshot_digest trusted = digest (pp_snapshot_envelope p)
    ∧ row_current_commit_id (vd_row trusted) = ch_head_id (pp_current_head p))
    as (R1 & R2 & R3 & R4 & R5 & R6).
  { unfold trusted. cbn. rewrite Hh. by split_and!. }
  split; [|intros k' Hk'; rewrite Heq; by eapply checked_head_kind].
  eexists. rewrite Heq. split.
  - eapply (checked_head_Some _ _ _ trusted _ _ _ _ (pp_wrapped_dek p) wrapped dek
      (pp_snapshot_envelope p) envelope (pp_head_record p) (pp_current_head p)); try done.
    + by rewrite R1, R3.
    + by rewrite R4.
    + unfold select_snapshot. rewrite Ht, R4. cbn. by rewrite Hi, lookup_insert_eq.
    + by rewrite Hctx, R1, R3, R4.
    + unfold select_head. rewrite Ht, R6. cbn. rewrite Hi, lookup_insert_eq.
      cbn. by rewrite bool_decide_eq_true_2.
    + rewrite R6, Hh. apply head_new_verifies.
  - done.
Qed.
End WorkerCommit.
