(* ===== verification/WorkerViews.v ===== *)
(** What the store worker holds: the records every document loads to, and how a commit
    changes them. *)
From Stdlib Require Import ZArith Lia Bool.
From stdpp Require Import base gmap strings list.
From S2P Require Import Prelude Core Address Text Wire History StoreSpec Signature Manifest KeyringIndex Envelope Automerge Document DocumentProofs DocumentAtomic Database Worker WorkerReads WorkerCommit.

Section WorkerViews.
Context `{Sha256, Base64, MlDsa65, Aes256Gcm, HmacSha256, Signers, Random}.
Context `{AutomergeOk, PersonalItems}.
Context `{SerdeOk SecretRecord, Serde RecordDeadline, Serde ReplicaCatalog} `{!RecordSerdeOk}.
Context `{Serde HistoryEntry, Serde HistoryLog, SerdeOk WrappedKey, SerdeOk EncryptedSnapshot}.
Context `{SerdeOk CurrentHead, SerdeOk StateManifest, Serde Index, AttributeJson}.
Context `{!DeadlineSerdeOk, !Sha256Ok, !Aes256GcmOk, !RandomOk} (Hfit : manifests_fit).
Abbreviation WM := (SM StoreWorker).

(** ** Views *)

Definition document_at (w : StoreWorker) (id : bytes) (k : DocumentKind) (e : option bytes)
    : option SecretDocument :=
  match loaded_at w id k e with
  | Ok (Some l) => Some (ld_document l)
  | _ => None
  end.

Definition worker_view (w : StoreWorker) (k : DocumentKind) (p : bytes) : DocumentView :=
  match document_at w (document_id w k p) k (Some p) with
  | Some d => document_view d
  | None => ∅
  end.

(** The same identity, so the same document identifiers. *)
Definition same_identity (w w' : StoreWorker) : Prop :=
  w_device w' = w_device w ∧ w_secrets w' = w_secrets w.

Lemma document_id_ext w w' k p : same_identity w w' → document_id w' k p = document_id w k p.
Proof. intros [Hd Hs]. unfold document_id. by rewrite Hd, Hs. Qed.

Lemma loaded_at_ext w w' id k e : same_data w w' → loaded_at w' id k e = loaded_at w id k e.
Proof. apply pure_ext. Qed.

Lemma same_data_identity w w' : same_data w w' → same_identity w w'.
Proof. by intros (_ & ? & ? & _). Qed.

Lemma worker_view_ext w w' k p : same_data w w' → worker_view w' k p = worker_view w k p.
Proof.
  intros Hw. unfold worker_view, document_at.
  by rewrite (document_id_ext w w') by (by apply same_data_identity);
    rewrite (loaded_at_ext w w').
Qed.

(** ** What loads say *)

Lemma loaded_split w id k e l :
  loaded_at w id k e = Ok (Some l) →
  pure (load_head id k) w = Ok (Some (ld_head l))
  ∧ ∃ snapshot, decrypt_snapshot (dh_envelope (ld_head l)) (dh_data_key (ld_head l)) = Ok snapshot
    ∧ document_load snapshot (vm_actor_id (w_device w)) k e = Ok (ld_document l).
Proof.
  rewrite load_document_pure. intros Hl. apply bind_Ok in Hl as (h & Hh & Hl).
  destruct h as [h|]; [|discriminate]. apply bind_Ok in Hl as (s & Hs & Hl).
  apply bind_Ok in Hl as (d & Hd & [= <-]). eauto.
Qed.

Lemma loaded_ok w id k e l :
  loaded_at w id k e = Ok (Some l) →
  document_ok (ld_document l) ∧ sd_kind (ld_document l) = k
  ∧ ∀ p, e = Some p → sd_partition (ld_document l) = p.
Proof.
  intros (_ & s & _ & Hl)%loaded_split. apply document_load_ok in Hl as (? & ? & _ & ?). done.
Qed.

(** A load for one partition is a load for any. *)
Lemma loaded_any w id k p l :
  loaded_at w id k (Some p) = Ok (Some l) → loaded_at w id k None = Ok (Some l).
Proof.
  intros (Hh & s & Hs & Hl)%loaded_split. apply document_load_Some in Hl as [Hl _].
  rewrite load_document_pure, Hh. cbn. rewrite Hs. cbn. rewrite Hl. cbn. by destruct l.
Qed.

Lemma document_at_Some w id k p d :
  document_at w id k (Some p) = Some d ↔
  document_at w id k None = Some d ∧ sd_partition d = p.
Proof.
  unfold document_at. rewrite !load_document_pure.
  destruct (pure (load_head id k) w) as [[h|]|]; cbn; [|naive_solver..].
  destruct (decrypt_snapshot _ _) as [s|]; cbn; [|naive_solver].
  pose proof (document_load_Some s (vm_actor_id (w_device w)) k p d) as Hiff.
  destruct (document_load s _ k (Some p)) as [d1|], (document_load s _ k None) as [d2|];
    cbn; naive_solver.
Qed.

Lemma read_row_counts id c row :
  read_document_row (Ok id) c = Ok row → 0 ≤ row_generation row ∧ 0 ≤ row_key_epoch row.
Proof.
  assert (∀ z name y, from_i64 z name = Ok y → 0 ≤ y) as Hf.
  { unfold from_i64. intros. inv_ok. bool_prop. lia. }
  unfold read_document_row. intros Hr. inv_ok. cbn. eauto.
Qed.

Lemma checked_head_Ok row s h t dev sec id k x :
  checked_head row s h t dev sec id k = Ok x →
  match x, row with
  | Some head, Some c => ∃ r, read_document_row (Ok id) c = Ok r ∧ row_scope r = k
      ∧ dh_generation head = row_generation r ∧ dh_key_epoch head = row_key_epoch r
  | None, None => t = None
  | _, _ => False
  end.
Proof.
  unfold checked_head. intros Hx. destruct row as [c|].
  - apply bind_Ok in Hx as (r & Hr & Hx). inv_ok. exists r. bool_prop. naive_solver.
  - destruct (bool_decide (is_Some t)) eqn:Ht; [discriminate|]. injection Hx as <-.
    apply bool_decide_eq_false in Ht. by apply eq_None_not_Some.
Qed.

Lemma load_head_counts w id k h :
  pure (load_head id k) w = Ok (Some h) → head_counts (Some h).
Proof.
  rewrite load_head_pure. intros (_ & _ & Hc)%bind_Ok. apply checked_head_Ok in Hc.
  destruct (t_documents _ !! _) as [c|]; [|done]. destruct Hc as (r & Hr & _ & Hg & He).
  apply read_row_counts in Hr. unfold head_counts. lia.
Qed.

(** A document is of one kind. *)
Lemma load_head_kind w id k h k' d :
  pure (load_head id k) w = Ok h → k' ≠ k → document_at w id k' d = None.
Proof.
  intros Hh Hne. unfold document_at. rewrite load_document_pure. rewrite load_head_pure in *.
  apply bind_Ok in Hh as ([] & -> & Hh). cbn [mbind result_bind].
  pose proof (checked_head_Ok _ _ _ _ _ _ _ _ _ Hh) as Hc.
  destruct (t_documents _ !! _) as [c|].
  - destruct h as [h|]; [|done]. destruct Hc as (r & Hr & Hs & _).
    edestruct (checked_head_kind c) as [e ->]; [exact Hr|exact Hs|exact Hne|done].
  - destruct h; [done|]. cbn [checked_head]. by rewrite Hc.
Qed.

(** What the documents with one identifier hold, once one of them loads. *)
Lemma view_of_load w id k l k' p' :
  loaded_at w id k None = Ok (Some l) → document_id w k' p' = id →
  worker_view w k' p' = if decide (k' = k ∧ p' = sd_partition (ld_document l))
                        then document_view (ld_document l) else ∅.
Proof.
  intros Hl <-. unfold worker_view.
  assert (document_at w (document_id w k' p') k None = Some (ld_document l)) as Hat
    by (unfold document_at; by rewrite Hl).
  apply loaded_split in Hl as [Hh _].
  destruct (decide (k' = k)) as [->|Hk].
  - destruct (document_at w _ k (Some p')) as [d|] eqn:Hd.
    + apply document_at_Some in Hd as [Hd <-]. rewrite Hat in Hd. injection Hd as <-.
      by rewrite decide_True.
    + rewrite decide_False; [done|]. intros [_ ->].
      by rewrite (proj2 (document_at_Some _ _ _ _ (ld_document l)) (conj Hat eq_refl)) in Hd.
  - rewrite (load_head_kind _ _ _ _ _ _ Hh Hk). rewrite decide_False; [done|]. by intros [].
Qed.

Lemma view_of_missing w id k e k' p' :
  loaded_at w id k e = Ok None → document_id w k' p' = id → worker_view w k' p' = ∅.
Proof.
  intros Hl <-. unfold worker_view.
  assert (pure (load_head (document_id w k' p') k) w = Ok None) as Hh.
  { rewrite load_document_pure in Hl. apply bind_Ok in Hl as ([h|] & Hh & Hl); [|done].
    apply bind_Ok in Hl as (? & _ & Hl). apply bind_Ok in Hl as (? & _ & [=]). }
  destruct (decide (k' = k)) as [->|Hk].
  - unfold document_at. by rewrite load_document_pure, Hh.
  - by rewrite (load_head_kind _ _ _ _ _ _ Hh Hk).
Qed.

(** ** Commits *)

(** One document was replaced by what a snapshot holds. *)
Definition replaced (w w' : StoreWorker) (id : bytes) (k : DocumentKind) (snapshot : bytes)
    : Prop :=
  same_identity w w'
  ∧ (∀ id' k' e, id' ≠ id → loaded_at w' id' k' e = loaded_at w id' k' e)
  ∧ (∀ k' e, k' ≠ k → document_at w' id k' e = None)
  ∧ ∀ e, document_at w' id k e
         = match document_load snapshot (vm_actor_id (w_device w)) k e with
           | Ok d => Some d
           | Err _ => None
           end.

Lemma written_replaced w w' p id k current mutation :
  prepared_for w id k current mutation p → written w w' p → head_counts current →
  deadline_counts (dm_next_eviction mutation) → replaced w w' id k (dm_snapshot mutation).
Proof using All.
  intros Hpf Hw Hc Hdl. pose proof (pf_id _ _ _ _ _ _ Hpf) as Hid.
  assert (w_device w' = w_device w ∧ w_secrets w' = w_secrets w) as [Hdev Hsec].
  { by destruct Hw as (_ & n & m & b & _ & _ & _ & _ & _ & _ & ? & ? & _). }
  destruct (written_this Hfit _ _ _ _ _ _ _ Hpf Hw Hc Hdl) as [(h & Hh & Hs) Hk].
  split_and!.
  - done.
  - intros id' k' e Hne. rewrite !load_document_pure, Hdev.
    by rewrite (written_other Hfit w w' p) by (done || congruence).
  - intros k' e Hne. destruct (Hk _ Hne) as [x Hx]. unfold document_at.
    by rewrite load_document_pure, Hx.
  - intros e. unfold document_at. rewrite load_document_pure, Hh. cbn. rewrite Hs, Hdev. cbn.
    by destruct (document_load _ _ _ _).
Qed.

Lemma commit_mutation_spec id k current mutation ctx w r w' :
  commit_mutation id k current mutation ctx w = (r, w') → head_counts current →
  deadline_counts (dm_next_eviction mutation) →
  ((∃ e, r = Err e) ∧ same_data w w') ∨ replaced w w' id k (dm_snapshot mutation).
Proof using All.
  intros Hc Hcnt Hdl. unfold commit_mutation in Hc.
  apply sm_bind_either in Hc as [(e & [= Hp <-] & ->)|(p & w1 & [= Hp <-] & Hc)].
  { left. split; [by eexists|done]. }
  apply (prepare_commit_Ok Hfit) in Hp.
  apply sm_bind_either in Hc as [(e & Hc & ->)|([] & w2 & Hc & Hck)];
    apply persist_commit_spec in Hc.
  { left. split; [by eexists|]. destruct Hc as (? & ? & ? & ? & ?). by split_and!. }
  right. assert (same_data w2 w') as Hd.
  { assert (reads checkpoint) as Hr by (unfold checkpoint; solve_reads). by eapply reads_frame. }
  assert (written w w' p) as Hw.
  { destruct Hc as (Hl & n & m & b & ? & ? & ? & Hs & ? & Hw). split.
    - by rewrite <- (pure_ext verify_live_inventory w (step w)).
    - exists n, m, b. split_and!; try done. by rewrite <- Hd. }
  by eapply written_replaced.
Qed.

(** The views after a replacement. *)
Lemma replaced_elsewhere w w' id k snapshot k' p' :
  replaced w w' id k snapshot → document_id w k' p' ≠ id →
  worker_view w' k' p' = worker_view w k' p'.
Proof.
  intros (Hi & Ho & _) Hne. unfold worker_view, document_at.
  rewrite (document_id_ext w w') by done. by rewrite Ho.
Qed.

Lemma replaced_others w w' id k snapshot p k' p' :
  replaced w w' id k snapshot → of_partition snapshot k p → document_id w k' p' = id →
  (k', p') ≠ (k, p) → worker_view w' k' p' = ∅.
Proof.
  intros (Hi & _ & Hk & Hd) Hp Hid Hne. unfold worker_view.
  rewrite (document_id_ext w w'), Hid by done.
  destruct (decide (k' = k)) as [->|Hk']; [|by rewrite Hk].
  rewrite Hd. destruct (document_load _ _ _ _) as [d|] eqn:Hl; [|done].
  pose proof (Hp _ _ _ Hl) as Hp1. apply document_load_Some in Hl as [_ Hp2]. congruence.
Qed.

Lemma replaced_this w w' id k snapshot p v :
  replaced w w' id k snapshot → holds snapshot k p v → document_id w k p = id →
  worker_view w' k p = v.
Proof.
  intros (Hi & _ & _ & Hd) Hh Hid. unfold worker_view.
  rewrite (document_id_ext w w'), Hid, Hd by done.
  destruct (Hh (vm_actor_id (w_device w)) (Some p)) as (d & -> & _ & Hv); [by intros ? [= <-]|].
  done.
Qed.
End WorkerViews.
