(* ===== verification/WorkerStore.v ===== *)
(** The store worker implements the store: its commands keep every promise of
    [VaultStoreOk], whatever the database holds and whichever of its calls fail. *)
From Stdlib Require Import ZArith Lia Bool.
From stdpp Require Import base gmap strings list.
From S2P Require Import Prelude Core Address Text Wire History StoreSpec Signature Manifest KeyringIndex Envelope Automerge Document DocumentProofs DocumentAtomic Database Worker WorkerReads WorkerCommit WorkerViews.

Section WorkerStore.
Context `{Sha256, Base64, MlDsa65, Aes256Gcm, HmacSha256, Signers, Random}.
Context `{AutomergeOk, PersonalItems}.
Context `{SerdeOk SecretRecord, Serde RecordDeadline, Serde ReplicaCatalog} `{!RecordSerdeOk}.
Context `{Serde HistoryEntry, Serde HistoryLog, SerdeOk WrappedKey, SerdeOk EncryptedSnapshot}.
Context `{SerdeOk CurrentHead, SerdeOk StateManifest, Serde Index, AttributeJson}.
Context `{!DeadlineSerdeOk, !Sha256Ok, !Aes256GcmOk, !RandomOk} (Hfit : manifests_fit).
Abbreviation WM := (SM StoreWorker).

Lemma view_same w w' : same_data w w' → worker_view w' = worker_view w.
Proof.
  intros Hw. change (worker_view (quiet w') = worker_view (quiet w)). by rewrite (quiet_ext w w').
Qed.

(** ** Requests *)

Lemma sealed_same w : same_data w (worker_is_sealed w).2.
Proof. done. Qed.

(** A request runs its command or not at all, and what the command returned may be
    hidden behind an error. *)
Lemma request_spec {A} (m : WM A) w r w' :
  request m w = (r, w') →
  ((∃ e, r = Err e) ∧ same_data w w')
  ∨ ∃ w1 r1 w2, same_data w w1 ∧ m w1 = (r1, w2) ∧ same_data w2 w'
      ∧ (r = r1 ∨ ∃ e, r = Err e).
Proof.
  unfold request. intros Hr.
  apply sm_bind_either in Hr as [(e & [=] & _)|(s1 & w1 & [= _ <-] & Hr)].
  apply sm_bind_either in Hr as [(e & [=] & _)|(s2 & w2 & [= _ <-] & Hr)].
  unfold stateful in Hr. destruct (w_sealed _) in Hr.
  { injection Hr as <- <-. left. split; [by eexists|by split_and!]. }
  right. match type of Hr with match ?x with _ => _ end = _ => destruct x as [r1 w3] eqn:Hm end.
  eexists _, r1, w3. split; [|split; [exact Hm|]]; [done|].
  assert (send_result r1 w3 = (r, w') → same_data w3 w' ∧ (r = r1 ∨ ∃ e, r = Err e)) as Hsend.
  { unfold send_result. cbv zeta. intros Hx. apply pair_eq in Hx as [<- <-]. split.
    - by destruct (fatal r1).
    - destruct (w_sealed (worker_is_sealed w3).2); [right; by eexists|by left]. }
  destruct r1 as [a|e]; [by apply Hsend|]. destruct e; try (by apply Hsend).
  injection Hr as <- <-. split; [done|]. by left.
Qed.

(** A law of a command is a law of its request when errors may stand for anything. *)
Lemma request_law {A} (m : WM A) (Q : VaultResult A → StoreView → StoreView → Prop) :
  (∀ v e, Q (Err e) v v) → (∀ r e v v', Q r v v' → Q (Err e) v v') →
  (∀ w r w', m w = (r, w') → Q r (worker_view w) (worker_view w')) →
  ∀ w r w', request m w = (r, w') → Q r (worker_view w) (worker_view w').
Proof.
  intros Hrefl Herr Hm w r w' Hr. apply request_spec in Hr as [[(e & ->) Hd]|Hr].
  { rewrite (view_same _ _ Hd). apply Hrefl. }
  destruct Hr as (w1 & r1 & w2 & Hd1 & Hr & Hd2 & Hres). apply Hm in Hr.
  rewrite (view_same _ _ Hd1) in Hr. rewrite (view_same _ _ Hd2).
  destruct Hres as [->|[e ->]]; [done|]. by eapply Herr.
Qed.

(** ** Commits at one document *)

(** The document that is there, or a new one, with the head a commit replaces. *)
Definition opened (w : StoreWorker) (k : DocumentKind) (p : bytes) (d : SecretDocument)
    (current : option DocumentHead) : Prop :=
  document_ok d ∧ sd_kind d = k ∧ sd_partition d = p ∧ document_view d = worker_view w k p
  ∧ head_counts current
  ∧ ∀ k' p', document_id w k' p' = document_id w k p → (k', p') ≠ (k, p) → worker_view w k' p' = ∅.

Lemma opened_loaded w k p l :
  loaded_at w (document_id w k p) k (Some p) = Ok (Some l) →
  opened w k p (ld_document l) (Some (ld_head l)).
Proof.
  intros Hl. pose proof (loaded_ok _ _ _ _ _ Hl) as (Hok & Hk & Hp). specialize (Hp p eq_refl).
  pose proof (loaded_split _ _ _ _ _ Hl) as [Hh _]. apply loaded_any in Hl as Hn.
  split_and!; [done..| |by eapply load_head_counts|].
  - rewrite (view_of_load _ _ _ _ k p Hn eq_refl). by rewrite decide_True.
  - intros k' p' Hid Hne. rewrite (view_of_load _ _ _ _ k' p' Hn Hid), decide_False; [done|].
    intros [-> ->]. congruence.
Qed.

Lemma opened_new w k p e d :
  loaded_at w (document_id w k p) k e = Ok None → document_new (vm_actor_id (w_device w)) k p = Ok d →
  opened w k p d None.
Proof.
  intros Hl Hn. apply document_new_spec in Hn as (Hok & _ & Hk & Hp & _ & _ & He & _).
  split_and!; [done..| |done|].
  - rewrite (view_of_missing _ _ _ _ _ _ Hl eq_refl). unfold document_view. by rewrite He, omap_empty.
  - intros k' p' Hid _. by rewrite (view_of_missing _ _ _ _ _ _ Hl Hid).
Qed.

(** A commit changes the views of one document, to what its snapshot holds. *)
Lemma commit_at w k p d current m ctx r w' :
  opened w k p d current → finished d m →
  commit_mutation (document_id w k p) k current m ctx w = (r, w') →
  ((∃ e, r = Err e) ∧ worker_view w' = worker_view w)
  ∨ same_elsewhere (worker_view w) (worker_view w') k p
    ∧ ∀ v, holds (dm_snapshot m) k p v → worker_view w' k p = v.
Proof using All.
  intros (Hok & Hk & Hp & Hv & Hc & Hex) (_ & Hpart & Hdl) Hm.
  apply (commit_mutation_spec Hfit) in Hm as [[? Hd]|Hrep]; [| |done|done].
  { left. split; [done|by apply view_same]. }
  right. split; [|intros v Hh; by eapply replaced_this]. intros k' p' Hne.
  destruct (decide (document_id w k' p' = document_id w k p)) as [Hid|Hid];
    [|by eapply replaced_elsewhere].
  rewrite Hex by done. rewrite Hk, Hp in Hpart. by eapply replaced_others.
Qed.

(** What the laws say of a command at one document. *)
Definition changes {A} (k : DocumentKind) (p : bytes) (f : DocumentView → DocumentView)
    (r : VaultResult A) (v v' : StoreView) : Prop :=
  same_elsewhere v v' k p ∧ (is_personal k p = false → committed r v v' k p (f (v k p))).

Lemma changes_refl {A} k p f (r : VaultResult A) v : (∃ e, r = Err e) → changes k p f r v v.
Proof. intros [e ->]. split; [done|]. intros _. by left. Qed.

Lemma changes_Err {A} k p f (r : VaultResult A) e v v' :
  changes k p f r v v' → changes k p f (Err e : VaultResult A) v v'.
Proof.
  intros [Hs Hc]. split; [done|]. intros Hp. specialize (Hc Hp). destruct r; [by right|done].
Qed.

(** Nothing to persist: the document is as it should be. *)
Lemma changes_none {A} k p f (a : A) v : (is_personal k p = false → f (v k p) = v k p) →
  changes k p f (Ok a) v v.
Proof. intros Hf. split; [done|]. intros Hp. symmetry. by apply Hf. Qed.

Lemma commit_changes w k p d current m ctx f r w' :
  opened w k p d current → finished d m →
  (is_personal k p = false → holds (dm_snapshot m) k p (f (worker_view w k p))) →
  commit_mutation (document_id w k p) k current m ctx w = (r, w') →
  changes k p f r (worker_view w) (worker_view w').
Proof using All.
  intros Ho Hf Hh Hc. eapply commit_at in Hc as [[He ->]|[Hs Hv]]; [| |done|done].
  - by apply changes_refl.
  - split; [done|]. intros Hp. specialize (Hv _ (Hh Hp)). destruct r; cbn; auto.
Qed.

(** ** Operations on one document *)

(** After a load, the worker is as it was, and the load is what it holds. *)
Lemma load_step id k e w x w1 :
  load_document id k e w = (Ok x, w1) → same_data w w1 ∧ loaded_at w1 id k e = Ok x.
Proof.
  intros Hl. apply reads_Ok in Hl as [Hd Hp]; [|apply load_document_reads].
  split; [done|]. by rewrite (loaded_at_ext w w1).
Qed.

Lemma load_failed id k e w x w1 : load_document id k e w = (Err x, w1) → same_data w w1.
Proof. intros Hl. by eapply reads_frame; [apply load_document_reads|]. Qed.

Lemma on_document_Ok {A} (d : SecretDocument) (m : SM SecretDocument A) w x w' :
  on_document d m w = (Ok x, w') → m d = (Ok x.1, x.2) ∧ w' = w.
Proof.
  unfold on_document. destruct (m d) as [[a|e] d1]; [|discriminate]. by intros [= <- <-].
Qed.

Lemma on_document_Err {A} (d : SecretDocument) (m : SM SecretDocument A) w e w' :
  on_document d m w = (Err e, w') → w' = w.
Proof. unfold on_document. destruct (m d) as [[a|x] d1]; [discriminate|]. by intros [= _ <-]. Qed.

Lemma opened_plain w k p d current :
  opened w k p d current → is_personal k p = false → document_is_personal d = false.
Proof. intros (_ & Hk & Hp & _). unfold document_is_personal. by rewrite Hk, Hp. Qed.

(** Run a command at the document it loads. *)
Ltac load_first Hr :=
  unfold at_document, with_context in Hr;
  apply sm_bind_either in Hr as [(?e & Hr & ->)|(?x & ?w1 & ?Hl & Hr)];
  [apply load_failed in Hr; rewrite (view_same _ _ Hr); by apply changes_refl; eexists|].

Lemma open_or_new_Ok w id k p x d w' :
  loaded_at w id k (Some p) = Ok x → id = document_id w k p →
  open_or_new id k p x w = (Ok d, w') → w' = w ∧ opened w k p d.1 d.2.
Proof.
  intros Hl -> Ho. unfold open_or_new in Ho. destruct x as [l|].
  - injection Ho as <- <-. split; [done|]. by apply opened_loaded.
  - apply sm_bind_Ok in Ho as (d0 & w1 & [= Hn <-] & [= <- <-]). split; [done|].
    by eapply opened_new.
Qed.

Lemma open_or_new_Err w id k p x e w' : open_or_new id k p x w = (Err e, w') → w' = w.
Proof.
  unfold open_or_new. destruct x as [l|]; [discriminate|].
  intros [[= _ <-]|(d & w1 & _ & [=])]%sm_bind_Err. done.
Qed.

Lemma worker_put_law k p a value evict_at prov now w r w' :
  at_document k p (λ id, with_context prov now (worker_put id k p a value evict_at)) w = (r, w') →
  changes k p (λ v, apply_operation v (DocumentOperation.Put a value evict_at)) r
    (worker_view w) (worker_view w').
Proof using All.
  intros Hr. load_first Hr. apply load_step in Hl as [Hd Hl].
  rewrite <- (view_same _ _ Hd). rewrite <- (document_id_ext w w1) in * by (by apply same_data_identity).
  apply sm_bind_either in Hr as [(e & Hr & ->)|(d & w2 & Ho & Hr)].
  { apply open_or_new_Err in Hr as ->. by apply changes_refl; eexists. }
  apply open_or_new_Ok in Ho as [-> Ho]; [|done..].
  apply sm_bind_either in Hr as [(e & Hr & ->)|(m & w2 & Hput & Hr)].
  { apply on_document_Err in Hr as ->. by apply changes_refl; eexists. }
  apply on_document_Ok in Hput as [Hput ->]. pose proof Ho as (Hok & Hk & Hp & Hv & _).
  eapply commit_changes; [exact Ho|by eapply document_put_finished| |exact Hr].
  intros Hpers. apply document_put_spec in Hput as (_ & Hh & _); [|done|by eapply opened_plain].
  by rewrite Hk, Hp, Hv in Hh.
Qed.

Lemma deletions_of_empty ops :
  existsb is_put ops = false → apply_operations ∅ ops = ∅.
Proof.
  unfold apply_operations. induction ops as [|[a v e|a] ops IH]; cbn; [done|done|].
  rewrite delete_empty. apply IH.
Qed.

(** Results of a group that may have nothing to persist. *)
Lemma settled_changes {A} w k p d current f r ctx (g : () → A) x w' :
  opened w k p d current →
  (∀ m, r = Some m → finished d m) →
  (is_personal k p = false → settles d r (f (worker_view w k p))) →
  match r with
  | Some m => (_ ← commit_mutation (document_id w k p) k current m ctx; mret (g tt))
  | None => mret (g tt)
  end w = (x, w') →
  changes k p f x (worker_view w) (worker_view w').
Proof using All.
  intros Ho Hfin Hset Hr. pose proof Ho as (_ & Hk & Hp & Hv & _). destruct r as [m|].
  - assert (is_personal k p = false → holds (dm_snapshot m) k p (f (worker_view w k p))) as Hh.
    { intros Hpers. destruct (Hset Hpers) as (_ & Hh & _). by rewrite Hk, Hp in Hh. }
    apply sm_bind_either in Hr as [(e & Hr & ->)|([] & w1 & Hr & [= <- <-])];
      (eapply commit_changes in Hr; [| |by apply Hfin|]; [|done..]).
    + done.
    + destruct Hr as [? Hc]. split; [done|]. exact Hc.
  - injection Hr as <- <-. apply changes_none. intros Hpers. rewrite <- Hv at 2. by apply Hset.
Qed.

Lemma worker_mutate_law k p ops prov now w r w' :
  at_document k p (λ id, with_context prov now (worker_mutate id k p ops)) w = (r, w') →
  changes k p (λ v, apply_operations v ops) r (worker_view w) (worker_view w').
Proof using All.
  intros Hr. load_first Hr. apply load_step in Hl as [Hd Hl].
  rewrite <- (view_same _ _ Hd). rewrite <- (document_id_ext w w1) in * by (by apply same_data_identity).
  destruct (bool_decide (is_Some x) || existsb is_put ops) eqn:Hb.
  - apply sm_bind_either in Hr as [(e & Hr & ->)|(d & w2 & Ho & Hr)].
    { apply open_or_new_Err in Hr as ->. by apply changes_refl; eexists. }
    apply open_or_new_Ok in Ho as [-> Ho]; [|done..].
    apply sm_bind_either in Hr as [(e & Hr & ->)|(m & w2 & Hput & Hr)].
    { apply on_document_Err in Hr as ->. by apply changes_refl; eexists. }
    apply on_document_Ok in Hput as [Hput ->]. pose proof Ho as (Hok & _ & _ & Hv & _).
    eapply (settled_changes (A := ()) _ _ _ _ _ _ m.1 (worker_context w prov now) (λ _, tt)); [exact Ho| | |].
    + intros m' Hm'. rewrite Hm' in Hput. by eapply document_apply_finished.
    + intros Hpers. rewrite <- Hv. eapply document_apply_spec; [done|by eapply opened_plain|done].
    + destruct m.1; [|exact Hr]. rewrite <- Hr. unfold mbind, sm_bind.
      destruct (commit_mutation _ _ _ _ _ _) as [[[]|] ?]; done.
  - apply orb_false_iff in Hb as [Hb Hdel]. apply bool_decide_eq_false in Hb.
    destruct x; [by destruct Hb|]. injection Hr as <- <-. apply changes_none. intros _.
    rewrite (view_of_missing _ _ _ _ _ _ Hl eq_refl). by apply deletions_of_empty.
Qed.

(** A deletion says whether there was a record. *)
Lemma worker_delete_law k p a prov now w r w' :
  at_document k p (λ id, with_context prov now (worker_delete id k p a)) w = (r, w') →
  changes k p (λ v, apply_operation v (DocumentOperation.Delete a)) r
    (worker_view w) (worker_view w')
  ∧ (is_personal k p = false → ∀ b, r = Ok b →
       b = bool_decide (is_Some (worker_view w k p !! storage_key a))).
Proof using All.
  intros Hr. unfold at_document, with_context in Hr.
  apply sm_bind_either in Hr as [(e & Hr & ->)|(x & w1 & Hl & Hr)].
  { apply load_failed in Hr. rewrite (view_same _ _ Hr). split; [by apply changes_refl; eexists|done]. }
  apply load_step in Hl as [Hd Hl].
  rewrite <- (view_same _ _ Hd). rewrite <- (document_id_ext w w1) in * by (by apply same_data_identity).
  destruct x as [l|].
  - apply opened_loaded in Hl as Ho. pose proof Ho as (Hok & _ & _ & Hv & _).
    apply sm_bind_either in Hr as [(e & Hr & ->)|(m & w2 & Hdel & Hr)].
    { apply on_document_Err in Hr as ->. split; [by apply changes_refl; eexists|done]. }
    apply on_document_Ok in Hdel as [Hdel ->].
    assert (match m.1 with
      | Some m0 => (_ ← commit_mutation (document_id w1 k p) k (Some (ld_head l)) m0
                         (worker_context w prov now); mret (bool_decide (is_Some m.1)))
      | None => mret (bool_decide (is_Some m.1))
      end w1 = (r, w')) as Hr'.
    { rewrite <- Hr. destruct m.1; done. }
    split.
    + eapply (settled_changes _ _ _ _ _ _ m.1 _ (λ _, bool_decide (is_Some m.1)));
        [exact Ho| | |exact Hr'].
      * intros m' Hm'. rewrite Hm' in Hdel. by eapply document_remove_finished.
      * intros Hpers. rewrite <- Hv.
        eapply document_remove_spec in Hdel as [Hs _]; [done|done|by eapply opened_plain].
    + intros Hpers b ->.
      eapply document_remove_spec in Hdel as [_ Hs]; [|done|by eapply opened_plain].
      rewrite <- Hv, <- Hs. destruct m.1; cbn in Hr'; [|by injection Hr' as <-].
      by apply sm_bind_Ok in Hr' as (? & ? & _ & [= <- _]).
  - injection Hr as <- <-. rewrite (view_of_missing _ _ _ _ _ _ Hl eq_refl). split.
    + apply changes_none. intros _. rewrite (view_of_missing _ _ _ _ _ _ Hl eq_refl).
      apply delete_empty.
    + intros _ b [= <-]. by rewrite lookup_empty.
Qed.

(** Clearing empties the document and counts what was there. *)
Definition clears k p (r : VaultResult Z) (v v' : StoreView) : Prop :=
  same_elsewhere v v' k p ∧ (is_personal k p = false → view_keyed (v k p) →
    committed r v v' k p ∅ ∧ ∀ n, r = Ok n → n = Z.of_nat (size (v k p))).

Lemma worker_clear_law k p prov now w r w' :
  at_document k p (λ id, with_context prov now (worker_clear id k p)) w = (r, w') →
  clears k p r (worker_view w) (worker_view w').
Proof using All.
  assert (∀ v e, clears k p (Err e) v v) as Hrefl by (intros v e; split; [done|]; split; [by left|done]).
  intros Hr. unfold at_document, with_context in Hr.
  apply sm_bind_either in Hr as [(e & Hr & ->)|(x & w1 & Hl & Hr)].
  { apply load_failed in Hr. rewrite (view_same _ _ Hr). apply Hrefl. }
  apply load_step in Hl as [Hd Hl].
  rewrite <- (view_same _ _ Hd). rewrite <- (document_id_ext w w1) in * by (by apply same_data_identity).
  destruct x as [l|].
  - apply opened_loaded in Hl as Ho. pose proof Ho as (Hok & Hk & Hp & Hv & _).
    apply sm_bind_either in Hr as [(e & Hr & ->)|(m & w2 & Hdel & Hr)].
    { apply on_document_Err in Hr as ->. apply Hrefl. }
    apply on_document_Ok in Hdel as [Hdel ->]. destruct m.1 as [[n m0]|] eqn:Hm.
    + assert (finished (ld_document l) m0) as Hfin by (by eapply document_clear_finished).
      assert (is_personal k p = false → view_keyed (worker_view w1 k p) →
        holds (dm_snapshot m0) k p ∅ ∧ n = Z.of_nat (size (worker_view w1 k p))) as Hspec.
      { intros Hpers Hkeyed. rewrite <- Hv in Hkeyed |- *.
        apply document_clear_spec in Hdel as [(_ & Hh & _) ?]; [|done|by eapply opened_plain|done].
        by rewrite Hk, Hp in Hh. }
      apply sm_bind_either in Hr as [(e & Hr & ->)|([] & w3 & Hr & [= <- <-])];
        (eapply commit_at in Hr as [[[? ?] Hsame]|[Hs Hc]]; [| |exact Ho|exact Hfin]).
      * rewrite Hsame. apply Hrefl.
      * split; [done|]. intros Hpers Hkeyed. split; [|done]. right. apply Hc. by apply Hspec.
      * discriminate.
      * split; [done|]. intros Hpers Hkeyed. destruct (Hspec Hpers Hkeyed) as [Hh ->].
        split; [by apply Hc|]. by intros ? [= <-].
    + injection Hr as <- <-. split; [done|]. intros Hpers Hkeyed. rewrite <- Hv in Hkeyed.
      apply document_clear_spec in Hdel; [|done|by eapply opened_plain|done].
      unfold committed. rewrite <- Hv, Hdel. split; [done|]. by intros ? [= <-].
  - injection Hr as <- <-. split; [done|]. intros _ _. unfold committed.
    rewrite (view_of_missing _ _ _ _ _ _ Hl eq_refl). split; [done|]. by intros ? [= <-].
Qed.

(** ** Reading *)

Lemma lock_bytes_spec b w r w' :
  lock_bytes b w = (r, w') → same_data w w' ∧ ∀ x, r = Ok x → x = b.
Proof.
  unfold lock_bytes. destruct b as [|c b]; [by intros [= <- <-]; split; [|intros ? [= <-]]|].
  intros [= <- <-]. split; [done|]. destruct (env_memory _ _); [done|]. by intros ? [= <-].
Qed.

Definition stored (c : Cell) : StoredSecret := {|
  ss_value := cell_value c; ss_expires_at := cell_evict_at c |}.

(** What a read does and says. *)
Definition gets k p a now (r : VaultResult (option StoredSecret)) (v v' : StoreView) : Prop :=
  same_elsewhere v v' k p
  ∧ (is_personal k p = false →
     (v' k p = v k p
      ∨ (∃ c, v k p !! storage_key a = Some c ∧ evicted c now = true)
        ∧ v' k p = delete (storage_key a) (v k p))
     ∧ ∀ value, r = Ok value →
         value = stored <$> view_read (v k p) now a
         ∧ ∀ c, v k p !! storage_key a = Some c → cell_address c = a).

Lemma worker_get_law k p a now w r w' :
  at_document k p (λ id, worker_get id k p a now) w = (r, w') →
  gets k p a now r (worker_view w) (worker_view w').
Proof using All.
  assert (∀ v e, gets k p a now (Err e) v v) as Hrefl
    by (intros v e; split; [done|]; split; [by left|done]).
  intros Hr. unfold at_document in Hr.
  apply sm_bind_either in Hr as [(e & Hr & ->)|(x & w1 & Hl & Hr)].
  { apply load_failed in Hr. rewrite (view_same _ _ Hr). apply Hrefl. }
  apply load_step in Hl as [Hd Hl].
  rewrite <- (view_same _ _ Hd). rewrite <- (document_id_ext w w1) in * by (by apply same_data_identity).
  destruct x as [l|].
  2:{ injection Hr as <- <-. split; [done|]. intros _. split; [by left|].
      rewrite (view_of_missing _ _ _ _ _ _ Hl eq_refl). unfold view_read. rewrite lookup_empty.
      intros value [= <-]. done. }
  apply opened_loaded in Hl as Ho. pose proof Ho as (Hok & Hk & Hp & Hv & _).
  apply sm_bind_either in Hr as [(e & Hr & ->)|([read deadline] & w2 & Hread & Hr)].
  { injection Hr as _ <-. apply Hrefl. }
  apply lift_Ok in Hread as [Hread ->]. cbn [fst snd] in Hr.
  pose proof (λ Hpers, get_with_deadline_view _ _ _ _ _ Hok (opened_plain _ _ _ _ _ Ho Hpers) Hread)
    as Hspec.
  rewrite Hv in Hspec. unfold gets.
  destruct read as [|value| |].
  - injection Hr as <- <-. split; [done|]. intros Hpers. destruct (Hspec Hpers) as [Ha Hm].
    split; [by left|]. intros value [= <-]. unfold view_read. by rewrite Hm.
  - apply sm_bind_either in Hr as [(e & Hr & ->)|(x & w2 & Hlock & Hr)].
    { apply lock_bytes_spec in Hr as [Hsame _]. rewrite (view_same _ _ Hsame). apply Hrefl. }
    apply lock_bytes_spec in Hlock as [Hsame Hx]. injection Hr as <- <-.
    rewrite (view_same _ _ Hsame). split; [done|]. intros Hpers.
    destruct (Hspec Hpers) as (Ha & c & Hc & He & Hval & Hdl). split; [by left|].
    intros y [= <-]. split; [|done]. unfold view_read. rewrite Hc, He. cbn. unfold stored.
    by rewrite Hval, Hdl, (Hx x eq_refl).
  - injection Hr as <- <-. apply Hrefl.
  - apply sm_bind_either in Hr as [(e & [=] & _)|(ctx & w2 & [= _ <-] & Hr)].
    apply sm_bind_either in Hr as [(e & Hr & ->)|(m & w2 & Hdel & Hr)].
    { apply on_document_Err in Hr as ->. apply Hrefl. }
    apply on_document_Ok in Hdel as [Hdel ->].
    apply sm_bind_either in Hr as [(e & Hr & ->)|(m0 & w2 & Hm & Hr)].
    { injection Hr as _ <-. apply Hrefl. }
    apply lift_Ok in Hm as [Hm ->]. apply ok_or_Ok in Hm. rewrite Hm in Hdel.
    assert (finished (ld_document l) m0) as Hfin by (by eapply document_remove_finished).
    assert (is_personal k p = false →
      holds (dm_snapshot m0) k p (delete (storage_key a) (worker_view w1 k p))) as Hh.
    { intros Hpers. apply document_remove_spec in Hdel as [(_ & Hh & _) _];
        [|done|by eapply opened_plain]. by rewrite Hk, Hp, Hv in Hh. }
    apply sm_bind_either in Hr as [(e & Hr & ->)|([] & w3 & Hr & [= <- <-])];
      (eapply commit_at in Hr as [[[? ?] Hsame]|[Hs Hc]]; [| |exact Ho|exact Hfin]).
    + rewrite Hsame. apply Hrefl.
    + split; [done|]. intros Hpers. destruct (Hspec Hpers) as (_ & c & Hcell & He).
      split; [|done]. right. split; [by exists c|]. by apply Hc, Hh.
    + discriminate.
    + split; [done|]. intros Hpers. destruct (Hspec Hpers) as (Ha & c & Hcell & He).
      split; [right; split; [by exists c|by apply Hc, Hh]|]. intros y [= <-].
      split; [|done]. unfold view_read. by rewrite Hcell, He.
Qed.

Lemma read_each_spec d addresses now w r w' :
  document_ok d → read_each d addresses now w = (r, w') →
  same_data w w' ∧ (document_is_personal d = false → ∀ values, r = Ok values →
    values = map (λ a, cell_value <$> view_read (document_view d) now a) addresses
    ∧ ∀ a c, a ∈ addresses → document_view d !! storage_key a = Some c → cell_address c = a).
Proof.
  intros Hd. revert w r. induction addresses as [|a addresses IH]; intros w r Hr; cbn [read_each] in Hr.
  { injection Hr as <- <-. split; [done|]. intros _ values [= <-]. split; [done|].
    by intros ? ? ?%elem_of_nil. }
  apply sm_bind_either in Hr as [(e & [= _ <-] & ->)|(read & w1 & Hread & Hr)]; [done|].
  apply lift_Ok in Hread as [Hread ->].
  assert (same_data w w' ∧ ∀ values, r = Ok values → ∃ l,
    values = match read with SecretRead.Value v => Some v | _ => None end :: l
    ∧ read ≠ SecretRead.Conflict
    ∧ (document_is_personal d = false →
       l = map (λ a, cell_value <$> view_read (document_view d) now a) addresses
       ∧ ∀ a c, a ∈ addresses → document_view d !! storage_key a = Some c → cell_address c = a))
    as [Hsame Hvals].
  { apply sm_bind_either in Hr as [(e & Hr & ->)|(v & w2 & Hv & Hr)].
    - split; [|done]. destruct read; try discriminate; [|by injection Hr as _ <-].
      apply sm_bind_Err in Hr as [Hr|(? & ? & _ & [=])]. by apply lock_bytes_spec in Hr as [? _].
    - assert (same_data w w2 ∧ v = match read with SecretRead.Value v => Some v | _ => None end
        ∧ read ≠ SecretRead.Conflict) as (Hs2 & Hveq & Hnc).
      { destruct read; try (by injection Hv as <- <-); [|discriminate].
        apply sm_bind_Ok in Hv as (x & w3 & Hx & [= <- <-]).
        apply lock_bytes_spec in Hx as [? Hx]. by rewrite (Hx x eq_refl). }
      apply sm_bind_either in Hr as [(e & Hr & ->)|(l & w3 & Hl & [= <- <-])].
      + apply IH in Hr as [Hs3 _]. split; [by rewrite Hs2, Hs3|done].
      + apply IH in Hl as [Hs3 Hl]. split; [by rewrite Hs2, Hs3|].
        intros values [= <-]. exists l. rewrite Hveq. split_and!; [done|done|]. intros Hp. by apply Hl. }
  split; [done|]. intros Hp values Hv. destruct (Hvals values Hv) as (l & -> & Hnc & Hrest).
  destruct (Hrest Hp) as [-> Hall].
  unfold document_get in Hread. apply bind_Ok in Hread as ([x dl] & Hread & [= <-]).
  apply get_with_deadline_view in Hread as [Ha Hx]; [|done|done]. cbn [fst] in *.
  split; [|intros a' c [->|Hin]%elem_of_cons; [by apply Ha|by apply Hall]].
  cbn [map]. f_equal. unfold view_read.
  destruct x as [|value| |]; [by rewrite Hx|destruct Hx as (c & -> & -> & <- & _); done|done|].
  by destruct Hx as (c & -> & ->).
Qed.

Lemma worker_get_many_law k p addresses now w r w' :
  at_document k p (λ id, worker_get_many id k p addresses now) w = (r, w') →
  same_data w w' ∧ (is_personal k p = false → ∀ values, r = Ok values →
    values = map (λ a, cell_value <$> view_read (worker_view w k p) now a) addresses
    ∧ ∀ a c, a ∈ addresses → worker_view w k p !! storage_key a = Some c → cell_address c = a).
Proof.
  intros Hr. unfold at_document, worker_get_many in Hr.
  apply sm_bind_either in Hr as [(e & Hr & ->)|(x & w1 & Hl & Hr)].
  { apply load_failed in Hr. done. }
  apply load_step in Hl as [Hd Hl].
  rewrite <- (view_same _ _ Hd). rewrite <- (document_id_ext w w1) in * by (by apply same_data_identity).
  destruct x as [l|].
  - apply opened_loaded in Hl as Ho. pose proof Ho as (Hok & _ & _ & Hv & _).
    apply read_each_spec in Hr as [Hs Hr]; [|done]. split; [by rewrite Hd, Hs|].
    intros Hpers. rewrite <- Hv. apply Hr. by eapply opened_plain.
  - injection Hr as <- <-. split; [done|]. intros _ values [= <-].
    rewrite (view_of_missing _ _ _ _ _ _ Hl eq_refl). unfold view_read.
    setoid_rewrite lookup_empty. split; [done|]. by intros.
Qed.

Lemma worker_list_history_law k p a before limit w r w' :
  at_document k p (λ id, worker_list_history id k p a before limit) w = (r, w') → same_data w w'.
Proof.
  intros Hr. unfold at_document in Hr. eapply reads_frame; [|exact Hr].
  unfold worker_list_history. apply reads_bind; [apply load_history_reads|intros [log|]]; solve_reads.
Qed.

(** ** Sweeps *)

Lemma unexpired_idemp (v : DocumentView) now :
  unexpired_records (unexpired_records v now) now = unexpired_records v now.
Proof.
  unfold unexpired_records. rewrite map_filter_filter. apply map_filter_ext.
  intros k c _. cbn. tauto.
Qed.

(** A step that only removes expired records, from documents of some kinds. *)
Definition sweeps (kinds : DocumentKind → Prop) (now : Z) (v v' : StoreView) : Prop :=
  ∀ k p, v' k p = v k p
    ∨ kinds k ∧ (is_personal k p = false → v' k p = unexpired_records (v k p) now).

Lemma sweeps_refl kinds now v : sweeps kinds now v v.
Proof. intros k p. by left. Qed.

Lemma sweeps_trans kinds now v1 v2 v3 :
  sweeps kinds now v1 v2 → sweeps kinds now v2 v3 → sweeps kinds now v1 v3.
Proof.
  intros Hs Hs' k p. destruct (Hs k p) as [Ha|[Hk Ha]], (Hs' k p) as [Hb|[Hk' Hb]].
  - left. congruence.
  - right. split; [done|]. intros Hp. by rewrite Hb, Ha.
  - right. split; [done|]. intros Hp. by rewrite Hb, Ha.
  - right. split; [done|]. intros Hp. by rewrite Hb, Ha, unexpired_idemp.
Qed.

Lemma sweeps_weaken (P Q : DocumentKind → Prop) now v v' :
  (∀ k, P k → Q k) → sweeps P now v v' → sweeps Q now v v'.
Proof. intros Hpq Hs k p. destruct (Hs k p) as [|[? ?]]; [by left|right; auto]. Qed.

Lemma purge_loaded_sweeps id k l now ctx w r w' :
  loaded_at w id k None = Ok (Some l) → purge_loaded id k l now ctx w = (r, w') →
  sweeps (eq k) now (worker_view w) (worker_view w').
Proof using All.
  intros Hl Hr. unfold purge_loaded in Hr. pose proof (loaded_ok _ _ _ _ _ Hl) as (Hok & Hk & _).
  pose proof (loaded_split _ _ _ _ _ Hl) as [Hh _]. apply load_head_counts in Hh.
  apply sm_bind_either in Hr as [(e & Hr & ->)|([m d] & w1 & Hd & Hr)].
  { apply on_document_Err in Hr as ->. apply sweeps_refl. }
  apply on_document_Ok in Hd as [Hd ->]. cbn [fst snd] in *. destruct m as [m|];
    [|injection Hr as _ <-; apply sweeps_refl].
  pose proof (document_purge_finished _ _ _ _ Hok Hd) as (_ & Hpart & Hdl).
  assert (same_data w w' ∨ replaced w w' id k (dm_snapshot m)) as [Hsame|Hrep].
  { apply sm_bind_either in Hr as [(e & Hr & _)|([] & w2 & Hr & [= _ <-])];
      apply (commit_mutation_spec Hfit) in Hr as [[_ ?]|?]; auto. }
  { rewrite (view_same _ _ Hsame). apply sweeps_refl. }
  intros k' p'. destruct (decide (document_id w k' p' = id)) as [Hid|Hid];
    [|left; by eapply replaced_elsewhere].
  rewrite Hk in Hpart. pose proof (view_of_load _ _ _ _ k' p' Hl Hid) as Hv.
  destruct (decide (k' = k ∧ p' = sd_partition (ld_document l))) as [[-> ->]|Hne].
  - right. split; [done|]. intros Hpers. rewrite Hv.
    apply document_purge_spec in Hd as (_ & Hhold & _); [|done|unfold document_is_personal; by rewrite Hk].
    rewrite Hk in Hhold. by eapply replaced_this.
  - left. rewrite Hv. eapply replaced_others; [done|done|done|]. intros [= -> ->]. by apply Hne.
Qed.

Lemma purge_each_sweeps due now ctx n w r w' :
  purge_each due now ctx n w = (r, w') →
  sweeps (λ _, True) now (worker_view w) (worker_view w').
Proof using All.
  revert n w. induction due as [|[id k] due IH]; intros n w Hr; cbn [purge_each] in Hr.
  { injection Hr as _ <-. apply sweeps_refl. }
  apply sm_bind_either in Hr as [(e & Hr & ->)|(x & w1 & Hl & Hr)].
  { apply load_failed in Hr. rewrite (view_same _ _ Hr). apply sweeps_refl. }
  apply load_step in Hl as [Hd Hl]. rewrite <- (view_same _ _ Hd). destruct x as [l|]; [|by eapply IH].
  apply sm_bind_either in Hr as [(e & Hr & ->)|(x & w2 & Hp & Hr)].
  - eapply purge_loaded_sweeps in Hr; [|done]. by eapply sweeps_weaken.
  - eapply purge_loaded_sweeps in Hp; [|done].
    eapply sweeps_trans; [by eapply sweeps_weaken|by eapply IH].
Qed.

Lemma worker_purge_expired_law now w r w' :
  worker_purge_expired now w = (r, w') →
  sweeps (λ _, True) now (worker_view w) (worker_view w').
Proof using All.
  intros Hr. unfold worker_purge_expired in Hr.
  apply sm_bind_either in Hr as [(e & Hr & ->)|(x & w1 & Hl & Hr)];
    [apply reads_frame in Hr|apply reads_frame in Hl]; try apply verify_live_inventory_reads.
  { rewrite (view_same _ _ Hr). apply sweeps_refl. }
  rewrite <- (view_same _ _ Hl).
  apply sm_bind_either in Hr as [(e & [=] & _)|(due & w2 & [= _ <-] & Hr)].
  apply sm_bind_either in Hr as [(e & [=] & _)|(ctx & w2 & [= _ <-] & Hr)].
  by eapply purge_each_sweeps.
Qed.

(** *** Listings *)

Abbreviation listed := (λ k : DocumentKind, k ≠ Authorization).

Lemma reads_sweeps {A} (m : WM A) kinds now w r w' :
  reads m → m w = (r, w') → sweeps kinds now (worker_view w) (worker_view w').
Proof. intros Hm Hr. apply reads_frame in Hr; [|done]. rewrite (view_same _ _ Hr). apply sweeps_refl. Qed.

(** A sequence of sweeps. *)
Lemma bind_sweeps {A B} (m : WM A) (f : A → WM B) kinds now w r w' :
  (∀ r1 w1, m w = (r1, w1) → sweeps kinds now (worker_view w) (worker_view w1)) →
  (∀ a w1 r2 w2, m w = (Ok a, w1) → f a w1 = (r2, w2) →
     sweeps kinds now (worker_view w1) (worker_view w2)) →
  (m ≫= f) w = (r, w') → sweeps kinds now (worker_view w) (worker_view w').
Proof.
  intros Hm Hf Hr. apply sm_bind_either in Hr as [(e & Hr & _)|(a & w1 & Hr & Hr')].
  - by eapply Hm.
  - eapply sweeps_trans; [by eapply Hm|by eapply Hf].
Qed.

(** Load a document, purge it, and go on. *)
Lemma purge_next {B} id k l now ctx (f : bool * SecretDocument → WM B) w r w' :
  k ≠ Authorization → loaded_at w id k None = Ok (Some l) →
  (∀ x w1 r2 w2, f x w1 = (r2, w2) → sweeps listed now (worker_view w1) (worker_view w2)) →
  (purge_loaded id k l now ctx ≫= f) w = (r, w') →
  sweeps listed now (worker_view w) (worker_view w').
Proof using All.
  intros Hk Hl Hf Hr. eapply bind_sweeps; [| |exact Hr].
  - intros r1 w1 Hp. eapply purge_loaded_sweeps in Hp; [|done]. eapply sweeps_weaken; [|done].
    by intros ? <-.
  - intros a w1 r2 w2 _. by apply Hf.
Qed.

Lemma expect_sweeps {A} (o : option A) now w r w' :
  expect o w = (r, w') → sweeps listed now (worker_view w) (worker_view w').
Proof.
  intros Hr. assert (same_data w w') as Hd by (destruct o; by injection Hr as _ <-).
  rewrite (view_same _ _ Hd). apply sweeps_refl.
Qed.

Lemma sorted_page_sweeps {A} (l : list (string * A)) cursor limit name now w r w' :
  sorted_page l cursor limit name w = (r, w') →
  sweeps listed now (worker_view w) (worker_view w').
Proof.
  intros Hr. eapply bind_sweeps; [| |exact Hr].
  - intros r1 w1 Hl. by eapply reads_sweeps; [apply reads_lift|].
  - intros a w1 r2 w2 _ Hx. eapply expect_sweeps; exact Hx.
Qed.

(** Continue after a step that only reads. *)
Ltac next_read Hr :=
  cbv beta in Hr; eapply bind_sweeps; [| |exact Hr];
  [intros ? ? ?; eapply reads_sweeps; [|eassumption]; solve_reads
  |clear Hr; intros ? ? ? ? _ Hr; cbv beta in Hr].

Lemma project_entries_of_sweeps documents now ctx acc w r w' :
  project_entries_of documents now ctx acc w = (r, w') →
  sweeps listed now (worker_view w) (worker_view w').
Proof using All.
  revert acc w r w'. induction documents as [|[id k] documents IH]; intros acc w r w' Hr;
    cbn [project_entries_of] in Hr.
  { injection Hr as _ <-. apply sweeps_refl. }
  apply sm_bind_either in Hr as [(e & Hr & ->)|(x & w1 & Hl & Hr)].
  { apply load_failed in Hr. rewrite (view_same _ _ Hr). apply sweeps_refl. }
  apply load_step in Hl as [Hd Hl]. rewrite <- (view_same _ _ Hd). destruct x as [l|]; [|by eapply IH].
  apply sm_bind_either in Hr as [(e & [= _ <-] & _)|(u & w2 & Hu & Hr)]; [apply sweeps_refl|].
  apply lift_Ok in Hu as [_ ->]. cbv zeta in Hr.
  apply sm_bind_either in Hr as [(e & [= _ <-] & _)|(v & w2 & Hu & Hr)]; [apply sweeps_refl|].
  apply lift_Ok in Hu as [_ ->].
  eapply purge_next; [| exact Hl| |exact Hr]; [done|]. clear Hr. intros x w2 r2 w3 Hr. next_read Hr. by eapply IH.
Qed.

Lemma worker_list_projects_law cursor limit now w r w' :
  worker_list_projects cursor limit now w = (r, w') →
  sweeps listed now (worker_view w) (worker_view w').
Proof using All.
  intros Hr. unfold worker_list_projects in Hr. next_read Hr.
  apply sm_bind_either in Hr as [(e & [=] & _)|(docs & ? & [= _ <-] & Hr)].
  apply sm_bind_either in Hr as [(e & [=] & _)|(ctx & ? & [= _ <-] & Hr)].
  eapply bind_sweeps; [| |exact Hr].
  - intros ? ? Hp. eapply project_entries_of_sweeps; exact Hp.
  - intros ? ? ? ? _ Hx. eapply sorted_page_sweeps; exact Hx.
Qed.

Lemma worker_list_project_addresses_law project cursor limit now w r w' :
  worker_list_project_addresses project cursor limit now w = (r, w') →
  sweeps listed now (worker_view w) (worker_view w').
Proof using All.
  intros Hr. unfold worker_list_project_addresses in Hr.
  apply sm_bind_either in Hr as [(e & [=] & _)|(id & ? & [= _ <-] & Hr)].
  apply sm_bind_either in Hr as [(e & Hr & ->)|(x & w1 & Hl & Hr)].
  { apply load_failed in Hr. rewrite (view_same _ _ Hr). apply sweeps_refl. }
  apply load_step in Hl as [Hd Hl]. rewrite <- (view_same _ _ Hd).
  destruct x as [l|]; [|injection Hr as _ <-; apply sweeps_refl]. apply loaded_any in Hl.
  apply sm_bind_either in Hr as [(e & [=] & _)|(ctx & ? & [= _ <-] & Hr)].
  eapply purge_next; [|exact Hl| |exact Hr]; [done|]. clear Hr. intros x w2 r2 w3 Hr.
  next_read Hr. next_read Hr. by eapply expect_sweeps.
Qed.

Lemma vault_entries_of_sweeps documents now ctx acc w r w' :
  Forall (λ d, d.2 ≠ Authorization) documents →
  vault_entries_of documents now ctx acc w = (r, w') →
  sweeps listed now (worker_view w) (worker_view w').
Proof using All.
  intros Hall. revert acc w r w'. induction Hall as [|[id k] documents Hk Hall IH];
    intros acc w r w' Hr; cbn [vault_entries_of] in Hr.
  { injection Hr as _ <-. apply sweeps_refl. }
  apply sm_bind_either in Hr as [(e & Hr & ->)|(x & w1 & Hl & Hr)].
  { apply load_failed in Hr. rewrite (view_same _ _ Hr). apply sweeps_refl. }
  apply load_step in Hl as [Hd Hl]. rewrite <- (view_same _ _ Hd). destruct x as [l|]; [|by eapply IH].
  eapply purge_next; [exact Hk|exact Hl| |exact Hr]. clear Hr. intros x w2 r2 w3 Hr.
  next_read Hr. next_read Hr.
  eapply bind_sweeps; [|intros ? ? ? ? _ Hx; eapply IH; exact Hx|exact Hr].
  intros ? ? [= _ <-]. apply sweeps_refl.
Qed.

Lemma worker_list_vault_entries_law cursor limit now w r w' :
  worker_list_vault_entries cursor limit now w = (r, w') →
  sweeps listed now (worker_view w) (worker_view w').
Proof using All.
  intros Hr. unfold worker_list_vault_entries in Hr. next_read Hr.
  apply sm_bind_either in Hr as [(e & [=] & _)|(docs & ? & [= Hdocs <-] & Hr)].
  apply sm_bind_either in Hr as [(e & [=] & _)|(ctx & ? & [= _ <-] & Hr)].
  eapply bind_sweeps; [| |exact Hr].
  - intros ? ? Hp. eapply vault_entries_of_sweeps; [|exact Hp]. rewrite <- Hdocs.
    unfold verified_documents. apply Forall_fmap, Forall_forall. intros [? d] Hin.
    apply list_elem_of_filter in Hin as [Hne _]. cbn.
    by apply negb_true_iff, bool_decide_eq_false in Hne.
  - intros ? ? ? ? _ Hx. eapply sorted_page_sweeps; exact Hx.
Qed.

(** ** The interface *)

Lemma sweeps_request {A} (m : WM A) kinds now w r w' :
  (∀ w r w', m w = (r, w') → sweeps kinds now (worker_view w) (worker_view w')) →
  request m w = (r, w') → sweeps kinds now (worker_view w) (worker_view w').
Proof.
  intros Hm. apply (request_law m (λ _ v v', sweeps kinds now v v')); [|done|exact Hm].
  intros v _. apply sweeps_refl.
Qed.

Lemma sweeps_authorization now v v' p :
  sweeps listed now v v' → v' Authorization p = v Authorization p.
Proof. intros Hs. by destruct (Hs Authorization p) as [|[Hk _]]. Qed.

Lemma changes_request {A} (m : WM A) k p f w r w' :
  (∀ w r w', m w = (r, w') → changes k p f r (worker_view w) (worker_view w')) →
  request m w = (r, w') → changes k p f r (worker_view w) (worker_view w').
Proof.
  intros Hm. apply (request_law m (changes k p f)); [|intros; by eapply changes_Err|exact Hm].
  intros v e. by apply changes_refl; eexists.
Qed.

Definition worker_store_ok : VaultStoreOk StoreWorker.
Proof using All.
  refine {| view := worker_view |}.
  - intros s k p addresses now r s' Hr. apply request_spec in Hr as [[(e & ->) Hd]|Hr].
    { rewrite (view_same _ _ Hd). split; [done|]. by intros _ ? [=]. }
    destruct Hr as (w1 & r1 & w2 & Hd1 & Hr & Hd2 & Hres).
    apply worker_get_many_law in Hr as [Hd Hr]. rewrite (view_same _ _ Hd1) in Hr.
    rewrite (view_same _ _ Hd2), (view_same _ _ Hd), (view_same _ _ Hd1).
    split; [done|]. intros Hp values ->. destruct Hres as [<-|[e [=]]]. by apply Hr.
  - intros s k p a now r s'. apply (request_law _ (gets k p a now)).
    + intros v e. split; [done|]. split; [by left|done].
    + intros x e v v' [Hs Hg]. split; [done|]. intros Hp. split; [by apply Hg|done].
    + intros w x w' Hx. by apply worker_get_law.
  - intros s k p ops prov now r s'. apply (changes_request _ k p (λ v, apply_operations v ops)).
    intros w x w' Hx. by eapply worker_mutate_law.
  - intros s k p a value evict_at prov now r s'.
    apply (changes_request _ k p (λ v, apply_operation v (DocumentOperation.Put a value evict_at))).
    intros w x w' Hx. by eapply worker_put_law.
  - intros s k p a prov now r s' Hr.
    apply (request_law _ (λ r v v',
      changes k p (λ v, apply_operation v (DocumentOperation.Delete a)) r v v'
      ∧ (is_personal k p = false → ∀ b, r = Ok b →
           b = bool_decide (is_Some (v k p !! storage_key a))))) in Hr as [[Hs Hc] Hb].
    + split; [done|]. intros Hp. split; [by apply Hc|by apply Hb].
    + intros v e. split; [by apply changes_refl; eexists|done].
    + intros x e v v' [Hc _]. split; [by eapply changes_Err|done].
    + intros w x w' Hx. by eapply worker_delete_law.
  - intros s k p prov now r s'. apply (request_law _ (clears k p)).
    + intros v e. split; [done|]. intros _ _. split; [by left|done].
    + intros x e v v' [Hs Hc]. split; [done|]. intros Hp Hk.
      destruct (Hc Hp Hk) as [Hx _]. split; [|done]. destruct x; [by right|done].
    + intros w x w' Hx. by eapply worker_clear_law.
  - intros s cursor limit now r s' p Hr. eapply sweeps_authorization, sweeps_request; [|exact Hr].
    intros w x w' Hx. by eapply worker_list_projects_law.
  - intros s project cursor limit now r s' p Hr. eapply sweeps_authorization, sweeps_request; [|exact Hr].
    intros w x w' Hx. by eapply worker_list_project_addresses_law.
  - intros s cursor limit now r s' p Hr. eapply sweeps_authorization, sweeps_request; [|exact Hr].
    intros w x w' Hx. by eapply worker_list_vault_entries_law.
  - intros s k p a before limit r s' Hr k' p'.
    apply (request_law _ (λ _ v v', v' = v)) in Hr as ->; [done|done|done|].
    intros w x w' Hx. apply view_same. by eapply worker_list_history_law.
  - intros s now r s' k p Hr Hp. eapply sweeps_request in Hr as Hs;
      [|intros w x w' Hx; by eapply worker_purge_expired_law].
    destruct (Hs k p) as [Hv|[_ Hv]]; [by left|right; by apply Hv].
Defined.

(** C3: The store worker, with its encrypted snapshots, its signed manifest and its
    transactions, implements the store the rest of the vault is verified against: for
    any contents of the database and whichever calls to it fail, every command has on
    the records that load exactly the effect its interface promises, or, when it
    reports an error, none of it or all of it. *)
Theorem worker_implements_store :
  ∃ ok : VaultStoreOk StoreWorker, view (VaultStoreOk := ok) = worker_view.
Proof using All. by exists worker_store_ok. Qed.
End WorkerStore.
