(* ===== verification/Startup.v ===== *)
(** Startup of the store (src/src/vault/store/worker/state.rs and worker/integrity.rs):
    the current state is accepted only under the device's signed manifest, and a store
    of the earlier schema only along its chain of signed commits, after which it is
    converted. *)
From Stdlib Require Import ZArith Lia Bool.
From stdpp Require Import base gmap strings list.
From S2P Require Import Prelude Core Address Text Wire History StoreSpec Signature Manifest KeyringIndex Envelope Automerge Document Database Worker.

Definition SCHEMA_VERSION : Z := 5.
Definition MAX_COMMIT_CHAIN : Z := 1000000.
Definition VERIFY_BATCH_SIZE : nat := 32.


(** [VerifiedDocument::from_legacy]. *)
Definition from_legacy (c : ProtectedCommit) (snapshot_bytes : Z) : VerifiedDocument :=
  let contents := pc_contents c in {|
  vd_row := {|
    row_vault_id := cc_vault_id contents; row_document_id := cc_document_id contents;
    row_scope := cc_scope contents; row_generation := cc_generation contents;
    row_key_epoch := cc_key_epoch contents;
    row_wrapped_key_digest := cc_wrapped_key_digest contents;
    row_current_commit_id := pc_commit_id c; row_next_eviction := cc_next_eviction contents |};
  vd_snapshot_digest := cc_snapshot_digest contents;
  vd_snapshot_bytes := snapshot_bytes |}.

Section Startup.
Context `{Sha256, Base64, MlDsa65, Aes256Gcm, HmacSha256, Signers, Random}.
Context `{Automerge, PersonalItems}.
Context `{Serde SecretRecord, Serde RecordDeadline, Serde ReplicaCatalog}.
Context `{Serde HistoryEntry, Serde HistoryLog, Serde WrappedKey, Serde EncryptedSnapshot}.
Context `{Serde CurrentHead, Serde StateManifest, Serde ProtectedCommit}.
Abbreviation WM := (SM StoreWorker).

(** ** The current schema *)

(** One row of [document_heads]. *)
Definition read_head (device : VaultMetadata) (manifest : StateManifest)
    (documents : gmap bytes VerifiedDocument) (row : Value * HeadColumns)
    : VaultResult (gmap bytes VerifiedDocument) :=
  _ ← fail_if (sm_document_count manifest <=? Z.of_nat (size documents)) VaultError.Signature;
  id ← row_blob row.1;
  id ← document_id_from_blob id;
  head_id ← row_blob (hc_head_id row.2);
  head_id ← array_from_blob 32 head_id "document head ID";
  b ← row_blob (hc_record row.2);
  head ← map_err VaultError.InvalidData (serde_from_slice b);
  _ ← head_verify head head_id;
  _ ← fail_if (negb (bool_decide (ch_document_id head = id))
               || negb (bool_decide (ch_vault_id head = vm_device_vault_id device))
               || negb (bool_decide (ch_device_key_id head = vm_device_key_id device)))
        VaultError.Signature;
  _ ← fail_if (bool_decide (is_Some (documents !! id))) VaultError.Signature;
  Ok (<[id := verified_document_new head 0]> documents).

Definition read_current_heads (manifest : StateManifest) : WM (gmap bytes VerifiedDocument) :=
  rows ← query (λ t, rows_by_key (t_heads t));
  device ← reading (λ w, Ok (w_device w));
  documents ← for_rows rows (λ documents row, lift (read_head device manifest documents row)) ∅;
  _ ← lift (fail_if
        (negb (Z.of_nat (size documents) =? sm_document_count manifest)
         || negb (bool_decide
              (inventory_digest (map (λ '(id, d), (id, row_current_commit_id (vd_row d)))
                                   (btree_list documents)) = sm_inventory_digest manifest)))
        VaultError.Signature);
  mret documents.

(** One row of [document_snapshots]; what was seen comes along. *)
Definition read_payload (acc : gmap bytes VerifiedDocument * gset bytes)
    (row : (Value * Value) * Value) : VaultResult (gmap bytes VerifiedDocument * gset bytes) :=
  let '(documents, seen) := acc in
  id ← row_blob row.1.1;
  id ← document_id_from_blob id;
  document ← ok_or VaultError.Signature (documents !! id);
  generation ← row_integer row.1.2;
  generation ← from_i64 generation "snapshot generation";
  envelope ← row_blob row.2;
  _ ← fail_if (bool_decide (id ∈ seen)
               || negb (generation =? row_generation (vd_row document))
               || negb (bool_decide (digest envelope = vd_snapshot_digest document)))
        VaultError.Signature;
  Ok (<[id := {| vd_row := vd_row document; vd_snapshot_digest := vd_snapshot_digest document;
                 vd_snapshot_bytes := Z.of_nat (length envelope) |}]> documents,
      {[id]} ∪ seen).

Definition snapshot_rows (t : Tables) : list ((Value * Value) * Value) :=
  order_by (λ a b, value_ltb a.1.1 b.1.1) (map_to_list (t_snapshots t)).

Definition verify_current_payloads (documents : gmap bytes VerifiedDocument)
    : WM (gmap bytes VerifiedDocument) :=
  rows ← query snapshot_rows;
  read ← for_rows rows (λ acc row, lift (read_payload acc row)) (documents, ∅);
  _ ← lift (fail_if (negb (Nat.eqb (size read.2) (size read.1)))
        (VaultError.InvalidData "current snapshot is missing"));
  mret read.1.

Definition verify_current_state : WM VerifiedStoreState :=
  transaction (
    manifest ← read_manifest;
    _ ← reading (λ w, manifest_verify manifest.1 (vm_device_vault_id (w_device w))
                        (vm_device_key_id (w_device w)) (w_verifying_key w));
    head ← current_commit_head;
    _ ← lift (fail_if (negb (bool_decide (head = Some (sm_manifest_id manifest.1))))
          VaultError.Signature);
    documents ← read_current_heads manifest.1;
    documents ← verify_current_payloads documents;
    let verified := {| vs_head := Some (sm_manifest_id manifest.1); vs_documents := documents;
                       vs_manifest_digest := Some (digest manifest.2) |} in
    _ ← verify_inventory verified;
    mret verified).

(** ** The chain of the earlier schema *)

(** One row of a batch against the commit expected next. *)
Definition read_commit (device : VaultMetadata) (key : verifying_key)
    (acc : option bytes * list ProtectedCommit)
    (row : Value * CommitColumns) : VaultResult (option bytes * list ProtectedCommit) :=
  let '(expected, records) := acc in
  stored_id ← row_blob row.1;
  stored_id ← array_from_blob 32 stored_id "commit ID";
  _ ← fail_if (negb (bool_decide (expected = Some stored_id))
               || (VERIFY_BATCH_SIZE <=? length records)%nat) VaultError.Signature;
  stored_previous ← row_optional_blob (co_previous_commit_id row.2);
  stored_previous ← opt_try (λ b, array_from_blob 32 b "previous commit ID") stored_previous;
  document ← row_blob (co_document_id row.2);
  stored_document ← document_id_from_blob document;
  generation ← row_integer (co_generation row.2);
  stored_generation ← from_i64 generation "commit generation";
  b ← row_blob (co_record row.2);
  record ← map_err VaultError.InvalidData (serde_from_slice b);
  _ ← commit_verify record stored_id (vm_device_key_id device) key;
  let contents := pc_contents record in
  _ ← fail_if (negb (bool_decide (stored_previous = cc_previous_commit_id contents))
               || negb (bool_decide (stored_document = cc_document_id contents))
               || negb (stored_generation =? cc_generation contents)
               || negb (bool_decide (cc_vault_id contents = vm_device_vault_id device)))
        (VaultError.InvalidData
           "protected commit SQL metadata does not match its signed record");
  Ok (cc_previous_commit_id contents, records ++ [record]).

Definition verify_commit_batch (commit_id : bytes) : WM (list ProtectedCommit) :=
  rows ← query (λ t, commit_rows t VERIFY_BATCH_SIZE (Value.Blob commit_id));
  device ← reading (λ w, Ok (w_device w));
  key ← reading (λ w, Ok (w_verifying_key w));
  read ← for_rows rows (λ acc row, lift (read_commit device key acc row)) (Some commit_id, []);
  _ ← lift (fail_if (bool_decide (length read.2 = 0%nat))
        (VaultError.InvalidData "protected commit chain is incomplete"));
  mret read.2.

(** The snapshots a batch expects, by document and generation. *)
Fixpoint expected_payloads (records : list ProtectedCommit) (index : nat)
    (expected : gmap (bytes * Z) nat) : VaultResult (gmap (bytes * Z) nat) :=
  match records with
  | [] => Ok expected
  | record :: records =>
      let key := (cc_document_id (pc_contents record), cc_generation (pc_contents record)) in
      _ ← fail_if (bool_decide (is_Some (expected !! key)))
            (VaultError.InvalidData "duplicate protected snapshot generation");
      _ ← to_i64 (cc_generation (pc_contents record));
      expected_payloads records (S index) (<[key := index]> expected)
  end.

Definition payload_rows (expected : gmap (bytes * Z) nat) (t : Tables)
    : list ((Value * Value) * Value) :=
  filter (λ row, bool_decide (is_Some (
      match row.1 with
      | (Value.Blob id, Value.Integer generation) => expected !! (id, generation)
      | _ => None
      end)) = true) (map_to_list (t_snapshots t)).

Definition read_batch_payload (records : list ProtectedCommit)
    (acc : gmap (bytes * Z) nat * list Z) (row : (Value * Value) * Value)
    : VaultResult (gmap (bytes * Z) nat * list Z) :=
  let '(expected, sizes) := acc in
  id ← row_blob row.1.1;
  id ← document_id_from_blob id;
  generation ← row_integer row.1.2;
  generation ← from_i64 generation "snapshot generation";
  index ← ok_or VaultError.Signature (expected !! (id, generation));
  snapshot ← row_blob row.2;
  record ← ok_or VaultError.Signature (records !! index);
  _ ← fail_if (negb (bool_decide (digest snapshot = cc_snapshot_digest (pc_contents record))))
        VaultError.Signature;
  Ok (delete (id, generation) expected, <[index := Z.of_nat (length snapshot)]> sizes).

Definition verify_batch_payloads (records : list ProtectedCommit) : WM (list Z) :=
  expected ← lift (expected_payloads records 0 ∅);
  rows ← query (payload_rows expected);
  read ← for_rows rows (λ acc row, lift (read_batch_payload records acc row))
           (expected, replicate (length records) 0);
  _ ← lift (fail_if (negb (bool_decide (read.1 = ∅)))
        (VaultError.InvalidData "protected commit snapshot is missing"));
  mret read.2.

(** What the walk along the chain has collected. *)
Record ChainWalk : Type := {
  cw_current : option bytes;
  cw_documents : gmap bytes VerifiedDocument;
  cw_visited : gset bytes;
  cw_count : Z
}.

Definition chain_error : VaultError.error :=
  VaultError.InvalidData "protected commit chain is cyclic or too long".

(** The loop over one batch; the walk starts at the head, so the first seen is newest. *)
Fixpoint absorb_batch (records : list (ProtectedCommit * Z)) (walk : ChainWalk)
    : VaultResult ChainWalk :=
  match records with
  | [] => Ok walk
  | (record, snapshot_bytes) :: records =>
      let count := cw_count walk + 1 in
      _ ← fail_if ((MAX_COMMIT_CHAIN <? count)
                   || bool_decide (pc_commit_id record ∈ cw_visited walk)) chain_error;
      let id := cc_document_id (pc_contents record) in
      absorb_batch records {|
        cw_current := cc_previous_commit_id (pc_contents record);
        cw_documents := match cw_documents walk !! id with
                        | Some _ => cw_documents walk
                        | None => <[id := from_legacy record snapshot_bytes]> (cw_documents walk)
                        end;
        cw_visited := {[pc_commit_id record]} ∪ cw_visited walk;
        cw_count := count |}
  end.

Fixpoint walk_chain (fuel : nat) (walk : ChainWalk) : WM ChainWalk :=
  match cw_current walk, fuel with
  | None, _ => mret walk
  | Some _, O => lift (Err chain_error)
  | Some commit_id, S fuel =>
      records ← verify_commit_batch commit_id;
      sizes ← verify_batch_payloads records;
      walk ← lift (absorb_batch (zip records sizes) walk);
      walk_chain fuel walk
  end.

Definition verify_protected_row_sets (chain_count : Z) : WM () :=
  commits ← query_count (λ t, Z.of_nat (size (t_commits t)));
  _ ← lift (fail_if (negb (commits =? chain_count))
        (VaultError.InvalidData "database contains commits outside the protected chain"));
  snapshots ← query_count (λ t, Z.of_nat (size (t_snapshots t)));
  _ ← lift (fail_if (negb (snapshots =? commits))
        (VaultError.InvalidData "database contains missing or uncommitted snapshots"));
  orphans ← query_count (λ t, Z.of_nat (size (filter
              (λ kc, t_documents t !! co_document_id kc.2 = None) (t_commits t))));
  lift (fail_if (negb (orphans =? 0))
          (VaultError.InvalidData "protected commit refers to a missing document")).

(** Every round visits a commit that was not visited, so one more than their number
    is fuel enough. *)
Definition verify_chain_in_snapshot : WM VerifiedStoreState :=
  head ← current_commit_head;
  fuel ← reading (λ w, Ok (S (size (t_commits (w_tables w)))));
  walk ← walk_chain fuel {|
    cw_current := head; cw_documents := ∅; cw_visited := ∅; cw_count := 0 |};
  _ ← verify_protected_row_sets (cw_count walk);
  let verified := {| vs_head := head; vs_documents := cw_documents walk;
                     vs_manifest_digest := None |} in
  _ ← verify_inventory verified;
  mret verified.

(** ** Conversion to the current schema *)

Definition legacy_head (w : StoreWorker) (id : bytes) (document : VerifiedDocument)
    : CurrentHead :=
  let row := vd_row document in
  head_new {|
    cc_previous_commit_id := None; cc_vault_id := row_vault_id row; cc_document_id := id;
    cc_scope := row_scope row; cc_generation := row_generation row;
    cc_key_epoch := row_key_epoch row; cc_wrapped_key_digest := row_wrapped_key_digest row;
    cc_snapshot_digest := vd_snapshot_digest document;
    cc_next_eviction := row_next_eviction row;
    cc_device_key_id := vm_device_key_id (w_device w) |}.

(** [UPDATE documents SET current_commit_id = ?1 WHERE document_id = ?2]. *)
Definition set_commit (t : Tables) (id head_id : bytes) : Tables :=
  set_documents t (alter (λ c, {|
    dc_vault_id := dc_vault_id c; dc_document_kind := dc_document_kind c;
    dc_generation := dc_generation c; dc_key_epoch := dc_key_epoch c;
    dc_wrapped_dek := dc_wrapped_dek c; dc_current_commit_id := Value.Blob head_id;
    dc_next_eviction := dc_next_eviction c |}) (document_key id) (t_documents t)).

(** [DELETE FROM document_snapshots WHERE document_id = ?1 AND generation <> ?2]. *)
Definition delete_old_snapshots (t : Tables) (id : bytes) (generation : Z) : Tables :=
  set_snapshots t (filter (λ kv, ¬ (kv.1.1 = document_key id ∧ kv.1.2 ≠ Value.Integer generation))
                     (t_snapshots t)).

Fixpoint migrate_documents (documents : list (bytes * VerifiedDocument))
    (converted : gmap bytes VerifiedDocument) : WM (gmap bytes VerifiedDocument) :=
  match documents with
  | [] => mret converted
  | (id, document) :: documents =>
      head ← reading (λ w, Ok (legacy_head w id document));
      b ← lift (map_err VaultError.InvalidData (serde_to_vec head));
      _ ← execute (λ t,
            if bool_decide (t_heads t !! document_key id = None)
               && bool_decide (map_Forall (λ _ h, hc_head_id h ≠ Value.Blob (ch_head_id head))
                                 (t_heads t))
            then Some (tt, set_heads t (<[document_key id :=
                   {| hc_head_id := Value.Blob (ch_head_id head); hc_record := Value.Blob b |}]>
                     (t_heads t)))
            else None);
      _ ← execute (λ t, Some (tt, set_commit t id (ch_head_id head)));
      generation ← lift (to_i64 (ch_generation head));
      _ ← execute (λ t, Some (tt, delete_old_snapshots t id generation));
      migrate_documents documents
        (<[id := verified_document_new head (vd_snapshot_bytes document)]> converted)
  end.

Definition u64_checked_mul (a b : Z) : option Z := if a * b <=? U64_MAX then Some (a * b) else None.

(** Whether enough pages are free for the file to be rewritten. *)
Definition repack_needed (pages unused page_size : Z) : VaultResult bool :=
  _ ← fail_if ((pages <? unused) || (page_size =? 0))
        (VaultError.InvalidData "invalid database page counts");
  free ← ok_or (VaultError.InvalidData "database size overflow") (u64_checked_mul unused page_size);
  Ok ((64 * 1024 * 1024 <=? free) && (pages - unused <=? unused)).

(** The three [PRAGMA] queries, of a file whose pages the environment counts. *)
Definition query_pragma (f : Z * Z * Z → Z) : WM Z :=
  _ ← db_call;
  count ← reading (λ w, Ok (f (env_pages (w_environment w) (w_tick w))));
  _ ← db_call;
  lift (from_i64 count "row count").

Definition query_pages : WM (Z * Z * Z) :=
  pages ← query_pragma (λ p, p.1.1);
  unused ← query_pragma (λ p, p.1.2);
  page_size ← query_pragma (λ p, p.2);
  mret (pages, unused, page_size).

Definition migrate_current_state : WM () :=
  _ ← transaction (
    previous ← verify_chain_in_snapshot;
    _ ← execute (λ t, Some (tt, set_heads t ∅));
    documents ← migrate_documents (btree_list (vs_documents previous)) ∅;
    _ ← execute (λ t, Some (tt, set_commits t ∅));
    pages ← query_pages;
    repack ← lift (repack_needed pages.1.1 pages.1.2 pages.2);
    stateful (λ w,
      (manifest ← lift (sign_manifest w documents repack);
       _ ← persist_manifest manifest;
       upsert_meta META_SCHEMA (be_bytes 4 CURRENT_SCHEMA_VERSION)) w));
  checkpoint.

Definition set_manifest (w : StoreWorker) (head digest : bytes) : StoreWorker :=
  set_verified w {| vs_head := Some head; vs_documents := vs_documents (w_verified w);
                    vs_manifest_digest := Some digest |}.

Definition finish_migration_repack : WM () :=
  _ ← checkpoint;
  _ ← db_call;
  current ← verify_current_state;
  verified ← reading (λ w, Ok (w_verified w));
  _ ← lift (fail_if (negb (bool_decide (current = verified))) VaultError.Signature);
  manifest ← reading (λ w, sign_manifest w (vs_documents (w_verified w)) false);
  fingerprint ← transaction (
    _ ← verify_live_inventory;
    persist_manifest manifest);
  _ ← stateful (λ w, (Ok tt, set_manifest w (sm_manifest_id manifest) fingerprint));
  checkpoint.

Definition read_schema_version : WM Z :=
  found ← query_optional_blob (λ t, t_meta t !! META_SCHEMA);
  stored ← lift (ok_or (VaultError.Database "missing schema version") found);
  _ ← lift (fail_if (negb (bool_decide (length stored = 4%nat)))
        (VaultError.Database "vault database schema version has the wrong size"));
  mret (from_be_bytes stored).

Definition initialize_current_state : WM () :=
  version ← read_schema_version;
  _ ← (if version =? SCHEMA_VERSION then migrate_current_state
       else if version =? CURRENT_SCHEMA_VERSION then mret tt
       else lift (Err (VaultError.InvalidData "unsupported store schema")));
  verified ← verify_current_state;
  _ ← stateful (λ w, (Ok tt, set_verified w verified));
  manifest ← read_manifest;
  if sm_repack_pending manifest.1 then finish_migration_repack else mret tt.
End Startup.
