(* ===== verification/StartupProofs.v ===== *)
(** What startup accepts: the state of the current schema, row by row, and the walk
    along the chain of the earlier one. *)
From Stdlib Require Import ZArith Lia Bool.
From stdpp Require Import base gmap strings list.
From S2P Require Import Prelude Core Address Text Wire History StoreSpec Signature Manifest KeyringIndex Envelope Automerge Document Database Worker WorkerReads WorkerCommit Startup.

Lemma try_collect_total {E A B} (f : A → result E B) l :
  (∀ x, x ∈ l → ∃ y, f x = Ok y) → ∃ r, try_collect f l = Ok r.
Proof.
  induction l as [|x l IH]; intros Hall; [by eexists|]. cbn.
  destruct (Hall x) as [y ->]; [by left|]. destruct IH as [r ->]; [intros; apply Hall; by right|].
  by eexists.
Qed.

(** ** Inventories *)

Definition inventory_of (documents : gmap bytes VerifiedDocument) : list (bytes * bytes) :=
  map (λ '(id, d), (id, row_current_commit_id (vd_row d))) (btree_list documents).

Lemma insert_row_fmap {A B} (f : A → B) lt lt' x l :
  (∀ a b, lt' (f a) (f b) = lt a b) → insert_row lt' (f x) (f <$> l) = f <$> insert_row lt x l.
Proof.
  intros Hlt. induction l as [|y l IH]; cbn; [done|]. rewrite Hlt.
  destruct (lt y x); cbn; [by f_equal|done].
Qed.

Lemma order_by_fmap {A B} (f : A → B) lt lt' l :
  (∀ a b, lt' (f a) (f b) = lt a b) → order_by lt' (f <$> l) = f <$> order_by lt l.
Proof.
  intros Hlt. induction l as [|x l IH]; cbn; [done|].
  unfold order_by in IH. rewrite IH. by apply insert_row_fmap.
Qed.

Lemma inventory_of_fmap (f : VerifiedDocument → VerifiedDocument) documents :
  (∀ d, vd_row (f d) = vd_row d) → inventory_of (f <$> documents) = inventory_of documents.
Proof.
  intros Hf. unfold inventory_of, btree_list. rewrite map_to_list_fmap.
  rewrite (order_by_fmap (prod_map id f) (λ a b, bytes_ltb a.1 b.1)) by done.
  change (fmap ?g) with (map g). rewrite map_map. apply map_ext. intros [id d]. cbn. by rewrite Hf.
Qed.

Lemma inventory_of_elem documents id h :
  (id, h) ∈ inventory_of documents ↔
  ∃ d, documents !! id = Some d ∧ row_current_commit_id (vd_row d) = h.
Proof.
  unfold inventory_of, btree_list. change (map ?g) with (fmap (M := list) g).
  rewrite list_elem_of_fmap. split.
  - intros ([id' d] & [= -> ->] & Hd). rewrite order_by_perm in Hd.
    apply elem_of_map_to_list in Hd. by exists d.
  - intros (d & Hd & <-). exists (id, d). split; [done|]. rewrite order_by_perm.
    by apply elem_of_map_to_list.
Qed.

Section StartupProofs.
Context `{Sha256, Base64, MlDsa65, Aes256Gcm, HmacSha256, Signers, Random}.
Context `{Automerge, PersonalItems}.
Context `{Serde SecretRecord, Serde RecordDeadline, Serde ReplicaCatalog}.
Context `{Serde HistoryEntry, Serde HistoryLog, Serde WrappedKey, Serde EncryptedSnapshot}.
Context `{Serde CurrentHead, Serde StateManifest, Serde ProtectedCommit}.
Abbreviation WM := (SM StoreWorker).

(** ** Reads *)

Lemma pure_for_rows {A B} (rows : list A) (body : B → A → VaultResult B) acc w :
  pure (for_rows rows (λ b a, lift (body b a)) acc) w = try_fold body acc rows.
Proof.
  revert acc. induction rows as [|x rows IH]; intros acc; cbn [for_rows try_fold].
  - by rewrite reads_bind_pure by solve_reads.
  - rewrite reads_bind_pure; [|solve_reads|].
    2:{ intros _. apply reads_bind; [solve_reads|intros ?]. apply for_rows_reads. solve_reads. }
    change (pure db_call w) with (Ok tt : VaultResult ()). cbn [mbind result_bind].
    rewrite reads_bind_pure by first [solve [solve_reads]|intros ?; apply for_rows_reads; solve_reads].
    change (pure (lift (body acc x)) w) with (body acc x). apply result_bind_ext. intros b. apply IH.
Qed.

Lemma for_rows_lift_reads {A B} (rows : list A) (body : B → A → VaultResult B) acc :
  reads (for_rows rows (λ b a, lift (body b a)) acc).
Proof. apply for_rows_reads. solve_reads. Qed.
#[local] Hint Resolve for_rows_lift_reads : reads.

Lemma pure_transaction {A} (m : WM A) w : reads m → pure (transaction m) w = pure m w.
Proof.
  intros Hm. unfold pure at 1, transaction. cbn [db_call env_fault w_environment quiet quiet_environment].
  destruct (m (step (quiet w))) as [x w1] eqn:Hx.
  pose proof (Hm _ _ _ Hx) as (_ & He & _ & Hq).
  rewrite (pure_ext m w (step (quiet w))) in Hq by done. rewrite Hq by done.
  destruct (pure m w) as [a|e]; [|done]. unfold db_call. by rewrite He.
Qed.
Lemma transaction_reads {A} (m : WM A) : reads m → reads (transaction m).
Proof.
  intros Hm w r w' Ht.
  rewrite pure_transaction by done. unfold transaction in Ht.
  destruct (db_call w) as [[[]|e] w1] eqn:Hc; pose proof (reads_db_call _ _ _ Hc) as (D1 & E1 & _ & Q1).
  2:{ injection Ht as <- <-. split_and!; [done..|]. intros Hu%Q1. discriminate. }
  destruct (m w1) as [x w2] eqn:Hx. pose proof (Hm _ _ _ Hx) as (D2 & E2 & A2 & Q2).
  rewrite (pure_ext m w w1) in A2, Q2 by done.
  assert (undisturbed w → undisturbed w2) as U by (unfold undisturbed; congruence).
  destruct x as [a|e].
  - destruct (db_call w2) as [[[]|e] w3] eqn:Hc2;
      pose proof (reads_db_call _ _ _ Hc2) as (D3 & E3 & _ & Q3); injection Ht as <- <-.
    + split_and!; [by rewrite D1, D2, D3|congruence|done|].
      intros Hu. apply Q2. unfold undisturbed in *; congruence.
    + split_and!; [|cbn; congruence|done|intros Hu%U%Q3; discriminate].
      destruct D1 as (? & ? & ? & ? & ?), D2 as (? & ? & ? & ? & ?), D3 as (? & ? & ? & ? & ?).
      unfold same_data; cbn. split_and!; congruence.
  - injection Ht as <- <-. split_and!; [|cbn; congruence|done|].
    + destruct D1 as (? & ? & ? & ? & ?), D2 as (? & ? & ? & ? & ?).
      unfold same_data; cbn. split_and!; congruence.
    + intros Hu. apply Q2. unfold undisturbed in *; congruence.
Qed.


(** ** Heads *)

(** What one row of [document_heads] says, the rows before it aside. *)
Definition head_of (device : VaultMetadata) (key : Value) (c : HeadColumns)
    (id : bytes) (head : CurrentHead) : Prop :=
  key = document_key id ∧ length id = 32%nat
  ∧ ∃ head_id record, hc_head_id c = Value.Blob head_id ∧ hc_record c = Value.Blob record
    ∧ length head_id = 32%nat ∧ serde_from_slice record = Ok head
    ∧ head_verify head head_id = Ok tt ∧ ch_document_id head = id
    ∧ ch_vault_id head = vm_device_vault_id device
    ∧ ch_device_key_id head = vm_device_key_id device.

Lemma read_head_Ok device manifest documents key c documents' :
  read_head device manifest documents (key, c) = Ok documents' ↔
  Z.of_nat (size documents) < sm_document_count manifest
  ∧ ∃ id head, head_of device key c id head ∧ documents !! id = None
    ∧ documents' = <[id := verified_document_new head 0]> documents.
Proof.
  unfold read_head, head_of. split.
  - intros Hr. cbn [fst snd] in Hr. inv_ok. inv_columns. bool_prop. destruct_and!. subst. split; [done|].
    eexists _, _. split; [split; [done|split; [done|eexists _, _; by split_and!]]|].
    split; [by apply eq_None_not_Some|done].
  - intros (Hs & id & head & (-> & Hid & hid & rb & Eh & Er & Hl & Hser & Hv & Hd & Hva & Hde) & Hn & ->).
    unfold document_id_from_blob. cbn [fst snd document_key row_blob].
    rewrite (proj2 (Z.leb_gt _ _)) by done. cbn [fail_if mbind result_bind].
    rewrite (array_from_blob_size 32) by done. cbn [mbind result_bind]. rewrite Eh.
    cbn [row_blob mbind result_bind]. rewrite (array_from_blob_size 32) by done.
    cbn [mbind result_bind]. rewrite Er. cbn [row_blob mbind result_bind]. rewrite Hser.
    cbn [map_err mbind result_bind]. rewrite Hv. cbn [mbind result_bind].
    rewrite 3!(bool_decide_eq_true_2 (_ = _)) by done. cbn [negb orb fail_if mbind result_bind].
    by rewrite bool_decide_eq_false_2 by (rewrite Hn; by intros [? [=]]).
Qed.

(** The documents the heads of a table stand for. *)
Definition heads_read (device : VaultMetadata) (rows : list (Value * HeadColumns))
    (documents : gmap bytes VerifiedDocument) : Prop :=
  (∀ key c, (key, c) ∈ rows → ∃ id head, head_of device key c id head
     ∧ documents !! id = Some (verified_document_new head 0))
  ∧ (∀ id d, documents !! id = Some d → ∃ c head, (document_key id, c) ∈ rows
     ∧ head_of device (document_key id) c id head ∧ d = verified_document_new head 0).

Lemma heads_fold_sound device manifest rows documents :
  try_fold (read_head device manifest) ∅ rows = Ok documents → heads_read device rows documents.
Proof.
  intros Hf. eapply (try_fold_invariant _ (heads_read device) []) in Hf; [exact Hf| |].
  - intros l b [key c] b' [Hin Hout] (_ & id & head & Hh & Hn & ->)%read_head_Ok.
    split.
    + intros k' c' [Hx|Hx%list_elem_of_singleton]%elem_of_app.
      * apply Hin in Hx as (id' & head' & Hh' & Hl). exists id', head'. split; [done|].
        rewrite lookup_insert_ne by congruence. done.
      * injection Hx as -> ->. exists id, head. split; [done|]. by rewrite lookup_insert_eq.
    + intros id' d Hd. destruct (decide (id' = id)) as [->|Hne].
      * rewrite lookup_insert_eq in Hd. injection Hd as <-. pose proof Hh as (-> & _).
        exists c, head. split_and!; [set_solver|done..].
      * rewrite lookup_insert_ne in Hd by congruence. apply Hout in Hd as (c' & h' & ? & ? & ?).
        exists c', h'. split_and!; [set_solver|done..].
  - split; [intros ? ? Hx; by apply elem_of_nil in Hx|intros ? ? Hx; by rewrite lookup_empty in Hx].
Qed.

Lemma head_of_unique device key c id head id' head' :
  head_of device key c id head → head_of device key c id' head' → id = id' ∧ head = head'.
Proof.
  intros (-> & _ & ? & ? & ? & E & ? & S & _) (E' & _ & ? & ? & ? & E2 & ? & S2 & _).
  injection E' as ->. rewrite E in E2. injection E2 as ->. rewrite S in S2. by injection S2 as ->.
Qed.

Lemma heads_read_unique device rows d d' :
  heads_read device rows d → heads_read device rows d' →
  (∀ k c c', (k, c) ∈ rows → (k, c') ∈ rows → c = c') → d = d'.
Proof.
  intros [Hin Hout] [Hin' Hout'] Hfun.
  apply map_eq. intros id. apply option_eq. intros v. split; intros Hv.
  - apply Hout in Hv as (c & head & Hc & Hh & ->). apply Hin' in Hc as (id' & h' & Hh' & Hl).
    by destruct (head_of_unique _ _ _ _ _ _ _ Hh Hh') as [-> ->].
  - apply Hout' in Hv as (c & head & Hc & Hh & ->). apply Hin in Hc as (id' & h' & Hh' & Hl).
    by destruct (head_of_unique _ _ _ _ _ _ _ Hh Hh') as [-> ->].
Qed.

Lemma heads_fold_complete device manifest rows documents :
  NoDup rows.*1 → (∀ key c, (key, c) ∈ rows → ∃ id head, head_of device key c id head) →
  (∀ key id, key ∈ rows.*1 → key = document_key id → documents !! id = None) →
  Z.of_nat (size documents + length rows) ≤ sm_document_count manifest →
  ∃ documents', try_fold (read_head device manifest) documents rows = Ok documents'.
Proof.
  revert documents. induction rows as [|[key c] rows IH]; intros documents Hnd Hall Hnew Hlen; [by eexists|].
  cbn [try_fold]. destruct (Hall key c) as (id & head & Hh); [by left|].
  pose proof Hh as (Hkey & _). apply NoDup_cons in Hnd as [Hnot Hnd]. cbn in Hlen.
  assert (documents !! id = None) as Hnone by (apply (Hnew key); [by left|done]).
  assert (read_head device manifest documents (key, c)
          = Ok (<[id := verified_document_new head 0]> documents)) as ->.
  { apply read_head_Ok. split; [lia|]. by exists id, head. }
  cbn [mbind result_bind]. apply IH; [done|intros; apply Hall; by right| |].
  - intros k' id' Hk' ->. rewrite lookup_insert_ne; [apply (Hnew (document_key id')); [by right|done]|].
    intros <-. apply Hnot. by rewrite Hkey.
  - rewrite map_size_insert_None by done. lia.
Qed.

(** ** Payloads *)

Definition resized (d : VerifiedDocument) (envelope : bytes) : VerifiedDocument := {|
  vd_row := vd_row d; vd_snapshot_digest := vd_snapshot_digest d;
  vd_snapshot_bytes := Z.of_nat (length envelope) |}.

(** The snapshot a document is expected to have. *)
Definition payload_of (id : bytes) (d : VerifiedDocument) (row : (Value * Value) * Value)
    (envelope : bytes) : Prop :=
  row = ((document_key id, Value.Integer (row_generation (vd_row d))), Value.Blob envelope)
  ∧ length id = 32%nat ∧ 0 ≤ row_generation (vd_row d)
  ∧ digest envelope = vd_snapshot_digest d.

Lemma read_payload_Ok documents seen row r :
  read_payload (documents, seen) row = Ok r ↔
  ∃ id d envelope, documents !! id = Some d ∧ payload_of id d row envelope ∧ id ∉ seen
    ∧ r = (<[id := resized d envelope]> documents, {[id]} ∪ seen).
Proof.
  unfold read_payload, payload_of. split.
  - intros Hr. inv_ok. inv_columns. bool_prop. destruct_and!. subst.
    destruct row as [[k g] v]. cbn in *. subst. by eexists _, _, _.
  - intros (id & d & envelope & Hd & (-> & Hl & Hg & Hdig) & Hn & ->).
    cbn [fst snd document_key row_blob row_integer mbind result_bind]. unfold document_id_from_blob.
    rewrite (array_from_blob_size 32) by done. cbn [mbind result_bind]. rewrite Hd.
    cbn [ok_or mbind result_bind]. rewrite from_i64_count by done. cbn [mbind result_bind].
    rewrite bool_decide_eq_false_2, Z.eqb_refl, bool_decide_eq_true_2 by done. done.
Qed.

Definition payloads_read (rows : list ((Value * Value) * Value))
    (documents documents' : gmap bytes VerifiedDocument) (seen : gset bytes) : Prop :=
  (∀ id, id ∉ seen → documents' !! id = documents !! id)
  ∧ (∀ id, id ∈ seen → ∃ d row envelope, documents !! id = Some d ∧ row ∈ rows
     ∧ payload_of id d row envelope ∧ documents' !! id = Some (resized d envelope))
  ∧ (∀ row, row ∈ rows → ∃ id d envelope, id ∈ seen ∧ documents !! id = Some d
     ∧ payload_of id d row envelope).

Lemma payloads_fold_sound documents rows documents' seen :
  try_fold read_payload (documents, ∅) rows = Ok (documents', seen) →
  payloads_read rows documents documents' seen.
Proof.
  intros Hf.
  eapply (try_fold_invariant _ (λ l a, payloads_read l documents a.1 a.2) []) in Hf; [exact Hf| |].
  - intros l [docs sn] row b' (Hout & Hin & Hrows)
      (id & d & envelope & Hd & Hp & Hn & ->)%read_payload_Ok. cbn [fst snd] in *.
    rewrite Hout in Hd by done. unfold payloads_read. split_and!.
    + intros id' Hid'. rewrite lookup_insert_ne by set_solver. apply Hout. set_solver.
    + intros id' [Hid'|Hid']%elem_of_union; [apply elem_of_singleton in Hid' as ->|].
      * exists d, row, envelope. rewrite lookup_insert_eq. split_and!; [done|set_solver|done|done].
      * apply Hin in Hid' as Hx. destruct Hx as (d' & row' & e' & ? & ? & ? & ?).
        exists d', row', e'. rewrite lookup_insert_ne by congruence. split_and!; [done|set_solver|done|done].
    + intros row' [Hr|Hr]%elem_of_app; [|apply list_elem_of_singleton in Hr as ->].
      * apply Hrows in Hr as (id' & d' & e' & ? & ? & ?). exists id', d', e'. set_solver.
      * exists id, d, envelope. set_solver.
  - cbn. split_and!; [done|set_solver|]. intros ? Hx. by apply elem_of_nil in Hx.
Qed.

Lemma payloads_fold_complete rows documents seen :
  NoDup rows.*1 →
  (∀ row, row ∈ rows → ∃ id d envelope, documents !! id = Some d ∧ payload_of id d row envelope
     ∧ id ∉ seen) →
  ∃ documents' seen', try_fold read_payload (documents, seen) rows = Ok (documents', seen')
    ∧ size seen' = (size seen + length rows)%nat ∧ size documents' = size documents.
Proof.
  revert documents seen. induction rows as [|row rows IH]; intros documents seen Hnd Hall.
  { exists documents, seen. split_and!; [done|cbn; lia|done]. }
  apply NoDup_cons in Hnd as [Hnot Hnd].
  destruct (Hall row) as (id & d & envelope & Hd & Hp & Hn); [by left|]. cbn [try_fold].
  assert (read_payload (documents, seen) row
          = Ok (<[id := resized d envelope]> documents, {[id]} ∪ seen)) as ->.
  { apply read_payload_Ok. by exists id, d, envelope. }
  cbn [mbind result_bind].
  destruct (IH (<[id := resized d envelope]> documents) ({[id]} ∪ seen)) as (docs & sn & Hf & Hs & Hz);
    [done| |].
  - intros row' Hr. destruct (Hall row') as (id' & d' & e' & Hd' & Hp' & Hn'); [by right|].
    assert (id' ≠ id) as Hne.
    { intros ->. rewrite Hd in Hd'. injection Hd' as <-. apply Hnot.
      apply list_elem_of_fmap. exists row'. split; [|done].
      by destruct Hp as (-> & _), Hp' as (-> & _). }
    exists id', d', e'. rewrite lookup_insert_ne by congruence. set_solver.
  - exists docs, sn. rewrite Hf, Hs, Hz, map_size_insert_Some by (by exists d).
    rewrite size_union by set_solver. rewrite size_singleton. split_and!; [done|cbn; lia|done].
Qed.

(** ** Rows of [documents] *)

Lemma rows_by_key_elem {A} (m : gmap Value A) key c : (key, c) ∈ rows_by_key m ↔ m !! key = Some c.
Proof. unfold rows_by_key. by rewrite order_by_perm, elem_of_map_to_list. Qed.

Lemma rows_by_key_NoDup {A} (m : gmap Value A) : NoDup (rows_by_key m).*1.
Proof. unfold rows_by_key. rewrite order_by_perm. apply NoDup_fst_map_to_list. Qed.

Lemma rows_by_key_length {A} (m : gmap Value A) : length (rows_by_key m) = size m.
Proof. unfold rows_by_key. by rewrite order_by_perm, length_map_to_list. Qed.

Lemma pure_collect_rows {A B} (rows : list A) (body : list B → A → WM (list B))
    (f : A → VaultResult B) acc w :
  (∀ acc a, body acc a = (row ← lift (f a); mret (acc ++ [row]))) →
  pure (for_rows rows body acc) w = ys ← try_collect f rows; Ok (acc ++ ys).
Proof.
  intros Hb. assert (∀ rows acc, reads (for_rows rows body acc)) as Hr.
  { intros ? ?. apply for_rows_reads. intros ? ?. rewrite Hb. solve_reads. }
  revert acc. induction rows as [|x rows IH]; intros acc; cbn [for_rows try_collect].
  - rewrite reads_bind_pure by solve_reads. cbn. by rewrite app_nil_r.
  - rewrite reads_bind_pure; [|solve_reads|rewrite Hb; intros _; apply reads_bind; [solve_reads|done]].
    change (pure db_call w) with (Ok tt : VaultResult ()). cbn [mbind result_bind]. rewrite Hb.
    rewrite reads_bind_pure by (done || solve_reads). rewrite reads_bind_pure by solve_reads.
    change (pure (lift (f x)) w) with (f x). destruct (f x) as [y|e]; [|done]. cbn [mbind result_bind].
    change (pure (mret (acc ++ [y])) w) with (Ok (acc ++ [y]) : VaultResult (list B)).
    cbn [mbind result_bind]. rewrite IH. destruct (try_collect f rows); [|done]. cbn.
    by rewrite <- app_assoc.
Qed.

Definition row_of (row : Value * DocumentColumns) : VaultResult DocumentRow :=
  read_document_row (id ← row_blob row.1; document_id_from_blob id) row.2.

Lemma document_rows_pure w :
  pure document_rows w = try_collect row_of (rows_by_key (t_documents (w_tables w))).
Proof.
  unfold document_rows. rewrite reads_bind_pure by
    first [solve [eauto with reads]|intros ?; apply for_rows_reads; intros ? [? ?]; solve_reads].
  rewrite pure_query. cbn [mbind result_bind].
  rewrite (pure_collect_rows _ _ row_of) by (by intros ? [? ?]). by destruct (try_collect _ _).
Qed.

Lemma row_of_Ok key c row :
  row_of (key, c) = Ok row ↔
  ∃ id, key = document_key id ∧ length id = 32%nat ∧ read_document_row (Ok id) c = Ok row.
Proof.
  unfold row_of. cbn [fst snd]. split.
  - destruct (id ← row_blob key; document_id_from_blob id) as [id|e] eqn:Hk.
    + intros Hr. inv_ok. inv_columns. by exists a.
    + unfold read_document_row. intros Hr. inv_ok.
  - intros (id & -> & Hl & Hr). cbn [document_key row_blob mbind result_bind].
    unfold document_id_from_blob. by rewrite (array_from_blob_size 32).
Qed.

Lemma read_document_row_id id c row :
  read_document_row (Ok id) c = Ok row → row_document_id row = id.
Proof. unfold read_document_row. intros Hr. inv_ok. by subst. Qed.

(** The rows of [documents] are those of the verified documents. *)
Definition inventory_matches (t : Tables) (documents : gmap bytes VerifiedDocument) : Prop :=
  size (t_documents t) = size documents
  ∧ ∀ key c, t_documents t !! key = Some c → ∃ id d, key = document_key id ∧ length id = 32%nat
      ∧ documents !! id = Some d ∧ read_document_row (Ok id) c = Ok (vd_row d).

Lemma inventory_row_ok_Ok v row :
  inventory_row_ok v row = Ok tt ↔
  ∃ d, vs_documents v !! row_document_id row = Some d ∧ vd_row d = row.
Proof.
  unfold inventory_row_ok. rewrite fail_if_Ok. destruct (_ !! _) as [d|]; [|naive_solver].
  rewrite negb_false_iff, bool_decide_eq_true. naive_solver.
Qed.

Lemma verify_inventory_Ok v w :
  pure (verify_inventory v) w = Ok tt ↔
  pure current_commit_head w = Ok (vs_head v) ∧ inventory_matches (w_tables w) (vs_documents v).
Proof.
  unfold verify_inventory. rewrite reads_bind_pure by solve_reads. rewrite bind_Ok. split.
  - intros (h & Hh & Hv). rewrite Hh. rewrite reads_bind_pure in Hv by solve_reads.
    change (pure (lift ?r) w) with r in Hv. apply then_Ok in Hv as [Hc Hv].
    apply fail_if_Ok, negb_false_iff, bool_decide_eq_true in Hc as ->. split; [done|].
    rewrite reads_bind_pure, document_rows_pure in Hv by solve_reads.
    apply bind_Ok in Hv as (rows & Hrows & Hv). rewrite reads_bind_pure in Hv by solve_reads.
    change (pure (lift ?r) w) with r in Hv. apply then_Ok in Hv as [Hc Hv].
    apply fail_if_Ok, negb_false_iff, bool_decide_eq_true in Hc.
    rewrite reads_bind_pure in Hv by solve_reads. apply bind_Ok in Hv as (us & Hus & _).
    change (pure (lift ?r) w) with r in Hus. split.
    + apply try_collect_Ok, Forall2_length in Hrows. by rewrite rows_by_key_length, Hc in Hrows.
    + intros key c Hkc%rows_by_key_elem.
      destruct (try_collect_image _ _ _ _ Hrows Hkc) as (row & Hrow & (id & -> & Hl & Hr)%row_of_Ok).
      destruct (try_collect_image _ _ _ _ Hus Hrow) as ([] & _ & (d & Hd & Hdr)%inventory_row_ok_Ok).
      pose proof (read_document_row_id _ _ _ Hr) as Hid. rewrite Hid in Hd.
      exists id, d. by rewrite Hdr.
  - intros (Hh & Hsize & Hall). exists (vs_head v). split; [done|].
    rewrite reads_bind_pure by solve_reads. change (pure (lift ?r) w) with r.
    rewrite bool_decide_eq_true_2 by done. cbn [negb fail_if mbind result_bind].
    rewrite reads_bind_pure, document_rows_pure by solve_reads.
    assert (∀ key c, (key, c) ∈ rows_by_key (t_documents (w_tables w)) → ∃ d,
      row_of (key, c) = Ok (vd_row d)
      ∧ vs_documents v !! row_document_id (vd_row d) = Some d) as Hrow.
    { intros key c Hkc%rows_by_key_elem. apply Hall in Hkc as (id & d & -> & Hl & Hd & Hr).
      exists d. rewrite (read_document_row_id _ _ _ Hr). split; [|done].
      apply row_of_Ok. by exists id. }
    destruct (try_collect_total row_of (rows_by_key (t_documents (w_tables w)))) as [rows Hrows].
    { intros [key c] (d & Hd & _)%Hrow. by eexists. }
    rewrite Hrows. cbn [mbind result_bind]. rewrite reads_bind_pure by solve_reads.
    change (pure (lift ?r) w) with r.
    rewrite bool_decide_eq_true_2; [cbn [negb fail_if mbind result_bind]|].
    2:{ apply try_collect_Ok, Forall2_length in Hrows. by rewrite rows_by_key_length, Hsize in Hrows. }
    destruct (try_collect_total (inventory_row_ok v) rows) as [us Hus].
    { intros row Hx. destruct (try_collect_elem _ _ _ _ Hrows Hx) as ([key c] & Hkc & Hr).
      apply Hrow in Hkc as (d & Hd & Hl). rewrite Hr in Hd. injection Hd as ->.
      exists tt. apply inventory_row_ok_Ok. by exists d. }
    rewrite reads_bind_pure by solve_reads. change (pure (lift ?r) w) with r. by rewrite Hus.
Qed.

(** ** The current state *)

(** A document whose head and snapshot the tables hold. *)
Definition document_sound (device : VaultMetadata) (t : Tables) (id : bytes)
    (d : VerifiedDocument) : Prop :=
  ∃ c head envelope, t_heads t !! document_key id = Some c
    ∧ head_of device (document_key id) c id head
    ∧ t_snapshots t !! (document_key id, Value.Integer (ch_generation head))
      = Some (Value.Blob envelope)
    ∧ 0 ≤ ch_generation head ∧ digest envelope = ch_snapshot_digest head
    ∧ d = verified_document_new head (Z.of_nat (length envelope)).

(** What startup accepts. *)
Record accepted (w : StoreWorker) (m : StateManifest) (b : bytes)
    (documents : gmap bytes VerifiedDocument) : Prop := {
  acc_blob : t_meta (w_tables w) !! META_MANIFEST = Some (Value.Blob b);
  acc_fits : Z.of_nat (length b) ≤ MAX_MANIFEST_BYTES;
  acc_manifest : serde_from_slice b = Ok m;
  acc_signed : manifest_verify m (vm_device_vault_id (w_device w))
                 (vm_device_key_id (w_device w)) (w_verifying_key w) = Ok tt;
  acc_head : pure current_commit_head w = Ok (Some (sm_manifest_id m));
  acc_count : Z.of_nat (size documents) = sm_document_count m;
  acc_inventory : inventory_digest (inventory_of documents) = sm_inventory_digest m;
  acc_documents id d : documents !! id = Some d → document_sound (w_device w) (w_tables w) id d;
  acc_heads key : is_Some (t_heads (w_tables w) !! key) →
    ∃ id, key = document_key id ∧ is_Some (documents !! id);
  acc_snapshots key : is_Some (t_snapshots (w_tables w) !! key) →
    ∃ id d, documents !! id = Some d
      ∧ key = (document_key id, Value.Integer (row_generation (vd_row d)));
  acc_rows : inventory_matches (w_tables w) documents
}.

Definition accepted_state (m : StateManifest) (b : bytes) (documents : gmap bytes VerifiedDocument)
    : VerifiedStoreState := {|
  vs_head := Some (sm_manifest_id m); vs_documents := documents;
  vs_manifest_digest := Some (digest b) |}.

Lemma read_current_heads_reads m : reads (read_current_heads m).
Proof. unfold read_current_heads. eauto 8 with reads. Qed.
Lemma verify_current_payloads_reads d : reads (verify_current_payloads d).
Proof. unfold verify_current_payloads. eauto 8 with reads. Qed.
#[local] Hint Resolve read_current_heads_reads verify_current_payloads_reads : reads.

Lemma verify_current_state_reads : reads verify_current_state.
Proof. apply transaction_reads. solve_reads. Qed.

Lemma read_current_heads_pure m w :
  pure (read_current_heads m) w =
    documents ← try_fold (read_head (w_device w) m) ∅ (rows_by_key (t_heads (w_tables w)));
    _ ← fail_if (negb (Z.of_nat (size documents) =? sm_document_count m)
                 || negb (bool_decide
                      (inventory_digest (inventory_of documents) = sm_inventory_digest m)))
          VaultError.Signature;
    Ok documents.
Proof.
  unfold read_current_heads. rewrite reads_bind_pure, pure_query by solve_reads. cbn [mbind result_bind].
  rewrite reads_bind_pure by solve_reads. change (pure (reading _) w) with (Ok (w_device w) : VaultResult _).
  cbn [mbind result_bind]. rewrite reads_bind_pure, pure_for_rows by solve_reads.
  apply result_bind_ext. intros documents. by rewrite reads_bind_pure by solve_reads.
Qed.

Lemma verify_current_payloads_pure documents w :
  pure (verify_current_payloads documents) w =
    read ← try_fold read_payload (documents, ∅) (snapshot_rows (w_tables w));
    _ ← fail_if (negb (Nat.eqb (size read.2) (size read.1)))
          (VaultError.InvalidData "current snapshot is missing");
    Ok read.1.
Proof.
  unfold verify_current_payloads. rewrite reads_bind_pure, pure_query by solve_reads.
  cbn [mbind result_bind]. rewrite reads_bind_pure, pure_for_rows by solve_reads.
  apply result_bind_ext. intros read. by rewrite reads_bind_pure by solve_reads.
Qed.

Lemma verify_current_state_pure w :
  pure verify_current_state w =
    manifest ← pure read_manifest w;
    _ ← manifest_verify manifest.1 (vm_device_vault_id (w_device w))
          (vm_device_key_id (w_device w)) (w_verifying_key w);
    head ← pure current_commit_head w;
    _ ← fail_if (negb (bool_decide (head = Some (sm_manifest_id manifest.1)))) VaultError.Signature;
    heads ← pure (read_current_heads manifest.1) w;
    documents ← pure (verify_current_payloads heads) w;
    _ ← pure (verify_inventory (accepted_state manifest.1 manifest.2 documents)) w;
    Ok (accepted_state manifest.1 manifest.2 documents).
Proof.
  unfold verify_current_state. rewrite pure_transaction by solve_reads.
  repeat (eapply pure_step; [solve [eauto with reads]|solve_reads|reflexivity|intros ? _]). done.
Qed.

Lemma snapshot_rows_elem t row : row ∈ snapshot_rows t ↔ t_snapshots t !! row.1 = Some row.2.
Proof.
  destruct row as [k v]. unfold snapshot_rows. by rewrite order_by_perm, elem_of_map_to_list.
Qed.

(** The documents as the heads alone describe them. *)
Definition unsized (d : VerifiedDocument) : VerifiedDocument := {|
  vd_row := vd_row d; vd_snapshot_digest := vd_snapshot_digest d; vd_snapshot_bytes := 0 |}.

Lemma payloads_all_seen rows heads documents seen :
  payloads_read rows heads documents seen → size seen = size documents →
  ∀ id, is_Some (documents !! id) → id ∈ seen.
Proof.
  intros (Hout & Hin & _) Hsize id Hid.
  assert (seen ⊆ dom documents) as Hsub.
  { intros x Hx. apply elem_of_dom. apply Hin in Hx as (? & ? & ? & _ & _ & _ & ->). by eexists. }
  destruct (decide (id ∈ seen)) as [|Hn]; [done|]. exfalso.
  assert (size seen < size (dom documents))%nat.
  { apply subset_size. split; [done|]. intros Hs. apply Hn, Hs, elem_of_dom, Hid. }
  rewrite size_dom in *. lia.
Qed.

Lemma current_rows_sound device t heads documents seen :
  heads_read device (rows_by_key (t_heads t)) heads →
  payloads_read (snapshot_rows t) heads documents seen → size seen = size documents →
  (∀ id d, documents !! id = Some d → document_sound device t id d)
  ∧ (∀ key, is_Some (t_heads t !! key) → ∃ id, key = document_key id ∧ is_Some (documents !! id))
  ∧ (∀ key, is_Some (t_snapshots t !! key) → ∃ id d, documents !! id = Some d
       ∧ key = (document_key id, Value.Integer (row_generation (vd_row d))))
  ∧ heads = unsized <$> documents.
Proof.
  intros [Hhin Hhout] Hp Hsize. pose proof (payloads_all_seen _ _ _ _ Hp Hsize) as Hseen.
  destruct Hp as (Hout & Hin & Hrows).
  assert (∀ id d, documents !! id = Some d → ∃ hd row envelope, heads !! id = Some hd
            ∧ row ∈ snapshot_rows t ∧ payload_of id hd row envelope ∧ d = resized hd envelope) as Hdoc.
  { intros id d Hd. destruct (Hin id) as (hd & row & e & Hhd & Hr & Hpl & Hd'); [apply Hseen; by eexists|].
    rewrite Hd in Hd'. injection Hd' as ->. by eexists _, _, _. }
  split_and!.
  - intros id d Hd. apply Hdoc in Hd as (hd & row & e & Hhd & Hr%snapshot_rows_elem & Hpl & ->).
    destruct Hpl as (-> & Hl & Hg & Hdig). apply Hhout in Hhd as (c & head & Hc%rows_by_key_elem & Hh & ->).
    by exists c, head, e.
  - intros key [c Hc%rows_by_key_elem]. apply Hhin in Hc as (id & head & (-> & _) & Hhd).
    exists id. split; [done|]. destruct (decide (id ∈ seen)) as [Hs|Hn].
    + apply Hin in Hs as (? & ? & ? & _ & _ & _ & ->). by eexists.
    + rewrite Hout by done. by eexists.
  - intros key [v Hv]. apply (snapshot_rows_elem t (key, v)) in Hv.
    apply Hrows in Hv as (id & hd & e & Hs & Hhd & (Heq & _)). injection Heq as -> ->.
    apply Hin in Hs as (hd' & ? & e' & Hhd' & _ & _ & Hd). rewrite Hhd in Hhd'. injection Hhd' as <-.
    by exists id, (resized hd e').
  - apply map_eq. intros id. rewrite lookup_fmap. destruct (documents !! id) as [d|] eqn:Hd; cbn.
    + apply Hdoc in Hd as (hd & row & e & Hhd & _ & _ & ->). rewrite Hhd. f_equal.
      apply Hhout in Hhd as (? & ? & _ & _ & ->). done.
    + rewrite <- Hout; [done|]. intros (? & ? & ? & _ & _ & _ & ?)%Hin. congruence.
Qed.

Lemma accepted_sound w v :
  pure verify_current_state w = Ok v →
  ∃ m b documents, accepted w m b documents ∧ v = accepted_state m b documents.
Proof.
  rewrite verify_current_state_pure. intros Hv.
  apply bind_Ok in Hv as ([m b] & Hm & Hv). apply then_Ok in Hv as [Hsig Hv].
  apply bind_Ok in Hv as (h & Hh & Hv). apply then_Ok in Hv as [Hc Hv].
  apply fail_if_Ok, negb_false_iff, bool_decide_eq_true in Hc as ->.
  apply bind_Ok in Hv as (heads & Hheads & Hv). apply bind_Ok in Hv as (documents & Hdocs & Hv).
  apply bind_Ok in Hv as ([] & Hinv & [= <-]). cbn [fst snd] in *.
  rewrite read_manifest_pure in Hm. inv_ok. apply opt_try_Ok in Ha. cbn in *.
  rewrite read_current_heads_pure in Hheads. apply bind_Ok in Hheads as (hs & Hf & Hheads).
  apply then_Ok in Hheads as [Hc [= ->]]. apply fail_if_Ok in Hc.
  rewrite verify_current_payloads_pure in Hdocs. apply bind_Ok in Hdocs as ([docs seen] & Hp & Hdocs).
  apply then_Ok in Hdocs as [Hsz [= ->]]. apply fail_if_Ok in Hsz. cbn [fst snd] in Hsz. bool_prop.
  apply heads_fold_sound in Hf. apply payloads_fold_sound in Hp.
  apply verify_inventory_Ok in Hinv as [_ Hinv].
  destruct (current_rows_sound _ _ _ _ _ Hf Hp Hsz) as (Hd & Hhd & Hsn & ->).
  eexists _, _, _. split; [|reflexivity]. destruct Hc as [Hcnt Hdig].
  rewrite inventory_of_fmap in Hdig by done. rewrite map_size_fmap in Hcnt.
  split; try done. destruct Ha as [[_ ->]|(v & b' & Hb & Hr & ->)]; [discriminate|].
  injection Ha0 as ->. apply row_blob_Ok in Hr as ->. done.
Qed.

Lemma document_sound_unique device t id d d' :
  document_sound device t id d → document_sound device t id d' → d = d'.
Proof.
  intros (c & head & e & Hc & Hh & He & _ & _ & ->) (c' & head' & e' & Hc' & Hh' & He' & _ & _ & ->).
  rewrite Hc in Hc'. injection Hc' as <-. destruct (head_of_unique _ _ _ _ _ _ _ Hh Hh') as [_ <-].
  rewrite He in He'. by injection He' as <-.
Qed.

(** Tables whose keys come from a map of documents are not larger. *)
Lemma keys_bounded {K A B} `{Countable K} (m : gmap K A) (documents : gmap bytes B) (f : bytes * B → K) :
  (∀ k, is_Some (m !! k) → ∃ id d, documents !! id = Some d ∧ k = f (id, d)) →
  (size m ≤ size documents)%nat.
Proof.
  intros Hk. rewrite <- (length_map_to_list m), <- (length_map_to_list documents).
  rewrite <- (length_fmap fst (map_to_list m)), <- (length_fmap f (map_to_list documents)).
  apply submseteq_length, NoDup_submseteq; [apply NoDup_fst_map_to_list|].
  intros k ([k' a] & -> & Ha%elem_of_map_to_list)%list_elem_of_fmap.
  destruct (Hk k') as (id & d & Hd & ->); [by eexists|].
  apply list_elem_of_fmap. exists (id, d). split; [done|]. by apply elem_of_map_to_list.
Qed.

Lemma keys_cover {K A B} `{Countable K} (m : gmap K A) (documents : gmap bytes B) (f : bytes * B → K) :
  (∀ id d, documents !! id = Some d → is_Some (m !! f (id, d))) →
  (∀ id d id' d', documents !! id = Some d → documents !! id' = Some d' →
     f (id, d) = f (id', d') → id = id') →
  (size documents ≤ size m)%nat.
Proof.
  intros Hk Hinj. rewrite <- (length_map_to_list m), <- (length_map_to_list documents).
  rewrite <- (length_fmap fst (map_to_list m)), <- (length_fmap f (map_to_list documents)).
  apply submseteq_length, NoDup_submseteq.
  - apply NoDup_fmap_2_strong; [|apply NoDup_map_to_list].
    intros [id d] [id' d'] Hx%elem_of_map_to_list Hy%elem_of_map_to_list Heq.
    pose proof (Hinj _ _ _ _ Hx Hy Heq) as ->. congruence.
  - intros k ([id d] & -> & Hd%elem_of_map_to_list)%list_elem_of_fmap.
    destruct (Hk _ _ Hd) as [a Ha]. apply list_elem_of_fmap. exists (f (id, d), a).
    split; [done|]. by apply elem_of_map_to_list.
Qed.

Lemma accepted_heads w m b documents :
  accepted w m b documents →
  ∃ heads, try_fold (read_head (w_device w) m) ∅ (rows_by_key (t_heads (w_tables w))) = Ok heads
    ∧ heads_read (w_device w) (rows_by_key (t_heads (w_tables w))) heads
    ∧ heads = unsized <$> documents.
Proof.
  intros Hacc.
  assert (∀ key c, t_heads (w_tables w) !! key = Some c → ∃ id d head,
    documents !! id = Some d ∧ head_of (w_device w) key c id head
    ∧ unsized d = verified_document_new head 0) as Hrow.
  { intros key c Hc. destruct (acc_heads _ _ _ _ Hacc key) as (id & -> & d & Hd); [by eexists|].
    pose proof (acc_documents _ _ _ _ Hacc _ _ Hd) as (c' & head & e & Hc' & Hh & _ & _ & _ & ->).
    rewrite Hc in Hc'. injection Hc' as <-. by exists id, (verified_document_new head (Z.of_nat (length e))), head. }
  destruct (heads_fold_complete (w_device w) m (rows_by_key (t_heads (w_tables w))) ∅) as [heads Hf].
  - apply rows_by_key_NoDup.
  - intros key c Hc%rows_by_key_elem. apply Hrow in Hc as (id & _ & head & _ & Hh & _). by exists id, head.
  - intros; apply lookup_empty.
  - rewrite map_size_empty, rows_by_key_length, <- (acc_count _ _ _ _ Hacc).
    apply inj_le, (keys_bounded _ _ (λ p, document_key p.1)).
    intros k Hk. destruct (acc_heads _ _ _ _ Hacc k Hk) as (id & -> & d & Hd). by exists id, d.
  - exists heads. pose proof (heads_fold_sound _ _ _ _ Hf) as Hread. split_and!; [done|done|].
    destruct Hread as [Hin Hout]. apply map_eq. intros id. apply option_eq. intros v.
    rewrite lookup_fmap, fmap_Some. split.
    + intros (c & head & Hc%rows_by_key_elem & Hh & ->)%Hout.
      apply Hrow in Hc as (id' & d & head' & Hd & Hh' & Hu).
      destruct (head_of_unique _ _ _ _ _ _ _ Hh Hh') as [<- <-]. by exists d.
    + intros (d & Hd & ->).
      pose proof (acc_documents _ _ _ _ Hacc _ _ Hd) as (c & head & e & Hc & Hh & _ & _ & _ & ->).
      apply rows_by_key_elem, Hin in Hc as (id' & head' & Hh' & Hl).
      by destruct (head_of_unique _ _ _ _ _ _ _ Hh Hh') as [<- <-].
Qed.

Lemma accepted_payloads w m b documents :
  accepted w m b documents →
  ∃ seen, try_fold read_payload (unsized <$> documents, ∅) (snapshot_rows (w_tables w))
          = Ok (documents, seen) ∧ size seen = size documents.
Proof.
  intros Hacc. destruct (accepted_heads _ _ _ _ Hacc) as (heads & _ & Hread & Hheads).
  assert (∀ id d, documents !! id = Some d → ∃ envelope,
    payload_of id (unsized d) ((document_key id, Value.Integer (row_generation (vd_row d))),
      Value.Blob envelope) envelope
    ∧ t_snapshots (w_tables w) !! (document_key id, Value.Integer (row_generation (vd_row d)))
      = Some (Value.Blob envelope)) as Hsnap.
  { intros id d (c & head & e & _ & (_ & Hl & _) & He & Hg & Hdig & ->)%(acc_documents _ _ _ _ Hacc).
    by exists e. }
  destruct (payloads_fold_complete (snapshot_rows (w_tables w)) (unsized <$> documents) ∅)
    as (docs & seen & Hf & Hseen & Hsize).
  - unfold snapshot_rows. rewrite order_by_perm. apply NoDup_fst_map_to_list.
  - intros [key v] Hr%snapshot_rows_elem. cbn in Hr.
    destruct (acc_snapshots _ _ _ _ Hacc key) as (id & d & Hd & ->); [by eexists|].
    destruct (Hsnap _ _ Hd) as (e & Hp & Hs). rewrite Hr in Hs. injection Hs as ->.
    exists id, (unsized d), e. rewrite lookup_fmap, Hd. split_and!; [done|done|set_solver].
  - assert (length (snapshot_rows (w_tables w)) = size (t_snapshots (w_tables w))) as Hlen.
    { unfold snapshot_rows. by rewrite order_by_perm, length_map_to_list. }
    assert (size (t_snapshots (w_tables w)) = size documents) as Heq.
    { apply Nat.le_antisymm.
      - apply (keys_bounded _ _ (λ p, (document_key p.1, Value.Integer (row_generation (vd_row p.2))))).
        apply (acc_snapshots _ _ _ _ Hacc).
      - apply (keys_cover _ _ (λ p, (document_key p.1, Value.Integer (row_generation (vd_row p.2))))).
        + intros id d (e & _ & Hs)%Hsnap. by eexists.
        + by intros id d id' d' _ _ [= ->]. }
    rewrite size_empty, Hlen, Heq in Hseen. cbn in Hseen. rewrite map_size_fmap in Hsize.
    pose proof (payloads_fold_sound _ _ _ _ Hf) as Hp. rewrite Hheads in Hread.
    destruct (current_rows_sound _ _ _ _ _ Hread Hp) as (Hd & _ & _ & Hun); [congruence|].
    exists seen. split; [|done]. rewrite Hf. do 2 f_equal.
    apply map_eq. intros id. apply (f_equal (.!! id)) in Hun. rewrite !lookup_fmap in Hun.
    destruct (documents !! id) as [d|] eqn:E1, (docs !! id) as [d'|] eqn:E2; try discriminate; [|done].
    f_equal. eapply document_sound_unique; [by apply Hd|by apply (acc_documents _ _ _ _ Hacc)].
Qed.

(** Startup accepts exactly such states. *)
Lemma verify_current_state_Ok w v :
  pure verify_current_state w = Ok v ↔
  ∃ m b documents, accepted w m b documents ∧ v = accepted_state m b documents.
Proof.
  split; [apply accepted_sound|]. intros (m & b & documents & Hacc & ->).
  rewrite verify_current_state_pure, read_manifest_pure, (acc_blob _ _ _ _ Hacc).
  cbn [opt_try row_blob ok_or mbind result_bind].
  rewrite (proj2 (Z.ltb_ge _ _)) by apply (acc_fits _ _ _ _ Hacc).
  cbn [fail_if mbind result_bind]. rewrite (acc_manifest _ _ _ _ Hacc).
  cbn [map_err mbind result_bind fst snd]. rewrite (acc_signed _ _ _ _ Hacc).
  cbn [mbind result_bind]. rewrite (acc_head _ _ _ _ Hacc). cbn [mbind result_bind].
  rewrite bool_decide_eq_true_2 by done. cbn [negb fail_if mbind result_bind].
  rewrite read_current_heads_pure.
  destruct (accepted_heads _ _ _ _ Hacc) as (heads & -> & _ & ->). cbn [mbind result_bind].
  rewrite map_size_fmap, inventory_of_fmap by done.
  rewrite (acc_count _ _ _ _ Hacc), (acc_inventory _ _ _ _ Hacc), Z.eqb_refl.
  rewrite bool_decide_eq_true_2 by done. cbn [negb orb fail_if mbind result_bind].
  rewrite verify_current_payloads_pure.
  destruct (accepted_payloads _ _ _ _ Hacc) as (seen & -> & Hs). cbn [mbind result_bind fst snd].
  rewrite Hs, Nat.eqb_refl. cbn [negb fail_if mbind result_bind].
  rewrite (proj2 (verify_inventory_Ok _ _)); [done|].
  split; [apply (acc_head _ _ _ _ Hacc)|apply (acc_rows _ _ _ _ Hacc)].
Qed.
End StartupProofs.

#[export] Hint Resolve for_rows_lift_reads transaction_reads read_current_heads_reads
  verify_current_payloads_reads verify_current_state_reads : reads.
