(* ===== verification/StartupGuarantees.v ===== *)
(** What startup and loading guarantee about a database that anyone may have rewritten:
    it is accepted only under the signed manifest, which determines every document up to
    collisions of the digest. *)
From Stdlib Require Import ZArith Lia Bool.
From stdpp Require Import base gmap strings list.
From S2P Require Import Prelude Core Address Text Wire History StoreSpec Signature Manifest KeyringIndex Envelope Automerge Document Database Worker WorkerReads WorkerCommit Startup StartupProofs.

(** Decoding gives every field the width of its Rust type. *)
Class TypedRecords `{Serde CurrentHead, Serde StateManifest} : Prop := {
  decoded_head_wf b (h : CurrentHead) : serde_from_slice b = Ok h → head_wf h;
  decoded_manifest_wf b (m : StateManifest) : serde_from_slice b = Ok m → manifest_wf m
}.

Section StartupGuarantees.
Context `{Sha256, Base64, MlDsa65, Aes256Gcm, HmacSha256, Signers, Random}.
Context `{Automerge, PersonalItems}.
Context `{Serde SecretRecord, Serde RecordDeadline, Serde ReplicaCatalog}.
Context `{Serde HistoryEntry, Serde HistoryLog, Serde WrappedKey, Serde EncryptedSnapshot}.
Context `{Serde CurrentHead, Serde StateManifest, Serde ProtectedCommit}.
Abbreviation WM := (SM StoreWorker).

(** The strings of a database that startup and loads hash. *)
Inductive hashed (t : Tables) : bytes → Prop :=
| hashed_key key c b :
    t_documents t !! key = Some c → dc_wrapped_dek c = Value.Blob b → hashed t b
| hashed_envelope key b : t_snapshots t !! key = Some (Value.Blob b) → hashed t b
| hashed_head key c b h :
    t_heads t !! key = Some c → hc_record c = Value.Blob b → serde_from_slice b = Ok h →
    hashed t (head_preimage h)
| hashed_manifest b m :
    t_meta t !! META_MANIFEST = Some (Value.Blob b) → serde_from_slice b = Ok m →
    hashed t (transcript m).

(** A string of one database and a string of the other with the same digest. *)
Definition databases_collide (t t' : Tables) : Prop :=
  ∃ b b', hashed t b ∧ hashed t' b' ∧ sha256_collides b b'.

Lemma hashed_eq_or_collide t t' b b' :
  hashed t b → hashed t' b' → digest b = digest b' → b = b' ∨ databases_collide t t'.
Proof.
  intros Hb Hb' Heq. apply sha256_eq_or_collides in Heq as [->|Hc]; [by left|right].
  by exists b, b'.
Qed.

(** ** Loads *)

Lemma opt_row_blob o b : opt_try row_blob o = Ok (Some b) → o = Some (Value.Blob b).
Proof.
  intros [[_ ?]|(v & b' & -> & Hr & [= ->])]%opt_try_Ok; [done|]. by apply row_blob_Ok in Hr as ->.
Qed.

Lemma read_row_digest key c row b :
  read_document_row key c = Ok row → dc_wrapped_dek c = Value.Blob b →
  row_wrapped_key_digest row = digest b.
Proof. unfold read_document_row. intros Hr Hb. inv_ok. inv_columns. subst. cbn. congruence. Qed.

(** What a load that found the document checked. *)
Lemma checked_head_facts row snapshot head trusted device secrets id k h :
  checked_head row snapshot head trusted device secrets id k = Ok (Some h) →
  ∃ c d envelope wrapped, row = Some c ∧ trusted = Some d
    ∧ dc_wrapped_dek c = Value.Blob (dh_wrapped_dek h)
    ∧ digest (dh_wrapped_dek h) = row_wrapped_key_digest (vd_row d)
    ∧ serde_from_slice (dh_wrapped_dek h) = Ok wrapped
    ∧ unwrap_document_key secrets (vm_installation_id device) (row_vault_id (vd_row d)) id
        (row_scope (vd_row d)) (row_key_epoch (vd_row d)) wrapped = Ok (dh_data_key h)
    ∧ snapshot (row_generation (vd_row d)) = Some (Value.Blob envelope)
    ∧ serde_from_slice envelope = Ok (dh_envelope h)
    ∧ vd_snapshot_digest d = digest envelope
    ∧ dh_current_commit_id h = row_current_commit_id (vd_row d)
    ∧ dh_generation h = row_generation (vd_row d) ∧ dh_key_epoch h = row_key_epoch (vd_row d).
Proof.
  unfold checked_head. destruct row as [c|]; [|by destruct (bool_decide _)]. intros Hc.
  apply bind_Ok in Hc as (actual & Hrow & Hc). apply bind_Ok in Hc as (wb & Hwb & Hc).
  destruct trusted as [d|]; [|discriminate].
  inv_ok. inv_columns. bool_prop. destruct_and!. subst. cbn [dh_wrapped_dek dh_data_key dh_envelope
    dh_current_commit_id dh_generation dh_key_epoch].
  match goal with Hx : Some d = Some _ |- _ => injection Hx as <- end.
  pose proof (read_row_digest _ _ _ _ Hrow Hwb). apply opt_row_blob in Ha4.
  by eexists _, _, _, _.
Qed.

(** The head a database holds is determined by the verified state. *)
Lemma load_head_determined w w' id k h h' :
  w_device w' = w_device w → w_secrets w' = w_secrets w →
  vs_documents (w_verified w') = vs_documents (w_verified w) →
  pure (load_head id k) w = Ok h → pure (load_head id k) w' = Ok h' →
  h = h' ∨ databases_collide (w_tables w) (w_tables w').
Proof.
  intros Hd Hs Hv. rewrite !load_head_pure, Hd, Hs, Hv. intros Hl Hl'.
  apply bind_Ok in Hl as ([] & _ & Hl), Hl' as ([] & _ & Hl').
  destruct (vs_documents (w_verified w) !! id) as [d|] eqn:Ed.
  2:{ left. destruct h as [h|]; [by apply checked_head_facts in Hl as (? & ? & ? & ? & _ & ? & _)|].
      destruct h' as [h'|]; [by apply checked_head_facts in Hl' as (? & ? & ? & ? & _ & ? & _)|]. done. }
  assert (∀ row snapshot head, checked_head row snapshot head (Some d) (w_device w) (w_secrets w) id k
    ≠ Ok None) as Hnn.
  { intros row sn hd. unfold checked_head. destruct row; [|done]. intros Hx. by inv_ok. }
  destruct h as [h|]; [|by apply Hnn in Hl]. destruct h' as [h'|]; [|by apply Hnn in Hl'].
  apply checked_head_facts in Hl as (c & ? & eb & wk & Hc & [= <-] & Hwd & Hdig & Hser & Hun & Hsn & He & Hed & ? & ? & ?).
  apply checked_head_facts in Hl' as (c' & ? & eb' & wk' & Hc' & [= <-] & Hwd' & Hdig' & Hser' & Hun' & Hsn' & He' & Hed' & ? & ? & ?).
  destruct (hashed_eq_or_collide (w_tables w) (w_tables w') (dh_wrapped_dek h) (dh_wrapped_dek h'))
    as [Hw|]; [by eapply hashed_key|by eapply hashed_key|congruence| |by right].
  destruct (hashed_eq_or_collide (w_tables w) (w_tables w') eb eb') as [<-|];
    [by eapply hashed_envelope|by eapply hashed_envelope|congruence| |by right].
  left. rewrite Hw in Hser. rewrite Hser in Hser'. injection Hser' as <-. rewrite Hun in Hun'.
  injection Hun' as Hk. rewrite He in He'. injection He' as Hee.
  destruct h, h'; cbn in *. congruence.
Qed.

(** C6: loading a document from a database that was rewritten behind the store's back
    either fails or returns the very document that was verified: two databases that both
    load under the same verified state load the same document, with the same key and
    envelope, unless they exhibit a collision of SHA-256 between strings they hold. *)
Theorem rewritten_document_refused w w' id k e r r' s s' :
  w_device w' = w_device w → w_secrets w' = w_secrets w →
  vs_documents (w_verified w') = vs_documents (w_verified w) →
  load_document id k e w = (Ok r, s) → load_document id k e w' = (Ok r', s') →
  r = r' ∨ databases_collide (w_tables w) (w_tables w').
Proof.
  intros Hd Hs Hv Hl Hl'. apply reads_Ok in Hl as [_ Hl]; [|eauto with reads].
  apply reads_Ok in Hl' as [_ Hl']; [|eauto with reads].
  change (loaded_at w id k e = Ok r) in Hl. change (loaded_at w' id k e = Ok r') in Hl'.
  rewrite load_document_pure in Hl, Hl'. apply bind_Ok in Hl as (h & Hh & Hl), Hl' as (h' & Hh' & Hl').
  destruct (load_head_determined w w' id k h h') as [<-|]; [done..|left|by right].
  rewrite Hd in Hl'. congruence.
Qed.

(** ** Startup *)

Context `{!Sha256Ok, !TypedRecords}.

Lemma verified_state w v s :
  verify_current_state w = (Ok v, s) →
  ∃ m b, accepted w m b (vs_documents v) ∧ v = accepted_state m b (vs_documents v).
Proof.
  intros [_ Hv]%reads_Ok; [|apply verify_current_state_reads].
  apply accepted_sound in Hv as (m & b & documents & Hacc & ->). by exists m, b.
Qed.

Lemma head_verify_Ok h id : head_verify h id = Ok tt → ch_head_id h = id ∧ calculate_id h = id.
Proof. unfold head_verify. intros Hv. inv_ok. by bool_prop. Qed.

(** Two accepted documents under the same head are the same document. *)
Lemma document_determined w w' id d d' :
  document_sound (w_device w) (w_tables w) id d →
  document_sound (w_device w') (w_tables w') id d' →
  row_current_commit_id (vd_row d) = row_current_commit_id (vd_row d') →
  d = d' ∨ databases_collide (w_tables w) (w_tables w').
Proof.
  intros (c & head & e & Hc & Hh & He & _ & Hdig & ->) (c' & head' & e' & Hc' & Hh' & He' & _ & Hdig' & ->).
  cbn. intros Hid.
  destruct Hh as (_ & _ & hid & rb & _ & Hrb & _ & Hser & [Hv1 Hv2]%head_verify_Ok & _).
  destruct Hh' as (_ & _ & hid' & rb' & _ & Hrb' & _ & Hser' & [Hv1' Hv2']%head_verify_Ok & _).
  destruct (hashed_eq_or_collide (w_tables w) (w_tables w') (head_preimage head) (head_preimage head'))
    as [Hp|]; [by eapply hashed_head|by eapply hashed_head| | |by right].
  { unfold calculate_id in Hv2, Hv2'. unfold digest. congruence. }
  apply head_preimage_inj in Hp as <-; [|by eapply decoded_head_wf|by eapply decoded_head_wf|done].
  destruct (hashed_eq_or_collide (w_tables w) (w_tables w') e e') as [<-|];
    [by eapply hashed_envelope|by eapply hashed_envelope|congruence|by left|by right].
Qed.

(** The identifiers of accepted documents and heads are digests. *)
Lemma accepted_inventory_wf w m b documents :
  accepted w m b documents → inventory_wf (inventory_of documents).
Proof.
  intros Hacc. apply Forall_forall. intros [id h] (d & Hd & <-)%inventory_of_elem.
  apply (acc_documents _ _ _ _ Hacc) in Hd as (c & head & e & _ & (_ & Hl & hid & rb & _ & _ & Hl' & _ & [<- _]%head_verify_Ok & _) & _ & _ & _ & ->).
  done.
Qed.

Lemma manifest_determines_inventory w w' m m' b b' docs docs' :
  accepted w m b docs → accepted w' m' b' docs' → sm_manifest_id m = sm_manifest_id m' →
  inventory_of docs = inventory_of docs'
  ∨ sha256_collides (inventory_preimage (inventory_of docs)) (inventory_preimage (inventory_of docs'))
  ∨ databases_collide (w_tables w) (w_tables w').
Proof.
  intros Hacc Hacc' Hid.
  destruct (manifest_verify_Ok _ _ _ _ (acc_signed _ _ _ _ Hacc)) as (_ & _ & _ & Ht & _).
  destruct (manifest_verify_Ok _ _ _ _ (acc_signed _ _ _ _ Hacc')) as (_ & _ & _ & Ht' & _).
  destruct (hashed_eq_or_collide (w_tables w) (w_tables w') (transcript m) (transcript m'))
    as [Heq|]; [| |congruence| |by right; right].
  - eapply hashed_manifest; [apply (acc_blob _ _ _ _ Hacc)|apply (acc_manifest _ _ _ _ Hacc)].
  - eapply hashed_manifest; [apply (acc_blob _ _ _ _ Hacc')|apply (acc_manifest _ _ _ _ Hacc')].
  - apply transcript_inj in Heq as (_ & _ & _ & _ & Hinv & _).
    2:{ eapply decoded_manifest_wf, (acc_manifest _ _ _ _ Hacc). }
    2:{ eapply decoded_manifest_wf, (acc_manifest _ _ _ _ Hacc'). }
    rewrite <- (acc_inventory _ _ _ _ Hacc), <- (acc_inventory _ _ _ _ Hacc') in Hinv.
    unfold inventory_digest in Hinv. apply sha256_eq_or_collides in Hinv as [Hp|?]; [left|by right; left].
    apply inventory_preimage_inj in Hp; [done|by eapply accepted_inventory_wf..].
Qed.

(** Two sets of tables accepted under the same manifest hold the same documents. *)
Lemma accepted_determined w w' m m' b b' docs docs' :
  accepted w m b docs → accepted w' m' b' docs' → sm_manifest_id m = sm_manifest_id m' →
  docs = docs'
  ∨ sha256_collides (inventory_preimage (inventory_of docs)) (inventory_preimage (inventory_of docs'))
  ∨ databases_collide (w_tables w) (w_tables w').
Proof.
  intros Hacc Hacc' Hid.
  destruct (manifest_determines_inventory _ _ _ _ _ _ _ _ Hacc Hacc' Hid) as [Hinv|?]; [|by right].
  destruct (decide (map_Forall (λ id d, docs' !! id = Some d) docs)) as [Hall|Hnot]; [left|right; right].
  - apply map_eq. intros id. destruct (docs !! id) as [d|] eqn:Hd; [by rewrite (Hall _ _ Hd)|].
    destruct (docs' !! id) as [d'|] eqn:Hd'; [|done].
    assert ((id, row_current_commit_id (vd_row d')) ∈ inventory_of docs) as Hx
      by (rewrite Hinv; apply inventory_of_elem; by exists d').
    apply inventory_of_elem in Hx as (d & Hx & _). congruence.
  - apply map_not_Forall in Hnot as (id & d & Hd & Hne); [|apply _].
    assert ((id, row_current_commit_id (vd_row d)) ∈ inventory_of docs') as Hx
      by (rewrite <- Hinv; apply inventory_of_elem; by exists d).
    apply inventory_of_elem in Hx as (d' & Hd' & Hc).
    destruct (document_determined w w' id d d') as [<-|?]; [| |done|congruence|done].
    + by apply (acc_documents _ _ _ _ Hacc).
    + by apply (acc_documents _ _ _ _ Hacc').
Qed.

(** C5: the manifest decides what is in the vault: two databases that startup accepts with
    the same manifest have the same documents, at the same generations and with the same
    keys and contents digested, or they exhibit a collision of SHA-256. *)
Theorem startup_binds_database w w' v v' s s' :
  verify_current_state w = (Ok v, s) → verify_current_state w' = (Ok v', s') →
  vs_head v = vs_head v' →
  vs_documents v = vs_documents v'
  ∨ sha256_collides (inventory_preimage (inventory_of (vs_documents v)))
      (inventory_preimage (inventory_of (vs_documents v')))
  ∨ databases_collide (w_tables w) (w_tables w').
Proof.
  intros (m & b & Hacc & Hv)%verified_state (m' & b' & Hacc' & Hv')%verified_state Hid.
  rewrite Hv, Hv' in Hid. injection Hid as Hid. by eapply accepted_determined.
Qed.

(** Startup accepts a database only under the device's signature: the verified state
    is that of a manifest with a valid signature of the device over its identifier, and
    its inventory and count are those of the documents. *)
Theorem startup_needs_device_signature w v s :
  verify_current_state w = (Ok v, s) →
  ∃ m, vs_head v = Some (sm_manifest_id m)
    ∧ prepared_verify (w_verifying_key w) (sm_signature_algorithm m)
        (SIGNATURE_DOMAIN ++ sm_manifest_id m) (sm_signature m) = Ok tt
    ∧ sm_manifest_id m = sha256 (transcript m)
    ∧ sm_vault_id m = vm_device_vault_id (w_device w)
    ∧ sm_device_key_id m = vm_device_key_id (w_device w)
    ∧ sm_inventory_digest m = inventory_digest (inventory_of (vs_documents v))
    ∧ sm_document_count m = Z.of_nat (size (vs_documents v))
    ∧ (∀ key c, t_documents (w_tables w) !! key = Some c → ∃ id d, key = document_key id
         ∧ vs_documents v !! id = Some d ∧ read_document_row (Ok id) c = Ok (vd_row d))
    ∧ size (t_documents (w_tables w)) = size (vs_documents v).
Proof.
  intros (m & b & Hacc & Hv)%verified_state. exists m.
  destruct (manifest_verify_Ok _ _ _ _ (acc_signed _ _ _ _ Hacc)) as (_ & ? & ? & Ht & Hs).
  assert (vs_head v = Some (sm_manifest_id m)) by (by rewrite Hv). clear Hv.
  pose proof (acc_rows _ _ _ _ Hacc) as [Hsize Hrows].
  split_and!; try done; [by rewrite (acc_inventory _ _ _ _ Hacc)|by rewrite (acc_count _ _ _ _ Hacc)|].
  intros key c Hc. apply Hrows in Hc as (id & d & ? & _ & ? & ?). by exists id, d.
Qed.

(** ** The walk along the chain *)

Lemma commit_rows_elem t n id row :
  row ∈ commit_rows t n id → is_Some (t_commits t !! row.1).
Proof.
  revert id. induction n as [|n IH]; intros id Hr; [by apply elem_of_nil in Hr|]. cbn in Hr.
  destruct id; try (by apply elem_of_nil in Hr);
    match type of Hr with context [t_commits t !! ?k] =>
      destruct (t_commits t !! k) as [c|] eqn:Hc; [|by apply elem_of_nil in Hr]
    end; (apply elem_of_cons in Hr as [->|Hr]; [by eexists|by eapply IH]).
Qed.

(** The commits of a batch are in the table. *)
Definition commit_known (t : Tables) (c : ProtectedCommit) : Prop :=
  is_Some (t_commits t !! Value.Blob (pc_commit_id c)).

Lemma verify_commit_batch_reads id : reads (verify_commit_batch id).
Proof. unfold verify_commit_batch. solve_reads. Qed.

Lemma verify_commit_batch_pure id w :
  pure (verify_commit_batch id) w =
    read ← try_fold (read_commit (w_device w) (w_verifying_key w)) (Some id, [])
             (commit_rows (w_tables w) VERIFY_BATCH_SIZE (Value.Blob id));
    _ ← fail_if (bool_decide (length read.2 = 0%nat))
          (VaultError.InvalidData "protected commit chain is incomplete");
    Ok read.2.
Proof.
  unfold verify_commit_batch. rewrite reads_bind_pure, pure_query by solve_reads.
  cbn [mbind result_bind].
  rewrite reads_bind_pure by solve_reads. change (pure (reading _) w) with (Ok (w_device w) : VaultResult _).
  cbn [mbind result_bind]. rewrite reads_bind_pure by solve_reads.
  change (pure (reading _) w) with (Ok (w_verifying_key w) : VaultResult _).
  cbn [mbind result_bind]. rewrite reads_bind_pure, pure_for_rows by solve_reads.
  apply result_bind_ext. intros read. by rewrite reads_bind_pure by solve_reads.
Qed.

Lemma read_commit_known device key t acc row acc' :
  read_commit device key acc row = Ok acc' → is_Some (t_commits t !! row.1) →
  Forall (commit_known t) acc.2 → Forall (commit_known t) acc'.2.
Proof.
  destruct acc as [e rs]. unfold read_commit. intros Hb Hrow HP. inv_ok. inv_columns. cbn [snd] in *.
  apply Forall_app. split; [done|]. apply Forall_singleton. unfold commit_known.
  match goal with Hc : commit_verify _ _ _ _ = Ok tt |- _ => apply commit_verify_Ok in Hc as (-> & _) end.
  by match goal with Hx : row.1 = _ |- _ => rewrite <- Hx end.
Qed.

Lemma verify_commit_batch_Ok id w records w' :
  verify_commit_batch id w = (Ok records, w') →
  same_data w w' ∧ records ≠ [] ∧ Forall (commit_known (w_tables w)) records.
Proof.
  intros [Hd Hp]%reads_Ok; [|apply verify_commit_batch_reads]. split; [done|].
  rewrite verify_commit_batch_pure in Hp. apply bind_Ok in Hp as (read & Hf & Hp).
  apply then_Ok in Hp as [Hne Hp]. apply fail_if_Ok, bool_decide_eq_false in Hne.
  injection Hp as <-. split; [by intros Hx; rewrite Hx in Hne|].
  assert (∀ row, row ∈ commit_rows (w_tables w) VERIFY_BATCH_SIZE (Value.Blob id) →
    is_Some (t_commits (w_tables w) !! row.1)) as Hall by (intros; by eapply commit_rows_elem).
  assert (Forall (commit_known (w_tables w)) (Some id, @nil ProtectedCommit).2) as Hacc by constructor.
  revert Hf Hacc Hall. generalize (Some id, @nil ProtectedCommit).
  generalize (commit_rows (w_tables w) VERIFY_BATCH_SIZE (Value.Blob id)). clear.
  intros rows. induction rows as [|row rows IH]; intros acc Hf Hacc Hall; cbn [try_fold] in Hf.
  - by injection Hf as <-.
  - apply bind_Ok in Hf as (acc' & Ha & Hf). eapply IH; [exact Hf| |].
    + eapply read_commit_known; [exact Ha| |done]. apply Hall. by left.
    + intros x Hx. apply Hall. by right.
Qed.

Lemma verify_batch_payloads_reads records : reads (verify_batch_payloads records).
Proof. unfold verify_batch_payloads. solve_reads. Qed.

Lemma read_batch_payload_length records acc row acc' :
  read_batch_payload records acc row = Ok acc' → length acc'.2 = length acc.2.
Proof.
  destruct acc as [e sizes]. unfold read_batch_payload. intros Hr. inv_ok. cbn.
  by rewrite length_insert.
Qed.

Lemma verify_batch_payloads_Ok records w sizes w' :
  verify_batch_payloads records w = (Ok sizes, w') →
  same_data w w' ∧ length sizes = length records.
Proof.
  intros [Hd Hp]%reads_Ok; [|apply verify_batch_payloads_reads]. split; [done|].
  unfold verify_batch_payloads in Hp. rewrite reads_bind_pure in Hp by solve_reads.
  apply bind_Ok in Hp as (expected & _ & Hp). rewrite reads_bind_pure, pure_query in Hp by solve_reads.
  cbn [mbind result_bind] in Hp. rewrite reads_bind_pure, pure_for_rows in Hp by solve_reads.
  apply bind_Ok in Hp as (read & Hf & Hp). rewrite reads_bind_pure in Hp by solve_reads.
  apply bind_Ok in Hp as ([] & _ & Hp). injection Hp as <-.
  rewrite <- (length_replicate (length records) 0).
  change (replicate (length records) 0) with (expected, replicate (length records) 0).2 at 1.
  revert Hf. generalize (expected, replicate (length records) 0).
  generalize (payload_rows expected (w_tables w)). clear.
  intros rows. induction rows as [|row rows IH]; intros acc Hf; cbn [try_fold] in Hf.
  - by injection Hf as <-.
  - apply bind_Ok in Hf as (acc' & Ha & Hf). rewrite (IH _ Hf). by eapply read_batch_payload_length.
Qed.

(** The commits visited so far are in the table, so there are no more of them. *)
Definition visited_known (t : Tables) (walk : ChainWalk) : Prop :=
  ∀ id, id ∈ cw_visited walk → is_Some (t_commits t !! Value.Blob id).

Lemma visited_bounded t walk :
  visited_known t walk → (size (cw_visited walk) ≤ size (t_commits t))%nat.
Proof.
  intros Hv. rewrite <- (size_dom (t_commits t)).
  unfold size, set_size. cbn. rewrite <- (length_fmap Value.Blob (elements (cw_visited walk))).
  apply submseteq_length, NoDup_submseteq.
  - apply NoDup_fmap_2; [by intros ? ? [=]|apply NoDup_elements].
  - intros v (id & -> & Hid%elem_of_elements)%list_elem_of_fmap.
    apply elem_of_elements, elem_of_dom. by apply Hv.
Qed.

Lemma absorb_batch_grows t records walk walk' :
  absorb_batch records walk = Ok walk' → Forall (λ p, commit_known t p.1) records →
  visited_known t walk →
  visited_known t walk' ∧ size (cw_visited walk') = (size (cw_visited walk) + length records)%nat.
Proof.
  revert walk. induction records as [|[c n] records IH]; intros walk Ha Hk Hv; cbn in Ha.
  { injection Ha as <-. cbn. split; [done|lia]. }
  apply then_Ok in Ha as [Hc Ha]. apply fail_if_Ok, orb_false_iff in Hc as [_ Hc].
  apply bool_decide_eq_false in Hc. apply Forall_cons_1 in Hk as [Hk Hks]. cbn in Hk.
  destruct (IH _ Ha Hks) as [Hv' Hs].
  - intros id. cbn. intros [Hx|Hx]%elem_of_union; [|by apply Hv].
    by apply elem_of_singleton in Hx as ->.
  - split; [done|]. rewrite Hs. cbn. rewrite size_union by set_solver. rewrite size_singleton. lia.
Qed.

Lemma walk_fuel n m walk w :
  visited_known (w_tables w) walk →
  (size (t_commits (w_tables w)) < n + size (cw_visited walk))%nat →
  (size (t_commits (w_tables w)) < m + size (cw_visited walk))%nat →
  walk_chain n walk w = walk_chain m walk w.
Proof.
  revert m walk w. induction n as [|n IH]; intros m walk w Hv Hn Hm;
    pose proof (visited_bounded _ _ Hv); [lia|]. destruct m as [|m]; [lia|].
  cbn [walk_chain]. destruct (cw_current walk) as [id|]; [|done]. unfold mbind, sm_bind.
  destruct (verify_commit_batch id w) as [[records|e] w1] eqn:Hb; [|done].
  apply verify_commit_batch_Ok in Hb as (Hd1 & Hne & Hk).
  destruct (verify_batch_payloads records w1) as [[sizes|e] w2] eqn:Hp; [|done].
  apply verify_batch_payloads_Ok in Hp as [Hd2 Hlen]. cbn [lift].
  destruct (absorb_batch (zip records sizes) walk) as [walk'|e] eqn:Ha; [|done].
  assert (w_tables w2 = w_tables w) as Ht
    by (destruct Hd1 as (? & _), Hd2 as (? & _); congruence).
  assert (length (zip records sizes) = length records) as Hz by (rewrite length_zip_with; lia).
  assert (Forall (λ p, commit_known (w_tables w) p.1) (zip records sizes)) as Hkz.
  { apply Forall_forall. intros [c z] Hin%elem_of_zip_l. rewrite Forall_forall in Hk. by apply Hk. }
  destruct (absorb_batch_grows _ _ _ _ Ha Hkz Hv) as [Hv' Hs].
  assert (length records ≠ 0)%nat by (by destruct records).
  apply IH; rewrite Ht; [done|lia|lia].
Qed.

(** The walk along the commit chain of the earlier schema ends: one more round than the
    table has commits is enough, and a longer walk gives the same answer, whatever the
    database holds, cycles included. *)
Theorem chain_walk_terminates head n w :
  (S (size (t_commits (w_tables w))) ≤ n)%nat →
  walk_chain n {| cw_current := head; cw_documents := ∅; cw_visited := ∅; cw_count := 0 |} w
  = walk_chain (S (size (t_commits (w_tables w))))
      {| cw_current := head; cw_documents := ∅; cw_visited := ∅; cw_count := 0 |} w.
Proof.
  intros Hn. apply walk_fuel; cbn [cw_visited]; rewrite ?size_empty; [|lia|lia].
  intros id Hx. cbn in Hx. by apply not_elem_of_empty in Hx.
Qed.
End StartupGuarantees.
