(* ===== verification/Durability.v ===== *)
(** What the worker commits survives a restart: after any sequence of requests, startup
    accepts the tables and finds the very state the worker held. *)
From Stdlib Require Import ZArith Lia Bool.
From stdpp Require Import base gmap strings list.
From S2P Require Import Prelude Core Address Text Wire History StoreSpec Signature Manifest KeyringIndex Envelope Automerge Document DocumentProofs DocumentAtomic Database Worker WorkerReads WorkerCommit WorkerViews WorkerStore Startup StartupProofs StartupGuarantees.

(** [HMAC-SHA256] gives 32 bytes. *)
Class HmacOk `{HmacSha256} : Prop := hmac_length key message : length (hmac_sha256 key message) = 32%nat.

(** One request to a store, whatever it answers. *)
Inductive store_step {S} `{VaultStore S} : S → S → Prop :=
| step_get k p a now r s s' : get_with_deadline k p a now s = (r, s') → store_step s s'
| step_get_many k p l now r s s' : get_many k p l now s = (r, s') → store_step s s'
| step_put k p a value evict_at prov now r s s' :
    put_at k p a value evict_at prov now s = (r, s') → store_step s s'
| step_mutate k p ops prov now r s s' : mutate k p ops prov now s = (r, s') → store_step s s'
| step_delete k p a prov now r s s' : delete_at k p a prov now s = (r, s') → store_step s s'
| step_clear k p prov now r s s' : clear_at k p prov now s = (r, s') → store_step s s'
| step_purge now r s s' : purge_expired_at now s = (r, s') → store_step s s'
| step_projects cursor limit now r s s' :
    list_projects cursor limit now s = (r, s') → store_step s s'
| step_project_addresses project cursor limit now r s s' :
    list_project_addresses project cursor limit now s = (r, s') → store_step s s'
| step_entries cursor limit now r s s' :
    list_vault_entries cursor limit now s = (r, s') → store_step s s'
| step_history k p a before limit r s s' :
    list_history k p a before limit s = (r, s') → store_step s s'
| step_revision r s s' : export_revision s = (r, s') → store_step s s'.

Section Durability.
Context `{Sha256, Base64, MlDsa65, Aes256Gcm, HmacSha256, Signers, Random}.
Context `{AutomergeOk, PersonalItems}.
Context `{SerdeOk SecretRecord, Serde RecordDeadline, Serde ReplicaCatalog} `{!RecordSerdeOk}.
Context `{Serde HistoryEntry, Serde HistoryLog, SerdeOk WrappedKey, SerdeOk EncryptedSnapshot}.
Context `{SerdeOk CurrentHead, SerdeOk StateManifest, Serde Index, AttributeJson}.
Context `{Serde ProtectedCommit}.
Context `{!DeadlineSerdeOk, !Sha256Ok, !Aes256GcmOk, !RandomOk, !HmacOk} (Hfit : manifests_fit).
Abbreviation WM := (SM StoreWorker).

(** The tables hold the state the worker works with, and its key signs for it. *)
Definition durable (w : StoreWorker) : Prop :=
  (∃ m b, accepted w m b (vs_documents (w_verified w))
     ∧ w_verified w = accepted_state m b (vs_documents (w_verified w)))
  ∧ ∀ signer, secrets_signer (w_secrets w) (vm_installation_id (w_device w))
                (vm_device_vault_id (w_device w)) = Ok signer →
      signs_for signer (w_verifying_key w).

Lemma accepted_ext w w' m b documents :
  w_tables w' = w_tables w → w_device w' = w_device w → w_verifying_key w' = w_verifying_key w →
  accepted w m b documents → accepted w' m b documents.
Proof.
  intros Ht Hd Hk [? ? ? ? Hh ? ? ? ? ? ?]. rewrite current_commit_head_pure in Hh.
  split; rewrite ?current_commit_head_pure, ?Ht, ?Hd, ?Hk; done.
Qed.

Lemma durable_ext w w' : same_data w w' → durable w → durable w'.
Proof.
  intros (Ht & Hd & Hs & Hv & Hk) [(m & b & Ha & Hm) Hsig]. split.
  - exists m, b. rewrite Hv. split; [by eapply accepted_ext|done].
  - intros signer. rewrite Hs, Hd, Hk. apply Hsig.
Qed.

(** ** A commit *)

Lemma inventory_same_keys t documents id :
  inventory_matches t documents →
  is_Some (t_documents t !! document_key id) ↔ is_Some (documents !! id).
Proof.
  intros [Hsize Hall]. split.
  - intros [c Hc]. apply Hall in Hc as (id' & d & [= <-] & _ & Hd & _). by eexists.
  - intros [d Hd]. destruct (t_documents t !! document_key id) eqn:Hn; [by eexists|exfalso].
    assert (size (t_documents t) ≤ size (delete id documents))%nat as Hle.
    { apply (keys_bounded _ _ (λ p, document_key p.1)). intros k [c Hc].
      pose proof Hc as Hc'. apply Hall in Hc as (id' & d' & -> & _ & Hd' & _). exists id', d'.
      rewrite lookup_delete_ne by congruence. done. }
    rewrite map_size_delete, Hd in Hle. cbn in Hle.
    assert (size documents ≠ 0)%nat; [|lia]. apply map_size_non_empty_iff. intros ->.
    by rewrite lookup_empty in Hd.
Qed.

Lemma inventory_insert t t' documents id c d :
  inventory_matches t documents → length id = 32%nat →
  t_documents t' = <[document_key id := c]> (t_documents t) →
  read_document_row (Ok id) c = Ok (vd_row d) →
  inventory_matches t' (<[id := d]> documents).
Proof.
  intros Hm Hl Ht Hr. pose proof (inventory_same_keys _ _ id Hm) as Hk. destruct Hm as [Hsize Hall].
  split; rewrite Ht.
  - rewrite !map_size_insert, Hsize. destruct (t_documents t !! _), (documents !! id); try done.
    + by destruct Hk as [[? ?] _]; [by eexists|].
    + by destruct Hk as [_ [? ?]]; [by eexists|].
  - intros key c' Hc'. destruct (decide (key = document_key id)) as [->|Hne].
    + rewrite lookup_insert_eq in Hc'. injection Hc' as <-. exists id, d. by rewrite lookup_insert_eq.
    + rewrite lookup_insert_ne in Hc' by congruence. apply Hall in Hc' as (id' & d' & -> & ? & ? & ?).
      exists id', d'. rewrite lookup_insert_ne by congruence. done.
Qed.

Lemma committed_document_sound w p id k current mutation n m b :
  prepared_for w id k current mutation p → head_counts current → length id = 32%nat →
  document_sound (w_device w) (committed_tables (w_tables w) p n m b) id
    (verified_document_new (pp_current_head p) (Z.of_nat (length (pp_snapshot_envelope p)))).
Proof using All.
  intros [Hv Hi Hs Hg He Hn Hc Hr Hh] Hcnt Hl.
  exists {| hc_head_id := Value.Blob (ch_head_id (pp_current_head p));
            hc_record := Value.Blob (pp_head_record p) |}, (pp_current_head p), (pp_snapshot_envelope p).
  assert (ch_generation (pp_current_head p) = pp_generation p) as Hgen by (by rewrite Hh).
  cbn. rewrite Hi, Hgen, !lookup_insert_eq. split_and!; [done| |done| |by rewrite Hh|done].
  - split; [done|]. split; [done|]. eexists _, _. split; [done|]. split; [done|].
    rewrite Hh. split_and!; try done; [apply sha256_length|by rewrite <- Hh|apply head_new_verifies].
  - rewrite Hg. destruct current as [h|]; [|lia]. destruct Hcnt. by apply successor_counts.
Qed.

(** The other documents keep their head and their snapshot. *)
Lemma other_document_sound device t p n m b id d :
  id ≠ pp_document_id p → document_sound device t id d →
  document_sound device (committed_tables t p n m b) id d.
Proof.
  intros Hne (c & head & e & Hc & Hh & He & Hg & Hd & ->). exists c, head, e. cbn.
  assert (document_key (pp_document_id p) ≠ document_key id) by (by intros [= ?]).
  unfold document_key in *. rewrite !lookup_insert_ne by congruence. split_and!; try done.
  apply map_lookup_filter_Some_2; [done|]. cbn. congruence.
Qed.

Lemma written_durable w w' p id k current mutation :
  prepared_for w id k current mutation p → head_counts current →
  deadline_counts (dm_next_eviction mutation) → length id = 32%nat →
  written w w' p → durable w → durable w'.
Proof using All.
  intros Hpf Hcnt Hdl Hl (_ & n & m & b & Hn & _ & _ & Hsign & Hb & Hw) [(m0 & b0 & Hacc & _) Hsig].
  eapply durable_ext; [exact Hw|]. split; [|exact Hsig]. exists m, b. cbn. split; [|done].
  pose proof (pf_id _ _ _ _ _ _ Hpf) as Hid.
  unfold sign_manifest in Hsign. apply bind_Ok in Hsign as (signer & Hsg & Hnew).
  pose proof (manifest_new_verifies _ _ _ _ _ _ _ _ (Hsig _ Hsg) Hnew) as Hver.
  assert (sm_document_count m = Z.of_nat (size (next_documents w p))
    ∧ sm_inventory_digest m = inventory_digest (inventory_of (next_documents w p))
    ∧ length (sm_manifest_id m) = 32%nat) as (Hcount & Hinv & Hlen).
  { unfold manifest_new in Hnew. inv_ok. split_and!; try done. apply sha256_length. }
  pose proof (committed_document_sound w p id k current mutation n m b Hpf Hcnt Hl) as Hnewdoc.
  split; cbn [w_tables w_device w_verifying_key set_verified set_tables]; try done.
  - cbn. by rewrite lookup_insert_ne, lookup_insert_eq by done.
  - eapply (Hfit w); [|done]. unfold sign_manifest. by rewrite Hsg.
  - by apply serde_roundtrip.
  - rewrite current_commit_head_pure. cbn [w_tables set_verified set_tables committed_tables t_meta].
    rewrite lookup_insert_eq. cbn. by rewrite (array_from_blob_size 32).
  - intros id' d. unfold next_documents. rewrite Hid. destruct (decide (id' = id)) as [->|Hne].
    + rewrite lookup_insert_eq. by intros [= <-].
    + rewrite lookup_insert_ne by congruence. intros Hd.
      apply other_document_sound; [congruence|]. by apply (acc_documents _ _ _ _ Hacc).
  - intros key. cbn [committed_tables t_heads]. unfold next_documents. rewrite Hid.
    destruct (decide (key = document_key id)) as [->|Hne].
    + intros _. exists id. rewrite lookup_insert_eq. split; [done|by eexists].
    + rewrite lookup_insert_ne by congruence. intros (id' & -> & Hx)%(acc_heads _ _ _ _ Hacc).
      exists id'. rewrite lookup_insert_ne by congruence. done.
  - intros key. cbn [committed_tables t_snapshots]. unfold next_documents. rewrite Hid.
    destruct (decide (key = (document_key id, Value.Integer (pp_generation p)))) as [->|Hne].
    + intros _. eexists id, _. rewrite lookup_insert_eq. split; [done|].
      by rewrite (pf_head _ _ _ _ _ _ Hpf).
    + rewrite lookup_insert_ne by congruence. intros [v (Hv & Hk)%map_lookup_filter_Some].
      destruct (acc_snapshots _ _ _ _ Hacc key) as (id' & d & Hd & ->); [by eexists|].
      exists id', d. cbn in Hk. rewrite lookup_insert_ne by congruence. done.
  - unfold next_documents. rewrite Hid. eapply inventory_insert; [apply (acc_rows _ _ _ _ Hacc)|done| |].
    + cbn. by rewrite Hid.
    + rewrite <- Hid at 1. rewrite Hid. by eapply (read_committed_row Hfit).
Qed.

(** *** What a commit adds *)

(** A row of a later generation, and tables in which some row is later and none is earlier. *)
Definition newer (c c' : DocumentColumns) : Prop :=
  ∃ g g', dc_generation c = Value.Integer g ∧ dc_generation c' = Value.Integer g' ∧ g < g'.
Definition grew (t t' : Tables) : Prop :=
  (∀ key c, t_documents t !! key = Some c →
     ∃ c', t_documents t' !! key = Some c' ∧ (c' = c ∨ newer c c'))
  ∧ ∃ key c', t_documents t' !! key = Some c' ∧ ∀ c, t_documents t !! key = Some c → newer c c'.

Lemma newer_trans c1 c2 c3 : newer c1 c2 → newer c2 c3 → newer c1 c3.
Proof.
  intros (g1 & g2 & Hg1 & Hg2 & Hlt) (g2' & g3 & Hg2' & Hg3 & Hlt'). exists g1, g3.
  split_and!; [done..|]. rewrite Hg2 in Hg2'. injection Hg2' as <-. lia.
Qed.
Lemma grew_trans t1 t2 t3 : grew t1 t2 → grew t2 t3 → grew t1 t3.
Proof.
  intros [Hall (key & c2 & Hc2 & Hnew)] [Hall' _]. split.
  - intros k c (c' & Hc' & Hle)%Hall. apply Hall' in Hc' as (c'' & Hc'' & Hle'). exists c''.
    split; [done|]. destruct Hle as [->|?], Hle' as [->|?]; eauto using newer_trans.
  - destruct (Hall' _ _ Hc2) as (c3 & Hc3 & Hle). exists key, c3. split; [done|].
    intros c Hc%Hnew. destruct Hle as [->|?]; eauto using newer_trans.
Qed.

(** Nothing was stored, or something more. *)
Definition moves (w w' : StoreWorker) : Prop := same_data w w' ∨ grew (w_tables w) (w_tables w').
#[local] Instance moves_preorder : PreOrder moves.
Proof.
  split; [by left|]. intros w1 w2 w3 [Hm|Hm] [Hm'|Hm'].
  - left. by etrans.
  - right. destruct Hm as (<- & _). done.
  - right. destruct Hm' as (-> & _). done.
  - right. by eapply grew_trans.
Qed.

Lemma written_grew w w' p :
  written w w' p → replaces (w_tables w) p →
  (∀ h, pp_expected p = Some h → dh_generation h < pp_generation p) →
  grew (w_tables w) (w_tables w').
Proof.
  intros (_ & n & m & b & _ & _ & _ & _ & _ & (Ht & _)) Hr Hg. rewrite Ht.
  cbn [w_tables set_verified set_tables]. unfold grew. cbn [committed_tables t_documents].
  set (key := document_key (pp_document_id p)).
  assert (∀ c, t_documents (w_tables w) !! key = Some c →
    newer c (prepared_columns p (pp_generation p) (pp_key_epoch p) (deadline_value n))) as Hnew.
  { intros c Hc. unfold replaces in Hr. fold key in Hr. rewrite Hc in Hr.
    destruct (pp_expected p) as [h|]; [|done]. destruct Hr as (? & [= <-] & Hgen).
    eexists _, _. split_and!; [exact Hgen|done|by apply Hg]. }
  split.
  - intros k c Hc. destruct (decide (k = key)) as [->|Hne].
    + eexists. rewrite lookup_insert_eq. split; [done|]. right. by apply Hnew.
    + exists c. rewrite lookup_insert_ne by done. by split; [|left].
  - exists key. eexists. rewrite lookup_insert_eq. split; [done|exact Hnew].
Qed.

(** The next generation is later. *)
Lemma prepare_commit_later w draw id k current mutation ctx p :
  prepare_commit w draw id k current mutation ctx = Ok p →
  pp_expected p = current ∧ ∀ h, current = Some h → dh_generation h < pp_generation p.
Proof.
  unfold prepare_commit. intros [Hx Hp]%then_Ok. inv_ok. cbn. split; [done|]. intros h ->.
  apply orb_false_iff in Hx as [Hx%Z.eqb_neq _]. unfold u64_saturating_add in *. lia.
Qed.

(** ** Commands *)

(** A command that keeps a durable worker durable and only adds to what is stored, and what its
    results satisfy. *)
Definition steps_to {A} (m : WM A) (Q : A → Prop) : Prop :=
  ∀ w r w', m w = (r, w') → durable w → (durable w' ∧ moves w w') ∧ ∀ a, r = Ok a → Q a.

Abbreviation anything := (λ _, True).

Lemma steps_same {A} (m : WM A) :
  (∀ w r w', m w = (r, w') → same_data w w') → steps_to m anything.
Proof.
  intros Hm w r w' Hr Hd. apply Hm in Hr. split; [|done]. split; [by apply (durable_ext w)|by left].
Qed.

Lemma steps_reads {A} (m : WM A) : reads m → steps_to m anything.
Proof. intros Hm. apply steps_same. intros w r w'. by apply reads_frame. Qed.

Lemma steps_ret {A} (a : A) (Q : A → Prop) : Q a → steps_to (mret a) Q.
Proof. intros HQ w r w' [= <- <-] Hd. split; [by split|]. by intros ? [= <-]. Qed.

Lemma steps_lift {A} (r : VaultResult A) (Q : A → Prop) :
  (∀ a, r = Ok a → Q a) → steps_to (lift r) Q.
Proof. intros HQ w x w' [= <- <-] Hd. split; [by split|done]. Qed.

Lemma steps_bind {A B} (m : WM A) (f : A → WM B) P Q :
  steps_to m P → (∀ a, P a → steps_to (f a) Q) → steps_to (m ≫= f) Q.
Proof.
  intros Hm Hf w r w' Hr Hd.
  apply sm_bind_either in Hr as [(e & Hr & ->)|(a & w1 & Hr & Hr')].
  - destruct (Hm _ _ _ Hr Hd) as [Hd1 _]. split; [exact Hd1|discriminate].
  - destruct (Hm _ _ _ Hr Hd) as [[Hd1 Hm1] HP].
    destruct (Hf a (HP a eq_refl) _ _ _ Hr' Hd1) as [[Hd2 Hm2] HQ]. split; [split; [done|]|done].
    by etrans.
Qed.

Lemma steps_bind_reads {A B} (m : WM A) (f : A → WM B) Q :
  reads m → (∀ a, steps_to (f a) Q) → steps_to (m ≫= f) Q.
Proof. intros Hm Hf. eapply steps_bind; [by apply steps_reads|]. auto. Qed.

Lemma steps_bind_reading {A B} (f : StoreWorker → VaultResult A) (g : A → WM B) Q :
  (∀ a, steps_to (g a) Q) → steps_to (reading f ≫= g) Q.
Proof.
  intros Hg. eapply (steps_bind _ _ (λ _, True)); [|auto].
  apply steps_same. by intros w r w' [= _ <-].
Qed.

(** The worker as an argument. *)
Lemma steps_state {A} (f : StoreWorker → WM A) Q : (∀ w0, steps_to (f w0) Q) → steps_to (λ w, f w w) Q.
Proof. intros Hf w r w' Hr. by eapply Hf. Qed.

Lemma steps_on_document {A} d (m : SM SecretDocument A) (Q : A * SecretDocument → Prop) :
  (∀ a d', m d = (Ok a, d') → Q (a, d')) → steps_to (on_document d m) Q.
Proof.
  intros HQ w r w' Hr Hd. unfold on_document in Hr. destruct (m d) as [[a|e] d'] eqn:Hm;
    injection Hr as <- <-; (split; [by split|]); [|discriminate]. intros x [= <-]. by apply HQ.
Qed.

(** A loaded document that a commit may replace. *)
Definition loaded_sound (id : bytes) (l : LoadedDocument) : Prop :=
  document_ok (ld_document l) ∧ head_counts (Some (ld_head l)) ∧ length id = 32%nat.

Lemma steps_load id k e :
  steps_to (load_document id k e) (λ x, ∀ l, x = Some l → loaded_sound id l).
Proof using All.
  intros w r w' Hr Hd. pose proof Hr as Hr'. apply reads_frame in Hr'; [|eauto with reads].
  split; [split; [by eapply durable_ext|by left]|]. intros a -> l ->.
  apply reads_Ok in Hr as [_ Hl]; [|eauto with reads].
  pose proof (loaded_ok _ _ _ _ _ Hl) as (Hok & _). apply loaded_split in Hl as [Hh _].
  pose proof (load_head_counts _ _ _ _ Hh) as Hc. split_and!; [done|done|].
  rewrite load_head_pure in Hh. apply bind_Ok in Hh as ([] & _ & Hh).
  destruct Hd as [(m & b & Hacc & _) _].
  destruct (vs_documents (w_verified w) !! id) as [d|] eqn:Hx.
  - apply (acc_documents _ _ _ _ Hacc) in Hx as (? & ? & ? & _ & (_ & ? & _) & _). done.
  - unfold checked_head in Hh. destruct (t_documents _ !! _); [|done]. by inv_ok.
Qed.

Lemma steps_commit id k current mutation ctx :
  head_counts current → deadline_counts (dm_next_eviction mutation) → length id = 32%nat →
  steps_to (commit_mutation id k current mutation ctx) anything.
Proof using All.
  intros Hc Hdl Hl w r w' Hr Hd. split; [|done]. unfold commit_mutation in Hr.
  apply sm_bind_either in Hr as [(e & [= Hp <-] & ->)|(p & w1 & [= Hp <-] & Hr)];
    [split; [by apply (durable_ext w)|by left]|].
  apply prepare_commit_later in Hp as Hlater. destruct Hlater as [Hexp Hlater].
  apply (prepare_commit_Ok Hfit) in Hp.
  apply sm_bind_either in Hr as [(e & Hr & ->)|([] & w2 & Hr & Hck)].
  { apply persist_commit_spec in Hr. split; [|by left].
    eapply durable_ext; [exact Hr|]. by apply (durable_ext w). }
  assert (same_data w2 w') as Hs.
  { assert (reads checkpoint) as Hx by (unfold checkpoint; solve_reads). by eapply reads_frame. }
  pose proof (persist_commit_replaces _ _ _ _ Hr) as Hrep. apply persist_commit_spec in Hr. split.
  - eapply durable_ext; [exact Hs|]. eapply (written_durable (step w)); [|done..|exact Hr|].
    + destruct Hp. by split.
    + by apply (durable_ext w).
  - right. destruct Hs as (-> & _). apply (written_grew (step w) _ p); [done..|].
    intros h Hh. apply Hlater. congruence.
Qed.

Lemma steps_finished id k current d mutation ctx :
  head_counts current → finished d mutation → length id = 32%nat →
  steps_to (commit_mutation id k current mutation ctx) anything.
Proof using All. intros Hc (_ & _ & Hdl) Hl. by apply steps_commit. Qed.

(** A commit, when there is something to commit. *)
Lemma steps_then {A} (m : WM ()) (a : A) (Q : A → Prop) : steps_to m anything → Q a → steps_to (_ ← m; mret a) Q.
Proof. intros Hm HQ. eapply steps_bind; [exact Hm|]. intros _ _. by apply steps_ret. Qed.

Lemma steps_open id k p x :
  length id = 32%nat → (∀ l, x = Some l → loaded_sound id l) →
  steps_to (open_or_new id k p x) (λ o, document_ok o.1 ∧ head_counts o.2).
Proof using All.
  intros Hl Hx. unfold open_or_new. destruct x as [l|].
  - apply steps_ret. by destruct (Hx l eq_refl) as (? & ? & _).
  - intros w r w' Hr Hd. apply sm_bind_either in Hr as [(e & [= _ <-] & ->)|(d & w1 & [= Hn <-] & [= <- <-])].
    { split; [by split|discriminate]. }
    split; [by split|]. intros a [= <-]. apply document_new_spec in Hn as (Hok & _). by split.
Qed.

Lemma steps_put id k p a value evict_at ctx :
  length id = 32%nat → steps_to (worker_put id k p a value evict_at ctx) anything.
Proof using All.
  intros Hl. unfold worker_put. eapply steps_bind; [apply steps_load|]. intros x Hx.
  eapply steps_bind; [by apply steps_open|]. intros [d cur] [Hok Hc]. cbn [fst snd] in *.
  eapply steps_bind; [apply (steps_on_document _ _ (λ x, finished d x.1))|].
  - intros m d' Hm. by eapply document_put_finished.
  - intros m Hm. cbn in Hm. by apply (steps_finished _ _ _ d).
Qed.

Lemma steps_mutate id k p ops ctx :
  length id = 32%nat → steps_to (worker_mutate id k p ops ctx) anything.
Proof using All.
  intros Hl. unfold worker_mutate. eapply steps_bind; [apply steps_load|]. intros x Hx.
  destruct (_ || _); [|by apply steps_ret].
  eapply steps_bind; [by apply steps_open|]. intros [d cur] [Hok Hc]. cbn [fst snd] in *.
  eapply steps_bind; [apply (steps_on_document _ _ (λ x, ∀ m, x.1 = Some m → finished d m))|].
  - intros m d' Hm. cbn. intros m' ->. by eapply document_apply_finished.
  - intros [[m|] d'] Hm; cbn [fst]; [|by apply steps_ret]. by apply (steps_finished _ _ _ _ _ _ Hc (Hm _ eq_refl)).
Qed.

Lemma steps_remove id l op a :
  loaded_sound id l → steps_to (on_document (ld_document l) (document_remove a op))
    (λ x, ∀ m, x.1 = Some m → finished (ld_document l) m).
Proof using All.
  intros (Hok & _). apply steps_on_document. intros r d' Hr. cbn. intros m ->.
  by eapply document_remove_finished.
Qed.

Lemma steps_delete id k p a ctx : steps_to (worker_delete id k p a ctx) anything.
Proof using All.
  unfold worker_delete. eapply steps_bind; [apply steps_load|]. intros [l|] Hx; [|by apply steps_ret].
  pose proof (Hx l eq_refl) as (_ & Hc & Hl).
  eapply steps_bind; [by eapply steps_remove, Hx|].
  intros [[m|] d'] Hm; cbn [fst]; [|by apply steps_ret].
  apply steps_then; [|done]. by apply (steps_finished _ _ _ _ _ _ Hc (Hm _ eq_refl)).
Qed.

Lemma steps_clear id k p ctx : steps_to (worker_clear id k p ctx) anything.
Proof using All.
  unfold worker_clear. eapply steps_bind; [apply steps_load|]. intros [l|] Hx; [|by apply steps_ret].
  pose proof (Hx l eq_refl) as (Hok & Hc & Hl).
  eapply steps_bind;
    [apply (steps_on_document _ _ (λ x, ∀ n m, x.1 = Some (n, m) → finished (ld_document l) m))|].
  - intros m d' Hm. cbn. intros n m' ->. by eapply document_clear_finished.
  - intros [[[n m]|] d'] Hm; cbn [fst]; [|by apply steps_ret].
    apply steps_then; [|done]. by apply (steps_finished _ _ _ _ _ _ Hc (Hm _ _ eq_refl)).
Qed.

Lemma steps_lock b : steps_to (lock_bytes b) anything.
Proof. apply steps_same. intros w r w' Hr. destruct b; by injection Hr as _ <-. Qed.

Lemma steps_get id k p a now : steps_to (worker_get id k p a now) anything.
Proof using All.
  unfold worker_get. eapply steps_bind; [apply steps_load|]. intros [l|] Hx; [|by apply steps_ret].
  pose proof (Hx l eq_refl) as (_ & Hc & Hl).
  apply steps_bind_reads; [solve_reads|]. intros [[|v| |] dl]; cbn [fst snd].
  - by apply steps_ret.
  - eapply steps_bind; [apply steps_lock|]. intros ? _. by apply steps_ret.
  - apply steps_reads. solve_reads.
  - apply steps_bind_reading. intros ctx.
    eapply steps_bind; [by eapply steps_remove, Hx|]. intros [m d'] Hm. cbn [fst] in *.
    eapply (steps_bind _ _ (λ x, finished (ld_document l) x)).
    + apply steps_lift. intros x Hm'%ok_or_Ok. by apply Hm.
    + intros m' Hf. apply steps_then; [|done]. by apply (steps_finished _ _ _ _ _ _ Hc Hf).
Qed.

Lemma steps_get_many id k p l now : steps_to (worker_get_many id k p l now) anything.
Proof using All.
  unfold worker_get_many. eapply steps_bind; [apply steps_load|]. intros [d|] _; [|by apply steps_ret].
  induction l as [|a l IH]; cbn [read_each]; [by apply steps_ret|].
  apply steps_bind_reads; [solve_reads|]. intros x.
  eapply (steps_bind _ _ anything); [|intros ? _; eapply steps_bind; [exact IH|intros; by apply steps_ret]].
  destruct x; try (by apply steps_ret); [|apply steps_reads; solve_reads].
  eapply steps_bind; [apply steps_lock|]. intros; by apply steps_ret.
Qed.

Lemma steps_purge_loaded id k l now ctx :
  loaded_sound id l → steps_to (purge_loaded id k l now ctx) anything.
Proof using All.
  intros (Hok & Hc & Hl). unfold purge_loaded.
  eapply steps_bind;
    [apply (steps_on_document _ _ (λ x, ∀ m, x.1 = Some m → finished (ld_document l) m))|].
  - intros m d' Hm. cbn. intros m' ->. by eapply document_purge_finished.
  - intros [[m|] d'] Hm; cbn [fst]; [|by apply steps_ret].
    apply steps_then; [|done]. by apply (steps_finished _ _ _ _ _ _ Hc (Hm _ eq_refl)).
Qed.

Lemma steps_purge now : steps_to (worker_purge_expired now) anything.
Proof using All.
  unfold worker_purge_expired. apply steps_bind_reads; [eauto with reads|]. intros _.
  do 2 (apply steps_bind_reading; intros ?).
  generalize 0. induction a as [|[id k] due IH]; intros n; cbn [purge_each]; [by apply steps_ret|].
  eapply steps_bind; [apply steps_load|]. intros [l|] Hx; [|apply IH].
  eapply steps_bind; [by eapply steps_purge_loaded, Hx|]. intros ? _. apply IH.
Qed.

Lemma steps_expect {A} (o : option A) : steps_to (expect o) anything.
Proof. apply steps_same. intros w r w' Hr. destruct o; by injection Hr as _ <-. Qed.

Lemma steps_page {A} (l : list (string * A)) cursor limit name :
  steps_to (sorted_page l cursor limit name) anything.
Proof. unfold sorted_page. apply steps_bind_reads; [solve_reads|]. intros _. apply steps_expect. Qed.

Lemma steps_projects cursor limit now : steps_to (worker_list_projects cursor limit now) anything.
Proof using All.
  unfold worker_list_projects. apply steps_bind_reads; [eauto with reads|]. intros _.
  do 2 (apply steps_bind_reading; intros ?).
  apply (steps_bind _ _ anything); [|intros ? _; apply steps_page].
  generalize (@nil (string * string)).
  induction a as [|[id k] due IH]; intros n; cbn [project_entries_of]; [by apply steps_ret|].
  eapply steps_bind; [apply steps_load|]. intros [l|] Hx; [|apply IH]. cbv zeta.
  do 2 (apply steps_bind_reads; [solve_reads|]; intros _).
  eapply steps_bind; [by eapply steps_purge_loaded, Hx|]. intros ? _.
  apply steps_bind_reads; [solve_reads|]. intros ?. apply IH.
Qed.

Lemma steps_project_addresses project cursor limit now :
  steps_to (worker_list_project_addresses project cursor limit now) anything.
Proof using All.
  unfold worker_list_project_addresses. apply steps_bind_reading. intros id.
  eapply steps_bind; [apply steps_load|]. intros [l|] Hx; [|by apply steps_ret].
  apply steps_bind_reading. intros ctx.
  eapply steps_bind; [by eapply steps_purge_loaded, Hx|]. intros ? _.
  do 2 (apply steps_bind_reads; [solve_reads|]; intros ?). apply steps_expect.
Qed.

Lemma steps_entries cursor limit now : steps_to (worker_list_vault_entries cursor limit now) anything.
Proof using All.
  unfold worker_list_vault_entries. apply steps_bind_reads; [eauto with reads|]. intros _.
  do 2 (apply steps_bind_reading; intros ?).
  apply (steps_bind _ _ anything); [|intros ? _; apply steps_page].
  generalize (@nil (string * VaultEntryMetadata)).
  induction a as [|[id k] due IH]; intros n; cbn [vault_entries_of]; [by apply steps_ret|].
  eapply steps_bind; [apply steps_load|]. intros [l|] Hx; [|apply IH].
  eapply steps_bind; [by eapply steps_purge_loaded, Hx|]. intros ? _. cbv zeta.
  do 2 (apply steps_bind_reads; [solve_reads|]; intros ?).
  apply steps_bind_reading. intros ?. apply IH.
Qed.

Lemma steps_history id k p a before limit :
  steps_to (worker_list_history id k p a before limit) anything.
Proof.
  unfold worker_list_history. apply steps_bind_reads; [eauto with reads|].
  intros [log|]; cbv zeta; by apply steps_ret.
Qed.

(** A request runs its command or nothing. *)
Lemma steps_request {A} (m : WM A) : steps_to m anything → steps_to (request m) anything.
Proof.
  intros Hm w r w' Hr Hd. split; [|done]. apply request_spec in Hr as [[_ Hs]|Hr].
  - split; [by apply (durable_ext w)|by left].
  - destruct Hr as (w1 & r1 & w2 & Hs & Hr & Hs' & _).
    destruct (Hm _ _ _ Hr) as [[Hd2 Hm2] _]; [by apply (durable_ext w)|].
    split; [by apply (durable_ext w2)|]. transitivity w1; [by left|]. transitivity w2; [done|by left].
Qed.

Lemma steps_at {A} k p (m : bytes → WM A) Q :
  (∀ id, length id = 32%nat → steps_to (m id) Q) → steps_to (at_document k p m) Q.
Proof using All.
  intros Hm. apply (steps_state (λ w, m (document_id w k p))). intros w. apply Hm, hmac_length.
Qed.

Lemma steps_context {A} prov now (m : MutationContext → WM A) Q :
  (∀ ctx, steps_to (m ctx) Q) → steps_to (with_context prov now m) Q.
Proof. intros Hm. apply (steps_state (λ w, m (worker_context w prov now))). auto. Qed.

Lemma store_step_moves w w' : store_step w w' → durable w → durable w' ∧ moves w w'.
Proof using All.
  assert (∀ A (m : WM A) w r w', steps_to m anything → request m w = (r, w') → durable w →
    durable w' ∧ moves w w') as Hrun
    by (intros A m v r v' Hm Hr Hd; by destruct (steps_request m Hm _ _ _ Hr Hd)).
  intros Hstep Hd. destruct Hstep;
    match goal with Hr : _ = (_, _) |- _ => eapply Hrun; [|exact Hr|exact Hd] end;
    try (apply steps_at; intros id Hid); try (apply steps_context; intros ctx);
    eauto using steps_get, steps_get_many, steps_put, steps_mutate, steps_delete, steps_clear,
      steps_purge, steps_projects, steps_project_addresses, steps_entries, steps_history.
  apply steps_bind_reads; [eauto with reads|]. intros _.
  apply steps_same. by intros ? ? ? [= _ <-].
Qed.

Lemma store_steps_move w w' : rtc store_step w w' → durable w → durable w' ∧ moves w w'.
Proof using All.
  induction 1 as [|w1 w2 w3 Hstep _ IH]; intros Hd; [by split|].
  apply store_step_moves in Hstep as [Hd2 Hm]; [|done]. destruct (IH Hd2) as [Hd3 Hm']. split; [done|].
  by etrans.
Qed.

Lemma started_durable boot v s :
  verify_current_state boot = (Ok v, s) →
  (∀ signer, secrets_signer (w_secrets boot) (vm_installation_id (w_device boot))
               (vm_device_vault_id (w_device boot)) = Ok signer →
     signs_for signer (w_verifying_key boot)) →
  durable (set_verified s v).
Proof.
  intros Hv Hsig. pose proof (verify_current_state_reads _ _ _ Hv) as ((Ht & Hd & Hs & _ & Hk) & _ & Hp & _).
  specialize (Hp v eq_refl). apply accepted_sound in Hp as (m & b & documents & Hacc & ->). split.
  - exists m, b. split; [|done]. by eapply accepted_ext; [..|exact Hacc].
  - cbn. intros signer. rewrite Hs, Hd, Hk. apply Hsig.
Qed.

(** C4: what was committed survives a restart.  A store that startup opened, after any
    sequence of requests, whatever they answered and whichever calls to the database failed
    along the way, is accepted by the next startup, which finds exactly the verified state
    the worker held. *)
Theorem vault_survives_restart boot v s w again :
  verify_current_state boot = (Ok v, s) →
  (∀ signer, secrets_signer (w_secrets boot) (vm_installation_id (w_device boot))
               (vm_device_vault_id (w_device boot)) = Ok signer →
     signs_for signer (w_verifying_key boot)) →
  rtc store_step (set_verified s v) w →
  w_tables again = w_tables w → w_device again = w_device w →
  w_verifying_key again = w_verifying_key w → w_environment again = quiet_environment →
  ∃ s', verify_current_state again = (Ok (w_verified w), s').
Proof using All.
  intros Hv Hsig Hrun Ht Hd Hk He.
  assert (durable w) as [(m & b & Hacc & Hw) _].
  { apply (store_steps_move _ _ Hrun). by eapply started_durable. }
  destruct (verify_current_state again) as [r s'] eqn:Hr.
  pose proof (verify_current_state_reads _ _ _ Hr) as (_ & _ & _ & Hq). exists s'. f_equal.
  rewrite Hq by done. apply verify_current_state_Ok. exists m, b, (vs_documents (w_verified w)).
  split; [by eapply accepted_ext|done].
Qed.


Context `{!TypedRecords}.

End Durability.
