(* ===== verification/WorkerWitness.v ===== *)
(** The store worker run on a database in memory: the laws the worker's theorems assume
    hold together, and a record that is written is read back. *)
From Stdlib Require Import ZArith Lia Bool.
From stdpp Require Import base gmap strings list.
From S2P Require Import Prelude Core Address Instances Text Wire History StoreSpec Signature Manifest KeyringIndex Envelope Automerge Document DocumentProofs DocumentAtomic Database Worker WorkerReads WorkerCommit WorkerViews WorkerStore.

Module WorkerDemo.
#[export] Existing Instances demo_sha256 demo_sha256_ok demo_base64 ManifestDemo.demo_mldsa.
#[export] Existing Instances EnvelopeDemo.demo_gcm EnvelopeDemo.demo_gcm_ok EnvelopeDemo.demo_signers.
#[export] Instance worker_hmac : HmacSha256 := λ key message, sha256 (key ++ message).
#[export] Instance worker_random : Random := λ _ _ n, Ok (replicate n Byte.x01).
#[export] Instance worker_random_ok : RandomOk.
Proof. intros tick i n b [= <-]. apply length_replicate. Qed.
#[export] Instance worker_attributes : AttributeJson := λ _, [].

(** No personal items. *)
#[export] Instance worker_personal : PersonalItems := {|
  PersonalSecret := Empty_set; decode_current _ := None;
  ps_id i := match i with end; ps_title i := match i with end; ps_kind_label i := match i with end;
  ps_username i := match i with end; ps_website_host i := match i with end;
  ps_favorite i := match i with end;
  PersonalReplica := (); replica_new _ _ := Ok tt; replica_load _ _ _ := Ok tt;
  replica_values _ := Ok []; replica_set _ _ := Ok tt; replica_save _ := Ok [] |}.

#[export] Instance record_eq_dec : EqDecision SecretRecord.
Proof. solve_decision. Defined.
#[export] Instance encryption_eq_dec : EqDecision EncryptionAlgorithm.algorithm.
Proof. solve_decision. Defined.
#[export] Instance signature_eq_dec : EqDecision SignatureAlgorithm.algorithm.
Proof. solve_decision. Defined.
#[export] Instance wrapped_eq_dec : EqDecision WrappedKey.
Proof. solve_decision. Defined.
#[export] Instance snapshot_eq_dec : EqDecision EncryptedSnapshot.
Proof. solve_decision. Defined.
#[export] Instance head_eq_dec : EqDecision CurrentHead.
Proof. solve_decision. Defined.
#[export] Instance manifest_eq_dec : EqDecision StateManifest.
Proof. solve_decision. Defined.

(** ** The record, its document and its history *)

Definition partition : bytes := as_bytes "namespace".
Definition address : SecretAddress := Local "item" None.
Definition device : VaultMetadata := {|
  vm_installation_id := replicate 16 Byte.x11; vm_device_vault_id := replicate 16 Byte.x12;
  vm_device_vault_id_size := eq_refl; vm_device_key_id := replicate 32 Byte.x13;
  vm_public_signing_key := [Byte.x2a]; vm_actor_id := [Byte.x14] |}.
Definition stored_record : SecretRecord := {|
  sr_version := 2; sr_address := address; sr_value := as_bytes "value"; sr_evict_at := None;
  sr_version_id := replicate 16 Byte.x01; sr_created_at := 10; sr_updated_at := 10 |}.

#[export] Instance record_serde : Serde SecretRecord := table_serde [stored_record].
#[export] Instance record_serde_ok : SerdeOk SecretRecord := table_serde_ok _.
#[export] Instance deadline_serde : Serde RecordDeadline := {|
  serde_to_vec _ := Err "not written";
  serde_from_slice b := match serde_from_slice (A := SecretRecord) b with
                        | Ok r => Ok {| rd_evict_at := sr_evict_at r |}
                        | Err e => Err e
                        end |}.
#[export] Instance record_deadline_ok : RecordSerdeOk.
Proof. intros b r Hr. unfold serde_from_slice at 1. cbn -[serde_from_slice]. by rewrite Hr. Qed.
#[export] Instance deadline_serde_ok : DeadlineSerdeOk.
Proof.
  intros b r d Hr Hd. unfold serde_from_slice in Hr. cbn in Hr.
  destruct b as [|x b]; cbn in Hr; [|by destruct (length b)]. by injection Hr as <-.
Qed.
#[export] Instance catalog_serde : Serde ReplicaCatalog := {|
  serde_to_vec _ := Err "unused"; serde_from_slice _ := Err "unused" |}.
#[export] Instance index_serde : Serde Index := {|
  serde_to_vec _ := Err "unused"; serde_from_slice _ := Err "unused" |}.
#[export] Instance entry_serde : Serde HistoryEntry := {|
  serde_to_vec _ := Ok []; serde_from_slice _ := Err "unused" |}.

Definition context : MutationContext := {|
  mc_now := 10; mc_provenance := EXPIRY; mc_device_key_id := vm_device_key_id device;
  mc_version_ids := λ _, Ok (replicate 16 Byte.x01) |}.
Definition mutation : DocumentMutation :=
  match document_new (vm_actor_id device) LocalKeyring partition with
  | Ok d => match document_put address (as_bytes "value") None context d with
            | (Ok m, _) => m
            | _ => {| dm_address_migrations := []; dm_snapshot := []; dm_partition := [];
                      dm_history := []; dm_next_eviction := None |}
            end
  | Err _ => {| dm_address_migrations := []; dm_snapshot := []; dm_partition := [];
                dm_history := []; dm_next_eviction := None |}
  end.
Definition log : HistoryLog :=
  (record (log_new LocalKeyring partition) (dm_history mutation) 10 EXPIRY
     (vm_device_key_id device)).2.
#[export] Instance log_serde : Serde HistoryLog := table_serde [log].

(** ** The sealed generation *)

Definition key : bytes := replicate 32 Byte.x01.
Definition nonce : bytes := replicate 12 Byte.x01.
Definition wrapped : WrappedKey := {|
  wk_encryption_algorithm := EncryptionAlgorithm.Aes256Gcm; wk_nonce := nonce;
  wk_ciphertext := key ++ EnvelopeDemo.tag |}.
#[export] Instance wrapped_serde : Serde WrappedKey := table_serde [wrapped].
#[export] Instance wrapped_serde_ok : SerdeOk WrappedKey := table_serde_ok _.
Definition secrets : InstallationSecrets := {|
  is_root_key := key; is_index_key := key; is_wrapped_signing_seed := Some wrapped;
  is_wrapped_enclave_key := None |}.
Definition id : bytes := sha256 (key ++ DOCUMENT_ID_DOMAIN ++ vm_device_vault_id device
  ++ framed (as_bytes (kind_as_str LocalKeyring)) ++ framed partition).
Definition envelope : EncryptedSnapshot := {|
  es_version := 7; es_encryption_algorithm := EncryptionAlgorithm.Aes256Gcm;
  es_vault_id := vm_device_vault_id device; es_document_id := id; es_scope := LocalKeyring;
  es_device_key_id := vm_device_key_id device; es_generation := 1; es_key_epoch := 1;
  es_nonce := nonce; es_ciphertext := dm_snapshot mutation ++ EnvelopeDemo.tag;
  es_history_nonce := nonce; es_history_ciphertext := EnvelopeDemo.tag |}.
#[export] Instance snapshot_serde : Serde EncryptedSnapshot := table_serde [envelope].
#[export] Instance snapshot_serde_ok : SerdeOk EncryptedSnapshot := table_serde_ok _.
Definition head : CurrentHead := head_new {|
  cc_previous_commit_id := None; cc_vault_id := vm_device_vault_id device; cc_document_id := id;
  cc_scope := LocalKeyring; cc_generation := 1; cc_key_epoch := 1;
  cc_wrapped_key_digest := digest []; cc_snapshot_digest := digest [];
  cc_next_eviction := None; cc_device_key_id := vm_device_key_id device |}.
#[export] Instance head_serde : Serde CurrentHead := table_serde [head].
#[export] Instance head_serde_ok : SerdeOk CurrentHead := table_serde_ok _.

(** ** The manifests before and after *)

Definition manifest (heads : list (bytes * bytes)) : StateManifest :=
  match manifest_new (vm_device_vault_id device) (vm_device_key_id device)
          (Z.of_nat (length heads)) (inventory_digest heads) false (SoftwareSigner key) with
  | Ok m => m
  | Err _ => unsigned_manifest [] [] 0 [] false [] []
  end.
Definition empty_manifest : StateManifest := manifest [].
#[export] Instance manifest_serde : Serde StateManifest :=
  table_serde [empty_manifest; manifest [(id, ch_head_id head)]].
#[export] Instance manifest_serde_ok : SerdeOk StateManifest := table_serde_ok _.

Lemma table_index_lt {A} `{EqDecision A} (l : list A) a i :
  table_index l a = Some i → (i < length l)%nat.
Proof. intros Hi. apply table_index_lookup in Hi. by eapply lookup_lt_Some. Qed.

Lemma fits : manifests_fit.
Proof.
  intros w documents repack m b _ Hb. unfold serde_to_vec, manifest_serde, table_serde in Hb.
  destruct (table_index _ _) as [i|] eqn:Hi; [|done]. injection Hb as <-.
  apply table_index_lt in Hi. rewrite length_replicate. cbn in Hi.
  unfold MAX_MANIFEST_BYTES. lia.
Qed.

(** ** The worker on an empty store *)

Definition tables : Tables := {|
  t_documents := ∅; t_snapshots := ∅; t_heads := ∅;
  t_meta := {[ META_MANIFEST := Value.Blob []; META_HEAD := Value.Blob (sm_manifest_id empty_manifest) ]};
  t_commits := ∅;
  t_vaults := {[ Value.Blob (vm_device_vault_id device) ]} |}.
Definition worker : StoreWorker := {|
  w_tables := tables; w_device := device; w_secrets := secrets;
  w_verified := {| vs_head := Some (sm_manifest_id empty_manifest); vs_documents := ∅;
                   vs_manifest_digest := Some (digest []) |};
  w_verifying_key := key; w_sealed := false; w_environment := quiet_environment; w_tick := 0 |}.

Abbreviation after_put :=
  (put_at LocalKeyring partition address (as_bytes "value") None EXPIRY 10 worker).
Lemma written : after_put.1 = Ok tt.
Proof. vm_compute. reflexivity. Qed.
Lemma read_back :
  (get_at LocalKeyring partition address 11 after_put.2).1 = Ok (Some (as_bytes "value")).
Proof. vm_compute. reflexivity. Qed.
Lemma missing_before : (get_at LocalKeyring partition address 11 worker).1 = Ok None.
Proof. vm_compute. reflexivity. Qed.
End WorkerDemo.

Section Witnesses.
Import WorkerDemo.

Example worker_implements_store_witness :
  (∃ ok : VaultStoreOk StoreWorker, view (VaultStoreOk := ok) = worker_view)
  ∧ (get_at LocalKeyring partition address 11 worker).1 = Ok None
  ∧ (get_at LocalKeyring partition address 11 after_put.2).1 = Ok (Some (as_bytes "value")).
Proof.
  split; [exact (worker_implements_store fits)|].
  exact (conj missing_before read_back).
Defined.
End Witnesses.
