(* ===== verification/StartupWitness.v ===== *)
(** Startup and restart on a database in memory: the hypotheses of the theorems about
    startup, rewritten databases, restarts and failed groups hold there. *)
From Stdlib Require Import ZArith Lia Bool.
From stdpp Require Import base gmap strings list.
From S2P Require Import Prelude Core Address Instances Text Wire History StoreSpec Signature Manifest KeyringIndex Envelope Automerge Document DocumentProofs DocumentAtomic Database Worker WorkerReads WorkerCommit WorkerViews WorkerStore WorkerWitness Startup StartupProofs StartupGuarantees Durability.

Module StartupDemo.
Import WorkerDemo.
#[export] Instance commit_serde : Serde ProtectedCommit := {|
  serde_to_vec _ := Err "unused"; serde_from_slice _ := Err "unused" |}.
#[export] Instance worker_hmac_ok : HmacOk.
Proof. intros k m. apply sha256_length. Qed.

Lemma head_typed : head_wf head.
Proof.
  unfold head_wf, is_array, opt_u64, is_u64, U64_MAX. change (ch_next_eviction head) with (@None Z).
  change (ch_generation head) with 1. change (ch_key_epoch head) with 1.
  split_and!; try lia; try done; vm_compute; reflexivity.
Qed.
Lemma manifests_typed :
  Forall manifest_wf [empty_manifest; manifest [(id, ch_head_id head)]].
Proof.
  assert (∀ heads, (length heads ≤ 1)%nat → manifest_wf (manifest heads)) as Hwf.
  { intros heads Hl. unfold manifest_wf, is_array, is_u64, U64_MAX. cbn.
    split_and!; try lia; try done. by rewrite length_xor_fold. }
  apply Forall_cons. split; [apply Hwf; cbn; lia|]. apply Forall_singleton, Hwf. cbn. lia.
Qed.

Lemma table_serde_elem {A} `{EqDecision A} (l : list A) b a :
  serde_from_slice (Serde := table_serde l) b = Ok a → a ∈ l.
Proof.
  unfold serde_from_slice, table_serde. destruct (l !! length b) as [x|] eqn:Hx; [|done].
  intros [= ->]. by eapply list_elem_of_lookup_2.
Qed.

#[export] Instance typed_records : TypedRecords.
Proof.
  split.
  - intros b h Hh%table_serde_elem. apply list_elem_of_singleton in Hh as ->. apply head_typed.
  - intros b m Hm%table_serde_elem. pose proof manifests_typed as Hall. rewrite Forall_forall in Hall.
    by apply Hall.
Qed.

(** ** Databases *)

(** The store before it is verified, and after a write. *)
Definition boot : StoreWorker := set_verified worker verified_default.
Definition used : StoreWorker := (after_put).2.
(** A new process on the tables that were written. *)
Definition again : StoreWorker := {|
  w_tables := w_tables used; w_device := w_device used; w_secrets := w_secrets used;
  w_verified := verified_default; w_verifying_key := w_verifying_key used; w_sealed := false;
  w_environment := quiet_environment; w_tick := 0 |}.
(** The same tables without the rows of [vaults]. *)
Definition rewritten : StoreWorker := set_tables again {|
  t_documents := t_documents (w_tables used); t_snapshots := t_snapshots (w_tables used);
  t_heads := t_heads (w_tables used); t_meta := t_meta (w_tables used);
  t_commits := ∅; t_vaults := ∅ |}.

Lemma boot_accepted : (verify_current_state boot).1 = Ok (w_verified worker).
Proof. vm_compute. reflexivity. Qed.
Lemma again_accepted : (verify_current_state again).1 = Ok (w_verified used).
Proof. vm_compute. reflexivity. Qed.
Lemma rewritten_accepted : (verify_current_state rewritten).1 = Ok (w_verified used).
Proof. vm_compute. reflexivity. Qed.
End StartupDemo.

Section Witnesses.
Import WorkerDemo StartupDemo.

Lemma result_pair {S A} (m : SM S A) s r : (m s).1 = r → m s = (r, (m s).2).
Proof. destruct (m s). by intros <-. Qed.

Lemma demo_seed :
  secrets_signing_seed secrets (vm_installation_id device) (vm_device_vault_id device) = Ok key.
Proof. vm_compute. reflexivity. Qed.

Lemma demo_signer_signs signer :
  secrets_signer (w_secrets boot) (vm_installation_id (w_device boot))
    (vm_device_vault_id (w_device boot)) = Ok signer →
  signs_for signer (w_verifying_key boot).
Proof.
  change (w_secrets boot) with secrets. change (w_device boot) with device.
  change (w_verifying_key boot) with (key : verifying_key). unfold secrets_signer. rewrite demo_seed. intros Hs. injection Hs as <-.
  intros payload sig [= <-]. unfold prepared_verify, CURRENT_SIGNATURE_ALGORITHM. cbn.
  by rewrite bool_decide_true.
Qed.

Definition again_open : StoreWorker := set_verified again (w_verified used).
Definition rewritten_open : StoreWorker := set_verified rewritten (w_verified used).
Definition demo_load (w : StoreWorker) : VaultResult (option LoadedDocument) :=
  (load_document id LocalKeyring (Some partition) w).1.
Lemma demo_load_run w r :
  demo_load w = r →
  load_document id LocalKeyring (Some partition) w
  = (r, (load_document id LocalKeyring (Some partition) w).2).
Proof. apply result_pair. Qed.
Lemma same_device : w_device rewritten_open = w_device again_open.
Proof. reflexivity. Qed.
Lemma same_secrets : w_secrets rewritten_open = w_secrets again_open.
Proof. reflexivity. Qed.
Lemma same_documents :
  vs_documents (w_verified rewritten_open) = vs_documents (w_verified again_open).
Proof. reflexivity. Qed.
Lemma loads_found w :
  match demo_load w with Ok (Some _) => true | _ => false end = true → ∃ r, demo_load w = Ok (Some r).
Proof. destruct (demo_load w) as [[r|]|]; [by exists r|done..]. Qed.
Lemma loads_again : ∃ r, demo_load again_open = Ok (Some r).
Proof. apply loads_found. vm_compute. reflexivity. Qed.
Lemma loads_rewritten : ∃ r, demo_load rewritten_open = Ok (Some r).
Proof. apply loads_found. vm_compute. reflexivity. Qed.

Example startup_needs_device_signature_witness :
  (verify_current_state again).1 = Ok (w_verified used)
  ∧ ∃ m, vs_head (w_verified used) = Some (sm_manifest_id m)
      ∧ sm_document_count m = Z.of_nat (size (vs_documents (w_verified used))).
Proof.
  split; [exact again_accepted|].
  destruct (startup_needs_device_signature again _ _ (result_pair _ _ _ again_accepted))
    as (m & Hm & _ & _ & _ & _ & _ & Hc & _).
  exists m. exact (conj Hm Hc).
Defined.

Example startup_binds_database_witness :
  (verify_current_state again).1 = Ok (w_verified used)
  ∧ (vs_documents (w_verified used) = vs_documents (w_verified used)
     ∨ sha256_collides (inventory_preimage (inventory_of (vs_documents (w_verified used))))
         (inventory_preimage (inventory_of (vs_documents (w_verified used))))
     ∨ databases_collide (w_tables again) (w_tables rewritten)).
Proof.
  split; [exact again_accepted|].
  exact (startup_binds_database again rewritten _ _ _ _ (result_pair _ _ _ again_accepted)
    (result_pair _ _ _ rewritten_accepted) eq_refl).
Defined.

Example rewritten_document_refused_witness :
  ∃ r r', demo_load again_open = Ok (Some r) ∧ demo_load rewritten_open = Ok (Some r')
    ∧ (Some r = Some r' ∨ databases_collide (w_tables again_open) (w_tables rewritten_open)).
Proof.
  destruct loads_again as (r & Hr), loads_rewritten as (r' & Hr'). exists r, r'.
  split; [exact Hr|]. split; [exact Hr'|].
  exact (rewritten_document_refused again_open rewritten_open id LocalKeyring (Some partition) _ _ _ _
    same_device same_secrets same_documents (demo_load_run _ _ Hr) (demo_load_run _ _ Hr')).
Defined.

(** The store opened by startup, and after the write. *)
Definition opened_store : StoreWorker :=
  set_verified (verify_current_state boot).2 (w_verified worker).
Definition written_store : StoreWorker :=
  (put_at LocalKeyring partition address (as_bytes "value") None EXPIRY 10 opened_store).2.
Definition reopened : StoreWorker := {|
  w_tables := w_tables written_store; w_device := w_device written_store;
  w_secrets := w_secrets written_store; w_verified := verified_default;
  w_verifying_key := w_verifying_key written_store; w_sealed := false;
  w_environment := quiet_environment; w_tick := 0 |}.
Lemma store_written : size (vs_documents (w_verified written_store)) = 1%nat.
Proof. vm_compute. reflexivity. Qed.

Lemma store_reached : rtc store_step opened_store written_store.
Proof.
  apply rtc_once.
  apply (step_put LocalKeyring partition address (as_bytes "value") None EXPIRY 10
    (put_at LocalKeyring partition address (as_bytes "value") None EXPIRY 10 opened_store).1).
  apply surjective_pairing.
Qed.

Lemma boot_runs : verify_current_state boot = (Ok (w_verified worker), (verify_current_state boot).2).
Proof. apply result_pair, boot_accepted. Qed.
Lemma reopened_tables : w_tables reopened = w_tables written_store.
Proof. unfold reopened. reflexivity. Qed.
Lemma reopened_device : w_device reopened = w_device written_store.
Proof. unfold reopened. reflexivity. Qed.
Lemma reopened_key : w_verifying_key reopened = w_verifying_key written_store.
Proof. unfold reopened. reflexivity. Qed.
Lemma reopened_quiet : w_environment reopened = quiet_environment.
Proof. unfold reopened. reflexivity. Qed.

Example vault_survives_restart_witness :
  (verify_current_state boot).1 = Ok (w_verified worker)
  ∧ size (vs_documents (w_verified written_store)) = 1%nat
  ∧ ∃ s', verify_current_state reopened = (Ok (w_verified written_store), s').
Proof.
  split; [exact boot_accepted|]. split; [exact store_written|].
  exact (vault_survives_restart fits boot (w_verified worker) (verify_current_state boot).2
    written_store reopened boot_runs demo_signer_signs store_reached reopened_tables
    reopened_device reopened_key reopened_quiet).
Defined.



Definition looping : StoreWorker := set_tables boot (set_commits tables {[ Value.Blob [] :=
  {| co_previous_commit_id := Value.Blob []; co_document_id := Value.Null;
     co_generation := Value.Null; co_record := Value.Null |} ]}).

Example chain_walk_terminates_witness :
  (walk_chain 2 {| cw_current := Some []; cw_documents := ∅; cw_visited := ∅; cw_count := 0 |}
     looping).1 = Err (VaultError.InvalidData "commit ID has the wrong size")
  ∧ walk_chain 7 {| cw_current := Some []; cw_documents := ∅; cw_visited := ∅; cw_count := 0 |} looping
    = walk_chain (S (size (t_commits (w_tables looping))))
        {| cw_current := Some []; cw_documents := ∅; cw_visited := ∅; cw_count := 0 |} looping.
Proof.
  split; [vm_compute; reflexivity|]. apply (chain_walk_terminates (Some []) 7 looping).
  apply Nat.leb_le. vm_compute. reflexivity.
Defined.

(** A group whose second change cannot be written. *)
Definition failing_group : document_group := GroupApply
  [DocumentOperation.Put address (as_bytes "value") None;
   DocumentOperation.Put address (as_bytes "other") None] context.
Lemma group_fails :
  (d ← document_new (vm_actor_id device) LocalKeyring partition;
   match run_group failing_group d with (Ok _, _) => Ok true | (Err _, _) => Ok false end)
  = Ok false.
Proof. vm_compute. reflexivity. Qed.

Example failed_group_undone_witness :
  ∃ d d' e, document_new (vm_actor_id device) LocalKeyring partition = Ok d
    ∧ run_group failing_group d = (Err e, d') ∧ undone d d'.
Proof.
  pose proof group_fails as Hf.
  destruct (document_new (vm_actor_id device) LocalKeyring partition) as [d|] eqn:Hn; [|discriminate Hf].
  cbn [mbind result_bind] in Hf.
  destruct (run_group failing_group d) as [[[]|e] d'] eqn:Hr; [discriminate Hf|].
  exists d, d', e. split; [reflexivity|]. split; [exact Hr|].
  apply (failed_group_undone failing_group d e d'); [|exact Hr].
  exact (proj1 (document_new_spec _ _ _ _ Hn)).
Defined.
End Witnesses.
