(* ===== verification/Generator.v ===== *)
(** The password generator (src/src/personal/generator.rs): options, random passwords by
    rejection sampling, and passphrases.  The source of random bytes is a parameter that
    may fail at any call; the loops that reject run on fuel. *)
From Stdlib Require Import ZArith Lia Bool.
From stdpp Require Import base gmap strings list numbers.
From S2P Require Import Prelude Text Chars Core Policy.

Definition LENGTHS : Z * Z := (8, 64).
Definition WORD_COUNTS : Z * Z := (12, 24).
Definition WORD_STEP : Z := 3.
Definition LOWERCASE : bytes := as_bytes "abcdefghijklmnopqrstuvwxyz".
Definition UPPERCASE : bytes := as_bytes "ABCDEFGHIJKLMNOPQRSTUVWXYZ".
Definition DIGITS : bytes := as_bytes "0123456789".
Definition SYMBOLS : bytes := as_bytes "!#$%&*+-=?@^_".

Module Style.
Inductive style : Set := Random | Words.
End Style.

Record Options : Set := {
  op_style : Style.style;
  op_length : Z;
  op_words : Z;
  op_digits : bool;
  op_symbols : bool
}.
Definition default_options : Options := {|
  op_style := Style.Words; op_length := 20; op_words := 12; op_digits := true;
  op_symbols := true |}.

Definition options_valid (o : Options) : bool :=
  in_span LENGTHS.1 LENGTHS.2 (op_length o) && in_span WORD_COUNTS.1 WORD_COUNTS.2 (op_words o)
  && ((op_words o - WORD_COUNTS.1) mod WORD_STEP =? 0).

(** The chosen kinds of characters. *)
Definition classes (o : Options) : list bytes :=
  [LOWERCASE; UPPERCASE] ++ (if op_digits o then [DIGITS] else [])
  ++ (if op_symbols o then [SYMBOLS] else []).
Definition alphabet (o : Options) : bytes := concat (classes o).

Module Strength.
Inductive strength : Set := Weak | Good | Strong.
End Strength.
Definition strength_of `{Zxcvbn} (password : bytes) : Strength.strength :=
  let score := password_score password in
  if in_span 0 2 score then Strength.Weak
  else if score =? 3 then Strength.Good else Strength.Strong.
Definition strength_level (s : Strength.strength) : Z :=
  match s with Strength.Weak => 1 | Strength.Good => 2 | Strength.Strong => 3 end.

Section Generate.
(** The bytes a call of [fill] writes, by the number of the call and the size of the
    buffer; the text of its error. *)
Context {Error : Type} (fill : nat → nat → result Error bytes).

(** A run from a call number: no result while the fuel is out, the first error, or a value;
    and the next call number. *)
Definition GM (A : Type) : Type := nat → option (result Error A * nat).

(** [uniform_index]: bytes that would bias the remainder are drawn again. *)
Fixpoint uniform_index (fuel count : nat) : GM nat := λ n,
  match fuel with
  | O => None
  | S fuel =>
      match fill n 1 with
      | Err e => Some (Err e, S n)
      | Ok buffer =>
          let value := N.to_nat (Byte.to_N (default Byte.x00 (head buffer))) in
          let limit := (256 - 256 mod count)%nat in
          if (value <? limit)%nat then Some (Ok (value mod count)%nat, S n)
          else uniform_index fuel count (S n)
      end
  end.

(** The characters of one attempt. *)
Fixpoint draw_characters (fuel : nat) (letters : bytes) (length : nat) : GM bytes := λ n,
  match length with
  | O => Some (Ok [], n)
  | S length =>
      match uniform_index fuel (List.length letters) n with
      | None => None
      | Some (Err e, n) => Some (Err e, n)
      | Some (Ok i, n) =>
          match draw_characters fuel letters length n with
          | Some (Ok rest, n) => Some (Ok (default Byte.x00 (letters !! i) :: rest), n)
          | r => r
          end
      end
  end.

(** Whether a password has a character of every class. *)
Definition covers (o : Options) (password : bytes) : bool :=
  forallb (λ class, existsb (λ b, bool_decide (b ∈ class)) password) (classes o).

(** [random_password]: attempts until one has every class. *)
Fixpoint random_password (fuel : nat) (o : Options) : GM bytes := λ n,
  match fuel with
  | O => None
  | S fuel =>
      match draw_characters (S fuel) (alphabet o) (Z.to_nat (op_length o)) n with
      | None => None
      | Some (Err e, n) => Some (Err e, n)
      | Some (Ok password, n) =>
          if covers o password then Some (Ok password, n) else random_password fuel o n
      end
  end.

(** The [bip39] crate: the words of an entropy, for the sizes it accepts. *)
Context (mnemonic_from_entropy : bytes → option bytes).

(** The bytes of entropy a passphrase of [words] uses. *)
Definition entropy_bytes (o : Options) : nat := Z.to_nat (op_words o * 4 / 3).

(** [generate_with]; [None] in the result is the panic of [expect]. *)
Definition generate_with (fuel : nat) (o : Options) : GM (option bytes) := λ n,
  match op_style o with
  | Style.Words =>
      match fill n (entropy_bytes o) with
      | Err e => Some (Err e, S n)
      | Ok entropy => Some (Ok (mnemonic_from_entropy entropy), S n)
      end
  | Style.Random =>
      match random_password fuel o n with
      | None => None
      | Some (Err e, n) => Some (Err e, n)
      | Some (Ok password, n) => Some (Ok (Some password), n)
      end
  end.

(** ** What is generated *)

Lemma uniform_index_bound fuel count n i n' :
  (0 < count)%nat → uniform_index fuel count n = Some (Ok i, n') → (i < count)%nat.
Proof.
  intros Hc. revert n. induction fuel as [|fuel IH]; intros n; cbn -[Nat.ltb Nat.modulo Nat.sub];
    [done|].
  destruct (fill n 1) as [buffer|]; [|done]. destruct (Nat.ltb _ _); [|apply IH].
  intros [= <- _]. apply Nat.mod_upper_bound. lia.
Qed.

Lemma draw_characters_in fuel letters len n p n' :
  letters ≠ [] → draw_characters fuel letters len n = Some (Ok p, n') →
  length p = len ∧ ∀ b, b ∈ p → b ∈ letters.
Proof.
  intros Hne. revert n p n'. induction len as [|len IH]; intros n p n'; cbn.
  - intros [= <- _]. split; [done|]. intros b Hb. by apply elem_of_nil in Hb.
  - destruct (uniform_index _ _ n) as [[[i|e] n1]|] eqn:Hi; try done.
    destruct (draw_characters fuel letters len n1) as [[[rest|e] n2]|] eqn:Hd; try done.
    intros [= <- _]. apply IH in Hd as [Hl Hin]. apply uniform_index_bound in Hi.
    + cbn. split; [congruence|]. intros b [->|Hb]%elem_of_cons; [|by apply Hin].
      apply lookup_lt_is_Some in Hi as [x Hx]. rewrite Hx. by eapply list_elem_of_lookup_2.
    + destruct letters; [done|cbn; lia].
Qed.

Lemma covers_spec o p :
  covers o p = true ↔ ∀ class, class ∈ classes o → ∃ b, b ∈ p ∧ b ∈ class.
Proof.
  unfold covers. rewrite forallb_forall. setoid_rewrite existsb_exists.
  setoid_rewrite bool_decide_eq_true. setoid_rewrite list_elem_of_In. done.
Qed.

Lemma random_password_ok fuel o n p n' :
  random_password fuel o n = Some (Ok p, n') →
  length p = Z.to_nat (op_length o) ∧ (∀ b, b ∈ p → b ∈ alphabet o)
  ∧ ∀ class, class ∈ classes o → ∃ b, b ∈ p ∧ b ∈ class.
Proof.
  revert n. induction fuel as [|fuel IH]; intros n; [done|].
  cbn -[draw_characters alphabet classes].
  destruct (draw_characters (S fuel) _ _ n) as [[[q|e] n1]|] eqn:Hd; try done.
  destruct (covers o q) eqn:Hc; [|apply IH]. intros [= -> ->].
  apply draw_characters_in in Hd as [? ?]; [|by unfold alphabet]. split_and!; [done..|]. by apply covers_spec.
Qed.

(** More fuel gives the same result. *)
Lemma uniform_index_fuel fuel fuel' count n r :
  uniform_index fuel count n = Some r → (fuel ≤ fuel')%nat → uniform_index fuel' count n = Some r.
Proof.
  revert fuel' n. induction fuel as [|fuel IH]; intros fuel' n; [done|].
  intros Hr Hle. destruct fuel' as [|fuel']; [lia|].
  cbn -[Nat.ltb Nat.modulo Nat.sub] in *. destruct (fill n 1); [|done].
  destruct (Nat.ltb _ _); [done|]. apply IH; [done|lia].
Qed.
Lemma draw_characters_fuel fuel fuel' letters len n r :
  draw_characters fuel letters len n = Some r → (fuel ≤ fuel')%nat →
  draw_characters fuel' letters len n = Some r.
Proof.
  revert n r. induction len as [|len IH]; intros n r Hr Hle; cbn in *; [done|].
  destruct (uniform_index fuel _ n) as [[[i|e] n1]|] eqn:Hi; [|..|done];
    rewrite (uniform_index_fuel _ _ _ _ _ Hi Hle); [|done].
  destruct (draw_characters fuel letters len n1) as [r'|] eqn:Hd; [|done].
  by rewrite (IH _ _ Hd Hle).
Qed.
Lemma random_password_fuel fuel fuel' o n r :
  random_password fuel o n = Some r → (fuel ≤ fuel')%nat → random_password fuel' o n = Some r.
Proof.
  revert fuel' n. induction fuel as [|fuel IH]; intros fuel' n Hr Hle; [done|].
  destruct fuel' as [|fuel']; [lia|]. cbn -[draw_characters alphabet classes] in *.
  destruct (draw_characters (S fuel) _ _ n) as [r'|] eqn:Hd; [|done].
  rewrite (draw_characters_fuel _ (S fuel') _ _ _ _ Hd) by lia.
  destruct r' as [[p|e] n1]; [|done]. destruct (covers o p); [done|]. apply IH; [done|lia].
Qed.
End Generate.

(** ** Uniformity *)

(** The index one draw of a byte value gives, when it is not rejected. *)
Definition draws (count i value : nat) : bool :=
  match uniform_index (Error:=Empty_set)
          (λ _ _, Ok [default Byte.x00 (Byte.of_N (N.of_nat value))]) 1 count 0%nat with
  | Some (Ok j, _) => (j =? i)%nat
  | _ => false
  end.

Lemma draws_iff count i v :
  (v < 256)%nat → draws count i v = true ↔ (v < 256 - 256 mod count ∧ v mod count = i)%nat.
Proof.
  intros Hv. unfold draws. cbn -[Nat.ltb Nat.modulo Nat.sub N.of_nat].
  assert (N.to_nat (Byte.to_N (default Byte.x00 (Byte.of_N (N.of_nat v)))) = v) as ->.
  { destruct (Byte.of_N (N.of_nat v)) as [b|] eqn:Hb; cbn -[N.of_nat].
    - apply Byte.to_of_N in Hb. lia.
    - apply Byte.of_N_None_iff in Hb. lia. }
  destruct (Nat.ltb_spec v (256 - 256 mod count)); rewrite ?Nat.eqb_eq; naive_solver lia.
Qed.

Lemma filter_block c i q :
  (i < c)%nat → length (filter (λ v, (v mod c)%nat = i) (seq (c * q) c)) = 1%nat.
Proof.
  intros Hi.
  assert (∀ v, (v < c)%nat → ((c * q + v) mod c = v)%nat) as Hmod.
  { intros v Hv. rewrite (Nat.mul_comm c q), Nat.add_comm, Nat.Div0.mod_add.
    by apply Nat.mod_small. }
  assert (∀ s n, (c * q ≤ s ∧ s + n ≤ c * q + c)%nat → (∀ v, (s ≤ v < s + n)%nat → v ≠ c * q + i)%nat →
    filter (λ v, (v mod c)%nat = i) (seq s n) = []) as Hnone.
  { intros s n Hs Hv. apply filter_none. intros v [? ?]%elem_of_seq <-. apply (Hv v); [lia|].
    pose proof (Hmod (v - c * q)%nat) as Hm.
    replace (c * q + (v - c * q))%nat with v in Hm by lia. lia. }
  replace (seq (c * q) c) with (seq (c * q) i ++ seq (c * q + i) (S (c - i - 1)))
    by (rewrite <- seq_app; f_equal; lia).
  rewrite list.filter_app. cbn [seq]. rewrite filter_cons_True by (apply Hmod; lia).
  by rewrite !Hnone by lia.
Qed.

Lemma filter_blocks c i q :
  (i < c)%nat → length (filter (λ v, (v mod c)%nat = i) (seq 0 (c * q))) = q.
Proof.
  intros Hi. induction q as [|q IH]; [by rewrite Nat.mul_0_r|].
  rewrite Nat.mul_succ_r, seq_app, list.filter_app, length_app, IH, Nat.add_0_l, filter_block by done. lia.
Qed.

(** One draw gives every index for the same number of the 256 byte values: the remainder a
    modulo would favour is rejected. *)
Theorem uniform_index_unbiased count i :
  (i < count ≤ 256)%nat → length (filter (draws count i) (seq 0 256)) = (256 / count)%nat.
Proof.
  intros Hi. set (q := (256 / count)%nat).
  pose proof (Nat.div_mod_eq 256 count) as Hd. fold q in Hd.
  replace (seq 0 256) with (seq 0 (count * q) ++ seq (count * q) (256 mod count))
    by (rewrite <- seq_app; f_equal; lia).
  rewrite list.filter_app, length_app, (filter_none _ (seq (count * q) _)).
  - rewrite Nat.add_0_r, (filter_ext_on _ (λ v, (v mod count)%nat = i));
      [apply filter_blocks; lia|].
    intros v [? ?]%elem_of_seq. rewrite Is_true_true, draws_iff; [|lia].
    naive_solver lia.
  - intros v [? ?]%elem_of_seq. rewrite Is_true_true, draws_iff; lia.
Qed.

(** The passphrases of valid options use an entropy size BIP-39 defines. *)
Lemma valid_entropy_bytes o :
  options_valid o = true → entropy_bytes o ∈ [16; 20; 24; 28; 32]%nat.
Proof.
  unfold options_valid, in_span, entropy_bytes. cbn -[Z.modulo Z.div].
  intros [[_ [Hl Hh]%andb_prop]%andb_prop Hm]%andb_prop. rewrite ?Z.leb_le in *. apply Z.eqb_eq in Hm.
  set (w := op_words o) in *. clearbody w.
  assert (w = 12 ∨ w = 15 ∨ w = 18 ∨ w = 21 ∨ w = 24) as Hw.
  { apply Z.mod_divide in Hm as [k Hk]; unfold WORD_STEP in *; lia. }
  rewrite !elem_of_cons. destruct Hw as [->|[->|[->|[->| ->]]]]; vm_compute; tauto.
Qed.
