(* ===== verification/Totp.v ===== *)
(** One-time passwords (src/src/personal/totp.rs): reading a key or an [otpauth] link, the
    code of a time, and the link as it is stored.  HMAC, base32 and percent decoding are
    third-party crates: classes of operations, with their documented behaviour apart. *)
From Stdlib Require Import ZArith Lia Bool.
From stdpp Require Import base numbers gmap strings list pretty.
From S2P Require Import Prelude Text Chars.

Module Algorithm.
Inductive algorithm : Set := Sha1 | Sha256 | Sha512.
End Algorithm.
#[export] Instance algorithm_eq_dec : EqDecision Algorithm.algorithm.
Proof. solve_decision. Defined.

(** ** The crates *)

(** [Hmac<Sha1>], [Hmac<Sha256>] and [Hmac<Sha512>]. *)
Class Hmac := hmac : Algorithm.algorithm → bytes → bytes → bytes.
Definition digest_size (a : Algorithm.algorithm) : nat :=
  match a with Algorithm.Sha1 => 20 | Algorithm.Sha256 => 32 | Algorithm.Sha512 => 64 end.
Class HmacOk `{Hmac} : Prop := hmac_size a k m : length (hmac a k m) = digest_size a.

(** [BASE32_NOPAD.decode]: only the 32 symbols decode, and nothing to nothing. *)
Class Base32 := base32_decode : bytes → option bytes.
Definition base32_symbol (b : Byte.byte) : bool :=
  in_span 65 90 (byte_Z b) || in_span 50 55 (byte_Z b).
Class Base32Ok `{Base32} : Prop := {
  base32_symbols s k : base32_decode s = Some k → Forall (λ b, base32_symbol b = true) s;
  base32_empty : base32_decode [] = Some []
}.

(** [percent_decode_str]: what has no percent sign is itself. *)
Class PercentDecode := percent_decode : bytes → bytes.
Class PercentDecodeOk `{PercentDecode} : Prop :=
  percent_decode_plain s : Byte.x25 ∉ s → percent_decode s = s.

(** ** Links *)

Definition SCHEME : bytes := as_bytes "otpauth://totp/".
Definition PARAMETERS : list bytes :=
  as_bytes <$> ["secret"; "issuer"; "algorithm"; "digits"; "period"].

(** [value.get(..n)]: none past the end or inside a character. *)
Definition get_prefix (n : nat) (s : bytes) : option bytes :=
  match s !! n with
  | None => if (length s =? n)%nat then Some s else None
  | Some b => if is_tail b then None else Some (take n s)
  end.

Definition link (value : bytes) : option bytes :=
  scheme ← get_prefix (length SCHEME) value;
  if eq_ignore_ascii_case scheme SCHEME then Some (drop (length SCHEME) value) else None.

(** [split_once] when the separator occurs. *)
Definition split_once_opt (c : Byte.byte) (s : bytes) : option (bytes * bytes) :=
  match split_once c s with (a, Some rest) => Some (a, rest) | (_, None) => None end.
Definition pairs (query : bytes) : list (bytes * bytes) :=
  omap (split_once_opt Byte.x3d) (str_split Byte.x26 query).

(** The uppercase symbols of a key, without spaces, hyphens and padding. *)
Definition base32 (key : bytes) : bytes :=
  ascii_upper (concat (snd <$> filter
    (λ c, is_whitespace c = false ∧ c.2 ∉ [[Byte.x2d]; [Byte.x3d]]) (str_chars key))).

(** ** Keys and codes *)

Record Totp : Set := {
  t_secret : bytes;
  t_algorithm : Algorithm.algorithm;
  t_digits : Z;
  t_period : Z
}.
#[export] Instance totp_eq_dec : EqDecision Totp.
Proof. solve_decision. Defined.
Definition default_totp : Totp := {|
  t_secret := []; t_algorithm := Algorithm.Sha1; t_digits := 6; t_period := 30 |}.
Definition set_secret (t : Totp) (s : bytes) : Totp := {|
  t_secret := s; t_algorithm := t_algorithm t; t_digits := t_digits t; t_period := t_period t |}.
Definition set_algorithm (t : Totp) (a : Algorithm.algorithm) : Totp := {|
  t_secret := t_secret t; t_algorithm := a; t_digits := t_digits t; t_period := t_period t |}.
Definition set_digits (t : Totp) (n : Z) : Totp := {|
  t_secret := t_secret t; t_algorithm := t_algorithm t; t_digits := n; t_period := t_period t |}.
Definition set_period (t : Totp) (n : Z) : Totp := {|
  t_secret := t_secret t; t_algorithm := t_algorithm t; t_digits := t_digits t; t_period := n |}.

Definition algorithm_named (name : bytes) : option Algorithm.algorithm :=
  if bool_decide (name = as_bytes "SHA1") then Some Algorithm.Sha1
  else if bool_decide (name = as_bytes "SHA256") then Some Algorithm.Sha256
  else if bool_decide (name = as_bytes "SHA512") then Some Algorithm.Sha512
  else None.

Section Totp.
Context `{Hmac, Base32, PercentDecode}.

Definition decoded (value : bytes) : option bytes :=
  let value := percent_decode value in
  if utf8_valid value then Some value else None.

(** The loop over the parameters of a link: the last one of a name counts, and one that
    cannot be read fails the link. *)
Fixpoint read_parameters (l : list (bytes * bytes)) (totp : Totp) (secret : option bytes)
    : option (Totp * option bytes) :=
  match l with
  | [] => Some (totp, secret)
  | (key, value) :: l =>
      if bool_decide (key = as_bytes "secret") then
        value ← decoded value; read_parameters l totp (Some value)
      else if bool_decide (key = as_bytes "algorithm") then
        value ← decoded value;
        algorithm ← algorithm_named (ascii_upper value);
        read_parameters l (set_algorithm totp algorithm) secret
      else if bool_decide (key = as_bytes "digits") then
        value ← decoded value;
        n ← parse_unsigned (2 ^ 32 - 1) value;
        read_parameters l (set_digits totp n) secret
      else if bool_decide (key = as_bytes "period") then
        value ← decoded value;
        n ← parse_unsigned (2 ^ 64 - 1) value;
        read_parameters l (set_period totp n) secret
      else read_parameters l totp secret
  end.

Definition parse (value : bytes) : option Totp :=
  let value := str_trim value in
  '(totp, secret) ←
    match link value with
    | Some link =>
        '(_, query) ← split_once_opt Byte.x3f link;
        '(totp, secret) ← read_parameters (pairs query) default_totp None;
        secret ← secret;
        Some (totp, secret)
    | None => Some (default_totp, value)
    end;
  key ← base32_decode (base32 secret);
  let totp := set_secret totp key in
  if negb (bool_decide (t_secret totp = [])) && in_span 6 8 (t_digits totp) && (0 <? t_period totp)
  then Some totp else None.

(** [None] is the panic of a division by zero. *)
Definition remaining (t : Totp) (now : Z) : option Z :=
  if t_period t =? 0 then None else Some (t_period t - now mod t_period t).

(** [10_u32.pow(digits)], which panics on overflow where overflow is checked. *)
Definition u32_pow10 (digits : Z) : option Z :=
  if 10 ^ digits <? 2 ^ 32 then Some (10 ^ digits) else None.
(** [{:0width$}]. *)
Definition format_zero (width : nat) (n : Z) : bytes :=
  if n <? 10 ^ Z.of_nat width then padded width n else as_bytes (pretty n).

(** [Totp::code]; [None] is a panic. *)
Definition totp_code (t : Totp) (now : Z) : option bytes :=
  if t_period t =? 0 then None
  else
    let counter := be_bytes 8 (now / t_period t) in
    let digest := hmac (t_algorithm t) (t_secret t) counter in
    last_byte ← last digest;
    let offset := Z.to_nat (Z.land (byte_Z last_byte) 15) in
    b0 ← digest !! offset;
    b1 ← digest !! (offset + 1)%nat;
    b2 ← digest !! (offset + 2)%nat;
    b3 ← digest !! (offset + 3)%nat;
    let binary := Z.land (byte_Z b0) 127 * 2 ^ 24 + byte_Z b1 * 2 ^ 16 + byte_Z b2 * 2 ^ 8
                  + byte_Z b3 in
    modulus ← u32_pow10 (t_digits t);
    Some (format_zero (Z.to_nat (t_digits t)) (binary mod modulus)).

Definition same_key (first second : bytes) : bool :=
  match parse first, parse second with
  | Some first, Some second => bool_decide (first = second)
  | _, _ => false
  end.

(** ** Storing *)

(** The parameters of a stored link: the first after [?], the others after [&]. *)
Fixpoint store_parameters (separator : Byte.byte) (l : list (bytes * bytes)) : option bytes :=
  match l with
  | [] => Some []
  | (key, value) :: l =>
      if bool_decide (key ∈ PARAMETERS) then
        value ← (if bool_decide (key = as_bytes "secret") then base32 <$> decoded value
                 else Some value);
        rest ← store_parameters Byte.x26 l;
        Some (separator :: key ++ Byte.x3d :: value ++ rest)
      else store_parameters separator l
  end.
Definition normalized (value : bytes) : option bytes :=
  let value := str_trim value in
  _ ← parse value;
  match link value with
  | None => Some (base32 value)
  | Some link =>
      '(label, query) ← split_once_opt Byte.x3f link;
      parameters ← store_parameters Byte.x3f (pairs query);
      Some (SCHEME ++ label ++ parameters)
  end.

Definition setup_link (text : bytes) : option bytes :=
  let text := str_trim text in
  _ ← link text; normalized text.
Definition stored (value : bytes) : option bytes :=
  if bool_decide (str_trim value = []) then Some [] else normalized value.

(** ** Whose key it is *)

Record Origin : Set := { or_issuer : option bytes; or_account : option bytes }.
Definition origin_present (text : option bytes) : option bytes :=
  text ← text;
  let text := str_trim text in
  if bool_decide (text = []) then None else Some text.
Definition totp_origin (value : bytes) : Origin :=
  match link value with
  | None => {| or_issuer := None; or_account := None |}
  | Some link =>
      let '(label, query) := default (link, []) (split_once_opt Byte.x3f link) in
      let label := default [] (decoded label) in
      let '(named, account) := match split_once_opt Byte.x3a label with
                               | Some (issuer, account) => (Some issuer, account)
                               | None => (None, label)
                               end in
      let issuer :=
        match pair ← find_first (λ p, bool_decide (p.1 = as_bytes "issuer")) (pairs query);
              decoded pair.2 with
        | Some issuer => Some issuer
        | None => named
        end in
      {| or_issuer := origin_present issuer; or_account := origin_present (Some account) |}
  end.

(** The two halves of a code; [None] is the panic of a cut inside a character. *)
Definition grouped (code : bytes) : option bytes :=
  let middle := Nat.div (length code + 1) 2 in
  first ← get_prefix middle code;
  Some (first ++ Byte.x20 :: drop middle code).
End Totp.

(** * The codes of a key exist at every time and change with its period only; a link that is
    stored makes the same codes. *)

Section Codes.
Context `{HmacOk, Base32, PercentDecode}.

(** ** Codes *)

Lemma parse_bounds v t :
  parse v = Some t → t_secret t ≠ [] ∧ 6 ≤ t_digits t ≤ 8 ∧ 0 < t_period t.
Proof.
  unfold parse. intros Hp.
  apply bind_Some in Hp as ([t0 secret] & _ & Hp). apply bind_Some in Hp as (key & _ & Hp).
  cbv zeta in Hp. set (t1 := set_secret t0 key) in *.
  destruct (_ && _ && _) eqn:Ht in Hp; [|done]. injection Hp as <-.
  unfold in_span in Ht. bool_prop. naive_solver lia.
Qed.

Lemma digest_byte a k m i :
  (i < 20)%nat → ∃ b, hmac a k m !! i = Some b.
Proof.
  intros Hi. apply lookup_lt_is_Some_2. rewrite hmac_size. destruct a; cbn; lia.
Qed.

Lemma u32_pow10_small d : 6 ≤ d ≤ 8 → u32_pow10 d = Some (10 ^ d).
Proof.
  intros Hd. unfold u32_pow10. assert (10 ^ d ≤ 10 ^ 8) by (apply Z.pow_le_mono_r; lia).
  by rewrite (proj2 (Z.ltb_lt _ _)) by lia.
Qed.

(** A key that was read has a code at every time, without a panic: as many decimal digits as
    it asks for, the same for a whole period; and the time that remains ends the period. *)
Theorem totp_code_always v t now :
  parse v = Some t →
  ∃ c r, totp_code t now = Some c ∧ remaining t now = Some r
    ∧ length c = Z.to_nat (t_digits t) ∧ Forall (λ b, is_digit b = true) c
    ∧ 1 ≤ r ≤ t_period t ∧ (now + r) mod t_period t = 0
    ∧ (∀ later, now ≤ later < now + r → totp_code t later = Some c).
Proof.
  intros (_ & Hd & Hp)%parse_bounds.
  assert (t_period t =? 0 = false) as Hz by (apply Z.eqb_neq; lia).
  pose proof (Z.mod_pos_bound now (t_period t) Hp) as Hm.
  pose proof (Z.div_mod now (t_period t) ltac:(lia)) as Hdm.
  set (r := t_period t - now mod t_period t).
  assert (∃ c, totp_code t now = Some c ∧ length c = Z.to_nat (t_digits t)
    ∧ Forall (λ b, is_digit b = true) c) as (c & Hc & Hlen & Hdig).
  { unfold totp_code. rewrite Hz, u32_pow10_small by done. cbv zeta.
    destruct (last (hmac _ _ _)) as [lb|] eqn:Hl.
    2: { apply last_None in Hl. apply (f_equal length) in Hl. rewrite hmac_size in Hl.
         by destruct (t_algorithm t). }
    cbn [mbind option_bind]. set (o := Z.to_nat (Z.land _ _)).
    assert (o < 16)%nat as Ho.
    { pose proof (Z.land_ones (byte_Z lb) 4 ltac:(lia)) as Hland. change (Z.ones 4) with 15 in Hland.
      pose proof (Z.mod_pos_bound (byte_Z lb) (2 ^ 4)). lia. }
        pose proof (digest_byte (t_algorithm t) (t_secret t) (be_bytes 8 (now / t_period t))) as Hb.
    destruct (Hb o ltac:(lia)) as [b0 ->], (Hb (o + 1)%nat ltac:(lia)) as [b1 ->],
      (Hb (o + 2)%nat ltac:(lia)) as [b2 ->], (Hb (o + 3)%nat ltac:(lia)) as [b3 ->].
    cbn [mbind option_bind]. eexists. split; [done|]. unfold format_zero.
    rewrite Z2Nat.id by lia.
    rewrite (proj2 (Z.ltb_lt _ _)) by (apply Z.mod_pos_bound; apply Z.pow_pos_nonneg; lia).
    split; [apply padded_length|apply padded_digits]. }
  exists c, r. split_and!; [done|unfold remaining; by rewrite Hz|done|done|lia|lia|..].
  - replace (now + r) with ((now / t_period t + 1) * t_period t) by lia. by apply Z.mod_mul; lia.
  - intros later Hl. rewrite <- Hc. unfold totp_code. rewrite Hz.
    assert (later / t_period t = now / t_period t) as ->; [|done].
    symmetry. apply (Z.div_unique later _ _ (later - t_period t * (now / t_period t))); lia.
Qed.

(** ** The uppercase symbols of a key *)

Lemma base32_symbol_facts b :
  base32_symbol b = true →
  byte_Z b < 128 ∧ is_whitespace (byte_Z b, [b]) = false ∧ byte_upper b = b
  ∧ b ∉ [Byte.x2d; Byte.x3d; Byte.x25; Byte.x26].
Proof.
  intros Hb.
  pose proof (byte_all (λ b, negb (base32_symbol b) || (byte_Z b <? 128)
    && negb (is_whitespace (byte_Z b, [b])) && bool_decide (byte_upper b = b)
    && bool_decide (b ∉ [Byte.x2d; Byte.x3d; Byte.x25; Byte.x26])) b) as Hall.
  cbv beta in Hall. rewrite Hb in Hall. cbn [negb orb] in Hall.
  specialize (Hall ltac:(by vm_compute)).
  apply andb_prop in Hall as [[[Hlt Hw]%andb_prop Hu]%andb_prop Hn].
  apply Z.ltb_lt in Hlt. apply negb_true_iff in Hw. apply bool_decide_eq_true in Hu, Hn. done.
Qed.

Lemma base32_id s : Forall (λ b, base32_symbol b = true) s → base32 s = s.
Proof.
  intros Hs. unfold base32. rewrite str_chars_ascii.
  2: { eapply Forall_impl; [exact Hs|]. intros b Hb%base32_symbol_facts. tauto. }
  induction Hs as [|b s Hb Hs IH]; [done|].
  apply base32_symbol_facts in Hb as (Hlt & Hw & Hu & Hn). cbn [fmap list_fmap].
  rewrite filter_cons_True.
  - cbn [fmap list_fmap concat snd app]. unfold ascii_upper in *. cbn [fmap list_fmap].
    by rewrite Hu, IH.
  - split; [done|]. cbn. rewrite !elem_of_cons, elem_of_nil.
    intros [[= ->]|[[= ->]|[]]]; apply Hn; by vm_compute; repeat constructor.
Qed.

Context `{!Base32Ok, !PercentDecodeOk}.

(** What a key is read from is upper-case symbols, which are read again as they are. *)
Lemma base32_idem s k :
  base32_decode (base32 s) = Some k → base32 (base32 s) = base32 s.
Proof. intros Hk%base32_symbols. by apply base32_id. Qed.

Lemma utf8_valid_ascii s : Forall (λ b, byte_Z b < 128) s → utf8_valid s = true.
Proof.
  induction 1 as [|b s Hb Hs IH]; [done|]. cbn [utf8_valid].
  unfold byte_between, byte_Z in *. by rewrite (proj2 (N.leb_le 0 _)), (proj2 (N.leb_le _ 127)) by lia.
Qed.

Lemma decoded_symbols s : Forall (λ b, base32_symbol b = true) s → decoded s = Some s.
Proof.
  intros Hs. unfold decoded. rewrite percent_decode_plain, utf8_valid_ascii; [done|..].
  - eapply Forall_impl; [exact Hs|]. intros b Hb%base32_symbol_facts. tauto.
  - intros Hin. rewrite Forall_forall in Hs. apply Hs, base32_symbol_facts in Hin as (_ & _ & _ & Hn).
    apply Hn. by vm_compute; repeat constructor.
Qed.

(** ** Reading what was stored *)

(** The parameters a stored link has, from those of the link it came from. *)
Definition stored_pair (p : bytes * bytes) : option (bytes * bytes) :=
  if bool_decide (p.1 ∈ PARAMETERS) then
    if bool_decide (p.1 = as_bytes "secret") then (λ v, (p.1, base32 v)) <$> decoded p.2
    else Some p
  else None.

(** Every secret of the link is a key. *)
Definition secrets_are_keys (l : list (bytes * bytes)) : Prop :=
  ∀ v, (as_bytes "secret", v) ∈ l →
    ∃ d k, decoded v = Some d ∧ base32_decode (base32 d) = Some k.

Definition secret_is_key (p : bytes * bytes) : bool :=
  negb (bool_decide (p.1 = as_bytes "secret"))
  || match decoded p.2 ≫= (λ d, base32_decode (base32 d)) with Some _ => true | None => false end.
Lemma secrets_are_keys_check l : forallb secret_is_key l = true → secrets_are_keys l.
Proof.
  rewrite forallb_Forall, Forall_forall. intros Hl v Hv. specialize (Hl _ Hv).
  unfold secret_is_key in Hl. cbn [fst snd] in Hl. rewrite bool_decide_eq_true_2 in Hl by done.
  cbn [negb orb] in Hl. destruct (decoded v) as [d|]; cbn [mbind option_bind] in Hl; [|done].
  destruct (base32_decode (base32 d)) as [k|] eqn:Hk; [|done]. by exists d, k.
Qed.

Lemma secrets_are_keys_cons p l : secrets_are_keys (p :: l) → secrets_are_keys l.
Proof. intros Hl v Hv. apply Hl. by right. Qed.

Lemma stored_secret v l :
  secrets_are_keys ((as_bytes "secret", v) :: l) →
  ∃ d, decoded v = Some d ∧ decoded (base32 d) = Some (base32 d) ∧ base32 (base32 d) = base32 d.
Proof.
  intros Hl. destruct (Hl v) as (d & k & Hd & Hk); [by left|].
  exists d. split_and!; [done|by apply decoded_symbols, (base32_symbols _ k)|by apply base32_idem in Hk].
Qed.

Lemma omap_cons_stored p l :
  omap stored_pair (p :: l) = match stored_pair p with
                              | Some q => q :: omap stored_pair l
                              | None => omap stored_pair l
                              end.
Proof. done. Qed.

Lemma read_stored l t s s' :
  secrets_are_keys l → base32 <$> s = base32 <$> s' →
  match read_parameters l t s with
  | Some (r, a) => ∃ b, read_parameters (omap stored_pair l) t s' = Some (r, b)
                        ∧ base32 <$> a = base32 <$> b
  | None => read_parameters (omap stored_pair l) t s' = None
  end.
Proof.
  revert t s s'. induction l as [|[k v] l IH]; intros t s s' Hl Hs; [by exists s'|].
  pose proof (secrets_are_keys_cons _ _ Hl) as Hl'.
  rewrite omap_cons_stored. cbn [read_parameters].
  destruct (decide (k = as_bytes "secret")) as [->|Hsec].
  { destruct (stored_secret v l Hl) as (d & Hd & Hdd & Hb).
    assert (stored_pair (as_bytes "secret", v) = Some (as_bytes "secret", base32 d)) as ->.
    { unfold stored_pair. cbn [fst snd]. by rewrite Hd. }
    cbn [read_parameters]. rewrite !bool_decide_eq_true_2, Hd, Hdd by done.
    cbn [mbind option_bind]. apply IH; [done|]. cbn. by rewrite Hb. }
  rewrite (bool_decide_eq_false_2 (k = as_bytes "secret")) by done.
  destruct (decide (k ∈ PARAMETERS)) as [Hp|Hp].
  - assert (stored_pair (k, v) = Some (k, v)) as ->.
    { unfold stored_pair. cbn [fst snd].
      by rewrite bool_decide_eq_true_2, bool_decide_eq_false_2 by done. }
    cbn [read_parameters]. rewrite (bool_decide_eq_false_2 (k = as_bytes "secret")) by done.
    destruct (bool_decide (k = as_bytes "algorithm")).
    { destruct (decoded v) as [d|]; cbn [mbind option_bind]; [|done].
      destruct (algorithm_named _); cbn [mbind option_bind]; [by apply IH|done]. }
    destruct (bool_decide (k = as_bytes "digits")).
    { destruct (decoded v) as [d|]; cbn [mbind option_bind]; [|done].
      destruct (parse_unsigned _ _); cbn [mbind option_bind]; [by apply IH|done]. }
    destruct (bool_decide (k = as_bytes "period")); [|by apply IH].
    destruct (decoded v) as [d|]; cbn [mbind option_bind]; [|done].
    destruct (parse_unsigned _ _); cbn [mbind option_bind]; [by apply IH|done].
  - assert (stored_pair (k, v) = None) as ->.
    { unfold stored_pair. cbn [fst snd]. by rewrite bool_decide_eq_false_2 by done. }
    assert (k ≠ as_bytes "algorithm" ∧ k ≠ as_bytes "digits" ∧ k ≠ as_bytes "period") as (? & ? & ?).
    { split_and!; intros ->; apply Hp; by vm_compute; repeat constructor. }
    rewrite !bool_decide_eq_false_2 by done. by apply IH.
Qed.

Definition parameter_text (p : bytes * bytes) : bytes := p.1 ++ Byte.x3d :: p.2.
Definition plain_pair (p : bytes * bytes) : Prop :=
  Byte.x3d ∉ p.1 ∧ Byte.x26 ∉ p.1 ∧ Byte.x26 ∉ p.2.

(** The visible characters of ASCII, of which a URI is made. *)
Definition visible (b : Byte.byte) : Prop := in_span 33 126 (byte_Z b) = true.

Lemma visible_not_edge b : visible b → space_edge b = false.
Proof.
  intros Hb. pose proof (byte_all (λ b, negb (in_span 33 126 (byte_Z b)) || negb (space_edge b)) b)
    as Hall. cbv beta in Hall. rewrite Hb in Hall. apply negb_true_iff, Hall. by vm_compute.
Qed.
Lemma symbols_visible s : Forall (λ b, base32_symbol b = true) s → Forall visible s.
Proof.
  intros Hs. eapply Forall_impl; [exact Hs|]. intros b. unfold base32_symbol, visible, in_span.
  intros Hb. bool_prop. lia.
Qed.
Lemma trim_visible s : Forall visible s → str_trim s = s.
Proof. intros Hs. apply str_trim_plain. eapply Forall_impl; [exact Hs|apply visible_not_edge]. Qed.

Definition visible_pair (p : bytes * bytes) : Prop :=
  plain_pair p ∧ Forall visible p.1 ∧ Forall visible p.2.

(** What is stored of a link is its known parameters, and reads back as them. *)
Lemma store_parameters_some sep l :
  visible sep → secrets_are_keys l → Forall visible_pair (omap stored_pair l) →
  ∃ s, store_parameters sep l = Some s ∧ Forall visible s
    ∧ match omap stored_pair l with
      | [] => s = []
      | _ => ∃ q, s = sep :: q ∧ str_split Byte.x26 q = parameter_text <$> omap stored_pair l
      end.
Proof.
  revert sep. induction l as [|[k v] l IH]; intros sep Hsep Hl Hp; [by exists []|].
  pose proof (secrets_are_keys_cons _ _ Hl) as Hl'.
  specialize (IH Byte.x26 ltac:(done)) as IH26.
  rewrite omap_cons_stored in *. cbn [store_parameters].
  destruct (decide (k ∈ PARAMETERS)) as [Hk|Hk].
  2: { assert (stored_pair (k, v) = None) as Hn.
       { unfold stored_pair. cbn [fst snd]. by rewrite bool_decide_eq_false_2. }
       rewrite Hn in *. rewrite bool_decide_eq_false_2 by done. by apply IH. }
  rewrite bool_decide_eq_true_2 by done.
  assert (∃ w, (if bool_decide (k = as_bytes "secret") then base32 <$> decoded v else Some v) = Some w
    ∧ stored_pair (k, v) = Some (k, w)) as (w & -> & Hw).
  { unfold stored_pair. cbn [fst snd]. rewrite (bool_decide_eq_true_2 (k ∈ PARAMETERS)) by done.
    case_bool_decide as Hsec; [|by eexists]. subst k.
    destruct (stored_secret v l Hl) as (d & -> & _). by eexists. }
  rewrite Hw in *. apply Forall_cons in Hp as [((_ & Hk1 & Hw1) & Hkv & Hwv) Hp].
  destruct (IH26 Hl' Hp) as (s & -> & Hv & Hs). cbn [mbind option_bind]. eexists. split; [done|].
  split; [constructor; [done|]; apply Forall_app; split; [done|]; constructor; [done|]; by apply Forall_app|].
  eexists. split; [done|].
  assert (Byte.x26 ∉ parameter_text (k, w)) as Hn.
  { unfold parameter_text. cbn [fst snd] in *. rewrite elem_of_app, elem_of_cons. naive_solver. }
  rewrite fmap_cons. replace (k ++ Byte.x3d :: w ++ s) with (parameter_text (k, w) ++ s)
    by (unfold parameter_text; by rewrite <- app_assoc).
  destruct (omap stored_pair l) as [|q l'].
  - subst s. rewrite app_nil_r. by apply str_split_last.
  - destruct Hs as (q' & -> & <-). by apply str_split_cons.
Qed.

Lemma pairs_of_texts l :
  Forall plain_pair l → omap (split_once_opt Byte.x3d) (parameter_text <$> l) = l.
Proof.
  induction 1 as [|[k v] l (Hk & _) Hl IH]; [done|].
  change (omap (split_once_opt Byte.x3d) (parameter_text <$> (k, v) :: l))
    with (match split_once_opt Byte.x3d (parameter_text (k, v)) with
          | Some q => q :: omap (split_once_opt Byte.x3d) (parameter_text <$> l)
          | None => omap (split_once_opt Byte.x3d) (parameter_text <$> l) end).
  unfold split_once_opt at 1. unfold parameter_text at 1. cbn [fst snd] in *.
  by rewrite split_once_app, IH.
Qed.

Lemma store_again sep l :
  secrets_are_keys l → store_parameters sep (omap stored_pair l) = store_parameters sep l.
Proof.
  revert sep. induction l as [|[k v] l IH]; intros sep Hl; [done|].
  pose proof (secrets_are_keys_cons _ _ Hl) as Hl'. rewrite omap_cons_stored.
  unfold stored_pair. cbn [fst snd store_parameters].
  destruct (decide (k ∈ PARAMETERS)) as [Hk|Hk].
  2: { rewrite !bool_decide_eq_false_2 by done. by apply IH. }
  rewrite !(bool_decide_eq_true_2 (k ∈ PARAMETERS)) by done.
  destruct (decide (k = as_bytes "secret")) as [->|Hs].
  - destruct (stored_secret v l Hl) as (d & Hd & Hdd & Hb).
    rewrite !bool_decide_eq_true_2, Hd by done. cbn [fmap option_fmap option_map store_parameters].
    rewrite !bool_decide_eq_true_2, Hdd by done. cbn [fmap option_fmap option_map]. by rewrite Hb, IH.
  - rewrite !bool_decide_eq_false_2 by done. cbn [store_parameters].
    rewrite bool_decide_eq_true_2, bool_decide_eq_false_2 by done. by rewrite IH.
Qed.

(** ** Stored links *)

(** The parameters of a link. *)
Definition link_parameters (value : bytes) : list (bytes * bytes) :=
  match link value ≫= split_once_opt Byte.x3f with Some (_, query) => pairs query | None => [] end.

Lemma split_once_opt_sound c s a r :
  split_once_opt c s = Some (a, r) → c ∉ a ∧ s = a ++ c :: r.
Proof.
  unfold split_once_opt. destruct (split_once c s) as [a' [r'|]] eqn:Hs; [|done].
  intros [= <- <-]. by apply split_once_sound in Hs.
Qed.
Lemma split_once_opt_app c a r : c ∉ a → split_once_opt c (a ++ c :: r) = Some (a, r).
Proof. intros Hc. unfold split_once_opt. by rewrite split_once_app. Qed.

Lemma pairs_visible q :
  Forall visible q → Forall visible_pair (pairs q).
Proof.
  intros Hq. unfold pairs. pose proof (str_split_pieces visible Byte.x26 q Hq) as Hp.
  rewrite Forall_forall in Hp. apply Forall_forall. intros [k v] Hin.
  apply list_elem_of_omap in Hin as (piece & Hpiece & Hs). apply Hp in Hpiece as [Hv Hn].
  apply split_once_opt_sound in Hs as [Hk ->]. unfold visible_pair, plain_pair. cbn [fst snd].
  apply Forall_app in Hv as [Hvk Hv]. apply Forall_cons in Hv as [_ Hv].
  rewrite elem_of_app, elem_of_cons in Hn. tauto.
Qed.

Lemma stored_pairs_visible l :
  secrets_are_keys l → Forall visible_pair l →
  Forall visible_pair (omap stored_pair l).
Proof.
  intros Hl Hp. rewrite Forall_forall in Hp. apply Forall_forall. intros p Hin.
  apply list_elem_of_omap in Hin as ([k v] & Hin & Hs). unfold stored_pair in Hs. cbn [fst snd] in Hs.
  pose proof (Hp _ Hin) as Hkv. case_bool_decide; [|done]. case_bool_decide as Hk; [|by injection Hs as <-].
  subst k. destruct (Hl v Hin) as (d & k & Hd & Hdk). rewrite Hd in Hs. injection Hs as <-.
  apply base32_symbols in Hdk. unfold visible_pair, plain_pair in *. cbn [fst snd] in *.
  split_and!; [by destruct Hkv as ((? & ? & ?) & ?)..| |by destruct Hkv as (? & ? & ?)|by apply symbols_visible].
  intros Hin'. rewrite Forall_forall in Hdk. apply Hdk, base32_symbol_facts in Hin' as (_ & _ & _ & Hn).
  apply Hn. by vm_compute; repeat constructor.
Qed.


Lemma link_scheme l : Forall visible l → link (SCHEME ++ l) = Some l.
Proof.
  intros Hl. unfold link, get_prefix. rewrite lookup_app_r by done. rewrite Nat.sub_diag.
  destruct l as [|b l]; [done|]. cbn [lookup list_lookup]. apply Forall_cons in Hl as [Hb _].
  assert (is_tail b = false) as ->.
  { unfold visible, is_tail, in_span in *. bool_prop. lia. }
  by rewrite take_app_length, drop_app_length.
Qed.

Lemma link_symbols s : Forall (λ b, base32_symbol b = true) s → link s = None.
Proof.
  intros Hs. destruct (link s) as [l|] eqn:Hl; [|done]. exfalso. unfold link in Hl.
  apply bind_Some in Hl as (p & Hp & Hl). case_match eqn:Heq; [|done].
  apply bool_decide_eq_true in Heq.
  assert (∀ b, b ∈ p → b ∈ s) as Hin.
  { unfold get_prefix in Hp. repeat case_match; simplify_eq; [|done]. intros c Hc.
    rewrite <- (take_drop (length SCHEME) s). apply elem_of_app. by left. }
  assert (Byte.x3a ∈ ascii_lower p) as Hc.
  { rewrite Heq. by vm_compute; repeat constructor. }
  apply list_elem_of_fmap in Hc as (b & Hb & Hbp%Hin).
  rewrite Forall_forall in Hs. apply Hs in Hbp.
  pose proof (byte_all (λ b, negb (base32_symbol b) || negb (bool_decide (Byte.x3a = byte_lower b))) b)
    as Hall. cbv beta in Hall. rewrite Hbp, bool_decide_eq_true_2 in Hall by done.
  by discriminate Hall; vm_compute.
Qed.

Lemma bare_key_normalized u t :
  str_trim u = u → link u = None → parse u = Some t →
  parse (base32 u) = Some t ∧ normalized u = Some (base32 u)
  ∧ normalized (base32 u) = Some (base32 u).
Proof.
  intros Hu Hl Hp. pose proof Hp as Hp'. unfold parse in Hp'. rewrite Hu, Hl in Hp'.
  cbn [mbind option_bind] in Hp'. apply bind_Some in Hp' as (k & Hk & Hp').
  pose proof (base32_symbols _ _ Hk) as Hs.
  pose proof (trim_visible _ (symbols_visible _ Hs)) as Htrim.
  assert (parse (base32 u) = Some t) as Hpb.
  { unfold parse. rewrite Htrim, link_symbols by done. cbn [mbind option_bind].
    by rewrite (base32_idem _ _ Hk), Hk. }
  split_and!; [done|..]; unfold normalized.
  - by rewrite Hu, Hp, Hl.
  - rewrite Htrim, Hpb, link_symbols by done. cbn. by rewrite (base32_idem _ _ Hk).
Qed.

Lemma link_normalized u l t :
  str_trim u = u → link u = Some l → Forall visible l → secrets_are_keys (link_parameters u) →
  parse u = Some t →
  ∃ s, normalized u = Some s ∧ parse s = Some t ∧ normalized s = Some s.
Proof.
  intros Hu Hl Hv Hk Hp. pose proof Hp as Hp'. unfold parse in Hp'.
  rewrite Hu, Hl in Hp'. unfold link_parameters in Hk. rewrite Hl in Hk.
  cbn [mbind option_bind] in Hk.
  apply bind_Some in Hp' as ([t0 secret] & Ht0 & Hp').
  apply bind_Some in Ht0 as ([label query] & Hq & Ht0). rewrite Hq in Hk.
  apply bind_Some in Ht0 as ([t1 a] & Hr & Ht0). apply bind_Some in Ht0 as (sec & -> & [= -> ->]).
  pose proof (split_once_opt_sound _ _ _ _ Hq) as [Hlabel ->].
  apply Forall_app in Hv as [Hvl [_ Hvq]%Forall_cons].
  pose proof (stored_pairs_visible _ Hk (pairs_visible _ Hvq)) as Hpairs.
  pose proof (read_stored (pairs query) default_totp None None Hk eq_refl) as Hread.
  rewrite Hr in Hread. destruct Hread as ([b|] & Hrb & Hb); [|done]. injection Hb as Hb.
  destruct (store_parameters_some Byte.x3f (pairs query)) as (s & Hs & Hvs & Hshape); [done..|].
  destruct (omap stored_pair (pairs query)) as [|p ps] eqn:Hps; [done|]. rewrite <- Hps in *.
  destruct Hshape as (q & -> & Hsplit).
  assert (pairs q = omap stored_pair (pairs query)) as Hpq.
  { unfold pairs at 1. rewrite Hsplit. apply pairs_of_texts.
    eapply Forall_impl; [exact Hpairs|]. by intros ? [? _]. }
  set (tail := label ++ Byte.x3f :: q).
  assert (Forall visible tail) as Hvt by by apply Forall_app.
  assert (str_trim (SCHEME ++ tail) = SCHEME ++ tail) as Htrim.
  { apply trim_visible, Forall_app. split; [by repeat constructor|done]. }
  assert (split_once_opt Byte.x3f tail = Some (label, q)) as Htail by by apply split_once_opt_app.
  assert (parse (SCHEME ++ tail) = Some t) as Hpt.
  { unfold parse. rewrite Htrim, link_scheme by done. cbn [mbind option_bind]. rewrite Htail.
    cbn [mbind option_bind]. rewrite Hpq, Hrb. cbn [mbind option_bind]. by rewrite <- Hb. }
  exists (SCHEME ++ tail). split_and!; [|done|]; unfold normalized.
  - rewrite Hu, Hp, Hl. cbn [mbind option_bind]. rewrite Hq. cbn [mbind option_bind]. by rewrite Hs.
  - rewrite Htrim, Hpt, link_scheme by done. cbn [mbind option_bind]. rewrite Htail.
    cbn [mbind option_bind]. by rewrite Hpq, store_again, Hs.
Qed.

(** C36: A bare key that makes codes is stored so that it makes the same codes, and what is stored
    is stored as it is.  So is a link that makes codes, when what follows its scheme is visible
    ASCII and each of its secrets, not only the last, is a key; without the latter what is stored
    may make none ([repeated_secret_breaks_stored_link]). *)
Theorem stored_key_makes_same_codes v t :
  parse v = Some t →
  (∀ l, link (str_trim v) = Some l →
    Forall visible l ∧ secrets_are_keys (link_parameters (str_trim v))) →
  ∃ s, stored v = Some s ∧ parse s = Some t ∧ stored s = Some s.
Proof.
  intros Hp Hlink. set (u := str_trim v) in *.
  assert (str_trim u = u) as Hu by apply str_trim_idem.
  assert (parse u = Some t) as Hpu.
  { unfold parse in Hp |- *. fold u in Hp. by rewrite Hu. }
  assert (∀ w, parse w = Some t → stored w = normalized w) as Hstored.
  { intros w Hpw. unfold stored. case_bool_decide as He; [|done]. exfalso.
    pose proof (parse_bounds _ _ Hpw) as [Hne _]. unfold parse in Hpw. rewrite He in Hpw.
    change (link []) with (@None bytes) in Hpw. cbn [mbind option_bind] in Hpw.
    change (base32 []) with (@nil Byte.byte) in Hpw. by rewrite base32_empty in Hpw. }
  rewrite (Hstored v Hp). assert (normalized v = normalized u) as ->.
  { unfold normalized. fold u. by rewrite Hu. }
  destruct (link u) as [l|] eqn:Hl.
  - destruct (Hlink l eq_refl) as [Hv Hk].
    destruct (link_normalized u l t) as (s & Hn & Hps & Hs); [done..|].
    exists s. by rewrite (Hstored s Hps).
  - destruct (bare_key_normalized u t) as (Hpb & Hn & Hs); [done..|].
    exists (base32 u). by rewrite (Hstored _ Hpb).
Qed.
End Codes.

(** * The theorems on one-time passwords at concrete keys and links, with a digest, a symbol
    decoder and a percent decoder that can be evaluated. *)

Local Instance demo_hmac : Hmac := λ a k m,
  (λ i, byte_of_Z (Z.of_nat i * 7 + Z.of_nat (length k) + byte_Z (default Byte.x00 (last m))))
    <$> seq 0 (digest_size a).
Local Instance demo_hmac_ok : HmacOk.
Proof. intros a k m. unfold hmac, demo_hmac. by rewrite length_fmap, length_seq. Qed.

(** Symbols stand for themselves. *)
Local Instance demo_base32 : Base32 := λ s, if forallb base32_symbol s then Some s else None.
Local Instance demo_base32_ok : Base32Ok.
Proof.
  split; [|done]. intros s k. unfold base32_decode, demo_base32.
  destruct (forallb _ s) eqn:Hs; [|done]. intros _. by apply forallb_Forall.
Qed.

Definition hex_value (b : Byte.byte) : option Z :=
  let n := byte_Z b in
  if in_span 48 57 n then Some (n - 48) else if in_span 65 70 n then Some (n - 55)
  else if in_span 97 102 n then Some (n - 87) else None.
Fixpoint demo_percent (fuel : nat) (s : bytes) : bytes :=
  match fuel, s with
  | S fuel, b :: s =>
      match s with
      | x :: y :: rest =>
          if bool_decide (b = Byte.x25) then
            match hex_value x, hex_value y with
            | Some x, Some y => byte_of_Z (x * 16 + y) :: demo_percent fuel rest
            | _, _ => b :: demo_percent fuel s
            end
          else b :: demo_percent fuel s
      | _ => b :: demo_percent fuel s
      end
  | _, _ => s
  end.
Local Instance demo_percent_decode : PercentDecode := λ s, demo_percent (length s) s.
Local Instance demo_percent_ok : PercentDecodeOk.
Proof.
  assert (∀ fuel s, Byte.x25 ∉ s → demo_percent fuel s = s) as Hd.
  { induction fuel as [|fuel IH]; intros [|b s] Hs; [done..|]. cbn.
    apply not_elem_of_cons in Hs as [Hb Hs]. rewrite IH by done.
    destruct s as [|x [|y rest]]; [done..|]. by rewrite bool_decide_eq_false_2 by done. }
  intros s Hs. by apply Hd.
Qed.

Definition demo_link : bytes := as_bytes
  " otpauth://TOTP/Example%20Co:alice?secret=gezd-gnbv&issuer=Co&image=x%2Fy&digits=8 ".

Lemma totp_code_always_witness :
  ∃ t, parse demo_link = Some t ∧ ∃ c r, totp_code t 59 = Some c ∧ remaining t 59 = Some r
    ∧ length c = 8%nat ∧ r = 1 ∧ totp_code t 30 = totp_code t 59.
Proof.
  destruct (parse demo_link) as [t|] eqn:Ht; [|by vm_compute in Ht].
  exists t. split; [done|].
  destruct (totp_code_always demo_link t 59 Ht) as (c & r & Hc & Hr & Hl & _).
  exists c, r. split_and!; [done|done|..].
  - vm_compute in Ht. injection Ht as <-. exact Hl.
  - vm_compute in Ht. injection Ht as <-. vm_compute in Hr. by injection Hr.
  - vm_compute in Ht. injection Ht as <-. by vm_compute.
Defined.

Lemma stored_key_makes_same_codes_witness :
  ∃ t s, parse demo_link = Some t ∧ stored demo_link = Some s ∧ parse s = Some t
    ∧ stored s = Some s
    ∧ s = as_bytes "otpauth://totp/Example%20Co:alice?secret=GEZDGNBV&issuer=Co&digits=8".
Proof.
  destruct (parse demo_link) as [t|] eqn:Ht; [|by vm_compute in Ht].
  destruct (stored_key_makes_same_codes demo_link t Ht) as (s & Hs & Hp & Hss).
  - intros l Hl. vm_compute in Hl. injection Hl as <-. split; [by repeat constructor|].
    apply secrets_are_keys_check. by vm_compute.
  - exists t, s. split_and!; [done..|]. vm_compute in Hs. by injection Hs.
Defined.

(** An earlier secret that is not a key breaks what is stored: its text is decoded twice. *)
Example repeated_secret_breaks_stored_link :
  let v := as_bytes "otpauth://totp/x?secret=%25FF&secret=GEZDGNBV" in
  let s := as_bytes "otpauth://totp/x?secret=%FF&secret=GEZDGNBV" in
  bool_decide (is_Some (parse v)) = true ∧ stored v = Some s ∧ parse s = None.
Proof. split_and!; vm_compute; reflexivity. Qed.
