(* ===== verification/Personal.v ===== *)
(** Personal items (src/src/personal.rs): the JSON values of fields, the item and its
    fields, the forms of every kind, validation, the storage encoding, and the operations
    on logins and one-time passwords.  [serde_json] is the class [Serde]; the identifier a
    new item draws is an argument. *)
From Stdlib Require Import ZArith Lia Bool.
From stdpp Require Import base numbers gmap strings list pretty.
From S2P Require Import Prelude Text Chars Core Website Totp.

(** ** JSON values *)

(** [serde_json::Number]: an integer, or a floating number by its bits. *)
Inductive JsonNumber : Set :=
| Integer (n : Z)
| Float (bits : Z).
(** [serde_json::Value]; the members of an object are in the order of their keys. *)
Inductive Json : Set :=
| JNull
| JBool (b : bool)
| JNumber (n : JsonNumber)
| JString (s : string)
| JArray (values : list Json)
| JObject (members : list (string * Json)).

#[export] Instance json_number_eq_dec : EqDecision JsonNumber.
Proof. solve_decision. Defined.
#[export] Instance json_eq_dec : EqDecision Json.
Proof.
  refine (fix go (x y : Json) : Decision (x = y) :=
    match x, y with
    | JNull, JNull => left eq_refl
    | JBool a, JBool b => cast_if (decide (a = b))
    | JNumber a, JNumber b => cast_if (decide (a = b))
    | JString a, JString b => cast_if (decide (a = b))
    | JArray a, JArray b =>
        cast_if (@decide (a = b) ((fix all (l k : list Json) : Decision (l = k) :=
          match l, k with
          | [], [] => left eq_refl
          | p :: l, q :: k => cast_if_and (@decide (p = q) (go p q)) (@decide (l = k) (all l k))
          | _, _ => right _
          end) a b))
    | JObject a, JObject b =>
        cast_if (@decide (a = b) ((fix all (l k : list (string * Json)) : Decision (l = k) :=
          match l, k with
          | [], [] => left eq_refl
          | (i, p) :: l, (j, q) :: k =>
              cast_if_and3 (decide (i = j)) (@decide (p = q) (go p q)) (@decide (l = k) (all l k))
          | _, _ => right _
          end) a b))
    | _, _ => right _
    end); clear go; try clear all; abstract congruence.
Defined.

Definition json_str (v : Json) : option string := match v with JString s => Some s | _ => None end.
Definition is_string (v : Json) : bool := match v with JString _ => true | _ => false end.
Definition is_number (v : Json) : bool := match v with JNumber _ => true | _ => false end.
Definition is_boolean (v : Json) : bool := match v with JBool _ => true | _ => false end.
(** [Value::as_u64] and [get] of a key. *)
Definition json_u64 (v : Json) : option Z :=
  match v with JNumber (Integer n) => if in_span 0 U64_MAX n then Some n else None | _ => None end.
Definition json_get (key : string) (v : Json) : option Json :=
  match v with
  | JObject members => snd <$> find_first (λ m, String.eqb m.1 key) members
  | _ => None
  end.

(** ** Fields *)

Module FieldType.
Inductive field_type : Set :=
| Text | Concealed | Url | Email | Phone | Date | MonthYear | Totp | Multiline | Boolean
| CardNumber | SshKey | Address | Reference
| Unknown (name : string).
End FieldType.
#[export] Instance field_type_eq_dec : EqDecision FieldType.field_type.
Proof. solve_decision. Defined.

(** [PersonalFieldType::label], [concealed]. *)
Definition field_type_label (t : FieldType.field_type) : string :=
  match t with
  | FieldType.Text => "Text"
  | FieldType.Concealed => "Password"
  | FieldType.Url => "Website"
  | FieldType.Email => "Email"
  | FieldType.Phone => "Phone"
  | FieldType.Date => "Date"
  | FieldType.MonthYear => "Month and year"
  | FieldType.Totp => "One-time password"
  | FieldType.Multiline => "Multiline text"
  | FieldType.Boolean => "Boolean"
  | FieldType.CardNumber => "Card number"
  | FieldType.SshKey => "SSH key"
  | FieldType.Address => "Address"
  | FieldType.Reference => "Reference"
  | FieldType.Unknown _ => "Imported field"
  end.
Definition type_concealed (t : FieldType.field_type) : bool :=
  match t with
  | FieldType.Concealed | FieldType.Totp | FieldType.CardNumber | FieldType.SshKey
  | FieldType.Unknown _ => true
  | _ => false
  end.

Record PersonalField : Set := {
  pf_id : string;
  pf_label : string;
  pf_type : FieldType.field_type;
  pf_concealed : bool;
  pf_value : Json
}.
#[export] Instance personal_field_eq_dec : EqDecision PersonalField.
Proof. solve_decision. Defined.
(** [PersonalField::new], [text], [is_concealed]. *)
Definition field_new (id label : string) (t : FieldType.field_type) (value : Json) : PersonalField := {|
  pf_id := id; pf_label := label; pf_type := t; pf_concealed := type_concealed t;
  pf_value := value |}.
Definition field_text (f : PersonalField) : option string := json_str (pf_value f).
Definition is_concealed (f : PersonalField) : bool := pf_concealed f || type_concealed (pf_type f).
Definition set_value (f : PersonalField) (v : Json) : PersonalField := {|
  pf_id := pf_id f; pf_label := pf_label f; pf_type := pf_type f;
  pf_concealed := pf_concealed f; pf_value := v |}.

Record PersonalSection : Set := {
  ps_section_id : string;
  ps_label : string;
  ps_fields : list PersonalField
}.
#[export] Instance personal_section_eq_dec : EqDecision PersonalSection.
Proof. solve_decision. Defined.
Definition set_fields (s : PersonalSection) (l : list PersonalField) : PersonalSection := {|
  ps_section_id := ps_section_id s; ps_label := ps_label s; ps_fields := l |}.

(** ** Items *)

Module Kind.
Inductive kind : Set :=
| Login | SecureNote | Card | Identity | SshKey | ApiCredential | Passport | BankAccount
| Document | Generic.
End Kind.
#[export] Instance kind_eq_dec : EqDecision Kind.kind.
Proof. solve_decision. Defined.
(** [PersonalSecretKind::label]. *)
Definition kind_label (k : Kind.kind) : string :=
  match k with
  | Kind.Login => "Login"
  | Kind.SecureNote => "Secure note"
  | Kind.Card => "Card"
  | Kind.Identity => "Identity"
  | Kind.SshKey => "SSH key"
  | Kind.ApiCredential => "API credential"
  | Kind.Passport => "Passport"
  | Kind.BankAccount => "Bank account"
  | Kind.Document => "Document"
  | Kind.Generic => "Other"
  end.

Definition PERSONAL_FORMAT : string := "factorseal-personal-secret".
Definition CUSTOM_SECTION : string := "custom".
Definition CUSTOM_SECTION_LABEL : string := "Custom fields".

Record PersonalSecret : Set := {
  it_format : string;
  it_version : Z;
  it_id : string;
  it_kind : Kind.kind;
  it_title : string;
  it_sections : list PersonalSection;
  it_notes : option string;
  it_folder : option string;
  it_tags : list string;
  it_favorite : bool;
  it_archived : bool;
  it_source : option Json
}.
#[export] Instance personal_secret_eq_dec : EqDecision PersonalSecret.
Proof. solve_decision. Defined.
Definition set_sections (i : PersonalSecret) (l : list PersonalSection) : PersonalSecret := {|
  it_format := it_format i; it_version := it_version i; it_id := it_id i; it_kind := it_kind i;
  it_title := it_title i; it_sections := l; it_notes := it_notes i; it_folder := it_folder i;
  it_tags := it_tags i; it_favorite := it_favorite i; it_archived := it_archived i;
  it_source := it_source i |}.

(** [PersonalSecret::new]; [uuid] is the identifier it draws. *)
Definition secret_new (uuid : string) (kind : Kind.kind) (title : string) : PersonalSecret := {|
  it_format := PERSONAL_FORMAT; it_version := 2; it_id := uuid; it_kind := kind;
  it_title := title; it_sections := []; it_notes := None; it_folder := None; it_tags := [];
  it_favorite := false; it_archived := false; it_source := None |}.

Definition section_id (kind : Kind.kind) : string :=
  match kind with
  | Kind.Login | Kind.Generic => "account"
  | Kind.Card => "card"
  | Kind.Identity => "identity"
  | _ => "details"
  end.

(** ** Forms *)

Abbreviation TemplateField := (string * string * FieldType.field_type)%type.
Definition template_fields (kind : Kind.kind) : list TemplateField :=
  match kind with
  | Kind.Login =>
      [("username", "Username", FieldType.Text);
       ("password", "Password", FieldType.Concealed);
       ("url-0", "Website", FieldType.Url);
       ("totp", "One-time password", FieldType.Totp)]
  | Kind.SecureNote => [("note", "Note", FieldType.Multiline)]
  | Kind.Card =>
      [("cardholderName", "Cardholder", FieldType.Text);
       ("number", "Card number", FieldType.CardNumber);
       ("expMonth", "Expiry month", FieldType.Text);
       ("expYear", "Expiry year", FieldType.Text);
       ("code", "Security code", FieldType.Concealed)]
  | Kind.Identity =>
      [("firstName", "First name", FieldType.Text);
       ("lastName", "Last name", FieldType.Text);
       ("email", "Email", FieldType.Email);
       ("phone", "Phone", FieldType.Phone)]
  | Kind.SshKey =>
      [("private-key", "Private key", FieldType.SshKey);
       ("public-key", "Public key", FieldType.Multiline);
       ("passphrase", "Passphrase", FieldType.Concealed)]
  | Kind.ApiCredential =>
      [("username", "Account", FieldType.Text);
       ("token", "Token", FieldType.Concealed);
       ("url", "Endpoint", FieldType.Url)]
  | Kind.Passport =>
      [("name", "Full name", FieldType.Text);
       ("number", "Passport number", FieldType.Concealed);
       ("country", "Issuing country", FieldType.Text);
       ("expiry", "Expiry date", FieldType.Date)]
  | Kind.BankAccount =>
      [("bank", "Bank", FieldType.Text);
       ("account", "Account number", FieldType.Concealed);
       ("routing", "Routing number", FieldType.Text);
       ("iban", "IBAN", FieldType.Concealed)]
  | Kind.Document => [("description", "Description", FieldType.Multiline)]
  | Kind.Generic => [("password", "Secret value", FieldType.Concealed)]
  end.
Definition empty_field (f : TemplateField) : PersonalField :=
  field_new f.1.1 f.1.2 f.2 (JString "").

(** [PersonalSecret::template], [generic], [login]. *)
Definition template (uuid : string) (kind : Kind.kind) (title : string) : PersonalSecret :=
  set_sections (secret_new uuid kind title)
    [{| ps_section_id := section_id kind; ps_label := kind_label kind;
        ps_fields := empty_field <$> template_fields kind |}].
(** A change of every field of an item. *)
Definition map_fields (f : PersonalField → PersonalField) (i : PersonalSecret) : PersonalSecret :=
  set_sections i ((λ s, set_fields s (f <$> ps_fields s)) <$> it_sections i).
(** [item.sections[0].fields[0].value = value]; [None] is the panic of an index. *)
Definition set_first_value (v : Json) (i : PersonalSecret) : option PersonalSecret :=
  match it_sections i with
  | s :: sections =>
      match ps_fields s with
      | f :: fields => Some (set_sections i (set_fields s (set_value f v :: fields) :: sections))
      | [] => None
      end
  | [] => None
  end.
Definition generic (uuid title value : string) : option PersonalSecret :=
  set_first_value (JString value) (template uuid Kind.Generic title).
Definition login (uuid title website username : string) : option PersonalSecret :=
  let item := template uuid Kind.Login title in
  match it_sections item with
  | s :: sections =>
      let fill f :=
        if String.eqb (pf_id f) "username" then set_value f (JString username)
        else if String.eqb (pf_id f) "url-0" then set_value f (JString website)
        else f in
      Some (set_sections item (set_fields s (fill <$> ps_fields s) :: sections))
  | [] => None
  end.

(** The sections of the forms for new items (src/src/personal/templates.rs). *)
Definition new_item_sections (kind : Kind.kind) : list (string * string * list TemplateField) :=
  match kind with
  | Kind.Login =>
      [("account", "Login",
         [("username", "Username", FieldType.Text);
          ("password", "Password", FieldType.Concealed);
          ("url-0", "Website", FieldType.Url);
          ("totp", "One-time password", FieldType.Totp)]);
       ("notes", "Notes",
         [("notes", "Notes", FieldType.Multiline)])]
  | Kind.SecureNote =>
      [("notes", "Notes",
         [("notes", "Notes", FieldType.Multiline)])]
  | Kind.Card =>
      [("card", "Card",
         [("cardholderName", "Cardholder", FieldType.Text);
          ("type", "Type", FieldType.Text);
          ("number", "Card number", FieldType.CardNumber);
          ("code", "Security code", FieldType.Concealed);
          ("expiry", "Expiry date", FieldType.MonthYear);
          ("validFrom", "Valid from", FieldType.MonthYear)]);
       ("contactInfo", "Contact Information",
         [("bank", "Issuing bank", FieldType.Text);
          ("phoneLocal", "Phone (local)", FieldType.Phone);
          ("phoneTollFree", "Phone (toll free)", FieldType.Phone);
          ("phoneIntl", "Phone (intl)", FieldType.Phone);
          ("website", "Website", FieldType.Url)]);
       ("details", "Additional Details",
         [("pin", "PIN", FieldType.Concealed);
          ("creditLimit", "Credit limit", FieldType.Text);
          ("cashLimit", "Cash withdrawal limit", FieldType.Text);
          ("interest", "Interest rate", FieldType.Text);
          ("issuenumber", "Issue number", FieldType.Text)]);
       ("notes", "Notes",
         [("notes", "Notes", FieldType.Multiline)])]
  | Kind.Identity =>
      [("name", "Identification",
         [("firstName", "First name", FieldType.Text);
          ("initial", "Initial", FieldType.Text);
          ("lastName", "Last name", FieldType.Text);
          ("gender", "Gender", FieldType.Text);
          ("birthdate", "Birth date", FieldType.Date);
          ("occupation", "Occupation", FieldType.Text);
          ("company", "Company", FieldType.Text);
          ("department", "Department", FieldType.Text);
          ("jobtitle", "Job title", FieldType.Text)]);
       ("address", "Address",
         [("address", "Address", FieldType.Address);
          ("defphone", "Default phone", FieldType.Phone);
          ("homephone", "Home", FieldType.Phone);
          ("cellphone", "Cell", FieldType.Phone);
          ("busphone", "Business", FieldType.Phone)]);
       ("internet", "Internet Details",
         [("username", "Username", FieldType.Text);
          ("reminderq", "Reminder question", FieldType.Text);
          ("remindera", "Reminder answer", FieldType.Text);
          ("email", "Email", FieldType.Email);
          ("website", "Website", FieldType.Text);
          ("icq", "ICQ", FieldType.Text);
          ("skype", "Skype", FieldType.Text);
          ("aim", "AOL/AIM", FieldType.Text);
          ("yahoo", "Yahoo", FieldType.Text);
          ("msn", "MSN", FieldType.Text);
          ("forumsig", "Forum signature", FieldType.Text)]);
       ("notes", "Notes",
         [("notes", "Notes", FieldType.Multiline)])]
  | Kind.SshKey =>
      [("ssh_key", "SSH key",
         [("private-key", "Private key", FieldType.SshKey)]);
       ("notes", "Notes",
         [("notes", "Notes", FieldType.Multiline)])]
  | Kind.ApiCredential =>
      [("api_credential", "API credential",
         [("username", "Username", FieldType.Text);
          ("credential", "Credential", FieldType.Concealed);
          ("type", "Type", FieldType.Text);
          ("filename", "Filename", FieldType.Text);
          ("validFrom", "Valid from", FieldType.Date);
          ("expires", "Expires", FieldType.Date);
          ("hostname", "Hostname", FieldType.Text)]);
       ("notes", "Notes",
         [("notes", "Notes", FieldType.Multiline)])]
  | Kind.Passport =>
      [("passport", "Passport",
         [("type", "Type", FieldType.Text);
          ("issuing_country", "Issuing country", FieldType.Text);
          ("number", "Number", FieldType.Concealed);
          ("fullname", "Full name", FieldType.Text);
          ("gender", "Gender", FieldType.Text);
          ("nationality", "Nationality", FieldType.Text);
          ("issuing_authority", "Issuing authority", FieldType.Text);
          ("birthdate", "Date of birth", FieldType.Date);
          ("birthplace", "Place of birth", FieldType.Text);
          ("issue_date", "Issued on", FieldType.Date);
          ("expiry_date", "Expiry date", FieldType.Date)]);
       ("notes", "Notes",
         [("notes", "Notes", FieldType.Multiline)])]
  | Kind.BankAccount =>
      [("bank_account", "Bank account",
         [("bankName", "Bank name", FieldType.Text);
          ("owner", "Name on account", FieldType.Text);
          ("accountType", "Type", FieldType.Text);
          ("routingNo", "Routing number", FieldType.Text);
          ("accountNo", "Account number", FieldType.Concealed);
          ("swift", "SWIFT", FieldType.Text);
          ("iban", "IBAN", FieldType.Concealed);
          ("telephonePin", "PIN", FieldType.Concealed)]);
       ("branchInfo", "Branch Information",
         [("branchPhone", "Phone", FieldType.Phone);
          ("branchAddress", "Address", FieldType.Text)]);
       ("notes", "Notes",
         [("notes", "Notes", FieldType.Multiline)])]
  | Kind.Generic | Kind.Document => []
  end.
Definition new_item (uuid : string) (kind : Kind.kind) : PersonalSecret :=
  match kind with
  | Kind.Generic | Kind.Document => template uuid kind ""
  | _ =>
      set_sections (secret_new uuid kind "")
        ((λ s, {| ps_section_id := s.1.1; ps_label := s.1.2; ps_fields := empty_field <$> s.2 |})
           <$> new_item_sections kind)
  end.

(** ** Logins *)

Definition all_fields (i : PersonalSecret) : list PersonalField := it_sections i ≫= ps_fields.

Definition set_password (password : string) (i : PersonalSecret) : PersonalSecret :=
  map_fields (λ f, if String.eqb (pf_id f) "password" then set_value f (JString password) else f) i.

Definition username (i : PersonalSecret) : option string :=
  f ← find_first (λ f, String.eqb (pf_id f) "username") (all_fields i);
  if is_concealed f then None
  else
    name ← field_text f;
    if String.eqb name "" then None else Some name.

Definition first_some {A B} (f : A → option B) (l : list A) : option B := head (omap f l).
Definition website_host (i : PersonalSecret) : option string :=
  first_some (λ f,
      if bool_decide (pf_type f = FieldType.Url) && negb (pf_concealed f) then
        text ← field_text f; of_bytes <$> host (as_bytes text)
      else None)
    (all_fields i).

Definition only_text (id : string) (i : PersonalSecret) : option string :=
  match filter (λ f, pf_id f = id) (all_fields i) with
  | [f] => field_text f
  | _ => None
  end.
Definition login_credentials (i : PersonalSecret) : option (string * string) :=
  name ← only_text "username" i;
  password ← only_text "password" i;
  Some (name, password).
Definition is_fillable_login (i : PersonalSecret) : bool :=
  bool_decide (it_kind i = Kind.Login) && negb (it_archived i)
  && bool_decide (is_Some (login_credentials i)).
Definition is_login_for `{UrlCrate} (site : string) (i : PersonalSecret) : bool :=
  is_fillable_login i
  && existsb (λ f, bool_decide (pf_type f = FieldType.Url)
                   && match field_text f with
                      | Some text => bool_decide (Website.origin (as_bytes text) = Some (as_bytes site))
                      | None => false
                      end)
       (all_fields i).

(** ** One-time passwords *)

Definition is_totp (f : PersonalField) : bool := bool_decide (pf_type f = FieldType.Totp).
Definition one_time_password (i : PersonalSecret) : option string :=
  find_first is_totp (all_fields i) ≫= field_text.

(** Change the first element a test accepts; [None] when there is none. *)
Fixpoint update_first {A} (p : A → bool) (f : A → A) (l : list A) : option (list A) :=
  match l with
  | [] => None
  | x :: l => if p x then Some (f x :: l) else cons x <$> update_first p f l
  end.
(** The first field of all sections that a test accepts. *)
Fixpoint update_first_field (p : PersonalField → bool) (f : PersonalField → PersonalField)
    (l : list PersonalSection) : option (list PersonalSection) :=
  match l with
  | [] => None
  | s :: l =>
      match update_first p f (ps_fields s) with
      | Some fields => Some (set_fields s fields :: l)
      | None => cons s <$> update_first_field p f l
      end
  end.

Definition custom_id (n : nat) : string := "custom-" +:+ pretty n.
(** An identifier no field has, among one more than there are fields. *)
Definition unused_custom_id (i : PersonalSecret) : string :=
  default "" (find_first (λ id, negb (existsb (λ f, String.eqb (pf_id f) id) (all_fields i)))
                (custom_id <$> seq 0 (S (length (all_fields i))))).

Definition set_one_time_password (link : string) (i : PersonalSecret) : PersonalSecret :=
  match update_first_field is_totp (λ f, set_value f (JString link)) (it_sections i) with
  | Some sections => set_sections i sections
  | None =>
      let field := field_new (unused_custom_id i) (field_type_label FieldType.Totp)
                     FieldType.Totp (JString link) in
      set_sections i
        (match update_first (λ s, String.eqb (ps_section_id s) CUSTOM_SECTION)
                 (λ s, set_fields s (ps_fields s ++ [field])) (it_sections i) with
         | Some sections => sections
         | None => it_sections i ++ [{| ps_section_id := CUSTOM_SECTION;
                                        ps_label := CUSTOM_SECTION_LABEL; ps_fields := [field] |}]
         end)
  end.

(** ** Validation *)

(** [anyhow::Result]: the error is its text. *)
Abbreviation AnyResult := (result string).

Definition value_matches (f : PersonalField) : bool :=
  match pf_type f with
  | FieldType.Unknown _ | FieldType.SshKey | FieldType.Email | FieldType.Address
  | FieldType.Reference => true
  | FieldType.Boolean =>
      is_boolean (pf_value f)
      || bool_decide (field_text f ∈ Some <$> ["true"; "false"; ""])
  | FieldType.Date | FieldType.MonthYear => is_string (pf_value f) || is_number (pf_value f)
  | _ => is_string (pf_value f)
  end.

(** The two loops, with the identifiers seen so far. *)
Fixpoint validate_item_fields (seen : list string) (l : list PersonalField) : AnyResult () :=
  match l with
  | [] => Ok tt
  | f :: l =>
      _ ← fail_if (String.eqb (pf_id f) "" || bool_decide (pf_id f ∈ seen))
            "duplicate or empty field ID";
      _ ← fail_if (negb (value_matches f)) "field value does not match its type";
      _ ← fail_if (type_concealed (pf_type f) && negb (pf_concealed f))
            "sensitive field must be concealed";
      validate_item_fields (pf_id f :: seen) l
  end.
Fixpoint validate_sections (seen : list string) (l : list PersonalSection) : AnyResult () :=
  match l with
  | [] => Ok tt
  | s :: l =>
      _ ← fail_if (String.eqb (ps_section_id s) "" || bool_decide (ps_section_id s ∈ seen))
            "duplicate or empty section ID";
      _ ← validate_item_fields [] (ps_fields s);
      validate_sections (ps_section_id s :: seen) l
  end.
Definition validate (i : PersonalSecret) : AnyResult () :=
  _ ← fail_if (negb (String.eqb (it_format i) PERSONAL_FORMAT) || negb (it_version i =? 2)
               || String.eqb (it_id i) "")
        "invalid personal-item format, version or ID";
  validate_sections [] (it_sections i).

(** ** Storage *)

Definition MAX_ITEM_BYTES : Z := 512 * 1024.
Definition has_storage_id (i : PersonalSecret) : bool :=
  negb (String.eqb (it_id i) "") && (Z.of_nat (String.length (it_id i)) <=? 1024)
  && negb (existsb is_control (str_chars (as_bytes (it_id i)))).

(** An error with its [context]: the text is the context. *)
Definition context {E A} (text : string) (r : result E A) : AnyResult A := map_err (λ _, text) r.

Section Storage.
Context `{Serde PersonalSecret}.

(** [PersonalSecret::encode], [decode_current]. *)
Definition item_encode (i : PersonalSecret) : AnyResult bytes :=
  _ ← validate i;
  b ← context "could not encode personal item" (serde_to_vec i);
  _ ← fail_if (MAX_ITEM_BYTES <? Z.of_nat (length b))
        "personal item exceeds the 512 KiB storage limit";
  Ok b.
Definition item_decode_current (b : bytes) : AnyResult PersonalSecret :=
  _ ← fail_if (MAX_ITEM_BYTES <? Z.of_nat (length b))
        "personal item exceeds the 512 KiB storage limit";
  item ← context "invalid personal item" (serde_from_slice b);
  _ ← validate item;
  _ ← fail_if (negb (has_storage_id item)) "personal item ID cannot be used as a storage address";
  Ok item.
End Storage.

(** * What validation accepts, and that the forms, the changes of an item and its storage
    encoding keep it. *)

(** ** Well-formed items *)

Definition field_ok (f : PersonalField) : Prop :=
  pf_id f ≠ "" ∧ value_matches f = true ∧ (type_concealed (pf_type f) = true → pf_concealed f = true).
Definition section_ok (s : PersonalSection) : Prop :=
  ps_section_id s ≠ "" ∧ NoDup (pf_id <$> ps_fields s) ∧ Forall field_ok (ps_fields s).
Definition item_ok (i : PersonalSecret) : Prop :=
  it_format i = PERSONAL_FORMAT ∧ it_version i = 2 ∧ it_id i ≠ ""
  ∧ NoDup (ps_section_id <$> it_sections i) ∧ Forall section_ok (it_sections i).

Lemma validate_item_fields_ok seen l :
  validate_item_fields seen l = Ok tt ↔
  NoDup (pf_id <$> l) ∧ Forall (λ f, field_ok f ∧ pf_id f ∉ seen) l.
Proof.
  revert seen. induction l as [|f l IH]; intros seen; cbn [validate_item_fields fmap list_fmap].
  - split; [by repeat constructor|done].
  - rewrite !then_Ok, !fail_if_Ok, IH, NoDup_cons, Forall_cons. unfold field_ok.
    rewrite orb_false_iff, andb_false_iff, negb_false_iff, bool_decide_eq_false, String.eqb_neq,
      negb_false_iff.
    split.
    + intros ([Hid Hs] & Hv & Hc & Hnd & Hl). split_and!; [|done|done|done| |done|].
      * rewrite list_elem_of_fmap. intros (g & Heq & Hg). rewrite Forall_forall in Hl.
        apply Hl in Hg as [_ Hg]. rewrite Heq in Hg. by destruct Hg; left.
      * by intros Ht; destruct Hc as [Hc|Hc]; [rewrite Ht in Hc|].
      * eapply Forall_impl; [exact Hl|]. intros g [? Hg]. split; [done|].
        by apply not_elem_of_cons in Hg as [_ Hg].
    + intros ([Hni Hnd] & ((Hid & Hv & Hc) & Hs) & Hl). split_and!; [done..| |done|].
      * destruct (type_concealed (pf_type f)); [right; by apply Hc|by left].
      * apply Forall_forall. intros g Hg. rewrite Forall_forall in Hl.
        destruct (Hl g Hg) as [? Hgs]. split; [done|]. apply not_elem_of_cons. split; [|done].
        intros Heq. apply Hni. rewrite <- Heq. by apply list_elem_of_fmap_2.
Qed.

Lemma validate_sections_ok seen l :
  validate_sections seen l = Ok tt ↔
  NoDup (ps_section_id <$> l) ∧ Forall (λ s, section_ok s ∧ ps_section_id s ∉ seen) l.
Proof.
  revert seen. induction l as [|s l IH]; intros seen; cbn [validate_sections fmap list_fmap].
  - split; [by repeat constructor|done].
  - rewrite !then_Ok, fail_if_Ok, IH, NoDup_cons, Forall_cons, validate_item_fields_ok. unfold section_ok.
    rewrite orb_false_iff, bool_decide_eq_false, String.eqb_neq.
    assert (∀ l, Forall (λ f, field_ok f ∧ pf_id f ∉ []) l ↔ Forall field_ok l) as ->.
    { intros k. apply Forall_proper; [|done]. intros f. split; [by intros [? _]|].
      intros ?. split; [done|]. apply not_elem_of_nil. }
    split.
    + intros ([Hid Hs] & [Hf Hff] & Hnd & Hl). split_and!; [|done|done|done|done|done|].
      * rewrite list_elem_of_fmap. intros (g & Heq & Hg). rewrite Forall_forall in Hl.
        apply Hl in Hg as [_ Hg]. rewrite Heq in Hg. by destruct Hg; left.
      * eapply Forall_impl; [exact Hl|]. intros g [? Hg]. split; [done|].
        by apply not_elem_of_cons in Hg as [_ Hg].
    + intros ([Hni Hnd] & ((Hid & Hf & Hff) & Hs) & Hl). split_and!; [done..|].
      apply Forall_forall. intros g Hg. rewrite Forall_forall in Hl.
      destruct (Hl g Hg) as [? Hgs]. split; [done|]. apply not_elem_of_cons. split; [|done].
      intros Heq. apply Hni. rewrite <- Heq. by apply list_elem_of_fmap_2.
Qed.

Lemma validate_ok i : validate i = Ok tt ↔ item_ok i.
Proof.
  unfold validate, item_ok. rewrite then_Ok, fail_if_Ok, validate_sections_ok.
  rewrite !orb_false_iff, !negb_false_iff, String.eqb_eq, Z.eqb_eq, String.eqb_neq.
  assert (Forall (λ s, section_ok s ∧ ps_section_id s ∉ []) (it_sections i)
    ↔ Forall section_ok (it_sections i)) as ->; [|tauto].
  apply Forall_proper; [|done]. intros s. split; [by intros [? _]|].
  intros ?. split; [done|]. apply not_elem_of_nil.
Qed.

(** ** Forms *)

(** Every form for a new item is a valid item. *)
Lemma forms_are_valid uuid kind title :
  uuid ≠ "" → item_ok (template uuid kind title) ∧ item_ok (new_item uuid kind).
Proof.
  intros Hid.
  assert (∀ l t, validate_sections [] l = Ok tt → item_ok (set_sections (secret_new uuid kind t) l)) as Hv.
  { intros l t Hl. apply validate_ok. unfold validate. rewrite then_Ok, fail_if_Ok. split; [|done].
    cbn. by apply String.eqb_neq. }
  split.
  - apply Hv. by destruct kind; vm_compute.
  - destruct kind; apply Hv; by vm_compute.
Qed.

(** ** The first of a list *)

Lemma find_first_skip {A} (p : A → bool) l k :
  Forall (λ x, p x = false) l → find_first p (l ++ k) = find_first p k.
Proof. induction 1 as [|x l Hx Hl IH]; cbn; [done|]. by rewrite Hx. Qed.

Lemma update_first_some {A} (p : A → bool) f l l' :
  update_first p f l = Some l' →
  ∃ a x b, l = a ++ x :: b ∧ l' = a ++ f x :: b ∧ p x = true ∧ Forall (λ x, p x = false) a.
Proof.
  revert l'. induction l as [|x l IH]; intros l'; cbn; [done|]. destruct (p x) eqn:Hp.
  - intros [= <-]. by exists [], x, l.
  - intros (k & Hk & ->)%fmap_Some. apply IH in Hk as (a & y & b & -> & -> & Hy & Ha).
    exists (x :: a), y, b. split_and!; [done..|by constructor].
Qed.
Lemma update_first_none {A} (p : A → bool) f l :
  update_first p f l = None → Forall (λ x, p x = false) l.
Proof.
  induction l as [|x l IH]; cbn; [by constructor|]. destruct (p x) eqn:Hp; [done|].
  intros Hn%fmap_None. constructor; [done|by apply IH].
Qed.

Lemma update_first_field_some p f l l' :
  update_first_field p f l = Some l' →
  ∃ a s b c x d, l = a ++ s :: b ∧ ps_fields s = c ++ x :: d
    ∧ l' = a ++ set_fields s (c ++ f x :: d) :: b ∧ p x = true
    ∧ Forall (λ x, p x = false) ((a ≫= ps_fields) ++ c).
Proof.
  revert l'. induction l as [|s l IH]; intros l'; cbn; [done|].
  destruct (update_first p f (ps_fields s)) as [fields|] eqn:Hu.
  - intros [= <-]. apply update_first_some in Hu as (c & x & d & Hs & -> & Hx & Hc).
    by exists [], s, l, c, x, d.
  - intros (k & Hk & ->)%fmap_Some. apply update_first_none in Hu.
    apply IH in Hk as (a & t & b & c & x & d & -> & Ht & -> & Hx & Hac).
    exists (s :: a), t, b, c, x, d. split_and!; [done..|]. cbn. rewrite <- app_assoc.
    by apply Forall_app.
Qed.
Lemma update_first_field_none p f l :
  update_first_field p f l = None → Forall (λ x, p x = false) (l ≫= ps_fields).
Proof.
  induction l as [|s l IH]; cbn; [by constructor|].
  destruct (update_first p f (ps_fields s)) as [fields|] eqn:Hu; [done|].
  intros Hn%fmap_None. apply Forall_app. split; [by eapply update_first_none|by apply IH].
Qed.

(** ** An unused identifier *)

Lemma custom_id_inj m n : custom_id m = custom_id n → m = n.
Proof. unfold custom_id. intros Heq%(inj (String.append "custom-")). by apply (inj pretty) in Heq. Qed.

Lemma unused_custom_id_fresh i :
  unused_custom_id i ≠ "" ∧ unused_custom_id i ∉ pf_id <$> all_fields i.
Proof.
  unfold unused_custom_id. set (ids := custom_id <$> seq 0 _).
  destruct (find_first _ ids) as [id|] eqn:Hf; cbn.
  - apply find_first_Some in Hf as [Hn Hin]. split.
    + subst ids. apply list_elem_of_fmap in Hin as (n & -> & _). done.
    + intros (f & Heq & Hf)%list_elem_of_fmap. apply negb_true_iff, not_true_iff_false in Hn.
      apply Hn, existsb_exists. exists f. split; [by apply list_elem_of_In|]. by apply String.eqb_eq.
  - exfalso. rewrite find_first_None in Hf.
    assert (ids ⊆+ pf_id <$> all_fields i) as Hsub.
    { apply NoDup_submseteq.
      - apply NoDup_fmap_2_strong; [|apply NoDup_seq]. intros m n _ _. apply custom_id_inj.
      - intros id Hid. specialize (Hf id Hid). apply negb_false_iff, existsb_exists in Hf as (f & Hin & Heq).
        apply String.eqb_eq in Heq as <-. by apply list_elem_of_fmap_2, list_elem_of_In. }
    apply submseteq_length in Hsub. subst ids. rewrite !length_fmap, length_seq in Hsub. lia.
Qed.

(** ** One-time passwords *)

Lemma field_ok_set_value f v :
  field_ok f → value_matches (set_value f v) = true → field_ok (set_value f v).
Proof. by intros (? & _ & ?) ?. Qed.

Lemma section_ok_update s c x x' d :
  section_ok s → ps_fields s = c ++ x :: d → pf_id x' = pf_id x → field_ok x' →
  section_ok (set_fields s (c ++ x' :: d)).
Proof.
  intros (Hid & Hnd & Hf) Hs Hx Hok. rewrite Hs in Hnd, Hf. unfold section_ok. cbn.
  split_and!; [done|..].
  - rewrite fmap_app, fmap_cons in *. by rewrite Hx.
  - apply Forall_app in Hf as [Hc [_ Hd]%Forall_cons]. apply Forall_app. split; [done|].
    by constructor.
Qed.

Lemma section_ok_push s x :
  section_ok s → field_ok x → pf_id x ∉ pf_id <$> ps_fields s →
  section_ok (set_fields s (ps_fields s ++ [x])).
Proof.
  intros (Hid & Hnd & Hf) Hx Hn. unfold section_ok. cbn. split_and!; [done|..].
  - rewrite fmap_app. apply NoDup_app. split_and!; [done| |by apply NoDup_singleton].
    intros y Hy Hin. apply list_elem_of_singleton in Hin as ->. done.
  - apply Forall_app. split; [done|]. by apply Forall_singleton.
Qed.

(** The sections of an item with one of them changed, and not its identifier. *)
Lemma item_ok_update i a s s' b :
  item_ok i → it_sections i = a ++ s :: b → ps_section_id s' = ps_section_id s → section_ok s' →
  item_ok (set_sections i (a ++ s' :: b)).
Proof.
  intros (? & ? & ? & Hnd & Hf) Hs Hid Hok. rewrite Hs in Hnd, Hf. unfold item_ok. cbn.
  split_and!; [done..| |].
  - rewrite fmap_app, fmap_cons in *. by rewrite Hid.
  - apply Forall_app in Hf as [Ha [_ Hb]%Forall_cons]. apply Forall_app. split; [done|].
    by constructor.
Qed.

Lemma update_first_same {A B} (g : A → B) (p : A → bool) f l l' :
  (∀ x, g (f x) = g x) → update_first p f l = Some l' → g <$> l' = g <$> l.
Proof.
  intros Hg (a & x & b & -> & -> & _)%update_first_some. by rewrite !fmap_app, !fmap_cons, Hg.
Qed.

Lemma set_otp_existing link i l :
  item_ok i → update_first_field is_totp (λ f, set_value f (JString link)) (it_sections i) = Some l →
  item_ok (set_sections i l) ∧ one_time_password (set_sections i l) = Some link.
Proof.
  intros Hok (a & s & b & c & x & d & Hs & Hf & -> & Hx & Hn)%update_first_field_some.
  assert (section_ok s) as Hsok.
  { destruct Hok as (_ & _ & _ & _ & Hall). rewrite Hs in Hall.
    by apply Forall_app in Hall as [_ [? _]%Forall_cons]. }
  apply bool_decide_eq_true in Hx. split.
  - eapply item_ok_update; [done..|]. eapply section_ok_update; [done|done|done|].
    apply field_ok_set_value; [|by unfold value_matches; cbn; rewrite Hx].
    destruct Hsok as (_ & _ & Hall). rewrite Hf in Hall.
    by apply Forall_app in Hall as [_ [? _]%Forall_cons].
  - unfold one_time_password, all_fields. cbn [it_sections set_sections].
    rewrite bind_app, bind_cons. cbn [ps_fields set_fields].
    rewrite <- app_assoc, app_assoc, find_first_skip by done.
    cbn [find_first app]. unfold is_totp at 1. cbn. rewrite Hx, bool_decide_eq_true_2 by done. done.
Qed.

Lemma set_otp_new link i :
  item_ok i → Forall (λ f, is_totp f = false) (all_fields i) →
  let field := field_new (unused_custom_id i) (field_type_label FieldType.Totp) FieldType.Totp
                 (JString link) in
  let l := match update_first (λ s, String.eqb (ps_section_id s) CUSTOM_SECTION)
                   (λ s, set_fields s (ps_fields s ++ [field])) (it_sections i) with
           | Some sections => sections
           | None => it_sections i ++ [{| ps_section_id := CUSTOM_SECTION;
                                          ps_label := CUSTOM_SECTION_LABEL;
                                          ps_fields := [field] |}]
           end in
  item_ok (set_sections i l) ∧ one_time_password (set_sections i l) = Some link.
Proof.
  intros Hok Hn field l. destruct (unused_custom_id_fresh i) as [Hne Hfresh].
  assert (field_ok field) as Hfield by done.
  assert (pf_id field = unused_custom_id i) as Hid by done. rewrite <- Hid in Hfresh.
  assert (∀ k r, Forall (λ f, is_totp f = false) k →
    find_first is_totp (k ++ field :: r) ≫= field_text = Some link) as Hfind.
  { intros k r Hk. by rewrite find_first_skip. }
  clearbody field. destruct (update_first _ _ _) as [k|] eqn:Hu in l; subst l.
  - apply update_first_some in Hu as (a & s & b & Hs & -> & _ & _).
    assert (all_fields i = (a ≫= ps_fields) ++ ps_fields s ++ (b ≫= ps_fields)) as Hall.
    { unfold all_fields. by rewrite Hs, bind_app, bind_cons. }
    rewrite Hall in Hfresh, Hn. rewrite !fmap_app, !not_elem_of_app in Hfresh.
    rewrite !Forall_app in Hn. split.
    + eapply item_ok_update; [done..|]. apply section_ok_push; [|done|tauto].
      destruct Hok as (_ & _ & _ & _ & Hf). rewrite Hs in Hf.
      by apply Forall_app in Hf as [_ [? _]%Forall_cons].
    + unfold one_time_password, all_fields. cbn [it_sections set_sections].
      rewrite bind_app, bind_cons. cbn [ps_fields set_fields].
      rewrite <- app_assoc, app_assoc. apply Hfind. apply Forall_app. tauto.
  - apply update_first_none in Hu. destruct Hok as (? & ? & ? & Hnd & Hf). split.
    + unfold item_ok. cbn. split_and!; [done..| |].
      * rewrite fmap_app. apply NoDup_app. split_and!; [done| |by apply NoDup_singleton].
        intros y Hy Hin. apply list_elem_of_singleton in Hin as ->.
        apply list_elem_of_fmap in Hy as (s & Heq & Hin). rewrite Forall_forall in Hu.
        apply Hu in Hin. by rewrite <- Heq in Hin.
      * apply Forall_app. split; [done|]. apply Forall_singleton. unfold section_ok. cbn.
        split_and!; [done|apply NoDup_singleton|by apply Forall_singleton].
    + unfold one_time_password, all_fields. cbn [it_sections set_sections].
      rewrite bind_app, bind_cons. cbn [ps_fields]. by apply Hfind.
Qed.

(** The one-time password that is set is the one an item has, and a valid item stays valid:
    a field that is added has an identifier no field of the item has. *)
Theorem one_time_password_is_set link i :
  validate i = Ok tt →
  validate (set_one_time_password link i) = Ok tt
  ∧ one_time_password (set_one_time_password link i) = Some link.
Proof.
  rewrite !validate_ok. intros Hok. unfold set_one_time_password.
  destruct (update_first_field _ _ _) as [l|] eqn:Hu; [by apply set_otp_existing|].
  apply update_first_field_none in Hu. by apply set_otp_new.
Qed.
