(* ===== verification/PersonalLegacy.v ===== *)
(** Items of the first version (src/src/personal/legacy.rs), their conversion to the current
    form and back (src/src/personal.rs), the reading of any stored item, and the deletions of
    the journal that preceded replicas (src/src/personal/legacy_revision.rs). *)
From Stdlib Require Import ZArith Lia Bool.
From stdpp Require Import base numbers gmap strings list pretty sorting.
From S2P Require Import Prelude Text Chars Core Website Totp Personal.

Definition PERSONAL_VERSION : Z := 1.

Module LegacyFieldSection.
Inductive section : Set := Custom | Card | Identity.
End LegacyFieldSection.
#[export] Instance legacy_section_eq_dec : EqDecision LegacyFieldSection.section.
Proof. solve_decision. Defined.

Record LegacyField : Set := {
  lf_name : string;
  lf_value : string;
  lf_section : LegacyFieldSection.section;
  lf_type : Z;
  lf_linked_id : option Z
}.
Record LegacySecret : Set := {
  ls_format : string;
  ls_version : Z;
  ls_kind : Kind.kind;
  ls_title : string;
  ls_username : option string;
  ls_password : option string;
  ls_urls : list string;
  ls_totp : option string;
  ls_notes : option string;
  ls_custom_fields : list LegacyField;
  ls_folder : option string;
  ls_tags : list string;
  ls_favorite : bool;
  ls_archived : bool
}.

Definition nonempty (value : string) : option string :=
  if String.eqb value "" then None else Some value.

(** [LegacySecret::new], [generic]. *)
Definition legacy_new (kind : Kind.kind) (title : string) : LegacySecret := {|
  ls_format := PERSONAL_FORMAT; ls_version := PERSONAL_VERSION; ls_kind := kind; ls_title := title;
  ls_username := None; ls_password := None; ls_urls := []; ls_totp := None; ls_notes := None;
  ls_custom_fields := []; ls_folder := None; ls_tags := []; ls_favorite := false;
  ls_archived := false |}.
Definition legacy_generic (title value : string) : LegacySecret := {|
  ls_format := PERSONAL_FORMAT; ls_version := PERSONAL_VERSION; ls_kind := Kind.Generic;
  ls_title := title; ls_username := None; ls_password := nonempty value; ls_urls := [];
  ls_totp := None; ls_notes := None; ls_custom_fields := []; ls_folder := None; ls_tags := [];
  ls_favorite := false; ls_archived := false |}.
Definition legacy_is_supported (s : LegacySecret) : bool :=
  String.eqb (ls_format s) PERSONAL_FORMAT && (ls_version s =? PERSONAL_VERSION).

Record PersonalHeader : Set := { ph_format : option string; ph_version : option Z }.

(** [Display] of a JSON value. *)
Class JsonText := json_text : Json → string.
Class JsonTextOk `{JsonText} : Prop :=
  json_text_bool b : json_text (JBool b) = if b then "true" else "false".

Definition unsupported : string := "unsupported FactorSeal personal-secret version".

(** ** To the current form *)

(** A field of the account section, when there is a value. *)
Definition account_field (id label : string) (t : FieldType.field_type) (value : option string)
    : list PersonalField :=
  match value with Some v => [field_new id label t (JString v)] | None => [] end.
Definition account_fields (old : LegacySecret) : list PersonalField :=
  account_field "username" "Username" FieldType.Text (ls_username old)
  ++ account_field "password" "Password" FieldType.Concealed (ls_password old)
  ++ account_field "totp" "One-time password" FieldType.Totp (ls_totp old)
  ++ imap (λ i url, field_new ("url-" +:+ pretty i) "Website" FieldType.Url (JString url))
       (ls_urls old).

Definition legacy_section_id (s : LegacyFieldSection.section) : string :=
  match s with
  | LegacyFieldSection.Card => "card"
  | LegacyFieldSection.Identity => "identity"
  | LegacyFieldSection.Custom => "custom"
  end.
Definition legacy_field_type (s : LegacyFieldSection.section) (f : LegacyField) : FieldType.field_type :=
  match s with
  | LegacyFieldSection.Custom =>
      if lf_type f =? 0 then FieldType.Text
      else if lf_type f =? 1 then FieldType.Concealed
      else if lf_type f =? 2 then FieldType.Boolean
      else if lf_type f =? 3 then FieldType.Reference
      else FieldType.Unknown ("bitwarden-" +:+ pretty (lf_type f))
  | _ =>
      if String.eqb (lf_name f) "number" && bool_decide (s = LegacyFieldSection.Card) then
        FieldType.CardNumber
      else if bool_decide (lf_name f ∈ ["code"; "ssn"; "passportNumber"; "licenseNumber"]) then
        FieldType.Concealed
      else FieldType.Text
  end.
Definition legacy_field_value (f : LegacyField) : Json :=
  match lf_linked_id f with
  | Some linked => JObject [("linkedId", JNumber (Integer linked)); ("value", JString (lf_value f))]
  | None => JString (lf_value f)
  end.
Definition legacy_field (s : LegacyFieldSection.section) (index : nat) (f : LegacyField) : PersonalField :=
  field_new
    (match s with LegacyFieldSection.Custom => custom_id index | _ => lf_name f end)
    (lf_name f) (legacy_field_type s f) (legacy_field_value f).
(** The fields of a section, by their place among all custom fields. *)
Definition legacy_group (s : LegacyFieldSection.section) (l : list LegacyField) : list PersonalField :=
  omap (λ f, f) (imap (λ i f, if bool_decide (lf_section f = s) then Some (legacy_field s i f) else None) l).

(** A section is there when it has fields. *)
Definition nonempty_section (id label : string) (fields : list PersonalField) : list PersonalSection :=
  match fields with
  | [] => []
  | _ => [{| ps_section_id := id; ps_label := label; ps_fields := fields |}]
  end.
Definition legacy_sections (old : LegacySecret) : list PersonalSection :=
  nonempty_section "account" "Account" (account_fields old)
  ++ ([LegacyFieldSection.Card; LegacyFieldSection.Identity; LegacyFieldSection.Custom]
      ≫= λ s, nonempty_section (legacy_section_id s) (legacy_section_id s)
                (legacy_group s (ls_custom_fields old))).

Section Legacy.
Context `{Sha256} `{Serde LegacySecret}.

(** [LegacySecret::encode], [PersonalSecret::from_legacy]. *)
Definition legacy_encode (s : LegacySecret) : AnyResult bytes :=
  context "could not encode personal secret" (serde_to_vec s).
Definition item_from_legacy (old : LegacySecret) : AnyResult PersonalSecret :=
  b ← legacy_encode old;
  let item := {|
    it_format := PERSONAL_FORMAT; it_version := 2; it_id := "legacy-" +:+ hex_text (sha256 b);
    it_kind := ls_kind old; it_title := ls_title old; it_sections := legacy_sections old;
    it_notes := ls_notes old; it_folder := ls_folder old; it_tags := ls_tags old;
    it_favorite := ls_favorite old; it_archived := ls_archived old; it_source := None |} in
  _ ← validate item;
  Ok item.

(** ** Reading any version *)

Context `{Serde PersonalHeader} `{Serde PersonalSecret}.

(** The version in the header of a record of this format. *)
Definition personal_version (b : bytes) : option (option Z) :=
  match serde_from_slice (A:=PersonalHeader) b with
  | Ok h => if bool_decide (ph_format h = Some PERSONAL_FORMAT) then Some (ph_version h) else None
  | Err _ => None
  end.
Definition legacy_decode (title : string) (b : bytes) : AnyResult LegacySecret :=
  match personal_version b with
  | Some version =>
      _ ← fail_if (negb (bool_decide (version = Some PERSONAL_VERSION))) unsupported;
      secret ← context "invalid FactorSeal personal-secret record" (serde_from_slice b);
      _ ← fail_if (negb (legacy_is_supported secret)) unsupported;
      Ok secret
  | None =>
      if utf8_valid b then Ok (legacy_generic title (of_bytes b))
      else Err "legacy personal secret is not UTF-8"
  end.
(** [PersonalSecret::decode]. *)
Definition item_decode (title : string) (b : bytes) : AnyResult PersonalSecret :=
  match personal_version b with
  | Some version =>
      if bool_decide (version = Some 1) then old ← legacy_decode title b; item_from_legacy old
      else if bool_decide (version = Some 2) then
        item ← context "invalid personal item" (serde_from_slice b);
        _ ← validate item;
        Ok item
      else Err unsupported
  | None => old ← legacy_decode title b; item_from_legacy old
  end.
End Legacy.

(** ** Back to the first version *)

Definition loss : string :=
  "this transfer format cannot preserve all fields or metadata; use an encrypted FactorSeal archive for a lossless export".

(** [ParseIntError] of an unsigned integer: its text for what [parse_unsigned] refuses. *)
Fixpoint digits_error (max acc : Z) (s : bytes) : string :=
  match s with
  | [] => ""
  | b :: s =>
      let acc := acc * 10 + (byte_Z b - 48) in
      if negb (is_digit b) then "invalid digit found in string"
      else if max <? acc then "number too large to fit in target type"
      else digits_error max acc s
  end.
Definition parse_error (max : Z) (s : bytes) : string :=
  match s with
  | [] => "cannot parse integer from empty string"
  | [b] => if is_digit b then digits_error max 0 s else "invalid digit found in string"
  | b :: t => digits_error max 0 (if Byte.eqb b Byte.x2b then t else s)
  end.
Definition parse_u64 (s : bytes) : AnyResult Z :=
  ok_or (parse_error U64_MAX s) (parse_unsigned U64_MAX s).

Definition set_username (o : LegacySecret) (v : option string) : LegacySecret := {|
  ls_format := ls_format o; ls_version := ls_version o; ls_kind := ls_kind o; ls_title := ls_title o;
  ls_username := v; ls_password := ls_password o; ls_urls := ls_urls o; ls_totp := ls_totp o;
  ls_notes := ls_notes o; ls_custom_fields := ls_custom_fields o; ls_folder := ls_folder o;
  ls_tags := ls_tags o; ls_favorite := ls_favorite o; ls_archived := ls_archived o |}.
Definition set_legacy_password (o : LegacySecret) (v : option string) : LegacySecret := {|
  ls_format := ls_format o; ls_version := ls_version o; ls_kind := ls_kind o; ls_title := ls_title o;
  ls_username := ls_username o; ls_password := v; ls_urls := ls_urls o; ls_totp := ls_totp o;
  ls_notes := ls_notes o; ls_custom_fields := ls_custom_fields o; ls_folder := ls_folder o;
  ls_tags := ls_tags o; ls_favorite := ls_favorite o; ls_archived := ls_archived o |}.
Definition set_totp (o : LegacySecret) (v : option string) : LegacySecret := {|
  ls_format := ls_format o; ls_version := ls_version o; ls_kind := ls_kind o; ls_title := ls_title o;
  ls_username := ls_username o; ls_password := ls_password o; ls_urls := ls_urls o; ls_totp := v;
  ls_notes := ls_notes o; ls_custom_fields := ls_custom_fields o; ls_folder := ls_folder o;
  ls_tags := ls_tags o; ls_favorite := ls_favorite o; ls_archived := ls_archived o |}.
Definition set_urls (o : LegacySecret) (v : list string) : LegacySecret := {|
  ls_format := ls_format o; ls_version := ls_version o; ls_kind := ls_kind o; ls_title := ls_title o;
  ls_username := ls_username o; ls_password := ls_password o; ls_urls := v; ls_totp := ls_totp o;
  ls_notes := ls_notes o; ls_custom_fields := ls_custom_fields o; ls_folder := ls_folder o;
  ls_tags := ls_tags o; ls_favorite := ls_favorite o; ls_archived := ls_archived o |}.
Definition push_custom_field (o : LegacySecret) (f : LegacyField) : LegacySecret := {|
  ls_format := ls_format o; ls_version := ls_version o; ls_kind := ls_kind o; ls_title := ls_title o;
  ls_username := ls_username o; ls_password := ls_password o; ls_urls := ls_urls o;
  ls_totp := ls_totp o; ls_notes := ls_notes o; ls_custom_fields := ls_custom_fields o ++ [f];
  ls_folder := ls_folder o; ls_tags := ls_tags o; ls_favorite := ls_favorite o;
  ls_archived := ls_archived o |}.

(** The arm of the account section. *)
Definition account_to_legacy (kind : Kind.kind) (old : LegacySecret) (f : PersonalField)
    : AnyResult LegacySecret :=
  text ← ok_or loss (field_text f);
  let expected :=
    if String.eqb (pf_id f) "username" then "Username"
    else if String.eqb (pf_id f) "password" && bool_decide (kind = Kind.Generic) then "Secret value"
    else if String.eqb (pf_id f) "password" then "Password"
    else if String.eqb (pf_id f) "totp" then "One-time password"
    else "Website" in
  _ ← fail_if (negb (String.eqb (pf_label f) expected)
               && negb (String.eqb (pf_id f) "password" && String.eqb (pf_label f) "Password")) loss;
  if String.eqb (pf_id f) "username" && bool_decide (pf_type f = FieldType.Text)
     && negb (pf_concealed f) then Ok (set_username old (nonempty text))
  else if String.eqb (pf_id f) "password" && bool_decide (pf_type f = FieldType.Concealed) then
    Ok (set_legacy_password old (nonempty text))
  else if String.eqb (pf_id f) "totp" && bool_decide (pf_type f = FieldType.Totp) then
    Ok (set_totp old (nonempty text))
  else if bool_decide (pf_type f = FieldType.Url) && has_prefix (as_bytes (pf_id f)) (as_bytes "url-")
          && negb (pf_concealed f) then
    Ok (if String.eqb text "" then old else set_urls old (ls_urls old ++ [text]))
  else Err loss.

Definition section_to_legacy (kind : Kind.kind) (id : string) : AnyResult LegacyFieldSection.section :=
  if String.eqb id "card" && bool_decide (kind = Kind.Card) then Ok LegacyFieldSection.Card
  else if String.eqb id "identity" && bool_decide (kind = Kind.Identity) then
    Ok LegacyFieldSection.Identity
  else if String.eqb id "custom" then Ok LegacyFieldSection.Custom
  else Err loss.

Section ToLegacy.
Context `{JsonText}.

(** The type, the linked field and the text of a field in the first version. *)
Definition value_to_legacy (s : LegacyFieldSection.section) (f : PersonalField)
    : AnyResult (Z * option Z * string) :=
  let text := ok_or loss (field_text f) in
  match pf_type f with
  | FieldType.Text => if pf_concealed f then Err loss else t ← text; Ok (0, None, t)
  | FieldType.Concealed => t ← text; Ok (1, None, t)
  | FieldType.CardNumber =>
      match s with LegacyFieldSection.Card => t ← text; Ok (0, None, t) | _ => Err loss end
  | FieldType.Boolean => Ok (2, None, default (json_text (pf_value f)) (field_text f))
  | FieldType.Reference =>
      Ok (3, json_get "linkedId" (pf_value f) ≫= json_u64,
          default "" (match json_get "value" (pf_value f) ≫= json_str with
                      | Some t => Some t
                      | None => field_text f
                      end))
  | FieldType.Unknown t =>
      if has_prefix (as_bytes t) (as_bytes "bitwarden-") then
        n ← parse_u64 (drop 10 (as_bytes t));
        t ← text;
        Ok (n, None, t)
      else Err loss
  | _ => Err loss
  end.

Definition custom_to_legacy (kind : Kind.kind) (id : string) (old : LegacySecret) (f : PersonalField)
    : AnyResult LegacySecret :=
  s ← section_to_legacy kind id;
  let custom := bool_decide (s = LegacyFieldSection.Custom) in
  _ ← fail_if (negb custom && negb (String.eqb (pf_label f) (pf_id f))
        && negb (existsb (λ t, String.eqb t.1.1 (pf_id f) && String.eqb t.1.2 (pf_label f))
                   (template_fields kind))) loss;
  _ ← fail_if (bool_decide (pf_type f = FieldType.Reference)
        && match pf_value f with
           | JObject members => existsb (λ m, negb (bool_decide (m.1 ∈ ["linkedId"; "value"]))) members
           | _ => false
           end) loss;
  '(t, linked, value) ← value_to_legacy s f;
  Ok (push_custom_field old {|
    lf_name := if custom then pf_label f else pf_id f; lf_value := value; lf_section := s;
    lf_type := if custom then t else 0; lf_linked_id := linked |}).

(** The loops over sections and their fields. *)
Fixpoint fields_to_legacy (kind : Kind.kind) (id : string) (l : list PersonalField)
    (old : LegacySecret) : AnyResult LegacySecret :=
  match l with
  | [] => Ok old
  | f :: l =>
      old ← (if String.eqb id "account" then account_to_legacy kind old f
             else custom_to_legacy kind id old f);
      fields_to_legacy kind id l old
  end.
Fixpoint sections_to_legacy (kind : Kind.kind) (l : list PersonalSection) (old : LegacySecret)
    : AnyResult LegacySecret :=
  match l with
  | [] => Ok old
  | s :: l =>
      _ ← fail_if (negb (bool_decide (ps_label s ∈ [ps_section_id s; "Account"; kind_label kind]))) loss;
      old ← fields_to_legacy kind (ps_section_id s) (ps_fields s) old;
      sections_to_legacy kind l old
  end.

Definition to_legacy (i : PersonalSecret) : AnyResult LegacySecret :=
  _ ← validate i;
  _ ← fail_if (bool_decide (is_Some (it_source i))
        || negb (bool_decide (it_kind i ∈
             [Kind.Login; Kind.Generic; Kind.SecureNote; Kind.Card; Kind.Identity]))) loss;
  sections_to_legacy (it_kind i) (it_sections i) {|
    ls_format := PERSONAL_FORMAT; ls_version := PERSONAL_VERSION; ls_kind := it_kind i;
    ls_title := it_title i; ls_username := None; ls_password := None; ls_urls := [];
    ls_totp := None; ls_notes := it_notes i; ls_custom_fields := []; ls_folder := it_folder i;
    ls_tags := it_tags i; ls_favorite := it_favorite i; ls_archived := it_archived i |}.
End ToLegacy.

(** ** The journal before replicas *)

Record Revision : Set := {
  rv_id : bytes;
  rv_item_id : string;
  rv_parent : option bytes;
  rv_deleted : bool
}.
Record Journal : Set := { jn_revisions : list Revision; jn_pending : gset bytes }.

Definition invalid_journal : VaultError.error :=
  VaultError.InvalidData "invalid legacy personal journal".
Definition MAX_JOURNAL_BYTES : Z := 16 * 1024 * 1024.

(** The loop over the revisions: the last revision of every item, and the identifiers seen. *)
Fixpoint journal_heads (l : list Revision) (heads : gmap string (bytes * bool)) (ids : gset bytes)
    : VaultResult (gmap string (bytes * bool)) :=
  match l with
  | [] => Ok heads
  | r :: l =>
      _ ← fail_if (String.eqb (rv_item_id r) "" || (1024 <? Z.of_nat (String.length (rv_item_id r)))
                   || bool_decide (rv_id r ∈ ids)
                   || negb (bool_decide (fst <$> heads !! rv_item_id r = rv_parent r)))
            invalid_journal;
      journal_heads l (<[rv_item_id r := (rv_id r, rv_deleted r)]> heads) ({[rv_id r]} ∪ ids)
  end.
Definition tombstones `{Serde Journal} (b : bytes) : VaultResult (list string) :=
  _ ← fail_if (MAX_JOURNAL_BYTES <? Z.of_nat (length b)) invalid_journal;
  journal ← map_err (λ _, invalid_journal) (serde_from_slice b);
  _ ← fail_if (100000 <? Z.of_nat (length (jn_revisions journal))) invalid_journal;
  heads ← journal_heads (jn_revisions journal) ∅ ∅;
  _ ← fail_if (negb (bool_decide (jn_pending journal ⊆ list_to_set ((λ h, h.2.1) <$> map_to_list heads))))
        invalid_journal;
  Ok (sort_by id ((λ h, h.1) <$> filter (λ h, h.2.2 = true) (map_to_list heads))).

(** * An item of the first version that is converted is exported back unchanged; what is
    stored is read back; and the deletions of an old journal are those of the last
    revisions. *)

(** ** Decimal numbers *)

Lemma pretty_digit d :
  (d < 10)%N → as_bytes (String (pretty_N_char d) "") = [byte_of_Z (48 + Z.of_N d)].
Proof.
  intros Hd. destruct d as [|p]; [done|].
  do 4 (destruct p as [p|p|]; try done); exfalso; lia.
Qed.

Lemma parse_pretty_go max x s :
  Z.of_N x ≤ max →
  parse_digits max 0 (as_bytes (pretty_N_go x s)) = parse_digits max (Z.of_N x) (as_bytes s).
Proof.
  revert s. induction (N.lt_wf_0 x) as [x _ IH]; intros s Hx.
  destruct (decide (x = 0%N)) as [->|Hpos]; [by rewrite pretty_N_go_0|].
  rewrite pretty_N_go_step by lia. rewrite IH; [|by apply N.div_lt; lia|].
  2: { transitivity (Z.of_N x); [|done]. apply N2Z.inj_le, N.Div0.div_le_upper_bound. lia. }
  change (as_bytes (String (pretty_N_char (x mod 10)) s))
    with (as_bytes (String (pretty_N_char (x mod 10)) "") ++ as_bytes s).
  pose proof (N.mod_lt x 10 ltac:(done)) as Hm. rewrite pretty_digit by done.
  cbn [app parse_digits]. pose proof (N.Div0.div_mod x 10) as Hd.
  set (m := (x mod 10)%N) in *. set (d := (x / 10)%N) in *. clearbody m d.
  unfold is_digit, in_span. rewrite byte_Z_of_Z, Z.mod_small by lia.
  rewrite !(proj2 (Z.leb_le _ _)) by lia. cbn [andb].
  f_equal. lia.
Qed.

Lemma pretty_N_go_digits x s :
  ∃ ds, as_bytes (pretty_N_go x s) = ds ++ as_bytes s ∧ Forall (λ b, is_digit b = true) ds
    ∧ ((0 < x)%N → ds ≠ []).
Proof.
  revert s. induction (N.lt_wf_0 x) as [x _ IH]; intros s.
  destruct (decide (x = 0%N)) as [->|Hpos].
  { exists []. rewrite pretty_N_go_0. split_and!; [done|constructor|lia]. }
  rewrite pretty_N_go_step by lia.
  destruct (IH (x `div` 10)%N ltac:(apply N.div_lt; lia) (String (pretty_N_char (x mod 10)) s))
    as (ds & -> & Hds & _).
  change (as_bytes (String (pretty_N_char (x mod 10)) s))
    with (as_bytes (String (pretty_N_char (x mod 10)) "") ++ as_bytes s).
  pose proof (N.mod_lt x 10 ltac:(done)) as Hm. rewrite pretty_digit by done.
  exists (ds ++ [byte_of_Z (48 + Z.of_N (x mod 10))]). split_and!; [by rewrite <- app_assoc| |].
  - apply Forall_app. split; [done|]. apply Forall_singleton.
    set (m := (x mod 10)%N) in *. clearbody m. unfold is_digit, in_span. rewrite byte_Z_of_Z, Z.mod_small by lia.
    by rewrite !(proj2 (Z.leb_le _ _)) by lia.
  - by destruct ds.
Qed.

(** The text of a number reads back as it. *)
Lemma parse_pretty max n : 0 ≤ n ≤ max → parse_unsigned max (as_bytes (pretty n)) = Some n.
Proof.
  intros Hn. destruct n as [|p|p]; [| |lia].
  { change (as_bytes (pretty 0)) with [Byte.x30]. cbn -[Z.leb].
    by rewrite (proj2 (Z.leb_le _ _)) by lia. }
  pose proof (parse_pretty_go max (N.pos p) "" ltac:(lia)) as Hp.
  destruct (pretty_N_go_digits (N.pos p) "") as (ds & Hds & Hdig & Hne).
  change (as_bytes "") with (@nil Byte.byte) in *. rewrite app_nil_r in Hds.
  change (pretty (Z.pos p)) with (pretty_N_go (N.pos p) ""). rewrite Hds in *.
  unfold parse_unsigned. destruct ds as [|b ds]; [by destruct Hne|].
  assert (Byte.eqb b Byte.x2b = false) as ->; [|done].
  apply Forall_cons in Hdig as [Hb _]. destruct (Byte.eqb b Byte.x2b) eqn:E; [|done].
  by apply Byte.byte_dec_bl in E as ->.
Qed.

(** ** Folds over what is converted *)

Section RoundTrip.
Context `{JsonText}.

Lemma fields_to_legacy_app kind id l k old :
  fields_to_legacy kind id (l ++ k) old
  = (o ← fields_to_legacy kind id l old; fields_to_legacy kind id k o).
Proof.
  revert old. induction l as [|f l IH]; intros old; [done|]. cbn [app fields_to_legacy].
  destruct (String.eqb id "account"); [destruct (account_to_legacy _ _ _)|destruct (custom_to_legacy _ _ _ _)];
    cbn [mbind result_bind]; done.
Qed.
Lemma sections_to_legacy_app kind l k old :
  sections_to_legacy kind (l ++ k) old
  = (o ← sections_to_legacy kind l old; sections_to_legacy kind k o).
Proof.
  revert old. induction l as [|s l IH]; intros old; [done|]. cbn [app sections_to_legacy].
  destruct (fail_if _ _); [|done]. cbn [mbind result_bind].
  by destruct (fields_to_legacy _ _ _ _); cbn [mbind result_bind].
Qed.
Lemma nonempty_section_to_legacy kind id label fields old :
  label ∈ [id; "Account"; kind_label kind] →
  sections_to_legacy kind (nonempty_section id label fields) old = fields_to_legacy kind id fields old.
Proof.
  intros Hl. destruct fields as [|f fields]; [done|].
  unfold nonempty_section. cbn [sections_to_legacy ps_label ps_section_id ps_fields].
  rewrite bool_decide_eq_true_2 by done. cbn [negb fail_if mbind result_bind].
  by destruct (fields_to_legacy _ _ _ _).
Qed.

(** ** The account *)

Lemma urls_to_legacy kind n urls old :
  "" ∉ urls →
  fields_to_legacy kind "account"
    (imap (λ i url, field_new ("url-" +:+ pretty (n + i)%nat) "Website" FieldType.Url (JString url)) urls)
    old = Ok (set_urls old (ls_urls old ++ urls)).
Proof.
  revert n old. induction urls as [|u urls IH]; intros n old Hu.
  - cbn. rewrite app_nil_r. by destruct old.
  - apply not_elem_of_cons in Hu as [Hne Hu]. rewrite imap_cons. cbn [fields_to_legacy].
    rewrite Nat.add_0_r. change (String.eqb "account" "account") with true. cbn match.
    assert (account_to_legacy kind old
      (field_new ("url-" +:+ pretty n) "Website" FieldType.Url (JString u))
      = Ok (set_urls old (ls_urls old ++ [u]))) as ->.
    { unfold account_to_legacy. cbn [field_new pf_id pf_label pf_type pf_concealed field_text
        pf_value json_str ok_or mbind result_bind type_concealed].
      change (String.eqb ("url-" +:+ pretty n) "username") with false.
      change (String.eqb ("url-" +:+ pretty n) "password") with false.
      change (String.eqb ("url-" +:+ pretty n) "totp") with false. cbn.
      rewrite (proj2 (String.eqb_neq u "")) by congruence. done. }
    cbn [mbind result_bind].
    rewrite (imap_ext _ (λ i url, field_new ("url-" +:+ pretty (S n + i)%nat) "Website" FieldType.Url
      (JString url))) by (intros; cbn; by rewrite Nat.add_succ_r).
    rewrite IH by done. cbn. by rewrite <- app_assoc.
Qed.

Lemma nonempty_some v : v ≠ "" → nonempty v = Some v.
Proof. intros Hv. unfold nonempty. by rewrite (proj2 (String.eqb_neq _ _) Hv). Qed.

Lemma account_to_legacy_all kind old o :
  ls_username old ≠ Some "" → ls_password old ≠ Some "" → ls_totp old ≠ Some "" →
  "" ∉ ls_urls old →
  ls_username o = None → ls_password o = None → ls_totp o = None → ls_urls o = [] →
  fields_to_legacy kind "account" (account_fields old) o
  = Ok (set_urls (set_totp (set_legacy_password (set_username o (ls_username old))
          (ls_password old)) (ls_totp old)) (ls_urls old)).
Proof.
  intros Hu Hp Ht Hurls Hou Hop Hot Hour. unfold account_fields.
  assert (fields_to_legacy kind "account"
    (account_field "username" "Username" FieldType.Text (ls_username old)) o
    = Ok (set_username o (ls_username old))) as Husername.
  { destruct (ls_username old) as [v|]; cbn; [|by destruct o; cbn in *; subst].
    by rewrite nonempty_some by congruence. }
  set (o1 := set_username o (ls_username old)) in *.
  assert (fields_to_legacy kind "account"
    (account_field "password" "Password" FieldType.Concealed (ls_password old)) o1
    = Ok (set_legacy_password o1 (ls_password old))) as Hpassword.
  { destruct (ls_password old) as [v|]; cbn; [|by subst o1; destruct o; cbn in *; subst].
    rewrite nonempty_some by congruence. by destruct kind. }
  set (o2 := set_legacy_password o1 (ls_password old)) in *.
  assert (fields_to_legacy kind "account"
    (account_field "totp" "One-time password" FieldType.Totp (ls_totp old)) o2
    = Ok (set_totp o2 (ls_totp old))) as Htotp.
  { destruct (ls_totp old) as [v|]; cbn; [|by subst o1 o2; destruct o; cbn in *; subst].
    by rewrite nonempty_some by congruence. }
  rewrite !fields_to_legacy_app, Husername. cbn [mbind result_bind].
  rewrite fields_to_legacy_app, Hpassword. cbn [mbind result_bind].
  rewrite fields_to_legacy_app, Htotp. cbn [mbind result_bind].
  rewrite (urls_to_legacy kind 0) by done.
  change (ls_urls (set_totp o2 (ls_totp old))) with (ls_urls o). by rewrite Hour.
Qed.

(** ** Custom fields *)

(** What the first version holds of a kind of item: a type and a linked field where the
    conversion keeps them. *)
Definition legacy_field_ok (kind : Kind.kind) (f : LegacyField) : Prop :=
  match lf_section f with
  | LegacyFieldSection.Custom =>
      0 ≤ lf_type f ≤ U64_MAX
      ∧ match lf_linked_id f with Some n => lf_type f = 3 ∧ 0 ≤ n ≤ U64_MAX | None => True end
  | LegacyFieldSection.Card => kind = Kind.Card ∧ lf_type f = 0 ∧ lf_linked_id f = None
  | LegacyFieldSection.Identity => kind = Kind.Identity ∧ lf_type f = 0 ∧ lf_linked_id f = None
  end.

Lemma bitwarden_type n :
  0 ≤ n ≤ U64_MAX →
  has_prefix (as_bytes ("bitwarden-" +:+ pretty n)) (as_bytes "bitwarden-") = true
  ∧ parse_u64 (drop 10 (as_bytes ("bitwarden-" +:+ pretty n))) = Ok n.
Proof.
  intros Hn. rewrite as_bytes_app. split; [by apply bool_decide_eq_true|].
  change (drop 10 (as_bytes "bitwarden-" ++ as_bytes (pretty n))) with (as_bytes (pretty n)).
  unfold parse_u64. by rewrite parse_pretty.
Qed.

Lemma custom_value_to_legacy id name value t linked :
  let f := {| lf_name := name; lf_value := value; lf_section := LegacyFieldSection.Custom;
              lf_type := t; lf_linked_id := linked |} in
  0 ≤ t ≤ U64_MAX → match linked with Some n => t = 3 ∧ 0 ≤ n ≤ U64_MAX | None => True end →
  value_to_legacy LegacyFieldSection.Custom
    (field_new id name (legacy_field_type LegacyFieldSection.Custom f) (legacy_field_value f))
  = Ok (t, linked, value).
Proof.
  intros f Ht Hl. unfold f, value_to_legacy, legacy_field_type, legacy_field_value.
  cbn [lf_type lf_linked_id lf_value field_new pf_type pf_value field_text json_str pf_concealed].
  destruct (Z.eqb_spec t 0) as [->|H0]; [destruct linked; [lia|done]|].
  destruct (Z.eqb_spec t 1) as [->|H1]; [destruct linked; [lia|done]|].
  destruct (Z.eqb_spec t 2) as [->|H2]; [destruct linked; [lia|done]|].
  destruct (Z.eqb_spec t 3) as [->|H3].
  - destruct linked as [n|]; [|done]. destruct Hl as [_ Hn]. cbn -[in_span U64_MAX].
    unfold in_span. by rewrite !(proj2 (Z.leb_le _ _)) by lia.
  - destruct linked; [lia|]. destruct (bitwarden_type t Ht) as [Hp Hn].
    by rewrite Hp, Hn.
Qed.

Lemma custom_field_to_legacy kind old i f :
  legacy_field_ok kind f →
  custom_to_legacy kind (legacy_section_id (lf_section f)) old (legacy_field (lf_section f) i f)
  = Ok (push_custom_field old f).
Proof.
  destruct f as [name value s t linked]. unfold legacy_field_ok. cbn [lf_section lf_type lf_linked_id].
  destruct s.
  - intros [Ht Hl]. unfold custom_to_legacy, legacy_field.
    cbn [legacy_section_id lf_name]. change (section_to_legacy kind "custom") with
      (@Ok string _ LegacyFieldSection.Custom). cbn [mbind result_bind].
    rewrite bool_decide_eq_true_2 by done. cbn [negb andb fail_if mbind result_bind].
    rewrite custom_value_to_legacy by done. cbn [field_new pf_id pf_label pf_type pf_value].
    assert (match legacy_field_value {| lf_name := name; lf_value := value;
        lf_section := LegacyFieldSection.Custom; lf_type := t; lf_linked_id := linked |} with
      | JObject members => existsb (λ m, negb (bool_decide (m.1 ∈ ["linkedId"; "value"]))) members
      | _ => false end = false) as -> by by destruct linked.
    by rewrite andb_false_r.
  - intros (-> & -> & ->). unfold custom_to_legacy, legacy_field. cbn [legacy_section_id lf_name].
    cbn [field_new pf_id pf_label pf_type pf_value]. rewrite String.eqb_refl.
    unfold legacy_field_type. cbn [lf_name legacy_field_value].
    destruct (String.eqb name "number"); [done|]. cbn [andb].
    by destruct (bool_decide (name ∈ _)).
  - intros (-> & -> & ->). unfold custom_to_legacy, legacy_field. cbn [legacy_section_id lf_name].
    cbn [field_new pf_id pf_label pf_type pf_value]. rewrite String.eqb_refl.
    unfold legacy_field_type. cbn [lf_name legacy_field_value].
    rewrite (bool_decide_eq_false_2 (LegacyFieldSection.Identity = LegacyFieldSection.Card)) by done.
    rewrite andb_false_r. by destruct (bool_decide (name ∈ _)).
Qed.

Definition set_custom_fields (o : LegacySecret) (l : list LegacyField) : LegacySecret := {|
  ls_format := ls_format o; ls_version := ls_version o; ls_kind := ls_kind o; ls_title := ls_title o;
  ls_username := ls_username o; ls_password := ls_password o; ls_urls := ls_urls o;
  ls_totp := ls_totp o; ls_notes := ls_notes o; ls_custom_fields := l;
  ls_folder := ls_folder o; ls_tags := ls_tags o; ls_favorite := ls_favorite o;
  ls_archived := ls_archived o |}.

Lemma group_to_legacy kind s n l old :
  Forall (legacy_field_ok kind) l →
  fields_to_legacy kind (legacy_section_id s)
    (omap (λ f, f) (imap (λ i f, if bool_decide (lf_section f = s)
                                 then Some (legacy_field s (n + i) f) else None) l)) old
  = Ok (set_custom_fields old (ls_custom_fields old ++ filter (λ f, lf_section f = s) l)).
Proof.
  intros Hl. revert n old. induction Hl as [|f l Hf Hl IH]; intros n old.
  - cbn. rewrite app_nil_r. by destruct old.
  - rewrite imap_cons, (imap_ext _ (λ i f, if bool_decide (lf_section f = s)
      then Some (legacy_field s (S n + i) f) else None)) by (intros; cbn; by rewrite Nat.add_succ_r).
    specialize (IH (S n)). destruct (decide (lf_section f = s)) as [<-|Hs].
    + rewrite bool_decide_eq_true_2, filter_cons_True by done. cbn [omap list_omap fields_to_legacy].
      assert (String.eqb (legacy_section_id (lf_section f)) "account" = false) as Ha
        by by destruct (lf_section f).
      rewrite Ha, custom_field_to_legacy by done. cbn [mbind result_bind].
      etransitivity; [apply IH|]. cbn. by rewrite <- app_assoc.
    + rewrite bool_decide_eq_false_2, filter_cons_False by done. apply IH.
Qed.

(** An item as the first version wrote it: a kind it knew, no empty value, and the fields of
    a card or an identity first. *)
Definition legacy_ok (old : LegacySecret) : Prop :=
  legacy_is_supported old = true
  ∧ ls_kind old ∈ [Kind.Login; Kind.Generic; Kind.SecureNote; Kind.Card; Kind.Identity]
  ∧ ls_username old ≠ Some "" ∧ ls_password old ≠ Some "" ∧ ls_totp old ≠ Some ""
  ∧ "" ∉ ls_urls old
  ∧ Forall (legacy_field_ok (ls_kind old)) (ls_custom_fields old)
  ∧ ls_custom_fields old
    = filter (λ f, lf_section f = LegacyFieldSection.Card) (ls_custom_fields old)
      ++ filter (λ f, lf_section f = LegacyFieldSection.Identity) (ls_custom_fields old)
      ++ filter (λ f, lf_section f = LegacyFieldSection.Custom) (ls_custom_fields old).

Lemma legacy_group_to_legacy kind s l old :
  Forall (legacy_field_ok kind) l →
  fields_to_legacy kind (legacy_section_id s) (legacy_group s l) old
  = Ok (set_custom_fields old (ls_custom_fields old ++ filter (λ f, lf_section f = s) l)).
Proof. apply (group_to_legacy kind s 0). Qed.

Lemma legacy_sections_to_legacy old o :
  legacy_ok old → ls_username o = None → ls_password o = None → ls_totp o = None →
  ls_urls o = [] → ls_custom_fields o = [] →
  sections_to_legacy (ls_kind old) (legacy_sections old) o
  = Ok (set_custom_fields (set_urls (set_totp (set_legacy_password
          (set_username o (ls_username old)) (ls_password old)) (ls_totp old)) (ls_urls old))
        (ls_custom_fields old)).
Proof.
  intros (_ & _ & Hu & Hp & Ht & Hurls & Hf & Hsorted) Hou Hop Hot Hour Hoc.
  unfold legacy_sections. rewrite sections_to_legacy_app.
  rewrite nonempty_section_to_legacy by (rewrite !elem_of_cons; tauto).
  rewrite account_to_legacy_all by done. cbn [mbind result_bind].
  set (o1 := set_urls _ _).
  assert (ls_custom_fields o1 = []) as Hc1 by done. clearbody o1.
  cbn [mbind list_bind]. rewrite app_nil_r, sections_to_legacy_app.
  rewrite nonempty_section_to_legacy, legacy_group_to_legacy by (done || by left).
  cbn [mbind result_bind]. rewrite sections_to_legacy_app.
  rewrite nonempty_section_to_legacy, legacy_group_to_legacy by (done || by left).
  cbn [mbind result_bind].
  rewrite nonempty_section_to_legacy, legacy_group_to_legacy by (done || by left).
  cbn. rewrite Hc1. cbn. f_equal. by rewrite <- app_assoc, <- Hsorted.
Qed.

(** An item of the first version that is converted to the current form is exported back as
    it was: nothing of it is lost or refused. *)
Theorem converted_item_exports_back `{Sha256, Serde LegacySecret} old item :
  legacy_ok old → item_from_legacy old = Ok item → to_legacy item = Ok old.
Proof.
  intros Hok Hi. unfold item_from_legacy in Hi. apply bind_Ok in Hi as (b & _ & Hi).
  apply then_Ok in Hi as [Hv [= <-]]. unfold to_legacy. rewrite Hv. cbn [mbind result_bind].
  cbn [it_source it_kind it_sections it_title it_notes it_folder it_tags it_favorite it_archived].
  pose proof Hok as (Hs & Hk & _). rewrite (bool_decide_eq_true_2 (ls_kind old ∈ _)) by done.
  cbn [negb orb fail_if mbind result_bind].
  change (bool_decide (is_Some (@None Json))) with false. cbn [orb fail_if mbind result_bind].
  rewrite legacy_sections_to_legacy by done. f_equal.
  apply andb_prop in Hs as [Hfmt%String.eqb_eq Hver%Z.eqb_eq].
  destruct old; cbn in *. by subst.
Qed.
End RoundTrip.

(** ** What is stored is read *)

Section Stored.
Context `{Sha256} `{!Serde LegacySecret} `{!Serde PersonalHeader} `{SerdeOk PersonalSecret}.

(** An encoded item has its header. *)
Definition header_of_items : Prop := ∀ (i : PersonalSecret) b,
  serde_to_vec i = Ok b →
  serde_from_slice b = Ok {| ph_format := Some (it_format i); ph_version := Some (it_version i) |}.

Lemma item_encode_Ok i b :
  item_encode i = Ok b → validate i = Ok tt ∧ serde_to_vec i = Ok b ∧ serde_from_slice b = Ok i
    ∧ fail_if (MAX_ITEM_BYTES <? Z.of_nat (length b))
        "personal item exceeds the 512 KiB storage limit" = Ok tt.
Proof.
  unfold item_encode. intros [Hv Hb]%then_Ok. apply bind_Ok in Hb as (b' & Hs%map_err_Ok & Hb).
  apply then_Ok in Hb as [Hlen [= ->]]. split_and!; [done..| |done]. by apply serde_roundtrip.
Qed.

Lemma item_encode_current i b :
  item_encode i = Ok b →
  item_decode_current b
  = if has_storage_id i then Ok i else Err "personal item ID cannot be used as a storage address".
Proof.
  intros (Hv & _ & Hdec & Hlen)%item_encode_Ok. unfold item_decode_current.
  rewrite Hlen. cbn [mbind result_bind]. rewrite Hdec.
  cbn [context map_err mbind result_bind]. rewrite Hv. cbn [mbind result_bind].
  by destruct (has_storage_id i).
Qed.

(** An item that is encoded is what both readers give back: the general one under any title,
    the strict one when the identifier can be an address. *)
Theorem encoded_item_decodes i b title :
  header_of_items → item_encode i = Ok b →
  item_decode title b = Ok i
  ∧ item_decode_current b
    = if has_storage_id i then Ok i else Err "personal item ID cannot be used as a storage address".
Proof.
  intros Hheader Hb. split; [|by apply item_encode_current].
  apply item_encode_Ok in Hb as (Hv & Hs & Hdec & _). pose proof (Hheader _ _ Hs) as Hhead.
  pose proof (proj1 (validate_ok i) Hv) as (Hfmt & Hver & _).
  unfold item_decode, personal_version. rewrite Hhead. cbn [ph_format ph_version].
  rewrite Hfmt, Hver, bool_decide_eq_true_2 by done. cbn match.
  rewrite bool_decide_eq_false_2, bool_decide_eq_true_2 by done.
  rewrite Hdec. cbn. by rewrite Hv.
Qed.

(** What the strict reader accepts is a valid item whose identifier can be an address. *)
Lemma decoded_item_valid b i :
  item_decode_current b = Ok i → item_ok i ∧ has_storage_id i = true.
Proof.
  unfold item_decode_current. intros Hi. inv_ok. split; [by apply validate_ok|].
  by apply negb_false_iff.
Qed.
End Stored.

(** ** The deletions of a journal *)

(** The last revision of an item. *)
Definition last_revision (l : list Revision) (item : string) : option Revision :=
  last (filter (λ r, rv_item_id r = item) l).

Lemma journal_heads_last l heads ids h :
  journal_heads l heads ids = Ok h →
  ∀ item, h !! item = match last_revision l item with
                      | Some r => Some (rv_id r, rv_deleted r)
                      | None => heads !! item
                      end.
Proof.
  revert heads ids. induction l as [|r l IH]; intros heads ids; cbn [journal_heads].
  - by intros [= <-].
  - intros [_ Hh]%then_Ok item. rewrite (IH _ _ Hh). unfold last_revision.
    destruct (decide (rv_item_id r = item)) as [<-|Hne].
    + rewrite filter_cons_True, lookup_insert_eq by done.
      destruct (filter _ l) as [|x k] eqn:Hf; [done|]. rewrite last_cons_cons.
      by destruct (last (x :: k)) eqn:E; [|apply last_None in E].
    + rewrite filter_cons_False, lookup_insert_ne by done. done.
Qed.

(** The deletions an old journal leaves are exactly the items whose last revision deleted
    them, each once and in order. *)
Theorem tombstones_are_last_deletions `{Serde Journal} b journal ids :
  serde_from_slice b = Ok journal → tombstones b = Ok ids →
  NoDup ids ∧ StronglySorted str_le ids
  ∧ ∀ item, item ∈ ids ↔ ∃ r, last_revision (jn_revisions journal) item = Some r
                            ∧ rv_deleted r = true.
Proof.
  intros Hj Hids. unfold tombstones in Hids. rewrite Hj in Hids. cbn [map_err mbind result_bind] in Hids.
  apply then_Ok in Hids as [_ Hids]. apply then_Ok in Hids as [_ Hids].
  apply bind_Ok in Hids as (heads & Hh & Hids). apply then_Ok in Hids as [_ [= <-]].
  pose proof (journal_heads_last _ _ _ _ Hh) as Hlast.
  set (l := filter _ (map_to_list heads)).
  assert (∀ item, item ∈ (λ h : string * (bytes * bool), h.1) <$> l ↔
    ∃ r, last_revision (jn_revisions journal) item = Some r ∧ rv_deleted r = true) as Hin.
  { intros item. rewrite list_elem_of_fmap. split.
    - intros ([i [x d]] & -> & Hin). apply list_elem_of_filter in Hin as [Hd Hin]. cbn in *. subst d.
      apply elem_of_map_to_list in Hin. rewrite Hlast in Hin.
      destruct (last_revision _ _) as [r|]; [|by rewrite lookup_empty in Hin].
      exists r. split; [done|]. by injection Hin.
    - intros (r & Hr & Hd). exists (item, (rv_id r, rv_deleted r)). split; [done|].
      apply list_elem_of_filter. split; [done|]. apply elem_of_map_to_list. by rewrite Hlast, Hr. }
  split_and!.
  - rewrite (sort_by_perm id). apply (sublist_NoDup _ (map_to_list heads).*1); [apply NoDup_fst_map_to_list|].
    apply fmap_sublist, sublist_filter.
  - apply (sort_by_sorted id).
  - intros item. rewrite (sort_by_perm id). apply Hin.
Qed.
