(* ===== verification/Replica.v ===== *)
(** The replicated register of a personal item (src/src/personal/replica.rs): an Automerge
    document of its own with one value, updates that carry every change of it, and the tests
    an update from another device passes before its changes are applied. *)
From Stdlib Require Import ZArith Lia Bool.
From stdpp Require Import base numbers gmap strings list pretty.
From S2P Require Import Prelude Text Chars Core StoreSpec Automerge Personal.
From S2P Require Import PersonalLegacy.

Definition MAX_UPDATE : Z := 1024 * 1024.
Definition MAX_CHANGES : Z := 4096.
Definition VALUE : string := "value".

(** ** Changes *)

Module OpType.
Inductive op_type (S : Type) : Type := Put (value : S) | Delete | Other.
Arguments Put {S} value.
Arguments Delete {S}.
Arguments Other {S}.
End OpType.
(** An operation of [automerge::legacy], as far as it is read: whether it is on the root
    object, its key when it is one of a map, and whether it inserts. *)
Record ExpandedOp (S : Type) : Type := {
  op_root : bool;
  op_map_key : option string;
  op_insert : bool;
  op_action : OpType.op_type S
}.
Arguments op_root {S}.
Arguments op_map_key {S}.
Arguments op_insert {S}.
Arguments op_action {S}.
Record ExpandedChange (S : Type) : Type := {
  ec_operations : list (ExpandedOp S);
  ec_message : option string;
  ec_extra_bytes : bytes;
  ec_author : option bytes
}.
Arguments ec_operations {S}.
Arguments ec_message {S}.
Arguments ec_extra_bytes {S}.
Arguments ec_author {S}.

(** The part of the [automerge] crate that replicas use: the null value, changes, and the
    functions of a document on them.  The functions that take the document mutably close its
    open transaction first, and give the document after. *)
Class AutomergeChanges `{Automerge} := {
  am_obj_eqb : am_obj → am_obj → bool;
  scalar_null : am_scalar;
  scalar_is_null : am_scalar → bool;
  am_change : Type;
  change_from_bytes : bytes → result string am_change;
  change_raw_bytes : am_change → bytes;
  change_hash : am_change → bytes;
  change_deps : am_change → list bytes;
  change_decode : am_change → ExpandedChange am_scalar;
  am_apply_changes : list am_change → am_doc → result string am_doc;
  am_get_missing_deps : am_doc → list bytes * am_doc;
  am_get_changes : am_doc → list am_change * am_doc;
  am_get_heads : am_doc → list bytes * am_doc;
  am_get_all_at : am_doc → am_obj → string → list bytes → result string (list (AmValue am_scalar * am_obj));
  am_merge : am_doc → am_doc → result string am_doc
}.
(** What is documented of them: null is null, bytes are not, and reading the history of a
    document changes nothing that is visible and no heads that were read before. *)
Class AutomergeChangesOk `{AutomergeChanges} `{!AutomergeOk} : Prop := {
  scalar_null_law : scalar_is_null scalar_null = true;
  scalar_bytes_not_null b : scalar_is_null (scalar_bytes b) = false;
  am_get_changes_law d : am_same am_visible am_known d (am_get_changes d).2;
  am_get_heads_law d : am_same am_visible am_known d (am_get_heads d).2;
  am_get_heads_again d : (am_get_heads (am_get_heads d).2).1 = (am_get_heads d).1
}.

(** [base64::engine::general_purpose::STANDARD]. *)
Class Base64Standard := {
  b64_encode : bytes → string;
  b64_decode : string → result string bytes
}.
Class Base64StandardOk `{Base64Standard} : Prop :=
  b64_roundtrip b : b64_decode (b64_encode b) = Ok b.

(** ** Updates *)

Record PersonalUpdate : Set := { pu_item_id : string; pu_changes : list bytes }.
(** The record as it is written: [changes_encoding] makes the changes texts. *)
Record EncodedUpdate : Set := { eu_item_id : string; eu_changes : list string }.
Definition invalid_update : VaultError.error :=
  VaultError.Protocol "invalid personal Automerge changes".

Section Encoding.
Context `{Base64Standard} `{Serde EncodedUpdate}.
Definition update_to_vec (u : PersonalUpdate) : result string bytes :=
  serde_to_vec {| eu_item_id := pu_item_id u; eu_changes := b64_encode <$> pu_changes u |}.
Definition update_from_slice (b : bytes) : result string PersonalUpdate :=
  e ← serde_from_slice b;
  changes ← try_collect b64_decode (eu_changes e);
  Ok {| pu_item_id := eu_item_id e; pu_changes := changes |}.
End Encoding.

Section Replica.
Context `{Base64Standard} `{Serde EncodedUpdate} `{Serde PersonalSecret}.
Context `{AutomergeChanges}.

Record PersonalReplica : Type := { rp_id : string; rp_document : am_doc }.
Abbreviation RM := (SM PersonalReplica).
Definition set_replica_document (r : PersonalReplica) (d : am_doc) : PersonalReplica := {|
  rp_id := rp_id r; rp_document := d |}.
(** Run a function of the document that takes it mutably. *)
Definition on_replica {A} (f : am_doc → A * am_doc) : RM A := λ r,
  let '(a, d) := f (rp_document r) in (Ok a, set_replica_document r d).
Definition change_replica (f : am_doc → result string am_doc) : RM () := λ r,
  match f (rp_document r) with
  | Ok d => (Ok tt, set_replica_document r d)
  | Err _ => (Err invalid_update, r)
  end.

(** [PersonalReplica::new]. *)
Definition replica_create (id : string) (actor : bytes) : VaultResult PersonalReplica :=
  _ ← fail_if (String.eqb id "" || (1024 <? Z.of_nat (String.length id))) invalid_update;
  Ok {| rp_id := id; rp_document := am_new actor |}.

Definition decode_value (id : string) (value : am_scalar) : VaultResult (option PersonalSecret) :=
  if scalar_is_null value then Ok None
  else
    match into_bytes value with
    | Some b =>
        item ← map_err (λ _, invalid_update) (item_decode_current b);
        _ ← fail_if (negb (String.eqb (it_id item) id)) invalid_update;
        Ok (Some item)
    | None => Err invalid_update
    end.

(** Whether the change is a deletion; the others assign one value that can be read. *)
Definition validate_change (id : string) (change : am_change) : VaultResult bool :=
  let expanded := change_decode change in
  match ec_operations expanded with
  | [op] =>
      _ ← fail_if (bool_decide (is_Some (ec_message expanded))
                   || negb (bool_decide (ec_extra_bytes expanded = []))
                   || bool_decide (is_Some (ec_author expanded))) invalid_update;
      _ ← fail_if (negb (op_root op) || negb (bool_decide (op_map_key op = Some VALUE))
                   || op_insert op) invalid_update;
      match op_action op with
      | OpType.Put value => _ ← decode_value id value; Ok false
      | OpType.Delete => Ok true
      | OpType.Other => Err invalid_update
      end
  | _ => Err invalid_update
  end.

(** The values at the register, without repetitions. *)
Fixpoint collect_values (id : string) (l : list (AmValue am_scalar * am_obj))
    (values : list (option PersonalSecret)) : VaultResult (list (option PersonalSecret)) :=
  match l with
  | [] => Ok values
  | (value, _) :: l =>
      item ← match value with AmScalar s => decode_value id s | AmObject _ => Err invalid_update end;
      collect_values id l (if bool_decide (item ∈ values) then values else values ++ [item])
  end.
Definition values_of (r : PersonalReplica) : VaultResult (list (option PersonalSecret)) :=
  l ← map_err (λ _, invalid_update) (am_get_all (rp_document r) am_root VALUE);
  values ← collect_values (rp_id r) l [];
  _ ← fail_if (16 <? Z.of_nat (length values)) invalid_update;
  Ok values.

(** The loop over the bytes of an update: the changes, and the deletions with what they
    depend on.  A change is uncompressed, is its own canonical encoding, and its checksum
    begins its hash. *)
Fixpoint read_changes (id : string) (total : Z) (l : list bytes)
    : VaultResult (list am_change * list (bytes * list bytes)) :=
  match l with
  | [] => Ok ([], [])
  | b :: l =>
      let total := total + Z.of_nat (length b) in
      _ ← fail_if ((MAX_UPDATE <? total) || negb (bool_decide (b !! 8%nat = Some Byte.x01))) invalid_update;
      change ← map_err (λ _, invalid_update) (change_from_bytes b);
      _ ← fail_if (negb (bool_decide (change_raw_bytes change = b))
                   || (length b <? 8)%nat
                   || negb (bool_decide (take 4 (drop 4 b) = take 4 (change_hash change))))
            invalid_update;
      resolution ← validate_change id change;
      rest ← read_changes id total l;
      Ok (change :: rest.1,
          if (resolution : bool) then (change_hash change, change_deps change) :: rest.2 else rest.2)
  end.

(** A deletion only settles a conflict for one of the values before it. *)
Definition check_resolution (d : am_doc) (r : bytes * list bytes) : VaultResult () :=
  before ← map_err (λ _, invalid_update) (am_get_all_at d am_root VALUE r.2);
  after ← map_err (λ _, invalid_update) (am_get_all_at d am_root VALUE [r.1]);
  fail_if ((length before <? 2)%nat
           || match after with
              | [a] => negb (existsb (λ x, am_obj_eqb x.2 a.2) before)
              | _ => true
              end) invalid_update.

Definition from_update (update : PersonalUpdate) (actor : bytes) : VaultResult PersonalReplica :=
  _ ← fail_if (bool_decide (pu_changes update = [])
               || (MAX_CHANGES <? Z.of_nat (length (pu_changes update)))) invalid_update;
  '(changes, resolutions) ← read_changes (pu_item_id update) 0 (pu_changes update);
  replica ← replica_create (pu_item_id update) actor;
  d ← map_err (λ _, invalid_update) (am_apply_changes changes (rp_document replica));
  let '(missing, d) := am_get_missing_deps d in
  let '(all, d) := am_get_changes d in
  _ ← fail_if (negb (bool_decide (missing = []))
               || negb (length all =? length (pu_changes update))%nat) invalid_update;
  _ ← try_collect (check_resolution d) resolutions;
  let replica := set_replica_document replica d in
  _ ← values_of replica;
  Ok replica.

(** [PersonalUpdate::new], [replica], [validate]; [PersonalReplica::load]. *)
Definition update_replica (u : PersonalUpdate) : VaultResult PersonalReplica :=
  from_update u (as_bytes "packet-reader").
Definition update_validate (u : PersonalUpdate) : VaultResult () :=
  _ ← update_replica u; Ok tt.
Definition update_new (item_id : string) (changes : list bytes) : VaultResult PersonalUpdate :=
  let u := {| pu_item_id := item_id; pu_changes := changes |} in
  _ ← update_validate u; Ok u.
Definition load_replica (id : string) (b actor : bytes) : VaultResult PersonalReplica :=
  u ← map_err (λ _, invalid_update) (update_from_slice b);
  _ ← fail_if (negb (String.eqb (pu_item_id u) id)) invalid_update;
  from_update u actor.

(** [update], [save], [heads]. *)
Definition replica_update : RM PersonalUpdate :=
  changes ← on_replica am_get_changes;
  _ ← lift (fail_if (MAX_CHANGES <? Z.of_nat (length changes)) invalid_update);
  id ← reading (λ r, Ok (rp_id r));
  mret {| pu_item_id := id; pu_changes := change_raw_bytes <$> changes |}.
Definition save_replica : RM bytes :=
  u ← replica_update;
  b ← lift (map_err (λ _, invalid_update) (update_to_vec u));
  _ ← lift (fail_if (MAX_UPDATE <? Z.of_nat (length b))
              (VaultError.Protocol "personal Automerge history is full"));
  mret b.
(** Sorted bytes. *)
Fixpoint insert_bytes (x : bytes) (l : list bytes) : list bytes :=
  match l with
  | [] => [x]
  | y :: l => if bytes_ltb y x then y :: insert_bytes x l else x :: y :: l
  end.
Definition replica_heads : RM (list bytes) :=
  heads ← on_replica am_get_heads;
  mret (foldr insert_bytes [] heads).

(** [set]: the heads the caller saw, or no concurrent values; then one value or a tombstone. *)
Definition set_replica (item : option PersonalSecret) (expected : option (list bytes)) : RM () :=
  _ ← match expected with
      | Some expected =>
          heads ← replica_heads;
          lift (fail_if (negb (bool_decide (heads = expected))) VaultError.Conflict)
      | None =>
          values ← reading values_of;
          lift (fail_if (1 <? Z.of_nat (length values)) VaultError.Conflict)
      end;
  id ← reading (λ r, Ok (rp_id r));
  _ ← lift (fail_if (match item with Some item => negb (String.eqb (it_id item) id) | None => false end)
              invalid_update);
  _ ← match item with
      | Some item =>
          b ← lift (map_err (λ _, invalid_update) (item_encode item));
          change_replica (λ d, am_put d am_root VALUE (scalar_bytes b))
      | None => change_replica (λ d, am_put d am_root VALUE scalar_null)
      end;
  _ ← on_replica (λ d, (tt, am_commit d));
  _ ← save_replica;
  mret tt.

(** [merge]: whether it changed the heads. *)
Definition merge_replica (update : PersonalUpdate) : RM bool :=
  id ← reading (λ r, Ok (rp_id r));
  _ ← lift (fail_if (negb (String.eqb id (pu_item_id update))) invalid_update);
  before ← replica_heads;
  actor ← reading (λ r, Ok (am_actor (rp_document r)));
  incoming ← lift (from_update update actor);
  _ ← change_replica (λ d, am_merge d (rp_document incoming));
  _ ← reading values_of;
  _ ← save_replica;
  after ← replica_heads;
  mret (negb (bool_decide (after = before))).
End Replica.

(** * What a replica holds: an accepted update is a register of well-formed items, a value that
    is set is the one that is read, concurrent values are only settled by who saw them, and
    merging keeps a replica readable. *)

Section Replicas.
Context `{Base64Standard} `{Serde EncodedUpdate} `{Serde PersonalSecret}.
Context `{AutomergeChanges}.

(** ** Values *)

(** A value of the register of an item: a tombstone, or a valid item of that identifier. *)
Definition value_ok (id : string) (v : option PersonalSecret) : Prop :=
  match v with
  | Some item => it_id item = id ∧ item_ok item ∧ has_storage_id item = true
  | None => True
  end.
Definition values_ok (id : string) (l : list (option PersonalSecret)) : Prop :=
  NoDup l ∧ (length l ≤ 16)%nat ∧ Forall (value_ok id) l.

Lemma decode_value_ok id s v : decode_value id s = Ok v → value_ok id v.
Proof.
  unfold decode_value. destruct (scalar_is_null s); [by intros [= <-]|].
  destruct (into_bytes s) as [b|]; [|done].
  intros (item & Hi%map_err_Ok & Hv)%bind_Ok. apply then_Ok in Hv as [Hid [= <-]].
  apply fail_if_Ok, negb_false_iff, String.eqb_eq in Hid.
  by apply decoded_item_valid in Hi as [? ?].
Qed.

Lemma collect_values_ok id l vs vs' :
  collect_values id l vs = Ok vs' → NoDup vs → Forall (value_ok id) vs →
  NoDup vs' ∧ Forall (value_ok id) vs'.
Proof.
  revert vs. induction l as [|[value o] l IH]; intros vs; cbn [collect_values]; [by intros [= <-]|].
  intros (v & Hv & Hl)%bind_Ok Hnd Hok.
  assert (value_ok id v) as Hvok by (destruct value; [done|by eapply decode_value_ok]).
  apply IH in Hl; [done|..]; case_bool_decide as Hin; try done.
  - apply NoDup_app. split_and!; [done| |apply NoDup_singleton].
    intros x Hx Hx'. by apply list_elem_of_singleton in Hx' as ->.
  - apply Forall_app. split; [done|]. by apply Forall_singleton.
Qed.

Lemma values_of_ok r vs : values_of r = Ok vs → values_ok (rp_id r) vs.
Proof.
  unfold values_of. intros (l & _ & Hl)%bind_Ok. apply bind_Ok in Hl as (vs' & Hc & Hl).
  apply then_Ok in Hl as [Hlen [= <-]]. apply fail_if_Ok, Z.ltb_ge in Hlen.
  apply collect_values_ok in Hc as [? ?]; [|constructor..]. split_and!; [done|lia|done].
Qed.

(** ** Updates *)

(** What the one operation of a change does in a document with the changes of its update: it
    assigns the register a tombstone or a valid item, or, when it deletes, leaves one of at least
    two values that were concurrent where it was made. *)
Definition settles (d : am_doc) (change : am_change) : Prop :=
  ∃ before after,
    am_get_all_at d am_root VALUE (change_deps change) = Ok before
    ∧ am_get_all_at d am_root VALUE [change_hash change] = Ok [after]
    ∧ (2 ≤ length before)%nat ∧ ∃ x, x ∈ before ∧ am_obj_eqb x.2 after.2 = true.
Definition operation_ok (id : string) (d : am_doc) (change : am_change) (op : ExpandedOp am_scalar) : Prop :=
  op_root op = true ∧ op_map_key op = Some VALUE ∧ op_insert op = false
  ∧ match op_action op with
    | OpType.Put s => ∃ v, decode_value id s = Ok v ∧ value_ok id v
    | OpType.Delete => settles d change
    | OpType.Other => False
    end.
(** A change and its bytes: uncompressed, its own canonical encoding, with the checksum of its
    hash, nothing besides its operation, and that operation is accepted. *)
Definition change_ok (id : string) (d : am_doc) (b : bytes) (change : am_change) : Prop :=
  b !! 8%nat = Some Byte.x01 ∧ change_from_bytes b = Ok change ∧ change_raw_bytes change = b
  ∧ take 4 (drop 4 b) = take 4 (change_hash change)
  ∧ ec_message (change_decode change) = None ∧ ec_extra_bytes (change_decode change) = []
  ∧ ec_author (change_decode change) = None
  ∧ ∃ op, ec_operations (change_decode change) = [op] ∧ operation_ok id d change op.

Lemma validate_change_ok id d c resolution :
  validate_change id c = Ok resolution → (resolution = true → settles d c) →
  ec_message (change_decode c) = None ∧ ec_extra_bytes (change_decode c) = []
  ∧ ec_author (change_decode c) = None
  ∧ ∃ op, ec_operations (change_decode c) = [op] ∧ operation_ok id d c op.
Proof.
  unfold validate_change. destruct (ec_operations _) as [|op [|? ?]]; [done| |done].
  intros [Hx Hv]%then_Ok Hs. apply then_Ok in Hv as [Hop Hv].
  apply fail_if_Ok in Hop, Hx.
  rewrite !orb_false_iff, !bool_decide_eq_false, negb_false_iff, bool_decide_eq_true,
    <- !eq_None_not_Some in Hx.
  rewrite !orb_false_iff, !negb_false_iff, bool_decide_eq_true in Hop.
  split_and!; [tauto..|]. exists op. split; [done|]. split_and!; [tauto..|].
  destruct (op_action op); [|injection Hv as <-; by apply Hs|done].
  apply bind_Ok in Hv as (v & Hv & _). exists v. split; [done|]. by eapply decode_value_ok.
Qed.

Lemma check_resolution_settles d c :
  check_resolution d (change_hash c, change_deps c) = Ok tt → settles d c.
Proof.
  unfold check_resolution. intros (before & Hb%map_err_Ok & Hr)%bind_Ok.
  apply bind_Ok in Hr as (after & Ha%map_err_Ok & Hr). apply fail_if_Ok, orb_false_iff in Hr as [Hl He].
  destruct after as [|x [|? ?]]; [done| |done]. apply negb_false_iff, existsb_exists in He as (y & Hy & He).
  apply Nat.ltb_ge in Hl. exists before, x. split_and!; [done..|]. exists y. by rewrite list_elem_of_In.
Qed.

Definition total_bytes (l : list bytes) : Z := foldr (λ b n, Z.of_nat (length b) + n) 0 l.

(** The loop over the bytes, for a document in which the deletions it lists settle conflicts. *)
Lemma read_changes_ok id d total l changes resolutions us :
  read_changes id total l = Ok (changes, resolutions) → l ≠ [] →
  try_collect (check_resolution d) resolutions = Ok us →
  Forall2 (change_ok id d) l changes ∧ total + total_bytes l ≤ MAX_UPDATE.
Proof.
  revert total changes resolutions us. induction l as [|b l IH]; intros total cs rs us; [done|].
  cbn [read_changes]. intros [Hb Hr]%then_Ok _ Hus. apply bind_Ok in Hr as (c & Hc%map_err_Ok & Hr).
  apply then_Ok in Hr as [Hraw Hr]. apply bind_Ok in Hr as (res & Hv & Hr).
  apply bind_Ok in Hr as ([cs' rs'] & Hrest & [= <- <-]). cbn [fst snd] in Hus.
  apply fail_if_Ok in Hb, Hraw.
  apply orb_false_iff in Hb as [Hb%Z.ltb_ge Hb1%negb_false_iff%bool_decide_eq_true].
  apply orb_false_iff in Hraw as [Hraw Hsum%negb_false_iff%bool_decide_eq_true].
  apply orb_false_iff in Hraw as [Hraw%negb_false_iff%bool_decide_eq_true _].
  assert ((res = true → settles d c) ∧ ∃ us', try_collect (check_resolution d) rs' = Ok us')
    as [Hset [us' Hus']].
  { destruct res; [|split; [done|by exists us]].
    apply bind_Ok in Hus as ([] & Hu%check_resolution_settles & Hus).
    apply bind_Ok in Hus as (us' & Hus & _). split; [done|by exists us']. }
  apply (validate_change_ok id d) in Hv as (? & ? & ? & ?); [|done]. cbn [total_bytes foldr].
  assert (Forall2 (change_ok id d) l cs' ∧ total + Z.of_nat (length b) + total_bytes l ≤ MAX_UPDATE)
    as [Hl Ht].
  { destruct l as [|b' l]; [injection Hrest as <- <-; split; [constructor|cbn; lia]|].
    by eapply IH in Hrest. }
  split; [by constructor|unfold total_bytes in *; lia].
Qed.

(** C25: An update from another device is accepted only as the register of one item: at most 4096
    changes of at most one mebibyte, each uncompressed, canonical and with the checksum of
    its hash, and nothing in it but one operation on the register. Each assigns a tombstone or a
    valid item of that identifier, or deletes, which only leaves one of at least two concurrent
    values it was made on. The replica is the document these changes make, with no other change
    and none missing, and its values are tombstones or valid items of that identifier. *)
Theorem accepted_update_is_register u actor r :
  from_update u actor = Ok r →
  rp_id r = pu_item_id u ∧ pu_item_id u ≠ "" ∧ (String.length (pu_item_id u) ≤ 1024)%nat
  ∧ 0 < Z.of_nat (length (pu_changes u)) ≤ MAX_CHANGES ∧ total_bytes (pu_changes u) ≤ MAX_UPDATE
  ∧ (∃ changes d d' all,
       Forall2 (change_ok (pu_item_id u) (rp_document r)) (pu_changes u) changes
       ∧ am_apply_changes changes (am_new actor) = Ok d
       ∧ am_get_missing_deps d = ([], d') ∧ am_get_changes d' = (all, rp_document r)
       ∧ length all = length (pu_changes u))
  ∧ ∃ values, values_of r = Ok values ∧ values_ok (pu_item_id u) values.
Proof.
  unfold from_update. intros [Hn Hr]%then_Ok. apply fail_if_Ok in Hn.
  rewrite orb_false_iff, bool_decide_eq_false, Z.ltb_ge in Hn. destruct Hn as [Hne Hn].
  apply bind_Ok in Hr as ([changes resolutions] & Hc & Hr).
  apply bind_Ok in Hr as (r0 & Hr0 & Hr). apply bind_Ok in Hr as (d & Hd%map_err_Ok & Hr).
  destruct (am_get_missing_deps d) as [missing d1] eqn:Hm, (am_get_changes d1) as [all d2] eqn:Hall.
  apply then_Ok in Hr as [Hdeps Hr]. apply bind_Ok in Hr as (us & Hus & Hr).
  apply bind_Ok in Hr as (values & Hv & [= <-]).
  unfold replica_create in Hr0. apply then_Ok in Hr0 as [Hid [= <-]]. apply fail_if_Ok in Hid, Hdeps.
  rewrite orb_false_iff, String.eqb_neq, Z.ltb_ge in Hid. destruct Hid as [Hid Hlen].
  rewrite orb_false_iff, !negb_false_iff, bool_decide_eq_true, Nat.eqb_eq in Hdeps.
  destruct Hdeps as [-> Hl].
  apply (read_changes_ok _ d2 _ _ _ _ us) in Hc as [Hc Ht]; [|done..].
  cbn [rp_id rp_document set_replica_document] in *.
  split_and!; [done|done|lia| |done|lia| |].
  - destruct (pu_changes u); [done|cbn; lia].
  - by exists changes, d, d1, all.
  - exists values. split; [done|]. by apply values_of_ok in Hv.
Qed.

(** ** Changing a replica *)

Context `{!SerdeOk PersonalSecret} `{!AutomergeOk} `{!AutomergeChangesOk}.

Lemma values_of_same r d :
  am_same am_visible am_known (rp_document r) d → values_of (set_replica_document r d) = values_of r.
Proof.
  intros [Hk Hv]. unfold values_of. cbn [rp_document rp_id set_replica_document].
  rewrite !am_get_all_law by apply am_root_law. by rewrite Hv by apply am_root_law.
Qed.

Lemma on_replica_Ok {A} (f : am_doc → A * am_doc) r a r' :
  on_replica f r = (Ok a, r') ↔ f (rp_document r) = (a, rp_document r') ∧ rp_id r' = rp_id r.
Proof.
  unfold on_replica. destruct (f (rp_document r)) as [x d]. split.
  - intros [= -> <-]. done.
  - intros [[= -> ->] Hid]. f_equal. unfold set_replica_document. rewrite <- Hid. by destruct r'.
Qed.

(** Saving and the heads leave the values as they are. *)
Definition keeps_values {A} (m : SM PersonalReplica A) : Prop :=
  ∀ r, values_of (m r).2 = values_of r ∧ rp_id (m r).2 = rp_id r.
Lemma keeps_values_bind {A B} (m : SM PersonalReplica A) (f : A → SM PersonalReplica B) :
  keeps_values m → (∀ a, keeps_values (f a)) → keeps_values (m ≫= f).
Proof.
  intros Hm Hf r. specialize (Hm r). unfold mbind, sm_bind. destruct (m r) as [[a|e] r1]; [|done].
  cbn in Hm. destruct (Hf a r1) as [-> ->]. done.
Qed.
Lemma keeps_values_lift {A} (x : VaultResult A) : keeps_values (lift x).
Proof. done. Qed.
Lemma keeps_values_reading {A} (f : PersonalReplica → VaultResult A) : keeps_values (reading f).
Proof. done. Qed.
Lemma keeps_values_ret {A} (a : A) : keeps_values (mret a).
Proof. done. Qed.
Lemma keeps_values_on {A} (f : am_doc → A * am_doc) :
  (∀ d, am_same am_visible am_known d (f d).2) → keeps_values (on_replica f).
Proof.
  intros Hf r. unfold on_replica. specialize (Hf (rp_document r)).
  destruct (f (rp_document r)) as [a d]. split; [|done]. by apply values_of_same.
Qed.
Lemma keeps_values_heads : keeps_values replica_heads.
Proof.
  apply keeps_values_bind; [apply keeps_values_on, am_get_heads_law|].
  intros heads. apply keeps_values_ret.
Qed.
(** Heads that were read are read again. *)
Lemma heads_again r h r' : replica_heads r = (Ok h, r') → (replica_heads r').1 = Ok h.
Proof.
  unfold replica_heads, on_replica, mbind, sm_bind. pose proof (am_get_heads_again (rp_document r)) as Ha.
  destruct (am_get_heads (rp_document r)) as [hs d]. cbn in Ha |- *. intros [= <- <-]. cbn.
  destruct (am_get_heads d) as [hs' d']. cbn in *. by subst.
Qed.
Lemma keeps_values_save : keeps_values save_replica.
Proof.
  unfold save_replica, replica_update.
  repeat first [apply keeps_values_bind; [|intros ?]|apply keeps_values_lift
    |apply keeps_values_reading|apply keeps_values_ret|apply keeps_values_on, am_get_changes_law].
Qed.

Lemma put_then_read r s d :
  am_put (rp_document r) am_root VALUE s = Ok d →
  ∀ v, decode_value (rp_id r) s = Ok v → values_of (set_replica_document r (am_commit d)) = Ok [v].
Proof.
  intros Hput v Hv. pose proof (am_put_law _ _ _ _ _ Hput (am_root_law _)) as (_ & _ & _ & (id & Hvis) & _).
  pose proof (am_commit_law d) as [[_ Hsame] _]. unfold values_of. cbn [rp_document rp_id set_replica_document].
  rewrite am_get_all_law by apply am_root_law. rewrite Hsame by apply am_root_law.
  rewrite Hvis, lookup_insert_eq. cbn. by rewrite Hv.
Qed.

Lemma set_replica_values item expected r r' :
  set_replica item expected r = (Ok tt, r') →
  (∀ i, item = Some i → has_storage_id i = true) →
  values_of r' = Ok [item] ∧ rp_id r' = rp_id r
  ∧ match expected with
    | Some heads => (replica_heads r).1 = Ok heads
    | None => ∃ values, values_of r = Ok values ∧ (length values ≤ 1)%nat
    end.
Proof.
  intros Hset Hitem. unfold set_replica in Hset.
  apply sm_bind_Ok in Hset as ([] & r1 & Hexp & Hset).
  assert (rp_id r1 = rp_id r ∧ match expected with
    | Some heads => (replica_heads r).1 = Ok heads
    | None => ∃ values, values_of r = Ok values ∧ (length values ≤ 1)%nat
    end) as [Hid1 Hguard].
  { destruct expected as [heads|].
    - apply sm_bind_Ok in Hexp as (hs & r0 & Hh & Hexp). apply lift_Ok in Hexp as [Heq ->].
      apply fail_if_Ok, negb_false_iff, bool_decide_eq_true in Heq as ->.
      pose proof (keeps_values_heads r) as [_ Hk]. by rewrite Hh in *.
    - apply sm_bind_Ok in Hexp as (vs & r0 & [= Hv <-] & Hexp). apply lift_Ok in Hexp as [Hlen ->].
      apply fail_if_Ok, Z.ltb_ge in Hlen. split; [done|]. exists vs. split; [done|lia]. }
  apply sm_bind_Ok in Hset as (id & ? & [= <- <-] & Hset).
  apply sm_bind_Ok in Hset as ([] & ? & [Hsame ->]%lift_Ok & Hset).
  apply sm_bind_Ok in Hset as ([] & r2 & Hput & Hset).
  apply sm_bind_Ok in Hset as ([] & r3 & Hc & Hset). injection Hc as <-.
  apply sm_bind_Ok in Hset as (b & r4 & Hs & [= <-]).
  pose proof (keeps_values_save (set_replica_document r2 (am_commit (rp_document r2)))) as [Hv Hi].
  rewrite Hs in Hv, Hi. cbn [snd] in Hv, Hi. rewrite Hv, Hi. cbn [rp_id set_replica_document].
  assert (∃ s d, r2 = set_replica_document r1 d ∧ am_put (rp_document r1) am_root VALUE s = Ok d
    ∧ decode_value (rp_id r1) s = Ok item) as (s & d & -> & Hd & Hdec).
  { destruct item as [i|].
    - apply sm_bind_Ok in Hput as (bs & ? & [Henc%map_err_Ok ->]%lift_Ok & Hput).
      unfold change_replica in Hput. destruct (am_put _ _ _ _) as [d|] eqn:Hd; [|done].
      injection Hput as <-. exists (scalar_bytes bs), d. split_and!; [done..|].
      unfold decode_value. rewrite scalar_bytes_not_null, into_bytes_law.
      rewrite (item_encode_current _ _ Henc), Hitem by done. cbn [map_err mbind result_bind].
      by rewrite Hsame.
    - unfold change_replica in Hput. destruct (am_put _ _ _ _) as [d|] eqn:Hd; [|done].
      injection Hput as <-. exists scalar_null, d. split_and!; [done..|].
      unfold decode_value. by rewrite scalar_null_law. }
  split_and!; [|by rewrite <- Hid1|done].
  by apply (put_then_read r1 s d).
Qed.

(** What is set is the only value that is read after, for an item whose identifier can be an
    address; and a replica with concurrent values is not written unless the caller names the
    heads it saw. *)
Theorem set_replica_reads_back item expected r r' :
  set_replica item expected r = (Ok tt, r') →
  (∀ i, item = Some i → has_storage_id i = true) →
  values_of r' = Ok [item] ∧ rp_id r' = rp_id r
  ∧ match expected with
    | Some heads => (replica_heads r).1 = Ok heads
    | None => ∃ values, values_of r = Ok values ∧ (length values ≤ 1)%nat
    end.
Proof. apply set_replica_values. Qed.

(** A merge is of an update of the same item, and what it leaves is readable: at most sixteen
    values, each a tombstone or a valid item of that identifier. *)
Theorem merged_replica_readable u r b r' :
  merge_replica u r = (Ok b, r') →
  pu_item_id u = rp_id r ∧ rp_id r' = rp_id r
  ∧ ∃ values, values_of r' = Ok values ∧ values_ok (rp_id r) values.
Proof.
  unfold merge_replica. intros Hm.
  apply sm_bind_Ok in Hm as (id & ? & [= <- <-] & Hm).
  apply sm_bind_Ok in Hm as ([] & ? & [Hid ->]%lift_Ok & Hm).
  apply fail_if_Ok, negb_false_iff, String.eqb_eq in Hid.
  apply sm_bind_Ok in Hm as (before & r1 & Hb & Hm).
  apply sm_bind_Ok in Hm as (actor & ? & [= <- <-] & Hm).
  apply sm_bind_Ok in Hm as (incoming & ? & [_ ->]%lift_Ok & Hm).
  apply sm_bind_Ok in Hm as ([] & r2 & Hc & Hm).
  apply sm_bind_Ok in Hm as (values & ? & [= Hv <-] & Hm).
  assert (rp_id r2 = rp_id r) as Hid2.
  { pose proof (keeps_values_heads r) as [_ Hk]. rewrite Hb in Hk. unfold change_replica in Hc.
    destruct (am_merge _ _); [|done]. injection Hc as <-. done. }
  assert (keeps_values (_ ← save_replica; after ← replica_heads;
    mret (negb (bool_decide (after = before))) : SM PersonalReplica bool)) as Hk.
  { apply keeps_values_bind; [apply keeps_values_save|intros ?].
    apply keeps_values_bind; [apply keeps_values_heads|intros ?]. apply keeps_values_ret. }
  specialize (Hk r2). rewrite Hm in Hk. destruct Hk as [Hkv Hki]. cbn [snd] in *.
  split_and!; [done|congruence|]. exists values. split; [congruence|].
  apply values_of_ok in Hv. by rewrite Hid2 in Hv.
Qed.
End Replicas.
