(* ===== verification/PersonalStore.v ===== *)
(** Personal items and replicas as the secret document uses them: the implementation of
    [PersonalItems], and the conversions of documents whose items were addressed by title
    or had no replicas (src/src/vault/document/personal.rs, document/replicas.rs). *)
From Stdlib Require Import ZArith Lia Bool.
From stdpp Require Import base numbers gmap strings list pretty.
From S2P Require Import Prelude Text Chars Core Address Wire History StoreSpec Automerge Document.
From S2P Require Import Website Totp Personal PersonalLegacy Replica.

Section PersonalStore.
Context `{Base64Standard} `{Serde EncodedUpdate} `{Serde Personal.PersonalSecret}.
Context `{AutomergeChanges}.

(** [replica.set(item, None)] and [replica.save()] on a replica the caller owns: what is left
    after an error is dropped. *)
Definition replica_after {A B} (m : SM Replica.PersonalReplica A)
    (f : A → Replica.PersonalReplica → B) (r : Replica.PersonalReplica) : VaultResult B :=
  match m r with
  | (Ok a, r) => Ok (f a r)
  | (Err e, _) => Err e
  end.

#[export] Instance personal_items : PersonalItems := {|
  Document.PersonalSecret := Personal.PersonalSecret;
  decode_current b := ok (item_decode_current b);
  ps_id := it_id;
  ps_title := it_title;
  ps_kind_label i := kind_label (it_kind i);
  ps_username := Personal.username;
  ps_website_host := website_host;
  ps_favorite := it_favorite;
  Document.PersonalReplica := Replica.PersonalReplica;
  replica_new := replica_create;
  replica_load := load_replica;
  replica_values := values_of;
  replica_set r item := replica_after (set_replica item None) (λ _ r, r) r;
  replica_save r := replica_after save_replica (λ b _, b) r
|}.

Context `{Sha256} `{Base64} `{Serde SecretRecord} `{Serde ReplicaCatalog} `{Serde RecordDeadline}.
Context `{Serde Journal}.

(** ** Documents without replicas *)

Definition LEGACY_REVISIONS : string := "personal-revisions-v1".

(** One entry: the replica of its only value. *)
Fixpoint add_replicas (d : SecretDocument) (actor : bytes) (l : list (string * SecretAddress))
    (catalog : ReplicaCatalog) : VaultResult ReplicaCatalog :=
  match l with
  | [] => Ok catalog
  | (key, address) :: l =>
      local ← ok_or descriptor_mismatch (as_local address);
      found ← document_records d key;
      record ← ok_or descriptor_mismatch (head found);
      item ← map_err (λ _, descriptor_mismatch) (item_decode_current (sr_value record));
      replica ← replica_create local.1 actor;
      replica ← replica_set replica (Some item);
      catalog ← catalog_store catalog local.1 replica true;
      add_replicas d actor l catalog
  end.
(** One deletion of the journal: a tombstone of an item that has no value. *)
Fixpoint add_tombstones (actor : bytes) (l : list string) (catalog : ReplicaCatalog)
    : VaultResult ReplicaCatalog :=
  match l with
  | [] => Ok catalog
  | id :: l =>
      _ ← fail_if (bool_decide (is_Some (rc_replicas catalog !! id))) descriptor_mismatch;
      replica ← replica_create id actor;
      replica ← replica_set replica None;
      catalog ← catalog_store catalog id replica true;
      add_tombstones actor l catalog
  end.
Definition legacy_tombstones (d : SecretDocument) : VaultResult (list string) :=
  found ← automerge_error (am_get (sd_document d) am_root LEGACY_REVISIONS);
  match found with
  | Some (value, _) =>
      b ← ok_or descriptor_mismatch
            (match value with AmScalar s => into_bytes s | AmObject _ => None end);
      tombstones b
  | None => Ok []
  end.
Definition migrated_catalog (d : SecretDocument) : VaultResult ReplicaCatalog :=
  let actor := am_actor (sd_document d) in
  addresses ← document_addresses d;
  catalog ← add_replicas d actor addresses catalog_default;
  deleted ← legacy_tombstones d;
  add_tombstones actor deleted catalog.

(** [migrate_personal_replicas]. *)
Definition migrate_personal_replicas : SM SecretDocument (option DocumentMutation) := λ d,
  if negb (document_is_personal d) then (Ok None, d)
  else
    match am_get (sd_document d) am_root REPLICAS with
    | Err e => (Err (VaultError.Automerge e), d)
    | Ok (Some _) => (Ok None, d)
    | Ok None =>
        transact
          (catalog ← reading migrated_catalog;
           _ ← save_personal_replicas catalog;
           mutation ← finish_mutation;
           mret (Some mutation)) d
    end.

(** ** Every item and every deletion, once *)

Context `{!SerdeOk Personal.PersonalSecret} `{!AutomergeOk} `{!AutomergeChangesOk}.

(** The bytes of a replica that holds one value. *)
Definition saved_value (id : string) (v : option Personal.PersonalSecret) (b : bytes) : Prop :=
  ∃ r, rp_id r = id ∧ values_of r = Ok [v] ∧ replica_save r = Ok b.
(** The item an entry of the document has: its newest record, decoded. *)
Definition entry_item (d : SecretDocument) (key : string) (i : Personal.PersonalSecret) : Prop :=
  ∃ record older, document_records d key = Ok (record :: older)
    ∧ item_decode_current (sr_value record) = Ok i.
(** A catalog in which every replica is pending. *)
Definition all_pending (c : ReplicaCatalog) : Prop := rc_pending c = dom (rc_replicas c).

Lemma catalog_store_Ok c id r c' :
  catalog_store c id r true = Ok c' →
  ∃ b, replica_save r = Ok b ∧ rc_replicas c' = <[id := b]> (rc_replicas c)
    ∧ rc_pending c' = {[id]} ∪ rc_pending c.
Proof.
  unfold catalog_store. intros [_ Hs]%then_Ok. apply bind_Ok in Hs as (b & Hb & [= <-]). by exists b.
Qed.

Lemma replica_of_value id actor v r0 r :
  replica_create id actor = Ok r0 → replica_set r0 v = Ok r →
  (∀ i, v = Some i → has_storage_id i = true) → rp_id r = id ∧ values_of r = Ok [v].
Proof.
  unfold replica_create. intros [_ [= <-]]%then_Ok Hset Hid.
  change (replica_after (set_replica v None) (λ _ r, r) {| rp_id := id; rp_document := am_new actor |}
    = Ok r) in Hset. unfold replica_after in Hset.
  destruct (set_replica v None _) as [[[]|e] r1] eqn:Hs; [|done]. injection Hset as <-.
  by apply set_replica_values in Hs as (? & ? & _).
Qed.

(** What a step adds under an identifier, and what it leaves. *)
Lemma catalog_store_value c id v r c' :
  catalog_store c id r true = Ok c' → rp_id r = id → values_of r = Ok [v] → all_pending c →
  all_pending c' ∧ (∃ b, rc_replicas c' !! id = Some b ∧ saved_value id v b)
  ∧ ∀ id', id' ≠ id → rc_replicas c' !! id' = rc_replicas c !! id'.
Proof.
  intros (b & Hb & Hr & Hp)%catalog_store_Ok Hid Hv Hall. rewrite Hr. split_and!.
  - unfold all_pending in *. by rewrite Hp, Hr, Hall, dom_insert_L.
  - exists b. rewrite lookup_insert_eq. split; [done|]. by exists r.
  - intros id' Hne. by rewrite lookup_insert_ne.
Qed.

Lemma add_replicas_Ok d actor l c c' :
  add_replicas d actor l c = Ok c' → all_pending c →
  all_pending c'
  ∧ (∀ key a id f, (key, a) ∈ l → as_local a = Some (id, f) → is_Some (rc_replicas c' !! id))
  ∧ ∀ id b, rc_replicas c' !! id = Some b →
      rc_replicas c !! id = Some b
      ∨ ∃ key a f i, (key, a) ∈ l ∧ as_local a = Some (id, f) ∧ entry_item d key i
          ∧ saved_value id (Some i) b.
Proof.
  revert c. induction l as [|[key a] l IH]; intros c; cbn [add_replicas].
  - intros [= <-] Hp. split_and!; [done| |by left]. intros ? ? ? ? Hin. by apply elem_of_nil in Hin.
  - intros ([id f] & Ha%ok_or_Ok & Hc)%bind_Ok Hp. apply bind_Ok in Hc as (found & Hf & Hc).
    apply bind_Ok in Hc as (record & Hhead%ok_or_Ok & Hc).
    apply bind_Ok in Hc as (i & Hi%map_err_Ok & Hc).
    assert (entry_item d key i) as Hentry.
    { destruct found as [|x older]; [done|]. injection Hhead as ->. by exists record, older. }
    apply bind_Ok in Hc as (r0 & Hr0 & Hc). apply bind_Ok in Hc as (r & Hr & Hc).
    apply bind_Ok in Hc as (c1 & Hc1 & Hc). cbn [fst] in *.
    apply decoded_item_valid in Hi as [_ Hi].
    destruct (replica_of_value id actor (Some i) r0 r Hr0 Hr) as [Hid Hv]; [by intros ? [= <-]|].
    destruct (catalog_store_value _ _ _ _ _ Hc1 Hid Hv Hp) as (Hp1 & (b & Hb & Hs) & Hother).
    destruct (IH c1 Hc Hp1) as (Hp' & Hin & Hval).
    assert (∀ c c' l, add_replicas d actor l c = Ok c' → ∀ id, is_Some (rc_replicas c !! id) →
      is_Some (rc_replicas c' !! id)) as Hmono.
    { clear. intros c c' l. revert c. induction l as [|[key a] l IH]; intros c; cbn [add_replicas];
        [by intros [= <-]|].
      intros ([id f] & _ & Hc)%bind_Ok. apply bind_Ok in Hc as (? & _ & Hc).
      apply bind_Ok in Hc as (? & _ & Hc). apply bind_Ok in Hc as (? & _ & Hc).
      apply bind_Ok in Hc as (? & _ & Hc). apply bind_Ok in Hc as (? & _ & Hc).
      apply bind_Ok in Hc as (c1 & (b & _ & Hr & _)%catalog_store_Ok & Hc).
      intros id' Hid'. apply (IH c1 Hc). rewrite Hr. apply lookup_insert_is_Some'. by right. }
    split_and!; [done|..].
    + intros key' a' id' f' [[= -> ->]|Hl]%elem_of_cons Ha'; [|by eapply Hin].
      rewrite Ha in Ha'. injection Ha' as <- <-. apply (Hmono c1 c' l Hc). by exists b.
    + intros id' b' Hb'. destruct (Hval _ _ Hb') as [Hold|(key' & a' & f' & i' & Hl & ? & ? & ?)].
      * destruct (decide (id' = id)) as [->|Hne].
        -- right. rewrite Hb in Hold. injection Hold as <-. exists key, a, f, i.
           split_and!; [by left|done..].
        -- left. by rewrite <- Hother.
      * right. exists key', a', f', i'. split_and!; [by right|done..].
Qed.

Lemma add_tombstones_Ok actor l c c' :
  add_tombstones actor l c = Ok c' → all_pending c →
  all_pending c'
  ∧ (∀ id, id ∈ l → rc_replicas c !! id = None
       ∧ ∃ b, rc_replicas c' !! id = Some b ∧ saved_value id None b)
  ∧ ∀ id, id ∉ l → rc_replicas c' !! id = rc_replicas c !! id.
Proof.
  revert c. induction l as [|id l IH]; intros c; cbn [add_tombstones].
  - intros [= <-] Hp. split_and!; [done| |done]. intros id Hin. by apply elem_of_nil in Hin.
  - intros [Hn Hc]%then_Ok Hp. apply fail_if_Ok, bool_decide_eq_false in Hn.
    apply eq_None_not_Some in Hn.
    apply bind_Ok in Hc as (r0 & Hr0 & Hc). apply bind_Ok in Hc as (r & Hr & Hc).
    apply bind_Ok in Hc as (c1 & Hc1 & Hc).
    destruct (replica_of_value id actor None r0 r Hr0 Hr) as [Hid Hv]; [done|].
    destruct (catalog_store_value _ _ _ _ _ Hc1 Hid Hv Hp) as (Hp1 & (b & Hb & Hs) & Hother).
    destruct (IH c1 Hc Hp1) as (Hp' & Hin & Hout).
    assert (id ∉ l) as Hl. { intros Hl. apply Hin in Hl as [Hl _]. by rewrite Hl in Hb. }
    split_and!; [done|..].
    + intros id' [->|Hin']%elem_of_cons.
      * split; [done|]. exists b. by rewrite Hout.
      * destruct (Hin id' Hin') as [Hnone ?]. split; [|done].
        rewrite <- Hother; [done|]. by intros ->.
    + intros id' [Hne Hout']%not_elem_of_cons. by rewrite Hout, Hother.
Qed.

(** C26: The conversion makes one pending replica for every item the document has and every item
    the old journal deleted, and no other: of the item the newest record of its entry decodes to,
    unchanged, or a tombstone.  A deleted item with a value fails the conversion, so no deletion
    brings a value back. *)
Theorem migrated_catalog_complete d c addresses deleted :
  document_addresses d = Ok addresses → legacy_tombstones d = Ok deleted →
  migrated_catalog d = Ok c →
  all_pending c
  ∧ (∀ id, is_Some (rc_replicas c !! id) ↔
      id ∈ deleted ∨ ∃ key a f, (key, a) ∈ addresses ∧ as_local a = Some (id, f))
  ∧ ∀ id b, rc_replicas c !! id = Some b →
      if decide (id ∈ deleted)
      then saved_value id None b ∧ ∀ key a f, (key, a) ∈ addresses → as_local a ≠ Some (id, f)
      else ∃ key a f i, (key, a) ∈ addresses ∧ as_local a = Some (id, f) ∧ entry_item d key i
        ∧ saved_value id (Some i) b.
Proof.
  intros Ha Hd. unfold migrated_catalog. rewrite Ha, Hd. cbn [mbind result_bind].
  intros (c1 & Hc1 & Hc)%bind_Ok. cbn [mbind result_bind] in Hc.
  apply add_replicas_Ok in Hc1 as (Hp1 & Hin1 & Hval1); [|done].
  apply add_tombstones_Ok in Hc as (Hp & Hdel & Hother); [|done].
  assert (∀ id b, rc_replicas c1 !! id = Some b →
    ∃ key a f i, (key, a) ∈ addresses ∧ as_local a = Some (id, f) ∧ entry_item d key i
      ∧ saved_value id (Some i) b) as Hval.
  { intros id b Hb. destruct (Hval1 id b Hb) as [Hb'|?]; [|done]. cbn in Hb'.
    by rewrite lookup_empty in Hb'. }
  split_and!; [done|..].
  - intros id. destruct (decide (id ∈ deleted)) as [Hi|Hi].
    + destruct (Hdel id Hi) as (_ & b & Hb & _). rewrite Hb. split; [by left|done].
    + rewrite (Hother id Hi). split.
      * intros [b Hb]. right. apply Hval in Hb as (key & a & f & _ & ? & ? & _). by exists key, a, f.
      * intros [?|(key & a & f & ? & ?)]; [done|]. by eapply Hin1.
  - intros id b Hb. destruct (decide (id ∈ deleted)) as [Hi|Hi].
    + destruct (Hdel id Hi) as (Hnone & b' & Hb' & Hs). rewrite Hb in Hb'. injection Hb' as <-.
      split; [done|]. intros key a f Hin Hloc. destruct (Hin1 _ _ _ _ Hin Hloc) as [x Hx].
      by rewrite Hnone in Hx.
    + rewrite (Hother id Hi) in Hb. by apply Hval.
Qed.
End PersonalStore.
