(* ===== verification/PersonalWitness.v ===== *)
(** The theorems on personal items and their replicas at concrete items, with a document in
    memory whose changes are its values. *)
From Stdlib Require Import ZArith Lia Bool.
From stdpp Require Import base numbers gmap strings list pretty sorting.
From S2P Require Import Prelude Text Chars Core Address Instances Wire History StoreSpec Automerge.
From S2P Require Import Document Website Totp Personal PersonalLegacy Replica.
From S2P Require Import PersonalStore.

#[local] Existing Instances demo_sha256 demo_base64.

(** ** Items *)

Definition other : Personal.PersonalSecret := template "other" Kind.Generic "Other".
Definition item : Personal.PersonalSecret :=
  default other (login "item-1" "Example" "https://example.com" "alice").
Definition legacy_item : LegacySecret := {|
  ls_format := PERSONAL_FORMAT; ls_version := 1; ls_kind := Kind.Card; ls_title := "Bank";
  ls_username := Some "alice"; ls_password := Some "pw"; ls_urls := ["https://bank.example"];
  ls_totp := None; ls_notes := Some "n"; ls_custom_fields :=
    [{| lf_name := "number"; lf_value := "4111"; lf_section := LegacyFieldSection.Card;
        lf_type := 0; lf_linked_id := None |};
     {| lf_name := "agreed"; lf_value := "true"; lf_section := LegacyFieldSection.Custom;
        lf_type := 2; lf_linked_id := None |};
     {| lf_name := "link"; lf_value := ""; lf_section := LegacyFieldSection.Custom;
        lf_type := 3; lf_linked_id := Some 101 |};
     {| lf_name := "odd"; lf_value := "x"; lf_section := LegacyFieldSection.Custom;
        lf_type := 17; lf_linked_id := None |}];
  ls_folder := None; ls_tags := ["t"]; ls_favorite := true; ls_archived := false |}.
#[local] Instance legacy_field_eq_dec : EqDecision LegacyField.
Proof. solve_decision. Defined.
#[local] Instance legacy_eq_dec : EqDecision LegacySecret.
Proof. solve_decision. Defined.

#[local] Instance item_serde : Serde Personal.PersonalSecret := table_serde [other; item].
#[local] Instance item_serde_ok : SerdeOk Personal.PersonalSecret := table_serde_ok _.
#[local] Instance legacy_serde : Serde LegacySecret := table_serde [legacy_item].
#[local] Instance header_serde : Serde PersonalHeader := {|
  serde_to_vec _ := Err "not written";
  serde_from_slice b :=
    match serde_from_slice (A := Personal.PersonalSecret) b with
    | Ok i => Ok {| ph_format := Some (it_format i); ph_version := Some (it_version i) |}
    | Err e => Err e
    end |}.
#[local] Instance demo_json_text : JsonText := λ _, "".

Lemma one_time_password_is_set_witness :
  validate other = Ok tt
  ∧ one_time_password (set_one_time_password "otpauth://totp/x?secret=AA" other)
    = Some "otpauth://totp/x?secret=AA"
  ∧ (pf_id <$> all_fields (set_one_time_password "otpauth://totp/x?secret=AA" other))
    = ["password"; "custom-0"].
Proof.
  split_and!; [by vm_compute| |by vm_compute].
  apply (one_time_password_is_set "otpauth://totp/x?secret=AA" other). by vm_compute.
Defined.

Lemma encoded_item_decodes_witness :
  ∃ b, item_encode item = Ok b ∧ item_decode "any" b = Ok item ∧ item_decode_current b = Ok item.
Proof.
  exists [Byte.x01]. assert (item_encode item = Ok [Byte.x01]) as Hb by by vm_compute.
  destruct (encoded_item_decodes item [Byte.x01] "any") as [Hd Hc]; [|done|].
  - intros i b Hi. apply serde_roundtrip in Hi. unfold serde_from_slice at 1. cbn -[serde_from_slice].
    by rewrite Hi.
  - split_and!; [done|done|]. rewrite Hc. by vm_compute.
Defined.

Lemma converted_item_exports_back_witness :
  ∃ i, item_from_legacy legacy_item = Ok i ∧ to_legacy i = Ok legacy_item
    ∧ length (it_sections i) = 3%nat.
Proof.
  destruct (item_from_legacy legacy_item) as [i|e] eqn:Hi; [|by vm_compute in Hi].
  exists i. split_and!; [done| |].
  - apply (converted_item_exports_back legacy_item i); [|done].
    split_and!; try done.
    + by apply (bool_decide_unpack _); vm_compute.
    + by apply (bool_decide_unpack _); vm_compute.
    + repeat constructor; vm_compute; congruence.
  - vm_compute in Hi. by injection Hi as <-.
Defined.

(** ** The journal *)

Definition revision (id : Byte.byte) (item : string) (parent : option Byte.byte) (deleted : bool)
    : Revision := {|
  rv_id := [id]; rv_item_id := item; rv_parent := (λ b, [b]) <$> parent; rv_deleted := deleted |}.
Definition journal : Journal := {|
  jn_revisions := [revision Byte.x01 "gone" None false; revision Byte.x02 "kept" None true;
                   revision Byte.x03 "gone" (Some Byte.x01) true;
                   revision Byte.x04 "kept" (Some Byte.x02) false];
  jn_pending := {[ [Byte.x03] ]} |}.
#[local] Instance journal_serde : Serde Journal := {|
  serde_to_vec _ := Ok []; serde_from_slice _ := Ok journal |}.

Lemma tombstones_are_last_deletions_witness :
  tombstones [] = Ok ["gone"] ∧ NoDup ["gone"]
  ∧ ∃ r, last_revision (jn_revisions journal) "gone" = Some r ∧ rv_deleted r = true.
Proof.
  assert (tombstones [] = Ok ["gone"]) as Ht by by vm_compute.
  assert (serde_from_slice (A := Journal) [] = Ok journal) as Hj by done.
  destruct (tombstones_are_last_deletions [] journal ["gone"] Hj Ht) as (Hn & _ & Hin).
  split_and!; [done|done|]. apply Hin. by left.
Defined.

(** ** Replicas *)

#[local] Instance demo_standard : Base64Standard := {|
  b64_encode := of_bytes; b64_decode s := Ok (as_bytes s) |}.
#[local] Instance update_eq_dec : EqDecision EncodedUpdate.
Proof. solve_decision. Defined.

(** A change is eight bytes, the mark of an uncompressed change, and a value. *)
Definition change_of (payload : bytes) : bytes := replicate 8 Byte.x00 ++ Byte.x01 :: payload.
Definition null : DemoScalar := DStr "null".
Definition payload_scalar (p : bytes) : DemoScalar := match p with [] => null | _ => DBytes p end.
Definition scalar_payload (s : DemoScalar) : bytes := match s with DBytes p => p | _ => [] end.
Definition apply_change (c : bytes) (d : DemoDocument) : result string DemoDocument :=
  am_put (Automerge := demo_automerge) d false VALUE (payload_scalar (drop 9 c)).
#[local] Instance demo_changes : AutomergeChanges := {|
  am_obj_eqb := eqb; scalar_null := null; scalar_is_null s := bool_decide (s = null);
  am_change := bytes; change_from_bytes := Ok; change_raw_bytes c := c;
  change_hash c := drop 4 c; change_deps _ := [];
  change_decode c := {| ec_operations := [{| op_root := true; op_map_key := Some VALUE;
      op_insert := false; op_action := OpType.Put (payload_scalar (drop 9 c)) |}];
    ec_message := None; ec_extra_bytes := []; ec_author := None |};
  am_apply_changes l d := foldl (λ r c, r ≫= apply_change c) (Ok d) l;
  am_get_missing_deps d := ([], d);
  am_get_changes d :=
    (match am_get_all (Automerge := demo_automerge) d false VALUE with
     | Ok [(AmScalar s, _)] => [change_of (scalar_payload s)]
     | _ => []
     end, d);
  am_get_heads d := ([pos_bytes (encode (dd_contents d))], d);
  am_get_all_at d o k _ := am_get_all (Automerge := demo_automerge) d o k;
  am_merge d d' :=
    match am_get_all (Automerge := demo_automerge) d' false VALUE with
    | Ok [(AmScalar s, _)] => am_put (Automerge := demo_automerge) d false VALUE s
    | _ => Ok d
    end |}.
#[local] Instance demo_changes_ok : AutomergeChangesOk.
Proof. split; [done|done|..]; intros d; by split. Qed.

Definition update : PersonalUpdate := {| pu_item_id := "item-1"; pu_changes := [change_of [Byte.x01]] |}.
#[local] Instance update_serde : Serde EncodedUpdate :=
  table_serde ((λ c, {| eu_item_id := c.1; eu_changes := [of_bytes (change_of c.2)] |})
    <$> [("item-1", [Byte.x01]); ("item-1", []); ("gone", [])]).

Lemma accepted_update_is_register_witness :
  ∃ r values, from_update update [Byte.x07] = Ok r ∧ values_of r = Ok values
    ∧ values_ok "item-1" values ∧ values = [Some item]
    ∧ ∃ c, change_ok "item-1" (rp_document r) (change_of [Byte.x01]) c.
Proof.
  assert (from_update update [Byte.x07] ≫= values_of = Ok [Some item]) as Hall by by vm_compute.
  destruct (from_update update [Byte.x07]) as [r|e] eqn:Hr; [|done].
  destruct (accepted_update_is_register update [Byte.x07] r Hr) as (_ & _ & _ & _ & _
    & (cs & _ & _ & _ & Hc & _) & values & Hv & Hok).
  exists r, values. split_and!; [done|done|done| |].
  - cbn [mbind result_bind] in Hall. rewrite Hv in Hall. by injection Hall.
  - apply Forall2_cons_inv_l in Hc as (c & _ & Hc & _). by exists c.
Defined.

(** The empty replica of the item. *)
Definition fresh : Replica.PersonalReplica :=
  {| rp_id := "item-1"; rp_document := am_new [Byte.x07] |}.

Lemma set_replica_reads_back_witness :
  ∃ r', set_replica (Some item) None fresh = (Ok tt, r') ∧ values_of r' = Ok [Some item].
Proof.
  assert ((set_replica (Some item) None fresh).1 = Ok tt) as Hs by by vm_compute.
  apply sm_run in Hs. eexists. split; [exact Hs|].
  destruct (set_replica_reads_back (Some item) None fresh _ Hs) as (Hv & _); [|done].
  intros i [= <-]. by vm_compute.
Defined.

Lemma merged_replica_readable_witness :
  ∃ r' values, merge_replica update fresh = (Ok true, r') ∧ values_of r' = Ok values
    ∧ values_ok "item-1" values.
Proof.
  assert ((merge_replica update fresh).1 = Ok true) as Hm by by vm_compute.
  apply sm_run in Hm.
  destruct (merged_replica_readable update fresh true _ Hm) as (_ & _ & values & Hv & Hok).
  eexists _, values. split_and!; [exact Hm|exact Hv|exact Hok].
Defined.

(** ** A document without replicas *)

Definition stored : SecretRecord := {|
  sr_version := 2; sr_address := Local "item-1" None; sr_value := [Byte.x01]; sr_evict_at := None;
  sr_version_id := replicate 16 Byte.x01; sr_created_at := 10; sr_updated_at := 10 |}.
#[local] Instance record_eq_dec : EqDecision SecretRecord.
Proof. solve_decision. Defined.
#[local] Instance record_serde : Serde SecretRecord := table_serde [stored].

Definition old_document : VaultResult SecretDocument :=
  d ← document_new [Byte.x07] LocalKeyring PERSONAL_SECRET_NAMESPACE;
  a ← automerge_error (am_put (sd_document d) (sd_entries d) (storage_key (Local "item-1" None))
        (scalar_bytes []));
  a ← automerge_error (am_put a am_root LEGACY_REVISIONS (scalar_bytes []));
  Ok (set_document d a).

Lemma migrated_catalog_complete_witness :
  ∃ d c, old_document = Ok d ∧ migrated_catalog d = Ok c
    ∧ (∃ b, rc_replicas c !! "gone" = Some b ∧ saved_value "gone" None b)
    ∧ (∃ b i key, rc_replicas c !! "item-1" = Some b ∧ entry_item d key i
         ∧ saved_value "item-1" (Some i) b)
    ∧ all_pending c.
Proof.
  assert ((d ← old_document; a ← document_addresses d; t ← legacy_tombstones d;
    c ← migrated_catalog d; Ok (a.*2, t, bool_decide (is_Some (rc_replicas c !! "item-1"))))
    = Ok ([Local "item-1" None], ["gone"], true)) as Hall by by vm_compute.
  destruct old_document as [d|] eqn:Hd; [|done]. exists d.
  cbn [mbind result_bind] in Hall. apply bind_Ok in Hall as (addresses & Ha & Hall).
  apply bind_Ok in Hall as (t & Ht & Hall). apply bind_Ok in Hall as (c & Hc & Hall).
  injection Hall as Haddr -> Hb. apply bool_decide_eq_true in Hb as [b Hb].
  destruct (migrated_catalog_complete d c addresses ["gone"] Ha Ht Hc) as (Hp & Hin & Hval).
  exists c. split_and!; [done|done|..| |done].
  - destruct (proj2 (Hin "gone") (or_introl (list_elem_of_here _ _))) as [b' Hb'].
    exists b'. split; [done|]. specialize (Hval _ _ Hb'). by destruct (decide _) as [_|[]]; [destruct Hval|left].
  - pose proof (Hval _ _ Hb) as Hi. destruct (decide ("item-1" ∈ ["gone"])) as [Hin'|_].
    + by apply list_elem_of_singleton in Hin'.
    + destruct Hi as (key & _ & _ & i & _ & _ & Hi & Hs). by exists b, i, key.
Defined.
