(* ===== verification/Archive.v ===== *)
(** Encrypted archives of a vault (src/src/vault/archive.rs): the records of the file, its
    validation, encryption under a passphrase and decryption, the conversion of the first
    version, and the export that reads every entry of a running vault.  Argon2, AES-GCM,
    base64 and serde_json are parameters; the salt and the nonce are drawn by the caller. *)
From Stdlib Require Import ZArith Lia Bool.
From stdpp Require Import base gmap strings list.
From S2P Require Import Prelude Text Core Address Wire KeyringIndex StoreSpec Protocol Signature.
From S2P Require Import Manifest Envelope Policy Factor Replica.

Definition FORMAT : string := "factorseal-vault-archive".
Definition VERSION : Z := 2.
Definition SALT_BYTES : Z := 16.
Definition MAX_ARCHIVE_FILE_BYTES : Z := 256 * 1024 * 1024.
Definition MAX_ARCHIVE_PAYLOAD_BYTES : Z := 192 * 1024 * 1024.
Definition MAX_ARCHIVE_ENTRIES : Z := 100000.
Definition ARGON2_MEMORY_KIB : Z := 128 * 1024.
Definition ARGON2_ITERATIONS : Z := 3.
Definition ARGON2_PARALLELISM : Z := 1.
Definition MAX_ARGON2_MEMORY_KIB : Z := 256 * 1024.
Definition MAX_ARGON2_ITERATIONS : Z := 10.
Definition MAX_ARGON2_PARALLELISM : Z := 16.

(** ** The contents of an archive *)

Record VaultArchiveEntry : Set := {
  ve_metadata : VaultEntryMetadata;
  ve_value : bytes;
  ve_evict_at : option Z
}.

Record VaultArchive : Set := {
  va_format : string;
  va_version : Z;
  va_created_at : Z;
  va_entries : list VaultArchiveEntry
}.

(** What an archive keeps of the metadata: labels are derived again on import. *)
Definition without_display (e : VaultEntryMetadata) : VaultEntryMetadata := {|
  em_access_project := em_access_project e;
  em_display_name := None; em_display_type := None; em_display_username := None;
  em_display_website := None; em_updated_at := None; em_favorite := false;
  em_document_kind := em_document_kind e; em_partition := em_partition e;
  em_address := em_address e |}.

Definition archive_new (created_at : Z) (entries : list VaultArchiveEntry) : VaultArchive := {|
  va_format := FORMAT; va_version := VERSION; va_created_at := created_at;
  va_entries := (λ e, {| ve_metadata := without_display (ve_metadata e);
                         ve_value := ve_value e; ve_evict_at := ve_evict_at e |}) <$> entries |}.

Definition is_secret_service (e : VaultArchiveEntry) : bool :=
  bool_decide (em_document_kind (ve_metadata e) = LinuxSecretService).

(** An entry of the system keyring belongs to its one partition and does not expire. *)
Definition foreign_keyring (e : VaultArchiveEntry) : bool :=
  negb (bool_decide (em_partition (ve_metadata e) = SECRET_SERVICE_NAMESPACE))
  || bool_decide (is_Some (ve_evict_at e)).

Definition unsupported_archive : VaultError.error :=
  VaultError.InvalidData "unsupported FactorSeal archive format or version".

Section Contents.
Context `{Serde PortableItem}.

Definition entry_validate (e : VaultArchiveEntry) : VaultResult () :=
  _ ← validate_transfer (ve_metadata e);
  if is_secret_service e then
    _ ← fail_if (foreign_keyring e)
          (VaultError.InvalidData "unsupported portable keyring partition or expiry");
    _ ← portable_decode (ve_value e) (em_address (ve_metadata e));
    Ok tt
  else Ok tt.

Definition archive_validate (a : VaultArchive) : VaultResult () :=
  _ ← fail_if (negb (String.eqb (va_format a) FORMAT) || negb (va_version a =? VERSION))
        unsupported_archive;
  _ ← fail_if (MAX_ARCHIVE_ENTRIES <? Z.of_nat (length (va_entries a)))
        (VaultError.InvalidData "FactorSeal archive contains too many entries");
  _ ← try_collect entry_validate (va_entries a);
  Ok tt.

(** ** The first version *)

(** [INDEX_ITEM] was an entry of its own beside the values it names. *)
Definition is_legacy_index (e : VaultArchiveEntry) : bool :=
  bool_decide (as_local (em_address (ve_metadata e)) = Some (INDEX_ITEM, None)).

Record LegacyParts : Type := {
  lp_index : option Index;
  lp_ordinary : list VaultArchiveEntry;
  lp_keyring : list VaultArchiveEntry
}.

Context `{Serde Index}.

(** One round of the loop that takes the entries apart. *)
Definition sort_legacy (p : LegacyParts) (e : VaultArchiveEntry) : VaultResult LegacyParts :=
  if negb (is_secret_service e) then
    Ok {| lp_index := lp_index p; lp_ordinary := lp_ordinary p ++ [e];
          lp_keyring := lp_keyring p |}
  else
    _ ← fail_if (foreign_keyring e) (VaultError.InvalidData "invalid legacy keyring entry");
    if is_legacy_index e then
      _ ← fail_if (bool_decide (is_Some (lp_index p)))
            (VaultError.InvalidData "duplicate legacy keyring index");
      index ← index_decode (Some (ve_value e));
      Ok {| lp_index := Some index; lp_ordinary := lp_ordinary p; lp_keyring := lp_keyring p |}
    else
      Ok {| lp_index := lp_index p; lp_ordinary := lp_ordinary p;
            lp_keyring := lp_keyring p ++ [e] |}.

Definition set_value (e : VaultArchiveEntry) (value : bytes) : VaultArchiveEntry := {|
  ve_metadata := ve_metadata e; ve_value := value; ve_evict_at := ve_evict_at e |}.

(** [HashMap::remove] of an address. *)
Fixpoint take_item (items : list (SecretAddress * IndexItem)) (a : SecretAddress)
    : option (IndexItem * list (SecretAddress * IndexItem)) :=
  match items with
  | [] => None
  | (b, item) :: items =>
      if bool_decide (b = a) then Some (item, items)
      else '(found, items) ← take_item items a; Some (found, (b, item) :: items)
  end.

(** Each value is joined to the item of the index at its address, which is used up. *)
Fixpoint join_legacy (items : list (SecretAddress * IndexItem))
    (ordinary keyring : list VaultArchiveEntry)
    : VaultResult (list (SecretAddress * IndexItem) * list VaultArchiveEntry) :=
  match keyring with
  | [] => Ok (items, ordinary)
  | e :: keyring =>
      found ← ok_or (VaultError.InvalidData "legacy keyring value has no unique index entry")
                (take_item items (em_address (ve_metadata e)));
      value ← portable_encode (portable_new found.1 (ve_value e));
      join_legacy found.2 (ordinary ++ [set_value e value]) keyring
  end.

(** The index names each item once, so that the addresses are the keys of a map. *)
Definition indexed (item : IndexItem) : VaultResult (SecretAddress * IndexItem) :=
  a ← index_item_address item; Ok (a, item).

Definition upgrade_legacy_keyring (a : VaultArchive) : VaultResult VaultArchive :=
  parts ← try_fold sort_legacy
            {| lp_index := None; lp_ordinary := []; lp_keyring := [] |} (va_entries a);
  items ← try_collect indexed (ix_items (default index_default (lp_index parts)));
  joined ← join_legacy items (lp_ordinary parts) (lp_keyring parts);
  _ ← fail_if (bool_decide (joined.1 ≠ []))
        (VaultError.InvalidData "legacy keyring index has missing values");
  Ok {| va_format := va_format a; va_version := VERSION; va_created_at := va_created_at a;
        va_entries := joined.2 |}.
End Contents.

(** ** The encrypted file *)

Record ArchiveKdf : Set := {
  ak_algorithm : string;
  ak_version : Z;
  ak_memory_kib : Z;
  ak_iterations : Z;
  ak_parallelism : Z;
  ak_salt : string
}.

Record ArchiveHeader : Set := {
  ah_format : string;
  ah_version : Z;
  ah_kdf : ArchiveKdf;
  ah_cipher : string
}.

Record EncryptedArchive : Set := {
  ea_header : ArchiveHeader;
  ea_nonce : string;
  ea_ciphertext : string
}.

(** [serde_json::to_vec_pretty]: another text of the same value. *)
Class SerdePretty (A : Type) := serde_to_vec_pretty : A → result string bytes.
Class SerdePrettyOk (A : Type) `{Serde A, SerdePretty A} : Prop :=
  serde_pretty_roundtrip a b : serde_to_vec_pretty a = Ok b → serde_from_slice b = Ok a.

Definition validate_passphrase (passphrase : bytes) : VaultResult () :=
  fail_if (bool_decide (passphrase = []))
    (VaultError.Protection "archive passphrase must not be empty").

(** The costs an archive may ask for. *)
Definition safe_kdf (k : ArchiveKdf) : bool :=
  String.eqb (ak_algorithm k) "argon2id" && (ak_version k =? 19)
  && negb (ak_memory_kib k =? 0) && (ak_memory_kib k <=? MAX_ARGON2_MEMORY_KIB)
  && negb (ak_iterations k =? 0) && (ak_iterations k <=? MAX_ARGON2_ITERATIONS)
  && negb (ak_parallelism k =? 0) && (ak_parallelism k <=? MAX_ARGON2_PARALLELISM).

Definition validate_header (h : ArchiveHeader) : VaultResult () :=
  _ ← fail_if (negb (String.eqb (ah_format h) FORMAT)
               || negb ((ah_version h =? 1) || (ah_version h =? VERSION)))
        unsupported_archive;
  fail_if (negb (safe_kdf (ah_kdf h)) || negb (String.eqb (ah_cipher h) "aes-256-gcm"))
    (VaultError.InvalidData "unsupported or unsafe archive encryption parameters").

Section Encrypted.
Context `{PasswordKdf, Aes256Gcm, Base64Standard}.

Definition decode_array (width : Z) (label encoded : string) : VaultResult bytes :=
  decoded ← map_err (λ _, VaultError.InvalidData ("invalid " +:+ label)) (b64_decode encoded);
  _ ← fail_if (negb (Z.of_nat (length decoded) =? width))
        (VaultError.InvalidData ("invalid " +:+ label +:+ " length"));
  Ok decoded.

(** The parameters are validated again, in a header of the current version. *)
Definition derive_key (passphrase : bytes) (kdf : ArchiveKdf) : VaultResult bytes :=
  _ ← validate_header {| ah_format := FORMAT; ah_version := VERSION; ah_kdf := kdf;
                         ah_cipher := "aes-256-gcm" |};
  salt ← decode_array SALT_BYTES "archive salt" (ak_salt kdf);
  _ ← map_err (λ e, VaultError.Protection ("invalid archive KDF: " +:+ e))
        (argon2_block_count (ak_memory_kib kdf) (ak_iterations kdf) (ak_parallelism kdf));
  map_err (λ e, VaultError.Protection ("archive KDF failed: " +:+ e))
    (argon2id (ak_memory_kib kdf) (ak_iterations kdf) (ak_parallelism kdf) passphrase salt).

Context `{Serde ArchiveHeader, Serde EncryptedArchive, SerdePretty EncryptedArchive}.
Context `{Serde VaultArchive, SerdeChunks VaultArchive, Serde PortableItem, Serde Index, Zxcvbn}.

Definition new_header (a : VaultArchive) (salt : bytes) : ArchiveHeader := {|
  ah_format := FORMAT; ah_version := va_version a;
  ah_kdf := {| ak_algorithm := "argon2id"; ak_version := 19;
               ak_memory_kib := ARGON2_MEMORY_KIB; ak_iterations := ARGON2_ITERATIONS;
               ak_parallelism := ARGON2_PARALLELISM; ak_salt := b64_encode salt |};
  ah_cipher := "aes-256-gcm" |}.

Definition encrypt_archive (a : VaultArchive) (passphrase : bytes)
    (salt nonce : VaultResult bytes) : VaultResult bytes :=
  salt ← salt;
  let header := new_header a salt in
  aad ← map_err VaultError.InvalidData (serde_to_vec header);
  plaintext ← serialize_locked a MAX_ARCHIVE_PAYLOAD_BYTES;
  key ← derive_key passphrase (ah_kdf header);
  encrypted ← encrypt key aad plaintext nonce;
  map_err VaultError.InvalidData (serde_to_vec_pretty
    {| ea_header := header; ea_nonce := b64_encode (ep_nonce encrypted);
       ea_ciphertext := b64_encode (ep_ciphertext encrypted) |}).

Definition encrypt_vault_archive (a : VaultArchive) (passphrase : bytes)
    (salt nonce : VaultResult bytes) : VaultResult bytes :=
  _ ← archive_validate a;
  _ ← map_err VaultError.Protection (validate_new_password passphrase);
  encrypt_archive a passphrase salt nonce.

Definition archive_too_large : VaultError.error :=
  VaultError.InvalidData "FactorSeal archive is too large".

(** The part of [decrypt_vault_archive] up to the authenticated plaintext. *)
Definition open_envelope (e : EncryptedArchive) (passphrase : bytes) : VaultResult bytes :=
  _ ← validate_header (ea_header e);
  nonce ← decode_array NONCE_BYTES "archive nonce" (ea_nonce e);
  ciphertext ← map_err (λ _, VaultError.InvalidData "invalid archive ciphertext")
                 (b64_decode (ea_ciphertext e));
  _ ← fail_if (MAX_ARCHIVE_PAYLOAD_BYTES + 16 <? Z.of_nat (length ciphertext)) archive_too_large;
  aad ← map_err VaultError.InvalidData (serde_to_vec (ea_header e));
  key ← derive_key passphrase (ah_kdf (ea_header e));
  ok_or (VaultError.Protection "incorrect passphrase or damaged archive")
    (decrypt EncryptionAlgorithm.Aes256Gcm key nonce aad ciphertext).

(** The rest of it: the contents, converted and validated. *)
Definition read_contents (plaintext : bytes) : VaultResult VaultArchive :=
  archive ← map_err (λ e, VaultError.InvalidData ("invalid archive contents: " +:+ e))
              (serde_from_slice plaintext);
  archive ← (if va_version archive =? 1 then upgrade_legacy_keyring archive else Ok archive);
  _ ← archive_validate archive;
  Ok archive.

Definition decrypt_vault_archive (b passphrase : bytes) : VaultResult VaultArchive :=
  _ ← fail_if (MAX_ARCHIVE_FILE_BYTES <? Z.of_nat (length b)) archive_too_large;
  _ ← validate_passphrase passphrase;
  envelope ← map_err (λ e, VaultError.InvalidData ("invalid archive: " +:+ e))
               (serde_from_slice b);
  plaintext ← open_envelope envelope passphrase;
  read_contents plaintext.
End Encrypted.

(** ** Export of a running vault *)

(** [VaultClient]: one exchange with a vault.  The state [C] is whatever the exchange
    changes, here and on the other side; [draw_request_id] is [RequestId::random]. *)
Class VaultClient (C : Type) := {
  draw_request_id : SM C bytes;
  client_request : VaultRequest → SM C VaultResponse
}.

Section Snapshot.
Context `{VaultClient C}.

(** [VaultRequest::new]. *)
Definition new_request (action : VaultAction.action) : SM C VaultRequest :=
  id ← draw_request_id; mret (with_id id action).

Definition ask (action : VaultAction.action) : SM C VaultResponseBody.body :=
  request ← new_request action;
  response ← client_request request;
  match resp_result response with
  | inl body => mret body
  | inr e => lift (Err (VaultError.Protocol (re_message e)))
  end.

Definition ask_revision : SM C (option bytes) :=
  body ← ask VaultAction.ExportRevision;
  match body with
  | VaultResponseBody.ExportRevision revision => mret revision
  | _ => lift (Err (VaultError.Protocol "unexpected export revision response"))
  end.

Definition ask_entry (e : VaultEntryMetadata) : SM C VaultArchiveEntry :=
  body ← ask (VaultAction.ExportVaultEntry e);
  match body with
  | VaultResponseBody.VaultEntrySecret value evict_at =>
      mret {| ve_metadata := e; ve_value := value; ve_evict_at := evict_at |}
  | _ => lift (Err (VaultError.Protocol "unexpected export entry response"))
  end.

Fixpoint ask_entries (entries : list VaultEntryMetadata) (archived : list VaultArchiveEntry)
    : SM C (list VaultArchiveEntry) :=
  match entries with
  | [] => mret archived
  | e :: entries => entry ← ask_entry e; ask_entries entries (archived ++ [entry])
  end.

Definition portable_kind (k : DocumentKind) : bool :=
  match k with Authorization | SecretSpecProviderCache => false | _ => true end.

Definition exported (include : VaultEntryMetadata → bool) (e : VaultEntryMetadata) : bool :=
  portable_kind (em_document_kind e) && include e.

(** One page: what is exported of it, and the cursor of the next. *)
Definition export_page (include : VaultEntryMetadata → bool) (cursor : option string)
    (archived : list VaultArchiveEntry) : SM C (list VaultArchiveEntry * option string) :=
  body ← ask (VaultAction.ListVaultEntries cursor MAX_LIST_PAGE_SIZE);
  match body with
  | VaultResponseBody.VaultEntries entries next =>
      archived ← ask_entries (retain (exported include) entries) archived;
      mret (archived, next)
  | _ => lift (Err (VaultError.Protocol "unexpected export inventory response"))
  end.

(** The loop over pages; [fuel] bounds their number. *)
Fixpoint export_pages (include : VaultEntryMetadata → bool) (fuel : nat)
    (cursor : option string) (archived : list VaultArchiveEntry) (c : C)
    : option (VaultResult (list VaultArchiveEntry) * C) :=
  match fuel with
  | O => None
  | S fuel =>
      match export_page include cursor archived c with
      | (Err e, c) => Some (Err e, c)
      | (Ok (archived, None), c) => Some (Ok archived, c)
      | (Ok (archived, Some next), c) =>
          if opt_test (λ old, negb (str_ltb old next)) cursor
          then Some (Err (VaultError.Protocol "export inventory cursor did not advance"), c)
          else export_pages include fuel (Some next) archived c
      end
  end.

(** The revision is read again once everything was read. *)
Definition unchanged (expected : option bytes) (archived : list VaultArchiveEntry)
    : SM C (list VaultArchiveEntry) :=
  revision ← ask_revision;
  if bool_decide (revision = expected) then mret archived
  else lift (Err (VaultError.Protocol "vault changed during export; retry the export")).

Definition read_vault_export (include : VaultEntryMetadata → bool) (fuel : nat) (c : C)
    : option (VaultResult (list VaultArchiveEntry) * C) :=
  match ask_revision c with
  | (Err e, c) => Some (Err e, c)
  | (Ok expected, c) =>
      '(archived, c) ← export_pages include fuel None [] c;
      Some match archived with
           | Err e => (Err e, c)
           | Ok archived => unchanged expected archived c
           end
  end.
End Snapshot.
