(* ===== verification/ArchiveProofs.v ===== *)
(** What archives guarantee: an archive opens to what was written, a file is bound to its
    header, the conversion of the first version joins every value to its own item, and an
    export is one whole state of the vault. *)
From Stdlib Require Import ZArith Lia Bool Sorted.
From stdpp Require Import base gmap strings list.
From S2P Require Import Prelude Text Core Address Wire KeyringIndex StoreSpec Protocol Signature.
From S2P Require Import Manifest Envelope Policy Factor Worker Replica Archive.
From S2P Require Import Instances Codec SealWitness.

#[local] Arguments derive_key : simpl never.
#[local] Arguments open_envelope : simpl never.
#[local] Arguments archive_validate : simpl never.
#[local] Arguments index_decode : simpl never.

(** ** The encrypted file *)

(** Base64 with padding writes three bytes as four characters, and the text of a file holds
    the text of its ciphertext. *)
Class Base64StandardSizeOk `{Base64Standard} : Prop :=
  b64_size b : String.length (b64_encode b) = (4 * ((length b + 2) / 3))%nat.
Class ArchiveTextOk `{SerdePretty EncryptedArchive} : Prop :=
  archive_text_length e b :
    serde_to_vec_pretty e = Ok b → (String.length (ea_ciphertext e) ≤ length b)%nat.

Section Files.
Context `{PasswordKdf, Aes256GcmOk, Base64StandardOk}.
Context `{SerdeOk ArchiveHeader} `{Serde EncryptedArchive} `{SerdePretty EncryptedArchive}.
Context `{!SerdePrettyOk EncryptedArchive}.
Context `{SerdeOk VaultArchive} `{SerdeChunks VaultArchive} {Hchunks : SerdeChunksOk VaultArchive}.
Context `{Serde PortableItem, Serde Index, Zxcvbn}.

Lemma validate_new_header a salt :
  va_version a = VERSION → validate_header (new_header a salt) = Ok tt.
Proof. intros Hv. unfold validate_header, new_header. cbn. by rewrite Hv. Qed.

Lemma archive_valid_version a : archive_validate a = Ok tt → va_version a = VERSION.
Proof. unfold archive_validate. intros Hv. inv_ok. bool_prop. tauto. Qed.

Lemma decode_encoded width label b :
  Z.of_nat (length b) = width → decode_array width label (b64_encode b) = Ok b.
Proof. intros <-. unfold decode_array. rewrite b64_roundtrip. cbn. by rewrite Z.eqb_refl. Qed.

(** The envelope of an archive, before it is written as text. *)
Lemma encrypt_archive_envelope a passphrase salt nonce b :
  encrypt_archive a passphrase salt (Ok nonce) = Ok b →
  ∃ drawn key plaintext ciphertext aad,
    let e := {| ea_header := new_header a drawn; ea_nonce := b64_encode nonce;
                ea_ciphertext := b64_encode ciphertext |} in
    salt = Ok drawn ∧ serde_to_vec_pretty e = Ok b
    ∧ serde_to_vec (new_header a drawn) = Ok aad
    ∧ derive_key passphrase (ah_kdf (new_header a drawn)) = Ok key
    ∧ serde_to_vec a = Ok plaintext ∧ Z.of_nat (length plaintext) ≤ MAX_ARCHIVE_PAYLOAD_BYTES
    ∧ gcm_encrypt key nonce aad plaintext = Some ciphertext.
Proof.
  unfold encrypt_archive, encrypt. intros He. inv_ok.
  match goal with Hs : serialize_locked _ _ = Ok _ |- _ =>
    apply serialize_locked_Ok in Hs as [Hs Hle]; [|done] end.
  do 5 eexists. split_and!; eauto.
Qed.

Lemma opens_sealed e passphrase nonce aad key plaintext ciphertext :
  validate_header (ea_header e) = Ok tt → ea_nonce e = b64_encode nonce →
  Z.of_nat (length nonce) = NONCE_BYTES → ea_ciphertext e = b64_encode ciphertext →
  serde_to_vec (ea_header e) = Ok aad → derive_key passphrase (ah_kdf (ea_header e)) = Ok key →
  Z.of_nat (length plaintext) ≤ MAX_ARCHIVE_PAYLOAD_BYTES →
  gcm_encrypt key nonce aad plaintext = Some ciphertext →
  open_envelope e passphrase = Ok plaintext.
Proof.
  intros Hh Hn Hw Hc Haad Hkey Hle Henc. unfold open_envelope.
  rewrite Hh, Hn, Hc. cbn. rewrite (decode_encoded _ _ _ Hw), b64_roundtrip. cbn.
  pose proof (gcm_length _ _ _ _ _ Henc) as Hlen.
  destruct (Z.ltb_spec (MAX_ARCHIVE_PAYLOAD_BYTES + 16) (Z.of_nat (length ciphertext)));
    [unfold MAX_ARCHIVE_PAYLOAD_BYTES in *; lia|].
  cbn. rewrite Haad. cbn. rewrite Hkey. cbn. by rewrite (gcm_round_trip _ _ _ _ _ Henc).
Qed.

(** C21: An archive that was written opens with the passphrase to exactly what was written, if
    the file is not longer than the reader accepts. *)
Theorem archive_round_trip a passphrase salt nonce b :
  encrypt_vault_archive a passphrase salt (Ok nonce) = Ok b →
  Z.of_nat (length nonce) = NONCE_BYTES → passphrase ≠ [] →
  Z.of_nat (length b) ≤ MAX_ARCHIVE_FILE_BYTES →
  decrypt_vault_archive b passphrase = Ok a ∧ archive_validate a = Ok tt.
Proof.
  unfold encrypt_vault_archive. intros He Hw Hp Hle. inv_ok.
  match goal with Hv : archive_validate a = Ok _ |- _ =>
    rename Hv into Hvalid; pose proof (archive_valid_version _ Hvalid) as Hversion end.
  apply encrypt_archive_envelope in He
    as (drawn & key & plaintext & ciphertext & aad & -> & Htext & Haad & Hkey & Hser & Hmax & Henc).
  split; [|done]. unfold decrypt_vault_archive.
  destruct (Z.ltb_spec MAX_ARCHIVE_FILE_BYTES (Z.of_nat (length b))); [lia|]. cbn.
  unfold validate_passphrase. rewrite bool_decide_false by done. cbn.
  rewrite (serde_pretty_roundtrip _ _ Htext). cbn.
  rewrite (opens_sealed _ passphrase nonce aad key plaintext ciphertext); try done;
    [|by apply validate_new_header].
  cbn. unfold read_contents. rewrite (serde_roundtrip _ _ Hser). cbn. rewrite Hversion. cbn.
  by rewrite Hvalid.
Qed.

(** The bounds of the writer and of the reader do not agree: the sixteen largest payloads are
    written and then refused. *)
Theorem largest_archives_unreadable `{!Base64StandardSizeOk, !ArchiveTextOk}
    a passphrase salt nonce b plaintext other :
  encrypt_vault_archive a passphrase salt (Ok nonce) = Ok b →
  serde_to_vec a = Ok plaintext →
  MAX_ARCHIVE_PAYLOAD_BYTES - 16 < Z.of_nat (length plaintext) →
  decrypt_vault_archive b other = Err archive_too_large.
Proof.
  unfold encrypt_vault_archive. intros He Hser Hlong. inv_ok.
  apply encrypt_archive_envelope in He
    as (drawn & key & plaintext' & ciphertext & aad & -> & Htext & _ & _ & Hser' & _ & Henc).
  assert (plaintext' = plaintext) as -> by congruence.
  pose proof (gcm_length _ _ _ _ _ Henc) as Hlen.
  pose proof (archive_text_length _ _ Htext) as Hb. cbn [ea_ciphertext] in Hb.
  rewrite b64_size in Hb. unfold decrypt_vault_archive.
  apply inj_le in Hb. rewrite Nat2Z.inj_mul, Nat2Z.inj_div, Nat2Z.inj_add in Hb.
  assert (MAX_ARCHIVE_FILE_BYTES < Z.of_nat (length b)) as Hbig.
  { unfold MAX_ARCHIVE_FILE_BYTES, MAX_ARCHIVE_PAYLOAD_BYTES in *. cbn in Hb.
    assert (67108865 <= (Z.of_nat (length ciphertext) + 2) / 3); [|lia].
    apply Z.div_le_lower_bound; lia. }
  apply Z.ltb_lt in Hbig. by rewrite Hbig.
Qed.

(** What a passphrase opens was authenticated, and is a valid archive. *)
Lemma decrypted_archive b passphrase a :
  decrypt_vault_archive b passphrase = Ok a →
  Z.of_nat (length b) ≤ MAX_ARCHIVE_FILE_BYTES ∧ passphrase ≠ []
  ∧ ∃ e plaintext, serde_from_slice b = Ok e ∧ open_envelope e passphrase = Ok plaintext
    ∧ read_contents plaintext = Ok a.
Proof.
  unfold decrypt_vault_archive, validate_passphrase. intros Hd. inv_ok. bool_prop.
  split_and!; [lia|done|eauto].
Qed.

Lemma open_envelope_Ok e passphrase plaintext :
  open_envelope e passphrase = Ok plaintext →
  ∃ nonce ciphertext aad key,
    b64_decode (ea_nonce e) = Ok nonce ∧ b64_decode (ea_ciphertext e) = Ok ciphertext
    ∧ serde_to_vec (ea_header e) = Ok aad ∧ derive_key passphrase (ah_kdf (ea_header e)) = Ok key
    ∧ gcm_decrypt key nonce aad ciphertext = Some plaintext ∧ validate_header (ea_header e) = Ok tt.
Proof.
  unfold open_envelope, decode_array, decrypt. intros Ho. inv_ok.
  do 4 eexists. split_and!; eauto.
Qed.

(** A file opens only under the header it was sealed with: two files that open under one
    passphrase and differ in nothing but the header, with the same costs of the derivation,
    have the same header, or name one ciphertext that authenticates under two. *)
Theorem archive_bound_to_header b1 b2 e1 e2 passphrase a1 a2 :
  serde_from_slice b1 = Ok e1 → serde_from_slice b2 = Ok e2 →
  decrypt_vault_archive b1 passphrase = Ok a1 → decrypt_vault_archive b2 passphrase = Ok a2 →
  ah_kdf (ea_header e1) = ah_kdf (ea_header e2) →
  ea_nonce e1 = ea_nonce e2 → ea_ciphertext e1 = ea_ciphertext e2 →
  safe_kdf (ah_kdf (ea_header e1)) = true
  ∧ ((ea_header e1 = ea_header e2 ∧ a1 = a2)
     ∨ ∃ key nonce aad aad' ciphertext, gcm_confused key nonce aad aad' ciphertext).
Proof.
  intros Hb1 Hb2 (_ & _ & x1 & p1 & Hx1 & Ho1 & Hr1)%decrypted_archive
    (_ & _ & x2 & p2 & Hx2 & Ho2 & Hr2)%decrypted_archive Hkdf Hnonce Htext.
  assert (x1 = e1) as -> by congruence. assert (x2 = e2) as -> by congruence.
  apply open_envelope_Ok in Ho1 as (n1 & c1 & aad1 & k1 & Hn1 & Hc1 & Ha1 & Hk1 & Hg1 & Hh1).
  apply open_envelope_Ok in Ho2 as (n2 & c2 & aad2 & k2 & Hn2 & Hc2 & Ha2 & Hk2 & Hg2 & _).
  rewrite <- Hnonce, Hn1 in Hn2. rewrite <- Htext, Hc1 in Hc2. rewrite <- Hkdf, Hk1 in Hk2.
  simplify_eq. split.
  { unfold validate_header in Hh1. inv_ok. bool_prop. tauto. }
  destruct (decide (aad1 = aad2)) as [<-|Hne].
  - left. split; [by eapply serde_to_vec_inj|]. congruence.
  - right. exists k2, n2, aad1, aad2, c2. split_and!; eauto.
Qed.
End Files.

(** ** The first version *)

Section Legacy.
Context `{SerdeOk PortableItem} `{Serde Index}.

Definition legacy_value (e : VaultArchiveEntry) : bool :=
  is_secret_service e && negb (is_legacy_index e).
Definition legacy_index (e : VaultArchiveEntry) : bool := is_secret_service e && is_legacy_index e.

(** The index an archive of the first version carries. *)
Definition carried_index (entries : list VaultArchiveEntry) (index : option Index) : Prop :=
  match index with
  | None => retain legacy_index entries = []
  | Some index => ∃ e, retain legacy_index entries = [e] ∧ index_decode (Some (ve_value e)) = Ok index
  end.

Definition sorted_legacy (entries : list VaultArchiveEntry) (p : LegacyParts) : Prop :=
  lp_ordinary p = retain (λ e, negb (is_secret_service e)) entries
  ∧ lp_keyring p = retain legacy_value entries
  ∧ carried_index entries (lp_index p)
  ∧ Forall (λ e, foreign_keyring e = false) (retain is_secret_service entries).

Lemma retain_snoc {A} (p : A → bool) l x :
  retain p (l ++ [x]) = if p x then retain p l ++ [x] else retain p l.
Proof. rewrite retain_app. cbn. destruct (p x); [done|by rewrite app_nil_r]. Qed.

Lemma carried_index_snoc entries e index :
  legacy_index e = false → carried_index entries index → carried_index (entries ++ [e]) index.
Proof. intros He. unfold carried_index. rewrite retain_snoc, He. done. Qed.

Lemma sort_legacy_sorted entries p e p' :
  sorted_legacy entries p → sort_legacy p e = Ok p' → sorted_legacy (entries ++ [e]) p'.
Proof.
  intros (Hord & Hkey & Hidx & Hall) Hs. unfold sort_legacy in Hs. unfold sorted_legacy.
  rewrite !retain_snoc. destruct (is_secret_service e) eqn:He; cbn in Hs |- *.
  2: { inv_ok. unfold legacy_value. rewrite He. cbn. rewrite Hord. split_and!; try done.
       apply carried_index_snoc; [|done]. unfold legacy_index. by rewrite He. }
  inv_ok. unfold legacy_value at 1. rewrite He.
  assert (Forall (λ e, foreign_keyring e = false) (retain is_secret_service entries ++ [e]))
    by (apply Forall_app; auto).
  destruct (is_legacy_index e) eqn:Hx; cbn in Hs |- *; inv_ok; bool_prop; cbn.
  - split_and!; try done. exists e. rewrite retain_snoc. unfold legacy_index at 1. rewrite He, Hx.
    split; [|done]. destruct (lp_index p); [by exfalso; eauto|]. cbn in Hidx |- *. by rewrite Hidx.
  - rewrite Hkey. split_and!; try done.
    apply carried_index_snoc; [|done]. unfold legacy_index. by rewrite He, Hx.
Qed.

Lemma take_item_Some items a item rest :
  take_item items a = Some (item, rest) → items ≡ₚ (a, item) :: rest.
Proof.
  revert rest. induction items as [|[b x] items IH]; intros rest; cbn; [done|].
  case_bool_decide as Hb; [subst; by intros [= -> ->]|].
  destruct (take_item items a) as [[found rest']|]; cbn; [|done]. intros [= -> <-].
  rewrite (IH _ eq_refl). apply Permutation_swap.
Qed.

(** An entry [e] of the keyring, joined to an item [t] of the index. *)
Definition joins (e : VaultArchiveEntry) (t : SecretAddress * IndexItem) (e' : VaultArchiveEntry) : Prop :=
  t.1 = em_address (ve_metadata e)
  ∧ ∃ value, portable_encode (portable_new t.2 (ve_value e)) = Ok value ∧ e' = set_value e value.

Lemma join_legacy_joins items ordinary keyring rest out :
  join_legacy items ordinary keyring = Ok (rest, out) →
  ∃ taken joined, out = ordinary ++ joined ∧ items ≡ₚ taken ++ rest
    ∧ Forall3 joins keyring taken joined.
Proof.
  revert items ordinary. induction keyring as [|e keyring IH]; intros items ordinary Hj; cbn in Hj.
  - inv_ok. simplify_eq. exists [], []. rewrite app_nil_r. split_and!; try done. constructor.
  - inv_ok. match goal with Ht : take_item _ _ = Some ?f |- _ =>
      destruct f as [item items']; apply take_item_Some in Ht as Hperm end.
    apply IH in Hj as (taken & joined & -> & Hrest & Hall).
    eexists ((_, item) :: taken), (_ :: joined). split_and!.
    + by rewrite <- app_assoc.
    + rewrite Hperm. cbn in Hrest |- *. by rewrite Hrest.
    + constructor; [|done]. split; [done|]. eauto.
Qed.

Lemma indexed_items items indexes :
  try_collect indexed items = Ok indexes →
  indexes.*2 = items ∧ Forall (λ t, index_item_address t.2 = Ok t.1) indexes.
Proof.
  rewrite try_collect_Ok. induction 1 as [|item [a x] items indexes Hi _ [IH Hall]]; [done|].
  unfold indexed in Hi. inv_ok. simplify_eq. cbn. split; [done|by constructor].
Qed.

(** The entry [e] of the first version, as an entry [e'] of its own that carries [item]. *)
Definition carries (e : VaultArchiveEntry) (item : IndexItem) (e' : VaultArchiveEntry) : Prop :=
  ve_metadata e' = ve_metadata e ∧ ve_evict_at e' = ve_evict_at e ∧ foreign_keyring e = false
  ∧ index_item_address item = Ok (em_address (ve_metadata e))
  ∧ portable_decode (ve_value e') (em_address (ve_metadata e)) = Ok (portable_new item (ve_value e)).

Lemma joins_carries e t e' :
  joins e t e' → index_item_address t.2 = Ok t.1 → index_item_validate t.2 = Ok tt →
  foreign_keyring e = false → carries e t.2 e'.
Proof.
  intros (Ht & value & Henc & ->) Ha Hv Hf. rewrite Ht in Ha. unfold carries.
  split_and!; try done. by apply portable_round_trip.
Qed.

Lemma joined_carried keyring taken joined :
  Forall3 joins keyring taken joined →
  Forall (λ t, index_item_address t.2 = Ok t.1) taken →
  Forall (λ item, index_item_validate item = Ok tt) taken.*2 →
  Forall (λ e, foreign_keyring e = false) keyring →
  Forall3 carries keyring taken.*2 joined.
Proof.
  induction 1 as [|e t e' keyring taken joined Hj _ IH]; cbn; [constructor|].
  rewrite !Forall_cons. intros [Ha Has] [Hv Hvs] [Hf Hfs]. constructor; [by apply joins_carries|auto].
Qed.

Lemma carried_index_items entries index :
  carried_index entries index →
  NoDup (ii_id <$> ix_items (default index_default index))
  ∧ Forall (λ item, index_item_validate item = Ok tt) (ix_items (default index_default index)).
Proof.
  destruct index as [index|]; cbn; [|split; constructor].
  intros (e & _ & Hd). split; [by apply index_decode_NoDup in Hd|by apply index_decode_valid in Hd].
Qed.

(** C23: Converting the first version keeps every entry that is not of the keyring and joins
    each value of the keyring to the one item of the index with its address; every item of the
    index is used, once, and each new entry decodes to that item with that value. *)
Theorem legacy_keyring_joined a a' :
  upgrade_legacy_keyring a = Ok a' →
  ∃ index items joined,
    carried_index (va_entries a) index
    ∧ items ≡ₚ ix_items (default index_default index) ∧ NoDup (ii_id <$> items)
    ∧ Forall3 carries (retain legacy_value (va_entries a)) items joined
    ∧ a' = {| va_format := va_format a; va_version := VERSION; va_created_at := va_created_at a;
              va_entries := retain (λ e, negb (is_secret_service e)) (va_entries a) ++ joined |}.
Proof.
  unfold upgrade_legacy_keyring. intros Hu. inv_ok. bool_prop.
  match goal with Hf : try_fold _ _ _ = Ok ?p, Hj : join_legacy _ _ _ = Ok ?x |- _ =>
    destruct x as [rest out]; apply (try_fold_invariant _ sorted_legacy []) in Hf
      as (Hord & Hkey & Hidx & Hall); [|exact sort_legacy_sorted|by repeat split];
    cbn [app] in *; apply join_legacy_joins in Hj as (taken & joined & -> & Hperm & Hjoin) end.
  match goal with Hi : try_collect indexed _ = Ok _ |- _ =>
    apply indexed_items in Hi as [Hitems Haddr] end.
  destruct rest as [|t rest]; [|by exfalso; eauto]. rewrite app_nil_r in Hperm.
  destruct (carried_index_items _ _ Hidx) as [Hnodup Hvalid].
  assert (taken.*2 ≡ₚ ix_items (default index_default (lp_index a0))) as Htaken
    by (by rewrite <- Hitems, Hperm).
  exists (lp_index a0), taken.*2, joined. split_and!; [done|done| | |by rewrite <- Hord].
  - by rewrite Htaken.
  - rewrite <- Hkey. apply joined_carried; [done|by rewrite <- Hperm|by rewrite Htaken|].
    rewrite Hkey. apply Forall_forall. intros e [He Hin]%elem_of_retain.
    rewrite Forall_forall in Hall. apply Hall, elem_of_retain.
    unfold legacy_value in He. by apply andb_true_iff in He as [? _].
Qed.
End Legacy.

(** ** Export *)

(** What a client that exports can see of a vault at one moment: the revision, the inventory
    by cursor, and the value and expiry of each entry. *)
Record Snapshot : Type := {
  sn_revision : option bytes;
  sn_inventory : list (string * VaultEntryMetadata);
  sn_secret : VaultEntryMetadata → option (bytes * option Z)
}.

(** The answer a vault in one state gives to the three requests of an export. *)
Definition answers (s : Snapshot) (action : VaultAction.action) (body : VaultResponseBody.body) : Prop :=
  match action with
  | VaultAction.ExportRevision => body = VaultResponseBody.ExportRevision (sn_revision s)
  | VaultAction.ListVaultEntries cursor limit =>
      ∃ page, paginate (sn_inventory s) cursor limit = Some page
        ∧ body = VaultResponseBody.VaultEntries (sp_items page) (sp_next_cursor page)
  | VaultAction.ExportVaultEntry e =>
      ∃ value evict_at, sn_secret s e = Some (value, evict_at)
        ∧ body = VaultResponseBody.VaultEntrySecret value evict_at
  | _ => False
  end.

(** A vault behind a client: requests of others may change it between and during those of the
    client ([later]); each answer is that of one moment of the exchange, the inventory is sorted
    by cursor, and a revision stands for one content. *)
Class VaultServer (C : Type) `{VaultClient C} := {
  snapshot : C → Snapshot;
  later : C → C → Prop
}.
Class VaultServerOk (C : Type) `{VaultServer C} : Prop := {
  #[global] later_preorder :: PreOrder later;
  later_draw c r c' : draw_request_id c = (r, c') → later c c';
  later_request request c r c' : client_request request c = (r, c') → later c c';
  answered_within request c response c' :
    client_request request c = (Ok response, c') →
    match resp_result response with
    | inl body => ∃ m, later c m ∧ later m c' ∧ answers (snapshot m) (req_action request) body
    | inr _ => True
    end;
  inventory_sorted c :
    StronglySorted (λ x y, str_ltb x.1 y.1 = true) (sn_inventory (snapshot c));
  revision_names c1 c2 c3 :
    later c1 c2 → later c2 c3 → sn_revision (snapshot c1) = sn_revision (snapshot c3) →
    snapshot c2 = snapshot c1
}.

(** ** Pages *)

Definition behind {A} (cursor : option string) (l : list (string * A)) : list (string * A) :=
  retain (λ e, match cursor with Some c => str_ltb c e.1 | None => true end) l.

Lemma behind_None {A} (l : list (string * A)) : behind None l = l.
Proof. unfold behind. induction l as [|e l IH]; [done|]. cbn [retain]. by rewrite IH. Qed.

Lemma behind_behind {A} (l : list (string * A)) cursor n :
  opt_test (λ c, negb (str_ltb c n)) cursor = false →
  behind (Some n) (behind cursor l) = behind (Some n) l.
Proof.
  intros Hc. unfold behind. induction l as [|e l IH]; [done|]. cbn [retain].
  destruct (str_ltb n e.1) eqn:Hn.
  - assert (match cursor with Some c => str_ltb c e.1 | None => true end = true) as ->.
    { destruct cursor as [c|]; [|done]. cbn in Hc. apply negb_false_iff in Hc.
      by eapply bytes_ltb_trans. }
    cbn [retain]. rewrite Hn. by rewrite IH.
  - destruct (match cursor with Some _ => _ | None => true end); cbn [retain]; by rewrite ?Hn.
Qed.

Lemma behind_sorted {A} (l : list (string * A)) cursor :
  StronglySorted (λ x y, str_ltb x.1 y.1 = true) l →
  StronglySorted (λ x y, str_ltb x.1 y.1 = true) (behind cursor l).
Proof.
  intros Hs. unfold behind. induction Hs as [|e l _ IH He]; [constructor|].
  cbn [retain]. destruct (match cursor with Some _ => _ | None => true end); [|done].
  constructor; [done|]. rewrite Forall_forall in *. intros x [_ Hx]%elem_of_retain. by apply He.
Qed.

(** A page and what is behind its cursor are what is behind the cursor that asked for it; a
    page that is not the last moves the cursor. *)
Lemma paginate_behind {A} (l : list (string * A)) cursor limit page :
  StronglySorted (λ x y, str_ltb x.1 y.1 = true) l → 0 < limit →
  paginate l cursor limit = Some page →
  (behind cursor l).*2 = sp_items page
    ++ match sp_next_cursor page with Some n => (behind (Some n) l).*2 | None => [] end
  ∧ opt_test (λ n, opt_test (λ c, negb (str_ltb c n)) cursor) (sp_next_cursor page) = false
  ∧ opt_test (λ n, bool_decide (length (behind cursor l) ≤ length (behind (Some n) l))%nat)
      (sp_next_cursor page) = false.
Proof.
  intros Hs Hl. unfold paginate. fold (behind cursor l).
  destruct (Nat.ltb_spec (Z.to_nat limit) (length (take (Z.to_nat limit + 1) (behind cursor l))))
    as [Hlt|Hge]; rewrite length_take in *.
  - rewrite take_take, Nat.min_l by lia.
    destruct (last (take (Z.to_nat limit) (behind cursor l))) as [x|] eqn:Hx; cbn; [|done].
    intros [= <-]. cbn.
    rewrite last_lookup, length_take, lookup_take_lt in Hx by lia.
    replace (pred _) with (Z.to_nat limit - 1)%nat in Hx by lia.
    assert (opt_test (λ c, negb (str_ltb c x.1)) cursor = false) as Hc.
    { apply list_elem_of_lookup_2, elem_of_retain in Hx as [Hx _].
      destruct cursor; cbn; [by rewrite Hx|done]. }
    assert (behind (Some x.1) l = drop (Z.to_nat limit) (behind cursor l)) as ->.
    { rewrite <- (behind_behind l cursor x.1 Hc). unfold behind at 1.
      rewrite (retain_after fst _ (Z.to_nat limit - 1) x); [|by apply behind_sorted|done].
      f_equal. lia. }
    rewrite <- fmap_app, take_drop. split_and!; [done|done|].
    apply bool_decide_eq_false. rewrite length_drop. lia.
  - intros [= <-]. cbn. rewrite app_nil_r, take_ge by lia. done.
Qed.

Lemma paginate_total {A} (l : list (string * A)) cursor limit :
  0 < limit → is_Some (paginate l cursor limit).
Proof.
  intros Hl. unfold paginate. destruct (Nat.ltb_spec (Z.to_nat limit)
    (length (take (Z.to_nat limit + 1) (behind cursor l)))) as [Hlt|Hge]; fold (behind cursor l).
  - rewrite (proj2 (Nat.ltb_lt _ _) Hlt). rewrite length_take in Hlt.
    destruct (last _) as [x|] eqn:Hx; [by eexists|]. apply last_None, (f_equal length) in Hx.
    rewrite !length_take in Hx. cbn [length] in Hx. lia.
  - rewrite (proj2 (Nat.ltb_ge _ _) Hge). by eexists.
Qed.

(** ** An export is one state *)

Section Exports.
Context `{VaultServerOk C} (include : VaultEntryMetadata → bool).

Lemma ask_within action c body c' :
  ask action c = (Ok body, c') →
  ∃ m, later c m ∧ later m c' ∧ answers (snapshot m) action body.
Proof.
  unfold ask, new_request. intros Ha. inv_sm.
  match goal with Hd : draw_request_id _ = _, Hr : client_request _ _ = (Ok ?r, _) |- _ =>
    apply later_draw in Hd; pose proof (answered_within _ _ _ _ Hr) as Hw;
    destruct (resp_result r); [|discriminate] end.
  inv_sm. destruct Hw as (m & Hm & Hm' & Hans). exists m. split_and!; [by etrans|done|done].
Qed.

Lemma ask_revision_within c revision c' :
  ask_revision c = (Ok revision, c') →
  ∃ m, later c m ∧ later m c' ∧ sn_revision (snapshot m) = revision.
Proof.
  unfold ask_revision. intros Ha. inv_sm.
  match goal with Hb : ask _ _ = (Ok ?body, _) |- _ =>
    apply ask_within in Hb as (m & Hm & Hm' & Hans); cbn in Hans; subst body end.
  inv_sm. eauto.
Qed.

(** An archived entry is what the vault holds for it. *)
Definition holds (s : Snapshot) (e : VaultEntryMetadata) (a : VaultArchiveEntry) : Prop :=
  ve_metadata a = e ∧ sn_secret s e = Some (ve_value a, ve_evict_at a).

(** The moments between two states all show [s]. *)
Definition shows (s : Snapshot) (c c' : C) : Prop := ∀ m, later c m → later m c' → snapshot m = s.
Lemma shows_mono s c c' d d' : shows s c c' → later c d → later d' c' → shows s d d'.
Proof. intros Hs Hc Hc' m Hm Hm'. apply Hs; by etrans. Qed.

Lemma ask_entry_holds e c a c' :
  ask_entry e c = (Ok a, c') → later c c' ∧ ∀ s, shows s c c' → holds s e a.
Proof.
  unfold ask_entry. intros Ha. inv_sm.
  match goal with Hb : ask _ _ = (Ok ?body, _) |- _ =>
    apply ask_within in Hb as (m & Hm & Hm' & value & evict_at & Hs & ->) end.
  inv_sm. split; [by etrans|]. intros sn Hall. by rewrite (Hall m Hm Hm') in Hs.
Qed.

Lemma ask_entries_hold entries archived c out c' :
  ask_entries entries archived c = (Ok out, c') →
  later c c' ∧ ∃ more, out = archived ++ more ∧ ∀ s, shows s c c' → Forall2 (holds s) entries more.
Proof.
  revert archived c. induction entries as [|e entries IH]; intros archived c Ha; cbn in Ha.
  - inv_sm. split; [done|]. exists []. rewrite app_nil_r. split; [done|]. constructor.
  - inv_sm. match goal with Hb : ask_entry _ _ = (Ok ?x, _) |- _ =>
      apply ask_entry_holds in Hb as [Hc Hx]; rename x into a end.
    apply IH in Ha as [Hc' (more & -> & Hmore)]. split; [by etrans|].
    exists (a :: more). rewrite <- app_assoc. split; [done|]. intros sn Hs. constructor.
    + eapply Hx, shows_mono; [done|done|done].
    + eapply Hmore, shows_mono; [done|done|done].
Qed.

Lemma export_page_holds cursor archived c out next c' :
  export_page include cursor archived c = (Ok (out, next), c') →
  later c c' ∧ ∃ more, out = archived ++ more ∧ ∀ s, shows s c c' →
    ∃ page, paginate (sn_inventory s) cursor MAX_LIST_PAGE_SIZE = Some page
      ∧ sp_next_cursor page = next
      ∧ Forall2 (holds s) (retain (exported include) (sp_items page)) more.
Proof.
  unfold export_page. intros Ha. inv_sm.
  match goal with Hb : ask _ _ = (Ok ?body, _) |- _ =>
    apply ask_within in Hb as (m & Hm & Hm' & page & Hpage & ->) end.
  inv_sm. match goal with He : ask_entries _ _ _ = _ |- _ =>
    apply ask_entries_hold in He as [Hc (more & -> & Hmore)] end.
  split; [by do 2 etrans|]. exists more. split; [done|]. intros sn Hs. exists page. split_and!.
  - rewrite <- (Hs m); [done|done|by etrans].
  - done.
  - eapply Hmore, shows_mono; [done|by etrans|done].
Qed.

Lemma export_pages_hold fuel cursor archived c out c' :
  export_pages include fuel cursor archived c = Some (Ok out, c') →
  later c c' ∧ ∃ more, out = archived ++ more ∧ ∀ s, shows s c c' →
    StronglySorted (λ x y, str_ltb x.1 y.1 = true) (sn_inventory s) →
    Forall2 (holds s) (retain (exported include) (behind cursor (sn_inventory s)).*2) more.
Proof.
  revert cursor archived c. induction fuel as [|fuel IH]; intros cursor archived c Ha; [done|].
  cbn in Ha. destruct (export_page include cursor archived c) as [[[out1 next]|e] c1] eqn:Hp; [|done].
  apply export_page_holds in Hp as [Hc (more & -> & Hmore)]. destruct next as [next|].
  - destruct (opt_test _ cursor) eqn:Hmoves; [done|].
    apply IH in Ha as [Hc' (more' & -> & Hmore')]. split; [by etrans|].
    exists (more ++ more'). rewrite app_assoc. split; [done|]. intros sn Hs Hsorted.
    destruct (Hmore sn) as (page & Hpage & Hnext & Hall); [by eapply shows_mono|].
    apply paginate_behind in Hpage as (-> & _); [|done|done]. rewrite Hnext, retain_app.
    apply Forall2_app; [done|]. apply Hmore'; [by eapply shows_mono|done].
  - simplify_eq. split; [done|]. exists more. split; [done|]. intros sn Hs Hsorted.
    destruct (Hmore sn Hs) as (page & Hpage & Hnext & Hall).
    apply paginate_behind in Hpage as (-> & _); [|done|done]. by rewrite Hnext, app_nil_r.
Qed.

(** An export is one whole state of the vault it asks, whatever others do meanwhile: there is a
    moment between its start and its end at which the exported entries are, in the order of the
    inventory, all those that are portable and asked for, each with its value and expiry.  The
    vault at the other end is one that answers as [VaultServerOk] says; that a revision names
    one content of the store is [revision_names_content]. *)
Theorem export_is_snapshot fuel c entries c' :
  read_vault_export include fuel c = Some (Ok entries, c') →
  ∃ m, later c m ∧ later m c'
    ∧ Forall2 (holds (snapshot m))
        (retain (exported include) (sn_inventory (snapshot m)).*2) entries.
Proof.
  unfold read_vault_export. intros Hr.
  destruct (ask_revision c) as [[expected|e] c1] eqn:Hfirst; [|done].
  destruct (export_pages include fuel None [] c1) as [[[archived|e] c2]|] eqn:Hpages; cbn in Hr; [|done..].
  injection Hr as Hr. unfold unchanged in Hr. inv_sm.
  match goal with Hl : ask_revision c2 = (Ok ?r, _) |- _ => rename r into again; rename Hl into Hlast end.
  case_bool_decide as Hsame; inv_sm.
  apply ask_revision_within in Hfirst as (m1 & Hm1 & Hm1' & Hrev1).
  apply ask_revision_within in Hlast as (m2 & Hm2 & Hm2' & Hrev2).
  apply export_pages_hold in Hpages as [Hc (more & -> & Hmore)].
  exists m1. split_and!; [done|by do 3 etrans|]. cbn [app].
  rewrite <- (behind_None (sn_inventory (snapshot m1))). apply (Hmore (snapshot m1)).
  - intros m Hm Hm'. eapply (revision_names m1 m m2); [by etrans|by etrans|congruence].
  - apply inventory_sorted.
Qed.

(** ** A quiet vault *)

(** The requests of an export. *)
Definition asked (s : Snapshot) (action : VaultAction.action) : Prop :=
  match action with
  | VaultAction.ExportRevision => True
  | VaultAction.ListVaultEntries _ limit => limit = MAX_LIST_PAGE_SIZE
  | VaultAction.ExportVaultEntry e =>
      e ∈ (sn_inventory s).*2 ∧ portable_kind (em_document_kind e) = true
  | _ => False
  end.

(** While [P] lasts, every one of them is answered from one state. *)
Definition quiet (s : Snapshot) (P : C → Prop) : Prop := ∀ c, P c →
  (∃ id c', draw_request_id c = (Ok id, c') ∧ P c')
  ∧ ∀ request, asked s (req_action request) →
      ∃ response body c', client_request request c = (Ok response, c') ∧ P c'
        ∧ resp_result response = inl body ∧ answers s (req_action request) body.

Section Quiet.
Context (s : Snapshot) (P : C → Prop) (Hquiet : quiet s P).
Context (Hsorted : StronglySorted (λ x y, str_ltb x.1 y.1 = true) (sn_inventory s)).

Lemma quiet_ask action c :
  P c → asked s action → ∃ body c', ask action c = (Ok body, c') ∧ P c' ∧ answers s action body.
Proof.
  intros Hc Ha. destruct (Hquiet c Hc) as [(id & c1 & Hd & Hc1) _].
  destruct (Hquiet c1 Hc1) as [_ Hr]. destruct (Hr (with_id id action) Ha)
    as (response & body & c2 & Hreq & Hc2 & Hres & Hans).
  exists body, c2. split_and!; [|done|done]. unfold ask, new_request.
  unfold mbind, sm_bind. rewrite Hd. cbn [mret sm_ret]. rewrite Hreq, Hres. done.
Qed.

Lemma quiet_revision c : P c → ∃ c', ask_revision c = (Ok (sn_revision s), c') ∧ P c'.
Proof.
  intros Hc. destruct (quiet_ask VaultAction.ExportRevision c Hc I) as (body & c' & Ha & Hc' & Hans).
  cbn in Hans. subst body. exists c'. split; [|done]. unfold ask_revision, mbind, sm_bind. by rewrite Ha.
Qed.

Lemma quiet_entries entries archived c :
  P c → Forall (λ e, asked s (VaultAction.ExportVaultEntry e)) entries →
  ∃ out c', ask_entries entries archived c = (Ok out, c') ∧ P c'.
Proof.
  revert archived c. induction entries as [|e entries IH]; intros archived c Hc Hall; cbn; [by eauto|].
  apply Forall_cons in Hall as [He Hall].
  destruct (quiet_ask _ c Hc He) as (body & c1 & Ha & Hc1 & value & evict_at & _ & ->).
  destruct (IH (archived ++ [{| ve_metadata := e; ve_value := value; ve_evict_at := evict_at |}])
    c1 Hc1 Hall) as (out & c2 & Hout & Hc2). exists out, c2. split; [|done].
  unfold ask_entry. unfold mbind, sm_bind. rewrite Ha. exact Hout.
Qed.

Lemma quiet_pages fuel cursor archived c :
  P c → (length (behind cursor (sn_inventory s)) < fuel)%nat →
  ∃ out c', export_pages include fuel cursor archived c = Some (Ok out, c') ∧ P c'.
Proof.
  revert cursor archived c. induction fuel as [|fuel IH]; intros cursor archived c Hc Hf; [lia|].
  destruct (quiet_ask (VaultAction.ListVaultEntries cursor MAX_LIST_PAGE_SIZE) c Hc eq_refl)
    as (body & c1 & Ha & Hc1 & page & Hpage & ->).
  apply paginate_behind in Hpage as (Hitems & Hmoves & Hfewer); [|done|done].
  destruct (quiet_entries (retain (exported include) (sp_items page)) archived c1 Hc1)
    as (out & c2 & Hout & Hc2).
  { apply Forall_forall. intros e [He Hin]%elem_of_retain. apply andb_true_iff in He as [He _].
    split; [|done]. assert (e ∈ (behind cursor (sn_inventory s)).*2) as Hb
      by (rewrite Hitems; apply elem_of_app; by left).
    apply list_elem_of_fmap in Hb as (x & -> & [_ Hx]%elem_of_retain).
    apply list_elem_of_fmap. by exists x. }
  assert (export_page include cursor archived c = (Ok (out, sp_next_cursor page), c2)) as Hp.
  { unfold export_page, mbind, sm_bind. rewrite Ha, Hout. done. }
  cbn [export_pages]. rewrite Hp. destruct (sp_next_cursor page) as [next|]; cbn in Hmoves, Hfewer; [|eauto].
  rewrite Hmoves. apply bool_decide_eq_false in Hfewer. apply IH; [done|lia].
Qed.
End Quiet.

(** C37: An export ends, and succeeds, if the vault stays in one state and answers: one page
    more than there are entries is enough. *)
Theorem quiet_export_completes s P fuel c :
  quiet s P → StronglySorted (λ x y, str_ltb x.1 y.1 = true) (sn_inventory s) →
  P c → (length (sn_inventory s) < fuel)%nat →
  ∃ entries c', read_vault_export include fuel c = Some (Ok entries, c') ∧ P c'.
Proof.
  intros Hq Hs Hc Hf. unfold read_vault_export.
  destruct (quiet_revision s P Hq c Hc) as (c1 & -> & Hc1).
  destruct (quiet_pages s P Hq Hs fuel None [] c1 Hc1) as (out & c2 & Hp & Hc2); [by rewrite behind_None|].
  rewrite Hp. cbn. destruct (quiet_revision s P Hq c2 Hc2) as (c3 & Hr & Hc3).
  exists out, c3. split; [|done]. unfold unchanged, mbind, sm_bind. rewrite Hr.
  by rewrite bool_decide_true.
Qed.
End Exports.

(** ** Examples *)

Module ArchiveDemo.
#[export] Existing Instances demo_sha256 EnvelopeDemo.demo_gcm EnvelopeDemo.demo_gcm_ok.
#[export] Existing Instances SealDemo.seal_kdf SealDemo.seal_strength.
#[export] Instance demo_standard : Base64Standard := {|
  b64_encode := of_bytes; b64_decode s := Ok (as_bytes s) |}.
#[export] Instance demo_standard_ok : Base64StandardOk.
Proof. intros b. unfold b64_decode, demo_standard, b64_encode. by rewrite as_bytes_of_bytes. Qed.

#[export] Instance kdf_codec : Codec ArchiveKdf :=
  codec_inj (λ k, (ak_algorithm k, ak_version k, ak_memory_kib k, ak_iterations k, ak_parallelism k, ak_salt k))
    (λ '(a, v, m, i, p, s), {| ak_algorithm := a; ak_version := v; ak_memory_kib := m;
       ak_iterations := i; ak_parallelism := p; ak_salt := s |}).
#[export] Instance kdf_codec_ok : CodecOk ArchiveKdf.
Proof. apply codec_inj_ok. by intros []. Qed.
#[export] Instance header_codec : Codec ArchiveHeader :=
  codec_inj (λ h, (ah_format h, ah_version h, ah_kdf h, ah_cipher h))
    (λ '(f, v, k, c), {| ah_format := f; ah_version := v; ah_kdf := k; ah_cipher := c |}).
#[export] Instance header_codec_ok : CodecOk ArchiveHeader.
Proof. apply codec_inj_ok. by intros []. Qed.
#[export] Instance file_codec : Codec EncryptedArchive :=
  codec_inj (λ e, (ea_header e, ea_nonce e, ea_ciphertext e))
    (λ '(h, n, c), {| ea_header := h; ea_nonce := n; ea_ciphertext := c |}).
#[export] Instance file_codec_ok : CodecOk EncryptedArchive.
Proof. apply codec_inj_ok. by intros []. Qed.
#[export] Instance file_pretty : SerdePretty EncryptedArchive := serde_to_vec.
#[export] Instance file_pretty_ok : SerdePrettyOk EncryptedArchive.
Proof. intros e b He. by apply serde_roundtrip. Qed.

(** An archive of the first version: an entry of a project, the index, and one value. *)
Definition item : IndexItem := {|
  ii_id := "0123456789abcdef0123456789abcdef"; ii_label := "Legacy login";
  ii_attributes := {["service" := "example"]}; ii_content_type := "text/plain";
  ii_created := 1; ii_modified := 2 |}.
Definition index : Index := {| ix_version := 1; ix_items := [item] |}.
Definition metadata (k : DocumentKind) (partition : bytes) (a : SecretAddress) : VaultEntryMetadata :=
  without_display {| em_access_project := None; em_display_name := Some "shown"; em_display_type := None;
    em_display_username := None; em_display_website := None; em_updated_at := None;
    em_favorite := true; em_document_kind := k; em_partition := partition; em_address := a |}.
Definition token : VaultArchiveEntry := {|
  ve_metadata := metadata LocalKeyring PERSONAL_SECRET_NAMESPACE (Local "example" None);
  ve_value := as_bytes "needle"; ve_evict_at := None |}.
Definition keyring_entry (name : string) (value : bytes) : VaultArchiveEntry := {|
  ve_metadata := metadata LinuxSecretService SECRET_SERVICE_NAMESPACE (Local name None);
  ve_value := value; ve_evict_at := None |}.
Definition legacy : VaultArchive := {|
  va_format := FORMAT; va_version := 1; va_created_at := 42;
  va_entries := [token; keyring_entry INDEX_ITEM [];
                 keyring_entry "item/0123456789abcdef0123456789abcdef" (as_bytes "legacy secret")] |}.
Definition archive : VaultArchive := archive_new 42 [token].

#[export] Instance item_eq_dec : EqDecision IndexItem.
Proof. solve_decision. Defined.
#[export] Instance portable_eq_dec : EqDecision PortableItem.
Proof. solve_decision. Defined.
#[export] Instance index_eq_dec : EqDecision Index.
Proof. solve_decision. Defined.
#[export] Instance metadata_eq_dec : EqDecision VaultEntryMetadata.
Proof. solve_decision. Defined.
#[export] Instance archive_entry_eq_dec : EqDecision VaultArchiveEntry.
Proof. solve_decision. Defined.
#[export] Instance archive_eq_dec : EqDecision VaultArchive.
Proof. solve_decision. Defined.
#[export] Instance portable_serde : Serde PortableItem :=
  table_serde [portable_new item (as_bytes "legacy secret")].
#[export] Instance portable_serde_ok : SerdeOk PortableItem := table_serde_ok _.
#[export] Instance index_serde : Serde Index := table_serde [index].
#[export] Instance archive_serde : Serde VaultArchive := table_serde [archive; legacy].
#[export] Instance archive_serde_ok : SerdeOk VaultArchive := table_serde_ok _.
#[export] Instance archive_chunks : SerdeChunks VaultArchive :=
  λ a, b ← serde_to_vec a; Ok [b].
#[export] Instance archive_chunks_ok : SerdeChunksOk VaultArchive.
Proof.
  intros a chunks Hc. unfold serde_chunks, archive_chunks in Hc. inv_ok. cbn.
  by rewrite app_nil_r.
Qed.
End ArchiveDemo.

Module ArchiveWitness.
Import ArchiveDemo.
Definition passphrase : bytes := as_bytes "correct horse battery staple".
Definition salt : VaultResult bytes := Ok (replicate 16 Byte.x02).
Definition nonce : bytes := replicate 12 Byte.x03.
Definition file : bytes :=
  match encrypt_vault_archive archive passphrase salt (Ok nonce) with Ok b => b | Err _ => [] end.

Lemma archive_round_trip_witness :
  decrypt_vault_archive file passphrase = Ok archive ∧ archive_validate archive = Ok tt.
Proof.
  assert (encrypt_vault_archive archive passphrase salt (Ok nonce) = Ok file) as He by by vm_compute.
  apply (archive_round_trip archive passphrase salt nonce file He); [done|done|].
  by vm_compute.
Defined.

Lemma legacy_keyring_joined_witness :
  ∃ joined items index',
    carried_index (va_entries legacy) index' ∧ items ≡ₚ ix_items (default index_default index')
    ∧ Forall3 carries (retain legacy_value (va_entries legacy)) items joined ∧ length joined = 1%nat.
Proof.
  destruct (upgrade_legacy_keyring legacy) as [a|e] eqn:Hu; [|by vm_compute in Hu].
  destruct (legacy_keyring_joined legacy a Hu) as (index' & items & joined & Hi & Hp & _ & Hall & _).
  exists joined, items, index'. split_and!; [done|done|done|].
  rewrite <- (Forall3_length_lr _ _ _ _ Hall). by vm_compute.
Defined.

(** The same file under a header that names the first version. *)
Definition renamed : bytes :=
  match serde_from_slice file with
  | Ok e => put {| ea_header := {| ah_format := FORMAT; ah_version := 1; ah_kdf := ah_kdf (ea_header e);
                                   ah_cipher := "aes-256-gcm" |};
                   ea_nonce := ea_nonce e; ea_ciphertext := ea_ciphertext e |}
  | Err _ => []
  end.
Definition parsed (b : bytes) : EncryptedArchive :=
  match serde_from_slice b with
  | Ok e => e
  | Err _ => {| ea_header := new_header archive []; ea_nonce := ""; ea_ciphertext := "" |}
  end.
Lemma archive_bound_to_header_witness :
  ∃ key nonce aad aad' ciphertext, gcm_confused key nonce aad aad' ciphertext.
Proof.
  assert (serde_from_slice file = Ok (parsed file)) as H1 by by vm_compute.
  assert (serde_from_slice renamed = Ok (parsed renamed)) as H2 by by vm_compute.
  assert (decrypt_vault_archive file passphrase = Ok archive) as D1 by by vm_compute.
  assert (decrypt_vault_archive renamed passphrase = Ok archive) as D2 by by vm_compute.
  destruct (archive_bound_to_header file renamed _ _ passphrase archive archive H1 H2 D1 D2)
    as [_ [[Hh _]|Hc]]; [by vm_compute|by vm_compute|by vm_compute| |exact Hc].
  apply (f_equal ah_version) in Hh. by vm_compute in Hh.
Defined.
End ArchiveWitness.

(** A vault of ten entries that others may change before each request: the script says when. *)
Module ExportDemo.
Import ArchiveDemo.
Record Server : Set := { sv_version : nat; sv_script : list bool }.

Definition names : list string := ["a"; "b"; "c"; "d"; "e"; "f"; "g"; "h"; "i"; "j"]%string.
Definition entry_named (name : string) : VaultEntryMetadata :=
  metadata LocalKeyring PERSONAL_SECRET_NAMESPACE (Local name None).
Definition server_snapshot (version : nat) : Snapshot := {|
  sn_revision := Some (replicate version Byte.x00);
  sn_inventory := (λ name, (name, entry_named name)) <$> names;
  sn_secret e := Some (replicate version Byte.x01, None) |}.

Definition step (s : Server) : Server := {|
  sv_version := match sv_script s with true :: _ => S (sv_version s) | _ => sv_version s end;
  sv_script := tl (sv_script s) |}.
Definition answer (s : Snapshot) (action : VaultAction.action) : VaultResult VaultResponseBody.body :=
  match action with
  | VaultAction.ExportRevision => Ok (VaultResponseBody.ExportRevision (sn_revision s))
  | VaultAction.ListVaultEntries cursor limit =>
      match paginate (sn_inventory s) cursor limit with
      | Some page => Ok (VaultResponseBody.VaultEntries (sp_items page) (sp_next_cursor page))
      | None => Err VaultError.WorkerUnavailable
      end
  | VaultAction.ExportVaultEntry e =>
      match sn_secret s e with
      | Some (value, evict_at) => Ok (VaultResponseBody.VaultEntrySecret value evict_at)
      | None => Err VaultError.WorkerUnavailable
      end
  | _ => Err VaultError.WorkerUnavailable
  end.

#[export] Instance server_client : VaultClient Server := {|
  draw_request_id s := (Ok [], s);
  client_request request s :=
    let s := step s in
    (body ← answer (server_snapshot (sv_version s)) (req_action request); Ok (success [] body), s) |}.
#[export] Instance server_server : VaultServer Server := {|
  snapshot s := server_snapshot (sv_version s); later s s' := (sv_version s ≤ sv_version s')%nat |}.

Lemma step_later s : later s (step s).
Proof. cbn. unfold step. destruct (sv_script s) as [|[] l]; cbn; lia. Qed.
Lemma answer_answers s action body : answer s action = Ok body → answers s action body.
Proof.
  destruct action; cbn; try done.
  - destruct (paginate _ _ _) as [page|] eqn:Hp; [|done]. intros [= <-]. by exists page.
  - destruct (sn_secret s entry) as [[value evict_at]|] eqn:Hs; [|done]. intros [= <-].
    by exists value, evict_at.
  - by intros [= <-].
Qed.
#[export] Instance server_ok : VaultServerOk Server.
Proof.
  split.
  - split; [intros s; cbn; lia|intros x y z; cbn; lia].
  - intros c r c' [= _ <-]. cbn. lia.
  - intros request c r c' [= _ <-]. apply step_later.
  - intros request c response c' [= Hr <-]. apply bind_Ok in Hr as (body & Hb & [= <-]). cbn [resp_result success].
    exists (step c). split_and!; [apply step_later|cbn; lia|by apply answer_answers].
  - intros c. cbn. repeat constructor.
  - intros c1 c2 c3 H12 H23. cbn in *. intros [= Hr]. apply (f_equal length) in Hr.
    rewrite !length_replicate in Hr. f_equal. lia.
Qed.

Definition changed_late : Server := {| sv_version := 3; sv_script := replicate 12 false ++ [true] |}.
Definition quiet_server : Server := {| sv_version := 3; sv_script := [] |}.
Definition everything (e : VaultEntryMetadata) : bool := true.

(** Ten entries are two pages, and a change before the end is noticed. *)
Example export_notices_change :
  fst <$> read_vault_export everything 3 changed_late
    = Some (Err (VaultError.Protocol "vault changed during export; retry the export")).
Proof. by vm_compute. Qed.

Definition exported_entries : list VaultArchiveEntry :=
  match read_vault_export everything 2 quiet_server with
  | Some (Ok entries, _) => entries
  | _ => []
  end.
Lemma export_is_snapshot_witness :
  length exported_entries = 10%nat
  ∧ ∃ m : Server, Forall2 (holds (snapshot m))
      (retain (exported everything) (sn_inventory (snapshot m)).*2) exported_entries.
Proof.
  split; [by vm_compute|].
  assert (read_vault_export everything 2 quiet_server = Some (Ok exported_entries, quiet_server)) as Hr
    by by vm_compute.
  destruct (export_is_snapshot everything 2 quiet_server _ _ Hr) as (m & _ & _ & Hm). by exists m.
Defined.

Definition calm (s : Server) : Prop := s = quiet_server.
Lemma server_quiet : quiet (server_snapshot 3) calm.
Proof.
  intros c ->. split; [by exists [], quiet_server|]. intros request Ha.
  assert (∃ body, answer (server_snapshot 3) (req_action request) = Ok body) as [body Hb].
  { destruct (req_action request); cbn [asked] in Ha; try done; cbn [answer].
    - subst limit. destruct (paginate _ _ _) as [page|] eqn:Hp; [by eexists|].
      destruct (paginate_total (sn_inventory (server_snapshot 3)) cursor MAX_LIST_PAGE_SIZE) as [x Hx];
        [done|]. by rewrite Hx in Hp.
    - by eexists.
    - by eexists. }
  exists (success [] body), body, quiet_server. split_and!; [|done|done|by apply answer_answers].
  unfold client_request, server_client. change (step quiet_server) with quiet_server.
  change (server_snapshot (sv_version quiet_server)) with (server_snapshot 3). by rewrite Hb.
Qed.
Lemma quiet_export_completes_witness :
  ∃ entries c', read_vault_export everything 11 quiet_server = Some (Ok entries, c') ∧ calm c'.
Proof.
  apply (quiet_export_completes everything (server_snapshot 3) calm 11 quiet_server);
    [exact server_quiet|by repeat constructor|done|cbn; lia].
Defined.
End ExportDemo.
