(* ===== verification/SyncIdentity.v ===== *)
(** Identities and membership of the devices that share personal items
    (src/src/personal/sync/identity.rs): the public keys of a member and their fingerprint,
    the keys a device holds, and a membership epoch, whose constructor is the only way to
    make one.  ML-KEM-768 and HPKE are parameters. *)
From Stdlib Require Import ZArith Lia Bool.
From stdpp Require Import base gmap strings list.
From S2P Require Import Prelude Text Chars Core Address Signature.

(** ** Parameters *)

(** The [hpke] crate at ML-KEM-768, HKDF-SHA-256 and AES-256-GCM in base mode: keys and
    encapsulations decode from bytes; the random bytes of sealing are an argument; what it
    seals is the ciphertext with its tag at the end. *)
Class Hpke := {
  kem_private : Type;
  kem_public : Type;
  kem_encapsulated : Type;
  kem_private_from_bytes : bytes → option kem_private;
  kem_public_from_bytes : bytes → option kem_public;
  kem_encapsulated_from_bytes : bytes → option kem_encapsulated;
  kem_public_to_bytes : kem_public → bytes;
  kem_encapsulated_to_bytes : kem_encapsulated → bytes;
  kem_sk_to_pk : kem_private → kem_public;
  hpke_seal : kem_public → bytes → bytes → bytes → bytes → option (kem_encapsulated * bytes);
  hpke_open : kem_private → kem_encapsulated → bytes → bytes → bytes → bytes → option bytes
}.
(** What is documented: encodings decode, and what is sealed to the public key of a private
    key is opened by it, with a tag of sixteen bytes. *)
Class HpkeOk `{Hpke} : Prop := {
  kem_public_round_trip k : kem_public_from_bytes (kem_public_to_bytes k) = Some k;
  kem_encapsulated_round_trip e :
    kem_encapsulated_from_bytes (kem_encapsulated_to_bytes e) = Some e;
  hpke_round_trip sk info plaintext aad seed e sealed :
    hpke_seal (kem_sk_to_pk sk) info plaintext aad seed = Some (e, sealed) →
    length sealed = (length plaintext + 16)%nat
    ∧ hpke_open sk e info (take (length plaintext) sealed) aad (drop (length plaintext) sealed)
      = Some plaintext
}.

(** [super::invalid] and [super::encode]. *)
Definition invalid_sync : VaultError.error := VaultError.Protocol "invalid personal sync object".
Definition sync_encode {A} `{Serde A} (value : A) : VaultResult bytes :=
  map_err (λ _, invalid_sync) (serde_to_vec value).
Definition sync_decode {A} `{Serde A} (b : bytes) : VaultResult A :=
  map_err (λ _, invalid_sync) (serde_from_slice b).

Lemma sync_encode_decode {A} `{SerdeOk A} (value : A) b :
  sync_encode value = Ok b → sync_decode b = Ok value.
Proof. unfold sync_encode, sync_decode. rewrite !map_err_Ok. apply serde_roundtrip. Qed.
Lemma sync_encode_inj {A} `{SerdeOk A} (x y : A) b :
  sync_encode x = Ok b → sync_encode y = Ok b → x = y.
Proof. unfold sync_encode. rewrite !map_err_Ok. apply serde_to_vec_inj. Qed.

(** ** Members *)

Definition MAX_MEMBERS : Z := 16.
(** A fingerprint of 32 bytes. *)
Definition MemberId : Set := bytes.
#[export] Instance member_id_eq_dec : EqDecision MemberId := list_eq_dec.

Record MemberPublicKeys : Set := { mk_encryption : bytes; mk_signing : bytes }.
#[export] Instance member_public_keys_eq_dec : EqDecision MemberPublicKeys.
Proof. solve_decision. Defined.

Definition MEMBER_DOMAIN : bytes := as_bytes "factorseal/sync/member/v1" ++ [Byte.x00].
Definition member_preimage (k : MemberPublicKeys) : bytes :=
  MEMBER_DOMAIN ++ framed (mk_encryption k) ++ framed (mk_signing k).

Section Members.
Context `{Sha256, MlDsa65, Hpke}.

(** [MemberPublicKeys::id]. *)
Definition member_id (k : MemberPublicKeys) : MemberId := sha256 (member_preimage k).

(** [MemberPublicKeys::validate]. *)
Definition member_validate (k : MemberPublicKeys) : VaultResult () :=
  _ ← ok_or invalid_sync (kem_public_from_bytes (mk_encryption k));
  _ ← ok_or VaultError.Signature (verifying_key_new (mk_signing k));
  Ok tt.

(** ** The keys of this device *)

Record ReaderIdentity : Set := {
  ri_encryption_seed : bytes;
  ri_signing_seed : bytes;
  ri_public : MemberPublicKeys
}.

(** [ReaderIdentity::from_seeds]. *)
Definition from_seeds `{Signers} (encryption_seed signing_seed : bytes)
    : VaultResult ReaderIdentity :=
  private ← ok_or invalid_sync (kem_private_from_bytes encryption_seed);
  Ok {| ri_encryption_seed := encryption_seed; ri_signing_seed := signing_seed;
        ri_public := {| mk_encryption := kem_public_to_bytes (kem_sk_to_pk private);
                        mk_signing := public_key_for_seed signing_seed |} |}.

(** [ReaderIdentity::generate]: the two draws are arguments. *)
Definition reader_generate `{Signers} (encryption_seed signing_seed : VaultResult bytes)
    : VaultResult ReaderIdentity :=
  encryption_seed ← encryption_seed;
  signing_seed ← signing_seed;
  from_seeds encryption_seed signing_seed.

(** [public_keys().id()]. *)
Definition reader_id (r : ReaderIdentity) : MemberId := member_id (ri_public r).

(** ** Membership epochs *)

Record Membership : Set := {
  ms_group : bytes;
  ms_epoch : Z;
  ms_members : list MemberPublicKeys;
  ms_digest : bytes
}.

Definition MEMBERSHIP_DOMAIN : bytes := as_bytes "factorseal/sync/membership/v1" ++ [Byte.x00].

(** Order of [MemberId]: that of its bytes. *)
Definition id_key (k : MemberPublicKeys) : string := of_bytes (member_id k).

Context `{Serde (list MemberPublicKeys)}.

(** [Membership::new]. *)
Definition membership_new (group : bytes) (epoch : Z) (members : list MemberPublicKeys)
    : VaultResult Membership :=
  _ ← fail_if (bool_decide (group = replicate 16 Byte.x00) || (epoch =? 0)
        || bool_decide (members = []) || (MAX_MEMBERS <? Z.of_nat (length members))) invalid_sync;
  _ ← try_collect member_validate members;
  let members := sort_by id_key members in
  _ ← fail_if (any_window2 (λ a b, bool_decide (member_id a = member_id b)) members) invalid_sync;
  encoded ← sync_encode members;
  Ok {| ms_group := group; ms_epoch := epoch; ms_members := members;
        ms_digest := sha256 (MEMBERSHIP_DOMAIN ++ group ++ be_bytes 8 epoch ++ encoded) |}.

(** [Membership::member]. *)
Definition membership_member (m : Membership) (id : MemberId) : VaultResult MemberPublicKeys :=
  ok_or invalid_sync (find_first (λ k, bool_decide (member_id k = id)) (ms_members m)).

(** The form it is written in, and what reading it does. *)
Record MembershipWire : Set := {
  mw_group : bytes;
  mw_epoch : Z;
  mw_members : list MemberPublicKeys
}.
Definition membership_wire (m : Membership) : MembershipWire := {|
  mw_group := ms_group m; mw_epoch := ms_epoch m; mw_members := ms_members m |}.
Definition membership_from_wire (w : MembershipWire) : VaultResult Membership :=
  membership_new (mw_group w) (mw_epoch w) (mw_members w).
End Members.

(** ** Memberships are well formed *)

Section MembershipProofs.
Context `{Sha256, MlDsa65, Hpke} `{Serde (list MemberPublicKeys)}.

(** A membership its constructor made. *)
Definition membership_wf (m : Membership) : Prop :=
  membership_new (ms_group m) (ms_epoch m) (ms_members m) = Ok m.

Lemma try_collect_perm {E A B} (f : A → result E B) l k r :
  l ≡ₚ k → try_collect f k = Ok r → ∃ r', try_collect f l = Ok r'.
Proof.
  intros Hp Hk. assert (∀ x, x ∈ l → ∃ y, f x = Ok y) as Hall.
  { intros x Hx. rewrite Hp in Hx. destruct (try_collect_image f k r x Hk Hx) as (y & _ & ?). by exists y. }
  clear Hp Hk. induction l as [|x l IH]; [by eexists|]. cbn.
  destruct (Hall x) as [y ->]; [by left|]. destruct IH as [r' ->]; [intros; apply Hall; by right|].
  by eexists.
Qed.

Lemma membership_new_Ok group epoch members m :
  membership_new group epoch members = Ok m →
  ms_group m = group ∧ ms_epoch m = epoch ∧ ms_members m = sort_by id_key members
  ∧ membership_wf m.
Proof.
  unfold membership_wf, membership_new. intros [Hs Hm]%then_Ok. apply bind_Ok in Hm as (u & Hu & Hm).
  apply then_Ok in Hm as [Hw Hm]. apply bind_Ok in Hm as (encoded & He & [= <-]).
  split_and!; [done..|]. cbn [ms_group ms_epoch ms_members]. pose proof (sort_by_perm id_key members) as Hp.
  rewrite (Permutation_length Hp), sort_by_idem, Hw. cbn [mbind result_bind].
  rewrite fail_if_Ok in Hs. rewrite !orb_false_iff in Hs. destruct Hs as [[[-> ->] Hne] ->].
  rewrite bool_decide_eq_false in Hne. rewrite bool_decide_eq_false_2.
  - destruct (try_collect_perm _ _ _ _ Hp Hu) as [u' ->]. cbn. by rewrite He.
  - intros Hnil. rewrite Hnil in Hp. by apply Permutation_nil_l in Hp.
Qed.

(** What the constructor tests. *)
Lemma membership_facts m :
  membership_wf m →
  ms_members m ≠ [] ∧ (length (ms_members m) ≤ 16)%nat ∧ NoDup (member_id <$> ms_members m)
  ∧ ms_group m ≠ replicate 16 Byte.x00 ∧ ms_epoch m ≠ 0
  ∧ Forall (λ k, member_validate k = Ok tt) (ms_members m).
Proof.
  unfold membership_wf. intros Hm. pose proof Hm as Hs. apply membership_new_Ok in Hs as (_ & _ & Hs & _).
  unfold membership_new in Hm. apply then_Ok in Hm as [Ht Hm]. apply bind_Ok in Hm as (u & Hu & Hm).
  apply then_Ok in Hm as [Hw _]. apply fail_if_Ok in Ht, Hw. unfold MAX_MEMBERS in Ht. bool_prop.
  destruct Ht as [[[Hg He] Hne] Hlen]. rewrite <- Hs in Hw. split_and!; [done|lia| |done..|].
  - apply (NoDup_fmap_1 of_bytes). rewrite <- list_fmap_compose.
    change (NoDup (id_key <$> ms_members m)).
    apply sorted_windows.
    + pose proof (sort_by_sorted id_key (ms_members m)) as Hsort. rewrite <- Hs in Hsort.
      clear - Hsort. induction Hsort as [|x l Hl IH Hx]; constructor; [done|].
      by apply Forall_fmap.
    + clear - Hw. induction (ms_members m) as [|x [|y l] IH]; [done..|].
      cbn in *. rewrite orb_false_iff in *. destruct Hw as [Hxy Hw]. split; [|by apply IH].
      apply String.eqb_neq. intros Heq. apply bool_decide_eq_false in Hxy. apply Hxy.
      apply (f_equal as_bytes) in Heq. unfold id_key in Heq. by rewrite !as_bytes_of_bytes in Heq.
  - apply try_collect_Ok in Hu. clear -Hu. induction Hu as [|k [] ks us Hk Hks IH]; by constructor.
Qed.

Lemma membership_member_Ok m id k :
  membership_member m id = Ok k → k ∈ ms_members m ∧ member_id k = id.
Proof.
  unfold membership_member. rewrite ok_or_Ok. intros [Hid%bool_decide_eq_true Hk]%find_first_Some.
  done.
Qed.

(** A member is found by its fingerprint. *)
Lemma membership_member_is m k :
  membership_wf m → k ∈ ms_members m → membership_member m (member_id k) = Ok k.
Proof.
  intros (_ & _ & Hnd & _)%membership_facts. unfold membership_member. rewrite ok_or_Ok.
  induction (ms_members m) as [|x l IH]; intros Hk; [by inversion Hk|]. cbn in *.
  apply NoDup_cons in Hnd as [Hx Hnd]. case_bool_decide as Hid.
  - apply elem_of_cons in Hk as [->|Hk]; [done|]. destruct Hx. rewrite Hid. by apply list_elem_of_fmap_2.
  - apply elem_of_cons in Hk as [->|Hk]; [done|]. by apply IH.
Qed.

(** What is written is read back, with the digest it had. *)
Lemma membership_wire_back m :
  membership_wf m → membership_from_wire (membership_wire m) = Ok m.
Proof. done. Qed.

Lemma membership_wire_inj m m' :
  membership_wf m → membership_wf m' → membership_wire m = membership_wire m' → m = m'.
Proof.
  intros Hm%membership_wire_back Hm'%membership_wire_back Heq. rewrite Heq in Hm. congruence.
Qed.
End MembershipProofs.
