(* ===== verification/SyncGroup.v ===== *)
(** Signed membership of a group of devices (src/src/personal/sync/authority.rs and
    authority/merge.rs): certificates chained by digest from one a controller signs, the
    verification of a chain, merges of two groups with consent of both, and the operations of
    a member that extend a chain. *)
From Stdlib Require Import ZArith Lia Bool.
From stdpp Require Import base gmap strings list.
From S2P Require Import Prelude Text Chars Core Address Signature SyncIdentity.

Definition CERTIFICATE_DOMAIN : bytes :=
  as_bytes "factorseal/sync/group-certificate/v1" ++ [Byte.x00].
Definition MERGE_DOMAIN : bytes := as_bytes "factorseal/sync/merge-approval/v1" ++ [Byte.x00].
Definition MAX_EPOCHS : Z := 64.
Definition MAX_MERGE_DEPTH : nat := 8.
Definition MAX_CHAIN_BYTES : Z := 8 * 1024 * 1024.

(** ** Certificates *)

Record TransportBinding : Set := {
  tb_endpoint : bytes;
  tb_reader : option MemberId;
  tb_name : string
}.
#[export] Instance transport_binding_eq_dec : EqDecision TransportBinding.
Proof. solve_decision. Defined.

Record MergeApproval : Set := {
  ma_source_controller : MemberId;
  ma_source : bytes;
  ma_target : bytes;
  ma_signer : MemberId;
  ma_signature : bytes
}.

(** A certificate in memory has a [Membership]; as it is written, a [MembershipWire]. *)
Record Body (M : Type) : Type := {
  cb_version : Z;
  cb_controller : MemberId;
  cb_membership : M;
  cb_previous : option bytes;
  cb_transports : list TransportBinding;
  cb_enrollment : option bytes;
  cb_signer : option MemberId;
  cb_merge : option MergeApproval
}.
Arguments cb_version {M}.
Arguments cb_controller {M}.
Arguments cb_membership {M}.
Arguments cb_previous {M}.
Arguments cb_transports {M}.
Arguments cb_enrollment {M}.
Arguments cb_signer {M}.
Arguments cb_merge {M}.
Record GroupCertificate (M : Type) : Type := { gc_body : Body M; gc_signature : bytes }.
Arguments gc_body {M}.
Arguments gc_signature {M}.
Abbreviation Certificate := (GroupCertificate Membership).
Abbreviation CertificateWire := (GroupCertificate MembershipWire).

Definition set_membership {M N} (m : N) (b : Body M) : Body N := {|
  cb_version := cb_version b; cb_controller := cb_controller b; cb_membership := m;
  cb_previous := cb_previous b; cb_transports := cb_transports b;
  cb_enrollment := cb_enrollment b; cb_signer := cb_signer b; cb_merge := cb_merge b |}.
Definition body_wire (b : Body Membership) : Body MembershipWire :=
  set_membership (membership_wire (cb_membership b)) b.
Definition certificate_wire (c : Certificate) : CertificateWire := {|
  gc_body := body_wire (gc_body c); gc_signature := gc_signature c |}.

(** A verified chain, which is never empty: its last certificate is apart from those before. *)
Record VerifiedGroup : Type := {
  vg_older : list Certificate;
  vg_current : Certificate;
  vg_ancestors : gset bytes;
  vg_enrollments : gset bytes
}.
Definition vg_chain (g : VerifiedGroup) : list Certificate := vg_older g ++ [vg_current g].
Definition vg_body (g : VerifiedGroup) : Body Membership := gc_body (vg_current g).
Definition group_membership (g : VerifiedGroup) : Membership := cb_membership (vg_body g).
Definition group_controller (g : VerifiedGroup) : MemberId := cb_controller (vg_body g).
Definition group_transports (g : VerifiedGroup) : list TransportBinding := cb_transports (vg_body g).
Definition group_enrollment (g : VerifiedGroup) : option bytes := cb_enrollment (vg_body g).
Definition permits (endpoint : bytes) (g : VerifiedGroup) : bool :=
  existsb (λ b, bool_decide (tb_endpoint b = endpoint)) (group_transports g).
Definition contains_enrollment (request : bytes) (g : VerifiedGroup) : bool :=
  bool_decide (request ∈ vg_enrollments g).

Section Groups.
Context `{Sha256, MlDsa65, Hpke} `{Serde (list MemberPublicKeys)}.
Context `{Serde (Body MembershipWire)} `{Serde CertificateWire} `{Serde (list CertificateWire)}.
Context `{Serde (MemberId * bytes * bytes * MemberId)}.

Definition certificate_from_wire (w : CertificateWire) : VaultResult Certificate :=
  m ← membership_from_wire (cb_membership (gc_body w));
  Ok {| gc_body := set_membership m (gc_body w); gc_signature := gc_signature w |}.

(** [serde_json::from_slice] of a chain, whose memberships are made by their constructor. *)
Definition decode_chain (b : bytes) : VaultResult (list Certificate) :=
  wire ← sync_decode b;
  map_err (λ _, invalid_sync) (try_collect certificate_from_wire wire).
Definition encode_chain (chain : list Certificate) : VaultResult bytes :=
  sync_encode (certificate_wire <$> chain).

(** [GroupCertificate::digest] and [payload]. *)
Definition encode_certificate (c : Certificate) : VaultResult bytes := sync_encode (certificate_wire c).
Definition certificate_digest (c : Certificate) : VaultResult bytes :=
  encoded ← encode_certificate c; Ok (sha256 encoded).
Definition certificate_payload (b : Body Membership) : VaultResult bytes :=
  encoded ← sync_encode (body_wire b); Ok (CERTIFICATE_DOMAIN ++ encoded).

Definition group_encode (g : VerifiedGroup) : VaultResult bytes := encode_chain (vg_chain g).
Definition group_digest (g : VerifiedGroup) : VaultResult bytes := certificate_digest (vg_current g).

Definition accept_extension (pinned incoming : VerifiedGroup) : VaultResult () :=
  digest ← group_digest pinned;
  if bool_decide (digest ∈ vg_ancestors incoming) then Ok tt else Err invalid_sync.

(** ** Transports *)

Definition transport_step (m : Membership) (seen : gset bytes * gset bytes) (b : TransportBinding)
    : VaultResult (gset bytes * gset bytes) :=
  let '(endpoints, readers) := seen in
  _ ← fail_if (bool_decide (tb_endpoint b = replicate 32 Byte.x00)
        || bool_decide (tb_endpoint b ∈ endpoints)
        || String.eqb (tb_name b) "" || (80 <? str_len (tb_name b))
        || existsb is_control (str_chars (as_bytes (tb_name b)))) invalid_sync;
  match tb_reader b with
  | Some reader =>
      _ ← membership_member m reader;
      _ ← fail_if (bool_decide (reader ∈ readers)) invalid_sync;
      Ok ({[ tb_endpoint b ]} ∪ endpoints, {[ reader ]} ∪ readers)
  | None => Ok ({[ tb_endpoint b ]} ∪ endpoints, readers)
  end.

Definition validate_transports (m : Membership) (transports : list TransportBinding)
    : VaultResult () :=
  _ ← fail_if (bool_decide (transports = []) || (32 <? Z.of_nat (length transports))) invalid_sync;
  '(_, readers) ← try_fold (transport_step m) (∅, ∅) transports;
  fail_if (negb (bool_decide (size readers = length (ms_members m)))) invalid_sync.

Definition sort_transports (l : list TransportBinding) : list TransportBinding :=
  sort_by (λ b, of_bytes (tb_endpoint b)) l.

(** ** Merges *)

(** [MergeApproval::payload]. *)
Definition approval_payload (a : MergeApproval) : VaultResult bytes :=
  encoded ← sync_encode (ma_source_controller a, sha256 (ma_source a), ma_target a, ma_signer a);
  Ok (MERGE_DOMAIN ++ encoded).

Definition union_step (members : list MemberPublicKeys) (member : MemberPublicKeys)
    : VaultResult (list MemberPublicKeys) :=
  _ ← fail_if (existsb (λ old, bool_decide (member_id old = member_id member)) members) invalid_sync;
  Ok (members ++ [member]).

Definition merge_union (target source : VerifiedGroup)
    : VaultResult (list MemberPublicKeys * list TransportBinding) :=
  let group := ms_group (group_membership target) in
  _ ← fail_if (bool_decide (group = ms_group (group_membership source))) invalid_sync;
  members ← try_fold union_step (ms_members (group_membership target))
              (ms_members (group_membership source));
  membership ← membership_new group 1 members;
  let transports := sort_transports (group_transports target ++ group_transports source) in
  _ ← validate_transports membership transports;
  Ok (ms_members membership, transports).

Section Approvals.
(** Verification of the group an approval carries, one merge deeper. *)
Variable verify_deeper : list Certificate → MemberId → VaultResult VerifiedGroup.

(** [MergeApproval::source_at_depth]. *)
Definition source_at (a : MergeApproval) : VaultResult VerifiedGroup :=
  _ ← fail_if (MAX_CHAIN_BYTES <? Z.of_nat (length (ma_source a))) invalid_sync;
  chain ← decode_chain (ma_source a);
  verify_deeper chain (ma_source_controller a).

(** [MergeApproval::verify]. *)
Definition approval_verify (a : MergeApproval) (target : VerifiedGroup) : VaultResult VerifiedGroup :=
  source ← source_at a;
  digest ← group_digest target;
  _ ← fail_if (negb (bool_decide (ma_target a = digest))
        || (4096 <? Z.of_nat (length (ma_signature a)))) invalid_sync;
  signer ← membership_member (group_membership source) (ma_signer a);
  payload ← approval_payload a;
  _ ← verify (mk_signing signer) payload (ma_signature a);
  _ ← merge_union target source;
  Ok source.

(** ** Verification of a chain *)

(** The keys a certificate must be signed with: the controller's, or those of the member of
    the previous epoch it names. *)
Definition certificate_signer (controller : MemberPublicKeys) (prior : option VerifiedGroup)
    (body : Body Membership) : VaultResult MemberPublicKeys :=
  if cb_version body =? 1 then
    _ ← fail_if (bool_decide (is_Some (cb_signer body)) || bool_decide (is_Some (cb_merge body)))
          invalid_sync;
    Ok controller
  else
    prior ← ok_or invalid_sync prior;
    id ← ok_or invalid_sync (cb_signer body);
    membership_member (group_membership prior) id.

(** The ancestors and enrollments a merged source adds. *)
Definition certificate_merge (prior : option VerifiedGroup) (body : Body Membership)
    : VaultResult (gset bytes * gset bytes) :=
  let known := match prior with
               | Some g => (vg_ancestors g, vg_enrollments g)
               | None => (∅, ∅)
               end in
  match cb_merge body with
  | Some approval =>
      target ← ok_or invalid_sync prior;
      source ← approval_verify approval target;
      '(members, transports) ← merge_union target source;
      _ ← fail_if (negb (bool_decide (ms_members (cb_membership body) = members))
            || negb (bool_decide (cb_transports body = transports))) invalid_sync;
      Ok (known.1 ∪ vg_ancestors source, known.2 ∪ vg_enrollments source)
  | None => Ok known
  end.

(** One turn of the loop of [verify_at_depth]: the group verified so far, with the digest of
    its last certificate, and the next certificate. *)
Definition verify_certificate (trusted : MemberId) (group : bytes) (controller : MemberPublicKeys)
    (verified : option (VerifiedGroup * bytes)) (c : Certificate)
    : VaultResult (option (VerifiedGroup * bytes)) :=
  let body := gc_body c in
  let prior := fst <$> verified in
  let seen := match prior with Some g => vg_chain g | None => [] end in
  _ ← fail_if (negb ((cb_version body =? 1) || (cb_version body =? 2))
        || negb (bool_decide (cb_controller body = trusted))
        || negb (bool_decide (cb_previous body = snd <$> verified))
        || negb (bool_decide (ms_group (cb_membership body) = group))
        || negb (ms_epoch (cb_membership body) =? Z.of_nat (length seen) + 1)) invalid_sync;
  kept ← membership_member (cb_membership body) trusted;
  _ ← fail_if (negb (bool_decide (kept = controller))) invalid_sync;
  _ ← validate_transports (cb_membership body) (cb_transports body);
  signer ← certificate_signer controller prior body;
  payload ← certificate_payload body;
  _ ← verify (mk_signing signer) payload (gc_signature c);
  '(ancestors, enrollments) ← certificate_merge prior body;
  digest ← certificate_digest c;
  Ok (Some ({| vg_older := seen; vg_current := c;
               vg_ancestors := {[ digest ]} ∪ ancestors;
               vg_enrollments := match cb_enrollment body with
                                 | Some e => {[ e ]} ∪ enrollments
                                 | None => enrollments
                                 end |}, digest)).
End Approvals.

(** [VerifiedGroup::verify_at_depth], by the depth that is left: at depth [d] it is
    [MAX_MERGE_DEPTH + 1 - d], and none is left past the maximum. *)
Fixpoint verify_left (deeper : nat) (chain : list Certificate) (trusted : MemberId)
    : VaultResult VerifiedGroup :=
  match deeper with
  | O => Err invalid_sync
  | S deeper =>
      _ ← fail_if (bool_decide (chain = []) || (MAX_EPOCHS <? Z.of_nat (length chain))) invalid_sync;
      encoded ← encode_chain chain;
      _ ← fail_if (MAX_CHAIN_BYTES <? Z.of_nat (length encoded)) invalid_sync;
      first ← ok_or invalid_sync (gc_body <$> head chain);
      _ ← fail_if (negb (bool_decide (cb_controller first = trusted))) invalid_sync;
      controller ← membership_member (cb_membership first) trusted;
      verified ← try_fold (verify_certificate (verify_left deeper) trusted
                    (ms_group (cb_membership first)) controller) None chain;
      ok_or invalid_sync (fst <$> verified)
  end.
Definition verify_at_depth (chain : list Certificate) (trusted : MemberId) (depth : nat)
    : VaultResult VerifiedGroup := verify_left (S MAX_MERGE_DEPTH - depth) chain trusted.
Definition group_verify (chain : list Certificate) (trusted : MemberId) : VaultResult VerifiedGroup :=
  verify_at_depth chain trusted 0.

(** [VerifiedGroup::decode]. *)
Definition group_decode (b : bytes) (trusted : MemberId) : VaultResult VerifiedGroup :=
  _ ← fail_if (MAX_CHAIN_BYTES <? Z.of_nat (length b)) invalid_sync;
  chain ← decode_chain b;
  group_verify chain trusted.

(** [MergeApproval::verify] at a depth, and [source_group]. *)
Definition approval_verify_at (a : MergeApproval) (target : VerifiedGroup) (depth : nat)
    : VaultResult VerifiedGroup :=
  approval_verify (λ chain trusted, verify_at_depth chain trusted depth) a target.
Definition source_group (a : MergeApproval) (target : VerifiedGroup) : VaultResult VerifiedGroup :=
  approval_verify_at a target 0.

(** ** Operations of a member *)

Context `{Signers}.

Definition sign_group (r : ReaderIdentity) (body : Body Membership) : VaultResult Certificate :=
  _ ← validate_transports (cb_membership body) (cb_transports body);
  payload ← certificate_payload body;
  signature ← software_sign (ri_signing_seed r) payload;
  Ok {| gc_body := body; gc_signature := signature |}.

(** [ReaderIdentity::create_group]: the identifier of the group is drawn. *)
Definition create_group (r : ReaderIdentity) (group : VaultResult bytes) (endpoint : bytes)
    (name : string) : VaultResult VerifiedGroup :=
  group ← group;
  membership ← membership_new group 1 [ri_public r];
  certificate ← sign_group r {|
    cb_version := 1; cb_controller := reader_id r; cb_membership := membership;
    cb_previous := None;
    cb_transports := [{| tb_endpoint := endpoint; tb_reader := Some (reader_id r); tb_name := name |}];
    cb_enrollment := None; cb_signer := None; cb_merge := None |};
  group_verify [certificate] (reader_id r).

(** The membership of the next epoch. *)
Definition next_membership (g : VerifiedGroup) (members : list MemberPublicKeys)
    : VaultResult Membership :=
  epoch ← ok_or invalid_sync (u64_checked_add (ms_epoch (group_membership g)) 1);
  membership_new (ms_group (group_membership g)) epoch members.

Definition advance_group (r : ReaderIdentity) (g : VerifiedGroup) (members : list MemberPublicKeys)
    (transports : list TransportBinding) (enrollment : option bytes) : VaultResult VerifiedGroup :=
  _ ← membership_member (group_membership g) (reader_id r);
  membership ← next_membership g members;
  digest ← group_digest g;
  certificate ← sign_group r {|
    cb_version := 2; cb_controller := group_controller g; cb_membership := membership;
    cb_previous := Some digest; cb_transports := sort_transports transports;
    cb_enrollment := enrollment; cb_signer := Some (reader_id r); cb_merge := None |};
  group_verify (vg_chain g ++ [certificate]) (group_controller g).

Definition approve_group_merge (r : ReaderIdentity) (source target : VerifiedGroup)
    : VaultResult MergeApproval :=
  _ ← membership_member (group_membership source) (reader_id r);
  _ ← merge_union target source;
  encoded ← group_encode source;
  digest ← group_digest target;
  let approval := {| ma_source_controller := group_controller source; ma_source := encoded;
    ma_target := digest; ma_signer := reader_id r; ma_signature := [] |} in
  payload ← approval_payload approval;
  signature ← software_sign (ri_signing_seed r) payload;
  Ok {| ma_source_controller := group_controller source; ma_source := encoded;
        ma_target := digest; ma_signer := reader_id r; ma_signature := signature |}.

Definition merge_group (r : ReaderIdentity) (target : VerifiedGroup) (approval : MergeApproval)
    (enrollment : bytes) : VaultResult VerifiedGroup :=
  _ ← membership_member (group_membership target) (reader_id r);
  source ← approval_verify_at approval target 1;
  '(members, transports) ← merge_union target source;
  membership ← next_membership target members;
  digest ← group_digest target;
  certificate ← sign_group r {|
    cb_version := 2; cb_controller := group_controller target; cb_membership := membership;
    cb_previous := Some digest; cb_transports := transports;
    cb_enrollment := Some enrollment; cb_signer := Some (reader_id r); cb_merge := Some approval |};
  group_verify (vg_chain target ++ [certificate]) (group_controller target).
End Groups.

(** * Groups of devices: what a verified chain of certificates is authorized by, what an
    accepted extension contains, and that members extend chains so that the groups they
    extend or merge accept them. *)

Section Authorized.
Context `{Sha256, MlDsa65, Hpke} `{Serde (list MemberPublicKeys)}.
Context `{Serde (Body MembershipWire)} `{Serde CertificateWire} `{Serde (list CertificateWire)}.
Context `{Serde (MemberId * bytes * bytes * MemberId)}.

(** ** Transports *)

(** At most 32 bindings with distinct endpoints that are not zero, and one endpoint for each
    member: those without a reader store and forward only. *)
Definition transports_ok (m : Membership) (l : list TransportBinding) : Prop :=
  l ≠ [] ∧ (length l ≤ 32)%nat ∧ NoDup (tb_endpoint <$> l)
  ∧ Forall (λ b, tb_endpoint b ≠ replicate 32 Byte.x00 ∧ tb_name b ≠ "" ∧ str_len (tb_name b) ≤ 80) l
  ∧ NoDup (omap tb_reader l)
  ∧ ∀ id, id ∈ omap tb_reader l ↔ id ∈ member_id <$> ms_members m.

Lemma transport_fold m l endpoints readers :
  try_fold (transport_step m) (∅, ∅) l = Ok (endpoints, readers) →
  NoDup (tb_endpoint <$> l)
  ∧ Forall (λ b, tb_endpoint b ≠ replicate 32 Byte.x00 ∧ tb_name b ≠ "" ∧ str_len (tb_name b) ≤ 80) l
  ∧ NoDup (omap tb_reader l) ∧ readers = list_to_set (omap tb_reader l)
  ∧ ∀ id, id ∈ omap tb_reader l → id ∈ member_id <$> ms_members m.
Proof.
  intros Hf. cut (endpoints = list_to_set (tb_endpoint <$> l) ∧ NoDup (tb_endpoint <$> l)
  ∧ Forall (λ b, tb_endpoint b ≠ replicate 32 Byte.x00 ∧ tb_name b ≠ "" ∧ str_len (tb_name b) ≤ 80) l
  ∧ NoDup (omap tb_reader l) ∧ readers = list_to_set (omap tb_reader l)
  ∧ ∀ id, id ∈ omap tb_reader l → id ∈ member_id <$> ms_members m); [tauto|].
  eapply (try_fold_invariant _ (λ l '(endpoints, readers),
    endpoints = list_to_set (tb_endpoint <$> l) ∧ NoDup (tb_endpoint <$> l)
  ∧ Forall (λ b, tb_endpoint b ≠ replicate 32 Byte.x00 ∧ tb_name b ≠ "" ∧ str_len (tb_name b) ≤ 80) l
  ∧ NoDup (omap tb_reader l) ∧ readers = list_to_set (omap tb_reader l)
  ∧ ∀ id, id ∈ omap tb_reader l → id ∈ member_id <$> ms_members m) []) in Hf; [exact Hf| |].
  - clear. intros l [es rs] b [es' rs'] (-> & Hnd & Hall & Hrd & -> & Hin). unfold transport_step.
    intros [Ht Hr]%then_Ok. apply fail_if_Ok in Ht. bool_prop. destruct Ht as [[[[Hz Hfresh] Hn] Hlen] _].
    apply String.eqb_neq in Hn. rewrite fmap_app, omap_app. cbn [fmap list_fmap omap list_omap].
    assert (NoDup ((tb_endpoint <$> l) ++ [tb_endpoint b])) as Hnd'.
    { apply NoDup_app. split_and!; [done| |apply NoDup_singleton]. intros x Hx ->%list_elem_of_singleton.
      apply Hfresh. by apply elem_of_list_to_set. }
    destruct (tb_reader b) as [reader|] eqn:Hb.
    + apply bind_Ok in Hr as (k & [Hk <-]%membership_member_Ok & Hr). apply then_Ok in Hr as [Hold Hr].
      apply fail_if_Ok, bool_decide_eq_false in Hold. injection Hr as <- <-.
      split_and!; [|done| | | |].
      * apply leibniz_equiv. rewrite list_to_set_app. cbn. set_solver.
      * apply Forall_app. by repeat constructor.
      * apply NoDup_app. split_and!; [done| |apply NoDup_singleton]. intros x Hx ->%list_elem_of_singleton.
        apply Hold. by apply elem_of_list_to_set.
      * apply leibniz_equiv. rewrite list_to_set_app. cbn. set_solver.
      * intros id [Hid| ->%list_elem_of_singleton]%elem_of_app; [by apply Hin|].
        by apply list_elem_of_fmap_2.
    + injection Hr as <- <-. rewrite app_nil_r. split_and!; [|done| |done..].
      * apply leibniz_equiv. rewrite list_to_set_app. cbn. set_solver.
      * apply Forall_app. by repeat constructor.
  - cbn. split_and!; try done; [apply NoDup_nil_2..|]. intros id Hid. by apply not_elem_of_nil in Hid.
Qed.

Lemma validate_transports_Ok m l :
  membership_wf m → validate_transports m l = Ok tt → transports_ok m l.
Proof.
  intros Hm. unfold validate_transports. intros [Ht Hr]%then_Ok.
  apply bind_Ok in Hr as ([es rs] & (Hnd & Hall & Hrd & -> & Hin)%transport_fold & Hs).
  apply fail_if_Ok in Ht, Hs. bool_prop. destruct Ht as [Hne Hlen].
  split_and!; [done|lia|done..|]. intros id. split; [apply Hin|]. intros Hid.
  apply membership_facts in Hm as (_ & _ & Hnd' & _).
  rewrite size_list_to_set in Hs by done.
  assert (omap tb_reader l ≡ₚ member_id <$> ms_members m) as ->; [|done].
  apply submseteq_length_Permutation; [by apply NoDup_submseteq|]. rewrite length_fmap. by apply Nat.eq_le_incl.
Qed.

(** ** Chains *)

(** Who may sign the next certificate: the first controller, for one of version 1, which
    merges nothing; or a member of the epoch before, for one of version 2. *)
Definition signer_allowed (controller : MemberPublicKeys) (chain : list Certificate)
    (b : Body Membership) (signer : MemberPublicKeys) : Prop :=
  (cb_version b = 1 ∧ signer = controller ∧ cb_merge b = None)
  ∨ (cb_version b = 2 ∧ cb_signer b = Some (member_id signer)
     ∧ ∃ prior, last chain = Some prior ∧ signer ∈ ms_members (cb_membership (gc_body prior))).

(** What a certificate that merges an approval needs: the source group the approval carries,
    verified for the controller it names, and signed by one of its members for the exact
    certificate before; the members and transports are those of both. *)
Definition merge_allowed (deeper : nat) (chain : list Certificate) (b : Body Membership)
    (a : MergeApproval) : Prop :=
  ∃ target source source_chain signer payload members transports,
    vg_chain target = chain
    ∧ decode_chain (ma_source a) = Ok source_chain
    ∧ verify_left deeper source_chain (ma_source_controller a) = Ok source
    ∧ certificate_digest (vg_current target) = Ok (ma_target a)
    ∧ signer ∈ ms_members (group_membership source) ∧ member_id signer = ma_signer a
    ∧ approval_payload a = Ok payload ∧ signed_by (mk_signing signer) payload (ma_signature a)
    ∧ merge_union target source = Ok (members, transports)
    ∧ ms_members (cb_membership b) = members ∧ cb_transports b = transports.

(** The next certificate of a chain: of the same group and controller, in the next epoch,
    naming the digest of the last, and signed. *)
Definition certificate_ok (deeper : nat) (trusted : MemberId) (group : bytes)
    (controller : MemberPublicKeys) (chain : list Certificate) (c : Certificate) : Prop :=
  let b := gc_body c in
  cb_controller b = trusted ∧ ms_group (cb_membership b) = group
  ∧ ms_epoch (cb_membership b) = Z.of_nat (length chain) + 1
  ∧ controller ∈ ms_members (cb_membership b) ∧ member_id controller = trusted
  ∧ validate_transports (cb_membership b) (cb_transports b) = Ok tt
  ∧ match last chain with
    | Some prior => ∃ d, certificate_digest prior = Ok d ∧ cb_previous b = Some d
    | None => cb_previous b = None
    end
  ∧ (∃ signer payload, signer_allowed controller chain b signer
      ∧ certificate_payload b = Ok payload ∧ signed_by (mk_signing signer) payload (gc_signature c))
  ∧ ∀ a, cb_merge b = Some a → merge_allowed deeper chain b a.

Inductive authorized (deeper : nat) (trusted : MemberId) (group : bytes)
    (controller : MemberPublicKeys) : list Certificate → Prop :=
| authorized_start : authorized deeper trusted group controller []
| authorized_next chain c :
    authorized deeper trusted group controller chain →
    certificate_ok deeper trusted group controller chain c →
    authorized deeper trusted group controller (chain ++ [c]).

(** What the loop knows of the certificates it has read. *)
Definition verified_so_far (deeper : nat) (trusted : MemberId) (group : bytes)
    (controller : MemberPublicKeys) (chain : list Certificate)
    (verified : option (VerifiedGroup * bytes)) : Prop :=
  authorized deeper trusted group controller chain
  ∧ match verified with
    | Some (g, d) => vg_chain g = chain ∧ certificate_digest (vg_current g) = Ok d
    | None => chain = []
    end.

Lemma last_chain g : last (vg_chain g) = Some (vg_current g).
Proof. apply last_snoc. Qed.
Lemma chain_nonempty g : vg_chain g ≠ [].
Proof. unfold vg_chain. by destruct (vg_older g). Qed.

Lemma signer_is_allowed controller prior b signer :
  cb_version b = 1 ∨ cb_version b = 2 →
  certificate_signer controller prior b = Ok signer →
  signer_allowed controller (from_option vg_chain [] prior) b signer.
Proof.
  unfold certificate_signer. intros [Hv|Hv]; rewrite Hv; cbn.
  - intros [Ht [= <-]]%then_Ok. apply fail_if_Ok, orb_false_iff in Ht as [_ Hm%bool_decide_eq_false].
    left. split_and!; [done..|]. by apply eq_None_not_Some.
  - intros Hs. inv_ok. destruct prior as [g|]; [|done]. simplify_eq.
    apply membership_member_Ok in Hs as [Hs <-]. right. split_and!; [done..|].
    exists (vg_current a). cbn. by rewrite last_chain.
Qed.

Lemma merge_is_allowed deeper prior b known :
  certificate_merge (verify_left deeper) prior b = Ok known →
  ∀ a, cb_merge b = Some a → merge_allowed deeper (from_option vg_chain [] prior) b a.
Proof.
  unfold certificate_merge. intros Hm a Ha. rewrite Ha in Hm.
  apply bind_Ok in Hm as (target & Ht%ok_or_Ok & Hm). subst prior.
  apply bind_Ok in Hm as (source & Hs & Hm). apply bind_Ok in Hm as ([members transports] & Hu & Hm).
  apply then_Ok in Hm as [He _]. apply fail_if_Ok in He. bool_prop. destruct He as [Hms Hts].
  unfold approval_verify, source_at in Hs.
  apply bind_Ok in Hs as (s & Hsrc & Hs). apply then_Ok in Hsrc as [_ Hsrc].
  apply bind_Ok in Hsrc as (chain & Hd & Hv). apply bind_Ok in Hs as (digest & Hdig & Hs).
  apply then_Ok in Hs as [Ht Hs]. apply fail_if_Ok in Ht. bool_prop. destruct Ht as [Ht _].
  apply bind_Ok in Hs as (signer & [Hin Hid]%membership_member_Ok & Hs).
  apply bind_Ok in Hs as (payload & Hp & Hs). apply then_Ok in Hs as [Hsig%verify_Ok Hs].
  apply bind_Ok in Hs as (_ & _ & [= ->]).
  exists target, source, chain, signer, payload, members, transports. cbn.
  split_and!; try done. by rewrite Ht.
Qed.

Lemma verify_certificate_Ok deeper trusted group controller verified c r :
  verify_certificate (verify_left deeper) trusted group controller verified c = Ok r →
  let prior := fst <$> verified in
  let b := gc_body c in
  ∃ digest ancestors enrollments,
    r = Some ({| vg_older := from_option vg_chain [] prior; vg_current := c;
                 vg_ancestors := {[ digest ]} ∪ ancestors;
                 vg_enrollments := match cb_enrollment b with
                                   | Some e => {[ e ]} ∪ enrollments
                                   | None => enrollments
                                   end |}, digest)
    ∧ certificate_digest c = Ok digest
    ∧ certificate_merge (verify_left deeper) prior b = Ok (ancestors, enrollments)
    ∧ cb_previous b = snd <$> verified
    ∧ (∀ chain, from_option vg_chain [] prior = chain →
       match verified with
       | Some (g, d) => certificate_digest (vg_current g) = Ok d
       | None => True
       end → certificate_ok deeper trusted group controller chain c).
Proof.
  intros Hc prior b. unfold verify_certificate in Hc. apply then_Ok in Hc as [Ht Hr].
  apply bind_Ok in Hr as (kept & [Hkept Hid]%membership_member_Ok & Hr). apply then_Ok in Hr as [Hk Hr].
  apply fail_if_Ok, negb_false_iff, bool_decide_eq_true in Hk as ->.
  apply then_Ok in Hr as [Htr Hr]. apply bind_Ok in Hr as (signer & Hs & Hr).
  apply bind_Ok in Hr as (payload & Hp & Hr). apply then_Ok in Hr as [Hsig%verify_Ok Hr].
  apply bind_Ok in Hr as ([ancestors enrollments] & Hm & Hr).
  apply bind_Ok in Hr as (digest & Hd & [= <-]).
  exists digest, ancestors, enrollments. apply fail_if_Ok in Ht. bool_prop.
  destruct Ht as [[[[Hv Hc] Hprev] Hg] He].
  split_and!; [by destruct verified as [[]|]|done..|].
  intros chain Hchain Hdig. subst chain. split_and!; try done.
  - destruct verified as [[g d]|]; cbn in *; [|done]. rewrite last_chain. by exists d.
  - exists signer, payload. split_and!; [|done..]. apply signer_is_allowed; [|done].
    by destruct Hv; [left|right].
  - by apply (merge_is_allowed deeper prior b (ancestors, enrollments)).
Qed.

Lemma verified_step deeper trusted group controller chain verified c r :
  verified_so_far deeper trusted group controller chain verified →
  verify_certificate (verify_left deeper) trusted group controller verified c = Ok r →
  verified_so_far deeper trusted group controller (chain ++ [c]) r.
Proof.
  intros [Ha Hv] (digest & ancestors & enrollments & -> & Hd & _ & _ & Hok)%verify_certificate_Ok.
  split.
  - constructor; [done|]. apply Hok.
    + destruct verified as [[g d]|]; cbn in *; naive_solver.
    + destruct verified as [[g d]|]; [naive_solver|done].
  - cbn. split; [|done]. unfold vg_chain at 1; cbn. f_equal.
    destruct verified as [[g d]|]; cbn in *; naive_solver.
Qed.

Lemma verify_left_Ok deeper chain trusted g :
  verify_left deeper chain trusted = Ok g →
  ∃ less controller group d,
    deeper = S less
    ∧ try_fold (verify_certificate (verify_left less) trusted group controller) None chain
      = Ok (Some (g, d))
    ∧ (length chain ≤ 64)%nat
    ∧ ∃ encoded, encode_chain chain = Ok encoded ∧ Z.of_nat (length encoded) ≤ MAX_CHAIN_BYTES.
Proof.
  destruct deeper as [|less]; [done|]. cbn [verify_left]. intros [Ht Hv]%then_Ok.
  apply bind_Ok in Hv as (encoded & He & Hv). apply then_Ok in Hv as [Hl Hv].
  apply bind_Ok in Hv as (first & _ & Hv). apply then_Ok in Hv as [_ Hv].
  apply bind_Ok in Hv as (controller & _ & Hv). apply bind_Ok in Hv as (r & Hr & Hv).
  apply ok_or_Ok in Hv. destruct r as [[g' d]|]; [|done]. injection Hv as ->.
  apply fail_if_Ok in Ht, Hl. unfold MAX_EPOCHS in *. bool_prop. destruct Ht as [_ Ht].
  exists less, controller, (ms_group (cb_membership first)), d. split_and!; [done|done|lia|].
  by exists encoded.
Qed.

Lemma verify_left_authorized deeper chain trusted g :
  verify_left deeper chain trusted = Ok g →
  vg_chain g = chain ∧ ∃ less group controller, deeper = S less
    ∧ member_id controller = trusted ∧ authorized less trusted group controller chain.
Proof.
  intros (less & controller & group & d & -> & Hf & _)%verify_left_Ok.
  eapply (try_fold_invariant _ (verified_so_far less trusted group controller) []) in Hf
    as [Ha [Hg _]]; [|intros ? ? ? ?; apply verified_step|by split; [constructor|]].
  cbn in Ha, Hg. split; [done|]. subst chain. exists less, group, controller. split_and!; [done| |done].
  inversion Ha as [Hnil|chain' c Ha' Hc]; [by destruct (chain_nonempty g)|].
  by destruct Hc as (_ & _ & _ & _ & Hc & _).
Qed.

(** A verified group has a digest. *)
Lemma verified_digest deeper chain trusted g :
  verify_left deeper chain trusted = Ok g → ∃ d, group_digest g = Ok d.
Proof.
  intros (less & controller & group & d & _ & Hf & _)%verify_left_Ok.
  eapply (try_fold_invariant _ (verified_so_far less trusted group controller) []) in Hf
    as (_ & _ & Hd); [by exists d|intros ? ? ? ?; apply verified_step|by split; [constructor|]].
Qed.

(** C18: A verified chain starts at the controller that is trusted, and no certificate of it is
    there without the right signature: every one names the digest of the one before, has the
    controller as a member with the same keys and is signed by the controller or by a member
    of the epoch before; one that merges carries consent of a member of the other group. *)
Theorem verified_group_authorized chain trusted g :
  group_verify chain trusted = Ok g →
  vg_chain g = chain ∧ ∃ group controller, member_id controller = trusted
    ∧ authorized MAX_MERGE_DEPTH trusted group controller chain.
Proof.
  intros (Hc & less & group & controller & [= <-] & Hid & Ha)%verify_left_authorized.
  split; [done|]. by exists group, controller.
Qed.

(** ** Ancestors *)

(** The chains a chain stands for: its beginnings, and those of the groups merged in it. *)
Inductive incorporated (chain : list Certificate) : list Certificate → Prop :=
| incorporated_prefix older c rest :
    chain = older ++ c :: rest → incorporated chain (older ++ [c])
| incorporated_merge c a source sub :
    c ∈ chain → cb_merge (gc_body c) = Some a → decode_chain (ma_source a) = Ok source →
    incorporated source sub → incorporated chain sub.

(** The digest of a chain is that of its last certificate. *)
Definition chain_digest (chain : list Certificate) (d : bytes) : Prop :=
  ∃ c, last chain = Some c ∧ certificate_digest c = Ok d.

Lemma incorporated_nil sub : ¬ incorporated [] sub.
Proof.
  inversion 1 as [? ? ? Hnil|? ? ? ? Hin]; [by destruct older|].
  by apply not_elem_of_nil in Hin.
Qed.

Lemma incorporated_snoc chain c sub :
  incorporated (chain ++ [c]) sub ↔
    sub = chain ++ [c] ∨ incorporated chain sub
    ∨ ∃ a source, cb_merge (gc_body c) = Some a ∧ decode_chain (ma_source a) = Ok source
        ∧ incorporated source sub.
Proof.
  split.
  - inversion 1 as [older x rest Heq|x a source ? Hx Ha Hs Hsub]; subst.
    + destruct rest as [|y rest _] using rev_ind.
      * left. by apply app_inj_tail in Heq as [-> ->].
      * right; left. rewrite app_comm_cons, app_assoc in Heq. apply app_inj_tail in Heq as [-> _].
        by econstructor.
    + apply elem_of_app in Hx as [Hx| ->%list_elem_of_singleton].
      * right; left. by eapply incorporated_merge.
      * right; right. by exists a, source.
  - intros [->|[Hsub|(a & source & Ha & Hs & Hsub)]].
    + by eapply (incorporated_prefix _ chain c []).
    + inversion Hsub as [older x rest ->|x a source ? Hx Ha Hs Hsub']; subst.
      * eapply (incorporated_prefix _ older x (rest ++ [c])). by rewrite <- app_assoc.
      * eapply incorporated_merge; [|done..]. apply elem_of_app. by left.
    + eapply incorporated_merge; [|done..]. apply elem_of_app. right. by left.
Qed.

(** What an approval's source adds is what its chain stands for. *)
Lemma merge_ancestors deeper prior b ancestors enrollments :
  (∀ chain trusted g, verify_left deeper chain trusted = Ok g →
    ∀ d, d ∈ vg_ancestors g ↔ ∃ sub, incorporated chain sub ∧ chain_digest sub d) →
  certificate_merge (verify_left deeper) prior b = Ok (ancestors, enrollments) →
  ∀ d, d ∈ ancestors ↔
    d ∈ from_option vg_ancestors ∅ prior
    ∨ ∃ a source sub, cb_merge b = Some a ∧ decode_chain (ma_source a) = Ok source
        ∧ incorporated source sub ∧ chain_digest sub d.
Proof.
  intros Hdeep Hm d. unfold certificate_merge in Hm.
  destruct (cb_merge b) as [a|] eqn:Ha.
  - apply bind_Ok in Hm as (target & Ht%ok_or_Ok & Hm). subst prior.
    apply bind_Ok in Hm as (source & Hs & Hm). apply bind_Ok in Hm as ([? ?] & _ & Hm).
    apply then_Ok in Hm as [_ [= <- <-]]. unfold approval_verify in Hs.
    apply bind_Ok in Hs as (s & Hsrc & Hs).
    assert (s = source) as ->.
    { apply bind_Ok in Hs as (? & _ & Hs). apply then_Ok in Hs as [_ Hs].
      apply bind_Ok in Hs as (? & _ & Hs). apply bind_Ok in Hs as (? & _ & Hs).
      apply then_Ok in Hs as [_ Hs]. apply bind_Ok in Hs as (? & _ & Hs). by injection Hs. }
    unfold source_at in Hsrc. apply then_Ok in Hsrc as [_ Hsrc].
    apply bind_Ok in Hsrc as (chain & Hd & Hv). cbn. rewrite elem_of_union, (Hdeep _ _ _ Hv). apply or_iff_compat_l. split.
    + intros (sub & Hsub & Hx). by exists a, chain, sub.
    + intros (a' & source' & sub & [= <-] & Hd' & Hsub & Hx). exists sub.
      rewrite Hd in Hd'. injection Hd' as <-. done.
  - assert (ancestors = from_option vg_ancestors ∅ prior) as ->
      by (destruct prior; by injection Hm as <-).
    split; [by left|]. by intros [?|(? & ? & ? & ? & _)].
Qed.

Lemma verified_ancestors deeper chain trusted g :
  verify_left deeper chain trusted = Ok g →
  ∀ d, d ∈ vg_ancestors g ↔ ∃ sub, incorporated chain sub ∧ chain_digest sub d.
Proof.
  revert chain trusted g. induction deeper as [|less IH]; intros chain trusted g; [done|].
  intros (l & controller & group & d & [= <-] & Hf & _)%verify_left_Ok.
  eapply (try_fold_invariant _ (λ chain verified,
    verified_so_far less trusted group controller chain verified
    ∧ ∀ d, d ∈ from_option vg_ancestors ∅ (fst <$> verified) ↔
        ∃ sub, incorporated chain sub ∧ chain_digest sub d) []) in Hf; [apply Hf|..].
  - clear -IH. intros chain verified c r [Hsofar Hanc] Hc. pose proof Hc as Hr.
    apply (verified_step _ _ _ _ chain) in Hr as Hnext; [|done]. split; [done|].
    apply verify_certificate_Ok in Hc as (digest & ancestors & enrollments & -> & Hd & Hm & _).
    intros x. cbn. rewrite elem_of_union, elem_of_singleton.
    rewrite (merge_ancestors _ _ _ _ _ IH Hm), Hanc. setoid_rewrite incorporated_snoc. split.
    + intros [->|[(sub & Hsub & Hx)|(a & source & sub & ? & ? & ? & ?)]].
      * exists (chain ++ [c]). split; [by left|]. exists c. by rewrite last_snoc.
      * exists sub. split; [by right; left|done].
      * exists sub. split; [|done]. right; right. by exists a, source.
    + intros (sub & [->|[Hsub|(a & source & ? & ? & ?)]] & Hx).
      * left. destruct Hx as (y & Hy & Hxd). rewrite last_snoc in Hy. simplify_eq. congruence.
      * right; left. by exists sub.
      * right; right. by exists a, source, sub.
  - split; [by split; [constructor|]|]. intros x. cbn. split; [by intros ?%not_elem_of_empty|].
    intros (sub & Hsub & _). by destruct (incorporated_nil sub).
Qed.

(** ** Chains are linked by their digests *)

Inductive linked : list Certificate → Prop :=
| linked_first c : cb_previous (gc_body c) = None → linked [c]
| linked_next chain d c :
    linked chain → chain_digest chain d → cb_previous (gc_body c) = Some d → linked (chain ++ [c]).

Lemma linked_prefix older c rest : linked (older ++ c :: rest) → linked (older ++ [c]).
Proof.
  induction rest as [|x rest IH] using rev_ind; [done|]. rewrite app_comm_cons, app_assoc.
  inversion 1 as [y Hy Heq|chain d y Hl Hd Hy Heq].
  - apply (app_inj_tail [] _) in Heq as [Heq _]. by destruct older.
  - apply app_inj_tail in Heq as [-> ->]. by apply IH.
Qed.

Lemma authorized_linked deeper trusted group controller chain :
  authorized deeper trusted group controller chain → chain ≠ [] → linked chain.
Proof.
  induction 1 as [|chain c Ha IH Hc]; intros Hne; [done|].
  destruct Hc as (_ & _ & _ & _ & _ & _ & Hprev & _).
  destruct (last chain) as [prior|] eqn:Hlast.
  - destruct Hprev as (d & Hd & Hprev). eapply linked_next; [|by exists prior|done].
    apply IH. by intros ->.
  - apply last_None in Hlast as ->. by apply linked_first.
Qed.

(** Every merge in an authorized chain is of a verified group. *)
Lemma authorized_merge deeper trusted group controller chain c a source :
  authorized deeper trusted group controller chain → c ∈ chain → cb_merge (gc_body c) = Some a →
  decode_chain (ma_source a) = Ok source →
  ∃ g, verify_left deeper source (ma_source_controller a) = Ok g.
Proof.
  induction 1 as [|chain c' Ha IH Hc]; [by intros ?%not_elem_of_nil|].
  intros [Hin| ->%list_elem_of_singleton]%elem_of_app Hm Hd; [by apply IH|].
  destruct Hc as (_ & _ & _ & _ & _ & _ & _ & _ & Hmerge).
  destruct (Hmerge a Hm) as (? & g & source' & ? & ? & ? & ? & _ & Hd' & Hv & _).
  exists g. rewrite Hd in Hd'. injection Hd' as <-. done.
Qed.

Lemma incorporated_linked deeper chain trusted g sub :
  verify_left deeper chain trusted = Ok g → incorporated chain sub → linked sub.
Proof.
  intros Hv Hsub. revert deeper trusted g Hv.
  induction Hsub as [chain older c rest ->|chain c a source sub Hc Ha Hs Hsub IH];
    intros deeper trusted g (_ & less & group & controller & _ & _ & Hauth)%verify_left_authorized.
  - eapply linked_prefix, authorized_linked; [exact Hauth|]. by destruct older.
  - destruct (authorized_merge _ _ _ _ _ _ _ _ Hauth Hc Ha Hs) as [g' Hg']. by eapply IH.
Qed.

(** ** Memberships of certificates *)

(** Every membership was made by its constructor, the only way to make one. *)
Definition certificate_wf (c : Certificate) : Prop := membership_wf (cb_membership (gc_body c)).
Definition group_wf (g : VerifiedGroup) : Prop := Forall certificate_wf (vg_chain g).

Lemma certificate_from_wire_wf w c : certificate_from_wire w = Ok c → certificate_wf c.
Proof.
  unfold certificate_from_wire, membership_from_wire. intros Hc. inv_ok.
  by apply membership_new_Ok in Ha as (_ & _ & _ & ?).
Qed.

Lemma certificate_wire_back c : certificate_wf c → certificate_from_wire (certificate_wire c) = Ok c.
Proof.
  intros Hc%membership_wire_back. unfold certificate_from_wire. cbn. rewrite Hc. by destruct c as [[] ?].
Qed.

Lemma certificate_wire_inj a b :
  certificate_wf a → certificate_wf b → certificate_wire a = certificate_wire b → a = b.
Proof.
  intros Ha%certificate_wire_back Hb%certificate_wire_back Heq. rewrite Heq in Ha. congruence.
Qed.

Lemma decode_chain_wf b chain : decode_chain b = Ok chain → Forall certificate_wf chain.
Proof.
  unfold decode_chain. intros (wire & _ & Hw%map_err_Ok%try_collect_Ok)%bind_Ok.
  induction Hw as [|w c ws cs Hc Hw IH]; constructor; [by eapply certificate_from_wire_wf|done].
Qed.

Lemma incorporated_wf chain sub :
  Forall certificate_wf chain → incorporated chain sub → Forall certificate_wf sub.
Proof.
  intros Hwf Hsub. revert Hwf.
  induction Hsub as [chain older c rest ->|chain c a source sub Hc Ha Hs Hsub IH]; intros Hwf.
  - rewrite cons_middle, app_assoc in Hwf. by apply Forall_app in Hwf as [? _].
  - apply IH. by eapply decode_chain_wf.
Qed.
End Authorized.

Section Extensions.
Context `{Sha256, MlDsa65, Hpke} `{Serde (list MemberPublicKeys)}.
Context `{Serde (Body MembershipWire)} `{SerdeOk CertificateWire} `{SerdeOk (list CertificateWire)}.
Context `{Serde (MemberId * bytes * bytes * MemberId)}.

(** Two certificates, one of each chain, whose encodings SHA-256 confuses. *)
Definition chains_collide (l m : list Certificate) : Prop :=
  ∃ a b x y, a ∈ l ∧ b ∈ m ∧ encode_certificate a = Ok x ∧ encode_certificate b = Ok y
    ∧ sha256_collides x y.

Lemma chains_collide_mono l l' m m' :
  l ⊆ l' → m ⊆ m' → chains_collide l m → chains_collide l' m'.
Proof. intros Hl Hm (a & b & x & y & ? & ? & ?). exists a, b, x, y. split_and!; [by apply Hl|by apply Hm|tauto..]. Qed.

Lemma same_digest a b d :
  certificate_wf a → certificate_wf b →
  certificate_digest a = Ok d → certificate_digest b = Ok d →
  a = b ∨ chains_collide [a] [b].
Proof.
  unfold certificate_digest. intros Ha Hb (x & Hx & [= Hdx])%bind_Ok (y & Hy & [= Hdy])%bind_Ok.
  destruct (sha256_eq_or_collides x y) as [->|Hc]; [congruence| |].
  - left. apply certificate_wire_inj; [done..|]. by eapply sync_encode_inj.
  - right. exists a, b, x, y. split_and!; [by left..|done|done|done].
Qed.

Lemma linked_nonempty l : linked l → ∃ older c, l = older ++ [c].
Proof. destruct 1 as [c|l d c]; [by exists [], c|by exists l, c]. Qed.

(** Two linked chains with the same digest are the same chain. *)
Lemma linked_same l m d :
  linked l → linked m → Forall certificate_wf l → Forall certificate_wf m →
  chain_digest l d → chain_digest m d → l = m ∨ chains_collide l m.
Proof.
  intros Hl. revert m d. induction Hl as [c Hc|l dl c Hl IH Hdl Hc]; intros m d Hm Hwl Hwm.
  - intros (? & [= <-] & Hd) (c' & Hlast & Hd').
    destruct (same_digest c c' d) as [<-|Hx]; [..|done|done| |].
    + by apply (proj1 (Forall_singleton _ _)) in Hwl.
    + rewrite Forall_forall in Hwm. by apply Hwm, last_Some_elem_of.
    + destruct Hm as [c0|m dm c0 _ _ Hprev]; [by injection Hlast as <-; left|].
      rewrite last_snoc in Hlast. simplify_eq.
    + right. eapply chains_collide_mono; [done| |exact Hx].
      intros x ->%list_elem_of_singleton. by apply last_Some_elem_of.
  - intros (? & Hlast & Hd) (c' & Hlast' & Hd'). rewrite last_snoc in Hlast. injection Hlast as <-.
    apply Forall_app in Hwl as [Hwl Hwc]. apply (proj1 (Forall_singleton _ _)) in Hwc.
    destruct (same_digest c c' d) as [<-|Hx]; [done| |done|done| |].
    + rewrite Forall_forall in Hwm. by apply Hwm, last_Some_elem_of.
    + destruct Hm as [c0 Hprev|m dm c0 Hm Hdm Hprev]; [injection Hlast' as <-; congruence|].
      rewrite last_snoc in Hlast'. injection Hlast' as <-. apply Forall_app in Hwm as [Hwm _].
      assert (dm = dl) as -> by congruence.
      destruct (IH m dl) as [->|Hx]; [done..|by left|]. right.
      eapply chains_collide_mono; [..|exact Hx]; set_solver.
    + right. eapply chains_collide_mono; [..|exact Hx]; [set_solver|].
      intros x ->%list_elem_of_singleton. by apply last_Some_elem_of.
Qed.

(** A group accepts another as an extension only if the other stands for its whole chain, as
    a beginning of its own or of a group merged in it, or two certificates collide under
    SHA-256: a fork at the same epoch, a rollback and an unrelated group are refused. *)
Theorem extension_contains_chain pinned_chain pinned_controller pinned chain controller incoming :
  group_verify pinned_chain pinned_controller = Ok pinned →
  group_verify chain controller = Ok incoming →
  group_wf pinned → group_wf incoming →
  accept_extension pinned incoming = Ok tt →
  incorporated (vg_chain incoming) (vg_chain pinned)
  ∨ ∃ sub, incorporated (vg_chain incoming) sub ∧ chains_collide (vg_chain pinned) sub.
Proof.
  intros Hp Hi Hwp Hwi Hacc. unfold accept_extension in Hacc.
  apply bind_Ok in Hacc as (d & Hd & Hacc). case_bool_decide as Hin; [|done].
  pose proof Hi as (Hic & _)%verify_left_authorized. rewrite Hic.
  apply (verified_ancestors _ _ _ _ Hi) in Hin as (sub & Hsub & Hsd).
  pose proof Hp as (Hpc & less & group & keys & _ & _ & Ha)%verify_left_authorized.
  destruct (linked_same (vg_chain pinned) sub d) as [->|Hx]; [..|by left|right; by exists sub].
  - rewrite Hpc. eapply authorized_linked; [exact Ha|]. rewrite <- Hpc. apply chain_nonempty.
  - by eapply incorporated_linked.
  - done.
  - eapply incorporated_wf; [|done]. unfold group_wf in Hwi. by rewrite Hic in Hwi.
  - exists (vg_current pinned). by rewrite last_chain.
  - done.
Qed.
End Extensions.
