(* ===== verification/SyncMembers.v ===== *)
(** What the members of a group of devices do to it: creating a group, advancing its
    membership, consenting to a merge and committing it; the groups these replace accept the
    result, and a group is read back as it was written. *)
From Stdlib Require Import ZArith Lia Bool.
From stdpp Require Import base gmap strings list.
From S2P Require Import Prelude Text Chars Core Address Signature SyncIdentity SyncGroup.

Section Members.
Context `{Sha256, MlDsa65, Hpke, Signers} `{Serde (list MemberPublicKeys)}.
Context `{Serde (Body MembershipWire)} `{Serde CertificateWire} `{SerdeOk (list CertificateWire)}.
Context `{Serde (MemberId * bytes * bytes * MemberId)}.

(** ** Groups are well formed *)

Lemma sign_group_Ok r b c :
  sign_group r b = Ok c → gc_body c = b ∧ validate_transports (cb_membership b) (cb_transports b) = Ok tt.
Proof.
  unfold sign_group. intros [Hv Hc]%then_Ok. apply bind_Ok in Hc as (payload & _ & Hc).
  by apply bind_Ok in Hc as (signature & _ & [= <-]).
Qed.

Lemma group_verify_chain chain trusted g : group_verify chain trusted = Ok g → vg_chain g = chain.
Proof. by intros [? _]%verify_left_authorized. Qed.

Lemma next_membership_Ok g members m :
  next_membership g members = Ok m →
  ms_group m = ms_group (group_membership g)
  ∧ ms_epoch m = ms_epoch (group_membership g) + 1
  ∧ ms_members m ≡ₚ members ∧ membership_wf m.
Proof.
  unfold next_membership. intros (e & He%ok_or_Ok & (Hg & Hm & Hs & Hwf)%membership_new_Ok)%bind_Ok.
  apply u64_checked_add_Some in He as [-> _]. split_and!; [done..| |done].
  rewrite Hs. apply sort_by_perm.
Qed.

(** A new certificate at the end of a chain, with a membership of its constructor. *)
Lemma extended_group g chain c trusted :
  Forall certificate_wf chain → membership_wf (cb_membership (gc_body c)) →
  group_verify (chain ++ [c]) trusted = Ok g →
  vg_chain g = chain ++ [c] ∧ vg_current g = c ∧ group_wf g.
Proof.
  intros Hwf Hc Hv%group_verify_chain. split_and!; [done| |].
  - unfold vg_chain in Hv. by apply app_inj_tail in Hv as [_ ?].
  - unfold group_wf. rewrite Hv. apply Forall_app. by repeat constructor.
Qed.

Lemma incorporated_extension g rest : incorporated (vg_chain g ++ rest) (vg_chain g).
Proof.
  apply (incorporated_prefix _ (vg_older g) (vg_current g) rest). unfold vg_chain.
  by rewrite <- app_assoc.
Qed.

(** A group that another stands for accepts it. *)
Lemma incorporated_accepted g next chain trusted d :
  group_verify chain trusted = Ok next → incorporated chain (vg_chain g) →
  group_digest g = Ok d → accept_extension g next = Ok tt.
Proof.
  intros Hv Hsub Hd. unfold accept_extension. rewrite Hd. cbn [mbind result_bind].
  rewrite bool_decide_eq_true_2; [done|]. apply (verified_ancestors _ _ _ _ Hv).
  exists (vg_chain g). split; [done|]. exists (vg_current g). by rewrite last_chain.
Qed.

Lemma created_group_wf r group endpoint name g :
  create_group r group endpoint name = Ok g → group_wf g.
Proof.
  unfold create_group. intros (id & _ & Hg)%bind_Ok.
  apply bind_Ok in Hg as (m & (_ & _ & _ & Hm)%membership_new_Ok & Hg).
  apply bind_Ok in Hg as (c & [Hc _]%sign_group_Ok & Hg).
  apply (extended_group g [] c) in Hg as (_ & _ & ?); [done|constructor|]. by rewrite Hc.
Qed.

(** The operations end in the verification of what they give. *)
Lemma created_group_verified r group endpoint name g :
  create_group r group endpoint name = Ok g → group_verify (vg_chain g) (reader_id r) = Ok g.
Proof.
  unfold create_group. intros (id & _ & Hg)%bind_Ok. apply bind_Ok in Hg as (m & _ & Hg).
  apply bind_Ok in Hg as (c & _ & Hg). by rewrite (group_verify_chain _ _ _ Hg).
Qed.
Lemma advanced_group_verified r g members transports enrollment next :
  advance_group r g members transports enrollment = Ok next →
  group_verify (vg_chain next) (group_controller g) = Ok next.
Proof.
  unfold advance_group. intros (k & _ & Hn)%bind_Ok. apply bind_Ok in Hn as (m & _ & Hn).
  apply bind_Ok in Hn as (d & _ & Hn). apply bind_Ok in Hn as (c & _ & Hn).
  by rewrite (group_verify_chain _ _ _ Hn).
Qed.
Lemma advanced_group_wf r g members transports enrollment next :
  group_wf g → advance_group r g members transports enrollment = Ok next → group_wf next.
Proof.
  intros Hwf. unfold advance_group. intros (k & _ & Hn)%bind_Ok.
  apply bind_Ok in Hn as (m & (_ & _ & _ & Hm)%next_membership_Ok & Hn).
  apply bind_Ok in Hn as (d & _ & Hn). apply bind_Ok in Hn as (c & [Hc _]%sign_group_Ok & Hn).
  apply (extended_group next (vg_chain g) c) in Hn as (_ & _ & ?); [done|done|]. by rewrite Hc.
Qed.

Lemma decoded_group_wf b trusted g : group_decode b trusted = Ok g → group_wf g.
Proof.
  unfold group_decode. intros [_ Hg]%then_Ok. apply bind_Ok in Hg as (chain & Hc & Hg).
  apply group_verify_chain in Hg. unfold group_wf. rewrite Hg. by eapply decode_chain_wf.
Qed.

(** ** Advancing a group *)

(** The next epoch of a group is made by one of its members, keeps its chain and has the
    members and transports it was asked for; the group it replaces accepts it. *)
Theorem advanced_group_accepted r g members transports enrollment next :
  group_wf g → advance_group r g members transports enrollment = Ok next →
  reader_id r ∈ member_id <$> ms_members (group_membership g)
  ∧ group_wf next
  ∧ (∃ c, vg_chain next = vg_chain g ++ [c])
  ∧ group_controller next = group_controller g
  ∧ ms_group (group_membership next) = ms_group (group_membership g)
  ∧ ms_epoch (group_membership next) = ms_epoch (group_membership g) + 1
  ∧ ms_members (group_membership next) ≡ₚ members
  ∧ group_transports next ≡ₚ transports
  ∧ transports_ok (group_membership next) (group_transports next)
  ∧ group_enrollment next = enrollment
  ∧ accept_extension g next = Ok tt.
Proof.
  intros Hwf. unfold advance_group.
  intros (k & [Hk <-]%membership_member_Ok & Hn)%bind_Ok.
  apply bind_Ok in Hn as (m & (Hg & He & Hms & Hm)%next_membership_Ok & Hn).
  apply bind_Ok in Hn as (d & Hd & Hn). apply bind_Ok in Hn as (c & [Hc Hts]%sign_group_Ok & Hn).
  pose proof Hn as (Hchain & Hcur & Hnwf)%extended_group; [|done|by rewrite Hc].
  unfold group_controller, group_membership, group_transports, group_enrollment, vg_body in *.
  rewrite Hcur, Hc. cbn. pose proof (validate_transports_Ok _ _ Hm Hts) as (? & ? & ? & ? & ? & ?).
  split_and!; try done.
  - by apply list_elem_of_fmap_2.
  - by exists c.
  - apply sort_by_perm.
  - eapply incorporated_accepted; [exact Hn| |exact Hd]. apply incorporated_extension.
Qed.

(** ** Merging groups *)

Lemma union_members_Ok l k r :
  try_fold union_step l k = Ok r → r = l ++ k ∧ ∀ a b, a ∈ l → b ∈ k → member_id a ≠ member_id b.
Proof.
  revert l. induction k as [|x k IH]; intros l; cbn.
  - intros [= <-]. rewrite app_nil_r. split; [done|]. intros a b _ Hb. by apply not_elem_of_nil in Hb.
  - unfold union_step at 1. intros (l' & Hl & Hr)%bind_Ok. apply then_Ok in Hl as [Hx [= <-]].
    apply IH in Hr as [-> Hne]. apply fail_if_Ok in Hx. rewrite <- app_assoc. split; [done|].
    intros a b Ha [->|Hb]%elem_of_cons; [|apply Hne; [|done]; apply elem_of_app; by left].
    intros Heq. rewrite <- not_true_iff_false, existsb_exists in Hx. apply Hx. exists a.
    split; [by apply list_elem_of_In|]. by apply bool_decide_eq_true.
Qed.

(** What a union is made of: two groups with no member in common. *)
Lemma merge_union_Ok target source members transports :
  merge_union target source = Ok (members, transports) →
  ms_group (group_membership target) ≠ ms_group (group_membership source)
  ∧ members ≡ₚ ms_members (group_membership target) ++ ms_members (group_membership source)
  ∧ transports ≡ₚ group_transports target ++ group_transports source
  ∧ ∀ a b, a ∈ ms_members (group_membership target) → b ∈ ms_members (group_membership source) →
      member_id a ≠ member_id b.
Proof.
  unfold merge_union. intros [Hg Hu]%then_Ok.
  apply bind_Ok in Hu as (ms & [-> Hne]%union_members_Ok & Hu).
  apply bind_Ok in Hu as (m & (_ & _ & Hs & _)%membership_new_Ok & Hu).
  apply then_Ok in Hu as [_ [= <- <-]]. apply fail_if_Ok, bool_decide_eq_false in Hg.
  split_and!; [done| |apply sort_by_perm|done]. rewrite Hs. apply sort_by_perm.
Qed.

Lemma merge_union_heads target target' source source' :
  vg_current target = vg_current target' → vg_current source = vg_current source' →
  merge_union target source = merge_union target' source'.
Proof.
  intros Ht Hs. unfold merge_union, group_membership, group_transports, vg_body. by rewrite Ht, Hs.
Qed.

Lemma encode_decode_chain chain b :
  Forall certificate_wf chain → encode_chain chain = Ok b → decode_chain b = Ok chain.
Proof.
  intros Hwf He. unfold decode_chain. unfold encode_chain in He. rewrite (sync_encode_decode _ _ He).
  cbn [mbind result_bind]. rewrite map_err_Ok. clear He.
  induction Hwf as [|c chain Hc Hwf IH]; [done|]. cbn.
  rewrite certificate_wire_back by done. cbn. by rewrite IH.
Qed.

(** What a merge commits. *)
Lemma merge_group_Ok r target a enrollment merged :
  group_wf target → merge_group r target a enrollment = Ok merged →
  ∃ source members transports c,
    reader_id r ∈ member_id <$> ms_members (group_membership target)
    ∧ approval_verify_at a target 1 = Ok source
    ∧ merge_union target source = Ok (members, transports)
    ∧ group_verify (vg_chain target ++ [c]) (group_controller target) = Ok merged
    ∧ vg_chain merged = vg_chain target ++ [c] ∧ vg_current merged = c ∧ group_wf merged
    ∧ cb_merge (gc_body c) = Some a ∧ cb_enrollment (gc_body c) = Some enrollment
    ∧ cb_transports (gc_body c) = transports ∧ ms_members (cb_membership (gc_body c)) ≡ₚ members
    ∧ ms_group (cb_membership (gc_body c)) = ms_group (group_membership target)
    ∧ ms_epoch (cb_membership (gc_body c)) = ms_epoch (group_membership target) + 1.
Proof.
  intros Hwf. unfold merge_group.
  intros (k & [Hk <-]%membership_member_Ok & Hn)%bind_Ok.
  apply bind_Ok in Hn as (source & Hs & Hn). apply bind_Ok in Hn as ([members transports] & Hu & Hn).
  apply bind_Ok in Hn as (m & (Hg & He & Hms & Hm)%next_membership_Ok & Hn).
  apply bind_Ok in Hn as (d & Hd & Hn). apply bind_Ok in Hn as (c & [Hc Hts]%sign_group_Ok & Hn).
  pose proof Hn as (Hchain & Hcur & Hnwf)%extended_group; [|done|by rewrite Hc].
  exists source, members, transports, c. rewrite Hc. split_and!; try done.
  by apply list_elem_of_fmap_2.
Qed.

(** The group an approval carries is verified from the chain it decodes to. *)
Lemma approval_source a target depth source chain :
  approval_verify_at a target depth = Ok source → decode_chain (ma_source a) = Ok chain →
  vg_chain source = chain ∧ ∃ d, group_digest source = Ok d.
Proof.
  unfold approval_verify_at, approval_verify, source_at. intros Hv Hdec.
  apply bind_Ok in Hv as (s & Hs & Hv). apply then_Ok in Hs as [_ Hs].
  rewrite Hdec in Hs. cbn [mbind result_bind] in Hs.
  assert (s = source) as ->.
  { apply bind_Ok in Hv as (? & _ & Hv). apply then_Ok in Hv as [_ Hv].
    apply bind_Ok in Hv as (? & _ & Hv). apply bind_Ok in Hv as (? & _ & Hv).
    apply then_Ok in Hv as [_ Hv]. apply bind_Ok in Hv as (? & _ & Hv). by injection Hv. }
  split; [by apply verify_left_authorized in Hs as [? _]|by apply verified_digest in Hs].
Qed.

(** A verified group is written, and read back by whoever trusts its controller. *)
Lemma verified_group_read_back chain controller g :
  group_verify chain controller = Ok g → group_wf g →
  ∃ b, group_encode g = Ok b ∧ group_decode b controller = Ok g.
Proof.
  intros Hv Hwf. pose proof Hv as (_ & _ & _ & _ & _ & _ & _ & encoded & He & Hlen)%verify_left_Ok.
  apply group_verify_chain in Hv as Hc. exists encoded. unfold group_encode, group_decode. rewrite Hc.
  split; [done|]. unfold group_wf in Hwf. rewrite Hc in Hwf.
  rewrite (encode_decode_chain chain encoded) by done. cbn [mbind result_bind].
  assert (MAX_CHAIN_BYTES <? Z.of_nat (length encoded) = false) as -> by (apply Z.ltb_ge; lia).
  exact Hv.
Qed.

(** C19: A merge that a member of one group consents to and a member of the other commits is a
    group that verifies for the controller of the group committing it, and that whoever trusts
    this controller reads from its bytes. It is the next epoch of that group, names the
    enrollment it was asked for, has the members and transports of both groups, which have no
    member in common, and the devices of both groups accept it. *)
Theorem merged_group_accepted_by_both consenter source target a r enrollment merged :
  group_wf source → group_wf target →
  approve_group_merge consenter source target = Ok a →
  merge_group r target a enrollment = Ok merged →
  reader_id consenter ∈ member_id <$> ms_members (group_membership source)
  ∧ reader_id r ∈ member_id <$> ms_members (group_membership target)
  ∧ group_wf merged
  ∧ group_verify (vg_chain merged) (group_controller target) = Ok merged
  ∧ (∃ b, group_encode merged = Ok b ∧ group_decode b (group_controller target) = Ok merged)
  ∧ ms_group (group_membership merged) = ms_group (group_membership target)
  ∧ ms_epoch (group_membership merged) = ms_epoch (group_membership target) + 1
  ∧ group_enrollment merged = Some enrollment
  ∧ ms_members (group_membership merged)
      ≡ₚ ms_members (group_membership target) ++ ms_members (group_membership source)
  ∧ (∀ x y, x ∈ ms_members (group_membership target) → y ∈ ms_members (group_membership source) →
       member_id x ≠ member_id y)
  ∧ group_transports merged ≡ₚ group_transports target ++ group_transports source
  ∧ accept_extension target merged = Ok tt
  ∧ accept_extension source merged = Ok tt.
Proof.
  intros Hsw Htw Happ Hm.
  unfold approve_group_merge in Happ.
  apply bind_Ok in Happ as (k & [Hk Hkid]%membership_member_Ok & Happ).
  apply bind_Ok in Happ as (_ & _ & Happ). apply bind_Ok in Happ as (encoded & He & Happ).
  apply bind_Ok in Happ as (digest & Hd & Happ). apply bind_Ok in Happ as (p & _ & Happ).
  apply bind_Ok in Happ as (s & _ & [= <-]).
  apply merge_group_Ok in Hm as (source' & members & transports & c & Hr & Hv & Hu & Hver & Hchain
    & Hcur & Hmw & Hmerge & Henr & Htr & Hms & Hg & Hep); [|done].
  apply encode_decode_chain in He as Hdec; [|done].
  destruct (approval_source _ _ _ _ _ Hv Hdec) as [Hsame [ds Hds]].
  assert (vg_current source' = vg_current source) as Hhead.
  { apply (f_equal last) in Hsame. rewrite !last_chain in Hsame. by injection Hsame. }
  rewrite (merge_union_heads target target source' source) in Hu by done.
  apply merge_union_Ok in Hu as (_ & Hms' & Hts' & Hne).
  pose proof (verified_group_read_back _ _ _ Hver Hmw) as Hread.
  unfold group_membership, group_transports, group_enrollment, vg_body in *. rewrite Hcur.
  split_and!; [|done|done|by rewrite Hchain|done|done|done|by rewrite Henr|by rewrite Hms|done|by rewrite Htr|..].
  - rewrite <- Hkid. by apply list_elem_of_fmap_2.
  - eapply incorporated_accepted; [exact Hver| |exact Hd]. apply incorporated_extension.
  - eapply incorporated_accepted; [exact Hver| |unfold group_digest in *; by rewrite <- Hhead].
    eapply incorporated_merge; [apply elem_of_app; right; by left|exact Hmerge|exact Hdec|].
    rewrite <- (app_nil_r (vg_chain source)) at 1. apply incorporated_extension.
Qed.

(** ** Groups as bytes *)

(** A verified group is read back, for the controller it was verified for, as it was written:
    with the digests and enrollments it had. *)
Theorem encoded_group_decodes chain controller g b :
  group_verify chain controller = Ok g → group_wf g → group_encode g = Ok b →
  group_decode b controller = Ok g.
Proof.
  intros Hv Hwf He. destruct (verified_group_read_back _ _ _ Hv Hwf) as (b' & He' & Hd).
  rewrite He in He'. by injection He' as <-.
Qed.
End Members.
