(* ===== verification/SyncPairing.v ===== *)
(** Pairing of devices (src/src/personal/sync/pairing.rs): invitations as tickets, and the
    requests that answer them: bound to the invitation by its secret, signed by the reader
    that asks, and with the consent of a group that is to be merged. *)
From Stdlib Require Import ZArith Lia Bool.
From stdpp Require Import base gmap strings list.
From S2P Require Import Prelude Text Chars Core Address Signature Envelope SyncIdentity.
From S2P Require Import SyncGroup SyncMembers.

Definition PAIRING_DOMAIN : bytes := as_bytes "factorseal/sync/pairing/v1" ++ [Byte.x00].
Definition TICKET_PREFIX : string := "factorseal-sync:1:".

(** ** Invitations *)

Record PairingInvitation : Set := {
  pi_endpoint : bytes;
  pi_controller : MemberId;
  pi_group : bytes;
  pi_expires : Z;
  pi_secret : bytes
}.
#[export] Instance pairing_invitation_eq_dec : EqDecision PairingInvitation.
Proof. solve_decision. Defined.

(** A group with the controller it is to be verified for, as it is kept. *)
Record PinnedGroup : Set := { pg_controller : MemberId; pg_bytes : bytes }.

Record RequestBody : Set := {
  rb_invitation : bytes;
  rb_endpoint : bytes;
  rb_reader : MemberPublicKeys;
  rb_name : string;
  rb_origin : option PinnedGroup
}.
Record PairingRequest : Set := {
  pr_body : RequestBody;
  pr_proof : bytes;
  pr_signature : bytes;
  pr_consent : option MergeApproval
}.
Definition set_consent (consent : option MergeApproval) (r : PairingRequest) : PairingRequest := {|
  pr_body := pr_body r; pr_proof := pr_proof r; pr_signature := pr_signature r;
  pr_consent := consent |}.
Definition needs_merge_approval (r : PairingRequest) : bool :=
  bool_decide (is_Some (rb_origin (pr_body r))) && negb (bool_decide (is_Some (pr_consent r))).

Section Pairing.
Context `{Sha256, HmacSha256, MlDsa65, Hpke, Base64} `{Serde (list MemberPublicKeys)}.
Context `{Serde (Body MembershipWire)} `{Serde CertificateWire} `{Serde (list CertificateWire)}.
Context `{Serde (MemberId * bytes * bytes * MemberId)}.
Context `{Serde PairingInvitation} `{Serde RequestBody} `{Serde PairingRequest}.

(** [PairingInvitation::for_reader]: the secret is drawn after the endpoint is found. *)
Definition for_reader (g : VerifiedGroup) (reader : MemberId) (now : Z) (secret : VaultResult bytes)
    : VaultResult PairingInvitation :=
  binding ← ok_or invalid_sync
              (find_first (λ b, bool_decide (tb_reader b = Some reader)) (group_transports g));
  secret ← secret;
  digest ← group_digest g;
  expires ← ok_or invalid_sync (u64_checked_add now 300);
  Ok {| pi_endpoint := tb_endpoint binding; pi_controller := group_controller g;
        pi_group := digest; pi_expires := expires; pi_secret := secret |}.

Definition ticket_bytes (i : PairingInvitation) : bytes :=
  pi_endpoint i ++ pi_controller i ++ pi_group i ++ be_bytes 8 (pi_expires i) ++ pi_secret i.
Definition ticket (i : PairingInvitation) : string :=
  TICKET_PREFIX +:+ b64url_encode (ticket_bytes i).

Definition from_ticket (t : string) : VaultResult PairingInvitation :=
  _ ← fail_if (256 <? str_len t) invalid_sync;
  encoded ← ok_or invalid_sync
              (if has_prefix (as_bytes t) (as_bytes TICKET_PREFIX)
               then Some (of_bytes (drop (String.length TICKET_PREFIX) (as_bytes t))) else None);
  b ← ok_or invalid_sync (b64url_decode encoded);
  _ ← fail_if (negb (Z.of_nat (length b) =? 136)) invalid_sync;
  Ok {| pi_endpoint := take 32 b; pi_controller := take 32 (drop 32 b);
        pi_group := take 32 (drop 64 b); pi_expires := from_be_bytes (take 8 (drop 96 b));
        pi_secret := take 32 (drop 104 b) |}.

(** [PairingInvitation::check]. *)
Definition invitation_check (i : PairingInvitation) (g : VerifiedGroup) (now : Z) : VaultResult () :=
  _ ← fail_if ((pi_expires i <=? now) || (300 <? u64_saturating_sub (pi_expires i) now)
        || negb (bool_decide (pi_controller i = group_controller g))) invalid_sync;
  digest ← group_digest g;
  fail_if (negb (bool_decide (pi_group i = digest))
    || negb (existsb (λ b, bool_decide (tb_endpoint b = pi_endpoint i)
                           && bool_decide (is_Some (tb_reader b))) (group_transports g)))
    invalid_sync.

Definition invitation_digest (i : PairingInvitation) : VaultResult bytes :=
  encoded ← sync_encode i; Ok (sha256 encoded).

(** ** Pinned groups *)

Definition pinned_new (g : VerifiedGroup) : VaultResult PinnedGroup :=
  encoded ← group_encode g;
  Ok {| pg_controller := group_controller g; pg_bytes := encoded |}.
Definition pinned_verified (p : PinnedGroup) : VaultResult VerifiedGroup :=
  group_decode (pg_bytes p) (pg_controller p).

(** ** Requests *)

Definition pairing_payload (b : RequestBody) : VaultResult bytes :=
  encoded ← sync_encode b; Ok (PAIRING_DOMAIN ++ encoded).
Definition signed_payload (r : PairingRequest) : VaultResult bytes :=
  payload ← pairing_payload (pr_body r); Ok (payload ++ pr_proof r).

(** [PairingRequest::validate]. *)
Definition pairing_validate (r : PairingRequest) : VaultResult () :=
  let b := pr_body r in
  _ ← fail_if (bool_decide (rb_endpoint b = replicate 32 Byte.x00) || String.eqb (rb_name b) ""
        || (80 <? str_len (rb_name b)) || existsb is_control (str_chars (as_bytes (rb_name b)))
        || (4096 <? Z.of_nat (length (pr_signature r)))) invalid_sync;
  _ ← member_validate (rb_reader b);
  payload ← signed_payload r;
  map_err (λ _, invalid_sync) (verify (mk_signing (rb_reader b)) payload (pr_signature r)).

Definition pairing_decode (b : bytes) : VaultResult PairingRequest :=
  _ ← fail_if (8 * 1024 * 1024 <? Z.of_nat (length b)) invalid_sync;
  request ← sync_decode b;
  _ ← pairing_validate request;
  Ok request.

(** [PairingRequest::id] and [verification_code]: the consent is not part of them. *)
Definition pairing_id (r : PairingRequest) : VaultResult bytes :=
  encoded ← sync_encode (set_consent None r); Ok (sha256 encoded).
Definition hex_upper (b : Byte.byte) : bytes :=
  let digit (n : N) := default Byte.x00 (Byte.of_N (if (n <? 10)%N then 48 + n else 55 + n)%N) in
  [digit (Byte.to_N b / 16)%N; digit (Byte.to_N b mod 16)%N].
Definition verification_code (r : PairingRequest) : VaultResult string :=
  id ← pairing_id r; Ok (of_bytes (take 6 id ≫= hex_upper)).

(** [PairingRequest::origin] and [merge_approval]. *)
Definition origin (r : PairingRequest) : VaultResult (option VerifiedGroup) :=
  opt_try pinned_verified (rb_origin (pr_body r)).
Definition merge_approval (r : PairingRequest) (target : VerifiedGroup)
    : VaultResult (option MergeApproval) :=
  o ← origin r;
  match o with
  | None => Ok None
  | Some o =>
      approval ← ok_or invalid_sync (pr_consent r);
      source ← source_group approval target;
      source_digest ← group_digest source;
      origin_digest ← group_digest o;
      _ ← fail_if (negb (bool_decide (source_digest = origin_digest))) invalid_sync;
      Ok (Some approval)
  end.

(** [PairingRequest::verify]. *)
Definition pairing_verify (r : PairingRequest) (i : PairingInvitation) (g : VerifiedGroup) (now : Z)
    : VaultResult () :=
  _ ← invitation_check i g now;
  digest ← invitation_digest i;
  _ ← fail_if (negb (bool_decide (rb_invitation (pr_body r) = digest))) invalid_sync;
  payload ← pairing_payload (pr_body r);
  _ ← fail_if (negb (bool_decide (hmac_sha256 (pi_secret i) payload = pr_proof r))) invalid_sync;
  pairing_validate r.

(** ** What a reader does *)

Context `{Signers}.

(** The proof and the signature of a body. *)
Definition prove_and_sign (reader : ReaderIdentity) (i : PairingInvitation) (b : RequestBody)
    : VaultResult PairingRequest :=
  payload ← pairing_payload b;
  let proof := hmac_sha256 (pi_secret i) payload in
  signature ← software_sign (ri_signing_seed reader) (payload ++ proof);
  Ok {| pr_body := b; pr_proof := proof; pr_signature := signature; pr_consent := None |}.

Definition request_pairing (reader : ReaderIdentity) (i : PairingInvitation) (g : VerifiedGroup)
    (endpoint : bytes) (name : string) (now : Z) : VaultResult PairingRequest :=
  _ ← invitation_check i g now;
  digest ← invitation_digest i;
  request ← prove_and_sign reader i {| rb_invitation := digest; rb_endpoint := endpoint;
    rb_reader := ri_public reader; rb_name := name; rb_origin := None |};
  _ ← pairing_validate request;
  Ok request.

Definition request_group_pairing (reader : ReaderIdentity) (i : PairingInvitation)
    (target source : VerifiedGroup) (endpoint : bytes) (name : string) (now : Z)
    : VaultResult PairingRequest :=
  _ ← fail_if (negb (existsb (λ b, bool_decide (tb_endpoint b = endpoint)
        && bool_decide (tb_reader b = Some (reader_id reader))) (group_transports source))) invalid_sync;
  request ← request_pairing reader i target endpoint name now;
  pinned ← pinned_new source;
  let b := pr_body request in
  prove_and_sign reader i {| rb_invitation := rb_invitation b; rb_endpoint := rb_endpoint b;
    rb_reader := rb_reader b; rb_name := rb_name b; rb_origin := Some pinned |}.

Definition approve_pairing_merge (reader : ReaderIdentity) (r : PairingRequest)
    (target : VerifiedGroup) : VaultResult PairingRequest :=
  _ ← fail_if (negb (bool_decide (rb_reader (pr_body r) = ri_public reader))) invalid_sync;
  o ← origin r;
  source ← ok_or invalid_sync o;
  consent ← approve_group_merge reader source target;
  Ok (set_consent (Some consent) r).
End Pairing.

(** * Pairing: a ticket gives back its invitation, the request that answers it is accepted by
    the device that showed it until it expires, an accepted request is bound to that
    invitation and signed by the reader that asks, and a consent to merge is one for the
    group the request names. *)

(** Base64 without padding writes six bits in a character. *)
Class Base64SizeOk `{Base64} : Prop :=
  b64url_size b : String.length (b64url_encode b) = ((4 * length b + 2) / 3)%nat.

Section Tickets.
Context `{Base64Ok} `{!Base64SizeOk}.

(** The fields of an invitation at their width. *)
Definition invitation_typed (i : PairingInvitation) : Prop :=
  length (pi_endpoint i) = 32%nat ∧ length (pi_controller i) = 32%nat
  ∧ length (pi_group i) = 32%nat ∧ is_u64 (pi_expires i) ∧ length (pi_secret i) = 32%nat.

Lemma length_ticket_bytes i : invitation_typed i → length (ticket_bytes i) = 136%nat.
Proof.
  intros (He & Hc & Hg & _ & Hs). unfold ticket_bytes. rewrite !length_app, length_be_bytes. lia.
Qed.

Lemma has_prefix_app a b : has_prefix (a ++ b) a = true.
Proof. unfold has_prefix. by rewrite take_app_length, bool_decide_eq_true_2. Qed.

(** A ticket is at most 256 bytes and gives back its invitation. *)
Lemma ticket_round_trip i : invitation_typed i → from_ticket (ticket i) = Ok i.
Proof.
  intros Hi. pose proof (length_ticket_bytes i Hi) as Hlen. destruct Hi as (He & Hc & Hg & Hx & Hs).
  unfold from_ticket. assert (str_len (ticket i) = 200) as ->.
  { unfold str_len, ticket. rewrite <- length_as_bytes, as_bytes_app, length_app, !length_as_bytes.
    by rewrite b64url_size, Hlen. }
  cbn [fail_if mbind result_bind]. unfold ticket.
  rewrite as_bytes_app, has_prefix_app. change (256 <? 200) with false. cbn [fail_if ok_or mbind result_bind].
  rewrite <- length_as_bytes, drop_app_length.
  assert (of_bytes (as_bytes (b64url_encode (ticket_bytes i))) = b64url_encode (ticket_bytes i)) as ->
    by apply String.string_of_list_byte_of_string.
  rewrite b64url_roundtrip. cbn [ok_or mbind result_bind]. rewrite Hlen.
  change (Z.of_nat 136 =? 136) with true. cbn [negb fail_if mbind result_bind].
  destruct i as [e c g x s]. unfold ticket_bytes.
  cbn [pi_endpoint pi_controller pi_group pi_expires pi_secret] in *. rewrite take_app_length' by done. f_equal. f_equal.
  - rewrite drop_app_length' by done. by rewrite take_app_length' by done.
  - rewrite app_assoc, drop_app_length' by (rewrite length_app; lia). by rewrite take_app_length' by done.
  - rewrite (app_assoc e), (app_assoc (e ++ c)), drop_app_length' by (rewrite !length_app; lia).
    rewrite take_app_length' by (by rewrite length_be_bytes). apply from_be_bytes_be.
    unfold is_u64, U64_MAX in Hx. cbn. lia.
  - rewrite (app_assoc e), (app_assoc (e ++ c)), (app_assoc ((e ++ c) ++ g)),
      drop_app_length' by (rewrite !length_app, length_be_bytes; lia).
    by rewrite take_ge by lia.
Qed.
End Tickets.

Section Requests.
Context `{Sha256, HmacSha256, MlDsa65, Hpke, Signers} `{Serde (list MemberPublicKeys)}.
Context `{Serde (Body MembershipWire)} `{SerdeOk CertificateWire} `{SerdeOk (list CertificateWire)}.
Context `{Serde (MemberId * bytes * bytes * MemberId)}.
Context `{SerdeOk PairingInvitation} `{Serde RequestBody} `{Serde PairingRequest}.

Lemma invitation_check_Ok i g now :
  invitation_check i g now = Ok tt ↔
    now < pi_expires i ≤ now + 300 ∧ pi_controller i = group_controller g
    ∧ group_digest g = Ok (pi_group i)
    ∧ existsb (λ b, bool_decide (tb_endpoint b = pi_endpoint i)
                    && bool_decide (is_Some (tb_reader b))) (group_transports g) = true.
Proof.
  unfold invitation_check. rewrite then_Ok, bind_Ok. setoid_rewrite fail_if_Ok.
  unfold u64_saturating_sub. split.
  - intros [Ht (d & Hd & Hc)]. bool_prop. destruct Ht as [[Ht Hmax] Hctl], Hc as [-> Hc].
    split_and!; [lia|lia|done|done|done].
  - intros (Ht & Hc & Hd & He). split.
    + bool_prop. split_and!; [lia|lia|done].
    + exists (pi_group i). split; [done|]. rewrite He. cbn. by rewrite bool_decide_eq_true_2.
Qed.

Lemma prove_and_sign_Ok reader i b r :
  prove_and_sign reader i b = Ok r →
  pr_body r = b ∧ pr_consent r = None
  ∧ ∃ payload, pairing_payload b = Ok payload ∧ pr_proof r = hmac_sha256 (pi_secret i) payload.
Proof.
  unfold prove_and_sign. intros (payload & Hp & Hr)%bind_Ok.
  apply bind_Ok in Hr as (signature & _ & [= <-]). split_and!; [done..|]. by exists payload.
Qed.

(** A device that reads the ticket of an invitation and answers it with a request is accepted
    by the device that showed it, for as long as the invitation is valid, with the keys,
    endpoint and name it asked with. *)
Theorem invited_request_accepted `{Base64Ok} `{!Base64SizeOk} g member shown secret i
    reader endpoint name now r later :
  for_reader g member shown secret = Ok i → invitation_typed i →
  (i' ← from_ticket (ticket i); request_pairing reader i' g endpoint name now) = Ok r →
  shown ≤ now ≤ later → later < shown + 300 →
  pairing_verify r i g later = Ok tt
  ∧ rb_reader (pr_body r) = ri_public reader ∧ rb_endpoint (pr_body r) = endpoint
  ∧ rb_name (pr_body r) = name.
Proof.
  intros Hi Hty Hr Hnow Hlater. rewrite (ticket_round_trip i Hty) in Hr. cbn [mbind result_bind] in Hr.
  unfold request_pairing in Hr. apply then_Ok in Hr as [Hcheck Hr].
  apply bind_Ok in Hr as (digest & Hd & Hr). apply bind_Ok in Hr as (req & Hreq & Hr).
  apply then_Ok in Hr as [Hval [= <-]].
  apply prove_and_sign_Ok in Hreq as (Hb & _ & payload & Hp & Hproof).
  unfold for_reader in Hi. apply bind_Ok in Hi as (b & _ & Hi). apply bind_Ok in Hi as (s & _ & Hi).
  apply bind_Ok in Hi as (gd & _ & Hi). apply bind_Ok in Hi as (e & He%ok_or_Ok & [= <-]).
  apply u64_checked_add_Some in He as [-> _].
  rewrite Hb. split_and!; [|done..]. unfold pairing_verify.
  apply invitation_check_Ok in Hcheck as (_ & Hc & Hg & Ht).
  assert (invitation_check _ g later = Ok tt) as ->
    by (apply invitation_check_Ok; split_and!; [cbn; lia|cbn; lia|exact Hc|exact Hg|exact Ht]).
  cbn [mbind result_bind]. rewrite Hd. cbn [mbind result_bind]. rewrite Hb. cbn [rb_invitation].
  rewrite bool_decide_eq_true_2 by done. cbn [negb fail_if mbind result_bind].
  rewrite Hp. cbn [mbind result_bind]. rewrite Hproof, bool_decide_eq_true_2 by done. exact Hval.
Qed.

(** Two invitations whose encodings SHA-256 confuses. *)
Definition invitations_collide (i i' : PairingInvitation) : Prop :=
  ∃ x y, sync_encode i = Ok x ∧ sync_encode i' = Ok y ∧ sha256_collides x y.

(** A request is accepted only for one invitation, before it expires and while the group is
    still what the invitation was made for, with the proof of its secret and the signature of
    the reader that is to be enrolled. *)
Theorem accepted_request_bound r i g now :
  pairing_verify r i g now = Ok tt →
  now < pi_expires i ≤ now + 300
  ∧ group_digest g = Ok (pi_group i) ∧ pi_controller i = group_controller g
  ∧ (∃ payload, pairing_payload (pr_body r) = Ok payload
      ∧ pr_proof r = hmac_sha256 (pi_secret i) payload
      ∧ signed_by (mk_signing (rb_reader (pr_body r))) (payload ++ pr_proof r) (pr_signature r))
  ∧ member_validate (rb_reader (pr_body r)) = Ok tt
  ∧ ∀ i' g' later, pairing_verify r i' g' later = Ok tt → i = i' ∨ invitations_collide i i'.
Proof.
  assert (∀ i g now, pairing_verify r i g now = Ok tt →
    ∃ x, sync_encode i = Ok x ∧ rb_invitation (pr_body r) = sha256 x) as Hdigest.
  { clear. intros i g now. unfold pairing_verify. intros [_ Hv]%then_Ok.
    apply bind_Ok in Hv as (d & Hd & Hv). apply then_Ok in Hv as [He _].
    apply fail_if_Ok, negb_false_iff, bool_decide_eq_true in He as ->.
    unfold invitation_digest in Hd. apply bind_Ok in Hd as (x & Hx & [= <-]). by exists x. }
  intros Hv. pose proof (Hdigest _ _ _ Hv) as (x & Hx & Hrx).
  unfold pairing_verify in Hv. apply then_Ok in Hv as [(Ht & Hc & Hg & _)%invitation_check_Ok Hv].
  apply bind_Ok in Hv as (d & _ & Hv). apply then_Ok in Hv as [_ Hv].
  apply bind_Ok in Hv as (payload & Hp & Hv). apply then_Ok in Hv as [Hproof Hv].
  apply fail_if_Ok, negb_false_iff, bool_decide_eq_true in Hproof.
  unfold pairing_validate in Hv. apply then_Ok in Hv as [_ Hv]. apply then_Ok in Hv as [Hm Hv].
  apply bind_Ok in Hv as (signed & Hs & Hv). apply map_err_Ok, verify_Ok in Hv.
  unfold signed_payload in Hs. rewrite Hp in Hs. injection Hs as <-.
  split_and!; [lia|lia|done|done| |done|].
  - by exists payload.
  - intros i' g' later Hv'. destruct (Hdigest _ _ _ Hv') as (y & Hy & Hry).
    rewrite Hrx in Hry. destruct (sha256_eq_or_collides _ _ Hry) as [->|Hcol].
    + left. by eapply sync_encode_inj.
    + right. by exists x, y.
Qed.

(** A consent to merge that a request carries is used only for the group the request was
    made from: the approved chain is the one its origin verifies to, the approval is for the
    exact head of the group it is merged in, and a request without an origin merges nothing. *)
Theorem merge_consent_is_of_origin r target a :
  merge_approval r target = Ok a →
  match a with
  | None => rb_origin (pr_body r) = None
  | Some a => pr_consent r = Some a ∧ group_digest target = Ok (ma_target a)
      ∧ ∃ p o source, rb_origin (pr_body r) = Some p
          ∧ group_decode (pg_bytes p) (pg_controller p) = Ok o
          ∧ source_group a target = Ok source
          ∧ (vg_chain source = vg_chain o ∨ chains_collide (vg_chain source) (vg_chain o))
  end.
Proof.
  unfold merge_approval, origin. intros (o & Ho & Hm)%bind_Ok.
  apply opt_try_Ok in Ho as [[Ho ->]|(p & o' & Hp & Ho & ->)]; [by injection Hm as <-|].
  apply bind_Ok in Hm as (approval & Ha%ok_or_Ok & Hm).
  apply bind_Ok in Hm as (source & Hs & Hm). apply bind_Ok in Hm as (ds & Hds & Hm).
  apply bind_Ok in Hm as (d & Hd & Hm). apply then_Ok in Hm as [He [= <-]].
  apply fail_if_Ok, negb_false_iff, bool_decide_eq_true in He as ->.
  split; [done|]. unfold source_group, approval_verify_at, approval_verify in Hs.
  pose proof Hs as Hs'. apply bind_Ok in Hs as (s & Hsrc & Hs). unfold source_at in Hsrc.
  apply then_Ok in Hsrc as [_ Hsrc]. apply bind_Ok in Hsrc as (chain & Hdec & Hver).
  destruct (approval_source approval target 0 source chain) as [Hchain _]; [done..|].
  apply bind_Ok in Hs as (dt & Hdt & Hs). apply then_Ok in Hs as [Ht _].
  apply fail_if_Ok in Ht. bool_prop. destruct Ht as [Ht _]. rewrite Ht. split; [done|].
  exists p, o', source. split_and!; [done..|].
  unfold pinned_verified, group_decode in Ho. apply then_Ok in Ho as [_ Ho].
  apply bind_Ok in Ho as (ochain & Hodec & Hover).
  apply group_verify_chain in Hover as Hoc. rewrite Hchain, Hoc.
  assert (verify_left (S MAX_MERGE_DEPTH) chain (ma_source_controller approval) = Ok s) as Hv1 by exact Hver.
  apply verify_left_authorized in Hver as (Hsc & l1 & g1 & k1 & _ & _ & Ha1).
  apply verify_left_authorized in Hover as (_ & l2 & g2 & k2 & _ & _ & Ha2).
  apply (linked_same _ _ d).
  - eapply authorized_linked; [exact Ha1|]. rewrite <- Hsc. apply chain_nonempty.
  - eapply authorized_linked; [exact Ha2|]. rewrite <- Hoc. apply chain_nonempty.
  - by eapply decode_chain_wf.
  - by eapply decode_chain_wf.
  - exists (vg_current source). rewrite <- Hchain. by rewrite last_chain.
  - exists (vg_current o'). rewrite <- Hoc. by rewrite last_chain.
Qed.
End Requests.
