(* ===== verification/SyncPacket.v ===== *)
(** Encrypted updates (src/src/personal/sync/packet.rs): a packet signed by one member whose
    key is wrapped for every member of the epoch, its verification without any secret, and
    its opening. *)
From Stdlib Require Import ZArith Lia Bool.
From stdpp Require Import base gmap strings list.
From S2P Require Import Prelude Text Chars Core Address Signature Protocol.
From S2P Require Import Envelope Automerge Personal Replica SyncIdentity.

Definition MAX_PACKET_BYTES : Z := 2 * 1024 * 1024.
Definition MAX_UPDATE_BYTES : Z := 1024 * 1024.
Definition SUITE : string := "automerge-mlkem768-hkdfsha256-aes256gcm-mldsa65-v1".
Definition PACKET_DOMAIN : bytes := as_bytes "factorseal/sync/packet/v1" ++ [Byte.x00].
Definition WRAP_DOMAIN : bytes := as_bytes "factorseal/sync/recipient-key/v1" ++ [Byte.x00].

Record PacketContext : Set := {
  px_suite : string;
  px_group : bytes;
  px_epoch : Z;
  px_membership : bytes;
  px_author : MemberId;
  px_operation : bytes;
  px_recipients : list MemberId
}.
Record RecipientKey : Set := {
  rk_recipient : MemberId;
  rk_encapsulated : bytes;
  rk_wrapped : bytes
}.
Record PacketBody : Set := {
  pb_context : PacketContext;
  pb_nonce : bytes;
  pb_ciphertext : bytes;
  pb_keys : list RecipientKey
}.
Record Packet : Set := { pk_body : PacketBody; pk_signature : bytes }.
Record VerifiedPacket : Set := { vp_packet : Packet; vp_bytes : bytes; vp_id : bytes }.

(** The form an update is written in. *)
Definition encoded_update `{Base64Standard} (u : PersonalUpdate) : EncodedUpdate := {|
  eu_item_id := pu_item_id u; eu_changes := b64_encode <$> pu_changes u |}.

Section Packets.
Context `{Sha256, Aes256Gcm, MlDsa65, Hpke, Signers, Base64Standard}.
Context `{Serde EncodedUpdate} `{SerdeChunks EncodedUpdate} `{Serde PersonalSecret}.
Context `{AutomergeChanges}.
Context `{Serde PacketContext} `{Serde PacketBody} `{Serde Packet}.

(** [Body::wrap_context]. *)
Definition wrap_context (context : PacketContext) (nonce ciphertext : bytes) (recipient : MemberId)
    : VaultResult bytes :=
  encoded ← sync_encode context;
  Ok (encoded ++ recipient ++ nonce ++ sha256 ciphertext).

(** [Packet::signed_bytes]. *)
Definition packet_signed_bytes (p : Packet) : VaultResult bytes :=
  encoded ← sync_encode (pk_body p); Ok (PACKET_DOMAIN ++ encoded).

(** The key of one recipient. *)
Definition validate_key (k : RecipientKey * MemberId) : VaultResult () :=
  _ ← fail_if (negb (bool_decide (rk_recipient k.1 = k.2))
        || negb (length (rk_wrapped k.1) =? 48)%nat) invalid_sync;
  _ ← ok_or invalid_sync (kem_encapsulated_from_bytes (rk_encapsulated k.1));
  Ok tt.

(** [Packet::validate]. *)
Definition packet_validate (p : Packet) (m : Membership) : VaultResult () :=
  let body := pk_body p in
  let context := pb_context body in
  let ciphertext := Z.of_nat (length (pb_ciphertext body)) in
  _ ← fail_if (negb (String.eqb (px_suite context) SUITE)
        || negb (bool_decide (px_group context = ms_group m))
        || negb (px_epoch context =? ms_epoch m)
        || negb (bool_decide (px_membership context = ms_digest m))
        || negb (bool_decide (px_recipients context = member_id <$> ms_members m))
        || negb (length (pb_keys body) =? length (px_recipients context))%nat
        || (MAX_MEMBERS <? Z.of_nat (length (pb_keys body)))
        || (ciphertext <? 16) || (MAX_UPDATE_BYTES + 16 <? ciphertext)
        || (8192 <? Z.of_nat (length (pk_signature p)))) invalid_sync;
  _ ← membership_member m (px_author context);
  _ ← try_collect validate_key (zip (pb_keys body) (px_recipients context));
  Ok tt.

(** [VerifiedPacket::verify]. *)
Definition packet_verify (b : bytes) (m : Membership) : VaultResult VerifiedPacket :=
  _ ← fail_if (MAX_PACKET_BYTES <? Z.of_nat (length b)) invalid_sync;
  packet ← sync_decode b;
  _ ← packet_validate packet m;
  encoded ← sync_encode packet;
  _ ← fail_if (negb (bool_decide (encoded = b))) invalid_sync;
  author ← membership_member m (px_author (pb_context (pk_body packet)));
  payload ← packet_signed_bytes packet;
  _ ← verify (mk_signing author) payload (pk_signature packet);
  Ok {| vp_packet := packet; vp_bytes := b; vp_id := sha256 b |}.

(** [VerifiedPacket::open]. *)
Definition packet_open (p : VerifiedPacket) (r : ReaderIdentity) (m : Membership)
    : VaultResult PersonalUpdate :=
  let body := pk_body (vp_packet p) in
  _ ← packet_validate (vp_packet p) m;
  let recipient := reader_id r in
  _ ← membership_member m recipient;
  wrapped ← ok_or invalid_sync
              (find_first (λ k, bool_decide (rk_recipient k = recipient)) (pb_keys body));
  private ← ok_or invalid_sync (kem_private_from_bytes (ri_encryption_seed r));
  encapsulated ← ok_or invalid_sync (kem_encapsulated_from_bytes (rk_encapsulated wrapped));
  wrap ← wrap_context (pb_context body) (pb_nonce body) (pb_ciphertext body) recipient;
  dek ← ok_or VaultError.Crypto
          (hpke_open private encapsulated WRAP_DOMAIN (take 32 (rk_wrapped wrapped)) wrap
             (drop 32 (rk_wrapped wrapped)));
  context ← sync_encode (pb_context body);
  plaintext ← ok_or VaultError.Crypto
                (decrypt EncryptionAlgorithm.Aes256Gcm dek (pb_nonce body) context
                   (pb_ciphertext body));
  _ ← fail_if (MAX_UPDATE_BYTES <? Z.of_nat (length plaintext)) invalid_sync;
  update ← map_err (λ _, invalid_sync) (update_from_slice plaintext);
  _ ← update_validate update;
  Ok update.

(** The loop of [seal_update] over the members; [seed] is the randomness of each sealing. *)
Fixpoint recipient_keys (context : PacketContext) (nonce ciphertext dek : bytes)
    (seed : nat → bytes) (i : nat) (members : list MemberPublicKeys)
    : VaultResult (list RecipientKey) :=
  match members with
  | [] => Ok []
  | member :: members =>
      public ← ok_or invalid_sync (kem_public_from_bytes (mk_encryption member));
      wrap ← wrap_context context nonce ciphertext (member_id member);
      '(encapsulated, wrapped) ← ok_or VaultError.Crypto
                                   (hpke_seal public WRAP_DOMAIN dek wrap (seed i));
      rest ← recipient_keys context nonce ciphertext dek seed (S i) members;
      Ok ({| rk_recipient := member_id member;
             rk_encapsulated := kem_encapsulated_to_bytes encapsulated;
             rk_wrapped := wrapped |} :: rest)
  end.

(** [ReaderIdentity::seal_update]: the draws are arguments, in their order. *)
Definition seal_update (r : ReaderIdentity) (update : PersonalUpdate) (m : Membership)
    (dek operation nonce : VaultResult bytes) (seed : nat → bytes) : VaultResult VerifiedPacket :=
  _ ← update_validate update;
  let author := reader_id r in
  _ ← membership_member m author;
  plaintext ← serialize_locked (encoded_update update) MAX_UPDATE_BYTES;
  dek ← dek;
  operation ← operation;
  let context := {| px_suite := SUITE; px_group := ms_group m; px_epoch := ms_epoch m;
    px_membership := ms_digest m; px_author := author; px_operation := operation;
    px_recipients := member_id <$> ms_members m |} in
  encoded ← sync_encode context;
  encrypted ← map_err (λ _, VaultError.Crypto) (encrypt dek encoded plaintext nonce);
  keys ← recipient_keys context (ep_nonce encrypted) (ep_ciphertext encrypted) dek seed 0
           (ms_members m);
  let body := {| pb_context := context; pb_nonce := ep_nonce encrypted;
    pb_ciphertext := ep_ciphertext encrypted; pb_keys := keys |} in
  payload ← packet_signed_bytes {| pk_body := body; pk_signature := [] |};
  signature ← software_sign (ri_signing_seed r) payload;
  b ← sync_encode {| pk_body := body; pk_signature := signature |};
  packet_verify b m.
End Packets.

(** * Packets: what a member seals, every member of the epoch opens; and a packet is accepted
    only from a member, for exactly the membership it was sealed for. *)

Section Authenticity.
Context `{Sha256, Aes256Gcm, MlDsa65, Hpke, Signers, Base64Standard}.
Context `{Serde EncodedUpdate} `{SerdeChunks EncodedUpdate} `{Serde PersonalSecret}.
Context `{AutomergeChanges} `{SerdeOk (list MemberPublicKeys)}.
Context `{Serde PacketContext} `{Serde PacketBody} `{Serde Packet}.

(** The bytes a membership digest is of. *)
Definition membership_preimage (m : Membership) (encoded : bytes) : bytes :=
  MEMBERSHIP_DOMAIN ++ ms_group m ++ be_bytes 8 (ms_epoch m) ++ encoded.

Lemma membership_digest_of m :
  membership_wf m → ∃ encoded, sync_encode (ms_members m) = Ok encoded
    ∧ ms_digest m = sha256 (membership_preimage m encoded).
Proof.
  unfold membership_wf. intros Hm. pose proof Hm as (_ & _ & Hs & _)%membership_new_Ok.
  unfold membership_new in Hm. apply then_Ok in Hm as [_ Hm]. apply bind_Ok in Hm as (u & _ & Hm).
  apply then_Ok in Hm as [_ Hm]. apply bind_Ok in Hm as (encoded & He & Hm).
  rewrite <- Hs in He. exists encoded. split; [done|]. apply (f_equal (λ r, ms_digest <$> r)) in Hm.
  cbn in Hm. by injection Hm.
Qed.

(** Two memberships of one group and epoch whose digests SHA-256 confuses. *)
Definition memberships_collide (m m' : Membership) : Prop :=
  ∃ x y, sync_encode (ms_members m) = Ok x ∧ sync_encode (ms_members m') = Ok y
    ∧ sha256_collides (membership_preimage m x) (membership_preimage m' y).

Lemma same_membership m m' :
  membership_wf m → membership_wf m' → ms_group m = ms_group m' → ms_epoch m = ms_epoch m' →
  ms_digest m = ms_digest m' → m = m' ∨ memberships_collide m m'.
Proof.
  intros Hm Hm' Hg He Hd. destruct (membership_digest_of m Hm) as (x & Hx & Hdx).
  destruct (membership_digest_of m' Hm') as (y & Hy & Hdy). rewrite Hdx, Hdy in Hd.
  destruct (sha256_eq_or_collides _ _ Hd) as [Heq|Hc]; [|right; by exists x, y].
  left. unfold membership_preimage in Heq. rewrite Hg, He in Heq. simplify_list_eq.
  pose proof (sync_encode_inj _ _ _ Hx Hy) as Hms. apply membership_wire_inj; [done..|].
  unfold membership_wire. by rewrite Hg, He, Hms.
Qed.

(** The tests of a packet against a membership. *)
Lemma packet_validate_Ok p m :
  packet_validate p m = Ok tt →
  let context := pb_context (pk_body p) in
  px_group context = ms_group m ∧ px_epoch context = ms_epoch m
  ∧ px_membership context = ms_digest m
  ∧ px_recipients context = member_id <$> ms_members m
  ∧ rk_recipient <$> pb_keys (pk_body p) = member_id <$> ms_members m
  ∧ (16 ≤ length (pb_ciphertext (pk_body p)))%nat
  ∧ px_author context ∈ member_id <$> ms_members m.
Proof.
  unfold packet_validate. intros [Ht Hv]%then_Ok. cbn zeta.
  apply bind_Ok in Hv as (k & [Hk Hid]%membership_member_Ok & Hv).
  apply bind_Ok in Hv as (us & Hus & _). apply fail_if_Ok in Ht. bool_prop.
  destruct Ht as [[[[[[[[[_ Hg] He] Hm] Hr] Hlen] _] Hc] _] _]. split_and!; [done..| |lia|].
  - rewrite <- Hr. apply try_collect_Ok in Hus. clear -Hus Hlen.
    revert us Hlen Hus. generalize (px_recipients (pb_context (pk_body p))).
    induction (pb_keys (pk_body p)) as [|x l IH]; intros [|id ids] us Hlen Hus; try done.
    cbn in *. apply Forall2_cons_inv_l in Hus as (u & us' & Hx & Hus & ->). f_equal.
    + unfold validate_key in Hx. apply then_Ok in Hx as [Hx _]. apply fail_if_Ok in Hx.
      bool_prop. by destruct Hx.
    + eapply IH; [lia|exact Hus].
  - rewrite <- Hid. by apply list_elem_of_fmap_2.
Qed.

Lemma packet_verify_Ok b m p :
  packet_verify b m = Ok p →
  packet_validate (vp_packet p) m = Ok tt ∧ vp_bytes p = b ∧ vp_id p = sha256 b
  ∧ sync_decode b = Ok (vp_packet p) ∧ sync_encode (vp_packet p) = Ok b
  ∧ ∃ author payload, author ∈ ms_members m
    ∧ px_author (pb_context (pk_body (vp_packet p))) = member_id author
    ∧ packet_signed_bytes (vp_packet p) = Ok payload
    ∧ signed_by (mk_signing author) payload (pk_signature (vp_packet p)).
Proof.
  unfold packet_verify. intros [_ Hv]%then_Ok. apply bind_Ok in Hv as (packet & Hd & Hv).
  apply then_Ok in Hv as [Hval Hv]. apply bind_Ok in Hv as (encoded & He & Hv).
  apply then_Ok in Hv as [Hb Hv]. apply fail_if_Ok, negb_false_iff, bool_decide_eq_true in Hb as ->.
  apply bind_Ok in Hv as (author & [Ha Hid]%membership_member_Ok & Hv).
  apply bind_Ok in Hv as (payload & Hp & Hv). apply then_Ok in Hv as [Hs%verify_Ok [= <-]].
  split_and!; [done..|]. exists author, payload. split_and!; done.
Qed.

(** What two memberships accept was sealed for both. *)
Lemma verified_twice b m p m' p' :
  membership_wf m → membership_wf m' → packet_verify b m = Ok p → packet_verify b m' = Ok p' →
  p = p' ∧ (m = m' ∨ memberships_collide m m').
Proof.
  intros Hm Hm' (Hv & Hb & Hi & Hd & _)%packet_verify_Ok (Hv' & Hb' & Hi' & Hd' & _)%packet_verify_Ok.
  assert (p = p') as <-.
  { destruct p as [pk pb pi], p' as [pk' pb' pi']; cbn in *. congruence. }
  apply packet_validate_Ok in Hv as (Hg & Hep & Hmd & _). apply packet_validate_Ok in Hv' as (Hg' & Hep' & Hmd' & _).
  split; [done|]. apply same_membership; congruence.
Qed.

(** C20: Bytes are accepted as a packet only when a member of the epoch signed them, and for the
    membership they were sealed for and no other: a packet of an earlier epoch, or of other
    members, is refused unless the digests of the two memberships collide. *)
Theorem packet_bound_to_membership b m p m' p' :
  membership_wf m → membership_wf m' →
  packet_verify b m = Ok p → packet_verify b m' = Ok p' →
  p = p' ∧ (m = m' ∨ memberships_collide m m')
  ∧ (∃ author payload, author ∈ ms_members m
      ∧ packet_signed_bytes (vp_packet p) = Ok payload
      ∧ signed_by (mk_signing author) payload (pk_signature (vp_packet p)))
  ∧ rk_recipient <$> pb_keys (pk_body (vp_packet p)) = member_id <$> ms_members m.
Proof.
  intros Hm Hm' Hv Hv'. destruct (verified_twice _ _ _ _ _ Hm Hm' Hv Hv') as [Hp Hmm].
  apply packet_verify_Ok in Hv as (Hval & _ & _ & _ & _ & author & payload & Ha & _ & Hpl & Hs).
  apply packet_validate_Ok in Hval as (_ & _ & _ & _ & Hkeys & _).
  split_and!; [done|done| |done]. by exists author, payload.
Qed.
End Authenticity.

Section Opening.
Context `{Sha256, Aes256GcmOk, MlDsa65, HpkeOk, Signers, Base64StandardOk}.
Context `{SerdeOk EncodedUpdate} `{!SerdeChunks EncodedUpdate} `{!SerdeChunksOk EncodedUpdate}.
Context `{Serde PersonalSecret} `{AutomergeChanges} `{Serde (list MemberPublicKeys)}.
Context `{Serde PacketContext} `{Serde PacketBody} `{SerdeOk Packet}.

(** The key of a member among those made for all. *)
Lemma recipient_keys_find context nonce ciphertext dek seed i members keys id :
  recipient_keys context nonce ciphertext dek seed i members = Ok keys →
  id ∈ member_id <$> members →
  ∃ member public wrap encapsulated wrapped s,
    find_first (λ k, bool_decide (rk_recipient k = id)) keys
      = Some {| rk_recipient := id; rk_encapsulated := kem_encapsulated_to_bytes encapsulated;
                rk_wrapped := wrapped |}
    ∧ member ∈ members ∧ member_id member = id
    ∧ kem_public_from_bytes (mk_encryption member) = Some public
    ∧ wrap_context context nonce ciphertext id = Ok wrap
    ∧ hpke_seal public WRAP_DOMAIN dek wrap s = Some (encapsulated, wrapped).
Proof.
  revert i keys. induction members as [|m members IH]; intros i keys Hk Hid;
    [by apply not_elem_of_nil in Hid|].
  cbn [recipient_keys] in Hk. apply bind_Ok in Hk as (public & Hp%ok_or_Ok & Hk).
  apply bind_Ok in Hk as (wrap & Hw & Hk). apply bind_Ok in Hk as ([e w] & Hs%ok_or_Ok & Hk).
  apply bind_Ok in Hk as (rest & Hrest & [= <-]). cbn [find_first rk_recipient].
  case_bool_decide as Heq.
  - subst id. exists m, public, wrap, e, w, (seed i). split_and!; try done. by left.
  - cbn in Hid. apply elem_of_cons in Hid as [->|Hid]; [done|].
    destruct (IH _ _ Hrest Hid) as (m' & p & wr & e' & w' & s & Hf & Hm & Hrem).
    exists m', p, wr, e', w', s. split; [done|]. split; [by right|done].
Qed.

(** An update is read back from what is written of it. *)
Lemma encoded_update_back (u : PersonalUpdate) b :
  serde_to_vec (encoded_update u) = Ok b → update_from_slice b = Ok u.
Proof.
  intros He%serde_roundtrip. unfold update_from_slice. rewrite He. cbn [mbind result_bind].
  assert (try_collect b64_decode (eu_changes (encoded_update u)) = Ok (pu_changes u)) as ->.
  { cbn [encoded_update eu_changes]. induction (pu_changes u) as [|c l IH]; [done|]. cbn.
    rewrite b64_roundtrip. cbn. by rewrite IH. }
  by destruct u.
Qed.

(** Sealing an update and opening it. *)
Lemma sealed_opens r u m dek operation nonce seed p es ss reader :
  seal_update r u m (Ok dek) operation nonce seed = Ok p → length dek = 32%nat →
  membership_wf m → from_seeds es ss = Ok reader → ri_public reader ∈ ms_members m →
  packet_open p reader m = Ok u.
Proof.
  intros Hs Hdek Hm Hr Hin. unfold seal_update in Hs. apply then_Ok in Hs as [Hu Hs].
  apply bind_Ok in Hs as (_ & _ & Hs).
  apply bind_Ok in Hs as (plaintext & Hplain & Hs). apply bind_Ok in Hs as (k & [= <-] & Hs).
  apply bind_Ok in Hs as (op & _ & Hs). apply bind_Ok in Hs as (encoded & Henc & Hs).
  apply bind_Ok in Hs as (encrypted & Hgcm%map_err_Ok & Hs). apply bind_Ok in Hs as (keys & Hkeys & Hs).
  apply bind_Ok in Hs as (payload & _ & Hs). apply bind_Ok in Hs as (signature & _ & Hs).
  apply bind_Ok in Hs as (b & Hb & Hv).
  apply packet_verify_Ok in Hv as (Hval & _ & _ & Hd & _).
  rewrite (sync_encode_decode _ _ Hb) in Hd. injection Hd as Hd.
  unfold encrypt in Hgcm. apply bind_Ok in Hgcm as (n & _ & Hgcm).
  apply bind_Ok in Hgcm as (c & Hc%ok_or_Ok & [= <-]).
  unfold from_seeds in Hr. apply bind_Ok in Hr as (private & Hpriv%ok_or_Ok & [= <-]).
  set (public := {| mk_encryption := _; mk_signing := _ |}) in *. cbn in Hin.
  pose proof (list_elem_of_fmap_2 member_id _ _ Hin) as Hid.
  destruct (recipient_keys_find _ _ _ _ _ _ _ _ _ Hkeys Hid)
    as (member & pub & wrap & e & w & s & Hfind & Hmem & Hmid & Hpub & Hwrap & Hseal).
  assert (member = public) as ->.
  { apply (membership_member_is m) in Hmem, Hin; [|done..]. rewrite Hmid, Hin in Hmem. congruence. }
  cbn [public mk_encryption] in Hpub. rewrite kem_public_round_trip in Hpub. injection Hpub as <-.
  apply hpke_round_trip in Hseal as [Hlen Hopen]. rewrite Hdek in Hlen, Hopen.
  unfold packet_open. rewrite Hval. cbn [mbind result_bind]. unfold reader_id. cbn [ri_public].
  fold public. rewrite (membership_member_is m public Hm Hin). cbn [mbind result_bind].
  rewrite <- Hd. cbn [pk_body pb_keys pb_context pb_nonce pb_ciphertext]. cbn [ep_nonce ep_ciphertext] in *.
  rewrite Hfind. cbn [ok_or mbind result_bind ri_encryption_seed rk_encapsulated rk_wrapped].
  rewrite Hpriv. cbn [ok_or mbind result_bind]. rewrite kem_encapsulated_round_trip.
  cbn [ok_or mbind result_bind]. rewrite Hwrap. cbn [mbind result_bind]. rewrite Hopen.
  cbn [ok_or mbind result_bind]. rewrite Henc. cbn [mbind result_bind decrypt].
  rewrite (gcm_round_trip _ _ _ _ _ Hc). cbn [ok_or mbind result_bind].
  apply serialize_locked_Ok in Hplain as [Hser Hmax]; [|done].
  apply Z.ltb_ge in Hmax as ->. cbn [fail_if mbind result_bind].
  rewrite (encoded_update_back u plaintext Hser). cbn [map_err mbind result_bind]. by rewrite Hu.
Qed.

(** C30: What a member seals, every member of the epoch opens, and gets the update that was
    sealed. *)
Theorem sealed_update_opens r u m dek operation nonce seed p es ss reader :
  seal_update r u m (Ok dek) operation nonce seed = Ok p → length dek = 32%nat →
  membership_wf m → from_seeds es ss = Ok reader → ri_public reader ∈ ms_members m →
  packet_open p reader m = Ok u.
Proof. apply sealed_opens. Qed.
End Opening.
