(* ===== verification/SyncState.v ===== *)
(** What a vault keeps of its group of devices, and the pairing commands that change it
    (src/src/vault/store/worker/sync/pairing.rs, the state of src/src/vault/document/sync.rs
    and the reader keys of src/src/vault/keys.rs). *)
From Stdlib Require Import ZArith Lia Bool.
From stdpp Require Import base gmap strings list relations.
From S2P Require Import Prelude Text Chars Core Address Signature Envelope.
From S2P Require Import SyncIdentity SyncGroup SyncMembers SyncPairing.

(** ** The keys of the reader, wrapped under the installation root *)

Record WrappedReaderIdentity : Set := {
  wd_kem_left : WrappedKey;
  wd_kem_right : WrappedKey;
  wd_signing : WrappedKey
}.

Section Keys.
Context `{Aes256Gcm, Hpke, Signers}.

(** [InstallationSecrets::protect_reader]: the nonces are drawn in this order. *)
Definition protect_reader (s : InstallationSecrets) (installation vault : bytes)
    (r : ReaderIdentity) (left_nonce right_nonce signing_nonce : VaultResult bytes)
    : VaultResult WrappedReaderIdentity :=
  left ← wrap_key (is_root_key s)
           (installation_key_aad installation vault (as_bytes "personal-sync-kem-left-v1"))
           (take 32 (ri_encryption_seed r)) left_nonce;
  right ← wrap_key (is_root_key s)
            (installation_key_aad installation vault (as_bytes "personal-sync-kem-right-v1"))
            (drop 32 (ri_encryption_seed r)) right_nonce;
  signing ← wrap_key (is_root_key s)
              (installation_key_aad installation vault (as_bytes "personal-sync-signing-v1"))
              (ri_signing_seed r) signing_nonce;
  Ok {| wd_kem_left := left; wd_kem_right := right; wd_signing := signing |}.

(** [InstallationSecrets::open_reader]. *)
Definition open_reader (s : InstallationSecrets) (installation vault : bytes)
    (w : WrappedReaderIdentity) : VaultResult ReaderIdentity :=
  left ← unwrap_key (is_root_key s)
           (installation_key_aad installation vault (as_bytes "personal-sync-kem-left-v1"))
           (wd_kem_left w) "reader seed";
  right ← unwrap_key (is_root_key s)
            (installation_key_aad installation vault (as_bytes "personal-sync-kem-right-v1"))
            (wd_kem_right w) "reader seed";
  signing ← unwrap_key (is_root_key s)
              (installation_key_aad installation vault (as_bytes "personal-sync-signing-v1"))
              (wd_signing w) "reader seed";
  from_seeds (left ++ right) signing.
End Keys.

(** ** State *)

Record PairingState : Set := {
  ps_introduction : option PinnedGroup;
  ps_group : option PinnedGroup;
  ps_invitation : option PairingInvitation;
  ps_staged : option PairingRequest;
  ps_joining : option (PairingInvitation * PairingRequest * PinnedGroup);
  ps_approved : option bytes
}.
Definition pairing_default : PairingState := {|
  ps_introduction := None; ps_group := None; ps_invitation := None; ps_staged := None;
  ps_joining := None; ps_approved := None |}.

(** A packet that waits to be stored, and a packet that was received. *)
Record PreparedPublication : Set := {
  pp_item_id : string;
  pp_heads : list bytes;
  pp_packet : bytes
}.
Record ReceivedPacket : Set := {
  rx_packet : bytes;
  rx_item_id : string;
  rx_heads : list bytes
}.
Record PersonalSyncState : Set := {
  ys_reader : option WrappedReaderIdentity;
  ys_pairing : PairingState;
  ys_membership : option Membership;
  ys_prepared : option PreparedPublication;
  ys_receipts : list ReceivedPacket
}.
Definition sync_state_default : PersonalSyncState := {|
  ys_reader := None; ys_pairing := pairing_default; ys_membership := None; ys_prepared := None;
  ys_receipts := [] |}.

Definition set_pairing (p : PairingState) (s : PersonalSyncState) : PersonalSyncState := {|
  ys_reader := ys_reader s; ys_pairing := p; ys_membership := ys_membership s;
  ys_prepared := ys_prepared s; ys_receipts := ys_receipts s |}.
Definition set_introduction (x : option PinnedGroup) (p : PairingState) : PairingState := {|
  ps_introduction := x; ps_group := ps_group p; ps_invitation := ps_invitation p;
  ps_staged := ps_staged p; ps_joining := ps_joining p; ps_approved := ps_approved p |}.
Definition set_invitation (x : option PairingInvitation) (p : PairingState) : PairingState := {|
  ps_introduction := ps_introduction p; ps_group := ps_group p; ps_invitation := x;
  ps_staged := ps_staged p; ps_joining := ps_joining p; ps_approved := ps_approved p |}.
Definition set_staged (x : option PairingRequest) (p : PairingState) : PairingState := {|
  ps_introduction := ps_introduction p; ps_group := ps_group p; ps_invitation := ps_invitation p;
  ps_staged := x; ps_joining := ps_joining p; ps_approved := ps_approved p |}.
Definition set_joining (x : option (PairingInvitation * PairingRequest * PinnedGroup))
    (p : PairingState) : PairingState := {|
  ps_introduction := ps_introduction p; ps_group := ps_group p; ps_invitation := ps_invitation p;
  ps_staged := ps_staged p; ps_joining := x; ps_approved := ps_approved p |}.
Definition set_approved (x : option bytes) (p : PairingState) : PairingState := {|
  ps_introduction := ps_introduction p; ps_group := ps_group p; ps_invitation := ps_invitation p;
  ps_staged := ps_staged p; ps_joining := ps_joining p; ps_approved := x |}.
Definition with_pairing (f : PairingState → PairingState) (s : PersonalSyncState)
    : PersonalSyncState := set_pairing (f (ys_pairing s)) s.

(** [not_configured]. *)
Definition not_configured : VaultError.error :=
  VaultError.Protocol "personal sync reader or membership is not configured".

(** ** Commands *)

Module PairingCommand.
Inductive command : Type :=
| Offer (endpoint : bytes) (name : string)
| Initialize (endpoint : bytes) (name : string)
| Invite
| Join (invitation : PairingInvitation) (group : VerifiedGroup) (endpoint : bytes) (name : string)
| Stage (request : PairingRequest)
| Approve (expected : bytes)
| ApproveJoin (expected : bytes)
| Accept (group : VerifiedGroup)
| Cancel.
End PairingCommand.

(** The answers pairing gives. *)
Module PairingReply.
Inductive reply : Type :=
| Group (group : VerifiedGroup)
| Invitation (invitation : PairingInvitation)
| Request (request : PairingRequest)
| Done.
End PairingReply.

(** The draws of one command: the identifier of a new group and the secret of an invitation. *)
Record PairingDraws : Set := { pd_group : VaultResult bytes; pd_secret : VaultResult bytes }.

Section Commands.
Context `{Sha256, HmacSha256, MlDsa65, Hpke, Base64, Signers} `{Serde (list MemberPublicKeys)}.
Context `{Serde (Body MembershipWire)} `{Serde CertificateWire} `{Serde (list CertificateWire)}.
Context `{Serde (MemberId * bytes * bytes * MemberId)}.
Context `{Serde PairingInvitation} `{Serde RequestBody} `{Serde PairingRequest}.

(** [install]. *)
Definition install (g : VerifiedGroup) (s : PersonalSyncState) : VaultResult PersonalSyncState :=
  pinned ← pinned_new g;
  Ok {| ys_reader := ys_reader s;
        ys_pairing := {|
          ps_introduction := None; ps_group := Some pinned;
          ps_invitation := ps_invitation (ys_pairing s); ps_staged := ps_staged (ys_pairing s);
          ps_joining := ps_joining (ys_pairing s); ps_approved := ps_approved (ys_pairing s) |};
        ys_membership := Some (group_membership g);
        ys_prepared := ys_prepared s; ys_receipts := ys_receipts s |}.

(** The pinned group, or the introduction; verified again whenever it is used. *)
Definition current_pinned (s : PersonalSyncState) : option PinnedGroup :=
  match ps_group (ys_pairing s) with
  | Some p => Some p
  | None => ps_introduction (ys_pairing s)
  end.
Definition is_member (r : ReaderIdentity) (g : VerifiedGroup) : bool :=
  bool_decide (ri_public r ∈ ms_members (group_membership g)).

Context (identity : ReaderIdentity) (now : Z) (draws : PairingDraws).

Definition handle_offer (s : PersonalSyncState) (current : option VerifiedGroup)
    (endpoint : bytes) (name : string) : VaultResult (PairingReply.reply * PersonalSyncState) :=
  '(group, s) ← match current with
                | Some group => Ok (group, s)
                | None =>
                    group ← create_group identity (pd_group draws) endpoint name;
                    pinned ← pinned_new group;
                    Ok (group, with_pairing (set_introduction (Some pinned)) s)
                end;
  invitation ← for_reader group (reader_id identity) now (pd_secret draws);
  Ok (PairingReply.Invitation invitation,
      with_pairing (set_staged None ∘ set_invitation (Some invitation)) s).

Definition handle_initialize (s : PersonalSyncState) (endpoint : bytes) (name : string)
    : VaultResult (PairingReply.reply * PersonalSyncState) :=
  _ ← fail_if (bool_decide (is_Some (ys_membership s))
        || bool_decide (is_Some (ps_joining (ys_pairing s)))) not_configured;
  group ← create_group identity (pd_group draws) endpoint name;
  s ← install group s;
  Ok (PairingReply.Group group, s).

Definition handle_invite (s : PersonalSyncState) (current : option VerifiedGroup)
    : VaultResult (PairingReply.reply * PersonalSyncState) :=
  group ← ok_or not_configured current;
  _ ← fail_if (negb (is_member identity group)) not_configured;
  match find_first (λ i, is_ok (invitation_check i group now))
          (option_list (ps_invitation (ys_pairing s))) with
  | Some invitation => Ok (PairingReply.Invitation invitation, s)
  | None =>
      invitation ← for_reader group (reader_id identity) now (pd_secret draws);
      Ok (PairingReply.Invitation invitation,
          with_pairing (set_staged None ∘ set_invitation (Some invitation)) s)
  end.

Definition handle_join (s : PersonalSyncState) (current : option VerifiedGroup)
    (invitation : PairingInvitation) (group : VerifiedGroup) (endpoint : bytes) (name : string)
    : VaultResult (PairingReply.reply * PersonalSyncState) :=
  match ps_joining (ys_pairing s) with
  | Some (old, request, pinned) =>
      _ ← fail_if (negb (String.eqb (ticket old) (ticket invitation))
            || negb (bool_decide (rb_endpoint (pr_body request) = endpoint))
            || negb (String.eqb (rb_name (pr_body request)) name)) not_configured;
      verified ← pinned_verified pinned;
      verified_digest ← group_digest verified;
      digest ← group_digest group;
      _ ← fail_if (negb (bool_decide (verified_digest = digest))) not_configured;
      _ ← invitation_check invitation group now;
      Ok (PairingReply.Request request, s)
  | None =>
      request ←
        match current with
        | Some source =>
            _ ← fail_if (is_ok (accept_extension source group) || is_ok (accept_extension group source))
                  (VaultError.Protocol "These devices are already connected");
            request_group_pairing identity invitation group source endpoint name now
        | None => request_pairing identity invitation group endpoint name now
        end;
      pinned ← pinned_new group;
      Ok (PairingReply.Request request,
          with_pairing (set_joining (Some (invitation, request, pinned)) ∘ set_staged None
                        ∘ set_invitation None) s)
  end.

Definition handle_stage (s : PersonalSyncState) (current : option VerifiedGroup)
    (request : PairingRequest) : VaultResult (PairingReply.reply * PersonalSyncState) :=
  group ← ok_or not_configured current;
  invitation ← ok_or not_configured (ps_invitation (ys_pairing s));
  _ ← pairing_verify request invitation group now;
  _ ← fail_if (negb (is_member identity group)
        || permits (rb_endpoint (pr_body request)) group
        || bool_decide (rb_reader (pr_body request) ∈ ms_members (group_membership group)))
        not_configured;
  _ ← match ps_staged (ys_pairing s) with
      | Some staged =>
          old ← pairing_id staged;
          new ← pairing_id request;
          fail_if (negb (bool_decide (old = new))) not_configured
      | None => Ok tt
      end;
  Ok (PairingReply.Request request, with_pairing (set_staged (Some request)) s).

(** The binding of the reader a request enrolls. *)
Definition request_binding (request : PairingRequest) : TransportBinding := {|
  tb_endpoint := rb_endpoint (pr_body request);
  tb_reader := Some (member_id (rb_reader (pr_body request)));
  tb_name := rb_name (pr_body request) |}.

Definition handle_approve (s : PersonalSyncState) (current : option VerifiedGroup)
    (expected : bytes) : VaultResult (PairingReply.reply * PersonalSyncState) :=
  group ← ok_or not_configured current;
  if bool_decide (ps_approved (ys_pairing s) = Some expected) then Ok (PairingReply.Group group, s)
  else
    request ← ok_or not_configured (ps_staged (ys_pairing s));
    id ← pairing_id request;
    _ ← fail_if (negb (bool_decide (id = expected))) not_configured;
    invitation ← ok_or not_configured (ps_invitation (ys_pairing s));
    _ ← pairing_verify request invitation group now;
    approval ← merge_approval request group;
    next ← match approval with
           | Some approval => merge_group identity group approval expected
           | None =>
               advance_group identity group
                 (ms_members (group_membership group) ++ [rb_reader (pr_body request)])
                 (group_transports group ++ [request_binding request]) (Some expected)
           end;
    s ← install next s;
    Ok (PairingReply.Group next,
        with_pairing (set_approved (Some expected) ∘ set_staged None ∘ set_invitation None) s).

Definition handle_approve_join (s : PersonalSyncState) (current : option VerifiedGroup)
    (expected : bytes) : VaultResult (PairingReply.reply * PersonalSyncState) :=
  '(invitation, request, pinned) ← ok_or not_configured (ps_joining (ys_pairing s));
  target ← pinned_verified pinned;
  _ ← invitation_check invitation target now;
  id ← pairing_id request;
  _ ← fail_if (negb (bool_decide (id = expected))) not_configured;
  source ← ok_or not_configured current;
  o ← origin request;
  o ← ok_or not_configured o;
  origin_digest ← group_digest o;
  source_digest ← group_digest source;
  _ ← fail_if (negb (bool_decide (origin_digest = source_digest))) not_configured;
  request ← approve_pairing_merge identity request target;
  Ok (PairingReply.Request request,
      with_pairing (set_joining (Some (invitation, request, pinned))) s).

Definition handle_accept (s : PersonalSyncState) (current : option VerifiedGroup)
    (group : VerifiedGroup) : VaultResult (PairingReply.reply * PersonalSyncState) :=
  unchanged ←
    match current with
    | Some current =>
        _ ← accept_extension current group;
        current_digest ← group_digest current;
        digest ← group_digest group;
        Ok (bool_decide (current_digest = digest))
    | None =>
        '(_, request, pinned) ← ok_or not_configured (ps_joining (ys_pairing s));
        target ← pinned_verified pinned;
        _ ← accept_extension target group;
        id ← pairing_id request;
        _ ← fail_if (negb (contains_enrollment id group)
              || negb (existsb (λ b, bool_decide (tb_endpoint b = rb_endpoint (pr_body request))
                                     && bool_decide (tb_reader b = Some (reader_id identity)))
                         (group_transports group))) not_configured;
        Ok false
    end;
  if (unchanged : bool) then Ok (PairingReply.Group group, s)
  else
    _ ← fail_if (negb (is_member identity group)) not_configured;
    s ← install group s;
    Ok (PairingReply.Group group,
        with_pairing (set_staged None ∘ set_invitation None ∘ set_joining None) s).

(** [pairing::handle]: the state is written back only when the command succeeds. *)
Definition pairing_handle (s : PersonalSyncState) (c : PairingCommand.command)
    : VaultResult (PairingReply.reply * PersonalSyncState) :=
  current ← opt_try pinned_verified (current_pinned s);
  match c with
  | PairingCommand.Offer endpoint name => handle_offer s current endpoint name
  | PairingCommand.Initialize endpoint name => handle_initialize s endpoint name
  | PairingCommand.Invite => handle_invite s current
  | PairingCommand.Join invitation group endpoint name =>
      handle_join s current invitation group endpoint name
  | PairingCommand.Stage request => handle_stage s current request
  | PairingCommand.Approve expected => handle_approve s current expected
  | PairingCommand.ApproveJoin expected => handle_approve_join s current expected
  | PairingCommand.Accept group => handle_accept s current group
  | PairingCommand.Cancel =>
      Ok (PairingReply.Done,
          with_pairing (set_introduction None ∘ set_joining None ∘ set_staged None
                        ∘ set_invitation None) s)
  end.
End Commands.

(** * The pairing state of a vault: its pinned group is always verified and has this device as a
    member, it never goes back, devices are enrolled by approval only, and a device that was
    approved accepts the group it was approved in. *)

Section Made.
Context `{Sha256, MlDsa65, Hpke, Signers} `{Serde (list MemberPublicKeys)}.
Context `{Serde (Body MembershipWire)} `{SerdeOk CertificateWire} `{SerdeOk (list CertificateWire)}.
Context `{Serde (MemberId * bytes * bytes * MemberId)}.

(** ** Groups that were verified *)

(** A value of the type [VerifiedGroup]: only verification makes one. *)
Definition group_made (g : VerifiedGroup) : Prop :=
  group_verify (vg_chain g) (group_controller g) = Ok g ∧ group_wf g.

Lemma verified_controller chain trusted g :
  group_verify chain trusted = Ok g → group_controller g = trusted.
Proof.
  intros (Hc & less & group & controller & _ & _ & Ha)%verify_left_authorized. rewrite <- Hc in Ha.
  inversion Ha as [Hnil|older c _ Hok Heq]; [by destruct (chain_nonempty g)|].
  apply app_inj_tail in Heq as [_ ->]. apply Hok.
Qed.

Lemma verified_made chain trusted g :
  group_verify chain trusted = Ok g → group_wf g → group_made g.
Proof.
  intros Hv Hwf. pose proof (verified_controller _ _ _ Hv) as Hc.
  pose proof (group_verify_chain _ _ _ Hv) as Hch. split; [by rewrite Hc, Hch|done].
Qed.

Lemma decoded_made b trusted g : group_decode b trusted = Ok g → group_made g.
Proof.
  intros Hd. pose proof (decoded_group_wf _ _ _ Hd) as Hwf. unfold group_decode in Hd.
  apply then_Ok in Hd as [_ Hd]. apply bind_Ok in Hd as (chain & _ & Hv). by eapply verified_made.
Qed.

Lemma created_made r group endpoint name g :
  create_group r group endpoint name = Ok g → group_made g ∧ is_member r g = true.
Proof.
  intros Hg. split.
  - eapply verified_made; [by eapply created_group_verified|by eapply created_group_wf].
  - unfold create_group in Hg. apply bind_Ok in Hg as (id & _ & Hg).
    apply bind_Ok in Hg as (m & (_ & _ & Hm & Hwf)%membership_new_Ok & Hg).
    apply bind_Ok in Hg as (c & [Hc _]%sign_group_Ok & Hg).
    apply (extended_group g [] c) in Hg as (_ & Hcur & _); [|constructor|by rewrite Hc].
    unfold is_member, group_membership, vg_body. rewrite Hcur, Hc. cbn. rewrite Hm.
    apply bool_decide_eq_true. rewrite (sort_by_perm id_key). by left.
Qed.

(** What the last certificate enrolled is among the enrollments. *)
Lemma enrollment_contained chain trusted g e :
  group_verify chain trusted = Ok g → group_enrollment g = Some e → contains_enrollment e g = true.
Proof.
  intros (less & controller & group & d & _ & Hf & _)%verify_left_Ok He.
  apply bool_decide_eq_true.
  eapply (try_fold_invariant _ (λ _ verified, match verified with
    | Some (g, _) => ∀ e, group_enrollment g = Some e → e ∈ vg_enrollments g
    | None => True
    end) []) in Hf; [by apply Hf| |done].
  clear. intros l verified c r _ (digest & ancestors & enrollments & -> & _)%verify_certificate_Ok e.
  unfold group_enrollment, vg_body. cbn. intros ->. set_solver.
Qed.

(** ** Extensions by this device *)

(** The next group of a member: what it extends accepts it, and it has its members and the
    enrollment that was named. *)
Definition extends_with (g next : VerifiedGroup) (enrollment : bytes) (added : list MemberPublicKeys)
    : Prop :=
  group_made next ∧ accept_extension g next = Ok tt
  ∧ contains_enrollment enrollment next = true
  ∧ ms_members (group_membership next) ≡ₚ ms_members (group_membership g) ++ added.

Lemma advanced_extends r g added transports e next :
  group_made g →
  advance_group r g (ms_members (group_membership g) ++ added) transports (Some e) = Ok next →
  extends_with g next e added ∧ group_transports next ≡ₚ transports.
Proof.
  intros [Hv Hwf] Hn. pose proof (advanced_group_verified _ _ _ _ _ _ Hn) as Hnv.
  pose proof (advanced_group_accepted _ _ _ _ _ _ Hwf Hn)
    as (_ & Hnwf & _ & _ & _ & _ & Hms & Hts & _ & He & Hacc).
  split; [|done]. split_and!; [by eapply verified_made|done| |done].
  by eapply enrollment_contained.
Qed.

Lemma merged_extends r g a e next :
  group_made g → merge_group r g a e = Ok next →
  ∃ source, approval_verify_at a g 1 = Ok source
    ∧ extends_with g next e (ms_members (group_membership source)).
Proof.
  intros [Hv Hwf] Hm. pose proof Hm as (source & members & transports & c & _ & Hs & Hu & Hver & Hchain
    & Hcur & Hnwf & _ & He & Htr & Hms & _)%merge_group_Ok; [|done].
  exists source. split; [done|]. apply merge_union_Ok in Hu as (_ & Hmem & _).
  destruct (verified_digest _ _ _ _ Hv) as [d Hd]. split_and!.
  - by eapply verified_made.
  - eapply incorporated_accepted; [exact Hver|apply incorporated_extension|exact Hd].
  - eapply enrollment_contained; [exact Hver|]. unfold group_enrollment, vg_body. by rewrite Hcur.
  - unfold group_membership at 1, vg_body. by rewrite Hcur, Hms, Hmem.
Qed.
End Made.

(** ** The state of pairing *)

Section State.
Context `{Sha256, HmacSha256, MlDsa65, Hpke, Base64, Signers} `{Serde (list MemberPublicKeys)}.
Context `{Serde (Body MembershipWire)} `{SerdeOk CertificateWire} `{SerdeOk (list CertificateWire)}.
Context `{Serde (MemberId * bytes * bytes * MemberId)}.
Context `{SerdeOk PairingInvitation} `{Serde RequestBody} `{Serde PairingRequest}.

Lemma pinned_new_verified g p : group_made g → pinned_new g = Ok p → pinned_verified p = Ok g.
Proof.
  intros [Hv Hwf]. unfold pinned_new. intros (b & Hb & [= <-])%bind_Ok. unfold pinned_verified. cbn.
  unfold group_decode. unfold group_encode in Hb.
  rewrite (encode_decode_chain _ _ Hwf Hb).
  pose proof Hv as (_ & _ & _ & _ & _ & _ & _ & x & Hx & Hlen)%verify_left_Ok.
  rewrite Hb in Hx. injection Hx as <-. apply Z.ltb_ge in Hlen as ->. exact Hv.
Qed.

Lemma pinned_verified_made p g : pinned_verified p = Ok g → group_made g.
Proof. apply decoded_made. Qed.

(** The group a state has pinned, if it is one. *)
Definition group_of (s : PersonalSyncState) (g : VerifiedGroup) : Prop :=
  ∃ p, ps_group (ys_pairing s) = Some p ∧ pinned_verified p = Ok g.

(** A pinned group is verified, has this device as a member, is the membership that is used,
    and leaves no introduction; an introduction is verified and has this device. *)
Definition sync_ok (identity : ReaderIdentity) (s : PersonalSyncState) : Prop :=
  (∀ p, ps_group (ys_pairing s) = Some p →
    ps_introduction (ys_pairing s) = None
    ∧ ∃ g, pinned_verified p = Ok g ∧ is_member identity g = true
        ∧ ys_membership s = Some (group_membership g))
  ∧ ∀ p, ps_introduction (ys_pairing s) = Some p →
    ∃ g, pinned_verified p = Ok g ∧ is_member identity g = true.

(** Groups in commands are values of their type. *)
Definition command_made (c : PairingCommand.command) : Prop :=
  match c with
  | PairingCommand.Join _ g _ _ | PairingCommand.Accept g => group_made g
  | _ => True
  end.

Lemma install_Ok g s s' :
  install g s = Ok s' →
  ∃ p, pinned_new g = Ok p ∧ ps_group (ys_pairing s') = Some p
    ∧ ps_introduction (ys_pairing s') = None ∧ ys_membership s' = Some (group_membership g)
    ∧ ps_approved (ys_pairing s') = ps_approved (ys_pairing s).
Proof.
  unfold install. intros (p & Hp & [= <-])%bind_Ok. by exists p.
Qed.

Lemma installed identity g s s' :
  group_made g → is_member identity g = true → install g s = Ok s' →
  sync_ok identity s' ∧ group_of s' g.
Proof.
  intros Hg Hin (p & Hp & Hgroup & Hintro & Hm & _)%install_Ok.
  pose proof (pinned_new_verified _ _ Hg Hp) as Hv. split; [|by exists p]. split.
  - intros q Hq. rewrite Hgroup in Hq. injection Hq as <-. split; [done|]. by exists g.
  - intros q Hq. congruence.
Qed.

(** States that agree on what is pinned and on the membership. *)
Lemma sync_ok_same identity s s' :
  ps_group (ys_pairing s') = ps_group (ys_pairing s) →
  ps_introduction (ys_pairing s') = ps_introduction (ys_pairing s) →
  ys_membership s' = ys_membership s → sync_ok identity s → sync_ok identity s'.
Proof. unfold sync_ok. intros -> -> ->. done. Qed.

Lemma current_ok identity s g :
  sync_ok identity s → opt_try pinned_verified (current_pinned s) = Ok (Some g) →
  group_made g ∧ is_member identity g = true
  ∧ (∀ g', group_of s g' → g' = g).
Proof.
  intros [Hgroup Hintro] [[_ Hc]|(p & g' & Hp & Hv & [= <-])]%opt_try_Ok; [done|].
  split; [by eapply pinned_verified_made|]. unfold current_pinned in Hp.
  destruct (ps_group (ys_pairing s)) as [q|] eqn:Hq.
  - injection Hp as ->. destruct (Hgroup p eq_refl) as (_ & x & Hx & Hin & _).
    rewrite Hv in Hx. injection Hx as <-. split; [done|].
    intros y (q & Hq' & Hy). rewrite Hq in Hq'. injection Hq' as <-. congruence.
  - destruct (Hintro p Hp) as (x & Hx & Hin). rewrite Hv in Hx. injection Hx as <-.
    split; [done|]. intros y (q & Hq' & _). congruence.
Qed.

Lemma is_member_perm identity g g' added :
  is_member identity g = true →
  ms_members (group_membership g') ≡ₚ ms_members (group_membership g) ++ added →
  is_member identity g' = true.
Proof.
  unfold is_member. rewrite !bool_decide_eq_true. intros Hin ->. apply elem_of_app. by left.
Qed.

(** ** What one command does *)

(** How a pinned group becomes another: by approval of the staged request, which is verified
    again and whose identifier is the one that was named, or by acceptance. *)
Definition group_change (identity : ReaderIdentity) (now : Z) (s : PersonalSyncState)
    (c : PairingCommand.command) (g g' : VerifiedGroup) : Prop :=
  (∃ expected r i, c = PairingCommand.Approve expected
    ∧ ps_staged (ys_pairing s) = Some r ∧ ps_invitation (ys_pairing s) = Some i
    ∧ pairing_id r = Ok expected ∧ pairing_verify r i g now = Ok tt
    ∧ contains_enrollment expected g' = true
    ∧ (ms_members (group_membership g') ≡ₚ ms_members (group_membership g) ++ [rb_reader (pr_body r)]
       ∨ ∃ consent source, merge_approval r g = Ok (Some consent)
           ∧ approval_verify_at consent g 1 = Ok source
           ∧ ms_members (group_membership g')
             ≡ₚ ms_members (group_membership g) ++ ms_members (group_membership source)))
  ∨ c = PairingCommand.Accept g'.

Lemma approve_Ok identity now s g expected reply s' :
  group_made g →
  handle_approve identity now s (Some g) expected = Ok (reply, s') →
  s' = s ∨ ∃ next added s1, extends_with g next expected added ∧ install next s = Ok s1
    ∧ s' = with_pairing (set_approved (Some expected) ∘ set_staged None ∘ set_invitation None) s1
    ∧ reply = PairingReply.Group next
    ∧ group_change identity now s (PairingCommand.Approve expected) g next.
Proof.
  intros Hmade. unfold handle_approve. cbn [ok_or mbind result_bind].
  case_bool_decide as Happ; intros Ha; [injection Ha as _ <-; by left|]. right.
  apply bind_Ok in Ha as (r & Hr%ok_or_Ok & Ha). apply bind_Ok in Ha as (id & Hid & Ha).
  apply then_Ok in Ha as [He Ha]. apply fail_if_Ok, negb_false_iff, bool_decide_eq_true in He as ->.
  apply bind_Ok in Ha as (i & Hi%ok_or_Ok & Ha). apply then_Ok in Ha as [Hv Ha].
  apply bind_Ok in Ha as (approval & Hm & Ha). apply bind_Ok in Ha as (next & Hn & Ha).
  apply bind_Ok in Ha as (s1 & Hs1 & [= <- <-]).
  destruct approval as [consent|].
  - apply merged_extends in Hn as (source & Hs & Hext); [|done].
    exists next, (ms_members (group_membership source)), s1.
    split; [exact Hext|]. do 3 (split; [done|]). left. exists expected, r, i. split_and!; [done..|apply Hext|]. right. exists consent, source.
    split_and!; [done..|apply Hext].
  - apply advanced_extends in Hn as [Hext _]; [|done].
    exists next, [rb_reader (pr_body r)], s1.
    split; [exact Hext|]. do 3 (split; [done|]). left. exists expected, r, i. split_and!; [done..|apply Hext|]. left. apply Hext.
Qed.

Lemma accept_Ok identity s current g reply s' :
  handle_accept identity s current g = Ok (reply, s') →
  (∀ c, current = Some c → accept_extension c g = Ok tt)
  ∧ (s' = s ∨ is_member identity g = true ∧ ∃ s1, install g s = Ok s1
       ∧ s' = with_pairing (set_staged None ∘ set_invitation None ∘ set_joining None) s1).
Proof.
  unfold handle_accept. intros (unchanged & Hu & Ha)%bind_Ok. split.
  - intros c ->. by apply then_Ok in Hu as [? _].
  - destruct unchanged; [injection Ha as _ <-; by left|]. right.
    apply then_Ok in Ha as [Hin Ha]. apply fail_if_Ok, negb_false_iff in Hin.
    apply bind_Ok in Ha as (s1 & Hs1 & [= _ <-]). split; [done|]. by exists s1.
Qed.

(** Fields of the state that do not concern what is pinned. *)
Lemma with_pairing_ok identity f s :
  (∀ p, ps_group (f p) = ps_group p ∧ ps_introduction (f p) = ps_introduction p) →
  sync_ok identity s → sync_ok identity (with_pairing f s).
Proof.
  intros Hf. destruct (Hf (ys_pairing s)). by apply sync_ok_same.
Qed.
Lemma with_pairing_group f s g :
  (∀ p, ps_group (f p) = ps_group p) → group_of s g → group_of (with_pairing f s) g.
Proof. intros Hf (p & Hp & Hv). exists p. cbn. by rewrite Hf. Qed.

Lemma offer_Ok identity now draws s current endpoint name reply s' :
  sync_ok identity s → opt_try pinned_verified (current_pinned s) = Ok current →
  handle_offer identity now draws s current endpoint name = Ok (reply, s') →
  sync_ok identity s' ∧ ps_group (ys_pairing s') = ps_group (ys_pairing s).
Proof.
  intros Hok Hc. unfold handle_offer. intros ([g s1] & Hg & Hr)%bind_Ok.
  apply bind_Ok in Hr as (i & _ & [= _ <-]).
  assert (sync_ok identity s1 ∧ ps_group (ys_pairing s1) = ps_group (ys_pairing s)) as [Hok1 Hg1].
  { destruct current as [cur|]; [by injection Hg as <- <-|].
    apply bind_Ok in Hg as (g' & Hcreate & Hg). apply bind_Ok in Hg as (p & Hp & [= <- <-]).
    apply opt_try_Ok in Hc as [[Hnone _]|(? & ? & ? & ? & ?)]; [|done].
    unfold current_pinned in Hnone. destruct (ps_group (ys_pairing s)) as [q|] eqn:Hq; [done|].
    split; [|done]. split; cbn; [intros q; congruence|]. intros q [= <-]. exists g'.
    destruct (created_made _ _ _ _ _ Hcreate). split; [by apply pinned_new_verified|done]. }
  split; [|done]. by apply with_pairing_ok.
Qed.

Lemma keep_pinned identity s s' :
  sync_ok identity s' → ps_group (ys_pairing s') = ps_group (ys_pairing s) →
  sync_ok identity s' ∧ ∀ g, group_of s g → group_of s' g.
Proof. intros Hok Hg. split; [done|]. intros g (p & Hp & Hv). exists p. by rewrite Hg. Qed.

(** One command keeps the state well formed, and the pinned group, unless it is changed by
    approval or acceptance to one that the old accepts. *)
Lemma pairing_step identity now draws s c reply s' :
  sync_ok identity s → command_made c →
  pairing_handle identity now draws s c = Ok (reply, s') →
  sync_ok identity s'
  ∧ ∀ g, group_of s g → group_of s' g
      ∨ ∃ g', group_of s' g' ∧ group_made g' ∧ accept_extension g g' = Ok tt
          ∧ group_change identity now s c g g'.
Proof.
  intros Hok Hmade. unfold pairing_handle. intros (current & Hc & Hh)%bind_Ok.
  assert (∀ s', sync_ok identity s' ∧ ps_group (ys_pairing s') = ps_group (ys_pairing s) →
    sync_ok identity s' ∧ ∀ g, group_of s g → group_of s' g
      ∨ ∃ g', group_of s' g' ∧ group_made g' ∧ accept_extension g g' = Ok tt
          ∧ group_change identity now s c g g') as Hkeep.
  { intros s0 [Hok0 Hg0]. destruct (keep_pinned identity s s0) as [? Hsame]; [done..|].
    split; [done|]. intros g Hg. left. by apply Hsame. }
  destruct c as [endpoint name|endpoint name| |invitation group endpoint name|request|expected
    |expected|group|].
  - apply Hkeep. by eapply offer_Ok.
  - unfold handle_initialize in Hh. apply then_Ok in Hh as [Ht Hh].
    apply fail_if_Ok, orb_false_iff in Ht as [Ht _]. apply bool_decide_eq_false, eq_None_not_Some in Ht.
    apply bind_Ok in Hh as (g & Hg & Hh). apply bind_Ok in Hh as (s1 & Hs1 & [= _ <-]).
    destruct (created_made _ _ _ _ _ Hg) as [Hgm Hgin].
    split; [by eapply installed|]. intros g0 (p & Hp & _).
    destruct Hok as [Hgroup _]. destruct (Hgroup p Hp) as (_ & x & _ & _ & Hm). congruence.
  - apply Hkeep. unfold handle_invite in Hh. apply bind_Ok in Hh as (g & _ & Hh).
    apply then_Ok in Hh as [_ Hh]. destruct (find_first _ _) as [i|]; [by injection Hh as _ <-|].
    apply bind_Ok in Hh as (i & _ & [= _ <-]). split; [by apply with_pairing_ok|done].
  - apply Hkeep. unfold handle_join in Hh.
    destruct (ps_joining (ys_pairing s)) as [[[old r] p]|].
    + apply then_Ok in Hh as [_ Hh]. apply bind_Ok in Hh as (? & _ & Hh).
      apply bind_Ok in Hh as (? & _ & Hh). apply bind_Ok in Hh as (? & _ & Hh).
      apply then_Ok in Hh as [_ Hh]. apply then_Ok in Hh as [_ [= _ <-]]. done.
    + apply bind_Ok in Hh as (r & _ & Hh). apply bind_Ok in Hh as (p & _ & [= _ <-]).
      split; [by apply with_pairing_ok|done].
  - apply Hkeep. unfold handle_stage in Hh. apply bind_Ok in Hh as (g & _ & Hh).
    apply bind_Ok in Hh as (i & _ & Hh). apply then_Ok in Hh as [_ Hh].
    apply then_Ok in Hh as [_ Hh]. apply then_Ok in Hh as [_ [= _ <-]].
    split; [by apply with_pairing_ok|done].
  - destruct current as [cur|]; [|done].
    destruct (current_ok _ _ _ Hok Hc) as (Hcm & Hcin & Honly).
    apply approve_Ok in Hh as [->|(next & added & s1 & Hext & Hs1 & -> & _ & Hchange)]; [by apply Hkeep| |done].
    destruct Hext as (Hnm & Hacc & _ & Hms).
    destruct (installed identity next s s1) as [Hok1 Hg1];
      [done|by eapply is_member_perm|done|].
    split; [by apply with_pairing_ok|]. intros g Hg. right. rewrite (Honly g Hg).
    exists next. split_and!; [by apply with_pairing_group|done..].
  - apply Hkeep. unfold handle_approve_join in Hh. apply bind_Ok in Hh as ([[i r] p] & _ & Hh).
    apply bind_Ok in Hh as (? & _ & Hh). apply then_Ok in Hh as [_ Hh].
    apply bind_Ok in Hh as (? & _ & Hh). apply then_Ok in Hh as [_ Hh].
    apply bind_Ok in Hh as (? & _ & Hh). apply bind_Ok in Hh as (? & _ & Hh).
    apply bind_Ok in Hh as (? & _ & Hh). apply bind_Ok in Hh as (? & _ & Hh).
    apply bind_Ok in Hh as (? & _ & Hh). apply then_Ok in Hh as [_ Hh].
    apply bind_Ok in Hh as (? & _ & [= _ <-]). split; [by apply with_pairing_ok|done].
  - apply accept_Ok in Hh as [Hacc [->|(Hin & s1 & Hs1 & ->)]]; [by apply Hkeep|].
    destruct (installed identity group s s1) as [Hok1 Hg1]; [done..|].
    split; [by apply with_pairing_ok|]. intros g (p & Hp & Hv). right. exists group.
    split_and!; [by apply with_pairing_group|done| |by right].
    apply Hacc. unfold current_pinned in Hc. rewrite Hp in Hc. cbn in Hc. rewrite Hv in Hc.
    by injection Hc as <-.
  - injection Hh as _ <-. apply Hkeep. split; [|done].
    destruct Hok as [Hgroup _]. split; cbn; [|done]. intros p Hp. by destruct (Hgroup p Hp).
Qed.
(** What a pairing command leaves, and that only a group that is installed is the membership. *)
Definition pairing_only (s s' : PersonalSyncState) : Prop :=
  ys_reader s' = ys_reader s ∧ ys_prepared s' = ys_prepared s ∧ ys_receipts s' = ys_receipts s
  ∧ (ys_membership s' = ys_membership s ∨ is_Some (ps_group (ys_pairing s'))).
Lemma with_pairing_only f s : pairing_only s (with_pairing f s).
Proof. split_and!; [done..|by left]. Qed.
Lemma pairing_only_refl s : pairing_only s s.
Proof. split_and!; [done..|by left]. Qed.
Lemma install_only f g s s' :
  (∀ p, ps_group (f p) = ps_group p) → install g s = Ok s' → pairing_only s (with_pairing f s').
Proof.
  intros Hf Hi. unfold install in Hi. apply bind_Ok in Hi as (? & _ & [= <-]).
  split_and!; [done..|right]. cbn. rewrite Hf. by eexists.
Qed.

Lemma pairing_keeps identity now draws s c reply s' :
  pairing_handle identity now draws s c = Ok (reply, s') → pairing_only s s'.
Proof.
  unfold pairing_handle. intros (current & _ & Hh)%bind_Ok. destruct c.
  - unfold handle_offer in Hh. apply bind_Ok in Hh as ([g s1] & Hg & Hh).
    apply bind_Ok in Hh as (? & _ & [= _ <-]). destruct current as [cur|].
    + injection Hg as <- <-. apply with_pairing_only.
    + apply bind_Ok in Hg as (? & _ & Hg). apply bind_Ok in Hg as (? & _ & [= <- <-]).
      split_and!; [done..|by left].
  - unfold handle_initialize in Hh. apply then_Ok in Hh as [_ Hh]. apply bind_Ok in Hh as (? & _ & Hh).
    apply bind_Ok in Hh as (s1 & Hi & [= _ <-]). apply (install_only id) in Hi; [by destruct s1|done].
  - unfold handle_invite in Hh. apply bind_Ok in Hh as (? & _ & Hh). apply then_Ok in Hh as [_ Hh].
    destruct (find_first _ _); [injection Hh as _ <-; apply pairing_only_refl|].
    apply bind_Ok in Hh as (? & _ & [= _ <-]). apply with_pairing_only.
  - unfold handle_join in Hh. destruct (ps_joining (ys_pairing s)) as [[[old r] p]|].
    + apply then_Ok in Hh as [_ Hh]. do 3 apply bind_Ok in Hh as (? & _ & Hh).
      apply then_Ok in Hh as [_ Hh]. apply then_Ok in Hh as [_ [= _ <-]]. apply pairing_only_refl.
    + apply bind_Ok in Hh as (? & _ & Hh). apply bind_Ok in Hh as (? & _ & [= _ <-]).
      apply with_pairing_only.
  - unfold handle_stage in Hh. do 2 apply bind_Ok in Hh as (? & _ & Hh). do 2 apply then_Ok in Hh as [_ Hh].
    apply then_Ok in Hh as [_ [= _ <-]]. apply with_pairing_only.
  - unfold handle_approve in Hh. apply bind_Ok in Hh as (? & _ & Hh).
    case_bool_decide; [injection Hh as _ <-; apply pairing_only_refl|].
    do 2 apply bind_Ok in Hh as (? & _ & Hh).
    apply then_Ok in Hh as [_ Hh]. apply bind_Ok in Hh as (? & _ & Hh). apply then_Ok in Hh as [_ Hh].
    do 2 apply bind_Ok in Hh as (? & _ & Hh). apply bind_Ok in Hh as (s1 & Hi & [= _ <-]).
    by eapply install_only.
  - unfold handle_approve_join in Hh. apply bind_Ok in Hh as ([[? ?] ?] & _ & Hh).
    apply bind_Ok in Hh as (? & _ & Hh). apply then_Ok in Hh as [_ Hh]. apply bind_Ok in Hh as (? & _ & Hh).
    apply then_Ok in Hh as [_ Hh]. do 5 apply bind_Ok in Hh as (? & _ & Hh).
    apply then_Ok in Hh as [_ Hh]. apply bind_Ok in Hh as (? & _ & [= _ <-]). apply with_pairing_only.
  - apply accept_Ok in Hh as [_ [->|(_ & s1 & Hi & ->)]]; [apply pairing_only_refl|].
    by eapply install_only.
  - injection Hh as _ <-. apply with_pairing_only.
Qed.

(** ** Histories of a state *)

(** A command that succeeded, with any time, draws and answer. *)
Definition pairing_command (identity : ReaderIdentity) (s s' : PersonalSyncState) : Prop :=
  ∃ now draws c reply, command_made c ∧ pairing_handle identity now draws s c = Ok (reply, s').
Definition accepts (g g' : VerifiedGroup) : Prop :=
  group_made g ∧ group_made g' ∧ accept_extension g g' = Ok tt.

Lemma incorporated_trans l m n : incorporated l m → incorporated m n → incorporated l n.
Proof.
  induction 1 as [l older c rest ->|l c a source sub Hc Ha Hs Hsub IH]; intros Hn.
  - inversion Hn as [older' c' rest' Heq|c' a source ? Hc' Ha Hs Hsub]; subst.
    + apply (incorporated_prefix _ older' c' (rest' ++ rest)).
      by rewrite cons_middle, app_assoc, Heq, <- app_assoc.
    + eapply incorporated_merge; [|done..]. rewrite cons_middle, app_assoc. apply elem_of_app. by left.
  - eapply incorporated_merge; [done..|]. by apply IH.
Qed.

(** Along a history the first chain stays, unless two certificates collide at a step of it. *)
Lemma accepted_history g g' :
  rtc accepts g g' →
  incorporated (vg_chain g') (vg_chain g)
  ∨ ∃ a b sub, rtc accepts g a ∧ accepts a b ∧ rtc accepts b g'
      ∧ incorporated (vg_chain b) sub ∧ chains_collide (vg_chain a) sub.
Proof.
  induction 1 as [g|g x g' Hgx Hxg' IH].
  - left. rewrite <- (app_nil_r (vg_chain g)) at 1. apply incorporated_extension.
  - pose proof Hgx as ([Hg Hgw] & [Hx Hxw] & Hacc).
    destruct (extension_contains_chain _ _ _ _ _ _ Hg Hx Hgw Hxw Hacc) as [Hinc|(sub & Hsub & Hcol)].
    + destruct IH as [Hinc'|(a & b & sub & Hxa & Hab & Hb & Hsub & Hcol)].
      * left. by eapply incorporated_trans.
      * right. exists a, b, sub. split_and!; try done; [by eapply rtc_l|apply Hab..].
    + right. exists g, x, sub. split; [constructor|]. split; [exact Hgx|done].
Qed.

Lemma run_keeps identity s s' :
  rtc (pairing_command identity) s s' → sync_ok identity s →
  sync_ok identity s' ∧ ∀ g, group_of s g → ∃ g', group_of s' g' ∧ rtc accepts g g'.
Proof.
  induction 1 as [s|s x s' (now & draws & c & reply & Hc & Hh) _ IH]; intros Hok.
  - split; [done|]. intros g Hg. exists g. by split; [|constructor].
  - destruct (pairing_step _ _ _ _ _ _ _ Hok Hc Hh) as [Hokx Hx]. destruct (IH Hokx) as [Hok' Hs'].
    split; [done|]. intros g Hg. destruct (Hx g Hg) as [Hgx|(y & Hy & Hym & Hacc & _)].
    + by apply Hs'.
    + destruct (Hs' y Hy) as (g' & Hg' & Hrun). exists g'. split; [done|].
      eapply rtc_l; [|done]. destruct Hg as (p & _ & Hv). by apply pinned_verified_made in Hv.
Qed.

(** Whatever commands a vault has handled, the group it has pinned is verified, includes this
    device and is the membership in use; and after any further commands the pinned group
    still contains its whole chain, or two certificates of the groups it went through
    collide under SHA-256.  So a group is never rolled back, forked or replaced. *)
Theorem pinned_group_never_rolls_back identity s s' g :
  rtc (pairing_command identity) sync_state_default s →
  rtc (pairing_command identity) s s' →
  group_of s g →
  sync_ok identity s'
  ∧ ∃ g', group_of s' g'
    ∧ (incorporated (vg_chain g') (vg_chain g)
       ∨ ∃ a b sub, rtc accepts g a ∧ accepts a b ∧ rtc accepts b g'
           ∧ incorporated (vg_chain b) sub ∧ chains_collide (vg_chain a) sub).
Proof.
  intros Hs Hs' Hg. apply run_keeps in Hs as [Hok _]; [|by split].
  apply run_keeps in Hs' as [Hok' Hlater]; [|done]. split; [done|].
  destruct (Hlater g Hg) as (g' & Hg' & Hrun). exists g'. split; [done|]. by apply accepted_history.
Qed.

Lemma group_of_inj s g g' : group_of s g → group_of s g' → g = g'.
Proof. intros (p & Hp & Hv) (p' & Hp' & Hv'). congruence. Qed.

(** C17: The pinned group changes only when the user approves the staged request under the
    identifier that was compared, which then is verified again with its invitation, or when a
    group is accepted that extends the pinned one.  Approval adds the reader that asked, or
    the members of the group that consented to the merge, and nobody else. *)
Theorem enrollment_needs_approval identity now draws s c reply s' g g' :
  sync_ok identity s → command_made c →
  pairing_handle identity now draws s c = Ok (reply, s') →
  group_of s g → group_of s' g' → g' ≠ g →
  accept_extension g g' = Ok tt ∧ group_change identity now s c g g'.
Proof.
  intros Hok Hc Hh Hg Hg' Hne. destruct (pairing_step _ _ _ _ _ _ _ Hok Hc Hh) as [_ Hstep].
  destruct (Hstep g Hg) as [Hsame|(x & Hx & _ & Hacc & Hchange)].
  - by destruct Hne; eapply group_of_inj.
  - rewrite (group_of_inj _ _ _ Hg' Hx). done.
Qed.

(** ** Joining *)

Lemma made_encodes g : group_made g → ∃ p, pinned_new g = Ok p.
Proof.
  intros [(_ & _ & _ & _ & _ & _ & _ & x & Hx & _)%verify_left_Ok _]. unfold pinned_new, group_encode.
  rewrite Hx. by eexists.
Qed.

Lemma current_none s : current_pinned s = None → opt_try pinned_verified (current_pinned s) = Ok None.
Proof. by intros ->. Qed.

Lemma current_group s g : group_of s g → opt_try pinned_verified (current_pinned s) = Ok (Some g).
Proof. intros (p & Hp & Hv). unfold current_pinned. rewrite Hp. cbn. by rewrite Hv. Qed.

(** The request a device makes without a group of its own. *)
Lemma join_Ok b now draws s i g endpoint name r s' :
  current_pinned s = None → ps_joining (ys_pairing s) = None →
  pairing_handle b now draws s (PairingCommand.Join i g endpoint name) = Ok (PairingReply.Request r, s') →
  rb_reader (pr_body r) = ri_public b ∧ rb_endpoint (pr_body r) = endpoint
  ∧ rb_origin (pr_body r) = None
  ∧ ∃ p, pinned_new g = Ok p ∧ s' = with_pairing
      (set_joining (Some (i, r, p)) ∘ set_staged None ∘ set_invitation None) s.
Proof.
  intros Hc Hj Hjoin. unfold pairing_handle in Hjoin. rewrite (current_none _ Hc) in Hjoin.
  cbn [mbind result_bind] in Hjoin. unfold handle_join in Hjoin. rewrite Hj in Hjoin.
  apply bind_Ok in Hjoin as (r' & Hreq & Hjoin). apply bind_Ok in Hjoin as (p & Hp & [= -> <-]).
  unfold request_pairing in Hreq. apply then_Ok in Hreq as [_ Hreq].
  apply bind_Ok in Hreq as (digest & _ & Hreq). apply bind_Ok in Hreq as (r' & Hbody & Hreq).
  apply then_Ok in Hreq as [_ [= ->]]. apply prove_and_sign_Ok in Hbody as (-> & _ & _).
  split_and!; [done..|]. by exists p.
Qed.

(** Staging keeps what is pinned, and what was approved. *)
Lemma stage_Ok a now draws s g r reply s' :
  group_of s g → pairing_handle a now draws s (PairingCommand.Stage r) = Ok (reply, s') →
  s' = with_pairing (set_staged (Some r)) s.
Proof.
  intros Hg Hs. unfold pairing_handle in Hs. rewrite (current_group _ _ Hg) in Hs.
  cbn [mbind result_bind] in Hs. unfold handle_stage in Hs. cbn [ok_or mbind result_bind] in Hs.
  apply bind_Ok in Hs as (inv & _ & Hs). apply then_Ok in Hs as [_ Hs].
  apply then_Ok in Hs as [_ Hs]. by apply then_Ok in Hs as [_ [= _ <-]].
Qed.

(** The approval of a request that merges nothing enrolls its reader at its endpoint. *)
Lemma approve_reader_Ok a now draws s g r e next s' :
  group_of s g → ps_staged (ys_pairing s) = Some r → rb_origin (pr_body r) = None →
  ps_approved (ys_pairing s) ≠ Some e →
  pairing_handle a now draws s (PairingCommand.Approve e) = Ok (PairingReply.Group next, s') →
  extends_with g next e [rb_reader (pr_body r)]
  ∧ group_transports next ≡ₚ group_transports g ++ [request_binding r]
  ∧ group_of s' next ∧ ys_membership s' = Some (group_membership next).
Proof.
  intros Hg Hr Ho Hne Ha. unfold pairing_handle in Ha. rewrite (current_group _ _ Hg) in Ha.
  cbn [mbind result_bind] in Ha. unfold handle_approve in Ha. cbn [ok_or mbind result_bind] in Ha.
  rewrite bool_decide_eq_false_2, Hr in Ha by done. cbn [ok_or mbind result_bind] in Ha.
  apply bind_Ok in Ha as (id & _ & Ha). apply then_Ok in Ha as [_ Ha].
  apply bind_Ok in Ha as (inv & _ & Ha). apply then_Ok in Ha as [_ Ha].
  unfold merge_approval, origin in Ha. rewrite Ho in Ha. cbn [opt_try mbind result_bind] in Ha.
  apply bind_Ok in Ha as (n & Hn & Ha). apply bind_Ok in Ha as (s1 & Hs1 & [= -> <-]).
  destruct Hg as (q & _ & Hv). apply pinned_verified_made in Hv.
  apply advanced_extends in Hn as [Hext Hts]; [|done].
  apply install_Ok in Hs1 as (p & Hp & Hgroup & _ & Hm & _).
  split; [exact Hext|]. split; [exact Hts|]. split; [|exact Hm]. exists p. split; [exact Hgroup|].
  apply pinned_new_verified; [apply Hext|done].
Qed.

(** A device that waits for the group it joined accepts one that extends it and has the
    device enrolled by its request. *)
Lemma accept_joined b now draws s i r g p next :
  current_pinned s = None → ps_joining (ys_pairing s) = Some (i, r, p) → pinned_verified p = Ok g →
  group_made next → accept_extension g next = Ok tt →
  (∃ id, pairing_id r = Ok id ∧ contains_enrollment id next = true) →
  (∃ t, t ∈ group_transports next ∧ tb_endpoint t = rb_endpoint (pr_body r)
        ∧ tb_reader t = Some (reader_id b)) →
  is_member b next = true →
  ∃ s', pairing_handle b now draws s (PairingCommand.Accept next) = Ok (PairingReply.Group next, s')
    ∧ group_of s' next ∧ ys_membership s' = Some (group_membership next).
Proof.
  intros Hc Hj Hp Hnm Hacc (id & Hid & Henr) (t & Ht & Hte & Htr) Hin.
  destruct (made_encodes next Hnm) as [pn Hpn]. pose proof (pinned_new_verified _ _ Hnm Hpn) as Hpv.
  unfold pairing_handle. rewrite (current_none _ Hc). cbn [mbind result_bind].
  unfold handle_accept. rewrite Hj. cbn [ok_or mbind result_bind]. rewrite Hp.
  cbn [mbind result_bind]. rewrite Hacc. cbn [mbind result_bind]. rewrite Hid.
  cbn [mbind result_bind]. rewrite Henr.
  assert (existsb (λ x, bool_decide (tb_endpoint x = rb_endpoint (pr_body r))
    && bool_decide (tb_reader x = Some (reader_id b))) (group_transports next) = true) as ->.
  { apply existsb_exists. exists t. split; [by apply list_elem_of_In|].
    by rewrite Hte, Htr, !bool_decide_eq_true_2. }
  cbn [negb orb fail_if mbind result_bind]. rewrite Hin. cbn [negb fail_if mbind result_bind].
  unfold install. rewrite Hpn. cbn [mbind result_bind]. eexists. split; [reflexivity|].
  split; [by exists pn|done].
Qed.

(** C31: A device without a group that joins, whose request the other device stages and approves
    under its identifier, accepts the group it is then sent: both end with the same group and
    membership, to which exactly the new reader was added. *)
Theorem invited_device_joins a b sa sb g i endpoint name r sb1 reply sa1 e next sa2
    t1 d1 t2 d2 t3 d3 t4 d4 :
  group_of sa g → current_pinned sb = None → ps_joining (ys_pairing sb) = None →
  pairing_handle b t1 d1 sb (PairingCommand.Join i g endpoint name) = Ok (PairingReply.Request r, sb1) →
  pairing_handle a t2 d2 sa (PairingCommand.Stage r) = Ok (reply, sa1) →
  pairing_id r = Ok e → ps_approved (ys_pairing sa) ≠ Some e →
  pairing_handle a t3 d3 sa1 (PairingCommand.Approve e) = Ok (PairingReply.Group next, sa2) →
  ∃ sb2, pairing_handle b t4 d4 sb1 (PairingCommand.Accept next) = Ok (PairingReply.Group next, sb2)
    ∧ group_of sa2 next ∧ group_of sb2 next ∧ ys_membership sb2 = ys_membership sa2
    ∧ ms_members (group_membership next) ≡ₚ ms_members (group_membership g) ++ [ri_public b].
Proof.
  intros Hga Hcb Hjb Hjoin Hstage Hid Happ Happrove.
  destruct (join_Ok _ _ _ _ _ _ _ _ _ _ Hcb Hjb Hjoin) as (Hreader & Hend & Ho & p & Hp & ->).
  pose proof (stage_Ok _ _ _ _ _ _ _ _ Hga Hstage) as ->.
  destruct (approve_reader_Ok a t3 d3 (with_pairing (set_staged (Some r)) sa) g r e next sa2) as ((Hnm & Hacc & Henr & Hms) & Hts & Hga2 & Hma);
    [by apply with_pairing_group|done..|].
  destruct (accept_joined b t4 d4 (with_pairing
    (set_joining (Some (i, r, p)) ∘ set_staged None ∘ set_invitation None) sb) i r g p next)
    as (sb2 & Hsb2 & Hgb2 & Hmb); try done.
  - destruct Hga as (q & _ & Hv). apply pinned_new_verified; [by eapply pinned_verified_made|done].
  - by exists e.
  - exists (request_binding r). split; [rewrite Hts; apply elem_of_app; right; by left|].
    split; [done|]. cbn. by rewrite Hreader.
  - apply bool_decide_eq_true. rewrite Hms, Hreader. apply elem_of_app. right. by left.
  - exists sb2. rewrite Hreader in Hms. split_and!; [done..|by rewrite Hma, Hmb|done].
Qed.
End State.
