(* ===== verification/SyncDocument.v ===== *)
(** What a personal document keeps of sync: the state next to the replicas, the updates that
    are received into both and into the visible items, and the conflicts that are resolved
    (src/src/vault/document/sync.rs). *)
From Stdlib Require Import ZArith Lia Bool.
From stdpp Require Import base numbers gmap strings list.
From S2P Require Import Prelude Text Chars Core Address Wire History StoreSpec Signature Envelope.
From S2P Require Import Automerge Document DocumentProofs DocumentAtomic Website Totp Personal PersonalLegacy Replica PersonalStore.
From S2P Require Import SyncIdentity SyncGroup SyncMembers SyncPairing SyncPacket SyncState.

Definition MAX_STATE_BYTES : Z := 16 * 1024 * 1024.
Definition MAX_RECEIPTS : Z := 4096.

Module ReceiveOutcome.
Inductive receive_outcome : Set := Applied | Duplicate | Conflict.
End ReceiveOutcome.
#[export] Instance receive_outcome_eq_dec : EqDecision ReceiveOutcome.receive_outcome.
Proof. solve_decision. Defined.

(** Competing values, and the heads a resolution must name. *)
Record PersonalConflict : Type := {
  pc_heads : list bytes;
  pc_values : list (option Personal.PersonalSecret)
}.

Definition set_receipts (l : list ReceivedPacket) (s : PersonalSyncState) : PersonalSyncState := {|
  ys_reader := ys_reader s; ys_pairing := ys_pairing s; ys_membership := ys_membership s;
  ys_prepared := ys_prepared s; ys_receipts := l |}.

(** [catalog.pending.remove(id)]. *)
Definition pending_remove (id : string) (c : ReplicaCatalog) : ReplicaCatalog := {|
  rc_replicas := rc_replicas c; rc_pending := rc_pending c ∖ {[id]} |}.

Section SyncDocument.
Context `{Base64Standard} `{Serde EncodedUpdate} `{Serde Personal.PersonalSecret}.
Context `{AutomergeChanges}.
Context `{Sha256} `{Base64} `{Serde SecretRecord} `{Serde ReplicaCatalog} `{Serde RecordDeadline}.
Context `{Serde PersonalSyncState}.
Abbreviation DM := (SM SecretDocument).

(** Call a function that takes a replica mutably, and keep the replica. *)
Definition replica_call {A} (m : SM Replica.PersonalReplica A) (r : Replica.PersonalReplica)
    : VaultResult (A * Replica.PersonalReplica) := replica_after m pair r.

(** [catalog.load(id, actor)], of these replicas. *)
Definition load_from (c : ReplicaCatalog) (id : string) (actor : bytes)
    : VaultResult (option Replica.PersonalReplica) := @catalog_load personal_items c id actor.
Definition store_in (c : ReplicaCatalog) (id : string) (r : Replica.PersonalReplica) (pending : bool)
    : VaultResult ReplicaCatalog := @catalog_store personal_items c id r pending.

(** [sync_state]. *)
Definition sync_state (d : SecretDocument) : VaultResult PersonalSyncState :=
  _ ← fail_if (negb (document_is_personal d)) descriptor_mismatch;
  found ← automerge_error (am_get (sd_document d) am_root PERSONAL_SYNC);
  match found with
  | Some (value, _) =>
      b ← ok_or descriptor_mismatch
            (match value with AmScalar s => into_bytes s | AmObject _ => None end);
      _ ← fail_if (MAX_STATE_BYTES <? Z.of_nat (length b)) descriptor_mismatch;
      map_err (λ _, descriptor_mismatch) (serde_from_slice b)
  | None => Ok sync_state_default
  end.

Definition save_sync_state (state : PersonalSyncState) : DM () :=
  b ← lift (map_err (λ _, descriptor_mismatch) (serde_to_vec state));
  _ ← lift (fail_if (MAX_STATE_BYTES <? Z.of_nat (length b))
        (VaultError.Protocol "personal sync state is full"));
  _ ← Document.am_change (λ a, am_put a am_root FORMAT_VERSION_KEY (scalar_u64 PERSONAL_FORMAT_VERSION));
  _ ← Document.am_change (λ a, am_put a am_root PERSONAL_LAYOUT (scalar_u64 1));
  Document.am_change (λ a, am_put a am_root PERSONAL_SYNC (scalar_bytes b)).

Definition update_sync_state (state : PersonalSyncState) (replicas : ReplicaCatalog)
    : DM DocumentMutation :=
  transact (
    _ ← save_sync_state state;
    _ ← save_personal_replicas replicas;
    finish_mutation).

Definition sync_replica (d : SecretDocument) (id : string) : VaultResult Replica.PersonalReplica :=
  catalog ← personal_replicas d;
  found ← load_from catalog id (am_actor (sd_document d));
  ok_or descriptor_mismatch found.

Definition sync_conflicts (d : SecretDocument) (id : string) : VaultResult PersonalConflict :=
  replica ← sync_replica d id;
  values ← values_of replica;
  '(heads, _) ← replica_call replica_heads replica;
  Ok {| pc_heads := heads; pc_values := values |}.

(** The first value that is an item. *)
Definition first_item (values : list (option Personal.PersonalSecret))
    : option Personal.PersonalSecret := head (omap id values).

Definition materialize_sync_value (id : string) (values : list (option Personal.PersonalSecret))
    (context : MutationContext) : DM () :=
  address ← lift (address_new id None);
  match first_item values with
  | Some item =>
      b ← lift (map_err (λ _, descriptor_mismatch) (item_encode item));
      put_value_uncommitted address b None context false
  | None =>
      _ ← delete_value_uncommitted address HistoryOperation.Delete false;
      mret tt
  end.

(** What merging an update into the catalog gives: whether the replica changed, its values,
    the heads of the update, and the catalog. *)
Definition merge_update (d : SecretDocument) (update : PersonalUpdate)
    : VaultResult (bool * list (option Personal.PersonalSecret) * list bytes * ReplicaCatalog) :=
  let id := pu_item_id update in
  let actor := am_actor (sd_document d) in
  catalog ← personal_replicas d;
  found ← load_from catalog id actor;
  fresh ← replica_create id actor;
  '(changed, replica) ← replica_call (merge_replica update) (default fresh found);
  values ← values_of replica;
  incoming ← update_replica update;
  '(heads, incoming) ← replica_call replica_heads incoming;
  '(merged_heads, replica) ← replica_call replica_heads replica;
  '(incoming_heads, _) ← replica_call replica_heads incoming;
  let catalog := if bool_decide (merged_heads = incoming_heads) then pending_remove id catalog
                 else catalog in
  catalog ← store_in catalog id replica false;
  Ok (changed, values, heads, catalog).

Definition receive_personal (packet : bytes) (update : PersonalUpdate) (context : MutationContext)
    : DM (ReceiveOutcome.receive_outcome * option DocumentMutation) :=
  state ← reading sync_state;
  if existsb (λ receipt, bool_decide (rx_packet receipt = packet)) (ys_receipts state)
  then mret (ReceiveOutcome.Duplicate, None)
  else
    _ ← lift (fail_if (MAX_RECEIPTS <=? Z.of_nat (length (ys_receipts state)))
          (VaultError.Protocol "personal sync receipts are full"));
    '(changed, values, heads, catalog) ← reading (λ d, merge_update d update);
    let outcome := if negb changed then ReceiveOutcome.Duplicate
                   else if (1 <? Z.of_nat (length values)) then ReceiveOutcome.Conflict
                   else ReceiveOutcome.Applied in
    let id := pu_item_id update in
    let state := set_receipts (ys_receipts state ++
      [{| rx_packet := packet; rx_item_id := id; rx_heads := heads |}]) state in
    mutation ← transact (
      _ ← (if (changed : bool) then materialize_sync_value id values context else mret tt);
      _ ← save_sync_state state;
      _ ← save_personal_replicas catalog;
      finish_mutation);
    mret (outcome, Some mutation).

Definition resolve_personal (id : string) (expected : list bytes)
    (item : option Personal.PersonalSecret) (context : MutationContext) : DM DocumentMutation :=
  '(values, catalog) ← reading (λ d,
    replica ← sync_replica d id;
    before ← values_of replica;
    _ ← fail_if (Z.of_nat (length before) <? 2) VaultError.Conflict;
    '(_, replica) ← replica_call (set_replica item (Some expected)) replica;
    catalog ← personal_replicas d;
    values ← values_of replica;
    catalog ← store_in catalog id replica true;
    Ok (values, catalog));
  transact (
    _ ← materialize_sync_value id values context;
    _ ← save_personal_replicas catalog;
    finish_mutation).
End SyncDocument.

(** * What is saved of sync is read back, and a received update is recorded, shown and
    received once. *)

Section SyncDocumentProofs.
Context `{Base64Standard} `{Serde EncodedUpdate} `{SerdeOk Personal.PersonalSecret}.
Context `{AutomergeChanges} `{!AutomergeOk} `{!AutomergeChangesOk}.
Context `{Sha256} `{Base64} `{SerdeOk SecretRecord} `{SerdeOk ReplicaCatalog} `{Serde RecordDeadline}.
Context `{!RecordSerdeOk} `{!DeadlineSerdeOk} `{SerdeOk PersonalSyncState}.
Abbreviation DM := (SM SecretDocument).

(** ** Root scalars *)

Definition root (d : SecretDocument) : am_values := am_visible (sd_document d) am_root.
Definition root_is (d : SecretDocument) (key : string) (s : am_scalar) : Prop :=
  ∃ i, root d !! key = Some [(AmScalar s, i)].

(** A step that keeps a document and what the root has outside some keys. *)
Definition keeps_root (keys : list string) (d d' : SecretDocument) : Prop :=
  document_ok d' ∧ sd_kind d' = sd_kind d ∧ sd_partition d' = sd_partition d
  ∧ ∀ key, key ∉ keys → root d' !! key = root d !! key.

Lemma keeps_root_refl d : document_ok d → keeps_root [] d d.
Proof. intros Hd. by split_and!. Qed.
Lemma keeps_root_trans ks ks' d1 d2 d3 :
  keeps_root ks d1 d2 → keeps_root ks' d2 d3 → keeps_root (ks ++ ks') d1 d3.
Proof.
  intros (? & ? & ? & Hfst) (? & ? & ? & Hsnd). split_and!; try done; try congruence.
  intros key [? ?]%not_elem_of_app. rewrite Hsnd by done. by apply Hfst.
Qed.
Lemma keeps_root_personal ks d d' :
  keeps_root ks d d' → document_is_personal d' = document_is_personal d.
Proof. intros (_ & Hk & Hp & _). unfold document_is_personal. by rewrite Hk, Hp. Qed.
Lemma keeps_root_is ks d d' key s :
  keeps_root ks d d' → key ∉ ks → root_is d key s → root_is d' key s.
Proof. intros (_ & _ & _ & Hr) Hk [i Hi]. exists i. by rewrite Hr. Qed.

Lemma put_root d key s d' :
  document_ok d → Document.am_change (λ a, am_put a am_root key s) d = (Ok tt, d') →
  keeps_root [key] d d' ∧ root_is d' key s ∧ document_view d' = document_view d.
Proof.
  intros [Hk Hr] Hc. unfold Document.am_change in Hc.
  destruct (am_put _ _ _ _) as [a|] eqn:Hput; [|discriminate]. injection Hc as <-.
  apply am_put_law in Hput as (Hkn & _ & Ha & (id & Hv) & Hother); [|apply am_root_law].
  split_and!.
  - split_and!; [split; cbn; [by apply Hkn|done]|done|done|].
    intros k Hne%not_elem_of_cons. unfold root. cbn. rewrite Hv, lookup_insert_ne; naive_solver.
  - exists id. unfold root. cbn. by rewrite Hv, lookup_insert_eq.
  - unfold document_view, entries. cbn. by rewrite Hother.
Qed.

(** The metadata of one document is that of another, where it is a single scalar or absent. *)
Definition metadata_kept (d d2 : SecretDocument) : Prop :=
  ∀ key, key ∈ personal_keys →
    (∀ s, root_is d key s → root_is d2 key s) ∧ (root d !! key = None → root d2 !! key = None).

(** A scalar of the personal metadata is in every document that loads from what is saved. *)
Definition reloads (m : DocumentMutation) (kind : DocumentKind) (partition : bytes)
    (P : SecretDocument → Prop) : Prop :=
  ∀ actor expected, (∀ p, expected = Some p → p = partition) →
  ∃ d, document_load (dm_snapshot m) actor kind expected = Ok d ∧ P d.

Lemma finish_reloads d m d' :
  document_ok d → document_is_personal d = true → finish_mutation d = (Ok m, d') →
  reloads m (sd_kind d) (sd_partition d) (λ d2,
    document_ok d2 ∧ document_is_personal d2 = true
    ∧ sd_kind d2 = sd_kind d ∧ sd_partition d2 = sd_partition d
    ∧ document_view d2 = document_view d
    ∧ metadata_kept d d2).
Proof.
  intros Hd Hp Hf. apply finish_projects in Hf
    as (p & saved & Hsave & -> & Hokp & Hdp & Hkp & Hpp & Hap & Hview & _ & _ & _ & _ & Hroot); [|done].
  intros actor e He.
  pose proof (saved_holds p Hokp Hdp) as Hh. rewrite Hsave, Hkp, Hpp, Hview in Hh. cbn [fst] in Hh.
  destruct (Hh actor e He) as (d2 & Hl & Hpart & Hv2). exists d2. split; [done|].
  pose proof (document_load_ok _ _ _ _ _ Hl) as (Hok2 & Hk2 & _ & _).
  split_and!; [done| |congruence|congruence|done|].
  { unfold document_is_personal in *. by rewrite Hk2, Hpart. }
  assert (root d2 = root p) as Hsame.
  { unfold document_load in Hl. destruct (am_save_law (sd_document p)) as (_ & _ & a & Hload & Hkn & Hvis).
    rewrite Hsave in Hload. cbn in Hload. rewrite Hload in Hl. cbn [automerge_error map_err mbind result_bind] in Hl.
    cbv zeta in Hl. do 3 apply bind_Ok in Hl as (? & _ & Hl). apply bind_Ok in Hl as (? & _ & Hl).
    apply then_Ok in Hl as [_ Hl]. apply bind_Ok in Hl as (o & _ & [= <-]).
    unfold root. cbn. destruct (am_set_actor_law actor a) as [[_ Hvis'] _].
    rewrite Hvis' by apply am_root_law. by rewrite Hvis by apply am_root_law. }
  intros key Hkey. pose proof (Hroot key Hp Hkey) as Hc. unfold root_is. rewrite Hsame. split.
  - intros s [i Hi]. unfold root in Hi. rewrite Hi in Hc.
    destruct Hc as (s' & ? & j & [= -> _]%list_elem_of_singleton & Hc). by exists j.
  - intros Hnone. unfold root in Hnone. by rewrite Hnone in Hc.
Qed.

(** ** The state and the catalog *)

Lemma root_reads d key s :
  root_is d key s → ∃ i, am_get (sd_document d) am_root key = Ok (Some (AmScalar s, i)).
Proof.
  intros [i Hi]. destruct (am_get_law (sd_document d) am_root key (am_root_law _)) as (r & Hr & Hv).
  unfold root in Hi. rewrite Hi in Hv. destruct Hv as (v & ->%list_elem_of_singleton & ->). by exists i.
Qed.

(** The root of a document says the state, and the catalog. *)
Definition says_state (d : SecretDocument) (s : PersonalSyncState) : Prop :=
  ∃ b, serde_to_vec s = Ok b ∧ Z.of_nat (length b) ≤ MAX_STATE_BYTES
    ∧ root_is d PERSONAL_SYNC (scalar_bytes b).
Definition says_catalog (d : SecretDocument) (c : ReplicaCatalog) : Prop :=
  ∃ b, serde_to_vec c = Ok b ∧ Z.of_nat (length b) ≤ MAX_CATALOG_BYTES
    ∧ root_is d REPLICAS (scalar_bytes b).

(** A catalog that is accepted when it is read. *)
Definition catalog_ok (c : ReplicaCatalog) : Prop :=
  Z.of_nat (size (rc_replicas c)) ≤ 4096 ∧ rc_pending c ⊆ dom (rc_replicas c).

Lemma says_state_read d s :
  document_is_personal d = true → says_state d s → sync_state d = Ok s.
Proof.
  intros Hp (b & Hb & Hlen & [i Hr]%root_reads). unfold sync_state. rewrite Hp, Hr. cbn.
  rewrite into_bytes_law. cbn. apply Z.ltb_ge in Hlen as ->. cbn. by rewrite (serde_roundtrip _ _ Hb).
Qed.

Lemma says_catalog_read d c :
  document_is_personal d = true → catalog_ok c → says_catalog d c → personal_replicas d = Ok c.
Proof.
  intros Hp [Hsize Hpend] (b & Hb & Hlen & [i Hr]%root_reads). unfold personal_replicas.
  rewrite Hp, Hr. cbn. rewrite into_bytes_law. cbn. apply Z.ltb_ge in Hlen as ->. cbn.
  rewrite (serde_roundtrip _ _ Hb). cbn. apply Z.ltb_ge in Hsize as ->. cbn.
  replace (forallb _ _) with true; [done|]. symmetry. apply forallb_forall. intros id Hid.
  apply list_elem_of_In, elem_of_elements, Hpend, elem_of_dom in Hid. by apply bool_decide_eq_true.
Qed.

Lemma personal_replicas_ok d c : personal_replicas d = Ok c → catalog_ok c.
Proof.
  unfold personal_replicas. intros [_ Hc]%then_Ok. apply bind_Ok in Hc as (found & _ & Hc).
  destruct found as [[v i]|]; [|by injection Hc as <-].
  apply bind_Ok in Hc as (b & _ & Hc). apply then_Ok in Hc as [_ Hc].
  apply bind_Ok in Hc as (x & _ & Hc). apply then_Ok in Hc as [Hf [= <-]]. apply fail_if_Ok in Hf.
  bool_prop. destruct Hf as [Hs Hf]. split; [done|].
  rewrite forallb_forall in Hf. intros id Hid.
  apply elem_of_dom. specialize (Hf id). rewrite bool_decide_eq_true in Hf.
  by apply Hf, list_elem_of_In, elem_of_elements.
Qed.

Lemma store_in_ok c id r p c' :
  catalog_ok c → store_in c id r p = Ok c' →
  catalog_ok c' ∧ ∃ b, (save_replica r).1 = Ok b ∧ rc_replicas c' = <[id := b]> (rc_replicas c)
    ∧ rc_pending c' = if p then {[id]} ∪ rc_pending c else rc_pending c.
Proof.
  intros [Hs Hp] Hst. unfold store_in, catalog_store in Hst. apply then_Ok in Hst as [Hf Hst].
  apply bind_Ok in Hst as (b & Hb & [= <-]). apply fail_if_Ok in Hf. cbn.
  assert ((save_replica r).1 = Ok b) as Hsave.
  { change (replica_after save_replica (λ b _, b) r = Ok b) in Hb. unfold replica_after in Hb.
    destruct (save_replica r) as [[x|] r']; [|done]. cbn. by injection Hb as ->. }
  split; [|by exists b]. split; cbn.
  - destruct (rc_replicas c !! id) as [x|] eqn:Hid.
    + by rewrite map_size_insert_Some.
    + rewrite bool_decide_eq_true_2 in Hf by done. cbn in Hf. apply Z.leb_gt in Hf.
      rewrite map_size_insert_None by done. lia.
  - destruct p; set_solver.
Qed.

(** An item that waits to be published goes on waiting, and one that is changed waits. *)
Definition waits (c c' : ReplicaCatalog) (id : string) : Prop :=
  id ∈ rc_pending c' ∨ id ∉ rc_pending c ∧ rc_replicas c' !! id = rc_replicas c !! id.
Definition all_wait (c c' : ReplicaCatalog) : Prop := ∀ id, waits c c' id.

Lemma waits_refl c id : waits c c id.
Proof. destruct (decide (id ∈ rc_pending c)); [by left|by right]. Qed.
Lemma waits_trans c1 c2 c3 id : waits c1 c2 id → waits c2 c3 id → waits c1 c3 id.
Proof.
  intros Ha [Hb|[Hb Hb']]; [by left|]. destruct Ha as [|[Ha Ha']]; [done|]. right. split; congruence.
Qed.

(** A replica that is stored as an edit waits. *)
Lemma stored_waits c c' id b :
  rc_replicas c' = <[id := b]> (rc_replicas c) → rc_pending c' = {[id]} ∪ rc_pending c → all_wait c c'.
Proof.
  intros Hr Hp j. unfold waits. rewrite Hr, Hp. destruct (decide (j = id)) as [->|Hne]; [left; set_solver|].
  rewrite lookup_insert_ne by done. destruct (decide (j ∈ rc_pending c)); [left; set_solver|right; done].
Qed.

Lemma save_sync_state_Ok s d d' :
  document_ok d → save_sync_state s d = (Ok tt, d') →
  keeps_root [FORMAT_VERSION_KEY; PERSONAL_LAYOUT; PERSONAL_SYNC] d d' ∧ says_state d' s
  ∧ document_view d' = document_view d.
Proof.
  intros Hd Hs. unfold save_sync_state in Hs.
  apply sm_bind_Ok in Hs as (b & ? & [Hb ->]%lift_Ok & Hs). apply map_err_Ok in Hb.
  apply sm_bind_Ok in Hs as ([] & ? & [Hlen%fail_if_Ok ->]%lift_Ok & Hs). apply Z.ltb_ge in Hlen.
  apply sm_bind_Ok in Hs as ([] & d1 & (K1 & _ & V1)%put_root & Hs); [|done].
  apply sm_bind_Ok in Hs as ([] & d2 & (K2 & _ & V2)%put_root & Hs); [|apply K1].
  apply put_root in Hs as (K3 & R3 & V3); [|apply K2].
  split_and!; [|by exists b|congruence].
  exact (keeps_root_trans _ _ _ _ _ K1 (keeps_root_trans _ _ _ _ _ K2 K3)).
Qed.

Lemma save_personal_replicas_Ok c d d' :
  document_ok d → save_personal_replicas c d = (Ok tt, d') →
  keeps_root [REPLICAS] d d' ∧ says_catalog d' c ∧ document_view d' = document_view d.
Proof.
  intros Hd Hs. unfold save_personal_replicas in Hs.
  apply sm_bind_Ok in Hs as (b & ? & [Hb ->]%lift_Ok & Hs). apply map_err_Ok in Hb.
  apply sm_bind_Ok in Hs as ([] & ? & [Hlen%fail_if_Ok ->]%lift_Ok & Hs). apply Z.ltb_ge in Hlen.
  apply put_root in Hs as (K & R & V); [|done]. split_and!; [done|by exists b|done].
Qed.

(** ** Visible items *)

Lemma put_entry_root d key s d' :
  document_ok d → Document.am_change (λ a, am_put a (sd_entries d) key s) d = (Ok tt, d') →
  keeps_root [] d d'.
Proof.
  intros [Hk Hr] Hc. unfold Document.am_change in Hc.
  destruct (am_put _ _ _ _) as [a|] eqn:Hput; [|discriminate]. injection Hc as <-.
  apply am_put_law in Hput as (Hkn & _ & _ & _ & Hother); [|done].
  split_and!; [split; cbn; [by apply Hkn|done]|done|done|].
  intros k _. unfold root. cbn. rewrite Hother; [done|apply am_root_law|done].
Qed.
Lemma delete_entry_root d key d' :
  document_ok d → Document.am_change (λ a, am_delete a (sd_entries d) key) d = (Ok tt, d') →
  keeps_root [] d d'.
Proof.
  intros [Hk Hr] Hc. unfold Document.am_change in Hc.
  destruct (am_delete _ _ _) as [a|] eqn:Hdel; [|discriminate]. injection Hc as <-.
  apply am_delete_law in Hdel as (Hkn & _ & _ & _ & Hother); [|done].
  split_and!; [split; cbn; [by apply Hkn|done]|done|done|].
  intros k _. unfold root. cbn. rewrite Hother; [done|apply am_root_law|done].
Qed.

Lemma put_value_shown a b ctx d d' :
  document_ok d → document_is_personal d = true →
  put_value_uncommitted a b None ctx false d = (Ok tt, d') →
  keeps_root [PERSONAL_LAYOUT] d d'
  ∧ document_view d' = apply_operation (document_view d) (DocumentOperation.Put a b None).
Proof.
  intros Hd Hp Hput. unfold put_value_uncommitted in Hput.
  apply sm_bind_Ok in Hput as ([] & d1 & Hv & Hput). unfold validate_personal_put in Hv.
  rewrite Hp in Hv. cbn [negb] in Hv. apply sm_bind_Ok in Hv as (item & ? & [_ ->]%lift_Ok & Hv).
  apply sm_bind_Ok in Hv as ([] & ? & [_ ->]%lift_Ok & Hv).
  apply put_root in Hv as (K1 & _ & V1); [|done].
  apply sm_bind_Ok in Hput as (found & ? & [= _ <-] & Hput).
  apply sm_bind_Ok in Hput as (version & ? & [= _ <-] & Hput).
  apply sm_bind_Ok in Hput as (bs & ? & [Hb ->]%lift_Ok & Hput). apply map_err_Ok in Hb.
  apply sm_bind_Ok in Hput as ([] & d2 & Hc & Hput). unfold stateful in Hc.
  pose proof (put_entry_root _ _ _ _ (proj1 K1) Hc) as K2.
  apply put_entry in Hc as (id & Hw); [|apply K1].
  apply sm_bind_Ok in Hput as ([] & ? & Hrev & Hput). rewrite andb_false_r in Hrev.
  injection Hrev as <-.
  assert (keeps_root [] d2 d' ∧ document_view d' = document_view d2) as [K3 V3].
  { unfold stateful in Hput. destruct (_ || _); injection Hput as <-; (split; [|done]);
      exact (keeps_root_refl d2 (proj1 K2)). }
  split.
  - exact (keeps_root_trans _ _ _ _ _ K1 (keeps_root_trans _ _ _ _ _ K2 K3)).
  - rewrite V3, (view_with _ _ _ Hw), omap_insert. erewrite cell_of_saved by done.
    by rewrite <- V1.
Qed.

Lemma delete_value_shown a op r d d' :
  document_ok d → delete_value_uncommitted a op false d = (Ok r, d') →
  keeps_root [] d d' ∧ document_view d' = apply_operation (document_view d) (DocumentOperation.Delete a).
Proof.
  intros Hd Hdel. unfold delete_value_uncommitted in Hdel.
  apply sm_bind_Ok in Hdel as (found & ? & [= Hf <-] & Hdel). apply records_view in Hf; [|done].
  destruct found as [|x rs].
  - injection Hdel as _ <-. split; [by apply keeps_root_refl|]. cbn. by rewrite delete_id by apply Hf.
  - apply sm_bind_Ok in Hdel as ([] & d1 & Hc & Hdel). unfold stateful in Hc.
    pose proof (delete_entry_root _ _ _ Hd Hc) as K1. apply delete_entry in Hc; [|done].
    apply sm_bind_Ok in Hdel as ([] & ? & [= <-] & Hdel).
    apply sm_bind_Ok in Hdel as ([] & d2 & [= <-] & [= _ <-]).
    split; [done|]. cbn. by apply view_delete in Hc.
Qed.

(** The visible record of an item: the first value of its replica that is an item. *)
Definition shown (id : string) (values : list (option Personal.PersonalSecret)) (v v' : DocumentView)
    : Prop :=
  let a := Local id None in
  match first_item values with
  | Some item => ∃ b, item_encode item = Ok b
      ∧ v' = apply_operation v (DocumentOperation.Put a b None)
  | None => v' = apply_operation v (DocumentOperation.Delete a)
  end.

Lemma materialized id values ctx d d' :
  document_ok d → document_is_personal d = true →
  materialize_sync_value id values ctx d = (Ok tt, d') →
  keeps_root [PERSONAL_LAYOUT] d d' ∧ shown id values (document_view d) (document_view d').
Proof.
  intros Hd Hp Hm. unfold materialize_sync_value in Hm.
  apply sm_bind_Ok in Hm as (a & ? & [Ha ->]%lift_Ok & Hm). unfold address_new in Ha.
  apply then_Ok in Ha as [_ [= <-]]. unfold shown. destruct (first_item values) as [item|].
  - apply sm_bind_Ok in Hm as (b & ? & [Hb ->]%lift_Ok & Hm). apply map_err_Ok in Hb.
    apply put_value_shown in Hm as [K V]; [|done..]. split; [done|]. by exists b.
  - apply sm_bind_Ok in Hm as (r & d1 & Hdel & [= <-]).
    apply delete_value_shown in Hdel as [K V]; [|done]. split; [|done].
    destruct K as (? & ? & ? & Hr). split_and!; [done..|]. intros key _. apply Hr, not_elem_of_nil.
Qed.

(** ** Whole changes *)

(** A change set that runs one step and then finishes: what its reload has. *)
Lemma saved_reloads {A} (m : DM A) d mutation d' (P : SecretDocument → Prop) :
  document_ok d → document_is_personal d = true →
  transact (_ ← m; finish_mutation) d = (Ok mutation, d') →
  (∀ d0 a d1, document_ok d0 → sd_kind d0 = sd_kind d → sd_partition d0 = sd_partition d →
     document_view d0 = document_view d → root d0 = root d → m d0 = (Ok a, d1) →
     document_ok d1 ∧ sd_kind d1 = sd_kind d ∧ sd_partition d1 = sd_partition d
     ∧ ∀ d2, document_is_personal d2 = true → document_view d2 = document_view d1 →
         metadata_kept d1 d2 → P d2) →
  finished d mutation
  ∧ reloads mutation (sd_kind d) (sd_partition d) (λ d2, document_ok d2
    ∧ sd_kind d2 = sd_kind d ∧ sd_partition d2 = sd_partition d ∧ P d2).
Proof.
  intros Hd Hp Ht Hm. pose proof Hd as [Hkn Hne].
  unfold transact in Ht. destruct ((m ≫= _) _) as [[x|e] d3] eqn:Hrun; [|discriminate].
  injection Ht as -> ->. apply sm_bind_Ok in Hrun as (a & d1 & Ha & Hf).
  destruct (am_commit_law (sd_document d)) as ((Hck & Hcv) & _).
  apply Hm in Ha as (Hd1 & Hk1 & Hp1 & HP); try done.
  - split; [by eapply finished_same, finish_finished|].
    apply finish_reloads in Hf; [|done|unfold document_is_personal in *; by rewrite Hk1, Hp1].
    rewrite Hk1, Hp1 in Hf. intros actor e He.
    destruct (Hf actor e He) as (d2 & Hl & Hd2 & Hper & Hk & Hpart & Hv & Hr).
    exists d2. split; [done|]. split_and!; try done. by apply HP.
  - split; cbn; [by apply Hck|done].
  - unfold document_view, entries. cbn. by rewrite Hcv.
  - unfold root. cbn. apply Hcv, am_root_law.
Qed.

(** Keys of the root that are not touched by a step. *)
Ltac key_out := by apply (bool_decide_unpack _).

(** Saving the state and the catalog: what is read after. *)
Lemma saved_state_reloads {A} (first : DM A) s c d m d' (Q : DocumentView → Prop) :
  document_ok d → document_is_personal d = true → catalog_ok c →
  transact (_ ← first; _ ← save_sync_state s; _ ← save_personal_replicas c; finish_mutation) d
    = (Ok m, d') →
  (∀ d0 a d1, document_ok d0 → document_is_personal d0 = true →
     document_view d0 = document_view d → first d0 = (Ok a, d1) →
     keeps_root [PERSONAL_LAYOUT] d0 d1 ∧ Q (document_view d1)) →
  finished d m
  ∧ reloads m (sd_kind d) (sd_partition d) (λ d2, document_ok d2
    ∧ sd_kind d2 = sd_kind d ∧ sd_partition d2 = sd_partition d
    ∧ document_is_personal d2 = true ∧ says_state d2 s ∧ says_catalog d2 c
    ∧ Q (document_view d2)).
Proof.
  intros Hd Hp Hc Ht Hfirst.
  apply (saved_reloads (_ ← first; _ ← save_sync_state s; save_personal_replicas c) d m d'); try done.
  { rewrite <- Ht. unfold transact. unfold mbind, sm_bind.
    destruct (first _) as [[a|e] d1]; [|done]. destruct (save_sync_state s d1) as [[[]|e] d2]; [|done].
    by destruct (save_personal_replicas c d2) as [[[]|e] d3]. }
  intros d0 [] d1 Hd0 Hk0 Hp0 Hv0 _ Hrun.
  apply sm_bind_Ok in Hrun as (a & da & Ha & Hrun). apply sm_bind_Ok in Hrun as ([] & db & Hb & Hrun).
  apply Hfirst in Ha as [Ka Qa]; [|done|unfold document_is_personal in *; by rewrite Hk0, Hp0|done].
  apply save_sync_state_Ok in Hb as (Kb & Sb & Vb); [|apply Ka].
  apply save_personal_replicas_Ok in Hrun as (Kc & Sc & Vc); [|apply Kb].
  destruct Ka as (_ & Ka1 & Ka2 & _), Kc as (Hok & Kc1 & Kc2 & Kc3).
  pose proof Kb as (_ & Kb1 & Kb2 & _). split_and!; [done|congruence|congruence|].
  intros d2 Hper Hv2 Hr2.
  split_and!; [done| | |by rewrite Hv2, Vc, Vb].
  - destruct Sb as (b & Hb & Hlen & i & Hi). exists b. split_and!; [done..|].
    apply Hr2; [key_out|]. exists i. rewrite Kc3; [done|key_out].
  - destruct Sc as (b & Hb & Hlen & Hroot). exists b. split_and!; [done..|].
    apply Hr2; [key_out|done].
Qed.

(** What is saved of sync is what is loaded. *)
Theorem saved_sync_state_loads s c d m d' :
  document_ok d → document_is_personal d = true → catalog_ok c →
  update_sync_state s c d = (Ok m, d') →
  finished d m ∧ reloads m (sd_kind d) (sd_partition d) (λ d2,
    document_is_personal d2 = true ∧ says_state d2 s ∧ says_catalog d2 c
    ∧ document_view d2 = document_view d).
Proof.
  intros Hd Hp Hc Hu.
  destruct (saved_state_reloads (mret () : DM ()) s c d m d' (eq (document_view d)) Hd Hp Hc) as [Hf Hr].
  - rewrite <- Hu. reflexivity.
  - intros d0 a d1 Hd0 _ Hv [= _ <-]. split; [|done]. split_and!; done.
  - split; [done|]. intros actor e He. destruct (Hr actor e He) as (d2 & Hl & _ & _ & _ & Hper & Hs & Hc2 & Hv).
    exists d2. split_and!; done.
Qed.

Lemma replica_call_Ok {A} (m : SM Replica.PersonalReplica A) r a r' :
  replica_call m r = Ok (a, r') → m r = (Ok a, r').
Proof. unfold replica_call, replica_after. destruct (m r) as [[x|e] r1]; [|done]. by intros [= -> ->]. Qed.

(** A replica that says no more than an update it was given. *)
Definition overtaken (r : Replica.PersonalReplica) (u : PersonalUpdate) : Prop :=
  ∃ incoming h, update_replica u = Ok incoming ∧ (replica_heads incoming).1 = Ok h
    ∧ (replica_heads r).1 = Ok h.
(** The replica is the stored one of the item, or a new one, merged with the update. *)
Definition merge_of (u : PersonalUpdate) (r : Replica.PersonalReplica) (c0 : ReplicaCatalog) : Prop :=
  ∃ actor before changed merged,
    (load_from c0 (pu_item_id u) actor = Ok (Some before)
     ∨ load_from c0 (pu_item_id u) actor = Ok None ∧ replica_create (pu_item_id u) actor = Ok before)
    ∧ merge_replica u before = (Ok changed, merged) ∧ r = (replica_heads merged).2.
(** The catalog in which the merged replica of an update is stored. *)
Definition merged_into (u : PersonalUpdate) (r : Replica.PersonalReplica) (c0 c : ReplicaCatalog) : Prop :=
  merge_of u r c0 ∧ ∃ b, (save_replica r).1 = Ok b ∧ rc_replicas c = <[pu_item_id u := b]> (rc_replicas c0)
    ∧ ∀ id, id ∈ rc_pending c0 → id ∈ rc_pending c ∨ id = pu_item_id u ∧ overtaken r u.

(** A merge stores the merged replica, whose values are those given. *)
Lemma merge_update_Ok d u changed values heads c :
  merge_update d u = Ok (changed, values, heads, c) →
  catalog_ok c ∧ ∃ c0 r, personal_replicas d = Ok c0 ∧ rp_id r = pu_item_id u
    ∧ values_of r = Ok values ∧ merged_into u r c0 c.
Proof.
  unfold merge_update. intros (c0 & Hc & Hm)%bind_Ok. apply personal_replicas_ok in Hc as Hc0.
  apply bind_Ok in Hm as (found & Hfound & Hm). apply bind_Ok in Hm as (fresh & Hfresh & Hm).
  apply bind_Ok in Hm as ([b r1] & Hmerge%replica_call_Ok & Hm).
  apply bind_Ok in Hm as (vs & Hvs & Hm). apply bind_Ok in Hm as (incoming & Hinc & Hm).
  apply bind_Ok in Hm as ([h i1] & Hi%replica_call_Ok & Hm).
  apply bind_Ok in Hm as ([h1 r2] & Hh%replica_call_Ok & Hm).
  apply bind_Ok in Hm as ([h2 i2] & Hi2%replica_call_Ok & Hm).
  apply bind_Ok in Hm as (c2 & Hst & [= <- <- <- <-]).
  assert (merge_of u r2 c0) as Hof.
  { exists (am_actor (sd_document d)), (default fresh found), b, r1. split_and!.
    - destruct found as [f|]; [by left|by right].
    - unfold replica_call in *. destruct (merge_replica u (default fresh found)) as [x y].
      cbn in *. congruence.
    - by rewrite Hh. }
  pose proof (keeps_values_heads r1) as [Hv2 Hid2]. rewrite Hh in Hv2, Hid2. cbn in Hv2, Hid2.
  pose proof (merged_replica_readable _ _ _ _ Hmerge) as (Hu & Hid & _).
  apply heads_again in Hh. pose proof (heads_again _ _ _ Hi) as Ha. rewrite Hi2 in Ha. cbn in Ha.
  injection Ha as ->.
  assert (catalog_ok (if bool_decide (h1 = h) then pending_remove (pu_item_id u) c0 else c0)) as Hc1.
  { destruct (bool_decide _); [|done]. destruct Hc0. split; cbn; [done|]. set_solver. }
  apply store_in_ok in Hst as (Hc2 & b' & Hb' & Hr & Hp); [|done]. split; [done|].
  exists c0, r2. split_and!; [done|congruence|congruence|]. split; [done|]. exists b'. split; [done|].
  case_bool_decide as Heq; (split; [by rewrite Hr|]); intros id Hin; rewrite Hp; [|by left].
  destruct (decide (id = pu_item_id u)) as [->|Hne]; [right|left; cbn; set_solver].
  split; [done|]. exists incoming, h. split_and!; [done|by rewrite Hi|congruence].
Qed.

(** A packet that was received is in the receipts, and receiving it again changes nothing. *)
Definition recorded (s : PersonalSyncState) (packet : bytes) (id : string) : Prop :=
  ∃ receipt, receipt ∈ ys_receipts s ∧ rx_packet receipt = packet ∧ rx_item_id receipt = id.

Lemma recorded_duplicate d s packet id update ctx :
  sync_state d = Ok s → recorded s packet id →
  receive_personal packet update ctx d = (Ok (ReceiveOutcome.Duplicate, None), d).
Proof.
  intros Hs (receipt & Hin & Hp & _). unfold receive_personal, reading, mbind, sm_bind.
  rewrite Hs. replace (existsb _ _) with true; [done|]. symmetry. apply existsb_exists.
  exists receipt. split; [by apply list_elem_of_In|]. by apply bool_decide_eq_true.
Qed.

(** An update that is received is recorded with its packet and merged into the replica of its
    item, and the record that is shown is the first value of the merged replica that is an
    item; other records stay.  All of it is in every document that loads from what is saved. *)
Theorem received_update_recorded packet u ctx d outcome m d' :
  document_ok d → document_is_personal d = true →
  receive_personal packet u ctx d = (Ok (outcome, Some m), d') →
  ∃ s s' c0 c r values, sync_state d = Ok s ∧ personal_replicas d = Ok c0
  ∧ (∃ receipt, s' = set_receipts (ys_receipts s ++ [receipt]) s) ∧ recorded s' packet (pu_item_id u)
  ∧ rp_id r = pu_item_id u ∧ values_of r = Ok values
  ∧ (outcome = ReceiveOutcome.Conflict → 1 < Z.of_nat (length values))
  ∧ (outcome = ReceiveOutcome.Applied → Z.of_nat (length values) ≤ 1)
  ∧ finished d m ∧ catalog_ok c ∧ merged_into u r c0 c
  ∧ reloads m (sd_kind d) (sd_partition d) (λ d2,
      document_is_personal d2 = true ∧ says_state d2 s' ∧ says_catalog d2 c
      ∧ match outcome with
        | ReceiveOutcome.Duplicate => document_view d2 = document_view d
        | _ => shown (pu_item_id u) values (document_view d) (document_view d2)
        end).
Proof.
  intros Hd Hp Hr. unfold receive_personal in Hr.
  apply sm_bind_Ok in Hr as (state & ? & [= Hs <-] & Hr). destruct (existsb _ _); [discriminate|].
  apply sm_bind_Ok in Hr as ([] & ? & [_ ->]%lift_Ok & Hr).
  apply sm_bind_Ok in Hr as ([[[changed values] heads] c] & ? & [= Hm <-] & Hr).
  apply sm_bind_Ok in Hr as (mutation & d1 & Ht & Hr). injection Hr as <- <- <-.
  apply merge_update_Ok in Hm as (Hc & c0 & r & Hc0 & Hid & Hv & Hcat).
  destruct (saved_state_reloads _ _ _ _ _ _ (λ v, if changed
      then shown (pu_item_id u) values (document_view d) v else v = document_view d) Hd Hp Hc Ht)
    as [Hf Hre].
  { intros d0 a da Hd0 Hp0 Hv0 Ha. destruct changed.
    - destruct a. rewrite <- Hv0. by eapply materialized.
    - injection Ha as _ <-. by split. }
  set (receipt := {| rx_packet := packet; rx_item_id := _; rx_heads := heads |}) in *.
  exists state, (set_receipts (ys_receipts state ++ [receipt]) state), c0, c, r, values.
  split; [done|]. split; [done|]. split; [by exists receipt|]. split.
  { exists receipt. split_and!; [cbn; apply elem_of_app; right; by left|done|done]. }
  split_and!; [done|done| | |done|done|done|].
  { destruct changed; cbn; [|done]. destruct (1 <? _) eqn:Hl; [|done]. by apply Z.ltb_lt in Hl. }
  { destruct changed; cbn; [|done]. destruct (1 <? _) eqn:Hl; [done|]. by apply Z.ltb_ge in Hl. }
  intros actor e He. destruct (Hre actor e He) as (d2 & Hl & _ & _ & _ & Hper & Hs2 & Hr2 & Hv2).
  exists d2. split_and!; [done..|].
  destruct changed; cbn; [|done]. by destruct (1 <? _).
Qed.

(** A resolution is of a conflict whose heads were named; after it the item that was chosen is
    the only value of the replica, is shown, and waits to be published. *)
Theorem resolved_conflict_settles id expected item ctx d m d' :
  document_ok d → document_is_personal d = true →
  (∀ i, item = Some i → has_storage_id i = true) →
  resolve_personal id expected item ctx d = (Ok m, d') →
  ∃ r before r' b c0 c, sync_replica d id = Ok r ∧ personal_replicas d = Ok c0 ∧ values_of r = Ok before ∧ (2 ≤ length before)%nat
  ∧ (replica_heads r).1 = Ok expected ∧ values_of r' = Ok [item] ∧ (save_replica r').1 = Ok b
  ∧ finished d m ∧ catalog_ok c ∧ rc_replicas c !! id = Some b ∧ id ∈ rc_pending c
  ∧ all_wait c0 c
  ∧ reloads m (sd_kind d) (sd_partition d) (λ d2,
      document_is_personal d2 = true ∧ says_catalog d2 c
      ∧ (∀ s, root_is d PERSONAL_SYNC s → root_is d2 PERSONAL_SYNC s)
      ∧ (root d !! PERSONAL_SYNC = None → root d2 !! PERSONAL_SYNC = None)
      ∧ shown id [item] (document_view d) (document_view d2)).
Proof.
  intros Hd Hp Hid Hr. unfold resolve_personal in Hr.
  apply sm_bind_Ok in Hr as ([values c] & ? & [= Hread <-] & Ht).
  apply bind_Ok in Hread as (r & Hrep & Hread). apply bind_Ok in Hread as (before & Hbefore & Hread).
  apply then_Ok in Hread as [Hlen%fail_if_Ok Hread]. apply Z.ltb_ge in Hlen.
  apply bind_Ok in Hread as ([[] r'] & Hset%replica_call_Ok & Hread).
  apply bind_Ok in Hread as (c0 & Hcat & Hread). pose proof (personal_replicas_ok _ _ Hcat) as Hc0.
  apply bind_Ok in Hread as (vs & Hvs & Hread). apply bind_Ok in Hread as (c1 & Hst & [= <- <-]).
  apply set_replica_values in Hset as (Hv' & _ & Hheads); [|done].
  rewrite Hv' in Hvs. injection Hvs as <-.
  apply store_in_ok in Hst as (Hc & b & Hb & Hrep' & Hpend); [|done].
  destruct (saved_reloads (_ ← materialize_sync_value id [item] ctx; save_personal_replicas c1)
    d m d' (λ d2, document_is_personal d2 = true ∧ says_catalog d2 c1
      ∧ (∀ s, root_is d PERSONAL_SYNC s → root_is d2 PERSONAL_SYNC s)
      ∧ (root d !! PERSONAL_SYNC = None → root d2 !! PERSONAL_SYNC = None)
      ∧ shown id [item] (document_view d) (document_view d2)))
    as [Hf Hre]; [done|done| | |].
  { rewrite <- Ht. unfold transact, mbind, sm_bind.
    destruct (materialize_sync_value id [item] ctx _) as [[[]|x] d1]; [|done].
    by destruct (save_personal_replicas c1 d1) as [[[]|x] d2]. }
  { intros d0 [] d1 Hd0 Hk0 Hp0 Hv0 Hr0 Hrun. apply sm_bind_Ok in Hrun as ([] & da & Ha & Hrun).
    apply materialized in Ha as [Ka Sa]; [|done|unfold document_is_personal in *; by rewrite Hk0, Hp0].
    apply save_personal_replicas_Ok in Hrun as (Kc & Sc & Vc); [|apply Ka].
    pose proof (keeps_root_trans _ _ _ _ _ Ka Kc) as (_ & _ & _ & Kr).
    destruct Ka as (_ & Ka1 & Ka2 & _), Kc as (Hok & Kc1 & Kc2 & _).
    split_and!; [done|congruence|congruence|]. intros d2 Hper Hv2 Hroot.
    assert (root d1 !! PERSONAL_SYNC = root d !! PERSONAL_SYNC) as Hsync
      by (rewrite <- Hr0; apply Kr; key_out).
    destruct (Hroot PERSONAL_SYNC ltac:(key_out)) as [Hsome Hnone].
    unfold root_is in Hsome. rewrite Hsync in Hsome, Hnone.
    split_and!; [done| |done|done|by rewrite Hv2, Vc, <- Hv0].
    destruct Sc as (x & Hx & Hxl & Hxr). exists x. split_and!; [done..|]. apply Hroot; [key_out|done]. }
  exists r, before, r', b, c0, c1. split_and!; try done; [lia| | | |].
  - by rewrite Hrep', lookup_insert_eq.
  - rewrite Hpend. set_solver.
  - by eapply stored_waits.
  - intros actor e He. destruct (Hre actor e He) as (d2 & Hl & _ & _ & _ & Hall). by exists d2.
Qed.
End SyncDocumentProofs.
