(* ===== verification/SyncEdits.v ===== *)
(** Edits of personal items between sync commands: they keep the state of sync, and an item
    that is changed or removed waits to be published. *)
From Stdlib Require Import ZArith Lia Bool.
From stdpp Require Import base numbers gmap strings list relations.
From S2P Require Import Prelude Text Chars Core Address Wire KeyringIndex History StoreSpec Signature.
From S2P Require Import Protocol Manifest Envelope Automerge Document DocumentProofs DocumentAtomic Database.
From S2P Require Import Worker WorkerReads WorkerCommit WorkerViews WorkerStore.
From S2P Require Import Website Totp Personal PersonalLegacy Replica PersonalStore.
From S2P Require Import SyncIdentity SyncGroup SyncMembers SyncPairing SyncPacket SyncState SyncDocument.

Section Edits.
Context `{Base64Standard} `{Serde EncodedUpdate} `{SerdeOk Personal.PersonalSecret}.
Context `{AutomergeChanges} `{!AutomergeOk} `{!AutomergeChangesOk}.
Context `{Sha256} `{Base64} `{SerdeOk SecretRecord} `{SerdeOk ReplicaCatalog} `{Serde RecordDeadline}.
Context `{!RecordSerdeOk} `{!DeadlineSerdeOk} `{SerdeOk PersonalSyncState}.
Abbreviation DM := (SM SecretDocument).

(** ** What a document says of sync *)

Definition catalog_at (d : SecretDocument) (c : ReplicaCatalog) : Prop :=
  (says_catalog d c ∨ root d !! REPLICAS = None ∧ c = catalog_default) ∧ catalog_ok c.
Definition state_at (d : SecretDocument) (s : PersonalSyncState) : Prop :=
  says_state d s ∨ root d !! PERSONAL_SYNC = None ∧ s = sync_state_default.
Definition says (d : SecretDocument) (s : PersonalSyncState) (c : ReplicaCatalog) : Prop :=
  state_at d s ∧ catalog_at d c.

Lemma root_absent d key :
  root d !! key = None → am_get (sd_document d) am_root key = Ok None.
Proof.
  intros Hn. destruct (am_get_law (sd_document d) am_root key (am_root_law _)) as (r & Hr & Hv).
  unfold root in Hn. rewrite Hn in Hv. by subst.
Qed.

Lemma catalog_read d c :
  document_is_personal d = true → catalog_at d c → personal_replicas d = Ok c.
Proof.
  intros Hp [[Hc|[Hn ->]] Hok]; [by apply says_catalog_read|]. unfold personal_replicas.
  by rewrite Hp, (root_absent _ _ Hn).
Qed.

Lemma says_read d s c :
  document_is_personal d = true → says d s c → sync_state d = Ok s ∧ personal_replicas d = Ok c.
Proof.
  intros Hp (Hs & Hc). split; [|by apply catalog_read].
  destruct Hs as [Hs|[Hn ->]]; [by apply says_state_read|]. unfold sync_state.
  by rewrite Hp, (root_absent _ _ Hn).
Qed.

(** ** Edits *)

(** A step of the document that leaves the state of sync, and lets its items wait. *)
Definition edited (d d' : SecretDocument) : Prop :=
  document_ok d' ∧ sd_kind d' = sd_kind d ∧ sd_partition d' = sd_partition d
  ∧ root d' !! PERSONAL_SYNC = root d !! PERSONAL_SYNC
  ∧ ∀ c, catalog_at d c → ∃ c', catalog_at d' c' ∧ all_wait c c'.

Lemma edited_personal d d' : edited d d' → document_is_personal d' = document_is_personal d.
Proof. intros (_ & Hk & Hp & _). unfold document_is_personal. by rewrite Hk, Hp. Qed.

Lemma edited_trans d1 d2 d3 : edited d1 d2 → edited d2 d3 → edited d1 d3.
Proof.
  intros (_ & Hk & Hp & Hr & Hc) (Hok & Hk' & Hp' & Hr' & Hc'). split_and!; [done|congruence..|].
  intros c Hat. destruct (Hc c Hat) as (c1 & Hat1 & Hw). destruct (Hc' c1 Hat1) as (c2 & Hat2 & Hw').
  exists c2. split; [done|]. intros id. by eapply waits_trans.
Qed.

(** Steps that leave both. *)
Lemma kept_edited ks d d' :
  keeps_root ks d d' → PERSONAL_SYNC ∉ ks → REPLICAS ∉ ks → edited d d'.
Proof.
  intros (Hok & Hk & Hp & Hr) Hs Hc. split_and!; [done..|by apply Hr|].
  intros c [Hat Hcok]. exists c. split; [|intros id; apply waits_refl]. split; [|done].
  destruct Hat as [(b & Hb & Hl & i & Hi)|[Hn ->]]; [left|right; by rewrite Hr].
  exists b. split_and!; [done..|]. exists i. by rewrite Hr.
Qed.

Definition edits {A} (m : DM A) : Prop :=
  ∀ d a d', document_ok d → document_is_personal d = true → m d = (Ok a, d') → edited d d'.

Lemma edited_refl d : document_ok d → edited d d.
Proof. intros Hd. apply (kept_edited []); [by apply keeps_root_refl|by apply not_elem_of_nil..]. Qed.
Lemma edits_ret {A} (a : A) : edits (mret a).
Proof. intros d x d' Hd _ [= _ <-]. by apply edited_refl. Qed.
Lemma edits_lift {A} (v : VaultResult A) : edits (lift v).
Proof. intros d x d' Hd _ [= _ <-]. by apply edited_refl. Qed.
Lemma edits_reading {A} (f : SecretDocument → VaultResult A) : edits (reading f).
Proof. intros d x d' Hd _ [= _ <-]. by apply edited_refl. Qed.
Lemma edits_bind {A B} (m : DM A) (f : A → DM B) :
  edits m → (∀ a, edits (f a)) → edits (m ≫= f).
Proof.
  intros Hm Hf d b d' Hd Hp (a & d1 & Ha & Hb)%sm_bind_Ok. apply Hm in Ha as He; [|done..].
  eapply edited_trans; [exact He|]. eapply Hf; [apply He| |done]. by rewrite (edited_personal _ _ He).
Qed.
Lemma edits_pending p : edits (push_pending p).
Proof. intros d a d' Hd _ [= _ <-]. by apply (edited_refl d). Qed.

Lemma edits_put_root key s :
  key ≠ PERSONAL_SYNC → key ≠ REPLICAS → edits (Document.am_change (λ a, am_put a am_root key s)).
Proof.
  intros Hs Hc d [] d' Hd _ (Hk & _ & _)%put_root; [|done].
  apply (kept_edited [key]); [done|by rewrite list_elem_of_singleton..].
Qed.
Lemma edits_put_entry key s : edits (λ d, Document.am_change (λ a, am_put a (sd_entries d) key s) d).
Proof.
  intros d [] d' Hd _ Hk%put_entry_root; [|done]. by apply (kept_edited []); [|apply not_elem_of_nil..].
Qed.
Lemma edits_delete_entry key : edits (λ d, Document.am_change (λ a, am_delete a (sd_entries d) key) d).
Proof.
  intros d [] d' Hd _ Hk%delete_entry_root; [|done]. by apply (kept_edited []); [|apply not_elem_of_nil..].
Qed.

Create HintDb edits.
#[local] Hint Resolve edits_ret edits_lift edits_reading edits_pending edits_put_entry
  edits_delete_entry : edits.
Ltac edits := repeat first [progress eauto 2 with edits|apply edits_bind; [|intros ?]|case_match].

(** The replica that is saved waits to be published. *)
Lemma record_change_edits a deleted : edits (record_personal_change a deleted).
Proof.
  intros d [] d' Hd Hp Hr. unfold record_personal_change in Hr. rewrite Hp in Hr. cbn [negb] in Hr.
  do 2 apply sm_bind_Ok in Hr as (? & ? & [_ ->]%lift_Ok & Hr).
  apply sm_bind_Ok in Hr as (c & ? & [= Hc <-] & Hr). cbv zeta in Hr.
  apply sm_bind_Ok in Hr as (found & ? & [Hfound ->]%lift_Ok & Hr).
  apply sm_bind_Ok in Hr as (fresh & ? & [_ ->]%lift_Ok & Hr).
  apply sm_bind_Ok in Hr as (item & d1 & Hi & Hr).
  assert (d1 = d) as ->.
  { destruct deleted; [by injection Hi as _ <-|]. apply sm_bind_Ok in Hi as (? & ? & [= _ <-] & Hi).
    do 2 apply sm_bind_Ok in Hi as (? & ? & [_ ->]%lift_Ok & Hi). by injection Hi as _ <-. }
  apply sm_bind_Ok in Hr as (r & ? & [Hset ->]%lift_Ok & Hr).
  apply sm_bind_Ok in Hr as (c' & ? & [Hst ->]%lift_Ok & Hr).
  apply personal_replicas_ok in Hc as Hcok.
  change (store_in c x.1 r true = Ok c') in Hst.
  apply store_in_ok in Hst as (Hcok' & b & _ & Hreps & Hpend); [|done]; cbn in Hpend.
  apply save_personal_replicas_Ok in Hr as (K & Sc & _); [|done].
  destruct K as (Hok & Hk & Hpart & Hroot). split_and!; [done..|by apply Hroot; rewrite list_elem_of_singleton|].
  intros c0 Hat. rewrite (catalog_read _ _ Hp Hat) in Hc. injection Hc as ->.
  exists c'. split; [split; [by left|done]|]. by eapply stored_waits.
Qed.
#[local] Hint Resolve record_change_edits : edits.

Lemma validate_put_edits a b e : edits (validate_personal_put a b e).
Proof.
  intros d x d' Hd Hp Hr. unfold validate_personal_put in Hr. rewrite Hp in Hr. cbn [negb] in Hr.
  do 2 apply sm_bind_Ok in Hr as (? & ? & [_ ->]%lift_Ok & Hr).
  by eapply edits_put_root in Hr.
Qed.
#[local] Hint Resolve validate_put_edits : edits.

(** A step on the entries, as the handlers run it. *)
Lemma edits_stateful {A} (f : SecretDocument → DM A) : edits (λ d, f d d) → edits (stateful (λ d, f d d)).
Proof. done. Qed.
Lemma edits_pending_if (c : SecretDocument → bool) p :
  edits (stateful (λ d, if c d then push_pending p d else (Ok tt, d))).
Proof.
  intros d a d' Hd Hp Ha. unfold stateful in Ha. destruct (c d); [by eapply edits_pending|].
  injection Ha as _ <-. by apply edited_refl.
Qed.
#[local] Hint Resolve edits_pending_if : edits.

Lemma put_edits a b e ctx : edits (put_uncommitted a b e ctx).
Proof.
  unfold put_uncommitted, put_value_uncommitted. apply edits_bind; [edits|intros _].
  apply edits_bind; [edits|intros _]. cbv zeta. do 3 (apply edits_bind; [edits|intros ?]).
  apply edits_bind; [apply edits_put_entry|intros _]. apply edits_bind; [edits|intros _].
  apply (edits_pending_if (λ d, _)).
Qed.
Lemma delete_edits a op : edits (delete_uncommitted a op).
Proof.
  unfold delete_uncommitted, delete_value_uncommitted. apply edits_bind; [edits|intros _].
  cbv zeta. apply edits_bind; [edits|intros [|r rs]]; [edits|].
  apply edits_bind; [apply edits_delete_entry|intros _]. edits.
Qed.
#[local] Hint Resolve put_edits delete_edits : edits.
Lemma apply_all_edits ops ctx c : edits (apply_all ops ctx c).
Proof. revert c. induction ops as [|[a b e|a] ops IH]; intros c; cbn [apply_all]; edits. Qed.

Lemma clear_keys_edits keys : edits (clear_keys keys).
Proof. induction keys as [|key keys IH]; cbn [clear_keys]; edits. Qed.

(** ** Whole edits *)

(** What a document that loads from an edit says. *)
Definition edit_reloads (d : SecretDocument) (m : DocumentMutation) : Prop :=
  finished d m ∧ reloads m (sd_kind d) (sd_partition d) (λ d2,
    document_is_personal d2 = true
    ∧ ∀ s c, says d s c → ∃ c', says d2 s c' ∧ all_wait c c').

(** What a document says is in its root. *)
Lemma root_says d d' s : root d' !! PERSONAL_SYNC = root d !! PERSONAL_SYNC → state_at d s → state_at d' s.
Proof.
  intros Hr [(b & Hb & Hl & i & Hi)|[Hn ->]]; [left|right; by rewrite Hr].
  exists b. split_and!; [done..|]. exists i. by rewrite Hr.
Qed.
Lemma root_catalog d d' c : root d' !! REPLICAS = root d !! REPLICAS → catalog_at d c → catalog_at d' c.
Proof.
  intros Hr [[(b & Hb & Hl & i & Hi)|[Hn ->]] Hok]; (split; [|done]); [left|right; by rewrite Hr].
  exists b. split_and!; [done..|]. exists i. by rewrite Hr.
Qed.
Lemma kept_says d d' s c : metadata_kept d d' → says d s c → says d' s c.
Proof.
  intros Hk (Hs & Hc & Hok).
  destruct (Hk PERSONAL_SYNC) as [Ss Sn]; [by apply (bool_decide_unpack _)|].
  destruct (Hk REPLICAS) as [Cs Cn]; [by apply (bool_decide_unpack _)|]. split; [|split; [|done]].
  - destruct Hs as [(b & Hb & Hl & Hr)|[Hn ->]]; [left; exists b; split_and!; by auto|right; by auto].
  - destruct Hc as [(b & Hb & Hl & Hr)|[Hn ->]]; [left; exists b; split_and!; by auto|right; by auto].
Qed.

Lemma edit_saved {A} (m : DM A) d mutation d' :
  document_ok d → document_is_personal d = true → edits m →
  transact (_ ← m; finish_mutation) d = (Ok mutation, d') → edit_reloads d mutation.
Proof.
  intros Hd Hp He Ht. destruct (saved_reloads m d mutation d' (λ d2,
    document_is_personal d2 = true
    ∧ ∀ s c, says d s c → ∃ c', says d2 s c' ∧ all_wait c c') Hd Hp Ht) as [Hf Hre].
  - intros d0 a d1 Hd0 Hk0 Hp0 _ Hr0 Hrun.
    apply He in Hrun as (Hok & Hk & Hpart & Hroot & Hcat);
      [|done|unfold document_is_personal in *; by rewrite Hk0, Hp0].
    split_and!; [done|congruence..|]. intros d2 Hper _ Hkept. split; [done|].
    intros s c [Hs Hc]. destruct (Hcat c) as (c' & Hc' & Hw); [eapply root_catalog, Hc; by rewrite Hr0|].
    exists c'. split; [|done]. eapply kept_says; [exact Hkept|]. split; [|done].
    eapply root_says, Hs. by rewrite Hroot, Hr0.
  - split; [done|]. intros actor e Hexp. destruct (Hre actor e Hexp) as (d2 & Hl & _ & _ & _ & Hx).
    by exists d2.
Qed.

(** Groups and removals, which may have nothing to save. *)
Lemma finish_if_saved {A} (m : DM A) (f : A → bool) d mutation d' :
  transact (a ← m; finish_if (f a)) d = (Ok (Some mutation), d') →
  transact (_ ← m; finish_mutation) d = (Ok mutation, d').
Proof.
  unfold transact, mbind, sm_bind. destruct (m _) as [[a|e] d1]; [|done].
  unfold finish_if. destruct (f a); [|by intros [=]]. unfold mbind, sm_bind.
  by destruct (finish_mutation d1) as [[x|e] d2]; [intros [= -> ->]|].
Qed.

Lemma document_put_edit d a b e ctx m d' :
  document_ok d → document_is_personal d = true →
  document_put a b e ctx d = (Ok m, d') → edit_reloads d m.
Proof. intros Hd Hp Hr. eapply edit_saved; [done..|apply put_edits|exact Hr]. Qed.
Lemma document_apply_edit d ops ctx m d' :
  document_ok d → document_is_personal d = true →
  document_apply ops ctx d = (Ok (Some m), d') → edit_reloads d m.
Proof.
  intros Hd Hp Hr. eapply (finish_if_saved (apply_all ops ctx false) id) in Hr.
  eapply edit_saved; [done..|apply apply_all_edits|exact Hr].
Qed.
Lemma document_remove_edit d a op m d' :
  document_ok d → document_is_personal d = true →
  document_remove a op d = (Ok (Some m), d') → edit_reloads d m.
Proof.
  intros Hd Hp Hr. eapply (finish_if_saved (delete_uncommitted a op) id) in Hr.
  eapply edit_saved; [done..|apply delete_edits|exact Hr].
Qed.
Lemma document_clear_edit d n m d' :
  document_ok d → document_is_personal d = true →
  document_clear d = (Ok (Some (n, m)), d') → edit_reloads d m.
Proof.
  intros Hd Hp Hr. set (keys := am_keys (am_commit (sd_document d)) (sd_entries d)).
  eapply (edit_saved (clear_keys keys)); [done..|apply clear_keys_edits|].
  revert Hr. unfold document_clear, transact. cbn [sd_document sd_entries set_document]. fold keys.
  destruct (bool_decide (keys = [])); [by intros [=]|]. unfold mbind, sm_bind.
  destruct (clear_keys keys _) as [[[]|x] d1]; [|done].
  by destruct (finish_mutation d1) as [[x|x] d2]; [intros [= _ -> ->]|].
Qed.
End Edits.
