(* ===== verification/SyncWorker.v ===== *)
(** The sync commands of the store worker: the identity of the reader, pairing, membership,
    the publication of pending items, the packets that are received, and the conflicts that
    are resolved (src/src/vault/store/worker/sync.rs). *)
From Stdlib Require Import ZArith Lia Bool.
From stdpp Require Import base numbers gmap strings list relations.
From S2P Require Import Prelude Text Chars Core Address Wire KeyringIndex History StoreSpec Signature.
From S2P Require Import Protocol Manifest Envelope Automerge Document DocumentProofs DocumentAtomic Database.
From S2P Require Import Worker Website Totp Personal PersonalLegacy Replica PersonalStore.
From S2P Require Import SyncIdentity SyncGroup SyncMembers SyncPairing SyncPacket SyncState.
From S2P Require Import SyncDocument.

(** ** Commands and replies *)

Module SyncCommand.
Inductive sync_command : Type :=
| Identity
| Group
| PairingStatus
| Pairing (command : PairingCommand.command)
| Membership
| Configure (membership : SyncIdentity.Membership)
| Prepare
| Stored (packet : bytes)
| Receive (packet : bytes)
| Status
| Conflicts (id : string)
| Resolve (id : string) (expected : list bytes) (item : option Personal.PersonalSecret).
End SyncCommand.

Record SyncStatus : Set := {
  st_applied_packets : Z;
  st_conflict_packets : Z;
  st_readers : Z;
  st_pending_publications : Z;
  st_prepared_packet : option bytes;
  st_conflicted_items : Z
}.
Record PairingStatus : Type := {
  pt_introduction : option VerifiedGroup;
  pt_target : option VerifiedGroup;
  pt_invitation : option PairingInvitation;
  pt_request : option PairingRequest;
  pt_joining : bool
}.

(** The replies; those of pairing commands are the replies of [PairingReply]. *)
Module SyncReply.
Inductive sync_reply : Type :=
| Identity (keys : MemberPublicKeys)
| Paired (reply : PairingReply.reply)
| PairingStatus (status : PairingStatus)
| Membership (membership : SyncIdentity.Membership)
| Prepared (packet : option (bytes * SyncIdentity.Membership))
| Received (outcome : ReceiveOutcome.receive_outcome)
| Status (status : SyncStatus)
| Conflicts (conflict : PersonalConflict)
| Done.
End SyncReply.

(** A command answers at once, or saves the state and the catalog and then answers. *)
Module SyncStep.
Inductive sync_step : Type :=
| Return (reply : SyncReply.sync_reply)
| Save (state : PersonalSyncState) (replicas : ReplicaCatalog) (reply : SyncReply.sync_reply).
End SyncStep.

Definition rejected_packet : VaultError.error :=
  VaultError.Protocol "personal sync packet was rejected".

Definition set_reader (r : option WrappedReaderIdentity) (s : PersonalSyncState)
    : PersonalSyncState := {|
  ys_reader := r; ys_pairing := ys_pairing s; ys_membership := ys_membership s;
  ys_prepared := ys_prepared s; ys_receipts := ys_receipts s |}.
Definition set_membership (m : option Membership) (s : PersonalSyncState) : PersonalSyncState := {|
  ys_reader := ys_reader s; ys_pairing := ys_pairing s; ys_membership := m;
  ys_prepared := ys_prepared s; ys_receipts := ys_receipts s |}.
Definition set_prepared (p : option PreparedPublication) (s : PersonalSyncState)
    : PersonalSyncState := {|
  ys_reader := ys_reader s; ys_pairing := ys_pairing s; ys_membership := ys_membership s;
  ys_prepared := p; ys_receipts := ys_receipts s |}.
(** [replicas.pending = replicas.replicas.keys().cloned().collect()]. *)
Definition pend_all (c : ReplicaCatalog) : ReplicaCatalog := {|
  rc_replicas := rc_replicas c; rc_pending := dom (rc_replicas c) |}.

Definition membership_digest (s : PersonalSyncState) : option bytes := ms_digest <$> ys_membership s.
(** [replicas.pending.iter().next()]: the set iterates in order. *)
Definition next_pending (c : ReplicaCatalog) : option string :=
  head (sort_by id (elements (rc_pending c))).

Section SyncWorker.
Context `{Sha256, Base64, MlDsa65, Aes256Gcm, HmacSha256, Signers, Random, Hpke, Base64Standard}.
Context `{Serde EncodedUpdate} `{!SerdeChunks EncodedUpdate} `{Serde Personal.PersonalSecret}.
Context `{AutomergeChanges}.
Context `{Serde SecretRecord, Serde RecordDeadline, Serde ReplicaCatalog}.
Context `{Serde HistoryEntry, Serde HistoryLog, Serde WrappedKey, Serde EncryptedSnapshot}.
Context `{Serde CurrentHead, Serde StateManifest}.
Context `{Serde (list MemberPublicKeys)} `{Serde (Body MembershipWire)}.
Context `{Serde CertificateWire} `{Serde (list CertificateWire)}.
Context `{Serde (MemberId * bytes * bytes * MemberId)}.
Context `{Serde PairingInvitation} `{Serde RequestBody} `{Serde PairingRequest}.
Context `{Serde PacketContext} `{Serde PacketBody} `{Serde Packet} `{Serde PersonalSyncState}.
(** The clock of the system and the draws of the key encapsulation, by the steps taken. *)
Context (unix_time : nat → VaultResult Z) (kem_seed : nat → nat → bytes).
Abbreviation WM := (SM StoreWorker).

Definition read_time : WM Z := λ w, (unix_time (w_tick w), step w).
Definition draws : WM (nat → nat → VaultResult bytes) := λ w, (Ok (random_fill (w_tick w)), step w).

(** A pinned group is verified whenever the state is used, and is the membership. *)
Definition check_pinned (s : PersonalSyncState) : VaultResult () :=
  match ps_group (ys_pairing s) with
  | Some pinned =>
      group ← pinned_verified pinned;
      fail_if (negb (bool_decide (membership_digest s = Some (ms_digest (group_membership group)))))
        not_configured
  | None => Ok tt
  end.

(** The wrapped identity of this reader, made when there is none. *)
Definition ensure_reader (s : PersonalSyncState) : WM PersonalSyncState :=
  match ys_reader s with
  | Some _ => mret s
  | None =>
      draw ← draws;
      identity ← lift (reader_generate (draw 0%nat 64%nat) (draw 1%nat 32%nat));
      wrapped ← reading (λ w, protect_reader (w_secrets w) (vm_installation_id (w_device w))
                  (vm_device_vault_id (w_device w)) identity
                  (draw 2%nat 12%nat) (draw 3%nat 12%nat) (draw 4%nat 12%nat));
      mret (set_reader (Some wrapped) s)
  end.
Definition reader_of (w : StoreWorker) (s : PersonalSyncState) : VaultResult ReaderIdentity :=
  wrapped ← ok_or not_configured (ys_reader s);
  open_reader (w_secrets w) (vm_installation_id (w_device w)) (vm_device_vault_id (w_device w)) wrapped.

(** ** The commands *)

Definition sync_pairing_status (s : PersonalSyncState) : VaultResult SyncStep.sync_step :=
  let p := ys_pairing s in
  target ← opt_try (λ '(_, _, pinned), pinned_verified pinned) (ps_joining p);
  introduction ← opt_try pinned_verified (ps_introduction p);
  Ok (SyncStep.Return (SyncReply.PairingStatus {|
    pt_introduction := introduction; pt_target := target;
    pt_invitation := match ps_invitation p with
                     | Some i => Some i
                     | None => (λ '(i, _, _), i) <$> ps_joining p
                     end;
    pt_request := match ps_joining p with Some (_, r, _) => Some r | None => ps_staged p end;
    pt_joining := bool_decide (is_Some (ps_joining p)) |})).

Definition sync_group (s : PersonalSyncState) : VaultResult SyncStep.sync_step :=
  pinned ← ok_or not_configured (ps_group (ys_pairing s));
  group ← pinned_verified pinned;
  Ok (SyncStep.Return (SyncReply.Paired (PairingReply.Group group))).

(** Whether a command accepts the group that is pinned already. *)
Definition accepts_pinned (s : PersonalSyncState) (c : PairingCommand.command) : VaultResult bool :=
  match c, ps_group (ys_pairing s), ys_reader s with
  | PairingCommand.Accept group, Some pinned, Some _ =>
      verified ← pinned_verified pinned;
      pinned_digest ← group_digest verified;
      digest ← group_digest group;
      Ok (bool_decide (pinned_digest = digest))
  | _, _, _ => Ok false
  end.

Definition sync_pairing (s : PersonalSyncState) (replicas : ReplicaCatalog)
    (c : PairingCommand.command) : WM SyncStep.sync_step :=
  before ← lift (map_err VaultError.InvalidData (serde_to_vec s));
  unchanged ← lift (accepts_pinned s c);
  s ← ensure_reader s;
  identity ← reading (λ w, reader_of w s);
  let previous := membership_digest s in
  now ← read_time;
  draw ← draws;
  '(reply, s) ← lift (pairing_handle identity now
    {| pd_group := draw 0%nat 32%nat; pd_secret := draw 1%nat 32%nat |} s c);
  after ← lift (map_err VaultError.InvalidData (serde_to_vec s));
  mret (if (unchanged : bool) || bool_decide (before = after)
        then SyncStep.Return (SyncReply.Paired reply)
        else if bool_decide (previous = membership_digest s)
        then SyncStep.Save s replicas (SyncReply.Paired reply)
        else SyncStep.Save (set_prepared None s) (pend_all replicas) (SyncReply.Paired reply)).

Definition sync_membership (s : PersonalSyncState) : VaultResult SyncStep.sync_step :=
  membership ← ok_or not_configured (ys_membership s);
  Ok (SyncStep.Return (SyncReply.Membership membership)).

Definition sync_identity (s : PersonalSyncState) (replicas : ReplicaCatalog)
    : WM SyncStep.sync_step :=
  match ys_reader s with
  | Some _ =>
      identity ← reading (λ w, reader_of w s);
      mret (SyncStep.Return (SyncReply.Identity (ri_public identity)))
  | None =>
      s ← ensure_reader s;
      identity ← reading (λ w, reader_of w s);
      mret (SyncStep.Save s replicas (SyncReply.Identity (ri_public identity)))
  end.

Definition sync_configure (w : StoreWorker) (s : PersonalSyncState) (replicas : ReplicaCatalog)
    (m : Membership) : VaultResult SyncStep.sync_step :=
  let p := ys_pairing s in
  _ ← fail_if (bool_decide (is_Some (ps_group p)) || bool_decide (is_Some (ps_joining p))
               || bool_decide (is_Some (ps_introduction p)))
        (VaultError.Protocol "signed membership is pinned; raw configuration is disabled");
  identity ← reader_of w s;
  _ ← fail_if (negb (bool_decide (ri_public identity ∈ ms_members m))) not_configured;
  let save := SyncStep.Save (set_prepared None (set_membership (Some m) s)) (pend_all replicas)
                SyncReply.Done in
  match ys_membership s with
  | Some current =>
      if bool_decide (ms_digest current = ms_digest m) then Ok (SyncStep.Return SyncReply.Done)
      else
        _ ← fail_if (negb (bool_decide (ms_group current = ms_group m))
                     || (ms_epoch m <=? ms_epoch current))
              (VaultError.Protocol "personal sync membership cannot roll back or change groups");
        Ok save
  | None => Ok save
  end.

Definition sync_prepare (d : SecretDocument) (s : PersonalSyncState) (replicas : ReplicaCatalog)
    : WM SyncStep.sync_step :=
  membership ← lift (ok_or not_configured (ys_membership s));
  match ys_prepared s with
  | Some prepared =>
      _ ← lift (packet_verify (pp_packet prepared) membership);
      mret (SyncStep.Return (SyncReply.Prepared (Some (pp_packet prepared, membership))))
  | None =>
      match next_pending replicas with
      | None => mret (SyncStep.Return (SyncReply.Prepared None))
      | Some item_id =>
          identity ← reading (λ w, reader_of w s);
          replica ← lift (sync_replica d item_id);
          '(heads, replica) ← lift (replica_call replica_heads replica);
          '(update, _) ← lift (replica_call replica_update replica);
          seed ← (λ w, (Ok (kem_seed (w_tick w)), w));
          draw ← draws;
          packet ← lift (seal_update identity update membership (draw 0%nat 32%nat)
                           (draw 1%nat 32%nat) (draw 2%nat 12%nat) seed);
          mret (SyncStep.Save
            (set_prepared (Some {| pp_item_id := item_id; pp_heads := heads;
                                   pp_packet := vp_bytes packet |}) s)
            replicas (SyncReply.Prepared (Some (vp_bytes packet, membership))))
      end
  end.

Definition sync_stored (d : SecretDocument) (s : PersonalSyncState) (replicas : ReplicaCatalog)
    (packet_id : bytes) : VaultResult SyncStep.sync_step :=
  prepared ← ok_or not_configured (ys_prepared s);
  membership ← ok_or not_configured (ys_membership s);
  packet ← packet_verify (pp_packet prepared) membership;
  _ ← fail_if (negb (bool_decide (vp_id packet = packet_id)))
        (VaultError.Protocol "unexpected personal publication receipt");
  replica ← sync_replica d (pp_item_id prepared);
  '(heads, _) ← replica_call replica_heads replica;
  let replicas := if bool_decide (heads = pp_heads prepared)
                  then pending_remove (pp_item_id prepared) replicas else replicas in
  Ok (SyncStep.Save (set_prepared None s) replicas SyncReply.Done).

(** The items in conflict, with their heads. *)
Fixpoint conflicts_in (actor : bytes) (replicas : ReplicaCatalog) (ids : list string)
    : VaultResult (list (string * list bytes)) :=
  match ids with
  | [] => Ok []
  | id :: ids =>
      found ← load_from replicas id actor;
      replica ← ok_or not_configured found;
      values ← values_of replica;
      here ← (if (1 <? Z.of_nat (length values)) then
                '(heads, _) ← replica_call replica_heads replica; Ok [(id, heads)]
              else Ok []);
      rest ← conflicts_in actor replicas ids;
      Ok (here ++ rest)
  end.
Definition conflicted_receipt (conflicts : list (string * list bytes)) (r : ReceivedPacket) : bool :=
  existsb (λ '(id, heads), String.eqb id (rx_item_id r)
    && existsb (λ h, bool_decide (h ∈ heads)) (rx_heads r)) conflicts.

Definition sync_status (w : StoreWorker) (s : PersonalSyncState) (replicas : ReplicaCatalog)
    : VaultResult SyncStep.sync_step :=
  conflicts ← conflicts_in (vm_actor_id (w_device w)) replicas
                (sort_by id (elements (dom (rc_replicas replicas))));
  let conflict_packets := Z.of_nat (length (List.filter (conflicted_receipt conflicts) (ys_receipts s))) in
  prepared ← opt_try (λ prepared,
    membership ← ok_or not_configured (ys_membership s);
    packet ← packet_verify (pp_packet prepared) membership;
    Ok (vp_id packet)) (ys_prepared s);
  Ok (SyncStep.Return (SyncReply.Status {|
    st_applied_packets := Z.of_nat (length (ys_receipts s)) - conflict_packets;
    st_conflict_packets := conflict_packets;
    st_readers := match ys_membership s with
                  | Some m => Z.of_nat (length (ms_members m)) | None => 0 end;
    st_pending_publications := Z.of_nat (size (rc_pending replicas));
    st_prepared_packet := prepared;
    st_conflicted_items := Z.of_nat (length conflicts) |})).

(** The packet that was received, opened; whatever is wrong with it is a rejection. *)
Definition sync_open (w : StoreWorker) (s : PersonalSyncState) (b : bytes)
    : VaultResult (bytes * PersonalUpdate) :=
  membership ← ok_or not_configured (ys_membership s);
  packet ← map_err (λ _, rejected_packet) (packet_verify b membership);
  identity ← reader_of w s;
  update ← map_err (λ _, rejected_packet) (packet_open packet identity membership);
  Ok (vp_id packet, update).

(** [StoreWorker::personal_sync]. *)
Definition personal_sync (command : SyncCommand.sync_command) : WM SyncReply.sync_reply :=
  let scope := LocalKeyring in
  let partition := PERSONAL_SECRET_NAMESPACE in
  id ← reading (λ w, Ok (document_id w scope partition));
  loaded ← load_document id scope (Some partition);
  opened ← open_or_new id scope partition loaded;
  let '(document, current) := (opened : SecretDocument * option DocumentHead) in
  state ← lift (sync_state document);
  _ ← lift (check_pinned state);
  replicas ← lift (personal_replicas document);
  now ← read_time;
  context ← (λ w, (Ok (worker_context w (provenance_service ServiceReason.PersonalSync) now), step w));
  let save m := commit_mutation id scope current m context in
  let finish (next : SyncStep.sync_step) :=
    match next with
    | SyncStep.Return reply => mret reply
    | SyncStep.Save state replicas reply =>
        changed ← on_document document (update_sync_state state replicas);
        _ ← save changed.1;
        mret reply
    end in
  match command with
  | SyncCommand.PairingStatus => next ← lift (sync_pairing_status state); finish next
  | SyncCommand.Group => next ← lift (sync_group state); finish next
  | SyncCommand.Pairing c => next ← sync_pairing state replicas c; finish next
  | SyncCommand.Membership => next ← lift (sync_membership state); finish next
  | SyncCommand.Identity => next ← sync_identity state replicas; finish next
  | SyncCommand.Configure m => next ← reading (λ w, sync_configure w state replicas m); finish next
  | SyncCommand.Prepare => next ← sync_prepare document state replicas; finish next
  | SyncCommand.Stored packet => next ← lift (sync_stored document state replicas packet); finish next
  | SyncCommand.Receive b =>
      opened ← reading (λ w, sync_open w state b);
      received ← on_document document (receive_personal opened.1 opened.2 context);
      _ ← match received.1.2 with Some m => save m | None => mret tt end;
      mret (SyncReply.Received received.1.1)
  | SyncCommand.Status => next ← reading (λ w, sync_status w state replicas); finish next
  | SyncCommand.Conflicts item => found ← lift (sync_conflicts document item);
      mret (SyncReply.Conflicts found)
  | SyncCommand.Resolve item expected value =>
      changed ← on_document document (resolve_personal item expected value context);
      _ ← save changed.1;
      mret SyncReply.Done
  end.

(** The command as the store sends it to the worker. *)
Definition vault_personal_sync (command : SyncCommand.sync_command) : WM SyncReply.sync_reply :=
  request (personal_sync command).
End SyncWorker.
