(* ===== verification/SyncStore.v ===== *)
(** What the sync commands of the worker do to the stored document: each either changes
    nothing or takes it one step further, whichever calls of the database fail. *)
From Stdlib Require Import ZArith Lia Bool.
From stdpp Require Import base numbers gmap strings list relations.
From S2P Require Import Prelude Text Chars Core Address Wire KeyringIndex History StoreSpec Signature.
From S2P Require Import Protocol Manifest Envelope Automerge Document DocumentProofs DocumentAtomic Database.
From S2P Require Import Worker WorkerReads WorkerCommit WorkerViews WorkerStore.
From S2P Require Import Website Totp Personal PersonalLegacy Replica PersonalStore.
From S2P Require Import SyncIdentity SyncGroup SyncMembers SyncPairing SyncPacket SyncState.
From S2P Require Import SyncDocument SyncEdits SyncWorker.

Section SyncStore.
Context `{Sha256, Base64, MlDsa65, Aes256Gcm, HmacSha256, Signers, Random, Hpke, Base64Standard}.
Context `{Serde EncodedUpdate} `{!SerdeChunks EncodedUpdate} `{SerdeOk Personal.PersonalSecret}.
Context `{AutomergeChanges} `{!AutomergeOk} `{!AutomergeChangesOk}.
Context `{SerdeOk SecretRecord, Serde RecordDeadline, SerdeOk ReplicaCatalog} `{!RecordSerdeOk}.
Context `{Serde HistoryEntry, Serde HistoryLog, SerdeOk WrappedKey, SerdeOk EncryptedSnapshot}.
Context `{SerdeOk CurrentHead, SerdeOk StateManifest, Serde Index, AttributeJson}.
Context `{Serde (list MemberPublicKeys)} `{Serde (Body MembershipWire)}.
Context `{SerdeOk CertificateWire} `{SerdeOk (list CertificateWire)}.
Context `{Serde (MemberId * bytes * bytes * MemberId)}.
Context `{SerdeOk PairingInvitation} `{Serde RequestBody} `{Serde PairingRequest}.
Context `{Serde PacketContext} `{Serde PacketBody} `{Serde Packet} `{SerdeOk PersonalSyncState}.
Context `{!DeadlineSerdeOk, !Sha256Ok, !Aes256GcmOk, !RandomOk} (Hfit : manifests_fit).
Context (unix_time : nat → VaultResult Z) (kem_seed : nat → nat → bytes).
Abbreviation WM := (SM StoreWorker).
Abbreviation PERSONAL := PERSONAL_SECRET_NAMESPACE.

(** ** The personal document of a worker *)

Definition personal_id (w : StoreWorker) : bytes := document_id w LocalKeyring PERSONAL.

(** The document a sync command works on: the stored one, or a new one. *)
Definition sync_document (w : StoreWorker) (d : SecretDocument) : Prop :=
  (∃ l, loaded_at w (personal_id w) LocalKeyring (Some PERSONAL) = Ok (Some l) ∧ d = ld_document l)
  ∨ loaded_at w (personal_id w) LocalKeyring (Some PERSONAL) = Ok None
    ∧ document_new (vm_actor_id (w_device w)) LocalKeyring PERSONAL = Ok d.

Lemma sync_document_inj w d d' : sync_document w d → sync_document w d' → d = d'.
Proof. intros [(l & Hl & ->)|[Hl Hn]] [(l' & Hl' & ->)|[Hl' Hn']]; congruence. Qed.

Lemma sync_document_ext w w' d : same_data w w' → sync_document w d → sync_document w' d.
Proof.
  intros Hw. pose proof (same_data_identity _ _ Hw) as Hi. unfold sync_document, personal_id.
  rewrite (document_id_ext w w') by done. rewrite (loaded_at_ext w w') by done.
  destruct Hi as [-> _]. done.
Qed.

Lemma sync_document_opened w d current :
  opened w LocalKeyring PERSONAL d current → document_ok d ∧ document_is_personal d = true
    ∧ sd_kind d = LocalKeyring ∧ sd_partition d = PERSONAL.
Proof.
  intros (Hok & Hk & Hp & _). split_and!; try done. unfold document_is_personal. rewrite Hk, Hp. done.
Qed.

Lemma opened_sync w x d current w' :
  loaded_at w (personal_id w) LocalKeyring (Some PERSONAL) = Ok x →
  open_or_new (personal_id w) LocalKeyring PERSONAL x w = (Ok (d, current), w') → sync_document w d.
Proof.
  intros Hl Ho. unfold open_or_new in Ho. destruct x as [l|].
  - injection Ho as <- <- <-. left. by exists l.
  - apply sm_bind_Ok in Ho as (d0 & ? & [= Hn <-] & [= <- <- <-]). by right.
Qed.

(** ** Steps that keep the data *)

Definition keeps_data {A} (m : WM A) : Prop := ∀ w r w', m w = (r, w') → same_data w w'.

Lemma keeps_lift {A} (x : VaultResult A) : keeps_data (lift x).
Proof. by intros w r w' [= _ <-]. Qed.
Lemma keeps_ret {A} (a : A) : keeps_data (mret a).
Proof. by intros w r w' [= _ <-]. Qed.
Lemma keeps_reading {A} (f : StoreWorker → VaultResult A) : keeps_data (reading f).
Proof. by intros w r w' [= _ <-]. Qed.
Lemma keeps_local {A} (f : StoreWorker → VaultResult A * StoreWorker) :
  (∀ w, same_data w (f w).2) → keeps_data f.
Proof. intros Hf w r w' Hr. specialize (Hf w). by rewrite Hr in Hf. Qed.
Lemma keeps_bind {A B} (m : WM A) (f : A → WM B) :
  keeps_data m → (∀ a, keeps_data (f a)) → keeps_data (m ≫= f).
Proof.
  intros Hm Hf w r w' [(e & Hr & ->)|(a & w1 & Hr & Hr')]%sm_bind_either; [by eapply Hm|].
  etrans; [by eapply Hm|by eapply Hf].
Qed.
Lemma keeps_time : keeps_data (read_time unix_time).
Proof. by apply keeps_local. Qed.
Lemma keeps_draws : keeps_data draws.
Proof. by apply keeps_local. Qed.

Create HintDb keeps.
#[local] Hint Resolve keeps_lift keeps_ret keeps_reading keeps_bind keeps_time keeps_draws : keeps.
Ltac keeps := repeat first [progress eauto 3 with keeps|apply keeps_bind; [|intros ?]|case_match].

Lemma keeps_ensure s : keeps_data (ensure_reader s).
Proof. unfold ensure_reader. keeps. Qed.
#[local] Hint Resolve keeps_ensure : keeps.
Lemma keeps_pairing s c p : keeps_data (sync_pairing unix_time s c p).
Proof. unfold sync_pairing. keeps. Qed.
Lemma keeps_identity s c : keeps_data (sync_identity s c).
Proof. unfold sync_identity. keeps. Qed.
Lemma keeps_prepare d s c : keeps_data (sync_prepare kem_seed d s c).
Proof. unfold sync_prepare. keeps. Qed.
#[local] Hint Resolve keeps_pairing keeps_identity keeps_prepare : keeps.

(** ** Commits *)

(** After a commit the document is one that loads from what was saved. *)
Lemma sync_commit w d current m ctx r w' (P : SecretDocument → Prop) :
  opened w LocalKeyring PERSONAL d current → finished d m → reloads m LocalKeyring PERSONAL P →
  commit_mutation (personal_id w) LocalKeyring current m ctx w = (r, w') →
  ((∃ e, r = Err e) ∧ same_data w w')
  ∨ same_identity w w' ∧ ∃ d2, sync_document w' d2 ∧ P d2.
Proof using All.
  intros (_ & _ & _ & _ & Hc & _) (_ & _ & Hdl) Hre Hm.
  apply (commit_mutation_spec Hfit) in Hm as [?|Hrep]; [by left| |done|done]. right.
  pose proof Hrep as (Hi & _ & _ & Hat). split; [done|].
  destruct (Hre (vm_actor_id (w_device w)) (Some PERSONAL)) as (d2 & Hl & HP); [by intros p [= <-]|].
  specialize (Hat (Some PERSONAL)). rewrite Hl in Hat. exists d2. split; [left|done].
  unfold document_at in Hat. unfold personal_id at 1.
  rewrite (document_id_ext w w') by done. unfold personal_id in Hat.
  destruct (loaded_at w' _ _ _) as [[l|]|] eqn:Hl2; [|discriminate..]. injection Hat as <-. by exists l.
Qed.

(** ** What a command changes *)

(** A handler that saves, run where the data is that of the worker. *)
Inductive saves (w : StoreWorker) (d : SecretDocument) (s : PersonalSyncState) (c : ReplicaCatalog)
    : SyncCommand.sync_command → PersonalSyncState → ReplicaCatalog → Prop :=
| saves_pairing p w1 w2 s' c' reply :
    same_data w w1 → sync_pairing unix_time s c p w1 = (Ok (SyncStep.Save s' c' reply), w2) →
    saves w d s c (SyncCommand.Pairing p) s' c'
| saves_identity w1 w2 s' c' reply :
    same_data w w1 → sync_identity s c w1 = (Ok (SyncStep.Save s' c' reply), w2) →
    saves w d s c SyncCommand.Identity s' c'
| saves_configure m w1 s' c' reply :
    same_data w w1 → sync_configure w1 s c m = Ok (SyncStep.Save s' c' reply) →
    saves w d s c (SyncCommand.Configure m) s' c'
| saves_prepare w1 w2 s' c' reply :
    same_data w w1 → sync_prepare kem_seed d s c w1 = (Ok (SyncStep.Save s' c' reply), w2) →
    saves w d s c SyncCommand.Prepare s' c'
| saves_stored packet s' c' reply :
    sync_stored d s c packet = Ok (SyncStep.Save s' c' reply) →
    saves w d s c (SyncCommand.Stored packet) s' c'.

(** A packet that was received before. *)
Definition has_receipt (s : PersonalSyncState) (packet : bytes) : Prop :=
  ∃ id, recorded s packet id.
(** The effect of a command on the document: what it saves, an update that was received, or
    a conflict that was resolved. *)
Inductive sync_effect (w : StoreWorker) (d : SecretDocument) (s : PersonalSyncState)
    (c : ReplicaCatalog) (result : VaultResult SyncReply.sync_reply)
    : SyncCommand.sync_command → SecretDocument → Prop :=
| effect_saves cmd s' c' d2 :
    saves w d s c cmd s' c' → says_state d2 s' → says_catalog d2 c' →
    document_view d2 = document_view d → sync_effect w d s c result cmd d2
| effect_received b w1 u outcome s' c' r values d2 :
    same_data w w1 → sync_open w1 s b = Ok (sha256 b, u) → ¬ has_receipt s (sha256 b) →
    (∃ receipt, s' = set_receipts (ys_receipts s ++ [receipt]) s) →
    recorded s' (sha256 b) (pu_item_id u) → says_state d2 s' → says_catalog d2 c' → catalog_ok c' →
    values_of r = Ok values → merged_into u r c c' →
    match outcome with
    | ReceiveOutcome.Duplicate => document_view d2 = document_view d
    | ReceiveOutcome.Applied => Z.of_nat (length values) ≤ 1
        ∧ shown (pu_item_id u) values (document_view d) (document_view d2)
    | ReceiveOutcome.Conflict => 1 < Z.of_nat (length values)
        ∧ shown (pu_item_id u) values (document_view d) (document_view d2)
    end →
    (∀ reply, result = Ok reply → reply = SyncReply.Received outcome) →
    sync_effect w d s c result (SyncCommand.Receive b) d2
| effect_resolved id expected item c' r before r' bs d2 :
    sync_replica d id = Ok r → values_of r = Ok before → (2 ≤ length before)%nat →
    (replica_heads r).1 = Ok expected →
    values_of r' = Ok [item] → (save_replica r').1 = Ok bs → rc_replicas c' !! id = Some bs →
    id ∈ rc_pending c' → all_wait c c' → says_catalog d2 c' → catalog_ok c' →
    (∀ x, root_is d PERSONAL_SYNC x → root_is d2 PERSONAL_SYNC x) →
    (root d !! PERSONAL_SYNC = None → root d2 !! PERSONAL_SYNC = None) →
    shown id [item] (document_view d) (document_view d2) →
    sync_effect w d s c result (SyncCommand.Resolve id expected item) d2.

(** An error may stand for any result. *)
Lemma effect_Err w d s c r cmd d2 e :
  sync_effect w d s c r cmd d2 → sync_effect w d s c (Err e) cmd d2.
Proof. intros []; [by eapply effect_saves|by eapply effect_received|by eapply effect_resolved]. Qed.

(** What commands carry are values of their types: a membership is one that was made, and an
    item has an identifier that can be an address. *)
Definition sync_command_made (cmd : SyncCommand.sync_command) : Prop :=
  match cmd with
  | SyncCommand.Pairing p => command_made p
  | SyncCommand.Configure m => membership_wf m
  | SyncCommand.Resolve _ _ (Some item) => has_storage_id item = true
  | _ => True
  end.

(** ** Every command *)

Lemma opened_ext w w' k p d current : same_data w w' → opened w k p d current → opened w' k p d current.
Proof.
  intros Hw (? & ? & ? & Hv & ? & Hex). split_and!; try done.
  - by rewrite (view_same w w').
  - intros k' p'. rewrite !(document_id_ext w w') by (by apply same_data_identity).
    rewrite (view_same w w') by done. apply Hex.
Qed.

Lemma pend_all_ok c : catalog_ok c → catalog_ok (pend_all c).
Proof. by intros [? ?]. Qed.
Lemma pending_remove_ok id c : catalog_ok c → catalog_ok (pending_remove id c).
Proof. intros [? ?]. split; cbn; [done|set_solver]. Qed.

Lemma saves_catalog w d s c cmd s' c' : saves w d s c cmd s' c' → catalog_ok c → catalog_ok c'.
Proof.
  intros Hs Hc. destruct Hs as [p w1 w2 s' c' reply _ Hh|w1 w2 s' c' reply _ Hh|m w1 s' c' reply _ Hh
    |w1 w2 s' c' reply _ Hh|packet s' c' reply Hh].
  - unfold sync_pairing in Hh. do 7 apply sm_bind_Ok in Hh as (? & ? & _ & Hh).
    case_match. apply sm_bind_Ok in Hh as (? & ? & _ & [= Hh _]).
    destruct (_ || _); [discriminate|]. case_bool_decide; injection Hh as <- <- _; [done|].
    by apply pend_all_ok.
  - unfold sync_identity in Hh. case_match; apply sm_bind_Ok in Hh as (? & ? & _ & Hh); [discriminate|].
    apply sm_bind_Ok in Hh as (? & ? & _ & [= <- <- <- _]). done.
  - unfold sync_configure in Hh. apply then_Ok in Hh as [_ Hh]. apply bind_Ok in Hh as (? & _ & Hh).
    apply then_Ok in Hh as [_ Hh]. destruct (ys_membership s).
    + case_bool_decide; [discriminate|]. apply then_Ok in Hh as [_ [= _ <- _]]. by apply pend_all_ok.
    + injection Hh as _ <- _. by apply pend_all_ok.
  - unfold sync_prepare in Hh. apply sm_bind_Ok in Hh as (? & ? & _ & Hh). case_match.
    + apply sm_bind_Ok in Hh as (? & ? & _ & [=]).
    + case_match; [|discriminate]. do 2 apply sm_bind_Ok in Hh as (? & ? & _ & Hh).
      apply sm_bind_Ok in Hh as ([? ?] & ? & _ & Hh). apply sm_bind_Ok in Hh as ([? ?] & ? & _ & Hh).
      do 3 apply sm_bind_Ok in Hh as (? & ? & _ & Hh). by injection Hh as _ <- _ _.
  - unfold sync_stored in Hh. do 3 apply bind_Ok in Hh as (? & _ & Hh). apply then_Ok in Hh as [_ Hh].
    apply bind_Ok in Hh as (? & _ & Hh). apply bind_Ok in Hh as ([? ?] & _ & [= _ <- _]).
    case_bool_decide; [by apply pending_remove_ok|done].
Qed.

(** What a command that changed nothing answers. *)
Definition answered (s : PersonalSyncState) (cmd : SyncCommand.sync_command)
    (r : VaultResult SyncReply.sync_reply) : Prop :=
  match cmd, r with
  | SyncCommand.Receive b, Ok reply =>
      reply = SyncReply.Received ReceiveOutcome.Duplicate ∧ has_receipt s (sha256 b)
  | _, _ => True
  end.
Lemma answered_Err s cmd e : answered s cmd (Err e).
Proof. by destruct cmd. Qed.

(** What a command comes to, from a worker with the document it loaded. *)
Definition sync_outcome (w : StoreWorker) (d : SecretDocument) (s : PersonalSyncState)
    (c : ReplicaCatalog) (cmd : SyncCommand.sync_command) (r : VaultResult SyncReply.sync_reply)
    (w' : StoreWorker) : Prop :=
  same_data w w' ∧ answered s cmd r
  ∨ same_identity w w' ∧ ∃ d2, sync_document w' d2 ∧ document_is_personal d2 = true
      ∧ sync_effect w d s c r cmd d2.

(** The end of a command that saves. *)
Lemma commit_outcome w w1 d s c cmd current m ctx reply r w' (P : SecretDocument → Prop) :
  same_data w w1 → opened w LocalKeyring PERSONAL d current → finished d m →
  reloads m LocalKeyring PERSONAL P →
  (∀ d2, P d2 → document_is_personal d2 = true ∧ sync_effect w d s c (Ok reply) cmd d2) →
  (_ ← commit_mutation (personal_id w) LocalKeyring current m ctx; mret reply) w1 = (r, w') →
  sync_outcome w d s c cmd r w'.
Proof using All.
  intros Hw Ho Hf Hre HP Hr.
  assert (∃ r0, commit_mutation (personal_id w) LocalKeyring current m ctx w1 = (r0, w')
    ∧ (∀ e, r0 = Err e → r = Err e) ∧ (r = Ok reply ∨ ∃ e, r = Err e)) as (r0 & Hc & Herr & Hres).
  { apply sm_bind_either in Hr as [(e & Hr & ->)|([] & w2 & Hr & [= <- <-])];
      eexists; (split; [exact Hr|]); (split; [by intros ? [= ->]|]); [right; by exists e|by left]. }
  unfold personal_id in Hc. rewrite <- (document_id_ext w w1) in Hc by (by apply same_data_identity).
  eapply sync_commit in Hc as [[[e He] Hd]|(Hi & d2 & Hd2 & Hp)]; [| |by eapply opened_ext|done|done].
  - left. split; [by etrans|]. rewrite (Herr e He). apply answered_Err.
  - right. destruct (HP d2 Hp) as [Hper Heff]. split.
    { destruct (same_data_identity _ _ Hw), Hi. split; congruence. }
    exists d2. split_and!; [done..|]. destruct Hres as [->|[e ->]]; [done|by eapply effect_Err].
Qed.

Lemma handler_outcome (h : WM SyncStep.sync_step) w w0 d s c cmd current ctx r w' :
  same_data w w0 → opened w LocalKeyring PERSONAL d current → catalog_ok c → keeps_data h →
  (∀ r, answered s cmd r) →
  (∀ w1 w2 s' c' reply, same_data w w1 → h w1 = (Ok (SyncStep.Save s' c' reply), w2) →
     saves w d s c cmd s' c') →
  (next ← h;
   match next with
   | SyncStep.Return reply => mret reply
   | SyncStep.Save s' c' reply =>
       changed ← on_document d (update_sync_state s' c');
       _ ← commit_mutation (personal_id w) LocalKeyring current changed.1 ctx;
       mret reply
   end) w0 = (r, w') →
  sync_outcome w d s c cmd r w'.
Proof using All.
  intros Hw Ho Hc Hk Hans Hs Hr. pose proof (sync_document_opened _ _ _ Ho) as (Hok & Hp & Hkind & Hpart).
  apply sm_bind_either in Hr as [(e & Hr & ->)|(next & w1 & Hh & Hr)];
    [left; split; [etrans; [done|by eapply Hk]|done]|].
  assert (same_data w w1) as Hw1 by (etrans; [done|by eapply Hk]).
  destruct next as [reply|s' c' reply]; [injection Hr as _ <-; by left|].
  apply Hs in Hh as Hsaves; [|done].
  apply sm_bind_either in Hr as [(e & Hr & ->)|([m d'] & w2 & Hu & Hr)].
  { left. apply on_document_Err in Hr as ->. by split. }
  apply on_document_Ok in Hu as [Hu ->].
  pose proof (saves_catalog _ _ _ _ _ _ _ Hsaves Hc) as Hc'.
  apply saved_sync_state_loads in Hu as [Hf Hre]; [|done..].
  rewrite Hkind, Hpart in Hre. eapply commit_outcome; [exact Hw1|done|exact Hf|exact Hre| |exact Hr].
  intros d2 (Hper & Hst & Hcat & Hv). split; [done|]. by eapply effect_saves.
Qed.

Lemma open_packet_id w s b packet u : sync_open w s b = Ok (packet, u) → packet = sha256 b.
Proof.
  unfold sync_open. intros (m & _ & Ho)%bind_Ok. apply bind_Ok in Ho as (v & Hv%map_err_Ok & Ho).
  apply bind_Ok in Ho as (? & _ & Ho). apply bind_Ok in Ho as (? & _ & [= <- _]).
  by apply packet_verify_Ok in Hv as (_ & _ & ? & _).
Qed.

(** What was not received before is recorded, or nothing changes. *)
Lemma received_before packet u ctx d outcome d' s :
  sync_state d = Ok s → receive_personal packet u ctx d = (Ok (outcome, None), d') →
  outcome = ReceiveOutcome.Duplicate ∧ has_receipt s packet.
Proof.
  intros Hs Hr. unfold receive_personal in Hr. apply sm_bind_Ok in Hr as (x & ? & [= Hx <-] & Hr).
  rewrite Hs in Hx. injection Hx as <-. destruct (existsb _ _) eqn:Hin.
  - injection Hr as <- _. split; [done|]. apply existsb_exists in Hin as (y & Hy & Hb).
    apply bool_decide_eq_true in Hb. exists (rx_item_id y), y. split_and!; [by apply list_elem_of_In|done..].
  - apply sm_bind_Ok in Hr as ([] & ? & [_ ->]%lift_Ok & Hr).
    apply sm_bind_Ok in Hr as ([[[? ?] ?] ?] & ? & [= _ <-] & Hr).
    by apply sm_bind_Ok in Hr as (? & ? & _ & [=]).
Qed.

Lemma received_outcome w w0 d s c b packet u ctx current r w' :
  same_data w w0 → opened w LocalKeyring PERSONAL d current → sync_state d = Ok s →
  personal_replicas d = Ok c → sync_open w0 s b = Ok (packet, u) →
  (received ← on_document d (receive_personal packet u ctx);
   _ ← match received.1.2 with
       | Some m => commit_mutation (personal_id w) LocalKeyring current m ctx
       | None => mret tt
       end;
   mret (SyncReply.Received received.1.1)) w0 = (r, w') →
  sync_outcome w d s c (SyncCommand.Receive b) r w'.
Proof using All.
  intros Hw Ho Hs Hc Hopen Hr. pose proof (sync_document_opened _ _ _ Ho) as (Hok & Hp & Hkind & Hpart).
  pose proof (open_packet_id _ _ _ _ _ Hopen) as ->.
  apply sm_bind_either in Hr as [(e & Hr & ->)|([[outcome m] d'] & w1 & Hu & Hr)].
  { left. by apply on_document_Err in Hr as ->. }
  apply on_document_Ok in Hu as [Hu ->]. cbn [fst snd] in *. destruct m as [m|].
  2: { left. injection Hr as <- <-. apply (received_before _ _ _ _ _ _ s) in Hu as [-> ?]; [|done].
       split; [done|]. by split. }
  assert (¬ has_receipt s (sha256 b)) as Hnew.
  { intros [id Hrec]. by rewrite (recorded_duplicate _ _ _ _ _ _ Hs Hrec) in Hu. }
  apply received_update_recorded in Hu as (s0 & s' & c0 & c' & rr & values & Hs0 & Hc0 & Hset & Hrec
    & Hid & Hv & Hconf & Happ & Hf & Hc' & Hmerged & Hre); [|done..].
  rewrite Hs in Hs0. injection Hs0 as <-. rewrite Hc in Hc0. injection Hc0 as <-.
  rewrite Hkind, Hpart in Hre. eapply commit_outcome; [exact Hw|done|exact Hf|exact Hre| |exact Hr].
  intros d2 (Hper & Hst & Hcat & Hshow). split; [done|].
  eapply (effect_received _ _ _ _ _ _ _ _ outcome); try done; [|by intros ? [= <-]].
  destruct outcome; [split; [by apply Happ|done]|done|split; [by apply Hconf|done]].
Qed.

Lemma resolved_outcome w w0 d s c id expected item ctx current r w' :
  same_data w w0 → opened w LocalKeyring PERSONAL d current → personal_replicas d = Ok c →
  (∀ i, item = Some i → has_storage_id i = true) →
  (changed ← on_document d (resolve_personal id expected item ctx);
   _ ← commit_mutation (personal_id w) LocalKeyring current changed.1 ctx;
   mret SyncReply.Done) w0 = (r, w') →
  sync_outcome w d s c (SyncCommand.Resolve id expected item) r w'.
Proof using All.
  intros Hw Ho Hc Hi Hr. pose proof (sync_document_opened _ _ _ Ho) as (Hok & Hp & Hkind & Hpart).
  apply sm_bind_either in Hr as [(e & Hr & ->)|([m d'] & w1 & Hu & Hr)].
  { left. by apply on_document_Err in Hr as ->. }
  apply on_document_Ok in Hu as [Hu ->]. cbn [fst snd] in *.
  apply resolved_conflict_settles in Hu as (rr & before & r' & bs & c0 & c' & Hrep & Hc0 & Hbefore & Hlen
    & Hheads & Hv & Hsave & Hf & Hc' & Hlook & Hpend & Hwait & Hre); [|done..].
  rewrite Hc in Hc0. injection Hc0 as <-.
  rewrite Hkind, Hpart in Hre. eapply commit_outcome; [exact Hw|done|exact Hf|exact Hre| |exact Hr].
  intros d2 (Hper & Hcat & Hst & Hnone & Hshow). split; [done|]. by eapply effect_resolved.
Qed.

(** A step that keeps the data, which may be the last one. *)
Lemma keeps_either {A B} (m : WM A) (f : A → WM B) w0 w r w' :
  keeps_data m → same_data w0 w → (m ≫= f) w = (r, w') →
  (∃ e, r = Err e) ∧ same_data w0 w'
  ∨ ∃ a w1, m w = (Ok a, w1) ∧ same_data w0 w1 ∧ f a w1 = (r, w').
Proof.
  intros Hk Hw [(e & Hr & ->)|(a & w1 & Hr & Hf)]%sm_bind_either; apply Hk in Hr as Hd.
  - left. split; [by eexists|by etrans].
  - right. exists a, w1. split_and!; [done|by etrans|done].
Qed.

(** Every command, from the document it loads: nothing is changed, or the document is what its
    effect says. *)
Lemma sync_command_effect cmd w r w' :
  sync_command_made cmd → personal_sync unix_time kem_seed cmd w = (r, w') →
  (∃ e, r = Err e) ∧ same_data w w'
  ∨ ∃ d s c, sync_document w d ∧ document_is_personal d = true ∧ sync_state d = Ok s
      ∧ personal_replicas d = Ok c ∧ check_pinned s = Ok tt ∧ sync_outcome w d s c cmd r w'.
Proof using All.
  intros Hmade Hr. unfold personal_sync in Hr. cbv zeta in Hr.
  apply sm_bind_either in Hr as [(e & [=] & _)|(id & ? & [= <- <-] & Hr)].
  apply sm_bind_either in Hr as [(e & Hr & ->)|(x & w1 & Hl & Hr)];
    [left; split; [by eexists|by eapply load_failed]|].
  apply load_step in Hl as [Hw1 Hl]. pose proof (same_data_identity _ _ Hw1) as Hi1.
  apply sm_bind_either in Hr as [(e & Hr & ->)|([d current] & w2 & Ho & Hr)].
  { left. apply open_or_new_Err in Hr as ->. split; [by eexists|done]. }
  assert (sync_document w d) as Hdoc.
  { apply (sync_document_ext w1 w); [done|]. rewrite <- (document_id_ext w w1) in Hl, Ho by done.
    by eapply opened_sync. }
  apply open_or_new_Ok in Ho as [-> Ho]; [|done|by rewrite (document_id_ext w w1)].
  apply (opened_ext w1 w) in Ho; [|done]. cbn [fst snd] in Ho.
  apply keeps_either with (w0 := w) in Hr as [?|(s & ? & [= Hs <-] & _ & Hr)]; [by left| |apply keeps_lift|done].
  apply keeps_either with (w0 := w) in Hr as [?|([] & ? & [= Hpin <-] & _ & Hr)]; [by left| |apply keeps_lift|done].
  apply keeps_either with (w0 := w) in Hr as [?|(c & ? & [= Hc <-] & _ & Hr)]; [by left| |apply keeps_lift|done].
  apply keeps_either with (w0 := w) in Hr as [?|(now & w2 & _ & Hw2 & Hr)]; [by left| |apply keeps_time|done].
  apply keeps_either with (w0 := w) in Hr as [?|(ctx & w3 & _ & Hw3 & Hr)]; [by left| |by apply keeps_local|done].
  right. exists d, s, c. pose proof (sync_document_opened _ _ _ Ho) as (_ & Hp & _).
  pose proof (personal_replicas_ok _ _ Hc) as Hcok.
  split_and!; [done..|]. change (document_id w LocalKeyring PERSONAL) with (personal_id w) in Hr.
  destruct cmd.
  - eapply handler_outcome; [exact Hw3|done|done|apply keeps_identity|done| |exact Hr].
    intros. by eapply saves_identity.
  - eapply handler_outcome; [exact Hw3|done|done|apply keeps_lift|done| |exact Hr].
    intros w4 w5 s' c' reply _ [= Hh _]. unfold sync_group in Hh. by inv_ok.
  - eapply handler_outcome; [exact Hw3|done|done|apply keeps_lift|done| |exact Hr].
    intros w4 w5 s' c' reply _ [= Hh _]. unfold sync_pairing_status in Hh. by inv_ok.
  - eapply handler_outcome; [exact Hw3|done|done|apply keeps_pairing|done| |exact Hr].
    intros. by eapply saves_pairing.
  - eapply handler_outcome; [exact Hw3|done|done|apply keeps_lift|done| |exact Hr].
    intros w4 w5 s' c' reply _ [= Hh _]. unfold sync_membership in Hh. by inv_ok.
  - eapply handler_outcome; [exact Hw3|done|done|apply keeps_reading|done| |exact Hr].
    intros w4 w5 s' c' reply Hw4 [= Hh _]. by eapply saves_configure.
  - eapply handler_outcome; [exact Hw3|done|done|apply keeps_prepare|done| |exact Hr].
    intros. by eapply saves_prepare.
  - eapply handler_outcome; [exact Hw3|done|done|apply keeps_lift|done| |exact Hr].
    intros w4 w5 s' c' reply _ [= Hh _]. by eapply saves_stored.
  - apply keeps_either with (w0 := w) in Hr as [[[e ->] ?]|([packet' u] & w4 & [= Hopen <-] & Hw4 & Hr)];
      [by left| |apply keeps_reading|done]. cbn [fst snd] in Hr.
    by eapply received_outcome.
  - eapply handler_outcome; [exact Hw3|done|done|apply keeps_reading|done| |exact Hr].
    intros w4 w5 s' c' reply _ [= Hh _]. unfold sync_status in Hh. by inv_ok.
  - apply keeps_either with (w0 := w) in Hr as [[_ ?]|(found & w4 & _ & Hw4 & Hr)];
      [by left| |apply keeps_lift|done]. injection Hr as _ <-. by left.
  - eapply resolved_outcome; [exact Hw3|done|done| |exact Hr]. by intros i ->.
Qed.
(** The membership that is answered is the one of the stored state. *)
Lemma membership_answered w m w' :
  personal_sync unix_time kem_seed SyncCommand.Membership w = (Ok (SyncReply.Membership m), w') →
  ∃ d s, sync_document w d ∧ sync_state d = Ok s ∧ ys_membership s = Some m.
Proof using All.
  intros Hr. unfold personal_sync in Hr. cbv zeta in Hr.
  apply sm_bind_Ok in Hr as (id & ? & [= <- <-] & Hr).
  apply sm_bind_Ok in Hr as (x & w1 & Hl & Hr).
  apply load_step in Hl as [Hw1 Hl]. pose proof (same_data_identity _ _ Hw1) as Hi1.
  apply sm_bind_Ok in Hr as ([d current] & w2 & Ho & Hr).
  assert (sync_document w d) as Hdoc.
  { apply (sync_document_ext w1 w); [done|]. rewrite <- (document_id_ext w w1) in Hl, Ho by done.
    by eapply opened_sync. }
  cbn [fst snd] in Hr. exists d.
  apply sm_bind_Ok in Hr as (s & ? & [= Hs <-] & Hr). exists s.
  apply sm_bind_Ok in Hr as ([] & ? & _ & Hr). apply sm_bind_Ok in Hr as (c & ? & _ & Hr).
  apply sm_bind_Ok in Hr as (now & ? & _ & Hr). apply sm_bind_Ok in Hr as (ctx & ? & _ & Hr).
  apply sm_bind_Ok in Hr as (next & ? & [= Hn _] & Hr). split_and!; [done..|].
  unfold sync_membership in Hn. apply bind_Ok in Hn as (m' & Hm%ok_or_Ok & [= <-]).
  injection Hr as -> _. exact Hm.
Qed.
End SyncStore.
