(* ===== verification/SyncHistory.v ===== *)
(** Histories of a vault with sync: whatever sync commands its worker receives and whatever
    items are edited in between, with whichever calls of the database failing, the pinned
    group is never rolled back, an item that was changed waits until what it holds was
    published, and a packet is received once. *)
From Stdlib Require Import ZArith Lia Bool.
From stdpp Require Import base numbers gmap strings list relations.
From S2P Require Import Prelude Text Chars Core Address Wire KeyringIndex History StoreSpec Signature.
From S2P Require Import Protocol Manifest Envelope Automerge Document DocumentProofs DocumentAtomic Database.
From S2P Require Import Worker WorkerReads WorkerCommit WorkerViews WorkerStore.
From S2P Require Import Website Totp Personal PersonalLegacy Replica PersonalStore.
From S2P Require Import SyncIdentity SyncGroup SyncMembers SyncPairing SyncPacket SyncState.
From S2P Require Import SyncDocument SyncEdits SyncWorker SyncStore.

Section SyncHistory.
Context `{Sha256, Base64, MlDsa65, Aes256Gcm, HmacSha256, Signers, Random, HpkeOk, Base64StandardOk}.
Context `{SerdeOk EncodedUpdate} `{!SerdeChunks EncodedUpdate} `{!SerdeChunksOk EncodedUpdate}.
Context `{SerdeOk Personal.PersonalSecret} `{AutomergeChanges} `{!AutomergeOk} `{!AutomergeChangesOk}.
Context `{SerdeOk SecretRecord, Serde RecordDeadline, SerdeOk ReplicaCatalog} `{!RecordSerdeOk}.
Context `{Serde HistoryEntry, Serde HistoryLog, SerdeOk WrappedKey, SerdeOk EncryptedSnapshot}.
Context `{SerdeOk CurrentHead, SerdeOk StateManifest, Serde Index, AttributeJson}.
Context `{SerdeOk (list MemberPublicKeys)} `{Serde (Body MembershipWire)}.
Context `{SerdeOk CertificateWire} `{SerdeOk (list CertificateWire)}.
Context `{Serde (MemberId * bytes * bytes * MemberId)}.
Context `{SerdeOk PairingInvitation} `{Serde RequestBody} `{Serde PairingRequest}.
Context `{Serde PacketContext} `{Serde PacketBody} `{SerdeOk Packet} `{SerdeOk PersonalSyncState}.
Context `{!DeadlineSerdeOk, !Sha256Ok, !Aes256GcmOk, !RandomOk} (Hfit : manifests_fit).
Context (unix_time : nat → VaultResult Z) (kem_seed : nat → nat → bytes).
Abbreviation WM := (SM StoreWorker).
Abbreviation PERSONAL := PERSONAL_SECRET_NAMESPACE.

(** What a worker keeps of sync. *)
Definition sync_at (w : StoreWorker) (s : PersonalSyncState) (c : ReplicaCatalog) : Prop :=
  ∃ d, sync_document w d ∧ document_is_personal d = true ∧ says d s c.

Lemma sync_at_ext w w' s c : same_data w w' → sync_at w s c → sync_at w' s c.
Proof. intros Hw (d & Hd & ?). exists d. split; [by eapply sync_document_ext|done]. Qed.

Lemma sync_at_read w d s c :
  sync_at w s c → sync_document w d → sync_state d = Ok s ∧ personal_replicas d = Ok c ∧ says d s c.
Proof.
  intros (d' & Hd' & Hp & Hs) Hd. rewrite (sync_document_inj _ _ _ Hd Hd').
  by destruct (says_read _ _ _ Hp Hs).
Qed.
Lemma sync_at_inj w s c s' c' : sync_at w s c → sync_at w s' c' → s = s' ∧ c = c'.
Proof.
  intros Hat (d & Hd & Hp & Hs). destruct (sync_at_read _ _ _ _ Hat Hd) as (Hx & Hy & _).
  destruct (says_read _ _ _ Hp Hs). split; congruence.
Qed.

(** ** Edits of items *)

(** A step that keeps the state of sync, and lets the items that changed wait. *)
Definition stays (w w' : StoreWorker) : Prop :=
  same_identity w w' ∧ ∀ s c, sync_at w s c → ∃ c', sync_at w' s c' ∧ all_wait c c'.

Lemma stays_same w w' : same_data w w' → stays w w'.
Proof.
  intros Hw. split; [by apply same_data_identity|]. intros s c Hat. exists c.
  split; [by eapply sync_at_ext|]. intros id. apply waits_refl.
Qed.
Lemma stays_trans w1 w2 w3 : stays w1 w2 → stays w2 w3 → stays w1 w3.
Proof.
  intros [[Hd Hs] Hx] [[Hd' Hs'] Hy]. split; [split; congruence|]. intros s c Hat.
  destruct (Hx s c Hat) as (c1 & Hat1 & Hw). destruct (Hy s c1 Hat1) as (c2 & Hat2 & Hw').
  exists c2. split; [done|]. intros id. by eapply waits_trans.
Qed.

(** The document of an edit is the personal one, or is stored elsewhere. *)
Definition edits_at (w : StoreWorker) (k : DocumentKind) (p : bytes) : Prop :=
  k = LocalKeyring ∧ p = PERSONAL ∨ document_id w k p ≠ personal_id w.

(** A change of items as the store takes it, with any result. *)
Inductive store_edit (w w' : StoreWorker) : Prop :=
| edit_put k p a b e prov now r :
    edits_at w k p → put_at k p a b e prov now w = (r, w') → store_edit w w'
| edit_mutate k p ops prov now r :
    edits_at w k p → mutate k p ops prov now w = (r, w') → store_edit w w'
| edit_delete k p a prov now r :
    edits_at w k p → delete_at k p a prov now w = (r, w') → store_edit w w'
| edit_clear k p prov now r :
    edits_at w k p → clear_at k p prov now w = (r, w') → store_edit w w'.

Lemma committed_stays w k p d current m ctx r w' :
  edits_at w k p → opened w k p d current →
  (k = LocalKeyring → p = PERSONAL → sync_document w d) → finished d m →
  (document_is_personal d = true → edit_reloads d m) →
  commit_mutation (document_id w k p) k current m ctx w = (r, w') → stays w w'.
Proof using All.
  intros Hat Ho Hdoc Hf He Hc. destruct Hat as [[-> ->]|Hne].
  - pose proof (sync_document_opened _ _ _ Ho) as (_ & Hp & Hk & Hpart).
    destruct (He Hp) as [_ Hre]. rewrite Hk, Hpart in Hre.
    destruct (sync_commit Hfit unix_time kem_seed _ _ _ _ _ _ _ _ Ho Hf Hre Hc) as [[_ Hd]|(Hi & d2 & Hd2 & Hper & Hs)];
      [by apply stays_same|].
    split; [done|]. intros s c Hsync. destruct (sync_at_read _ _ _ _ Hsync (Hdoc eq_refl eq_refl)) as (_ & _ & Hsays).
    destruct (Hs s c Hsays) as (c' & Hc' & Hw). exists c'. split; [|done]. by exists d2.
  - pose proof Ho as (_ & _ & _ & _ & Hcount & _). destruct Hf as (_ & _ & Hdl).
    eapply (commit_mutation_spec Hfit) in Hc as [[_ Hd]|(Hi & Hother & _)]; [by apply stays_same| |done|done].
    split; [done|]. intros s c (d' & Hd' & Hp & Hs). exists c. split; [|intros id; apply waits_refl].
    exists d'. split; [|done]. unfold sync_document, personal_id in *. rewrite (document_id_ext w w') by done.
    rewrite Hother by done. destruct Hi as [-> _]. done.
Qed.

(** The end of a command that commits what it has, if anything. *)
Lemma tail_stays {A} (m : WM ()) (f : () → WM A) w r w' :
  (∀ r0 w1, m w = (r0, w1) → stays w w1) → (∀ x w1, (f x w1).2 = w1) →
  (x ← m; f x) w = (r, w') → stays w w'.
Proof.
  intros Hm Hf [(e & Hr & ->)|(x & w1 & Hr & Hx)]%sm_bind_either; [by eapply Hm|].
  specialize (Hf x w1). rewrite Hx in Hf. cbn in Hf. subst. by eapply Hm.
Qed.

(** The document of a command, once it is loaded. *)
Lemma loaded_document w k p l :
  loaded_at w (document_id w k p) k (Some p) = Ok (Some l) →
  opened w k p (ld_document l) (Some (ld_head l))
  ∧ (k = LocalKeyring → p = PERSONAL → sync_document w (ld_document l)).
Proof using All.
  intros Hl. split; [by apply opened_loaded|]. intros -> ->. left. by exists l.
Qed.
Lemma opened_document w k p x d current w' :
  loaded_at w (document_id w k p) k (Some p) = Ok x →
  open_or_new (document_id w k p) k p x w = (Ok (d, current), w') →
  w' = w ∧ opened w k p d current ∧ (k = LocalKeyring → p = PERSONAL → sync_document w d).
Proof using All.
  intros Hl Ho. pose proof Ho as Hn. apply open_or_new_Ok in Hn as [-> Hopen]; [|done..].
  split_and!; [done|done|]. intros -> ->. by eapply opened_sync.
Qed.

(** Run a command at the document it loads. *)
Ltac load_edit Hr :=
  unfold at_document, with_context in Hr;
  apply sm_bind_either in Hr as [(?e & Hr & ->)|(?x & ?w1 & ?Hl & Hr)];
  [apply load_failed in Hr; by apply stays_same|];
  apply load_step in Hl as [?Hd ?Hl]; eapply stays_trans; [by apply stays_same|];
  match goal with H : same_data ?w ?w1 |- _ =>
    rewrite <- (document_id_ext w w1) in * by (by apply same_data_identity) end.

Lemma edits_at_ext w w1 k p : same_data w w1 → edits_at w k p → edits_at w1 k p.
Proof.
  intros Hw. unfold edits_at, personal_id. by rewrite !(document_id_ext w w1) by (by apply same_data_identity).
Qed.

Lemma put_stays w k p a b e prov now r w' :
  edits_at w k p →
  at_document k p (λ id, with_context prov now (worker_put id k p a b e)) w = (r, w') → stays w w'.
Proof using All.
  intros Hat Hr. load_edit Hr. apply (edits_at_ext w w1) in Hat; [|done].
  apply sm_bind_either in Hr as [(x' & Hr & ->)|([d current] & w2 & Ho & Hr)].
  { apply open_or_new_Err in Hr as ->. by apply stays_same. }
  apply opened_document in Ho as (-> & Ho & Hdoc); [|done].
  apply sm_bind_either in Hr as [(x' & Hr & ->)|([m d'] & w2 & Hput & Hr)].
  { apply on_document_Err in Hr as ->. by apply stays_same. }
  apply on_document_Ok in Hput as [Hput ->]. pose proof Ho as (Hok & _).
  eapply committed_stays; [exact Hat|exact Ho|done|by eapply document_put_finished| |exact Hr].
  intros Hp. by eapply document_put_edit.
Qed.

Lemma mutate_stays w k p ops prov now r w' :
  edits_at w k p →
  at_document k p (λ id, with_context prov now (worker_mutate id k p ops)) w = (r, w') → stays w w'.
Proof using All.
  intros Hat Hr. load_edit Hr. apply (edits_at_ext w w1) in Hat; [|done].
  destruct (bool_decide (is_Some x) || existsb is_put ops); [|injection Hr as _ <-; by apply stays_same].
  apply sm_bind_either in Hr as [(x' & Hr & ->)|([d current] & w2 & Ho & Hr)].
  { apply open_or_new_Err in Hr as ->. by apply stays_same. }
  apply opened_document in Ho as (-> & Ho & Hdoc); [|done].
  apply sm_bind_either in Hr as [(x' & Hr & ->)|([m d'] & w2 & Hput & Hr)].
  { apply on_document_Err in Hr as ->. by apply stays_same. }
  apply on_document_Ok in Hput as [Hput ->]. pose proof Ho as (Hok & _). cbn [fst snd] in *.
  destruct m as [m|]; [|injection Hr as _ <-; by apply stays_same].
  eapply committed_stays; [exact Hat|exact Ho|done|by eapply document_apply_finished| |exact Hr].
  intros Hp. by eapply document_apply_edit.
Qed.

Lemma delete_stays w k p a prov now r w' :
  edits_at w k p →
  at_document k p (λ id, with_context prov now (worker_delete id k p a)) w = (r, w') → stays w w'.
Proof using All.
  intros Hat Hr. load_edit Hr. apply (edits_at_ext w w1) in Hat; [|done].
  destruct x as [l|]; [|injection Hr as _ <-; by apply stays_same].
  apply loaded_document in Hl as [Ho Hdoc].
  apply sm_bind_either in Hr as [(x' & Hr & ->)|([m d'] & w2 & Hdel & Hr)].
  { apply on_document_Err in Hr as ->. by apply stays_same. }
  apply on_document_Ok in Hdel as [Hdel ->]. pose proof Ho as (Hok & _). cbn [fst snd] in *.
  destruct m as [m|]; [|injection Hr as _ <-; by apply stays_same].
  eapply tail_stays; [| |exact Hr]; [|done]. intros r0 w3 Hc.
  eapply committed_stays; [exact Hat|exact Ho|done|by eapply document_remove_finished| |exact Hc].
  intros Hp. by eapply document_remove_edit.
Qed.

Lemma clear_stays w k p prov now r w' :
  edits_at w k p →
  at_document k p (λ id, with_context prov now (worker_clear id k p)) w = (r, w') → stays w w'.
Proof using All.
  intros Hat Hr. load_edit Hr. apply (edits_at_ext w w1) in Hat; [|done].
  destruct x as [l|]; [|injection Hr as _ <-; by apply stays_same].
  apply loaded_document in Hl as [Ho Hdoc].
  apply sm_bind_either in Hr as [(x' & Hr & ->)|([m d'] & w2 & Hdel & Hr)].
  { apply on_document_Err in Hr as ->. by apply stays_same. }
  apply on_document_Ok in Hdel as [Hdel ->]. pose proof Ho as (Hok & _). cbn [fst snd] in *.
  destruct m as [[n m]|]; [|injection Hr as _ <-; by apply stays_same].
  eapply tail_stays; [| |exact Hr]; [|done]. intros r0 w3 Hc.
  eapply committed_stays; [exact Hat|exact Ho|done|by eapply document_clear_finished| |exact Hc].
  intros Hp. by eapply document_clear_edit.
Qed.

Lemma request_stays {A} (m : WM A) w r w' :
  (∀ w1 r1 w2, same_data w w1 → m w1 = (r1, w2) → stays w1 w2) → request m w = (r, w') → stays w w'.
Proof.
  intros Hm Hr. apply request_spec in Hr as [[_ Hd]|(w1 & r1 & w2 & Hd1 & Hr & Hd2 & _)]; [by apply stays_same|].
  eapply stays_trans; [by apply stays_same|]. eapply stays_trans; [by eapply Hm|by apply stays_same].
Qed.

Lemma edit_stays w w' : store_edit w w' → stays w w'.
Proof using All.
  intros [k p a b e prov now r Hat Hr|k p ops prov now r Hat Hr|k p a prov now r Hat Hr|k p prov now r Hat Hr];
    (eapply request_stays in Hr; [exact Hr|]; intros w1 r1 w2 Hd Hrun; apply (edits_at_ext w w1) in Hat; [|done]).
  - by eapply put_stays.
  - by eapply mutate_stays.
  - by eapply delete_stays.
  - by eapply clear_stays.
Qed.

(** ** What is prepared *)

Lemma from_update_id u actor r : from_update u actor = Ok r → rp_id r = pu_item_id u.
Proof.
  unfold from_update. intros [_ Hu]%then_Ok. apply bind_Ok in Hu as ([changes res] & _ & Hu).
  apply bind_Ok in Hu as (r0 & Hr0 & Hu). apply bind_Ok in Hu as (d & _ & Hu).
  destruct (am_get_missing_deps d) as [missing d1]. destruct (am_get_changes d1) as [all d2].
  apply then_Ok in Hu as [_ Hu]. apply bind_Ok in Hu as (? & _ & Hu). apply bind_Ok in Hu as (? & _ & [= <-]).
  unfold replica_create in Hr0. by apply then_Ok in Hr0 as [_ [= <-]].
Qed.
Lemma sync_replica_id d id r : sync_replica d id = Ok r → rp_id r = id.
Proof.
  unfold sync_replica. intros (c & _ & Hr)%bind_Ok. apply bind_Ok in Hr as (found & Hf & Hr).
  apply ok_or_Ok in Hr as ->. unfold load_from, catalog_load in Hf.
  destruct (rc_replicas c !! id) as [b|]; [|done]. apply bind_Ok in Hf as (r' & Hl & [= <-]).
  change (load_replica id b (am_actor (sd_document d)) = Ok r') in Hl. unfold load_replica in Hl.
  apply bind_Ok in Hl as (u & _ & Hl). apply then_Ok in Hl as [Hid Hl].
  apply fail_if_Ok, negb_false_iff, String.eqb_eq in Hid. by rewrite (from_update_id _ _ _ Hl).
Qed.
Lemma update_id r u : (replica_update r).1 = Ok u → pu_item_id u = rp_id r.
Proof.
  unfold replica_update, on_replica, reading, lift, mbind, sm_bind.
  destruct (am_get_changes (rp_document r)) as [changes d]. cbn. destruct (fail_if _ _); [|done].
  by intros [= <-].
Qed.

(** A prepared packet was sealed, for a membership of this vault, from the whole of its item
    at the heads that are kept with it. *)
Definition sealed_for (p : PreparedPublication) : Prop :=
  ∃ identity u m dek operation nonce seed v r r',
    membership_wf m ∧ length dek = 32%nat ∧ seal_update identity u m (Ok dek) operation nonce seed = Ok v
    ∧ vp_bytes v = pp_packet p ∧ rp_id r = pp_item_id p
    ∧ replica_heads r = (Ok (pp_heads p), r') ∧ (replica_update r').1 = Ok u.

(** What members open a packet to: the whole of an item at these heads. *)
Definition opens_to (v : VerifiedPacket) (m : Membership) (id : string) (heads : list bytes) : Prop :=
  ∃ u r r', pu_item_id u = id ∧ replica_heads r = (Ok heads, r') ∧ (replica_update r').1 = Ok u
    ∧ ((∀ es ss reader, from_seeds es ss = Ok reader → ri_public reader ∈ ms_members m →
          packet_open v reader m = Ok u)
       ∨ ∃ m', memberships_collide m' m).

Lemma sealed_opens_to p m v :
  sealed_for p → membership_wf m → packet_verify (pp_packet p) m = Ok v →
  opens_to v m (pp_item_id p) (pp_heads p).
Proof using All.
  intros (identity & u & m0 & dek & op & nonce & seed & v0 & r & r' & Hwf & Hdek & Hs & Hb & Hid & Hh & Hu)
    Hm Hv. exists u, r, r'.
  assert (rp_id r' = rp_id r) as Hr by (pose proof (keeps_values_heads r) as [_ <-]; by rewrite Hh).
  split_and!; [|done|done|].
  { apply update_id in Hu. congruence. }
  pose proof Hs as Hv0. unfold seal_update in Hv0.
  do 10 apply bind_Ok in Hv0 as (? & _ & Hv0). apply bind_Ok in Hv0 as (b & _ & Hv0).
  pose proof (packet_verify_Ok _ _ _ Hv0) as (_ & <- & _). rewrite Hb in Hv0.
  destruct (verified_twice _ _ _ _ _ Hwf Hm Hv0 Hv) as [<- [<-|Hc]]; [left|right; by exists m0].
  intros es ss reader Hr0 Hin. by eapply sealed_opens.
Qed.

(** ** How one command changes the state *)

Definition prepared_moves (s s' : PersonalSyncState) : Prop :=
  ys_prepared s' = ys_prepared s ∨ ys_prepared s' = None
  ∨ ∃ p, ys_prepared s' = Some p ∧ sealed_for p.
Definition members_wf (s : PersonalSyncState) : Prop := ∀ m, ys_membership s = Some m → membership_wf m.

Inductive state_moves (w : StoreWorker) (s : PersonalSyncState) (s' : PersonalSyncState) : Prop :=
| moves_aside :
    ys_pairing s' = ys_pairing s → ys_membership s' = ys_membership s →
    ys_reader s' = ys_reader s ∨ ys_reader s = None → prepared_moves s s' →
    ys_receipts s `prefix_of` ys_receipts s' →
    state_moves w s s'
| moves_pairing s1 identity now dr p reply s2 :
    s1 = s ∨ ys_reader s = None ∧ (∃ x, s1 = set_reader x s) →
    reader_of w s1 = Ok identity → command_made p →
    pairing_handle identity now dr s1 p = Ok (reply, s2) →
    s' = s2 ∨ s' = set_prepared None s2 →
    state_moves w s s'
| moves_configured m identity :
    ps_group (ys_pairing s) = None → ps_introduction (ys_pairing s) = None →
    reader_of w s = Ok identity → ri_public identity ∈ ms_members m → membership_wf m →
    (∀ current, ys_membership s = Some current →
       ms_group current = ms_group m ∧ ms_epoch current < ms_epoch m) →
    s' = set_prepared None (set_membership (Some m) s) →
    state_moves w s s'.

Lemma reader_of_ext w w' s : same_identity w w' → reader_of w' s = reader_of w s.
Proof. unfold reader_of. by intros [-> ->]. Qed.

Lemma sync_open_ext w w' s b : same_identity w w' → sync_open w' s b = sync_open w s b.
Proof.
  intros Hi. unfold sync_open. destruct (ok_or _ _) as [m|]; [|done]. cbn.
  destruct (map_err _ _) as [v|]; [|done]. cbn. by rewrite (reader_of_ext w w').
Qed.

Lemma ensured s w s1 w1 :
  ensure_reader s w = (Ok s1, w1) → s1 = s ∨ ys_reader s = None ∧ ∃ x, s1 = set_reader x s.
Proof.
  unfold ensure_reader. destruct (ys_reader s); [intros [= <- _]; by left|]. intros Hens. right.
  split; [done|]. do 3 apply sm_bind_Ok in Hens as (? & ? & _ & Hens). injection Hens as <- _. by eexists.
Qed.

Lemma prepare_seals d s c w s' c' reply w' :
  members_wf s → sync_prepare kem_seed d s c w = (Ok (SyncStep.Save s' c' reply), w') →
  c' = c ∧ ∃ p, s' = set_prepared (Some p) s ∧ sealed_for p.
Proof using All.
  intros Hwf Hh. unfold sync_prepare in Hh.
  apply sm_bind_Ok in Hh as (m & ? & [Hm ->]%lift_Ok & Hh). apply ok_or_Ok in Hm.
  destruct (ys_prepared s); [by apply sm_bind_Ok in Hh as (? & ? & _ & [=])|].
  destruct (next_pending c) as [id|]; [|discriminate].
  apply sm_bind_Ok in Hh as (identity & ? & _ & Hh). apply sm_bind_Ok in Hh as (r & ? & [Hr ->]%lift_Ok & Hh).
  apply sm_bind_Ok in Hh as ([heads r1] & ? & [Hheads%replica_call_Ok ->]%lift_Ok & Hh).
  apply sm_bind_Ok in Hh as ([u r2] & ? & [Hu%replica_call_Ok ->]%lift_Ok & Hh).
  apply sm_bind_Ok in Hh as (seed & w1 & _ & Hh). apply sm_bind_Ok in Hh as (draw & w2 & [= <- _] & Hh).
  apply sm_bind_Ok in Hh as (v & ? & [Hv ->]%lift_Ok & Hh). injection Hh as <- <- _ _.
  split; [done|]. eexists. split; [done|].
  destruct (random_fill (w_tick w1) 0 32) as [dek|e] eqn:Hdek.
  - exists identity, u, m, dek. do 3 eexists. exists v, r, r1.
    split_and!; [by apply Hwf|by eapply random_length|exact Hv|done|by eapply sync_replica_id|done|by rewrite Hu].
  - unfold seal_update in Hv. do 3 apply bind_Ok in Hv as (? & _ & Hv). discriminate.
Qed.

Lemma saves_moves w d s c cmd s' c' :
  sync_command_made cmd → members_wf s → saves unix_time kem_seed w d s c cmd s' c' → state_moves w s s'.
Proof using All.
  intros Hmade Hwf Hs. destruct Hs as [p w1 w2 s' c' reply Hw Hh|w1 w2 s' c' reply Hw Hh|m w1 s' c' reply Hw Hh
    |w1 w2 s' c' reply _ Hh|packet s' c' reply Hh].
  - unfold sync_pairing in Hh. do 2 apply sm_bind_Ok in Hh as (? & ? & [_ ->]%lift_Ok & Hh).
    apply sm_bind_Ok in Hh as (s1 & w3 & Hens & Hh).
    apply sm_bind_Ok in Hh as (identity & ? & [= Hid <-] & Hh).
    pose proof (keeps_ensure s _ _ _ Hens) as Hw3. rewrite (reader_of_ext w) in Hid
      by (apply same_data_identity; by etrans).
    do 2 apply sm_bind_Ok in Hh as (? & ? & _ & Hh).
    apply sm_bind_Ok in Hh as ([rp s2] & ? & [= Hp _] & Hh).
    apply sm_bind_Ok in Hh as (? & ? & _ & [= Hh _]).
    eapply (moves_pairing _ _ _ s1); [by eapply ensured|exact Hid|exact Hmade|exact Hp|].
    destruct (_ || _); [discriminate|]. case_bool_decide; injection Hh as <- _ _; [by left|by right].
  - unfold sync_identity in Hh. destruct (ys_reader s) as [x|] eqn:Hx;
      [apply sm_bind_Ok in Hh as (? & ? & _ & [=])|].
    apply sm_bind_Ok in Hh as (s1 & w3 & Hens & Hh). apply sm_bind_Ok in Hh as (? & ? & _ & [= <- _ _ _]).
    apply ensured in Hens as [->|[_ [y ->]]]; (apply moves_aside; [done|done|by right|by left|done]).
  - unfold sync_configure in Hh. apply then_Ok in Hh as [Hf Hh]. apply fail_if_Ok in Hf.
    rewrite !orb_false_iff, !bool_decide_eq_false, <- !eq_None_not_Some in Hf.
    destruct Hf as [[Hg _] Hi]. apply bind_Ok in Hh as (identity & Hid & Hh).
    apply then_Ok in Hh as [Hm Hh]. apply fail_if_Ok, negb_false_iff, bool_decide_eq_true in Hm.
    rewrite (reader_of_ext w) in Hid by (by apply same_data_identity).
    eapply moves_configured; [done|done|exact Hid|exact Hm|exact Hmade| |].
    + intros current Hcur. rewrite Hcur in Hh. case_bool_decide; [discriminate|].
      apply then_Ok in Hh as [Hf _]. apply fail_if_Ok in Hf. rewrite orb_false_iff in Hf.
      destruct Hf as [Hgr He]. apply negb_false_iff, bool_decide_eq_true in Hgr.
      apply Z.leb_gt in He. done.
    + destruct (ys_membership s); [|by injection Hh as <- _ _].
      case_bool_decide; [discriminate|]. by apply then_Ok in Hh as [_ [= <- _ _]].
  - apply prepare_seals in Hh as (_ & p & -> & Hp); [|done].
    apply moves_aside; [done|done|by left|right; right; by exists p|done].
  - unfold sync_stored in Hh. do 3 apply bind_Ok in Hh as (? & _ & Hh). apply then_Ok in Hh as [_ Hh].
    apply bind_Ok in Hh as (? & _ & Hh). apply bind_Ok in Hh as ([? ?] & _ & [= <- _ _]).
    apply moves_aside; [done|done|by left|right; by left|done].
Qed.

(** What a worker keeps is well formed for the reader it has; without one it has no group; its
    membership is one that was made, and what is prepared was sealed. *)
Definition sync_held (w : StoreWorker) (s : PersonalSyncState) : Prop :=
  (∀ identity, reader_of w s = Ok identity → sync_ok identity s)
  ∧ (ys_reader s = None → ps_group (ys_pairing s) = None ∧ ps_introduction (ys_pairing s) = None)
  ∧ members_wf s ∧ ∀ p, ys_prepared s = Some p → sealed_for p.
(** What lasts of a state: the chain of its group, and its receipts. *)
Definition lasts (s s' : PersonalSyncState) : Prop :=
  (∀ g, group_of s g → ∃ g', group_of s' g' ∧ rtc accepts g g')
  ∧ ys_receipts s `prefix_of` ys_receipts s'.

Lemma lasts_refl s : lasts s s.
Proof. split; [|done]. intros g Hg. by exists g. Qed.
Lemma lasts_trans s1 s2 s3 : lasts s1 s2 → lasts s2 s3 → lasts s1 s3.
Proof.
  intros [Hg Hr] [Hg' Hr']. split; [|by etrans]. intros g Hgs.
  destruct (Hg g Hgs) as (x & Hx & Hgx). destruct (Hg' x Hx) as (y & Hy & Hxy). exists y.
  split; [done|by etrans].
Qed.

Lemma group_of_same s s' g : ys_pairing s' = ys_pairing s → group_of s g → group_of s' g.
Proof. unfold group_of. by intros ->. Qed.

Lemma no_group_ok identity s :
  ps_group (ys_pairing s) = None → ps_introduction (ys_pairing s) = None → sync_ok identity s.
Proof. intros Hg Hi. split; intros p; by rewrite ?Hg, ?Hi. Qed.

Lemma prepared_held s s' :
  prepared_moves s s' → (∀ p, ys_prepared s = Some p → sealed_for p) →
  ∀ p, ys_prepared s' = Some p → sealed_for p.
Proof. intros [->|[->|(q & -> & Hq)]] Hs p; [apply Hs|done|by intros [= <-]]. Qed.

Lemma pairing_members identity now dr s c reply s' :
  pairing_handle identity now dr s c = Ok (reply, s') → sync_ok identity s' → members_wf s → members_wf s'.
Proof using All.
  intros Hh [Hg _] Hwf m Hm. apply pairing_keeps in Hh as (_ & _ & _ & [Hs|[p Hp]]).
  - apply Hwf. by rewrite <- Hs.
  - destruct (Hg p Hp) as (_ & g & Hv & _ & Hmem). rewrite Hm in Hmem. injection Hmem as ->.
    apply pinned_verified_made in Hv as [_ Hgwf]. unfold group_wf in Hgwf. rewrite Forall_forall in Hgwf.
    apply (Hgwf (vg_current g)). unfold vg_chain. apply elem_of_app. right. by apply list_elem_of_singleton.
Qed.

(** One change of the state keeps it well formed, and the group unless the next extends it. *)
Lemma moves_held w w' s s' :
  same_identity w w' → sync_held w s → state_moves w s s' → sync_held w' s' ∧ lasts s s'.
Proof using All.
  intros Hi (Hok & Hnone & Hwf & Hprep) Hm. pose proof (lasts_refl s) as [Hstay _].
  destruct Hm as [Hp Hmem Hr Hpm Hrec|s1 identity now dr p reply s2 Hs1 Hid Hmade Hh Hs'
    |m identity Hg Hin Hid _ Hmwf _ ->].
  - split; [|split; [|done]].
    + split_and!; [| |by unfold members_wf; rewrite Hmem|by eapply prepared_held].
      * intros identity Hid. destruct Hr as [Hr|Hr].
        -- apply (sync_ok_same identity s); [by rewrite Hp|by rewrite Hp|done|].
           apply Hok. unfold reader_of in *. destruct Hi as [Hdev Hsec]. by rewrite <- Hr, <- Hdev, <- Hsec.
        -- destruct (Hnone Hr). by apply no_group_ok; rewrite Hp.
      * intros Hn. rewrite Hp. apply Hnone. destruct Hr as [Hr|Hr]; congruence.
    + intros g Hg. exists g. split; [by eapply group_of_same|constructor].
  - assert (sync_ok identity s1 ∧ members_wf s1 ∧ ys_prepared s1 = ys_prepared s
      ∧ ys_receipts s1 = ys_receipts s) as (Hok1 & Hwf1 & Hp1 & Hrec1).
    { destruct Hs1 as [->|[Hn [x ->]]]; [by split_and!; [apply Hok|..]|]. destruct (Hnone Hn).
      split_and!; [by apply no_group_ok|done..]. }
    pose proof (pairing_step _ _ _ _ _ _ _ Hok1 Hmade Hh) as [Hok2 Hstep].
    pose proof (pairing_keeps _ _ _ _ _ _ _ Hh) as (Hr2 & Hp2 & Hrec2 & _).
    pose proof (pairing_members _ _ _ _ _ _ _ Hh Hok2 Hwf1) as Hwf2.
    assert (ys_pairing s' = ys_pairing s2 ∧ ys_membership s' = ys_membership s2
      ∧ ys_reader s' = ys_reader s1 ∧ prepared_moves s s' ∧ ys_receipts s' = ys_receipts s)
      as (Hp' & Hm' & Hr' & Hpm & Hrec').
    { destruct Hs' as [->| ->]; (split_and!; [done..| |cbn; congruence]); [left; congruence|right; by left]. }
    split; [|split; [|by rewrite Hrec']].
    + split_and!; [| |by unfold members_wf; rewrite Hm'|by eapply prepared_held].
      * intros identity' Hid'. assert (identity' = identity) as ->.
        { rewrite (reader_of_ext w w') in Hid' by done. unfold reader_of in *. rewrite Hr' in Hid'. congruence. }
        by apply (sync_ok_same identity s2); [rewrite Hp'|rewrite Hp'|..].
      * intros Hn. unfold reader_of in Hid. by rewrite <- Hr', Hn in Hid.
    + intros g Hg. assert (group_of s1 g) as Hg1.
      { destruct Hs1 as [->|[_ [x ->]]]; done. }
      destruct (Hstep g Hg1) as [Hsame|(g' & Hg' & Hgm & Hacc & _)].
      * exists g. split; [by eapply group_of_same|constructor].
      * exists g'. split; [by eapply group_of_same|]. apply rtc_once. split_and!; [|done|done].
        destruct Hg as (q & _ & Hv). by eapply pinned_verified_made.
  - split; [|split; [|done]].
    + split_and!; [|done| |done].
      * intros identity' _. by apply no_group_ok.
      * by intros m' [= <-].
    + intros g (p & Hp & _). cbn in *. congruence.
Qed.

(** ** How one command changes what waits *)

(** The packet of an item was stored, and what it opens to is what the item holds now. *)
Definition published (w : StoreWorker) (s : PersonalSyncState) (cmd : SyncCommand.sync_command)
    (id : string) : Prop :=
  ∃ v m p d r, cmd = SyncCommand.Stored (vp_id v) ∧ ys_membership s = Some m
    ∧ ys_prepared s = Some p ∧ pp_item_id p = id ∧ packet_verify (pp_packet p) m = Ok v
    ∧ opens_to v m id (pp_heads p)
    ∧ sync_document w d ∧ sync_replica d id = Ok r ∧ (replica_heads r).1 = Ok (pp_heads p).
(** The item was merged with an update from a member, and unless it waits on it holds no more
    than that update. *)
Definition received (w : StoreWorker) (s : PersonalSyncState) (c c' : ReplicaCatalog)
    (cmd : SyncCommand.sync_command) (id : string) : Prop :=
  ∃ b u r, cmd = SyncCommand.Receive b ∧ sync_open w s b = Ok (sha256 b, u) ∧ id = pu_item_id u
    ∧ merged_into u r c c'.

Lemma pend_all_waits c : catalog_ok c → all_wait c (pend_all c).
Proof.
  intros [_ Hp] id. unfold waits. cbn. destruct (decide (id ∈ rc_pending c)); [left; set_solver|by right].
Qed.

Lemma saves_waits w d s c cmd s' c' id :
  sync_held w s → sync_document w d → catalog_ok c → saves unix_time kem_seed w d s c cmd s' c' →
  waits c c' id ∨ published w s cmd id.
Proof using All.
  intros (_ & _ & Hwf & Hprep) Hdoc Hc Hs.
  destruct Hs as [p w1 w2 s' c' reply Hw Hh|w1 w2 s' c' reply Hw Hh|m w1 s' c' reply Hw Hh
    |w1 w2 s' c' reply _ Hh|packet s' c' reply Hh].
  - left. unfold sync_pairing in Hh. do 7 apply sm_bind_Ok in Hh as (? & ? & _ & Hh).
    case_match. apply sm_bind_Ok in Hh as (? & ? & _ & [= Hh _]).
    destruct (_ || _); [discriminate|]. case_bool_decide; injection Hh as <- <- _; [apply waits_refl|].
    by apply pend_all_waits.
  - left. unfold sync_identity in Hh. case_match; apply sm_bind_Ok in Hh as (? & ? & _ & Hh); [discriminate|].
    apply sm_bind_Ok in Hh as (? & ? & _ & [= <- <- <- _]). apply waits_refl.
  - left. unfold sync_configure in Hh. apply then_Ok in Hh as [_ Hh]. apply bind_Ok in Hh as (? & _ & Hh).
    apply then_Ok in Hh as [_ Hh]. destruct (ys_membership s).
    + case_bool_decide; [discriminate|]. apply then_Ok in Hh as [_ [= _ <-]]. by apply pend_all_waits.
    + injection Hh as _ <- _. by apply pend_all_waits.
  - left. apply prepare_seals in Hh as (-> & _); [|done]. apply waits_refl.
  - unfold sync_stored in Hh. apply bind_Ok in Hh as (p & Hp%ok_or_Ok & Hh).
    apply bind_Ok in Hh as (m & Hm%ok_or_Ok & Hh). apply bind_Ok in Hh as (v & Hv & Hh).
    apply then_Ok in Hh as [Hid Hh]. apply fail_if_Ok, negb_false_iff, bool_decide_eq_true in Hid.
    apply bind_Ok in Hh as (r & Hr & Hh). apply bind_Ok in Hh as ([h r'] & Hheads%replica_call_Ok & [= _ <- _]).
    case_bool_decide as Heq; [|left; apply waits_refl]. subst h.
    destruct (decide (id = pp_item_id p)) as [->|Hne].
    + right. exists v, m, p, d, r. rewrite Hid. split_and!; try done; [|by rewrite Hheads].
      eapply sealed_opens_to; [by apply Hprep|by apply Hwf|done].
    + left. unfold waits, pending_remove. cbn. destruct (decide (id ∈ rc_pending c)); [left; set_solver|by right].
Qed.

(** The state and the catalog after one effect. *)
Lemma effect_says w d s c r cmd d2 :
  sync_command_made cmd → sync_held w s → sync_document w d → says d s c →
  sync_effect unix_time kem_seed w d s c r cmd d2 →
  ∃ s' c', says d2 s' c' ∧ state_moves w s s'
    ∧ ∀ id, waits c c' id ∨ published w s cmd id ∨ received w s c c' cmd id.
Proof using All.
  intros Hmade Hheld Hdoc (Hs & Hc & Hok) He. pose proof Hheld as (_ & _ & Hwf & _).
  destruct He as [cmd s' c' d2 Hsv Hst Hcat _|b w1 u outcome s' c' rr values d2 Hw Ho _ [x ->] _ Hst Hcat Hcok _ Hm _ _
    |id expected item c' r0 before r' bs d2 _ _ _ _ _ _ _ _ Hwait Hcat Hcok Hsome Hnone _].
  - exists s', c'. split; [|split; [by eapply saves_moves|]].
    + split; [by left|]. split; [by left|by eapply saves_catalog].
    + intros i. destruct (saves_waits _ _ _ _ _ _ _ i Hheld Hdoc Hok Hsv) as [?|?]; [by left|right; by left].
  - exists (set_receipts (ys_receipts s ++ [x]) s), c'. split; [split; [by left|by split; [left|]]|]. split.
    { apply moves_aside; [done|done|by left|by left|]. by eexists. }
    intros id. destruct (decide (id = pu_item_id u)) as [->|Hne].
    + right; right. exists b, u, rr. split_and!; [done| |done|done].
      rewrite <- Ho. symmetry. by apply sync_open_ext, same_data_identity.
    + left. destruct Hm as (_ & bs & _ & Hr & Hp). unfold waits.
      destruct (decide (id ∈ rc_pending c)) as [Hin|Hout].
      * left. destruct (Hp id Hin) as [?|[? _]]; [done|congruence].
      * right. split; [done|]. by rewrite Hr, lookup_insert_ne.
  - exists s, c'. split; [split; [|by split; [left|]]|split; [|by intros i; left]].
    + destruct Hs as [(b & Hb & Hl & Hr)|[Hn ->]]; [left; exists b; split_and!; [done..|by apply Hsome]|].
      right. split; [by apply Hnone|done].
    + apply moves_aside; [done|done|by left|by left|done].
Qed.

(** ** Steps and histories *)

Lemma call_effect cmd w r w' s c :
  sync_command_made cmd → vault_personal_sync unix_time kem_seed cmd w = (r, w') → sync_at w s c →
  same_data w w' ∧ answered s cmd r
  ∨ ∃ w1 d d2, same_data w w1 ∧ sync_document w1 d ∧ says d s c ∧ same_identity w w'
      ∧ sync_document w' d2 ∧ document_is_personal d2 = true
      ∧ sync_effect unix_time kem_seed w1 d s c r cmd d2.
Proof using All.
  intros Hmade Hr Hat.
  apply request_spec in Hr as [[[e ->] Hd]|(w1 & r1 & w2 & Hw1 & Hr & Hw2 & Hres)].
  { left. split; [done|by destruct cmd]. }
  pose proof (sync_at_ext _ _ _ _ Hw1 Hat) as Hat1.
  pose proof (same_data_identity _ _ Hw1) as Hi1. pose proof (same_data_identity _ _ Hw2) as Hi2.
  assert (∀ x : VaultResult SyncReply.sync_reply, r = x ∨ (∃ e, r = Err e) → answered s cmd x → answered s cmd r) as Hans.
  { intros x [->|[e ->]]; [done|]. by destruct cmd. }
  eapply sync_command_effect in Hr as [[[e ->] Hd]|(d & s' & c' & Hd' & Hp & Hs' & Hc' & _ & Hr)]; [| |done..].
  { left. split; [etrans; [exact Hw1|by etrans]|]. apply (Hans _ Hres). by destruct cmd. }
  destruct (sync_at_read _ _ _ _ Hat1 Hd') as (Hs & Hc & Hsays).
  rewrite Hs in Hs'. rewrite Hc in Hc'. injection Hs' as <-. injection Hc' as <-.
  destruct Hr as [[Hr Ha]|(Hi & d2 & Hd2 & Hp2 & He)].
  { left. split; [etrans; [exact Hw1|by etrans]|]. by apply (Hans _ Hres). }
  right. exists w1, d, d2. split_and!; [done|done|done| |by eapply sync_document_ext|done|].
  - destruct Hi1, Hi, Hi2. split; congruence.
  - destruct Hres as [->|[e ->]]; [done|by eapply effect_Err].
Qed.

(** The membership that is answered is the stored one. *)
Lemma answered_membership w m w' s c :
  vault_personal_sync unix_time kem_seed SyncCommand.Membership w
    = (Ok (SyncReply.Membership m), w') →
  sync_at w s c → ys_membership s = Some m.
Proof using All.
  intros Hr Hat.
  apply request_spec in Hr as [[[e [=]] _]|(w1 & r1 & w2 & Hw1 & Hr & _ & [<-|[e [=]]])].
  apply membership_answered in Hr as (d & s' & Hd & Hs & Hm); [|done..].
  destruct (sync_at_read _ _ _ _ (sync_at_ext _ _ _ _ Hw1 Hat) Hd) as (Hs' & _ & _). congruence.
Qed.

(** One step of a vault: a sync command with any result, or an edit. *)
Definition vault_step (label : option SyncCommand.sync_command) (w w' : StoreWorker) : Prop :=
  match label with
  | Some cmd => sync_command_made cmd ∧ ∃ r, vault_personal_sync unix_time kem_seed cmd w = (r, w')
  | None => store_edit w w'
  end.
Definition vault_run : StoreWorker → StoreWorker → Prop := rtc (λ w w', ∃ label, vault_step label w w').

Lemma held_ext w w' s : same_identity w w' → sync_held w s → sync_held w' s.
Proof.
  intros Hi (Hok & Hrest). split; [|done]. intros identity. rewrite (reader_of_ext w w') by done. apply Hok.
Qed.
Lemma moves_ext w w1 s s' : same_identity w w1 → state_moves w1 s s' → state_moves w s s'.
Proof.
  intros Hi [? ? ?|s1 identity now dr p reply s3 ? Hid ? ? ?|m identity ? ? Hid ? ? ? ?].
  - by apply moves_aside.
  - eapply moves_pairing; [done| |done|done|done]. by rewrite <- (reader_of_ext w w1).
  - eapply moves_configured; [done|done| |done|done|done|done]. by rewrite <- (reader_of_ext w w1).
Qed.

Lemma step_outcome label w w' s c :
  vault_step label w w' → sync_at w s c → sync_held w s →
  same_identity w w' ∧ ∃ s' c', sync_at w' s' c' ∧ sync_held w' s' ∧ lasts s s'
    ∧ ∀ id, waits c c' id
        ∨ ∃ cmd, label = Some cmd ∧ (published w s cmd id ∨ received w s c c' cmd id).
Proof using All.
  intros Hstep Hat Hheld. destruct label as [cmd|].
  - destruct Hstep as [Hmade [r Hr]].
    eapply call_effect in Hr as [[Hd _]|(w1 & d & d2 & Hw & Hd & Hsays & Hi & Hd2 & Hp2 & He)]; [| |done..].
    + pose proof (same_data_identity _ _ Hd) as Hi. split; [done|]. exists s, c.
      split_and!; [by eapply sync_at_ext|by eapply held_ext|apply lasts_refl|]. intros id. left. apply waits_refl.
    + split; [done|]. pose proof (same_data_identity _ _ Hw) as Hi1.
      eapply effect_says in He as (s' & c' & Hs' & Hm & Hall); [|done|by eapply held_ext|done|done].
      apply (moves_ext w) in Hm; [|done]. destruct (moves_held w w' _ _ Hi Hheld Hm) as [Hheld' Hlast].
      exists s', c'. split_and!; [by exists d2|done|done|]. intros id.
      destruct (Hall id) as [?|[(v & m & p & d' & r' & ? & ? & ? & ? & ? & ? & Hdd & ? & ?)
        |(b & u & r' & ? & Ho & ? & ?)]]; [by left|right; exists cmd; split; [done|]..].
      * left. exists v, m, p, d', r'. split_and!; try done. by eapply (sync_document_ext w1 w).
      * right. exists b, u, r'. split_and!; [done| |done..]. rewrite <- Ho. symmetry. by apply sync_open_ext.
  - apply edit_stays in Hstep as [Hi Hst]. split; [done|]. destruct (Hst s c Hat) as (c' & Hat' & Hw).
    exists s, c'. split_and!; [done|by eapply held_ext|apply lasts_refl|]. intros id. by left.
Qed.

Lemma run_outcome w w' s c :
  vault_run w w' → sync_at w s c → sync_held w s →
  same_identity w w' ∧ ∃ s' c', sync_at w' s' c' ∧ sync_held w' s' ∧ lasts s s'.
Proof using All.
  intros Hrun. revert s c. induction Hrun as [w|w x w' [label Hstep] _ IH]; intros s c Hat Hheld.
  { split; [done|]. exists s, c. split_and!; [done|done|apply lasts_refl]. }
  destruct (step_outcome _ _ _ _ _ Hstep Hat Hheld) as (Hi & s1 & c1 & Hat1 & Hheld1 & Hl1 & _).
  destruct (IH _ _ Hat1 Hheld1) as (Hi' & s2 & c2 & Hat2 & Hheld2 & Hl2).
  split; [destruct Hi, Hi'; split; congruence|]. exists s2, c2. split_and!; [done|done|by eapply lasts_trans].
Qed.

(** A vault that was not used for sync yet. *)
Definition unsynced (w : StoreWorker) : Prop := ∃ c, sync_at w sync_state_default c.

Lemma reached_held w0 w s c : unsynced w0 → vault_run w0 w → sync_at w s c → sync_held w s.
Proof using All.
  intros [c0 Hfresh] Hrun Hat.
  destruct (run_outcome _ _ _ _ Hrun Hfresh) as (_ & s1 & c1 & Hat1 & Hheld & _); [by split_and!|].
  by destruct (sync_at_inj _ _ _ _ _ Hat Hat1) as [-> _].
Qed.

(** C12: From a vault that was not used for sync on, whatever sync commands its worker then
    receives and whatever items are edited, with whichever calls of the database failing: the
    stored group is verified, has this reader as a member and is the membership in use, and it
    still contains the whole chain of every group that was stored before, unless two
    certificates collide under SHA-256. *)
Theorem stored_group_never_rolls_back w0 w w' s c g :
  unsynced w0 → vault_run w0 w → sync_at w s c → group_of s g → vault_run w w' →
  ∃ s' c' g', sync_at w' s' c' ∧ group_of s' g'
    ∧ (∀ identity, reader_of w' s' = Ok identity → sync_ok identity s')
    ∧ (incorporated (vg_chain g') (vg_chain g)
       ∨ ∃ a b sub, rtc accepts g a ∧ accepts a b ∧ rtc accepts b g'
           ∧ incorporated (vg_chain b) sub ∧ chains_collide (vg_chain a) sub).
Proof using All.
  intros Hfresh Hrun Hat Hg Hlater. pose proof (reached_held _ _ _ _ Hfresh Hrun Hat) as Hheld.
  destruct (run_outcome _ _ _ _ Hlater Hat Hheld) as (_ & s' & c' & Hat' & [Hok' _] & [Hg' _]).
  destruct (Hg' g Hg) as (g' & Hgs & Hacc). exists s', c', g'. split_and!; [done..|].
  by apply accepted_history.
Qed.


(** ** Packets that are received *)

Lemma sync_document_view w d : sync_document w d → document_view d = worker_view w LocalKeyring PERSONAL.
Proof using All.
  intros [(l & Hl & ->)|[Hl Hn]].
  - by apply opened_loaded in Hl as (_ & _ & _ & Hv & _).
  - by eapply opened_new in Hn as (_ & _ & _ & Hv & _).
Qed.

(** The view after a packet was received, by its outcome. *)
Definition view_after (outcome : ReceiveOutcome.receive_outcome) (id : string)
    (values : list (option Personal.PersonalSecret)) (v v' : DocumentView) : Prop :=
  match outcome with
  | ReceiveOutcome.Duplicate => v' = v
  | ReceiveOutcome.Applied => Z.of_nat (length values) ≤ 1 ∧ shown id values v v'
  | ReceiveOutcome.Conflict => 1 < Z.of_nat (length values) ∧ shown id values v v'
  end.

(** C14: A packet changes a vault only when a member of its membership signed it and its reader
    opens it.  Then its receipt is stored with the merged replica of the item and with the
    visible record, all or nothing: the record is the first of the merged values that is an
    item, the other records stay, and the answer says whether there is a conflict. *)
Theorem received_packet_shown w w' b r s c :
  sync_at w s c → vault_personal_sync unix_time kem_seed (SyncCommand.Receive b) w = (r, w') →
  (same_data w w' ∧ ∀ reply, r = Ok reply →
     reply = SyncReply.Received ReceiveOutcome.Duplicate ∧ has_receipt s (sha256 b))
  ∨ ∃ m v author payload identity u outcome values replica s' c',
      ys_membership s = Some m ∧ packet_verify b m = Ok v
      ∧ author ∈ ms_members m ∧ packet_signed_bytes (vp_packet v) = Ok payload
      ∧ signed_by (mk_signing author) payload (pk_signature (vp_packet v))
      ∧ reader_of w s = Ok identity ∧ packet_open v identity m = Ok u
      ∧ (∀ reply, r = Ok reply → reply = SyncReply.Received outcome)
      ∧ sync_at w' s' c' ∧ recorded s' (sha256 b) (pu_item_id u)
      ∧ values_of replica = Ok values ∧ merged_into u replica c c'
      ∧ view_after outcome (pu_item_id u) values
          (worker_view w LocalKeyring PERSONAL) (worker_view w' LocalKeyring PERSONAL).
Proof using All.
  intros Hat Hr. eapply call_effect in Hr as [[Hd Ha]|(w1 & d & d2 & Hw & Hd & Hsays & Hi & Hd2 & Hp2 & He)];
    [| |done|done].
  { left. split; [done|]. by intros reply ->. }
  right. pose proof (same_data_identity _ _ Hw) as Hi1. inversion He as
    [? ? ? ? Hs|b' w2 u outcome s' c' rr values d' Hw2 Ho _ _ Hrec Hst Hcat Hcok Hv Hm Hshow Hrep|]; subst;
    [by inversion Hs|].
  unfold sync_open in Ho. apply bind_Ok in Ho as (m & Hmem%ok_or_Ok & Ho).
  apply bind_Ok in Ho as (v & Hpv%map_err_Ok & Ho). apply bind_Ok in Ho as (identity & Hid & Ho).
  apply bind_Ok in Ho as (u' & Hopen%map_err_Ok & [= _ ->]).
  pose proof (packet_verify_Ok _ _ _ Hpv) as (_ & _ & _ & _ & _ & author & payload & Hin & _ & Hpl & Hsig).
  exists m, v, author, payload, identity, u, outcome, values, rr, s', c'.
  rewrite (reader_of_ext w) in Hid
    by (apply same_data_identity; by etrans).
  split_and!; try done.
  - exists d2. split_and!; [done|done|]. split; [by left|split; [by left|done]].
  - rewrite <- (sync_document_view _ _ Hd2).
    rewrite <- (sync_document_view w d) by (by eapply (sync_document_ext w1 w)). by destruct outcome.
Qed.

(** A packet that was answered as received has its receipt in the vault. *)
Lemma received_has_receipt w w1 b o s c :
  sync_at w s c →
  vault_personal_sync unix_time kem_seed (SyncCommand.Receive b) w = (Ok (SyncReply.Received o), w1) →
  ∃ s1 c1, sync_at w1 s1 c1 ∧ has_receipt s1 (sha256 b).
Proof using All.
  intros Hat Hfirst.
  eapply call_effect in Hfirst as [[Hd Ha]|(wx & d & d2 & Hw & Hd & Hsays & Hi & Hd2 & Hp2 & He)]; [| |done|done].
  - exists s, c. split; [by eapply sync_at_ext|]. by apply Ha.
  - inversion He as [? ? ? ? Hs|b' w4 u outcome s' c' rr values d' Hw2 Ho _ _ Hrec Hst Hcat Hcok|]; subst;
      [by inversion Hs|]. exists s', c'. split; [|by eexists].
    exists d2. split_and!; [done|done|]. split; [by left|split; [by left|done]].
Qed.

(** C15: A packet that was received is received once: whatever happens between, receiving it again
    changes nothing, and answers that it is a duplicate when it answers. *)
Theorem replayed_packet_changes_nothing w0 w w1 w2 w3 b o r :
  unsynced w0 → vault_run w0 w →
  vault_personal_sync unix_time kem_seed (SyncCommand.Receive b) w = (Ok (SyncReply.Received o), w1) →
  vault_run w1 w2 →
  vault_personal_sync unix_time kem_seed (SyncCommand.Receive b) w2 = (r, w3) →
  same_data w2 w3 ∧ ∀ reply, r = Ok reply → reply = SyncReply.Received ReceiveOutcome.Duplicate.
Proof using All.
  intros Hfresh Hrun Hfirst Hlater Hagain.
  pose proof Hfresh as [c0 Hat0]. destruct (run_outcome _ _ _ _ Hrun Hat0) as (_ & s & c & Hat & _); [by split_and!|].
  assert (vault_run w0 w1) as Hrun1.
  { eapply rtc_r; [exact Hrun|]. exists (Some (SyncCommand.Receive b)). split; [done|]. by eexists. }
  destruct (received_has_receipt _ _ _ _ _ _ Hat Hfirst) as (s1 & c1 & Hat1 & Hrec1).
  pose proof (reached_held _ _ _ _ Hfresh Hrun1 Hat1) as Hheld1.
  destruct (run_outcome _ _ _ _ Hlater Hat1 Hheld1) as (_ & s2 & c2 & Hat2 & _ & [_ [l Hl]]).
  assert (has_receipt s2 (sha256 b)) as Hrec2.
  { destruct Hrec1 as (id & x & Hin & Hx). exists id, x. split; [|done]. rewrite Hl. apply elem_of_app. by left. }
  eapply call_effect in Hagain as [[Hd Ha]|(wx & d & d2 & _ & _ & _ & _ & _ & _ & He)]; [| |done|done].
  - split; [done|]. intros reply ->. by apply Ha.
  - inversion He as [? ? ? ? Hs|? ? ? ? ? ? ? ? ? ? ? Hnew|]; subst; [by inversion Hs|done].
Qed.
End SyncHistory.
