(* ===== verification/Spool.v ===== *)
(** The spool of ciphertext on disk (src/src/personal/sync/spool.rs) with the private files it
    is kept in (src/src/security/files.rs, src/src/security/regular.rs): a directory whose
    system calls may fail and which a crash may catch before it is synchronized. *)
From Stdlib Require Import ZArith Lia Bool.
From stdpp Require Import base numbers gmap strings list.
From S2P Require Import Prelude Text Core Wire Instances StoreSpec Protocol Signature Manifest Envelope Replica Personal.
From S2P Require Import SyncIdentity SyncGroup SyncPacket.

Definition MAX_OBJECTS : Z := 4096.

(** ** The directory *)

Module NodeKind.
(** A regular file, a link to nothing, or anything else. *)
Inductive kind : Set := Regular | Dangling | Other.
End NodeKind.
#[export] Instance node_kind_eq_dec : EqDecision NodeKind.kind.
Proof. solve_decision. Defined.

(** A name of the directory: what it leads to, whether only its owner may use it, and what of
    it reached the disk. *)
Record Node : Set := {
  nd_kind : NodeKind.kind;
  nd_private : bool;
  nd_links : Z;
  nd_bytes : bytes;
  nd_content_synced : bool;
  nd_entry_synced : bool
}.
Definition new_file : Node := {|
  nd_kind := NodeKind.Regular; nd_private := true; nd_links := 1; nd_bytes := [];
  nd_content_synced := false; nd_entry_synced := false |}.
Definition set_bytes (b : bytes) (n : Node) : Node := {|
  nd_kind := nd_kind n; nd_private := nd_private n; nd_links := nd_links n; nd_bytes := b;
  nd_content_synced := false; nd_entry_synced := nd_entry_synced n |}.
Definition sync_content (n : Node) : Node := {|
  nd_kind := nd_kind n; nd_private := nd_private n; nd_links := nd_links n;
  nd_bytes := nd_bytes n; nd_content_synced := true; nd_entry_synced := nd_entry_synced n |}.
Definition set_entry_synced (synced : bool) (n : Node) : Node := {|
  nd_kind := nd_kind n; nd_private := nd_private n; nd_links := nd_links n;
  nd_bytes := nd_bytes n; nd_content_synced := nd_content_synced n; nd_entry_synced := synced |}.

Record SpoolDir : Type := {
  dr_exists : bool;
  dr_is_directory : bool;
  dr_private : bool;
  dr_locked : bool;
  dr_nodes : gmap string Node;
  dr_tick : nat
}.
Definition set_nodes (nodes : gmap string Node) (d : SpoolDir) : SpoolDir := {|
  dr_exists := dr_exists d; dr_is_directory := dr_is_directory d; dr_private := dr_private d;
  dr_locked := dr_locked d; dr_nodes := nodes; dr_tick := dr_tick d |}.
Definition lock_dir (d : SpoolDir) : SpoolDir := {|
  dr_exists := dr_exists d; dr_is_directory := dr_is_directory d; dr_private := dr_private d;
  dr_locked := true; dr_nodes := dr_nodes d; dr_tick := dr_tick d |}.
Definition tick_dir (d : SpoolDir) : SpoolDir := {|
  dr_exists := dr_exists d; dr_is_directory := dr_is_directory d; dr_private := dr_private d;
  dr_locked := dr_locked d; dr_nodes := dr_nodes d; dr_tick := S (dr_tick d) |}.

(** The system: which call fails and how, how much a failed write wrote, the names of
    temporary files, and the order a directory is read in. *)
Class SpoolOs := {
  spool_fault : nat → option string;
  written_before_fault : nat → nat;
  temporary_name : nat → string;
  read_dir_order : nat → gmap string Node → list (string * Node)
}.
Class SpoolOsOk `{SpoolOs} : Prop := {
  temporary_prefix n : is_Some (strip_prefix (as_bytes ".tmp") (as_bytes (temporary_name n)));
  read_dir_all n nodes : read_dir_order n nodes ≡ₚ map_to_list nodes
}.
(** [hex::decode] of the [hex] crate. *)
Class HexDecode := hex_decode : bytes → option bytes.
Class HexDecodeOk `{HexDecode} : Prop :=
  hex_decode_encode b : hex_decode (as_bytes (hex_text b)) = Some b.

Section Calls.
Context `{SpoolOs}.
Abbreviation DM := (SM SpoolDir).

Definition storage (e : string) : VaultError.error :=
  VaultError.Database ("ciphertext spool: " +:+ e).

(** One system call. *)
Definition io : DM () := λ d,
  (match spool_fault (dr_tick d) with Some e => Err (storage e) | None => Ok tt end, tick_dir d).
Definition modify (f : SpoolDir → SpoolDir) : DM () := λ d, (Ok tt, f d).
Definition at_node (name : string) (f : Node → Node) : DM () :=
  modify (λ d, set_nodes (alter f name (dr_nodes d)) d).

Definition node_at (name : string) : DM (option Node) := λ d, (Ok (dr_nodes d !! name), d).
Definition read_dir : DM (list (string * Node)) :=
  _ ← io; stateful (λ d, (Ok (read_dir_order (dr_tick d) (dr_nodes d)), d)).

(** [regular::open_regular]: what the opened handle leads to is checked. *)
Definition check_regular (name : string) : DM Node :=
  found ← node_at name;
  node ← lift (ok_or (storage "no such file") found);
  _ ← lift (fail_if (negb (bool_decide (nd_kind node = NodeKind.Regular)))
        (storage "input must be a regular file"));
  _ ← lift (fail_if (negb (nd_links node =? 1)) (storage "hard-linked inputs are not accepted"));
  mret node.
Definition open_regular (name : string) : DM Node := _ ← io; check_regular name.

(** [files::read_private_file]. *)
Definition read_private_file (name : string) (maximum : Z) : DM bytes :=
  node ← open_regular name;
  _ ← lift (fail_if (negb (nd_private node))
        (storage "input must be owned by the current user and inaccessible to group or other users"));
  _ ← lift (fail_if (maximum <? Z.of_nat (length (nd_bytes node)))
        (storage "input exceeds its size limit"));
  _ ← io;
  mret (nd_bytes node).

(** The temporary file is removed when it is dropped, if that succeeds. *)
Definition drop_temporary (name : string) {A} (e : VaultError.error) : DM A := λ d,
  (Err e, match spool_fault (dr_tick d) with
          | Some _ => tick_dir d
          | None => tick_dir (set_nodes (delete name (dr_nodes d)) d)
          end).
Definition write_temporary (name : string) (b : bytes) : DM () :=
  _ ← io;
  _ ← catch io (λ r d, match r with
        | Ok _ => (Ok tt, set_nodes (alter (set_bytes b) name (dr_nodes d)) d)
        | Err e => (Err e, set_nodes (alter (set_bytes
                     (take (written_before_fault (dr_tick d)) b)) name (dr_nodes d)) d)
        end);
  _ ← io;
  _ ← at_node name sync_content;
  io.
Definition rename (from to : string) (d : SpoolDir) : SpoolDir :=
  match dr_nodes d !! from with
  | Some node => set_nodes (<[to := set_entry_synced false node]> (delete from (dr_nodes d))) d
  | None => d
  end.
(** The directory itself is synchronized. *)
Definition sync_directory : DM () :=
  _ ← io;
  _ ← io;
  modify (λ d, set_nodes (set_entry_synced true <$> dr_nodes d) d).

(** [files::write_private_file]: a private temporary file is written, synchronized and renamed,
    and then the directory is synchronized. *)
Definition write_private_file (name : string) (b : bytes) : DM () :=
  _ ← io;
  temporary ← stateful (λ d, (Ok (temporary_name (dr_tick d)), d));
  found ← node_at temporary;
  _ ← lift (fail_if (bool_decide (is_Some found)) (storage "file exists"));
  _ ← modify (λ d, set_nodes (<[temporary := new_file]> (dr_nodes d)) d);
  _ ← catch (write_temporary temporary b) (λ r, match r with
        | Ok _ => mret tt
        | Err e => drop_temporary temporary e
        end);
  _ ← modify (rename temporary name);
  sync_directory.
End Calls.

(** ** The spool *)

(** The directory is the state; what is left of the record is its quota. *)
Record CiphertextSpool : Set := { cs_quota : Z }.

Definition LOCK : string := ".lock".
Definition packet_name (id : bytes) : string := hex_text id +:+ ".packet".

Definition strip_ending (ending s : bytes) : option bytes :=
  reverse <$> strip_prefix (reverse ending) (reverse s).
Definition lower_hex_digit (b : Byte.byte) : bool :=
  let n := Byte.to_N b in ((48 <=? n) && (n <=? 57) || (97 <=? n) && (n <=? 102))%N.

(** The identifier a packet file is named by. *)
Definition parse_packet_id `{HexDecode} (digits : bytes) : VaultResult bytes :=
  _ ← fail_if (negb (length digits =? 64)%nat || negb (forallb lower_hex_digit digits)) invalid_sync;
  id ← ok_or invalid_sync (hex_decode digits);
  _ ← fail_if (negb (length id =? 32)%nat) invalid_sync;
  Ok id.

Section Spool.
Context `{Sha256, Aes256Gcm, MlDsa65, Hpke, Signers, Base64Standard}.
Context `{Serde EncodedUpdate} `{SerdeChunks EncodedUpdate} `{Serde PersonalSecret}.
Context `{AutomergeChanges}.
Context `{Serde PacketContext} `{Serde PacketBody} `{Serde Packet}.
Context `{SpoolOs, HexDecode}.
Abbreviation DM := (SM SpoolDir).

Definition validate_root : DM () :=
  _ ← io;
  stateful (λ d, ((_ ← fail_if (negb (dr_exists d)) (storage "no such directory");
                   _ ← fail_if (negb (dr_is_directory d)) invalid_sync;
                   fail_if (negb (dr_private d)) invalid_sync), d)).

(** A file of the spool: regular and not too long. *)
Definition spool_file (node : Node) : bool :=
  bool_decide (nd_kind node = NodeKind.Regular)
  && (Z.of_nat (length (nd_bytes node)) <=? MAX_PACKET_BYTES).

(** The loop of [packet_files]; [count] entries were read. *)
Fixpoint list_packets (entries : list (string * Node)) (count : Z) (files : list (bytes * Z))
    : DM (list (bytes * Z)) :=
  match entries with
  | [] => mret files
  | (name, node) :: entries =>
      let count := count + 1 in
      _ ← lift (fail_if (MAX_OBJECTS + 1 <? count) invalid_sync);
      _ ← io;
      _ ← lift (fail_if (negb (utf8_valid (as_bytes name))) invalid_sync);
      if String.eqb name LOCK then list_packets entries count files
      else
        match strip_ending (as_bytes ".packet") (as_bytes name) with
        | None =>
            if bool_decide (is_Some (strip_prefix (as_bytes ".tmp") (as_bytes name)))
            then list_packets entries count files
            else lift (Err invalid_sync)
        | Some digits =>
            id ← lift (parse_packet_id digits);
            _ ← io;
            _ ← lift (fail_if (negb (spool_file node)) invalid_sync);
            let files := files ++ [(id, Z.of_nat (length (nd_bytes node)))] in
            _ ← lift (fail_if (MAX_OBJECTS <? Z.of_nat (length files)) invalid_sync);
            list_packets entries count files
        end
  end.
Definition packet_files : DM (list (bytes * Z)) :=
  _ ← validate_root;
  entries ← read_dir;
  list_packets entries 0 [].

(** The loop of [used_bytes]. *)
Fixpoint add_sizes (entries : list (string * Node)) (count total : Z) : DM Z :=
  match entries with
  | [] => mret total
  | (name, node) :: entries =>
      _ ← io;
      if String.eqb name LOCK then add_sizes entries count total
      else
        let count := count + 1 in
        _ ← lift (fail_if (MAX_OBJECTS <? count) invalid_sync);
        _ ← io;
        _ ← lift (fail_if (negb (spool_file node)) invalid_sync);
        total ← lift (ok_or invalid_sync (u64_checked_add total (Z.of_nat (length (nd_bytes node)))));
        add_sizes entries count total
  end.
Definition used_bytes : DM Z :=
  _ ← packet_files;
  entries ← read_dir;
  add_sizes entries 0 0.

(** [create_root]: a directory of its own, private to its owner. *)
Definition create_root : DM () :=
  _ ← io;
  stateful (λ d, if dr_exists d then (Err (storage "file exists"), d)
                 else (Ok tt, {| dr_exists := true; dr_is_directory := true; dr_private := true;
                                 dr_locked := dr_locked d; dr_nodes := ∅; dr_tick := dr_tick d |})).
(** [Path::exists]: what cannot be looked at is not there. *)
Definition root_exists : DM bool :=
  catch io (λ r d, (Ok (match r with Ok _ => dr_exists d | Err _ => false end), d)).

(** The lock file is made when it is missing, and locked. *)
Definition open_lock : DM () :=
  _ ← io;
  found ← node_at LOCK;
  _ ← (if bool_decide (is_Some found) then mret tt
       else modify (λ d, set_nodes (<[LOCK := new_file]> (dr_nodes d)) d));
  _ ← check_regular LOCK;
  _ ← io;
  _ ← stateful (λ d, (fail_if (dr_locked d) (storage "the lock is held"), d));
  modify lock_dir.

Definition spool_open (quota : Z) : DM CiphertextSpool :=
  _ ← lift (fail_if (quota =? 0) invalid_sync);
  there ← root_exists;
  _ ← (if (there : bool) then mret tt else create_root);
  _ ← validate_root;
  _ ← open_lock;
  used ← used_bytes;
  _ ← lift (fail_if (quota <? used) (VaultError.Protocol "ciphertext spool exceeds its quota"));
  mret {| cs_quota := quota |}.

Definition spool_get (id : bytes) (m : Membership) : DM VerifiedPacket :=
  b ← read_private_file (packet_name id) MAX_PACKET_BYTES;
  packet ← lift (packet_verify b m);
  _ ← lift (fail_if (negb (bool_decide (vp_id packet = id))) invalid_sync);
  mret packet.

(** [Path::try_exists] follows links. *)
Definition path_exists (name : string) : DM bool :=
  _ ← io;
  found ← node_at name;
  mret (opt_test (λ node, negb (bool_decide (nd_kind node = NodeKind.Dangling))) found).

(** A packet that is there already is compared and synchronized again. *)
Definition put_again (b id : bytes) (m : Membership) : DM bytes :=
  there ← spool_get id m;
  _ ← lift (fail_if (negb (bool_decide (vp_bytes there = b))) invalid_sync);
  _ ← open_regular (packet_name id);
  _ ← io;
  _ ← at_node (packet_name id) sync_content;
  _ ← sync_directory;
  mret id.

Definition spool_full (s : CiphertextSpool) (b : bytes) (used : Z) : DM () :=
  let full := VaultError.Protocol "ciphertext spool is full" in
  if u64_saturating_sub (cs_quota s) used <? Z.of_nat (length b) then lift (Err full)
  else
    entries ← read_dir;
    lift (fail_if (MAX_OBJECTS <? Z.of_nat (length entries)) full).

Definition spool_put (s : CiphertextSpool) (b : bytes) (m : Membership) : DM bytes :=
  packet ← lift (packet_verify b m);
  let id := vp_id packet in
  there ← path_exists (packet_name id);
  if (there : bool) then put_again b id m
  else
    used ← used_bytes;
    _ ← spool_full s b used;
    _ ← write_private_file (packet_name id) b;
    mret id.

(** [inventory]: the packets behind a cursor, in order. *)
Definition spool_inventory (after : option bytes) (limit : Z) : DM (list bytes) :=
  _ ← lift (fail_if ((limit =? 0) || (128 <? limit)) invalid_sync);
  files ← packet_files;
  let ids := sort_by of_bytes files.*1 in
  let ids := retain (λ id, match after with Some a => bytes_ltb a id | None => true end) ids in
  mret (take (Z.to_nat limit) ids).
End Spool.

(** * What the spool guarantees: a packet that was put is on disk, whatever call fails later and
    even after a crash, and the spool stays within its quota. *)

(** ** What is on disk *)

Definition on_disk (n : Node) : bool := nd_content_synced n && nd_entry_synced n.
Definition private_file (n : Node) (b : bytes) : Prop :=
  nd_kind n = NodeKind.Regular ∧ nd_private n = true ∧ nd_links n = 1 ∧ nd_bytes n = b.
Definition durable (d : SpoolDir) (name : string) (b : bytes) : Prop :=
  ∃ n, dr_nodes d !! name = Some n ∧ private_file n b ∧ on_disk n = true.

(** A crash keeps what reached the disk; the rest of the directory may be anything. *)
Definition crashed (d d' : SpoolDir) : Prop :=
  ∀ name n, dr_nodes d !! name = Some n → on_disk n = true → dr_nodes d' !! name = Some n.

(** From one directory to another nothing that is on disk is lost. *)
Definition keeps (d d' : SpoolDir) : Prop := ∀ name b, durable d name b → durable d' name b.
#[export] Instance keeps_preorder : PreOrder keeps.
Proof.
  split; [intros d name b Hd; exact Hd|]. intros x y z Hx Hy name b Hd. by apply Hy, Hx.
Qed.

Lemma crashed_keeps d d' : crashed d d' → keeps d d'.
Proof. intros Hc name b (n & Hn & Hf & Hs). exists n. split; [by apply Hc|done]. Qed.
Lemma same_nodes_keeps d d' : dr_nodes d' = dr_nodes d → keeps d d'.
Proof. intros Hd name b (n & Hn & Hf). exists n. by rewrite Hd. Qed.

(** Every step of a program keeps what is on disk. *)
Definition lasting {A} (m : SM SpoolDir A) : Prop := ∀ d, keeps d (m d).2.
(** A program that only looks: it takes time and leaves the directory. *)
Definition looks {A} (m : SM SpoolDir A) : Prop := ∀ d, dr_nodes (m d).2 = dr_nodes d.

Lemma looks_lasting {A} (m : SM SpoolDir A) : looks m → lasting m.
Proof. intros Hm d. apply same_nodes_keeps, Hm. Qed.
Lemma looks_bind {A B} (m : SM SpoolDir A) (f : A → SM SpoolDir B) :
  looks m → (∀ a, looks (f a)) → looks (m ≫= f).
Proof.
  intros Hm Hf d. unfold mbind, sm_bind. specialize (Hm d).
  destruct (m d) as [[a|e] d1]; cbn in *; [|done]. by rewrite (Hf a d1).
Qed.
Lemma looks_run {A} (m : SM SpoolDir A) d r d' : looks m → m d = (r, d') → dr_nodes d' = dr_nodes d.
Proof. intros Hm Hr. specialize (Hm d). by rewrite Hr in Hm. Qed.
Lemma looks_lift {A} (r : VaultResult A) : looks (lift r).
Proof. by intros d. Qed.
Lemma looks_ret {A} (a : A) : looks (mret a).
Proof. by intros d. Qed.
Lemma looks_if {A} (c : bool) (m m' : SM SpoolDir A) : looks m → looks m' → looks (if c then m else m').
Proof. by destruct c. Qed.
Lemma looks_stateful {A} (f : SpoolDir → VaultResult A) : looks (stateful (λ d, (f d, d))).
Proof. by intros d. Qed.
Create HintDb spool.
#[export] Hint Resolve looks_bind looks_lift looks_ret looks_if looks_stateful : spool.

Section Looks.
Context `{SpoolOs, HexDecode}.

Lemma looks_io : looks io.
Proof. by intros d. Qed.
#[local] Hint Resolve looks_io : spool.
Lemma looks_node_at name : looks (node_at name).
Proof. by intros d. Qed.
#[local] Hint Resolve looks_node_at : spool.
Lemma looks_read_dir : looks read_dir.
Proof. unfold read_dir. auto with spool. Qed.
#[local] Hint Resolve looks_read_dir : spool.
Lemma looks_check_regular name : looks (check_regular name).
Proof. unfold check_regular. eauto 10 with spool. Qed.
#[local] Hint Resolve looks_check_regular : spool.
Lemma looks_open_regular name : looks (open_regular name).
Proof. unfold open_regular. eauto 10 with spool. Qed.
#[local] Hint Resolve looks_open_regular : spool.
Lemma looks_read_private_file name maximum : looks (read_private_file name maximum).
Proof. unfold read_private_file. eauto 15 with spool. Qed.
#[local] Hint Resolve looks_read_private_file : spool.
Lemma looks_validate_root : looks validate_root.
Proof. unfold validate_root. eauto with spool. Qed.
#[local] Hint Resolve looks_validate_root : spool.
Lemma looks_list_packets entries count files : looks (list_packets entries count files).
Proof.
  revert count files. induction entries as [|[name node] entries IH]; intros count files; cbn [list_packets];
    [auto with spool|].
  repeat (apply looks_bind; [auto with spool|intros _]). destruct (String.eqb name LOCK); [done|].
  destruct (strip_ending _ _); [eauto 15 with spool|]. apply looks_if; auto with spool.
Qed.
#[local] Hint Resolve looks_list_packets : spool.
Lemma looks_packet_files : looks packet_files.
Proof. unfold packet_files. eauto 10 with spool. Qed.
#[local] Hint Resolve looks_packet_files : spool.
Lemma looks_add_sizes entries count total : looks (add_sizes entries count total).
Proof.
  revert count total. induction entries as [|[name node] entries IH]; intros count total; cbn [add_sizes];
    [auto with spool|].
  apply looks_bind; [auto with spool|intros _]. apply looks_if; eauto 15 with spool.
Qed.
#[local] Hint Resolve looks_add_sizes : spool.
Lemma looks_used_bytes : looks used_bytes.
Proof. unfold used_bytes. eauto 10 with spool. Qed.
Lemma looks_path_exists name : looks (path_exists name).
Proof. unfold path_exists. eauto 10 with spool. Qed.
Lemma looks_spool_full s b used : looks (spool_full s b used).
Proof. unfold spool_full. apply looks_if; eauto with spool. Qed.
Lemma looks_inventory after limit : looks (spool_inventory after limit).
Proof. unfold spool_inventory. eauto 10 with spool. Qed.
End Looks.
#[export] Hint Resolve looks_io looks_node_at looks_read_dir looks_check_regular looks_open_regular
  looks_read_private_file looks_validate_root looks_packet_files looks_used_bytes looks_path_exists
  looks_spool_full looks_inventory : spool.

(** ** What writing does *)

Definition written (b : bytes) : Node := {|
  nd_kind := NodeKind.Regular; nd_private := true; nd_links := 1; nd_bytes := b;
  nd_content_synced := true; nd_entry_synced := false |}.

(** The directory after a private file was written: untouched, with a temporary file left
    behind, with the file renamed but not synchronized, or synchronized. *)
Inductive write_outcome `{SpoolOs} (name : string) (b : bytes) (nodes : gmap string Node)
    : VaultResult () → gmap string Node → Prop :=
| wrote_nothing e : write_outcome name b nodes (Err e) nodes
| wrote_temporary e n node :
    nodes !! temporary_name n = None → (length (nd_bytes node) ≤ length b)%nat →
    write_outcome name b nodes (Err e) (<[temporary_name n := node]> nodes)
| wrote_unsynced e : write_outcome name b nodes (Err e) (<[name := written b]> nodes)
| wrote : write_outcome name b nodes (Ok tt) (set_entry_synced true <$> <[name := written b]> nodes).

Section Writes.
Context `{SpoolOs}.

Lemma write_temporary_spec temp b d r d' nodes :
  dr_nodes d = <[temp := new_file]> nodes → write_temporary temp b d = (r, d') →
  ∃ node, dr_nodes d' = <[temp := node]> nodes ∧ (length (nd_bytes node) ≤ length b)%nat
    ∧ (r = Ok tt → node = written b).
Proof.
  intros Hd. unfold write_temporary, catch, at_node, modify, io, mbind, sm_bind. cbn [fst snd].
  assert (∀ f, alter f temp (<[temp := new_file]> nodes) = <[temp := f new_file]> nodes) as Halter
    by (intros f; by rewrite alter_insert_eq).
  destruct (spool_fault _); [intros [= <- <-]; exists new_file; by split_and!; [|cbn; lia|]|].
  destruct (spool_fault _); cbn; rewrite Hd, Halter.
  { intros [= <- <-]. eexists. split_and!; [done| |done]. cbn. rewrite length_take. lia. }
  destruct (spool_fault _); cbn; [intros [= <- <-]; eexists; by split_and!|].
  rewrite alter_insert_eq.
  destruct (spool_fault _); intros [= <- <-]; cbn; eexists; (split_and!; [done|cbn; lia|done]).
Qed.

Lemma sync_directory_spec d r d' :
  sync_directory d = (r, d') →
  dr_nodes d' = dr_nodes d ∧ (∃ e, r = Err e)
  ∨ dr_nodes d' = set_entry_synced true <$> dr_nodes d ∧ r = Ok tt.
Proof.
  unfold sync_directory, modify, io, mbind, sm_bind.
  destruct (spool_fault _); [intros [= <- <-]; eauto|].
  destruct (spool_fault _); intros [= <- <-]; eauto.
Qed.

Lemma write_private_file_spec name b d r d' :
  write_private_file name b d = (r, d') → write_outcome name b (dr_nodes d) r (dr_nodes d').
Proof.
  unfold write_private_file. intros [(e & Hr & ->)|([] & d1 & Hio & Hr)]%sm_bind_either.
  { apply looks_run in Hr as ->; [constructor|auto with spool]. }
  apply looks_run in Hio as Hn; [|auto with spool]. rewrite <- Hn. clear Hio Hn d.
  unfold stateful in Hr at 1. unfold mbind, sm_bind at 1 in Hr. cbv beta iota in Hr.
  set (temp := temporary_name (dr_tick d1)) in Hr.
  unfold node_at, lift, modify, fail_if in Hr. unfold mbind, sm_bind in Hr. cbv beta iota in Hr.
  case_bool_decide as Hex; [injection Hr as <- <-; constructor|].
  apply eq_None_not_Some in Hex. cbv beta iota in Hr.
  unfold catch in Hr at 1. set (d2 := set_nodes _ d1) in Hr.
  destruct (write_temporary temp b d2) as [r3 d3] eqn:Hw.
  apply (write_temporary_spec temp b d2 _ _ (dr_nodes d1)) in Hw as (node & Hn & Hlen & Hok); [|done].
  destruct r3 as [[]|e].
  - specialize (Hok eq_refl) as ->. cbn in Hr.
    apply sync_directory_spec in Hr as [[Hr [e ->]]|[Hr ->]]; rewrite Hr; unfold rename; rewrite Hn, lookup_insert_eq;
      cbn; rewrite delete_insert_id by done; constructor.
  - unfold drop_temporary in Hr. injection Hr as <- <-.
    destruct (spool_fault _); cbn; rewrite Hn; [by constructor|]. rewrite delete_insert_id by done. constructor.
Qed.

(** Nothing that is on disk is lost by a write to a name nothing is kept under. *)
Lemma durable_insert d d' name node :
  (∀ b, ¬ durable d name b) → dr_nodes d' = <[name := node]> (dr_nodes d) → keeps d d'.
Proof.
  intros Hno Hd other c Hc. destruct (decide (other = name)) as [->|Hne]; [by destruct (Hno c)|].
  destruct Hc as (n & Hn & Hf). exists n. by rewrite Hd, lookup_insert_ne.
Qed.
Lemma durable_synced d d' : dr_nodes d' = set_entry_synced true <$> dr_nodes d → keeps d d'.
Proof.
  intros Hd name b (n & Hn & Hf & Hs). exists (set_entry_synced true n). rewrite Hd, lookup_fmap, Hn.
  split; [done|]. split; [done|]. unfold on_disk in *. cbn. by apply andb_true_iff in Hs as [-> _].
Qed.

Lemma write_keeps name b d r d' :
  (∀ c, ¬ durable d name c) → write_private_file name b d = (r, d') → keeps d d'.
Proof.
  intros Hno Hw%write_private_file_spec. inversion Hw as [e Hr Hd|e n node Hnone Hlen Hr Hd|e Hr Hd|Hr Hd].
  - by apply same_nodes_keeps.
  - apply (durable_insert d d' (temporary_name n) node); [|done]. intros c (m & Hm & _). congruence.
  - by apply (durable_insert d d' name (written b)).
  - trans (set_nodes (<[name := written b]> (dr_nodes d)) d).
    + by apply (durable_insert _ _ name (written b)).
    + by apply durable_synced.
Qed.
End Writes.

(** ** The spool *)

Section Durable.
Context `{Sha256, Aes256Gcm, MlDsa65, Hpke, Signers, Base64Standard}.
Context `{Serde EncodedUpdate} `{SerdeChunks EncodedUpdate} `{Serde PersonalSecret}.
Context `{AutomergeChanges}.
Context `{Serde PacketContext} `{Serde PacketBody} `{Serde Packet}.
Context `{SpoolOs, HexDecode}.

Lemma looks_spool_get id m : looks (spool_get id m).
Proof. unfold spool_get. eauto 10 with spool. Qed.
#[local] Hint Resolve looks_spool_get : spool.

(** What is read privately is a private file. *)
Lemma check_regular_Ok name d n d' :
  check_regular name d = (Ok n, d') →
  d' = d ∧ dr_nodes d !! name = Some n ∧ nd_kind n = NodeKind.Regular ∧ nd_links n = 1.
Proof. unfold check_regular, node_at. intros Hc. inv_sm. bool_prop. naive_solver. Qed.
Lemma read_private_file_Ok name maximum d b d' :
  read_private_file name maximum d = (Ok b, d') →
  ∃ n, dr_nodes d !! name = Some n ∧ private_file n b ∧ Z.of_nat (length b) ≤ maximum.
Proof.
  unfold read_private_file, open_regular. intros Hr. inv_sm. bool_prop.
  match goal with Hc : check_regular _ _ = _, Hi : io _ = _ |- _ =>
    apply check_regular_Ok in Hc as (-> & Hn & ? & ?); apply looks_run in Hi as Hd; [|auto with spool] end.
  match goal with Hd : dr_nodes _ = dr_nodes _ |- _ => idtac end.
  eexists. split; [|split; [split_and!; eauto|lia]].
  repeat match goal with Hi : io _ = (Ok tt, _) |- _ => apply looks_run in Hi; [|auto with spool] end.
  congruence.
Qed.
Lemma spool_get_Ok id m d v d' :
  spool_get id m d = (Ok v, d') →
  packet_verify (vp_bytes v) m = Ok v ∧ id = sha256 (vp_bytes v)
  ∧ ∃ n, dr_nodes d !! packet_name id = Some n ∧ private_file n (vp_bytes v).
Proof.
  unfold spool_get. intros Hg. inv_sm. bool_prop.
  match goal with Hv : packet_verify ?b _ = Ok v, Hr : read_private_file _ _ _ = _ |- _ =>
    pose proof (packet_verify_Ok _ _ _ Hv) as (_ & Hb & Hid & _);
    apply read_private_file_Ok in Hr as (n & Hn & Hf & _); subst b end.
  split_and!; [done|congruence|eauto].
Qed.

(** A file that is on disk is read back, after a crash too. *)
Lemma spool_get_durable id b m v d :
  packet_verify b m = Ok v → id = sha256 b → durable d (packet_name id) b →
  spool_fault (dr_tick d) = None → spool_fault (S (dr_tick d)) = None →
  (spool_get id m d).1 = Ok v.
Proof.
  intros Hv -> (n & Hn & (Hk & Hp & Hl & Hb) & _) Hf Hf'.
  pose proof (packet_verify_Ok _ _ _ Hv) as (_ & _ & Hid & _).
  assert (Z.of_nat (length b) ≤ MAX_PACKET_BYTES) as Hsize.
  { unfold packet_verify in Hv. apply then_Ok in Hv as [Hs _]. apply fail_if_Ok in Hs. bool_prop. lia. }
  unfold spool_get, read_private_file, open_regular, check_regular, node_at, io, lift, mbind, sm_bind.
  rewrite Hf. cbn. rewrite Hn. cbn. rewrite Hk, Hl.
  rewrite (bool_decide_true (NodeKind.Regular = NodeKind.Regular)) by done. cbn. rewrite Hp, Hb. cbn.
  destruct (Z.ltb_spec MAX_PACKET_BYTES (Z.of_nat (length b))); [lia|]. cbn. rewrite Hf'. cbn.
  rewrite Hv. cbn. rewrite Hid. by rewrite bool_decide_true.
Qed.

Lemma alter_keeps name f d :
  (∀ n, nd_kind (f n) = nd_kind n ∧ nd_private (f n) = nd_private n ∧ nd_links (f n) = nd_links n
        ∧ nd_bytes (f n) = nd_bytes n ∧ (on_disk n = true → on_disk (f n) = true)) →
  keeps d (set_nodes (alter f name (dr_nodes d)) d).
Proof.
  intros Hf other c (n & Hn & (Hk & Hp & Hl & Hb) & Hs). destruct (Hf n) as (Fk & Fp & Fl & Fb & Fs).
  destruct (decide (other = name)) as [->|Hne].
  - exists (f n). cbn. rewrite lookup_alter_eq, Hn. split; [done|]. split; [|by apply Fs].
    split_and!; congruence.
  - exists n. cbn. by rewrite lookup_alter_ne.
Qed.

Lemma path_absent name d d' :
  path_exists name d = (Ok false, d') → ∀ c, ¬ durable d' name c.
Proof.
  intros Hp c (n & Hn & (Hk & _) & _). apply looks_run in Hp as Hd; [|auto with spool].
  rewrite Hd in Hn. unfold path_exists, node_at in Hp. inv_sm.
  match goal with Hi : io _ = _ |- _ => apply looks_run in Hi as Hio; [|auto with spool] end.
  rewrite Hio, Hn in *. cbn in *. by rewrite Hk in *.
Qed.

Lemma put_again_spec b id m d r d' :
  put_again b id m d = (r, d') → keeps d d' ∧ (∀ x, r = Ok x → x = id ∧ durable d' (packet_name id) b).
Proof.
  unfold put_again. intros [(e & Hr & ->)|(v & d1 & Hget & Hr)]%sm_bind_either.
  { split; [|done]. apply same_nodes_keeps. eapply looks_run, Hr. auto with spool. }
  pose proof (looks_run _ _ _ _ (looks_spool_get id m) Hget) as Hd1.
  apply spool_get_Ok in Hget as (_ & _ & n & Hn & Hf).
  apply sm_bind_either in Hr as [(e & Hr & ->)|([] & d2 & Heq & Hr)].
  { split; [|done]. injection Hr as _ <-. by apply same_nodes_keeps. }
  apply lift_Ok in Heq as [Heq ->]. inv_ok. bool_prop. rewrite Heq in Hf.
  apply sm_bind_either in Hr as [(e & Hr & ->)|(n' & d2 & Ho & Hr)].
  { split; [|done]. apply same_nodes_keeps. rewrite <- Hd1. eapply looks_run, Hr. auto with spool. }
  apply looks_run in Ho; [|auto with spool].
  apply sm_bind_either in Hr as [(e & Hr & ->)|([] & d3 & Hio & Hr)].
  { split; [|done]. apply same_nodes_keeps. rewrite <- Hd1, <- Ho. eapply looks_run, Hr. auto with spool. }
  apply looks_run in Hio; [|auto with spool].
  unfold at_node, modify in Hr. unfold mbind, sm_bind at 1 in Hr. cbv beta iota in Hr.
  set (d4 := set_nodes _ d3) in Hr.
  assert (keeps d d4) as Hkeep.
  { trans d3; [apply same_nodes_keeps; congruence|]. apply alter_keeps. intros x. split_and!; try done.
    unfold on_disk. cbn. by intros [_ ->]%andb_true_iff. }
  assert (dr_nodes d4 !! packet_name id = Some (sync_content n)) as Hn4.
  { unfold d4. cbn. rewrite lookup_alter_eq. rewrite Hio, Ho, Hd1, Hn. done. }
  unfold mbind, sm_bind in Hr. destruct (sync_directory d4) as [r5 d5] eqn:Hs.
  apply sync_directory_spec in Hs as [[Hs [e ->]]|[Hs ->]]; injection Hr as <- <-.
  - split; [|done]. trans d4; [done|]. by apply same_nodes_keeps.
  - split; [trans d4; [done|by apply durable_synced]|]. intros x [= <-]. split; [done|].
    exists (set_entry_synced true (sync_content n)). rewrite Hs, lookup_fmap, Hn4. split; [done|].
    split; [exact Hf|done].
Qed.

(** What [put] does: it keeps what is on disk, and answers only when the packet is. *)
Lemma spool_put_spec s b m d r d' :
  spool_put s b m d = (r, d') →
  keeps d d' ∧ ∀ id, r = Ok id →
    id = sha256 b ∧ durable d' (packet_name id) b ∧ ∃ v, packet_verify b m = Ok v ∧ vp_id v = id.
Proof.
  unfold spool_put. intros [(e & Hr & ->)|(v & d1 & Hv & Hr)]%sm_bind_either.
  { split; [|done]. apply same_nodes_keeps. eapply looks_run, Hr. auto with spool. }
  apply lift_Ok in Hv as [Hv ->]. pose proof (packet_verify_Ok _ _ _ Hv) as (_ & _ & Hid & _).
  apply sm_bind_either in Hr as [(e & Hr & ->)|(there & d1 & Hthere & Hr)].
  { split; [|done]. apply same_nodes_keeps. eapply looks_run, Hr. auto with spool. }
  apply looks_run in Hthere as Hd1; [|auto with spool]. apply same_nodes_keeps in Hd1.
  destruct there.
  - apply put_again_spec in Hr as [Hk Hok]. split; [by trans d1|].
    intros id Hx. destruct (Hok _ Hx) as [-> Hdur]. split_and!; eauto.
  - pose proof (path_absent _ _ _ Hthere) as Habsent.
    apply sm_bind_either in Hr as [(e & Hr & ->)|(used & d2 & Hused & Hr)].
    { split; [|done]. trans d1; [done|]. apply same_nodes_keeps. eapply looks_run, Hr. auto with spool. }
    apply looks_run in Hused; [|auto with spool].
    apply sm_bind_either in Hr as [(e & Hr & ->)|([] & d3 & Hfull & Hr)].
    { split; [|done]. trans d1; [done|]. apply same_nodes_keeps. rewrite <- Hused. eapply looks_run, Hr. auto with spool. }
    apply looks_run in Hfull; [|auto with spool].
    assert (dr_nodes d3 = dr_nodes d1) as Hd3 by congruence. clear Hused Hfull d2.
    assert (keeps d d3) as Hk3 by (trans d1; [done|by apply same_nodes_keeps]).
    assert (∀ c, ¬ durable d3 (packet_name (vp_id v)) c) as Habsent3.
    { intros c (n & Hn & Hf). apply (Habsent c). exists n. by rewrite <- Hd3. }
    apply sm_bind_either in Hr as [(e & Hr & ->)|([] & d4 & Hw & Hr)].
    { split; [|done]. trans d3; [done|]. by eapply write_keeps. }
    injection Hr as <- <-. split; [trans d3; [done|by eapply write_keeps]|].
    intros id [= <-]. split; [done|]. split; [|by exists v].
    apply write_private_file_spec in Hw. inversion Hw as [| | |Hr Hd].
    exists (set_entry_synced true (written b)). rewrite <- Hd.
    rewrite lookup_fmap, lookup_insert_eq. done.
Qed.
End Durable.

(** ** The quota *)

(** The bytes of the directory that are charged: all but those of the lock. *)
Definition charge (e : string * Node) : Z :=
  if String.eqb e.1 LOCK then 0 else Z.of_nat (length (nd_bytes e.2)).
Definition charges (l : list (string * Node)) : Z := foldr Z.add 0 (charge <$> l).
Definition total (nodes : gmap string Node) : Z := charges (map_to_list nodes).

Lemma charge_bounds e : 0 ≤ charge e ≤ Z.of_nat (length (nd_bytes e.2)).
Proof. unfold charge. destruct (String.eqb _ _); lia. Qed.
Lemma charges_perm l l' : l ≡ₚ l' → charges l = charges l'.
Proof. unfold charges. induction 1; cbn; lia. Qed.
Lemma charges_nonneg l : 0 ≤ charges l.
Proof. unfold charges. induction l as [|e l IH]; cbn; [lia|]. pose proof (charge_bounds e). lia. Qed.

Lemma total_insert_fresh name n nodes :
  nodes !! name = None → total (<[name := n]> nodes) = charge (name, n) + total nodes.
Proof. intros Hn. unfold total. by rewrite (charges_perm _ _ (map_to_list_insert _ _ _ Hn)). Qed.
Lemma total_delete name nodes : total (delete name nodes) ≤ total nodes.
Proof.
  destruct (nodes !! name) as [n|] eqn:Hn; [|by rewrite delete_id].
  rewrite <- (insert_delete_id nodes name n Hn) at 2. rewrite total_insert_fresh by apply lookup_delete_eq.
  pose proof (charge_bounds (name, n)). lia.
Qed.
Lemma total_insert name n nodes :
  total (<[name := n]> nodes) ≤ total nodes + Z.of_nat (length (nd_bytes n)).
Proof.
  rewrite <- insert_delete_eq, total_insert_fresh by apply lookup_delete_eq.
  pose proof (charge_bounds (name, n)). pose proof (total_delete name nodes). cbn in *. lia.
Qed.

(** A change of nodes that keeps their bytes keeps the charge. *)
Lemma total_fmap f nodes : (∀ n, nd_bytes (f n) = nd_bytes n) → total (f <$> nodes) = total nodes.
Proof.
  intros Hf. unfold total. rewrite map_to_list_fmap. unfold charges.
  induction (map_to_list nodes) as [|[name n] l IH]; cbn; [done|]. rewrite IH. unfold charge. cbn. by rewrite Hf.
Qed.
Lemma total_alter f name nodes : (∀ n, nd_bytes (f n) = nd_bytes n) → total (alter f name nodes) = total nodes.
Proof.
  intros Hf. destruct (nodes !! name) as [n|] eqn:Hn.
  - rewrite <- (insert_delete_id nodes name n Hn), alter_insert_eq.
    rewrite !total_insert_fresh by apply lookup_delete_eq. unfold charge. cbn. by rewrite Hf.
  - assert (alter f name nodes = nodes) as ->; [|done]. apply map_eq. intros k.
    destruct (decide (k = name)) as [->|]; [by rewrite lookup_alter_eq, Hn|by rewrite lookup_alter_ne].
Qed.

Section Quota.
Context `{Sha256, Aes256Gcm, MlDsa65, Hpke, Signers, Base64Standard}.
Context `{Serde EncodedUpdate} `{SerdeChunks EncodedUpdate} `{Serde PersonalSecret}.
Context `{AutomergeChanges}.
Context `{Serde PacketContext} `{Serde PacketBody} `{Serde Packet}.
Context `{SpoolOsOk, HexDecode}.

Lemma add_sizes_Ok entries count sum d used d' :
  add_sizes entries count sum d = (Ok used, d') → used = sum + charges entries.
Proof.
  revert count sum d. induction entries as [|[name node] entries IH]; intros count sum d Hs; cbn [add_sizes] in Hs.
  - inv_sm. cbn. lia.
  - inv_sm. unfold charges, charge. cbn [fmap list_fmap foldr fst snd].
    destruct (String.eqb name LOCK); cbn; [apply IH in Hs; unfold charges, charge in Hs; lia|].
    inv_sm. apply IH in Hs. match goal with Hu : u64_checked_add _ _ = Some _ |- _ =>
      apply u64_checked_add_Some in Hu end. unfold charges, charge in Hs. lia.
Qed.
Lemma used_bytes_Ok d used d' : used_bytes d = (Ok used, d') → used = total (dr_nodes d).
Proof.
  unfold used_bytes, read_dir, stateful. intros Hu. inv_sm.
  match goal with Ha : add_sizes _ _ _ _ = _ |- _ => apply add_sizes_Ok in Ha end.
  repeat match goal with
    | Hp : packet_files _ = _ |- _ => apply looks_run in Hp; [|auto with spool]
    | Hp : io _ = _ |- _ => apply looks_run in Hp; [|auto with spool] end.
  rewrite (charges_perm _ _ (read_dir_all _ _)) in Hu. unfold total.
  repeat match goal with Hd : dr_nodes _ = dr_nodes _ |- _ => rewrite Hd in * end. lia.
Qed.

Definition within (s : CiphertextSpool) (d : SpoolDir) : Prop := total (dr_nodes d) ≤ cs_quota s.
Lemma same_nodes_within s d d' : dr_nodes d' = dr_nodes d → within s d → within s d'.
Proof. unfold within. by intros ->. Qed.

Lemma spool_open_within quota d s d' :
  spool_open quota d = (Ok s, d') → cs_quota s = quota ∧ within s d'.
Proof.
  unfold spool_open. intros Ho. inv_sm. bool_prop. split; [done|]. unfold within. cbn.
  match goal with Hu : used_bytes _ = _ |- _ => pose proof (used_bytes_Ok _ _ _ Hu) as ->;
    apply looks_run in Hu as Hd; [|auto with spool] end.
  rewrite Hd. lia.
Qed.

Lemma put_again_total b id m d r d' : put_again b id m d = (r, d') → total (dr_nodes d') = total (dr_nodes d).
Proof.
  unfold put_again. intros [(e & Hr & ->)|(v & d1 & Hget & Hr)]%sm_bind_either.
  { f_equal. eapply looks_run, Hr. apply looks_spool_get. }
  apply looks_run in Hget; [|apply looks_spool_get]. rewrite <- Hget.
  apply sm_bind_either in Hr as [(e & Hr & ->)|([] & d2 & Heq & Hr)]; [by injection Hr as _ <-|].
  apply lift_Ok in Heq as [_ ->].
  apply sm_bind_either in Hr as [(e & Hr & ->)|(n' & d2 & Ho & Hr)].
  { f_equal. eapply looks_run, Hr. auto with spool. }
  apply looks_run in Ho; [|auto with spool]. rewrite <- Ho.
  apply sm_bind_either in Hr as [(e & Hr & ->)|([] & d3 & Hio & Hr)].
  { f_equal. eapply looks_run, Hr. auto with spool. }
  apply looks_run in Hio; [|auto with spool]. rewrite <- Hio.
  unfold at_node, modify in Hr. unfold mbind, sm_bind at 1 in Hr. cbv beta iota in Hr.
  set (d4 := set_nodes _ d3) in Hr.
  assert (total (dr_nodes d4) = total (dr_nodes d3)) as <- by by apply total_alter.
  unfold mbind, sm_bind in Hr. destruct (sync_directory d4) as [r5 d5] eqn:Hs.
  apply sync_directory_spec in Hs as [[Hs [e ->]]|[Hs ->]]; injection Hr as <- <-; rewrite Hs;
    [done|by apply total_fmap].
Qed.

Lemma write_within s name b d r d' :
  total (dr_nodes d) + Z.of_nat (length b) ≤ cs_quota s →
  write_private_file name b d = (r, d') → within s d'.
Proof.
  intros Hroom Hw%write_private_file_spec. unfold within.
  inversion Hw as [e Hr Hd|e n node Hnone Hlen Hr Hd|e Hr Hd|Hr Hd].
  - lia.
  - pose proof (total_insert (temporary_name n) node (dr_nodes d)). lia.
  - pose proof (total_insert name (written b) (dr_nodes d)). cbn in *. lia.
  - rewrite total_fmap by done. pose proof (total_insert name (written b) (dr_nodes d)). cbn in *. lia.
Qed.

Lemma spool_put_within s b m d r d' :
  within s d → spool_put s b m d = (r, d') → within s d'.
Proof.
  intros Hin. unfold spool_put. intros [(e & Hr & ->)|(v & d1 & Hv & Hr)]%sm_bind_either.
  { eapply same_nodes_within, Hin. eapply looks_run, Hr. auto with spool. }
  apply lift_Ok in Hv as [Hv ->].
  apply sm_bind_either in Hr as [(e & Hr & ->)|(there & d1 & Hthere & Hr)].
  { eapply same_nodes_within, Hin. eapply looks_run, Hr. auto with spool. }
  apply looks_run in Hthere; [|auto with spool]. apply (same_nodes_within s) in Hthere; [|done].
  destruct there; [apply put_again_total in Hr; unfold within in *; lia|].
  apply sm_bind_either in Hr as [(e & Hr & ->)|(used & d2 & Hused & Hr)].
  { eapply same_nodes_within, Hthere. eapply looks_run, Hr. auto with spool. }
  pose proof (used_bytes_Ok _ _ _ Hused) as ->. apply looks_run in Hused as Hd2; [|auto with spool].
  apply sm_bind_either in Hr as [(e & Hr & ->)|([] & d3 & Hfull & Hr)].
  { eapply same_nodes_within, Hthere. rewrite <- Hd2. eapply looks_run, Hr. auto with spool. }
  apply looks_run in Hfull as Hd3; [|auto with spool].
  assert (total (dr_nodes d3) + Z.of_nat (length b) ≤ cs_quota s) as Hroom.
  { unfold spool_full, u64_saturating_sub in Hfull. unfold within in Hthere. rewrite Hd3, Hd2.
    destruct (Z.ltb_spec (Z.max (cs_quota s - total (dr_nodes d1)) 0) (Z.of_nat (length b))); [|lia].
    by apply lift_Ok in Hfull as [? _]. }
  apply sm_bind_either in Hr as [(e & Hr & ->)|([] & d4 & Hw & Hr)]; [by eapply write_within|].
  injection Hr as _ <-. by eapply write_within.
Qed.

(** Packets put one after the other, whatever the answers. *)
Definition put_all (s : CiphertextSpool) (d : SpoolDir) (l : list (bytes * Membership)) : SpoolDir :=
  foldl (λ d p, (spool_put s p.1 p.2 d).2) d l.

(** C38: A spool stays within its quota: it opens only when what is in its directory is, temporary
    files left behind included, and putting packets keeps it so, whichever call fails. *)
Theorem spool_stays_within_quota quota d s d' l :
  spool_open quota d = (Ok s, d') → total (dr_nodes (put_all s d' l)) ≤ quota.
Proof.
  intros [Hq Hin]%spool_open_within. rewrite <- Hq. fold (within s (put_all s d' l)).
  clear Hq. unfold put_all. revert d' Hin. induction l as [|[b m] l IH]; intros d' Hin; [done|]. cbn. apply IH.
  destruct (spool_put s b m d') as [r d2] eqn:Hp. cbn. by eapply spool_put_within.
Qed.

(** C11: A packet that was put is kept: it is on disk when [put] answers, whatever is put later
    stays away from it whichever call fails, and after a crash it is read back by its
    identifier, which is the digest of its bytes. *)
Theorem spooled_packet_survives s b m d id d1 l d2 d3 :
  spool_put s b m d = (Ok id, d1) →
  d2 = put_all s d1 l →
  crashed d2 d3 → spool_fault (dr_tick d3) = None → spool_fault (S (dr_tick d3)) = None →
  id = sha256 b ∧ ∃ v, (spool_get id m d3).1 = Ok v ∧ vp_bytes v = b.
Proof.
  intros Hp -> Hc Hf Hf'. apply spool_put_spec in Hp as [_ Hok].
  destruct (Hok id eq_refl) as (-> & Hd & v & Hv & _). split; [done|]. exists v.
  split; [|by apply packet_verify_Ok in Hv as (_ & -> & _)].
  apply (spool_get_durable _ b); try done. apply (crashed_keeps _ _ Hc). clear Hc Hok.
  unfold put_all. revert d1 Hd. induction l as [|[b' m'] l IH]; intros d1 Hd; [done|]. cbn. apply IH.
  destruct (spool_put s b' m' d1) as [r d'] eqn:Hp. apply spool_put_spec in Hp as [Hk _]. by apply Hk.
Qed.
End Quota.

(** ** The inventory *)

Lemma lower_hex_nibble n : (n < 16)%N → lower_hex_digit (hex_nibble n) = true.
Proof.
  intros Hn. assert (n ∈ [0; 1; 2; 3; 4; 5; 6; 7; 8; 9; 10; 11; 12; 13; 14; 15])%N as Hin
    by (rewrite !elem_of_cons; lia).
  repeat (apply elem_of_cons in Hin as [->|Hin]; [by vm_compute|]). by apply elem_of_nil in Hin.
Qed.
Lemma hex_text_bytes id :
  as_bytes (hex_text id) = id ≫= λ x, [hex_nibble (Byte.to_N x / 16)%N; hex_nibble (Byte.to_N x mod 16)%N].
Proof. unfold hex_text. by rewrite as_bytes_of_bytes. Qed.
Lemma hex_text_length id : length (as_bytes (hex_text id)) = (2 * length id)%nat.
Proof. rewrite hex_text_bytes. induction id as [|x id IH]; [done|]. cbn in *. lia. Qed.
Lemma hex_text_digits id : forallb lower_hex_digit (as_bytes (hex_text id)) = true.
Proof.
  rewrite hex_text_bytes. induction id as [|x id IH]; [done|]. cbn -[hex_nibble lower_hex_digit N.div N.modulo].
  pose proof (Byte.to_N_bounded x). rewrite !lower_hex_nibble; [exact IH| |].
  - apply N.mod_lt. lia.
  - apply N.Div0.div_lt_upper_bound. lia.
Qed.

Lemma strip_prefix_here p s : strip_prefix p (p ++ s) = Some s.
Proof. induction p as [|x p IH]; [done|]. cbn. by rewrite bool_decide_true. Qed.
Lemma packet_name_parses `{HexDecodeOk} id :
  length id = 32%nat →
  strip_ending (as_bytes ".packet") (as_bytes (packet_name id)) = Some (as_bytes (hex_text id))
  ∧ parse_packet_id (as_bytes (hex_text id)) = Ok id ∧ String.eqb (packet_name id) LOCK = false.
Proof.
  intros Hl. split_and!.
  - unfold strip_ending, packet_name. rewrite as_bytes_app, reverse_app, strip_prefix_here. cbn.
    by rewrite reverse_involutive.
  - unfold parse_packet_id. rewrite hex_text_length, Hl, hex_text_digits, hex_decode_encode. cbn.
    by rewrite Hl.
  - apply String.eqb_neq. intros Hn. apply (f_equal (length ∘ as_bytes)) in Hn. cbn in Hn.
    unfold packet_name in Hn. rewrite as_bytes_app, length_app, hex_text_length in Hn. cbn in Hn. lia.
Qed.

Section Inventory.
Context `{SpoolOsOk, HexDecodeOk}.

Lemma list_packets_spec entries count files d out d' :
  list_packets entries count files d = (Ok out, d') →
  (∀ id, id ∈ files.*1 → id ∈ out.*1)
  ∧ ∀ id node, length id = 32%nat → (packet_name id, node) ∈ entries → id ∈ out.*1.
Proof.
  revert count files d. induction entries as [|[name node] entries IH]; intros count files d Hl; cbn [list_packets] in Hl.
  - inv_sm. split; [done|]. intros id node _ Hin. by apply elem_of_nil in Hin.
  - inv_sm. destruct (String.eqb name LOCK) eqn:Hlock; [|destruct (strip_ending _ _) as [digits|] eqn:Hs].
    + apply IH in Hl as [Hf Hall]. split; [done|]. intros id n Hid [Heq|Hin]%elem_of_cons; [|by eapply Hall].
      injection Heq as <- <-. by destruct (packet_name_parses id Hid) as (_ & _ & Hne); rewrite Hne in Hlock.
    + inv_sm. apply IH in Hl as [Hf Hall]. split.
      { intros x Hx. apply Hf. rewrite fmap_app. apply elem_of_app. by left. }
      intros id n Hid [Heq|Hin]%elem_of_cons; [|by eapply Hall]. injection Heq as <- <-.
      destruct (packet_name_parses id Hid) as (Hp & Hparse & _). rewrite Hp in Hs. injection Hs as <-.
      apply Hf. rewrite fmap_app. apply elem_of_app. right.
      match goal with Hq : parse_packet_id _ = Ok _ |- _ => rewrite Hparse in Hq; injection Hq as <- end.
      by left.
    + destruct (bool_decide _); [|inv_sm]. apply IH in Hl as [Hf Hall]. split; [done|].
      intros id n Hid [Heq|Hin]%elem_of_cons; [|by eapply Hall].
      injection Heq as <- <-. destruct (packet_name_parses id Hid) as (Hp & _). by rewrite Hp in Hs.
Qed.

(** An inventory is a page of a sorted list of every packet of the directory. *)
Lemma spool_inventory_Ok after limit d ids d' :
  spool_inventory after limit d = (Ok ids, d') →
  dr_nodes d' = dr_nodes d ∧ ∃ listed,
    ids = take (Z.to_nat limit)
      (retain (λ id, match after with Some a => bytes_ltb a id | None => true end) (sort_by of_bytes listed))
    ∧ ∀ id, length id = 32%nat → is_Some (dr_nodes d !! packet_name id) → id ∈ listed.
Proof.
  intros Hi. split; [eapply looks_run, Hi; auto with spool|].
  unfold spool_inventory, packet_files, read_dir, stateful in Hi. inv_sm.
  match goal with Hl : list_packets _ _ _ _ = _, Hr : validate_root _ = _, Ho : io _ = _ |- _ =>
    apply list_packets_spec in Hl as [_ Hall]; apply looks_run in Hr as Hd1; [|auto with spool];
    apply looks_run in Ho as Hd2; [|auto with spool] end.
  eexists. split; [reflexivity|]. intros id Hid [node Hn]. apply (Hall id node Hid).
  rewrite read_dir_all, elem_of_map_to_list. congruence.
Qed.
End Inventory.
