(* ===== verification/ServiceSync.v ===== *)
(** The sync operations of the service (src/src/vault/protocol/service/sync.rs), for the trusted
    host: each passes the live lease and sends one command to the store; publication and
    application move packets between the store and the spool on disk. *)
From Stdlib Require Import ZArith Lia Bool.
From stdpp Require Import base numbers gmap strings list relations.
From S2P Require Import Prelude Text Chars Core Address Clock Lease Wire History StoreSpec Signature.
From S2P Require Import Grant Approvals Protocol Actions Service ServiceProofs Manifest KeyringIndex Envelope Automerge.
From S2P Require Import Document DocumentProofs DocumentAtomic Database Worker WorkerReads WorkerCommit WorkerViews WorkerStore.
From S2P Require Import Personal PersonalLegacy Replica PersonalStore.
From S2P Require Import SyncIdentity SyncGroup SyncMembers SyncPairing SyncPacket SyncState.
From S2P Require Import SyncDocument SyncEdits SyncWorker SyncStore SyncHistory Spool.

(** The store as the sync operations see it: [VaultStore::personal_sync]. *)
Class SyncStore (St : Type) := personal_sync_at : SyncCommand.sync_command → SM St SyncReply.sync_reply.

(** One bounded pass over the spool. *)
Record SyncApplyPage : Set := {
  ap_applied : Z;
  ap_duplicates : Z;
  ap_conflicts : Z;
  ap_rejected : Z;
  ap_next : option bytes
}.
Definition empty_page : SyncApplyPage := {|
  ap_applied := 0; ap_duplicates := 0; ap_conflicts := 0; ap_rejected := 0; ap_next := None |}.
Definition set_next (next : option bytes) (p : SyncApplyPage) : SyncApplyPage := {|
  ap_applied := ap_applied p; ap_duplicates := ap_duplicates p; ap_conflicts := ap_conflicts p;
  ap_rejected := ap_rejected p; ap_next := next |}.
Definition count_rejected (p : SyncApplyPage) : SyncApplyPage := {|
  ap_applied := ap_applied p; ap_duplicates := ap_duplicates p; ap_conflicts := ap_conflicts p;
  ap_rejected := ap_rejected p + 1; ap_next := ap_next p |}.
Definition count_received (o : ReceiveOutcome.receive_outcome) (p : SyncApplyPage) : SyncApplyPage :=
  match o with
  | ReceiveOutcome.Applied => {|
      ap_applied := ap_applied p + 1; ap_duplicates := ap_duplicates p;
      ap_conflicts := ap_conflicts p; ap_rejected := ap_rejected p; ap_next := ap_next p |}
  | ReceiveOutcome.Duplicate => {|
      ap_applied := ap_applied p; ap_duplicates := ap_duplicates p + 1;
      ap_conflicts := ap_conflicts p; ap_rejected := ap_rejected p; ap_next := ap_next p |}
  | ReceiveOutcome.Conflict => {|
      ap_applied := ap_applied p; ap_duplicates := ap_duplicates p;
      ap_conflicts := ap_conflicts p + 1; ap_rejected := ap_rejected p; ap_next := ap_next p |}
  end.

Section ServiceSync.
Context `{Sha256, Aes256Gcm, MlDsa65, Hpke, Signers, Base64Standard}.
Context `{Serde EncodedUpdate} `{!SerdeChunks EncodedUpdate} `{Serde Personal.PersonalSecret}.
Context `{AutomergeChanges}.
Context `{Serde PacketContext} `{Serde PacketBody} `{Serde Packet}.
Context `{SpoolOs, HexDecode}.
Context `{SyncStore St} (env : Service.Environment St).
Abbreviation SS := (ServiceState St).
Abbreviation LM := (SM SS).

(** [VaultService::sync_command]: the live lease, which this does not refresh. *)
Definition sync_command (command : SyncCommand.sync_command) : LM SyncReply.sync_reply :=
  now ← instant env;
  _ ← lock_live env now;
  on_request (on_store (personal_sync_at command)).

(** The reply a method expects; any other means that the worker is lost. *)
Definition expect_reply {A} (f : SyncReply.sync_reply → option A) (command : SyncCommand.sync_command)
    : LM A :=
  reply ← sync_command command;
  lift (ok_or VaultError.WorkerUnavailable (f reply)).
Definition discard_reply (command : SyncCommand.sync_command) : LM () :=
  _ ← sync_command command; mret tt.

Definition personal_sync_identity : LM MemberPublicKeys :=
  expect_reply (λ r, match r with SyncReply.Identity keys => Some keys | _ => None end)
    SyncCommand.Identity.
Definition configure_personal_sync (m : Membership) : LM () := discard_reply (SyncCommand.Configure m).
Definition personal_sync_status : LM SyncStatus :=
  expect_reply (λ r, match r with SyncReply.Status status => Some status | _ => None end)
    SyncCommand.Status.
Definition personal_sync_conflicts (id : string) : LM PersonalConflict :=
  expect_reply (λ r, match r with SyncReply.Conflicts conflict => Some conflict | _ => None end)
    (SyncCommand.Conflicts id).
Definition resolve_personal_sync (id : string) (expected : list bytes)
    (item : option Personal.PersonalSecret) : LM () :=
  discard_reply (SyncCommand.Resolve id expected item).

(** [receive_personal_sync]. *)
Definition receive_personal_sync (packet : bytes) : LM ReceiveOutcome.receive_outcome :=
  _ ← lift (fail_if (2 * 1024 * 1024 <? Z.of_nat (length packet))
        (VaultError.Protocol "personal sync packet is too large"));
  expect_reply (λ r, match r with SyncReply.Received outcome => Some outcome | _ => None end)
    (SyncCommand.Receive packet).

(** ** Pairing *)

Definition pairing_reply {A} (f : PairingReply.reply → option A) (command : PairingCommand.command)
    : LM A :=
  expect_reply (λ r, match r with SyncReply.Paired reply => f reply | _ => None end)
    (SyncCommand.Pairing command).
Definition as_group (r : PairingReply.reply) : option VerifiedGroup :=
  match r with PairingReply.Group group => Some group | _ => None end.
Definition as_invitation (r : PairingReply.reply) : option PairingInvitation :=
  match r with PairingReply.Invitation invitation => Some invitation | _ => None end.
Definition as_request (r : PairingReply.reply) : option PairingRequest :=
  match r with PairingReply.Request request => Some request | _ => None end.

Definition pairing_group : PairingCommand.command → LM VerifiedGroup := pairing_reply as_group.
Definition initialize_personal_sync (endpoint : bytes) (name : string) : LM VerifiedGroup :=
  pairing_group (PairingCommand.Initialize endpoint name).
Definition personal_sync_group : LM VerifiedGroup :=
  expect_reply (λ r, match r with SyncReply.Paired reply => as_group reply | _ => None end)
    SyncCommand.Group.
Definition offer_personal_sync_connection (endpoint : bytes) (name : string) : LM PairingInvitation :=
  pairing_reply as_invitation (PairingCommand.Offer endpoint name).
Definition invite_personal_sync_device : LM PairingInvitation :=
  pairing_reply as_invitation PairingCommand.Invite.
Definition request_personal_sync_pairing (invitation : PairingInvitation) (group : VerifiedGroup)
    (endpoint : bytes) (name : string) : LM PairingRequest :=
  pairing_reply as_request (PairingCommand.Join invitation group endpoint name).
Definition stage_personal_sync_pairing (request : PairingRequest) (peer : bytes) : LM PairingRequest :=
  _ ← lift (fail_if (negb (bool_decide (rb_endpoint (pr_body request) = peer)))
        (VaultError.Protocol "pairing endpoint mismatch"));
  pairing_reply as_request (PairingCommand.Stage request).
Definition approve_personal_sync_join (expected : bytes) : LM PairingRequest :=
  pairing_reply as_request (PairingCommand.ApproveJoin expected).
Definition approve_personal_sync_pairing (expected : bytes) : LM VerifiedGroup :=
  pairing_group (PairingCommand.Approve expected).
Definition accept_personal_sync_group (group : VerifiedGroup) : LM VerifiedGroup :=
  pairing_group (PairingCommand.Accept group).
Definition cancel_personal_sync_pairing : LM () :=
  discard_reply (SyncCommand.Pairing PairingCommand.Cancel).
Definition personal_sync_pairing_status : LM PairingStatus :=
  expect_reply (λ r, match r with SyncReply.PairingStatus status => Some status | _ => None end)
    SyncCommand.PairingStatus.

(** ** Publication *)

Definition as_prepared (r : SyncReply.sync_reply) : option (option (bytes * Membership)) :=
  match r with SyncReply.Prepared packet => Some packet | _ => None end.
Definition prepare_personal_sync_publication : LM (option bytes) :=
  packet ← expect_reply as_prepared SyncCommand.Prepare; mret (fst <$> packet).
Definition confirm_personal_sync_publication (id : bytes) : LM () :=
  discard_reply (SyncCommand.Stored id).

(** Steps of the service and of the spool beside it. *)
Definition on_service {A} (m : LM A) : SM (SS * SpoolDir) A := λ st,
  let '(r, s) := m st.1 in (r, (s, st.2)).
Definition on_spool {A} (m : SM SpoolDir A) : SM (SS * SpoolDir) A := λ st,
  let '(r, d) := m st.2 in (r, (st.1, d)).

(** The loop of [publish_personal_sync], [remaining] packets before its limit. *)
Fixpoint publish_loop (spool : CiphertextSpool) (remaining : nat) (count : Z) : SM (SS * SpoolDir) Z :=
  match remaining with
  | O => mret count
  | S remaining =>
      prepared ← on_service (expect_reply as_prepared SyncCommand.Prepare);
      match prepared with
      | None => mret count
      | Some (b, m) =>
          id ← on_spool (spool_put spool b m);
          _ ← on_service (confirm_personal_sync_publication id);
          publish_loop spool remaining (count + 1)
      end
  end.
Definition publish_personal_sync (spool : CiphertextSpool) (limit : Z) : SM (SS * SpoolDir) Z :=
  _ ← lift (fail_if ((limit =? 0) || (128 <? limit))
        (VaultError.Protocol "invalid publication batch limit"));
  publish_loop spool (Z.to_nat limit) 0.

(** ** Application *)

(** Errors of a stored packet that make it a rejected one. *)
Definition rejects_stored (e : VaultError.error) : bool :=
  match e with VaultError.Signature | VaultError.Crypto | VaultError.Protocol _ => true | _ => false end.
Definition rejects_received (e : VaultError.error) : bool :=
  match e with VaultError.Protocol _ => true | _ => false end.

(** The loop of [apply_personal_sync]. *)
Fixpoint apply_packets (m : Membership) (ids : list bytes) (page : SyncApplyPage)
    : SM (SS * SpoolDir) SyncApplyPage :=
  match ids with
  | [] => mret page
  | id :: ids =>
      catch (on_spool (spool_get id m)) (λ found, match found with
        | Err e => if rejects_stored e then apply_packets m ids (count_rejected page) else lift (Err e)
        | Ok packet =>
            catch (on_service (receive_personal_sync (vp_bytes packet))) (λ received, match received with
              | Ok outcome => apply_packets m ids (count_received outcome page)
              | Err e => if rejects_received e then apply_packets m ids (count_rejected page)
                         else lift (Err e)
              end)
        end)
  end.
Definition apply_personal_sync (after : option bytes) (limit : Z) : SM (SS * SpoolDir) SyncApplyPage :=
  m ← on_service (expect_reply (λ r, match r with SyncReply.Membership m => Some m | _ => None end)
                    SyncCommand.Membership);
  ids ← on_spool (spool_inventory after limit);
  apply_packets m ids
    (if Z.of_nat (length ids) =? limit then set_next (last ids) empty_page else empty_page).
End ServiceSync.

(** * What the sync operations guarantee: over a store worker and a spool, an item stops waiting
    only when a packet of the whole of it is on disk, and applying the spool leaves a receipt
    for every packet that is not rejected. *)

Section HostSync.
Context `{SyncStore St} (env : Service.Environment St).

(** A command reaches the store once the lease was found live, or changes nothing. *)
Lemma sync_command_reaches cmd st r st' :
  sync_command env cmd st = (r, st') →
  store_of st' = store_of st ∧ (∃ e, r = Err e)
  ∨ personal_sync_at cmd (store_of st) = (r, store_of st') ∧ rq_sealed (sv_request st) = false.
Proof.
  unfold sync_command, instant. intros Hr. unfold mbind, sm_bind at 1 in Hr. cbv beta iota in Hr.
  apply sm_bind_either in Hr as [(e & Hl & ->)|([] & st1 & Hl & Hr)];
    apply lock_live_spec in Hl as ((Hs & _) & _ & _ & Hsealed).
  { left. split; [exact Hs|eauto]. }
  right. assert (store_of st1 = store_of st) as Hst by exact Hs.
  split; [|destruct (rq_sealed (sv_request st)) eqn:Hq; [by destruct (Hsealed Hq)|done]].
  unfold on_request, on_store in Hr. unfold store_of in *. rewrite Hst in Hr.
  destruct (personal_sync_at cmd (rq_store (sv_request st))) as [r1 s1]. by injection Hr as <- <-.
Qed.
Lemma expect_reply_reaches {A} (f : SyncReply.sync_reply → option A) cmd st r st' :
  expect_reply env f cmd st = (r, st') →
  store_of st' = store_of st ∧ (∃ e, r = Err e)
  ∨ ∃ reply, personal_sync_at cmd (store_of st) = (reply, store_of st')
      ∧ ∀ a, r = Ok a → ∃ x, reply = Ok x ∧ f x = Some a.
Proof.
  unfold expect_reply. intros [(e & Hr & ->)|(reply & st1 & Hr & Hf)]%sm_bind_either;
    apply sync_command_reaches in Hr as [[Hs He]|[Hp _]].
  - left. by split; [|eauto].
  - right. by eexists.
  - by destruct He.
  - right. exists (Ok reply). injection Hf as <- <-. split; [done|]. intros a Ha. exists reply.
    apply ok_or_Ok in Ha. done.
Qed.
Lemma discard_reply_reaches cmd st r st' :
  discard_reply env cmd st = (r, st') →
  store_of st' = store_of st ∧ (∃ e, r = Err e)
  ∨ ∃ reply, personal_sync_at cmd (store_of st) = (reply, store_of st').
Proof.
  unfold discard_reply. intros [(e & Hr & ->)|(reply & st1 & Hr & Hf)]%sm_bind_either;
    apply sync_command_reaches in Hr as [[Hs He]|[Hp _]].
  - left. by split; [|eauto].
  - right. by eexists.
  - by destruct He.
  - injection Hf as <- <-. right. by eexists.
Qed.
End HostSync.

Section HostHistory.
Context `{Sha256, Base64, MlDsa65, Aes256Gcm, HmacSha256, Signers, Random, HpkeOk, Base64StandardOk}.
Context `{SerdeOk EncodedUpdate} `{!SerdeChunks EncodedUpdate} `{!SerdeChunksOk EncodedUpdate}.
Context `{SerdeOk Personal.PersonalSecret} `{AutomergeChanges} `{!AutomergeOk} `{!AutomergeChangesOk}.
Context `{SerdeOk SecretRecord, Serde RecordDeadline, SerdeOk ReplicaCatalog} `{!RecordSerdeOk}.
Context `{Serde HistoryEntry, Serde HistoryLog, SerdeOk WrappedKey, SerdeOk EncryptedSnapshot}.
Context `{SerdeOk CurrentHead, SerdeOk StateManifest, Serde Index, AttributeJson}.
Context `{SerdeOk (list MemberPublicKeys)} `{Serde (Body MembershipWire)}.
Context `{SerdeOk CertificateWire} `{SerdeOk (list CertificateWire)}.
Context `{Serde (MemberId * bytes * bytes * MemberId)}.
Context `{SerdeOk PairingInvitation} `{Serde RequestBody} `{Serde PairingRequest}.
Context `{Serde PacketContext} `{Serde PacketBody} `{SerdeOk Packet} `{SerdeOk PersonalSyncState}.
Context `{!DeadlineSerdeOk, !Sha256Ok, !Aes256GcmOk, !RandomOk} (Hfit : manifests_fit).
Context `{SpoolOsOk, HexDecodeOk}.
Context (unix_time : nat → VaultResult Z) (kem_seed : nat → nat → bytes).
Context (env : Service.Environment StoreWorker).
#[local] Instance worker_sync : SyncStore StoreWorker := vault_personal_sync unix_time kem_seed.
Abbreviation SS := (ServiceState StoreWorker).
Abbreviation vault_run := (vault_run unix_time kem_seed).
Abbreviation vault_step := (vault_step unix_time kem_seed).

Lemma expect_step {A} (f : SyncReply.sync_reply → option A) cmd st r st' :
  expect_reply env f cmd st = (r, st') → sync_command_made cmd →
  store_of st' = store_of st ∧ (∃ e, r = Err e) ∨ vault_step (Some cmd) (store_of st) (store_of st').
Proof. intros [Hs|(reply & Hr & _)]%expect_reply_reaches Hm; [by left|right]. split; [done|by eexists]. Qed.

(** ** Publication *)

(** A packet that opens to the whole of an item, at the heads the item then has, is on disk. *)
Definition spooled (w : StoreWorker) (d : SpoolDir) (id : string) : Prop :=
  ∃ w1 s1 c1 packet b, vault_run w w1 ∧ sync_at w1 s1 c1
    ∧ published w1 s1 (SyncCommand.Stored packet) id
    ∧ packet = sha256 b ∧ durable d (packet_name packet) b.

(** What publication does, from one vault and spool to another. *)
Definition publishes (w : StoreWorker) (d : SpoolDir) (w' : StoreWorker) (d' : SpoolDir) : Prop :=
  vault_run w w' ∧ keeps d d'
  ∧ ∀ w0 s c, unsynced w0 → vault_run w0 w → sync_at w s c →
    ∃ s' c', sync_at w' s' c' ∧ ∀ id, waits c c' id ∨ spooled w d' id.

Lemma publishes_refl w d d' : keeps d d' → publishes w d w d'.
Proof.
  intros Hk. split; [by apply rtc_refl|]. split; [done|]. intros w0 s c _ _ Hat. exists s, c.
  split; [done|]. intros id. left. apply waits_refl.
Qed.
Lemma publishes_trans w1 d1 w2 d2 w3 d3 :
  publishes w1 d1 w2 d2 → publishes w2 d2 w3 d3 → publishes w1 d1 w3 d3.
Proof.
  intros (Hr & Hk & Ha) (Hr' & Hk' & Hb). split; [by etrans|]. split; [by etrans|].
  intros w0 s c Hfresh Hrun Hat. destruct (Ha w0 s c Hfresh Hrun Hat) as (s2 & c2 & Hat2 & Hw).
  destruct (Hb w0 s2 c2) as (s3 & c3 & Hat3 & Hw'); [done|by etrans|done|].
  exists s3, c3. split; [done|]. intros id. destruct (Hw' id) as [Hx|(w4 & s4 & c4 & p & b & Hr4 & Hrest)].
  - destruct (Hw id) as [Hy|(w4 & s4 & c4 & p & b & Hr4 & Hat4 & Hpub & Hp & Hdur)]; [left; by eapply waits_trans|].
    right. exists w4, s4, c4, p, b. split_and!; try done. by apply Hk'.
  - right. exists w4, s4, c4, p, b. split; [by etrans|done].
Qed.

(** A command that is not a receipt of publication, and one for a packet that is on disk. *)
Lemma step_publishes cmd w w' d :
  vault_step (Some cmd) w w' →
  match cmd with
  | SyncCommand.Stored packet => ∃ b, packet = sha256 b ∧ durable d (packet_name packet) b
  | SyncCommand.Receive _ => False
  | _ => True
  end → publishes w d w' d.
Proof using All.
  intros Hstep Hcmd. split; [apply rtc_once; by eexists|]. split; [done|]. intros w0 s c Hfresh Hrun Hat.
  pose proof (reached_held Hfit unix_time kem_seed _ _ _ _ Hfresh Hrun Hat) as Hheld.
  destruct (step_outcome Hfit unix_time kem_seed _ _ _ _ _ Hstep Hat Hheld) as (_ & s' & c' & Hat' & _ & _ & Hall).
  exists s', c'. split; [done|]. intros id.
  destruct (Hall id) as [Hw|(cmd' & [= <-] & [Hpub|(b & u & r & -> & _)])]; [by left| |done].
  right. pose proof Hpub as (v & m & p & d' & r & -> & _). destruct Hcmd as (b & Hb & Hdur).
  exists w, s, c, (vp_id v), b. split_and!; try done.
Qed.

Lemma publish_loop_publishes spool remaining count st d r st' d' :
  publish_loop env spool remaining count (st, d) = (r, (st', d')) →
  publishes (store_of st) d (store_of st') d'.
Proof using All.
  revert count st d. induction remaining as [|remaining IH]; intros count st d Hr; cbn [publish_loop] in Hr.
  { injection Hr as _ <- <-. by apply publishes_refl. }
  unfold on_service, on_spool in Hr. unfold mbind, sm_bind at 1 in Hr. cbn [fst snd] in Hr.
  destruct (expect_reply env as_prepared SyncCommand.Prepare st) as [prepared st1] eqn:Hprep.
  assert (publishes (store_of st) d (store_of st1) d) as Hp1.
  { apply expect_step in Hprep as [[-> _]|Hstep]; [by apply publishes_refl| |done]. by eapply step_publishes. }
  destruct prepared as [[[b m]|]|e]; [|injection Hr as _ <- <-; exact Hp1..].
  unfold sm_bind at 1 in Hr. cbn [fst snd] in Hr.
  destruct (spool_put spool b m d) as [put d1] eqn:Hput. apply spool_put_spec in Hput as [Hk Hok].
  assert (publishes (store_of st) d (store_of st1) d1) as Hp2.
  { eapply publishes_trans; [exact Hp1|by apply publishes_refl]. }
  destruct put as [id|e]; [|injection Hr as _ <- <-; exact Hp2].
  destruct (Hok id eq_refl) as (-> & Hdur & _). unfold sm_bind at 1 in Hr. cbn [fst snd] in Hr.
  destruct (confirm_personal_sync_publication env (sha256 b) st1) as [stored st2] eqn:Hconf.
  assert (publishes (store_of st) d (store_of st2) d1) as Hp3.
  { eapply publishes_trans; [exact Hp2|].
    apply discard_reply_reaches in Hconf as [[-> _]|[reply Hreply]]; [by apply publishes_refl|].
    eapply (step_publishes (SyncCommand.Stored (sha256 b))); [split; [done|by eexists]|by exists b]. }
  destruct stored as [[]|e]; [|injection Hr as _ <- <-; exact Hp3].
  eapply publishes_trans; [exact Hp3|]. by eapply IH.
Qed.

(** C10: Publishing keeps what is on disk, and however far it gets, with whatever calls of the
    database and of the file system failing: an item goes on waiting, or a packet of it is on
    disk in the spool that opens to the whole of the item at the heads it had when the vault
    ticked it off. *)
Theorem published_items_are_spooled w0 spool limit st d r st' d' s c :
  unsynced w0 → vault_run w0 (store_of st) → sync_at (store_of st) s c →
  publish_personal_sync env spool limit (st, d) = (r, (st', d')) →
  keeps d d' ∧ vault_run (store_of st) (store_of st')
  ∧ ∃ s' c', sync_at (store_of st') s' c' ∧ ∀ id, waits c c' id ∨ spooled (store_of st) d' id.
Proof using All.
  intros Hfresh Hrun Hat Hp. unfold publish_personal_sync in Hp.
  apply sm_bind_either in Hp as [(e & Hl & ->)|([] & st1 & Hl & Hp)].
  - injection Hl as _ <- <-. split_and!; [done|by apply rtc_refl|]. exists s, c. split; [done|].
    intros id. left. apply waits_refl.
  - apply lift_Ok in Hl as [_ ->]. apply publish_loop_publishes in Hp as (Hr & Hk & Ha).
    split_and!; [done|done|]. by eapply Ha.
Qed.

(** ** Application *)

(** Split a conjunction as it is written, without looking into its parts. *)
Ltac conj_all := lazymatch goal with |- _ ∧ _ => split; [|conj_all] | _ => idtac end.

(** A packet of the spool that is not applied: its file is not a packet of the membership, or
    it is one and the vault rejects it. *)
Definition refused (m : Membership) (w : StoreWorker) (d : SpoolDir) (id : bytes) : Prop :=
  (∃ d1 d2 e, dr_nodes d1 = dr_nodes d ∧ spool_get id m d1 = (Err e, d2) ∧ rejects_stored e = true)
  ∨ ∃ d1 d2 v st1 st2 e, dr_nodes d1 = dr_nodes d ∧ spool_get id m d1 = (Ok v, d2)
      ∧ vault_run w (store_of st1)
      ∧ receive_personal_sync env (vp_bytes v) st1 = (Err e, st2) ∧ rejects_received e = true.

Lemma has_receipt_lasts s s' packet : lasts s s' → has_receipt s packet → has_receipt s' packet.
Proof.
  intros [_ [l Hl]] (id & x & Hin & Hx). exists id, x. split; [|done]. rewrite Hl. apply elem_of_app. by left.
Qed.

Lemma receive_reaches b st r st' :
  receive_personal_sync env b st = (r, st') →
  vault_run (store_of st) (store_of st')
  ∧ ∀ o, r = Ok o → vault_personal_sync unix_time kem_seed (SyncCommand.Receive b) (store_of st)
      = (Ok (SyncReply.Received o), store_of st').
Proof.
  unfold receive_personal_sync. intros [(e & Hl & ->)|([] & st1 & Hl & Hr)]%sm_bind_either.
  { injection Hl as _ <-. split; [by apply rtc_refl|done]. }
  apply lift_Ok in Hl as [_ ->]. apply expect_reply_reaches in Hr as [[Hs [e ->]]|(reply & Hreply & Hok)].
  - rewrite Hs. split; [by apply rtc_refl|done].
  - split; [apply rtc_once; exists (Some (SyncCommand.Receive b)); split; [done|by eexists]|].
    intros o Ho. destruct (Hok o Ho) as (x & -> & Hx). destruct x; try done. injection Hx as ->. exact Hreply.
Qed.

(** What is counted, and what is known of the packets that were. *)
Definition counted (page page' : SyncApplyPage) (received rejected : list bytes) : Prop :=
  ap_applied page' + ap_duplicates page' + ap_conflicts page'
    = ap_applied page + ap_duplicates page + ap_conflicts page + Z.of_nat (length received)
  ∧ ap_rejected page' = ap_rejected page + Z.of_nat (length rejected)
  ∧ ap_next page' = ap_next page.

Lemma counted_rejected page page' id received rejected :
  counted (count_rejected page) page' received rejected → counted page page' received (id :: rejected).
Proof. unfold counted, count_rejected. cbn [ap_applied ap_duplicates ap_conflicts ap_rejected ap_next length]. intros (? & ? & ?). split_and!; [lia..|done]. Qed.
Lemma counted_received o page page' id received rejected :
  counted (count_received o page) page' received rejected → counted page page' (id :: received) rejected.
Proof.
  unfold counted. destruct o; cbn [count_received ap_applied ap_duplicates ap_conflicts ap_rejected ap_next length];
    (intros (? & ? & ?); split_and!; [lia..|done]).
Qed.
Lemma refused_mono m w w1 d d1 id :
  vault_run w w1 → dr_nodes d1 = dr_nodes d → refused m w1 d1 id → refused m w d id.
Proof.
  intros Hr Hd [(d2 & d3 & e & Hd2 & Hrest)|(d2 & d3 & v & st1 & st2 & e & Hd2 & Hv & Hr1 & Hrest)].
  - left. exists d2, d3, e. split; [congruence|done].
  - right. exists d2, d3, v, st1, st2, e. split_and!; try done; [congruence|by etrans|apply Hrest|apply Hrest].
Qed.

Lemma apply_packets_spec m ids page st d page' st' d' s c :
  apply_packets env m ids page (st, d) = (Ok page', (st', d')) →
  sync_at (store_of st) s c → sync_held (store_of st) s →
  ∃ received rejected s' c',
    ids ≡ₚ received ++ rejected ∧ counted page page' received rejected
    ∧ dr_nodes d' = dr_nodes d ∧ vault_run (store_of st) (store_of st')
    ∧ sync_at (store_of st') s' c' ∧ lasts s s' ∧ Forall (has_receipt s') received
    ∧ Forall (refused m (store_of st) d) rejected.
Proof using All.
  revert page st d s c. induction ids as [|id ids IH]; intros page st d s c Hr Hat Hheld; cbn [apply_packets] in Hr.
  { injection Hr as <- <- <-. exists [], [], s, c. unfold counted. cbn [length app].
    conj_all; try done; [split_and!; [lia|lia|done]|apply lasts_refl]. }
  unfold catch at 1, on_spool at 1 in Hr. cbn [fst snd] in Hr.
  destruct (spool_get id m d) as [[v|e] d1] eqn:Hget; pose proof (looks_run _ _ _ _ (looks_spool_get id m) Hget) as Hd1.
  2:{ destruct (rejects_stored e) eqn:He; [|done].
      destruct (IH _ _ _ _ _ Hr Hat Hheld) as (rc & rj & s' & c' & Hp & Hc & Hd' & Hrun & Hat' & Hl & Hrc & Hrj).
      exists rc, (id :: rj), s', c'. conj_all; try done; [by rewrite Hp, Permutation_middle|by apply counted_rejected|congruence|].
      constructor; [left; by exists d, d1, e|]. eapply Forall_impl; [exact Hrj|]. intros x.
      apply refused_mono; [by apply rtc_refl|done]. }
  pose proof Hget as Hfile. apply spool_get_Ok in Hget as (Hv & -> & _). unfold catch at 1, on_service at 1 in Hr. cbn [fst snd] in Hr.
  destruct (receive_personal_sync env (vp_bytes v) st) as [received st1] eqn:Hrec.
  pose proof (receive_reaches _ _ _ _ Hrec) as [Hrun1 Hok].
  destruct (run_outcome Hfit unix_time kem_seed _ _ _ _ Hrun1 Hat Hheld) as (_ & s1 & c1 & Hat1 & Hheld1 & Hl1).
  destruct received as [o|e].
  - destruct (received_has_receipt Hfit unix_time kem_seed _ _ _ _ _ _ Hat (Hok o eq_refl)) as (sx & cx & Hatx & Hhas).
    destruct (sync_at_inj _ _ _ _ _ Hat1 Hatx) as [<- _].
    destruct (IH _ _ _ _ _ Hr Hat1 Hheld1) as (rc & rj & s' & c' & Hp & Hc & Hd' & Hrun & Hat' & Hl & Hrc & Hrj).
    exists (sha256 (vp_bytes v) :: rc), rj, s', c'.
    conj_all; try done; [by rewrite Hp|by eapply counted_received|congruence|by etrans|by eapply lasts_trans| |].
    + constructor; [|done]. by eapply has_receipt_lasts.
    + eapply Forall_impl; [exact Hrj|]. intros x. by apply refused_mono.
  - destruct (rejects_received e) eqn:He; [|done].
    destruct (IH _ _ _ _ _ Hr Hat1 Hheld1) as (rc & rj & s' & c' & Hp & Hc & Hd' & Hrun & Hat' & Hl & Hrc & Hrj).
    exists rc, (sha256 (vp_bytes v) :: rj), s', c'.
    conj_all; try done; [by rewrite Hp, Permutation_middle|by apply counted_rejected|congruence|by etrans
      |by eapply lasts_trans|]. constructor.
    + right. exists d, d1, v, st, st1, e. conj_all; try done.
    + eapply Forall_impl; [exact Hrj|]. intros x. by apply refused_mono.
Qed.

(** C16: Applying a page of the spool takes its next packets in order, among all packets that the
    spool holds.  When it answers, every one of them has its receipt in the vault, but for
    those it counts as rejected: what the spool holds for them is no packet of the membership
    that the vault stores, or it is one and the vault rejected it.  The spool keeps all of them, and the cursor it answers is the
    last packet of a full page. *)
Theorem applied_page_is_received w0 after limit st d page st' d' s c :
  unsynced w0 → vault_run w0 (store_of st) → sync_at (store_of st) s c →
  apply_personal_sync env after limit (st, d) = (Ok page, (st', d')) →
  ∃ m listed ids received rejected s' c',
    ys_membership s = Some m
    ∧ (∀ id, length id = 32%nat → is_Some (dr_nodes d !! packet_name id) → id ∈ listed)
    ∧ ids = take (Z.to_nat limit)
        (retain (λ id, match after with Some a => bytes_ltb a id | None => true end)
           (sort_by of_bytes listed))
    ∧ ap_next page = (if Z.of_nat (length ids) =? limit then last ids else None)
    ∧ ids ≡ₚ received ++ rejected
    ∧ ap_applied page + ap_duplicates page + ap_conflicts page = Z.of_nat (length received)
    ∧ ap_rejected page = Z.of_nat (length rejected)
    ∧ sync_at (store_of st') s' c' ∧ Forall (has_receipt s') received
    ∧ Forall (refused m (store_of st) d) rejected ∧ dr_nodes d' = dr_nodes d.
Proof using All.
  intros Hfresh Hrun Hat Hr. pose proof (reached_held Hfit unix_time kem_seed _ _ _ _ Hfresh Hrun Hat) as Hheld.
  unfold apply_personal_sync, on_service, on_spool in Hr. unfold mbind, sm_bind at 1 in Hr. cbn [fst snd] in Hr.
  destruct (expect_reply env _ SyncCommand.Membership st) as [[m|e] st1] eqn:Hm; [|done].
  unfold sm_bind at 1 in Hr. cbn [fst snd] in Hr.
  destruct (spool_inventory after limit d) as [[ids|e] d1] eqn:Hi; [|done].
  assert (ys_membership s = Some m) as Hmember.
  { apply expect_reply_reaches in Hm as [[_ [e [=]]]|(reply & Hreply & Hok)].
    destruct (Hok m eq_refl) as (x & -> & Hx). destruct x; try done. injection Hx as ->.
    by eapply (answered_membership Hfit unix_time kem_seed). }
  apply spool_inventory_Ok in Hi as (Hd1 & listed & Hids & Hlisted).
  assert (vault_run (store_of st) (store_of st1)) as Hrun1.
  { apply expect_step in Hm as [[-> _]|Hstep]; [by apply rtc_refl| |done]. apply rtc_once. by eexists. }
  destruct (run_outcome Hfit unix_time kem_seed _ _ _ _ Hrun1 Hat Hheld) as (_ & s1 & c1 & Hat1 & Hheld1 & _).
  destruct (apply_packets_spec _ _ _ _ _ _ _ _ _ _ Hr Hat1 Hheld1)
    as (rc & rj & s' & c' & Hp & (Hc & Hj & Hn) & Hd' & _ & Hat' & _ & Hrc & Hrj).
  exists m, listed, ids, rc, rj, s', c'. split_and!; try done.
  - rewrite Hn. by destruct (Z.of_nat (length ids) =? limit).
  - by destruct (Z.of_nat (length ids) =? limit).
  - by destruct (Z.of_nat (length ids) =? limit).
  - eapply Forall_impl; [exact Hrj|]. intros x. by apply refused_mono.
  - congruence.
Qed.
End HostHistory.
