(* ===== verification/SyncWitness.v ===== *)
(** The theorems on groups of devices, pairing and packets at two devices, with signatures and
    encapsulations that bind keys and payloads, and forms written in the prefix code. *)
From Stdlib Require Import ZArith Lia Bool.
From stdpp Require Import base gmap strings list relations.
From S2P Require Import Prelude Text Chars Core Address Instances Codec Signature Protocol.
From S2P Require Import Envelope Automerge Personal Replica.
From S2P Require Import PersonalWitness SyncIdentity SyncGroup SyncMembers.
From S2P Require Import SyncPairing SyncPacket SyncState.

(** ** Parameters *)

Module SyncDemo.
#[export] Existing Instances demo_sha256 demo_sha256_ok.
(** A signature is the key before the digest of the payload. *)
#[export] Instance sync_mldsa : MlDsa65 := {|
  verifying_key := bytes; mldsa_signature := bytes;
  verifying_key_new b := Some b; signature_try_from b := Some b;
  mldsa_verify key payload sig := bool_decide (sig = key ++ sha256 payload) |}.
#[export] Instance sync_signers : Signers := {|
  public_key_for_seed seed := seed;
  software_sign seed payload := Ok (seed ++ sha256 payload);
  enclave_key := Empty_set;
  enclave_from_reference _ := Err VaultError.Crypto;
  enclave_public_key k := match k with end;
  enclave_sign k _ := match k with end |}.
(** What is sealed is opened by the key it is encapsulated to. *)
Definition tag : bytes := replicate 16 Byte.x00.
#[export] Instance sync_hpke : Hpke := {|
  kem_private := bytes; kem_public := bytes; kem_encapsulated := bytes;
  kem_private_from_bytes b := Some b; kem_public_from_bytes b := Some b;
  kem_encapsulated_from_bytes b := Some b;
  kem_public_to_bytes b := b; kem_encapsulated_to_bytes b := b; kem_sk_to_pk b := b;
  hpke_seal pk _ p _ _ := Some (pk, p ++ tag);
  hpke_open sk e _ c _ t := if bool_decide (sk = e ∧ t = tag) then Some c else None |}.
#[export] Instance sync_hpke_ok : HpkeOk.
Proof.
  split; [done..|]. cbn -[tag]. intros sk info p aad seed e sealed [= <- <-].
  rewrite length_app. split; [done|]. rewrite take_app_length, drop_app_length.
  by rewrite bool_decide_eq_true_2.
Qed.
#[export] Instance sync_hmac : HmacSha256 := λ key message, sha256 (key ++ message).

(** ** Forms *)

#[export] Instance keys_codec : Codec MemberPublicKeys :=
  codec_inj (λ k, (mk_encryption k, mk_signing k))
    (λ p, {| mk_encryption := p.1; mk_signing := p.2 |}).
#[export] Instance keys_codec_ok : CodecOk MemberPublicKeys.
Proof. apply codec_inj_ok. by intros []. Qed.
#[export] Instance binding_codec : Codec TransportBinding :=
  codec_inj (λ b, (tb_endpoint b, tb_reader b, tb_name b))
    (λ p : bytes * option bytes * string,
       {| tb_endpoint := p.1.1; tb_reader := p.1.2; tb_name := p.2 |}).
#[export] Instance binding_codec_ok : CodecOk TransportBinding.
Proof. apply codec_inj_ok. by intros []. Qed.
#[export] Instance approval_codec : Codec MergeApproval :=
  codec_inj (λ a, (ma_source_controller a, ma_source a, ma_target a, ma_signer a, ma_signature a))
    (λ p : bytes * bytes * bytes * bytes * bytes,
       let '(c, s, t, r, x) := p in
       {| ma_source_controller := c; ma_source := s; ma_target := t; ma_signer := r;
          ma_signature := x |}).
#[export] Instance approval_codec_ok : CodecOk MergeApproval.
Proof. apply codec_inj_ok. by intros []. Qed.
#[export] Instance membership_codec : Codec MembershipWire :=
  codec_inj (λ m, (mw_group m, mw_epoch m, mw_members m))
    (λ p, {| mw_group := p.1.1; mw_epoch := p.1.2; mw_members := p.2 |}).
#[export] Instance membership_codec_ok : CodecOk MembershipWire.
Proof. apply codec_inj_ok. by intros []. Qed.
#[export] Instance body_codec : Codec (Body MembershipWire) :=
  codec_inj (λ b, (cb_version b, cb_controller b, cb_membership b, cb_previous b, cb_transports b,
                   (cb_enrollment b, cb_signer b, cb_merge b)))
    (λ p : Z * bytes * MembershipWire * option bytes * list TransportBinding
           * (option bytes * option bytes * option MergeApproval),
       let '(v, c, m, pr, t, (e, s, a)) := p in
       {| cb_version := v; cb_controller := c; cb_membership := m; cb_previous := pr;
          cb_transports := t; cb_enrollment := e; cb_signer := s; cb_merge := a |}).
#[export] Instance body_codec_ok : CodecOk (Body MembershipWire).
Proof. apply codec_inj_ok. by intros []. Qed.
#[export] Instance certificate_codec : Codec CertificateWire :=
  codec_inj (λ c, (gc_body c, gc_signature c)) (λ p, {| gc_body := p.1; gc_signature := p.2 |}).
#[export] Instance certificate_codec_ok : CodecOk CertificateWire.
Proof. apply codec_inj_ok. by intros []. Qed.
#[export] Instance tuple_codec : Codec (MemberId * bytes * bytes * MemberId) := _ : Codec (bytes * bytes * bytes * bytes).
#[export] Instance tuple_codec_ok : CodecOk (MemberId * bytes * bytes * MemberId) :=
  _ : CodecOk (bytes * bytes * bytes * bytes).
#[export] Instance invitation_codec : Codec PairingInvitation :=
  codec_inj (λ i, (pi_endpoint i, pi_controller i, pi_group i, pi_expires i, pi_secret i))
    (λ p : bytes * bytes * bytes * Z * bytes,
       let '(e, c, g, x, s) := p in
       {| pi_endpoint := e; pi_controller := c; pi_group := g; pi_expires := x; pi_secret := s |}).
#[export] Instance invitation_codec_ok : CodecOk PairingInvitation.
Proof. apply codec_inj_ok. by intros []. Qed.
#[export] Instance pinned_codec : Codec PinnedGroup :=
  codec_inj (λ p, (pg_controller p, pg_bytes p))
    (λ p : bytes * bytes, {| pg_controller := p.1; pg_bytes := p.2 |}).
#[export] Instance request_body_codec : Codec RequestBody :=
  codec_inj (λ b, (rb_invitation b, rb_endpoint b, rb_reader b, rb_name b, rb_origin b))
    (λ p : bytes * bytes * MemberPublicKeys * string * option PinnedGroup,
       let '(i, e, r, n, o) := p in
       {| rb_invitation := i; rb_endpoint := e; rb_reader := r; rb_name := n; rb_origin := o |}).
#[export] Instance request_codec : Codec PairingRequest :=
  codec_inj (λ r, (pr_body r, pr_proof r, pr_signature r, pr_consent r))
    (λ p, let '(b, x, s, c) := p in
       {| pr_body := b; pr_proof := x; pr_signature := s; pr_consent := c |}).

(** ** Two devices, and what they do *)

Definition member (b : Byte.byte) : ReaderIdentity := {|
  ri_encryption_seed := [b]; ri_signing_seed := [b; b];
  ri_public := {| mk_encryption := [b]; mk_signing := [b; b] |} |}.
Definition alice : ReaderIdentity := member Byte.x0a.
Definition bob : ReaderIdentity := member Byte.x0b.
Definition outsider : ReaderIdentity := member Byte.x0c.
Definition endpoint (b : Byte.byte) : bytes := replicate 32 b.
Definition group_a : VaultResult VerifiedGroup :=
  create_group alice (Ok (replicate 16 Byte.x01)) (endpoint Byte.x01) "Laptop".
Definition group_b : VaultResult VerifiedGroup :=
  create_group bob (Ok (replicate 16 Byte.x02)) (endpoint Byte.x02) "Phone".
(** A storage endpoint is added. *)
Definition advanced (r : ReaderIdentity) (g : VerifiedGroup) : VaultResult VerifiedGroup :=
  advance_group r g (ms_members (group_membership g))
    (group_transports g ++ [{| tb_endpoint := endpoint Byte.x03; tb_reader := None; tb_name := "Server" |}])
    (Some (replicate 32 Byte.x09)).
End SyncDemo.
Import SyncDemo.

(** Take apart a computation of several steps that succeeds. *)
Ltac run_steps :=
  repeat match goal with
  | H : (_ ≫= _) = Ok _ |- _ =>
      let a := fresh "v" in let Ha := fresh "Ha" in apply bind_Ok in H as (a & Ha & H); cbv beta in H
  end.

(** A group that was created and advanced, with the tests the examples need. *)
Lemma run_advanced :
  ∃ g n, group_a = Ok g ∧ advanced alice g = Ok n ∧ length (vg_chain n) = 2%nat
    ∧ accept_extension g n = Ok tt ∧ is_ok (accept_extension n g) = false
    ∧ is_ok (advanced outsider g) = false ∧ is_ok (group_encode n) = true
    ∧ group_controller g = reader_id alice.
Proof.
  destruct (is_ok_Ok (g ← group_a; n ← advanced alice g; _ ← accept_extension g n;
    _ ← fail_if (negb (length (vg_chain n) =? 2)%nat || is_ok (accept_extension n g)
          || is_ok (advanced outsider g) || negb (is_ok (group_encode n))
          || negb (bool_decide (group_controller g = reader_id alice))) invalid_sync;
    Ok (g, n))) as ([g n] & Hrun); [by vm_compute|].
  apply bind_Ok in Hrun as (g' & Hg & Hrun). apply bind_Ok in Hrun as (n' & Hn & Hrun).
  apply then_Ok in Hrun as [Hacc Hrun]. apply then_Ok in Hrun as [Ht Hrun].
  injection Hrun as -> ->. exists g, n. apply fail_if_Ok in Ht. bool_prop.
  destruct Ht as [[[[Hlen Hback] Hout] Henc] Hc].
  exact (conj Hg (conj Hn (conj Hlen (conj Hacc (conj Hback (conj Hout (conj Henc Hc))))))).
Qed.

Lemma verified_group_authorized_witness :
  ∃ chain g group controller, length chain = 2%nat
    ∧ group_verify chain (reader_id alice) = Ok g
    ∧ member_id controller = reader_id alice
    ∧ authorized MAX_MERGE_DEPTH (reader_id alice) group controller chain.
Proof.
  destruct run_advanced as (g & n & Hg & Hn & Hlen & _ & _ & _ & _ & Hc).
  pose proof (advanced_group_verified _ _ _ _ _ _ Hn) as Hv. rewrite Hc in Hv.
  destruct (verified_group_authorized _ _ _ Hv) as (_ & group & controller & Hid & Hauth).
  exists (vg_chain n), n, group, controller. exact (conj Hlen (conj Hv (conj Hid Hauth))).
Defined.

(** An advanced group contains the chain it was advanced from; the reverse is refused. *)
Lemma extension_contains_chain_witness :
  ∃ pinned incoming, accept_extension pinned incoming = Ok tt
    ∧ is_ok (accept_extension incoming pinned) = false
    ∧ (incorporated (vg_chain incoming) (vg_chain pinned)
       ∨ ∃ sub, incorporated (vg_chain incoming) sub ∧ chains_collide (vg_chain pinned) sub).
Proof.
  destruct run_advanced as (g & n & Hg & Hn & Hlen & Hacc & Hback & _ & _ & Hc).
  exists g, n. split; [exact Hacc|]. split; [exact Hback|].
  eapply extension_contains_chain.
  - exact (created_group_verified _ _ _ _ _ Hg).
  - exact (advanced_group_verified _ _ _ _ _ _ Hn).
  - exact (created_group_wf _ _ _ _ _ Hg).
  - exact (advanced_group_wf _ _ _ _ _ _ (created_group_wf _ _ _ _ _ Hg) Hn).
  - exact Hacc.
Defined.

(** A member advances its group and an outsider does not. *)
Lemma advanced_group_accepted_witness :
  ∃ g n, advanced alice g = Ok n ∧ is_ok (advanced outsider g) = false
    ∧ ms_epoch (group_membership n) = ms_epoch (group_membership g) + 1
    ∧ accept_extension g n = Ok tt.
Proof.
  destruct run_advanced as (g & n & Hg & Hn & _ & _ & _ & Hout & _).
  destruct (advanced_group_accepted _ _ _ _ _ _ (created_group_wf _ _ _ _ _ Hg) Hn)
    as (_ & _ & _ & _ & _ & He & _ & _ & _ & _ & Hacc).
  exists g, n. exact (conj Hn (conj Hout (conj He Hacc))).
Defined.

Lemma encoded_group_decodes_witness :
  ∃ g b, group_encode g = Ok b ∧ group_decode b (reader_id alice) = Ok g ∧ length (vg_chain g) = 2%nat.
Proof.
  destruct run_advanced as (g & n & Hg & Hn & Hlen & _ & _ & _ & Henc & Hc).
  apply is_ok_Ok in Henc as [b Hb]. exists n, b. split; [exact Hb|]. split; [|exact Hlen].
  pose proof (advanced_group_verified _ _ _ _ _ _ Hn) as Hv. rewrite Hc in Hv.
  exact (encoded_group_decodes _ _ _ _ Hv (advanced_group_wf _ _ _ _ _ _
    (created_group_wf _ _ _ _ _ Hg) Hn) Hb).
Defined.

(** Bob's device consents and Alice's merges; neither can do both. *)
Lemma merged_group_accepted_by_both_witness :
  ∃ a b consent merged, group_a = Ok a ∧ group_b = Ok b
    ∧ approve_group_merge bob b a = Ok consent
    ∧ merge_group alice a consent (replicate 32 Byte.x07) = Ok merged
    ∧ is_ok (approve_group_merge alice b a) = false
    ∧ is_ok (merge_group bob a consent (replicate 32 Byte.x07)) = false
    ∧ group_verify (vg_chain merged) (group_controller a) = Ok merged
    ∧ accept_extension a merged = Ok tt ∧ accept_extension b merged = Ok tt.
Proof.
  destruct (is_ok_Ok (a ← group_a; b ← group_b; c ← approve_group_merge bob b a;
    m ← merge_group alice a c (replicate 32 Byte.x07);
    _ ← fail_if (is_ok (approve_group_merge alice b a)
          || is_ok (merge_group bob a c (replicate 32 Byte.x07))) invalid_sync;
    Ok (a, b, c, m))) as ([[[a b] c] m] & Hrun); [by vm_compute|].
  apply bind_Ok in Hrun as (a' & Ha & Hrun). apply bind_Ok in Hrun as (b' & Hb & Hrun).
  apply bind_Ok in Hrun as (c' & Hc & Hrun). apply bind_Ok in Hrun as (m' & Hm & Hrun).
  apply then_Ok in Hrun as [Ht Hrun]. injection Hrun as -> -> -> ->.
  apply fail_if_Ok, orb_false_iff in Ht as [Hno1 Hno2].
  destruct (merged_group_accepted_by_both _ _ _ _ _ _ _ (created_group_wf _ _ _ _ _ Hb)
    (created_group_wf _ _ _ _ _ Ha) Hc Hm)
    as (_ & _ & _ & Hv & _ & _ & _ & _ & _ & _ & _ & Hx & Hy).
  exists a, b, c, m.
  exact (conj Ha (conj Hb (conj Hc (conj Hm (conj Hno1 (conj Hno2 (conj Hv (conj Hx Hy)))))))).
Defined.

(** ** Pairing *)

#[local] Existing Instances real_base64 real_base64_ok.
#[local] Instance real_size : Base64SizeOk.
Proof. exact real_base64_size. Qed.

(** Bob answers Alice's invitation, made at 100, at 101; it is accepted at 399 and not at 400. *)
Lemma run_pairing :
  ∃ g i r, group_a = Ok g
    ∧ for_reader g (reader_id alice) 100 (Ok (replicate 32 Byte.x55)) = Ok i
    ∧ (i' ← from_ticket (ticket i); request_pairing bob i' g (endpoint Byte.x02) "Phone" 101) = Ok r
    ∧ invitation_typed i ∧ pairing_verify r i g 399 = Ok tt
    ∧ is_ok (pairing_verify r i g 400) = false.
Proof.
  destruct (is_ok_Ok (g ← group_a; i ← for_reader g (reader_id alice) 100 (Ok (replicate 32 Byte.x55));
    r ← (i' ← from_ticket (ticket i); request_pairing bob i' g (endpoint Byte.x02) "Phone" 101);
    _ ← pairing_verify r i g 399;
    _ ← fail_if (is_ok (pairing_verify r i g 400) || negb (length (pi_endpoint i) =? 32)%nat
          || negb (length (pi_controller i) =? 32)%nat || negb (length (pi_group i) =? 32)%nat
          || negb (length (pi_secret i) =? 32)%nat || negb (0 <=? pi_expires i)
          || negb (pi_expires i <=? U64_MAX)) invalid_sync;
    Ok (g, i, r))) as ([[g i] r] & Hrun); [by vm_compute|].
  apply bind_Ok in Hrun as (g' & Hg & Hrun). apply bind_Ok in Hrun as (i' & Hi & Hrun).
  apply bind_Ok in Hrun as (r' & Hr & Hrun). apply then_Ok in Hrun as [Hv Hrun].
  apply then_Ok in Hrun as [Ht Hrun]. injection Hrun as -> -> ->. apply fail_if_Ok in Ht.
  repeat rewrite orb_false_iff in Ht. repeat rewrite negb_false_iff in Ht.
  repeat rewrite Nat.eqb_eq in Ht. rewrite !Z.leb_le in Ht.
  destruct Ht as [[[[[[Hno He] Hc] Hgr] Hs] Hlo] Hhi].
  exists g, i, r.
  exact (conj Hg (conj Hi (conj Hr (conj (conj He (conj Hc (conj Hgr (conj (conj Hlo Hhi) Hs))))
    (conj Hv Hno))))).
Qed.

Lemma invited_request_accepted_witness :
  ∃ g i r, for_reader g (reader_id alice) 100 (Ok (replicate 32 Byte.x55)) = Ok i
    ∧ pairing_verify r i g 399 = Ok tt ∧ is_ok (pairing_verify r i g 400) = false
    ∧ rb_reader (pr_body r) = ri_public bob.
Proof.
  destruct run_pairing as (g & i & r & Hg & Hi & Hr & Hty & _ & Hno).
  destruct (invited_request_accepted g (reader_id alice) 100 _ i bob _ _ 101 r 399 Hi Hty Hr)
    as (Hv & Hreader & _); [lia|lia|].
  exists g, i, r. exact (conj Hi (conj Hv (conj Hno Hreader))).
Defined.

Lemma accepted_request_bound_witness :
  ∃ r i g, pairing_verify r i g 399 = Ok tt ∧ 399 < pi_expires i ≤ 399 + 300
    ∧ group_digest g = Ok (pi_group i)
    ∧ ∀ i' g' later, pairing_verify r i' g' later = Ok tt → i = i' ∨ invitations_collide i i'.
Proof.
  destruct run_pairing as (g & i & r & _ & _ & _ & _ & Hv & _).
  destruct (accepted_request_bound _ _ _ _ Hv) as (Ht & Hd & _ & _ & _ & Hinj).
  exists r, i, g. exact (conj Hv (conj Ht (conj Hd Hinj))).
Defined.

(** Bob asks to join from a group of his own, and consents to the merge. *)
Lemma merge_consent_is_of_origin_witness :
  ∃ r target a, merge_approval r target = Ok (Some a) ∧ group_digest target = Ok (ma_target a).
Proof.
  destruct (is_ok_Ok (g ← group_a; b ← group_b;
    i ← for_reader g (reader_id alice) 100 (Ok (replicate 32 Byte.x55));
    r ← request_group_pairing bob i g b (endpoint Byte.x02) "Phone" 101;
    r ← approve_pairing_merge bob r g;
    a ← merge_approval r g;
    a ← ok_or invalid_sync a; Ok (g, r, a))) as ([[g r] a] & Hrun); [by vm_compute|].
  apply bind_Ok in Hrun as (g' & Hg & Hrun). apply bind_Ok in Hrun as (b & _ & Hrun).
  apply bind_Ok in Hrun as (i & _ & Hrun). apply bind_Ok in Hrun as (r1 & _ & Hrun).
  apply bind_Ok in Hrun as (r2 & _ & Hrun). apply bind_Ok in Hrun as (o & Ho & Hrun).
  apply bind_Ok in Hrun as (a' & Ha & Hrun). injection Hrun as -> -> ->.
  apply ok_or_Ok in Ha. subst o. exists r, g, a. split; [exact Ho|].
  destruct (merge_consent_is_of_origin _ _ _ Ho) as (_ & Hd & _). exact Hd.
Defined.

(** * The theorems on packets at a group of two devices, with the items and replicas of
    [PersonalWitness]. *)

Import SyncDemo.

#[local] Existing Instances EnvelopeDemo.demo_gcm EnvelopeDemo.demo_gcm_ok item_serde demo_changes.
#[local] Existing Instances demo_standard.
#[local] Instance demo_standard_ok : Base64StandardOk.
Proof. intros b. unfold b64_decode, b64_encode, demo_standard. by rewrite as_bytes_of_bytes. Qed.

#[local] Instance update_codec : Codec EncodedUpdate :=
  codec_inj (λ u, (eu_item_id u, eu_changes u)) (λ p, {| eu_item_id := p.1; eu_changes := p.2 |}).
#[local] Instance update_codec_ok : CodecOk EncodedUpdate.
Proof. apply codec_inj_ok. by intros []. Qed.
#[local] Instance update_chunks : SerdeChunks EncodedUpdate := λ u, Ok [put u].
#[local] Instance update_chunks_ok : SerdeChunksOk EncodedUpdate.
Proof. intros u chunks [= <-]. cbn. by rewrite app_nil_r. Qed.

#[local] Instance context_codec : Codec PacketContext :=
  codec_inj (λ c, (px_suite c, px_group c, px_epoch c, px_membership c, px_author c,
                   px_operation c, px_recipients c))
    (λ p : string * bytes * Z * bytes * bytes * bytes * list bytes,
       let '(s, g, e, m, a, o, r) := p in
       {| px_suite := s; px_group := g; px_epoch := e; px_membership := m; px_author := a;
          px_operation := o; px_recipients := r |}).
#[local] Instance context_codec_ok : CodecOk PacketContext.
Proof. apply codec_inj_ok. by intros []. Qed.
#[local] Instance key_codec : Codec RecipientKey :=
  codec_inj (λ k, (rk_recipient k, rk_encapsulated k, rk_wrapped k))
    (λ p : bytes * bytes * bytes,
       {| rk_recipient := p.1.1; rk_encapsulated := p.1.2; rk_wrapped := p.2 |}).
#[local] Instance key_codec_ok : CodecOk RecipientKey.
Proof. apply codec_inj_ok. by intros []. Qed.
#[local] Instance packet_body_codec : Codec PacketBody :=
  codec_inj (λ b, (pb_context b, pb_nonce b, pb_ciphertext b, pb_keys b))
    (λ p, let '(c, n, x, k) := p in
       {| pb_context := c; pb_nonce := n; pb_ciphertext := x; pb_keys := k |}).
#[local] Instance packet_body_codec_ok : CodecOk PacketBody.
Proof. apply codec_inj_ok. by intros []. Qed.
#[local] Instance packet_codec : Codec Packet :=
  codec_inj (λ p, (pk_body p, pk_signature p)) (λ p, {| pk_body := p.1; pk_signature := p.2 |}).
#[local] Instance packet_codec_ok : CodecOk Packet.
Proof. apply codec_inj_ok. by intros []. Qed.

(** Both devices are members, at two epochs. *)
Definition readers (epoch : Z) : VaultResult Membership :=
  membership_new (replicate 16 Byte.x01) epoch [ri_public alice; ri_public bob].
Definition dek : bytes := replicate 32 Byte.x44.
Definition seal (m : Membership) : VaultResult VerifiedPacket :=
  seal_update alice update m (Ok dek) (Ok (replicate 16 Byte.x02)) (Ok (replicate 12 Byte.x03))
    (λ _, []).

Lemma run_packet :
  ∃ m m' p, readers 1 = Ok m ∧ readers 2 = Ok m' ∧ seal m = Ok p
    ∧ from_seeds [Byte.x0b] [Byte.x0b; Byte.x0b] = Ok bob
    ∧ ri_public bob ∈ ms_members m ∧ packet_verify (vp_bytes p) m = Ok p
    ∧ is_ok (packet_verify (vp_bytes p) m') = false
    ∧ is_ok (packet_open p outsider m) = false.
Proof.
  destruct (is_ok_Ok (m ← readers 1; m' ← readers 2; p ← seal m;
    _ ← fail_if (negb (bool_decide (ri_public bob ∈ ms_members m))
          || is_ok (packet_verify (vp_bytes p) m') || is_ok (packet_open p outsider m)) invalid_sync;
    Ok (m, m', p))) as ([[m m'] p] & Hrun); [by vm_compute|].
  apply bind_Ok in Hrun as (x & Hm & Hrun). apply bind_Ok in Hrun as (x' & Hm' & Hrun).
  apply bind_Ok in Hrun as (y & Hp & Hrun). apply then_Ok in Hrun as [Ht Hrun].
  injection Hrun as -> -> ->. apply fail_if_Ok, orb_false_iff in Ht as [Ht Ho].
  apply orb_false_iff in Ht as [Hin Hv]. apply negb_false_iff, bool_decide_eq_true in Hin.
  assert (packet_verify (vp_bytes p) m = Ok p) as Hpv.
  { unfold seal, seal_update in Hp. run_steps.
    pose proof (packet_verify_Ok _ _ _ Hp) as (_ & Hb & _). by rewrite Hb. }
  exists m, m', p.
  exact (conj Hm (conj Hm' (conj Hp (conj eq_refl (conj Hin (conj Hpv (conj Hv Ho))))))).
Qed.

Lemma sealed_update_opens_witness :
  ∃ m p, seal m = Ok p ∧ packet_open p bob m = Ok update ∧ is_ok (packet_open p outsider m) = false.
Proof.
  destruct run_packet as (m & m' & p & Hm & _ & Hp & Hbob & Hin & _ & _ & Ho). exists m, p.
  split; [exact Hp|]. split; [|exact Ho].
  eapply (sealed_update_opens alice update m dek); [exact Hp|reflexivity| |exact Hbob|exact Hin].
  apply membership_new_Ok in Hm. exact (proj2 (proj2 (proj2 Hm))).
Defined.

Lemma packet_bound_to_membership_witness :
  ∃ m m' p, packet_verify (vp_bytes p) m = Ok p ∧ is_ok (packet_verify (vp_bytes p) m') = false
    ∧ rk_recipient <$> pb_keys (pk_body (vp_packet p)) = member_id <$> ms_members m.
Proof.
  destruct run_packet as (m & m' & p & Hm & _ & _ & _ & _ & Hv & Hno & _). exists m, m', p.
  apply membership_new_Ok in Hm as (_ & _ & _ & Hwf).
  destruct (packet_bound_to_membership _ m p m p Hwf Hwf Hv Hv) as (_ & _ & _ & Hkeys).
  exact (conj Hv (conj Hno Hkeys)).
Defined.

(** * The theorems on the pairing state at two devices: one makes a group and invites, the other
    joins it. *)

Import SyncDemo.
#[local] Existing Instances real_base64 real_base64_ok.

Definition draws (b : Byte.byte) : PairingDraws := {|
  pd_group := Ok (replicate 16 b); pd_secret := Ok (replicate 32 b) |}.
Definition invited (r : PairingReply.reply) : VaultResult PairingInvitation :=
  match r with PairingReply.Invitation i => Ok i | _ => Err not_configured end.
Definition requested (r : PairingReply.reply) : VaultResult PairingRequest :=
  match r with PairingReply.Request r => Ok r | _ => Err not_configured end.
Definition reply_group (r : PairingReply.reply) : VaultResult VerifiedGroup :=
  match r with PairingReply.Group g => Ok g | _ => Err not_configured end.
Lemma invited_Ok r i : invited r = Ok i → r = PairingReply.Invitation i.
Proof. destruct r; cbn; congruence. Qed.
Lemma requested_Ok r i : requested r = Ok i → r = PairingReply.Request i.
Proof. destruct r; cbn; congruence. Qed.
Lemma grouped_Ok r i : reply_group r = Ok i → r = PairingReply.Group i.
Proof. destruct r; cbn; congruence. Qed.

(** The first device makes a group and shows an invitation; the second answers it, and the
    first stages and approves the request. *)
Lemma run_join :
  ∃ g s0 i s1 r sb s2 e next s3 reply,
    pairing_handle alice 100 (draws Byte.x01) sync_state_default
      (PairingCommand.Initialize (endpoint Byte.x01) "Laptop") = Ok (PairingReply.Group g, s0)
    ∧ pairing_handle alice 100 (draws Byte.x02) s0 PairingCommand.Invite
      = Ok (PairingReply.Invitation i, s1)
    ∧ pairing_handle bob 101 (draws Byte.x03) sync_state_default
        (PairingCommand.Join i g (endpoint Byte.x02) "Phone") = Ok (PairingReply.Request r, sb)
    ∧ pairing_handle alice 102 (draws Byte.x04) s1 (PairingCommand.Stage r) = Ok (reply, s2)
    ∧ pairing_id r = Ok e ∧ ps_approved (ys_pairing s1) = None
    ∧ pairing_handle alice 103 (draws Byte.x05) s2 (PairingCommand.Approve e)
      = Ok (PairingReply.Group next, s3)
    ∧ length (ms_members (group_membership g)) = 1%nat
    ∧ length (ms_members (group_membership next)) = 2%nat.
Proof.
  destruct (is_ok_Ok (
    '(ra, s0) ← pairing_handle alice 100 (draws Byte.x01) sync_state_default
      (PairingCommand.Initialize (endpoint Byte.x01) "Laptop");
    g ← reply_group ra;
    '(ri, s1) ← pairing_handle alice 100 (draws Byte.x02) s0 PairingCommand.Invite;
    i ← invited ri;
    '(rj, sb) ← pairing_handle bob 101 (draws Byte.x03) sync_state_default
      (PairingCommand.Join i g (endpoint Byte.x02) "Phone");
    r ← requested rj;
    '(rs, s2) ← pairing_handle alice 102 (draws Byte.x04) s1 (PairingCommand.Stage r);
    e ← pairing_id r;
    '(rn, s3) ← pairing_handle alice 103 (draws Byte.x05) s2 (PairingCommand.Approve e);
    next ← reply_group rn;
    _ ← fail_if (bool_decide (is_Some (ps_approved (ys_pairing s1)))
          || negb (length (ms_members (group_membership g)) =? 1)%nat
          || negb (length (ms_members (group_membership next)) =? 2)%nat) not_configured;
    Ok ((g, s0, i, s1), (r, sb, s2, e, next, s3, rs)))) as ([[[[g s0] i] s1] [[[[[[r sb] s2] e] next] s3] rs]] & Hrun);
    [by vm_compute|].
  apply bind_Ok in Hrun as ([ra s0'] & H0 & Hrun). apply bind_Ok in Hrun as (g' & Hg%grouped_Ok & Hrun).
  apply bind_Ok in Hrun as ([ri s1'] & H1 & Hrun). apply bind_Ok in Hrun as (i' & Hi%invited_Ok & Hrun).
  apply bind_Ok in Hrun as ([rj sb'] & H2 & Hrun). apply bind_Ok in Hrun as (r' & Hr%requested_Ok & Hrun).
  apply bind_Ok in Hrun as ([rs' s2'] & H3 & Hrun). apply bind_Ok in Hrun as (e' & He & Hrun).
  apply bind_Ok in Hrun as ([rn s3'] & H4 & Hrun). apply bind_Ok in Hrun as (next' & Hn%grouped_Ok & Hrun).
  apply then_Ok in Hrun as [Ht Hrun]. injection Hrun as -> -> -> -> -> -> -> -> -> -> ->.
  subst ra ri rj rn. apply fail_if_Ok in Ht. rewrite !orb_false_iff, !negb_false_iff in Ht.
  destruct Ht as [[Ha Hl1] Hl2]. apply bool_decide_eq_false, eq_None_not_Some in Ha.
  apply Nat.eqb_eq in Hl1, Hl2. exists g, s0, i, s1, r, sb, s2, e, next, s3, rs.
  exact (conj H0 (conj H1 (conj H2 (conj H3 (conj He (conj Ha (conj H4 (conj Hl1 Hl2)))))))).
Qed.

Lemma default_ok r : sync_ok r sync_state_default.
Proof. by split. Qed.

(** The group that was made is pinned. *)
Lemma initialized_group r now d s e n g s' :
  pairing_handle r now d s (PairingCommand.Initialize e n) = Ok (PairingReply.Group g, s') →
  current_pinned s = None → group_of s' g.
Proof.
  intros Hh Hc. unfold pairing_handle in Hh. rewrite (current_none _ Hc) in Hh.
  cbn [mbind result_bind] in Hh. unfold handle_initialize in Hh. apply then_Ok in Hh as [_ Hh].
  apply bind_Ok in Hh as (g' & Hg & Hh). apply bind_Ok in Hh as (s1 & Hs & [= -> <-]).
  destruct (created_made _ _ _ _ _ Hg) as [Hm Hin]. by destruct (installed r g s s1 Hm Hin Hs).
Qed.

Lemma invited_group r now d s g reply s' :
  pairing_handle r now d s PairingCommand.Invite = Ok (reply, s') → group_of s g → group_of s' g.
Proof.
  unfold pairing_handle. intros (current & _ & Hh)%bind_Ok Hg. unfold handle_invite in Hh.
  apply bind_Ok in Hh as (c & _ & Hh). apply then_Ok in Hh as [_ Hh].
  destruct (find_first _ _); [by injection Hh as _ <-|].
  apply bind_Ok in Hh as (i & _ & [= _ <-]). by apply with_pairing_group.
Qed.

Lemma pinned_group_never_rolls_back_witness :
  ∃ s s' g g', group_of s g ∧ group_of s' g' ∧ length (ms_members (group_membership g)) = 1%nat
    ∧ (incorporated (vg_chain g') (vg_chain g)
       ∨ ∃ a b sub, rtc accepts g a ∧ accepts a b ∧ rtc accepts b g'
           ∧ incorporated (vg_chain b) sub ∧ chains_collide (vg_chain a) sub).
Proof.
  destruct run_join as (g & s0 & i & s1 & r & sb & s2 & e & next & s3 & reply
    & H0 & H1 & H2 & H3 & He & Ha & H4 & Hl1 & Hl2).
  pose proof (initialized_group _ _ _ _ _ _ _ _ H0 eq_refl) as Hg.
  assert (pairing_command alice sync_state_default s0) as Hc0 by (do 4 eexists; by split; [|exact H0]).
  assert (pairing_command alice s0 s1) as Hc1 by (do 4 eexists; by split; [|exact H1]).
  assert (pairing_command alice s1 s2) as Hc2 by (do 4 eexists; by split; [|exact H3]).
  assert (pairing_command alice s2 s3) as Hc3 by (do 4 eexists; by split; [|exact H4]).
  destruct (pinned_group_never_rolls_back alice s0 s3 g) as (_ & g' & Hg' & Hinc).
  - by eapply rtc_l; [exact Hc0|].
  - eapply rtc_l; [exact Hc1|]. eapply rtc_l; [exact Hc2|]. by eapply rtc_l; [exact Hc3|].
  - exact Hg.
  - exists s0, s3, g, g'. exact (conj Hg (conj Hg' (conj Hl1 Hinc))).
Defined.

Lemma invited_device_joins_witness :
  ∃ s3 sb2 next, group_of s3 next ∧ group_of sb2 next ∧ ys_membership sb2 = ys_membership s3
    ∧ length (ms_members (group_membership next)) = 2%nat.
Proof.
  destruct run_join as (g & s0 & i & s1 & r & sb & s2 & e & next & s3 & reply
    & H0 & H1 & H2 & H3 & He & Ha & H4 & Hl1 & Hl2).
  pose proof (initialized_group _ _ _ _ _ _ _ _ H0 eq_refl) as Hg.
  pose proof (invited_group _ _ _ _ _ _ _ H1 Hg) as Hg1.
  destruct (invited_device_joins alice bob s1 sync_state_default g i (endpoint Byte.x02) "Phone" r sb
    reply s2 e next s3 101 (draws Byte.x03) 102 (draws Byte.x04) 103 (draws Byte.x05) 104
    (draws Byte.x06) Hg1 eq_refl eq_refl H2 H3 He) as (sb2 & _ & Hgs & Hgb & Hm & _); [|exact H4|].
  - rewrite Ha. discriminate.
  - exists s3, sb2, next. exact (conj Hgs (conj Hgb (conj Hm Hl2))).
Defined.

Lemma enrollment_needs_approval_witness :
  ∃ s c g g' s', pairing_handle alice 103 (draws Byte.x05) s c = Ok (PairingReply.Group g', s')
    ∧ group_of s g ∧ g' ≠ g
    ∧ accept_extension g g' = Ok tt ∧ group_change alice 103 s c g g'.
Proof.
  destruct run_join as (g & s0 & i & s1 & r & sb & s2 & e & next & s3 & reply
    & H0 & H1 & H2 & H3 & He & Ha & H4 & Hl1 & Hl2).
  pose proof (initialized_group _ _ _ _ _ _ _ _ H0 eq_refl) as Hg.
  assert (pairing_command alice sync_state_default s0) as Hc0 by (do 4 eexists; by split; [|exact H0]).
  assert (pairing_command alice s0 s1) as Hc1 by (do 4 eexists; by split; [|exact H1]).
  assert (pairing_command alice s1 s2) as Hc2 by (do 4 eexists; by split; [|exact H3]).
  assert (rtc (pairing_command alice) sync_state_default s2) as Hrun
    by (eapply rtc_l; [exact Hc0|]; eapply rtc_l; [exact Hc1|]; by eapply rtc_l; [exact Hc2|]).
  destruct (run_keeps alice _ _ Hrun (default_ok alice)) as [Hok _].
  pose proof (invited_group _ _ _ _ _ _ _ H1 Hg) as Hg1.
  pose proof (stage_Ok _ _ _ _ _ _ _ _ Hg1 H3) as Hs2.
  assert (group_of s2 g) as Hg2 by (rewrite Hs2; by apply with_pairing_group).
  assert (next ≠ g) as Hne by (intros ->; rewrite Hl1 in Hl2; discriminate).
  destruct (join_Ok bob 101 (draws Byte.x03) sync_state_default i g (endpoint Byte.x02) "Phone" r sb eq_refl eq_refl H2) as (_ & _ & Ho & _).
  assert (ps_approved (ys_pairing s2) ≠ Some e) as Hnot by (rewrite Hs2; cbn; rewrite Ha; discriminate).
  destruct (approve_reader_Ok alice 103 (draws Byte.x05) s2 g r e next s3 Hg2) as (_ & _ & Hg3 & _);
    [by rewrite Hs2|exact Ho|exact Hnot|exact H4|].
  pose proof (enrollment_needs_approval alice 103 (draws Byte.x05) s2 (PairingCommand.Approve e) _ s3 g
    next Hok I H4 Hg2 Hg3 Hne) as [Hacc Hchange].
  exists s2, (PairingCommand.Approve e), g, next, s3.
  exact (conj H4 (conj Hg2 (conj Hne (conj Hacc Hchange)))).
Defined.
