(* ===== verification/SyncStoreWitness.v ===== *)
(** The theorems on histories of a vault with sync, run: a worker on an empty store that takes
    an item, makes a group, and publishes and receives packets. *)
From Stdlib Require Import ZArith Lia Bool.
From stdpp Require Import base numbers gmap strings list relations.
From S2P Require Import Prelude Text Chars Core Address Instances Codec Wire History StoreSpec Signature.
From S2P Require Import Protocol Manifest KeyringIndex Envelope Automerge Document DocumentProofs.
From S2P Require Import DocumentAtomic Database Worker WorkerReads WorkerCommit WorkerViews WorkerStore.
From S2P Require Import Personal PersonalLegacy Replica PersonalStore PersonalWitness.
From S2P Require Import SyncIdentity SyncGroup SyncMembers SyncPairing SyncPacket SyncState.
From S2P Require Import SyncDocument SyncEdits SyncWorker SyncStore SyncHistory SyncWitness.
From S2P Require Import Clock Lease Grant Approvals Actions Service ServiceProofs Spool ServiceSync.

(** ** Forms *)

Module VaultForms.
Import SyncDemo.
#[export] Existing Instances demo_sha256 demo_sha256_ok real_base64 real_base64_ok.
#[export] Existing Instances demo_changes demo_changes_ok demo_standard demo_standard_ok.
#[export] Existing Instances EnvelopeDemo.demo_gcm EnvelopeDemo.demo_gcm_ok item_serde item_serde_ok.
#[export] Existing Instances update_codec update_codec_ok update_chunks update_chunks_ok.
#[export] Existing Instances context_codec context_codec_ok key_codec key_codec_ok.
#[export] Existing Instances packet_body_codec packet_body_codec_ok packet_codec packet_codec_ok.
#[export] Instance vault_random : Random := λ _ _ n, Ok (replicate n Byte.x01).
#[export] Instance vault_random_ok : RandomOk.
Proof. intros tick i n b [= <-]. apply length_replicate. Qed.
#[export] Instance vault_attributes : AttributeJson := λ _, [].

(** What has a number is written as its number. *)
#[export] Instance codec_countable `{Countable A} `{Inhabited A} : Codec A | 100 :=
  codec_inj (λ a : A, Z.pos (encode a)) (λ z, default inhabitant (decode (Z.to_pos z))).
Lemma codec_countable_ok `{Countable A} `{Inhabited A} : CodecOk A.
Proof. apply codec_inj_ok. intros a. cbn. by rewrite decode_encode. Qed.
#[export] Instance kind_inhabited : Inhabited DocumentKind := populate LocalKeyring.
#[export] Instance kind_codec : Codec DocumentKind := codec_countable.
#[export] Instance kind_codec_ok : CodecOk DocumentKind := codec_countable_ok.
#[export] Instance encryption_codec : Codec EncryptionAlgorithm.algorithm :=
  codec_inj (λ _, true) (λ _, EncryptionAlgorithm.Aes256Gcm).
#[export] Instance encryption_codec_ok : CodecOk EncryptionAlgorithm.algorithm.
Proof. apply codec_inj_ok. by intros []. Qed.
#[export] Instance signature_codec : Codec SignatureAlgorithm.algorithm :=
  codec_inj (λ _, true) (λ _, SignatureAlgorithm.MlDsa65).
#[export] Instance signature_codec_ok : CodecOk SignatureAlgorithm.algorithm.
Proof. apply codec_inj_ok. by intros []. Qed.

(** *** Records of the store *)

#[export] Instance wrapped_codec : Codec WrappedKey :=
  codec_inj (λ k, (wk_encryption_algorithm k, wk_nonce k, wk_ciphertext k))
    (λ p : EncryptionAlgorithm.algorithm * bytes * bytes,
       {| wk_encryption_algorithm := p.1.1; wk_nonce := p.1.2; wk_ciphertext := p.2 |}).
#[export] Instance wrapped_codec_ok : CodecOk WrappedKey.
Proof. apply codec_inj_ok. by intros []. Qed.
#[export] Instance snapshot_codec : Codec EncryptedSnapshot :=
  codec_inj (λ s, (es_version s, es_encryption_algorithm s, es_vault_id s, es_document_id s, es_scope s,
                   es_device_key_id s, (es_generation s, es_key_epoch s, es_nonce s, es_ciphertext s,
                   es_history_nonce s, es_history_ciphertext s)))
    (λ p : Z * EncryptionAlgorithm.algorithm * bytes * bytes * DocumentKind * bytes
           * (Z * Z * bytes * bytes * bytes * bytes),
       let '(v, a, i, d, k, y, (g, e, n, c, h, x)) := p in
       {| es_version := v; es_encryption_algorithm := a; es_vault_id := i; es_document_id := d;
          es_scope := k; es_device_key_id := y; es_generation := g; es_key_epoch := e; es_nonce := n;
          es_ciphertext := c; es_history_nonce := h; es_history_ciphertext := x |}).
#[export] Instance snapshot_codec_ok : CodecOk EncryptedSnapshot.
Proof. apply codec_inj_ok. by intros []. Qed.
#[export] Instance head_codec : Codec CurrentHead :=
  codec_inj (λ h, (ch_head_id h, ch_vault_id h, ch_document_id h, ch_scope h, ch_generation h,
                   (ch_key_epoch h, ch_wrapped_key_digest h, ch_snapshot_digest h, ch_next_eviction h,
                    ch_device_key_id h)))
    (λ p : bytes * bytes * bytes * DocumentKind * Z * (Z * bytes * bytes * option Z * bytes),
       let '(i, v, d, k, g, (e, w, s, n, y)) := p in
       {| ch_head_id := i; ch_vault_id := v; ch_document_id := d; ch_scope := k; ch_generation := g;
          ch_key_epoch := e; ch_wrapped_key_digest := w; ch_snapshot_digest := s;
          ch_next_eviction := n; ch_device_key_id := y |}).
#[export] Instance head_codec_ok : CodecOk CurrentHead.
Proof. apply codec_inj_ok. by intros []. Qed.
Definition manifest_code : Codec StateManifest :=
  codec_inj (λ m, (sm_version m, sm_signature_algorithm m, sm_vault_id m, sm_device_key_id m,
                   sm_document_count m, (sm_inventory_digest m, sm_repack_pending m,
                   sm_manifest_id m, sm_signature m)))
    (λ p : Z * SignatureAlgorithm.algorithm * bytes * bytes * Z * (bytes * bool * bytes * bytes),
       let '(v, a, i, y, n, (d, r, x, s)) := p in
       {| sm_version := v; sm_signature_algorithm := a; sm_vault_id := i; sm_device_key_id := y;
          sm_document_count := n; sm_inventory_digest := d; sm_repack_pending := r;
          sm_manifest_id := x; sm_signature := s |}).
Lemma manifest_code_ok : @CodecOk _ manifest_code.
Proof. apply codec_inj_ok. by intros []. Qed.
(** A manifest is written when it fits. *)
#[export] Instance manifest_serde : Serde StateManifest := {|
  serde_to_vec m := let b := put (Codec := manifest_code) m in
    if Z.of_nat (length b) <=? MAX_MANIFEST_BYTES then Ok b else Err "too long";
  serde_from_slice := serde_from_slice (Serde := @codec_serde _ manifest_code) |}.
#[export] Instance manifest_serde_ok : SerdeOk StateManifest.
Proof.
  intros m b Hb. unfold serde_to_vec, manifest_serde in Hb. destruct (_ <=? _); [|done].
  exact (@codec_serde_ok _ manifest_code manifest_code_ok m b Hb).
Qed.
#[export] Instance index_serde : Serde Index := {|
  serde_to_vec _ := Err "unused"; serde_from_slice _ := Err "unused" |}.
#[export] Instance entry_serde : Serde HistoryEntry := {|
  serde_to_vec _ := Ok []; serde_from_slice _ := Err "unused" |}.
(** The history of a document is not kept. *)
#[export] Instance log_serde : Serde HistoryLog := {|
  serde_to_vec _ := Ok []; serde_from_slice _ := Ok (log_new LocalKeyring PERSONAL_SECRET_NAMESPACE) |}.

Lemma codec_inj_back {A} `{CodecOk B} (f : A → B) (g : B → A) a rest :
  get (Codec := codec_inj f g) (put (Codec := codec_inj f g) a ++ rest) = Some (g (f a), rest).
Proof. cbn. by rewrite get_put. Qed.
Lemma codec_inj_read {A} `{Codec B} (f : A → B) (g : B → A) b a rest :
  get (Codec := codec_inj f g) b = Some (a, rest) → ∃ p, a = g p.
Proof. cbn. destruct (get b) as [[p r]|]; [|by cbn]. intros [= <- _]. by exists p. Qed.

(** Local records without a deadline are written. *)
Definition record_code : Codec SecretRecord :=
  codec_inj (λ r, (sr_version r, default ("", None) (as_local (sr_address r)), sr_value r,
                   sr_version_id r, (sr_created_at r, sr_updated_at r)))
    (λ p : Z * (string * option string) * bytes * bytes * (Z * Z),
       let '(v, a, x, i, (c, u)) := p in
       {| sr_version := v; sr_address := Local a.1 a.2; sr_value := x; sr_evict_at := None;
          sr_version_id := i; sr_created_at := c; sr_updated_at := u |}).
#[export] Instance record_serde : Serde SecretRecord := {|
  serde_to_vec r := if bool_decide (is_Some (as_local (sr_address r)) ∧ sr_evict_at r = None)
                    then Ok (put (Codec := record_code) r) else Err "not written";
  serde_from_slice b := match get (Codec := record_code) b with
                        | Some (r, []) => Ok r | _ => Err "not a record" end |}.
#[export] Instance record_serde_ok : SerdeOk SecretRecord.
Proof.
  intros r b Hb. unfold serde_to_vec, record_serde in Hb. case_bool_decide as Ha; [|done].
  assert (b = record_code.(put) r) as -> by congruence. destruct Ha as [[a Ha] He].
  unfold serde_from_slice, record_serde.
  rewrite <- (app_nil_r (record_code.(put) r)). unfold record_code. rewrite codec_inj_back.
  destruct r as [? [i f|] ? ? ? ? ?]; cbn in *; [|done]. by subst.
Qed.
#[export] Instance deadline_serde : Serde RecordDeadline := {|
  serde_to_vec _ := Err "unused";
  serde_from_slice b := match serde_from_slice (A := SecretRecord) b with
                        | Ok r => Ok {| rd_evict_at := sr_evict_at r |}
                        | Err e => Err e
                        end |}.
#[export] Instance record_deadline_ok : RecordSerdeOk.
Proof. intros b r Hr. unfold serde_from_slice at 1. cbn -[serde_from_slice]. by rewrite Hr. Qed.
#[export] Instance deadline_serde_ok : DeadlineSerdeOk.
Proof.
  intros b r d Hr Hd. unfold serde_from_slice in Hr. cbn -[serde_from_slice] in Hr.
  unfold serde_from_slice, record_serde in Hr.
  destruct (get b) as [[r' rest]|] eqn:Hg; [|done]. destruct rest; [|done]. injection Hr as <-.
  apply codec_inj_read in Hg as [[[[[v a] x] i] [c u]] ->]. done.
Qed.

(** *** The state of sync *)

#[export] Instance catalog_codec : Codec ReplicaCatalog :=
  codec_inj (λ c, (map_to_list (rc_replicas c), elements (rc_pending c)))
    (λ p : list (string * bytes) * list string,
       {| rc_replicas := list_to_map p.1; rc_pending := list_to_set p.2 |}).
#[export] Instance catalog_codec_ok : CodecOk ReplicaCatalog.
Proof.
  apply codec_inj_ok. intros [m l]. cbn. by rewrite list_to_map_to_list, list_to_set_elements_L.
Qed.
#[export] Instance reader_codec : Codec WrappedReaderIdentity :=
  codec_inj (λ r, (wd_kem_left r, wd_kem_right r, wd_signing r))
    (λ p : WrappedKey * WrappedKey * WrappedKey,
       {| wd_kem_left := p.1.1; wd_kem_right := p.1.2; wd_signing := p.2 |}).
#[export] Instance reader_codec_ok : CodecOk WrappedReaderIdentity.
Proof. apply codec_inj_ok. by intros []. Qed.
#[export] Instance members_codec : Codec Membership :=
  codec_inj (λ m, (ms_group m, ms_epoch m, ms_members m, ms_digest m))
    (λ p : bytes * Z * list MemberPublicKeys * bytes,
       let '(g, e, l, d) := p in
       {| ms_group := g; ms_epoch := e; ms_members := l; ms_digest := d |}).
#[export] Instance members_codec_ok : CodecOk Membership.
Proof. apply codec_inj_ok. by intros []. Qed.
#[export] Instance pinned_codec_ok : CodecOk PinnedGroup.
Proof. apply codec_inj_ok. by intros []. Qed.
#[export] Instance request_body_codec_ok : CodecOk RequestBody.
Proof. apply codec_inj_ok. by intros []. Qed.
#[export] Instance request_codec_ok : CodecOk PairingRequest.
Proof. apply codec_inj_ok. by intros []. Qed.
#[export] Instance pairing_codec : Codec PairingState :=
  codec_inj (λ p, (ps_introduction p, ps_group p, ps_invitation p, ps_staged p, ps_joining p, ps_approved p))
    (λ p : option PinnedGroup * option PinnedGroup * option PairingInvitation * option PairingRequest
           * option (PairingInvitation * PairingRequest * PinnedGroup) * option bytes,
       let '(o, g, i, s, j, a) := p in
       {| ps_introduction := o; ps_group := g; ps_invitation := i; ps_staged := s; ps_joining := j;
          ps_approved := a |}).
#[export] Instance pairing_codec_ok : CodecOk PairingState.
Proof. apply codec_inj_ok. by intros []. Qed.
#[export] Instance prepared_codec : Codec PreparedPublication :=
  codec_inj (λ p, (pp_item_id p, SyncState.pp_heads p, pp_packet p))
    (λ p : string * list bytes * bytes,
       {| pp_item_id := p.1.1; SyncState.pp_heads := p.1.2; pp_packet := p.2 |}).
#[export] Instance prepared_codec_ok : CodecOk PreparedPublication.
Proof. apply codec_inj_ok. by intros []. Qed.
#[export] Instance receipt_codec : Codec ReceivedPacket :=
  codec_inj (λ r, (rx_packet r, rx_item_id r, rx_heads r))
    (λ p : bytes * string * list bytes,
       {| rx_packet := p.1.1; rx_item_id := p.1.2; rx_heads := p.2 |}).
#[export] Instance receipt_codec_ok : CodecOk ReceivedPacket.
Proof. apply codec_inj_ok. by intros []. Qed.
#[export] Instance state_codec : Codec PersonalSyncState :=
  codec_inj (λ s, (ys_reader s, ys_pairing s, ys_membership s, ys_prepared s, ys_receipts s))
    (λ p : option WrappedReaderIdentity * PairingState * option Membership * option PreparedPublication
           * list ReceivedPacket,
       let '(r, g, m, q, l) := p in
       {| ys_reader := r; ys_pairing := g; ys_membership := m; ys_prepared := q; ys_receipts := l |}).
#[export] Instance state_codec_ok : CodecOk PersonalSyncState.
Proof. apply codec_inj_ok. by intros []. Qed.

Lemma vault_fits : manifests_fit.
Proof.
  intros w documents repack m b _ Hb. unfold serde_to_vec, manifest_serde in Hb.
  destruct (_ <=? _) eqn:Hl in Hb; [|done]. injection Hb as <-. by apply Z.leb_le.
Qed.
End VaultForms.

(** ** A vault *)

Module VaultDemo.
Import VaultForms SyncDemo.
Definition device : VaultMetadata := {|
  vm_installation_id := replicate 16 Byte.x11; vm_device_vault_id := replicate 16 Byte.x12;
  vm_device_vault_id_size := eq_refl; vm_device_key_id := replicate 32 Byte.x13;
  vm_public_signing_key := [Byte.x2a]; vm_actor_id := [Byte.x14] |}.
Definition key : bytes := replicate 32 Byte.x01.
Definition secrets : InstallationSecrets := {|
  is_root_key := key; is_index_key := key;
  is_wrapped_signing_seed := Some {|
    wk_encryption_algorithm := EncryptionAlgorithm.Aes256Gcm; wk_nonce := replicate 12 Byte.x01;
    wk_ciphertext := key ++ EnvelopeDemo.tag |};
  is_wrapped_enclave_key := None |}.
Definition empty_manifest : StateManifest :=
  match manifest_new (vm_device_vault_id device) (vm_device_key_id device) 0 (inventory_digest [])
          false (SoftwareSigner key) with
  | Ok m => m
  | Err _ => unsigned_manifest [] [] 0 [] false [] []
  end.
Definition manifest_bytes : bytes := match serde_to_vec empty_manifest with Ok b => b | Err _ => [] end.
Definition vault : StoreWorker := {|
  w_tables := {|
    t_documents := ∅; t_snapshots := ∅; t_heads := ∅;
    t_meta := {[ META_MANIFEST := Value.Blob manifest_bytes;
                 META_HEAD := Value.Blob (sm_manifest_id empty_manifest) ]};
    t_commits := ∅; t_vaults := {[ Value.Blob (vm_device_vault_id device) ]} |};
  w_device := device; w_secrets := secrets;
  w_verified := {| vs_head := Some (sm_manifest_id empty_manifest); vs_documents := ∅;
                   vs_manifest_digest := Some (digest manifest_bytes) |};
  w_verifying_key := key; w_sealed := false; w_environment := quiet_environment; w_tick := 0 |}.

(** The clock stands at 100. *)
Definition clock : nat → VaultResult Z := λ _, Ok 100.
Definition seeds : nat → nat → bytes := λ _ _, [].
Abbreviation call cmd w := (vault_personal_sync clock seeds cmd w).
Definition after (cmd : SyncCommand.sync_command) (w : StoreWorker) : StoreWorker := (call cmd w).2.

(** The item is saved. *)
Definition saved (w : StoreWorker) : VaultResult () * StoreWorker :=
  put_at LocalKeyring PERSONAL_SECRET_NAMESPACE (Local "item-1" None) [Byte.x01] None
    (provenance_service ServiceReason.Expiry) 100 w.
Definition initialize : SyncCommand.sync_command :=
  SyncCommand.Pairing (PairingCommand.Initialize (endpoint Byte.x01) "Laptop").

(** What is kept of sync. *)
Definition peek (w : StoreWorker) : VaultResult (PersonalSyncState * ReplicaCatalog) :=
  loaded ← loaded_at w (personal_id w) LocalKeyring (Some PERSONAL_SECRET_NAMESPACE);
  d ← match loaded with
      | Some l => Ok (ld_document l)
      | None => document_new (vm_actor_id (w_device w)) LocalKeyring PERSONAL_SECRET_NAMESPACE
      end;
  s ← sync_state d;
  c ← personal_replicas d;
  Ok (s, c).

(** The item is saved, a group is made, a packet is prepared, and it is reported as stored. *)
Definition packet_of (r : VaultResult SyncReply.sync_reply) : bytes :=
  match r with Ok (SyncReply.Prepared (Some (b, _))) => b | _ => [] end.
Definition with_item : StoreWorker := (saved vault).2.
Definition grouped : StoreWorker := after initialize with_item.
Definition packet : bytes := packet_of (call SyncCommand.Prepare grouped).1.
Definition prepared : StoreWorker := after SyncCommand.Prepare grouped.
Definition stored_it : SyncCommand.sync_command := SyncCommand.Stored (sha256 packet).
Definition stored : StoreWorker := after stored_it prepared.

(** A vault without the item receives it from a member, twice. *)
Definition empty_group : StoreWorker := after initialize vault.
Definition incoming : bytes :=
  match (p ← peek empty_group; identity ← reader_of empty_group p.1;
         m ← ok_or not_configured (ys_membership p.1);
         seal_update identity update m (Ok (replicate 32 Byte.x44)) (Ok (replicate 16 Byte.x02))
           (Ok (replicate 12 Byte.x03)) (λ _, [])) with
  | Ok v => vp_bytes v
  | Err _ => []
  end.
Abbreviation receive := (SyncCommand.Receive incoming).
Definition received_once : StoreWorker := after receive empty_group.
Definition received_twice : StoreWorker := after receive received_once.

Lemma not_loaded : loaded_at vault (personal_id vault) LocalKeyring (Some PERSONAL_SECRET_NAMESPACE) = Ok None.
Proof.
  assert (match loaded_at vault (personal_id vault) LocalKeyring (Some PERSONAL_SECRET_NAMESPACE) with
          | Ok None => true | _ => false end = true) as Hn by (vm_compute; reflexivity).
  destruct (loaded_at _ _ _ _) as [[l|]|e]; done.
Qed.
Lemma vault_unsynced : unsynced vault.
Proof.
  assert (is_ok (document_new (vm_actor_id device) LocalKeyring PERSONAL_SECRET_NAMESPACE) = true) as Hok
    by (vm_compute; reflexivity).
  apply is_ok_Ok in Hok as [d Hd]. exists catalog_default, d.
  pose proof (document_new_spec _ _ _ _ Hd) as (_ & _ & Hk & Hp & _ & _ & _ & Habs).
  split; [right; exact (conj not_loaded Hd)|]. split.
  { unfold document_is_personal. rewrite Hk, Hp. reflexivity. }
  split; [right|split; [right|]].
  - split; [|reflexivity]. apply Habs. by apply (bool_decide_unpack _).
  - split; [|reflexivity]. apply Habs. by apply (bool_decide_unpack _).
  - split; [cbn [catalog_default rc_replicas]; rewrite map_size_empty; lia|set_solver].
Qed.

Lemma peek_at w s c : sync_at w s c → peek w = Ok (s, c).
Proof.
  intros (d & Hd & Hp & Hs). destruct (says_read _ _ _ Hp Hs) as [Hs1 Hc1]. unfold peek.
  destruct Hd as [(l & Hl & ->)|[Hl Hn]]; rewrite Hl; cbn [mbind result_bind]; [|rewrite Hn];
    cbn [mbind result_bind]; rewrite Hs1; cbn [mbind result_bind]; by rewrite Hc1.
Qed.
(** A test of what is kept. *)
Definition test (w : StoreWorker) (f : PersonalSyncState → ReplicaCatalog → bool) : bool :=
  match peek w with Ok (s, c) => f s c | Err _ => false end.
Lemma test_at w f s c : test w f = true → sync_at w s c → f s c = true.
Proof. unfold test. intros Ht Hat%peek_at. by rewrite Hat in Ht. Qed.

Definition pinned (s : PersonalSyncState) (_ : ReplicaCatalog) : bool :=
  is_ok (p ← ok_or not_configured (ps_group (ys_pairing s)); pinned_verified p).
Definition waiting (_ : PersonalSyncState) (c : ReplicaCatalog) : bool :=
  bool_decide ("item-1" ∈ rc_pending c).
Lemma tests :
  test grouped pinned = true ∧ test prepared waiting = true
  ∧ test stored (λ s c, negb (waiting s c)) = true.
Proof. split; [|split]; vm_compute; reflexivity. Qed.
Lemma results :
  (call receive empty_group).1 = Ok (SyncReply.Received ReceiveOutcome.Applied)
  ∧ (call receive received_once).1 = Ok (SyncReply.Received ReceiveOutcome.Duplicate).
Proof. split; vm_compute; reflexivity. Qed.

Lemma pinned_group s c : pinned s c = true → ∃ g, group_of s g.
Proof.
  intros [g Hg]%is_ok_Ok. apply bind_Ok in Hg as (p & Hp%ok_or_Ok & Hv). by exists g, p.
Qed.

(** Steps. *)
Lemma call_step cmd w : sync_command_made cmd → vault_step clock seeds (Some cmd) w (after cmd w).
Proof. intros Hm. split; [exact Hm|]. exists (call cmd w).1. apply surjective_pairing. Qed.
Lemma save_step w : vault_step clock seeds None w (saved w).2.
Proof. eapply edit_put; [by left|]. apply surjective_pairing. Qed.
Lemma run_grouped : vault_run clock seeds vault grouped.
Proof.
  eapply rtc_l; [by exists None; apply save_step|]. eapply rtc_l; [|constructor].
  exists (Some initialize). by apply call_step.
Qed.
Lemma run_prepared : vault_run clock seeds grouped prepared.
Proof. apply rtc_once. exists (Some SyncCommand.Prepare). by apply call_step. Qed.
Lemma run_stored : vault_run clock seeds grouped stored.
Proof. eapply rtc_r; [exact run_prepared|]. exists (Some stored_it). by apply call_step. Qed.
Lemma run_empty_group : vault_run clock seeds vault empty_group.
Proof. apply rtc_once. exists (Some initialize). by apply call_step. Qed.

(** A request of a device with a group of its own, whose consent to the merge is signed by
    nobody: it is staged, and a vault that is asked to approve it is sealed. *)
Definition invitation_in (r : VaultResult SyncReply.sync_reply) : VaultResult PairingInvitation :=
  match r with
  | Ok (SyncReply.Paired (PairingReply.Invitation i)) => Ok i
  | _ => Err not_configured
  end.
Definition invite : SyncCommand.sync_command := SyncCommand.Pairing PairingCommand.Invite.
Definition invited : StoreWorker := after invite empty_group.
Definition forged : VaultResult PairingRequest :=
  i ← invitation_in (call invite empty_group).1;
  p ← peek empty_group;
  pin ← ok_or not_configured (ps_group (ys_pairing p.1));
  target ← pinned_verified pin;
  source ← group_b;
  r ← request_group_pairing bob i target source (endpoint Byte.x02) "Phone" 100;
  r ← approve_pairing_merge bob r target;
  Ok (set_consent ((λ a, {| ma_source_controller := ma_source_controller a; ma_source := ma_source a;
    ma_target := ma_target a; ma_signer := ma_signer a; ma_signature := [] |}) <$> pr_consent r) r).
Definition asked (r : PairingRequest) : StoreWorker :=
  after (SyncCommand.Pairing (PairingCommand.Stage r)) invited.
Definition approval (r : PairingRequest) : VaultResult SyncCommand.sync_command :=
  e ← pairing_id r; Ok (SyncCommand.Pairing (PairingCommand.Approve e)).
(** The request is staged, its approval is refused, and the vault is sealed. *)
Definition sealed_by (r : PairingRequest) (cmd : SyncCommand.sync_command) : bool :=
  is_ok (call (SyncCommand.Pairing (PairingCommand.Stage r)) invited).1 && negb (w_sealed (asked r))
  && match (call cmd (asked r)).1 with Err VaultError.Signature => true | _ => false end
  && w_sealed (after cmd (asked r)).

(** What a run keeps. *)
Lemma kept w : vault_run clock seeds vault w → ∃ s c, sync_at w s c.
Proof.
  intros Hrun. destruct vault_unsynced as [c0 Hc0].
  destruct (run_outcome vault_fits clock seeds _ _ _ _ Hrun Hc0) as (_ & s & c & Hat & _); [by split_and!|].
  by exists s, c.
Qed.
End VaultDemo.
Import VaultForms SyncDemo VaultDemo.

(** The packet is applied, and is a duplicate after. *)
Lemma called w (r : VaultResult SyncReply.sync_reply) cmd : (call cmd w).1 = r → call cmd w = (r, after cmd w).
Proof. unfold after. destruct (call cmd w). by intros <-. Qed.
Lemma first_received :
  call receive empty_group = (Ok (SyncReply.Received ReceiveOutcome.Applied), received_once).
Proof. exact (called empty_group _ receive (proj1 results)). Qed.
Lemma then_received :
  call receive received_once = (Ok (SyncReply.Received ReceiveOutcome.Duplicate), received_twice).
Proof. exact (called received_once _ receive (proj2 results)). Qed.

Example stored_group_never_rolls_back_witness :
  ∃ s c g s' c' g', sync_at grouped s c ∧ group_of s g ∧ sync_at stored s' c' ∧ group_of s' g'
    ∧ (incorporated (vg_chain g') (vg_chain g)
       ∨ ∃ a b sub, rtc accepts g a ∧ accepts a b ∧ rtc accepts b g'
           ∧ incorporated (vg_chain b) sub ∧ chains_collide (vg_chain a) sub).
Proof.
  destruct (kept _ run_grouped) as (s & c & Hat).
  destruct (pinned_group s c (test_at _ _ _ _ (proj1 tests) Hat)) as [g Hg].
  destruct (stored_group_never_rolls_back vault_fits clock seeds vault grouped stored s c g vault_unsynced
    run_grouped Hat Hg run_stored) as (s' & c' & g' & Hat' & Hg' & _ & Hinc).
  exists s, c, g, s', c', g'. exact (conj Hat (conj Hg (conj Hat' (conj Hg' Hinc)))).
Defined.


Example received_packet_shown_witness :
  ∃ s c author payload v u values, sync_at empty_group s c
    ∧ packet_signed_bytes (vp_packet v) = Ok payload
    ∧ signed_by (mk_signing author) payload (pk_signature (vp_packet v))
    ∧ view_after ReceiveOutcome.Applied (pu_item_id u) values
        (worker_view empty_group LocalKeyring PERSONAL_SECRET_NAMESPACE)
        (worker_view received_once LocalKeyring PERSONAL_SECRET_NAMESPACE).
Proof.
  destruct (kept _ run_empty_group) as (s & c & Hat).
  destruct (received_packet_shown vault_fits clock seeds empty_group received_once incoming _ s c Hat
    first_received)
    as [[_ Hdup]|(m & v & author & payload & identity & u & outcome & values & r & s' & c' & _ & _ & _
      & Hpl & Hsig & _ & _ & Hrep & _ & _ & _ & _ & Hview)].
  - destruct (Hdup _ eq_refl) as [Hno _]. discriminate Hno.
  - pose proof (Hrep _ eq_refl) as Heq. injection Heq as <-.
    exists s, c, author, payload, v, u, values. exact (conj Hat (conj Hpl (conj Hsig Hview))).
Defined.

Example replayed_packet_changes_nothing_witness :
  (call receive empty_group).1 = Ok (SyncReply.Received ReceiveOutcome.Applied)
  ∧ (call receive received_once).1 = Ok (SyncReply.Received ReceiveOutcome.Duplicate)
  ∧ same_data received_once received_twice.
Proof.
  pose proof (replayed_packet_changes_nothing vault_fits clock seeds vault empty_group received_once
    received_once received_twice incoming ReceiveOutcome.Applied
    (Ok (SyncReply.Received ReceiveOutcome.Duplicate)) vault_unsynced run_empty_group) as Hrep.
  destruct (Hrep first_received (rtc_refl _ _) then_received) as [Hsame _].
  exact (conj (proj1 results) (conj (proj2 results) Hsame)).
Defined.

(** The consent of a request is not covered by its proof or signature and is not verified when
    the request is staged; its signature is first verified at the approval, whose error
    stops the worker. *)
Lemma sealed_by_spec r cmd :
  sealed_by r cmd = true →
  is_ok (call (SyncCommand.Pairing (PairingCommand.Stage r)) invited).1 = true
  ∧ w_sealed (asked r) = false ∧ (call cmd (asked r)).1 = Err VaultError.Signature
  ∧ w_sealed (after cmd (asked r)) = true.
Proof.
  unfold sealed_by. generalize (is_ok (call (SyncCommand.Pairing (PairingCommand.Stage r)) invited).1).
  generalize (w_sealed (asked r)) (call cmd (asked r)).1 (w_sealed (after cmd (asked r))).
  intros [] [x|[]] [] []; cbn; intros He; first [discriminate He|by split_and!].
Qed.
Lemma forged_sealed_by :
  match forged with
  | Ok r => match approval r with Ok cmd => sealed_by r cmd | Err _ => false end
  | Err _ => false
  end = true.
Proof. vm_compute. reflexivity. Qed.

Example forged_consent_seals_vault :
  ∃ r cmd, forged = Ok r ∧ approval r = Ok cmd
    ∧ is_ok (call (SyncCommand.Pairing (PairingCommand.Stage r)) invited).1 = true
    ∧ w_sealed (asked r) = false
    ∧ (call cmd (asked r)).1 = Err VaultError.Signature
    ∧ w_sealed (after cmd (asked r)) = true.
Proof.
  pose proof forged_sealed_by as Hrun. revert Hrun. generalize forged. intros [r|e] Hrun; [|discriminate Hrun].
  exists r. destruct (approval r) as [cmd|e]; [|discriminate Hrun]. exists cmd.
  split; [reflexivity|]. split; [reflexivity|]. exact (sealed_by_spec r cmd Hrun).
Qed.

(** ** A vault beside its spool *)

Module HostDemo.
#[export] Instance host_hex : HexDecode := λ b, Instances.hex_decode b.
#[export] Instance host_hex_ok : HexDecodeOk.
Proof.
  intros b. unfold hex_decode, host_hex. rewrite hex_text_bytes.
  induction b as [|x b IH]; [reflexivity|]. cbn [mbind list_bind app Instances.hex_decode].
  change (Byte.of_N (16 * hex_value (hex_digit (Byte.to_N x / 16)) + hex_value (hex_digit (Byte.to_N x mod 16)))
    ≫= (λ x0, Instances.hex_decode (b ≫= λ y, [hex_nibble (Byte.to_N y / 16); hex_nibble (Byte.to_N y mod 16)])%N
       ≫= λ xs, Some (x0 :: xs)) = Some (x :: b)).
  destruct (hex_byte x) as [-> _]. cbn [mbind option_bind]. by rewrite IH.
Qed.
#[export] Instance host_os : SpoolOs := {|
  spool_fault _ := None; written_before_fault _ := 0%nat; temporary_name _ := ".tmp-1";
  read_dir_order _ nodes := map_to_list nodes |}.
#[export] Instance host_os_ok : SpoolOsOk.
Proof. split; [intros n; by eexists|done]. Qed.

(** A new spool, and the vault with a live lease. *)
Definition quota : Z := 1000000.
Definition nowhere : SpoolDir := {|
  dr_exists := false; dr_is_directory := false; dr_private := false; dr_locked := false;
  dr_nodes := ∅; dr_tick := 0 |}.
Definition spool : CiphertextSpool := {| cs_quota := quota |}.
Definition directory : SpoolDir := (spool_open quota nowhere).2.
Definition host_env : Service.Environment StoreWorker := {|
  env_readings _ := (0, 20); env_seal _ := false; env_random _ := Err VaultError.Sealed;
  env_interference _ s := s |}.
Definition host (w : StoreWorker) : ServiceState StoreWorker := {|
  sv_request := {| rq_store := w; rq_valid_until := None; rq_sealed := false; rq_ticks := 0 |};
  sv_deadline := None;
  sv_lease := {| lease_idle_timeout := 600; idle_deadline := 600; absolute_deadline := 600;
                 idle_expires_at := 600; absolute_expires_at := 600 |};
  sv_replay := replay_new; sv_approvals := approvals_default; sv_granted_permissions := [];
  sv_last_purge_at := 0; sv_poisoned := false |}.
Abbreviation publication := (publish_personal_sync (H14 := worker_sync clock seeds) host_env spool 4
  (host grouped, directory)).
Abbreviation published_store := (store_of publication.2.1).
Definition incoming_dir : SpoolDir :=
  match peek empty_group with
  | Ok p => match ys_membership p.1 with
            | Some m => (spool_put spool incoming m directory).2
            | None => directory
            end
  | Err _ => directory
  end.
Abbreviation application := (apply_personal_sync (H14 := worker_sync clock seeds) host_env None 8
  (host empty_group, incoming_dir)).
Definition one_applied : SyncApplyPage := {|
  ap_applied := 1; ap_duplicates := 0; ap_conflicts := 0; ap_rejected := 0; ap_next := None |}.

Lemma publication_result : publication.1 = Ok 1.
Proof. vm_compute. reflexivity. Qed.
Lemma publication_settles : test published_store (λ s c, negb (waiting s c)) = true.
Proof. vm_compute. reflexivity. Qed.
Lemma application_result : application.1 = Ok one_applied.
Proof. vm_compute. reflexivity. Qed.
Lemma waits_before : test grouped waiting = true.
Proof. vm_compute. reflexivity. Qed.
End HostDemo.
Import HostDemo.

Lemma run_pair {A B} (m : A * B) a : m.1 = a → m = (a, m.2).
Proof. destruct m. cbn. by intros ->. Qed.
Lemma run_triple {A B C} (m : A * (B * C)) : m = (m.1, (m.2.1, m.2.2)).
Proof. by destruct m as [? []]. Qed.

Example published_items_are_spooled_witness :
  ∃ s c s' c', sync_at grouped s c ∧ sync_at published_store s' c'
    ∧ "item-1" ∈ rc_pending c ∧ "item-1" ∉ rc_pending c'
    ∧ spooled clock seeds (store_of (host grouped)) publication.2.2 "item-1".
Proof.
  destruct (kept _ run_grouped) as (s & c & Hat).
  destruct (published_items_are_spooled vault_fits clock seeds host_env vault spool 4 (host grouped) directory
    publication.1 publication.2.1 publication.2.2 s c vault_unsynced run_grouped Hat) as (_ & _ & s' & c' & Hat' & Hall).
  { exact (run_triple publication). }
  pose proof (test_at _ _ _ _ waits_before Hat) as Hin%bool_decide_eq_true.
  pose proof (test_at _ _ _ _ publication_settles Hat') as Hout%negb_true_iff%bool_decide_eq_false.
  exists s, c, s', c'. destruct (Hall "item-1") as [[Hw|[Hw _]]|Hs].
  - destruct (Hout Hw).
  - destruct (Hw Hin).
  - exact (conj Hat (conj Hat' (conj Hin (conj Hout Hs)))).
Defined.

Example applied_page_is_received_witness :
  ∃ packet s' c', sync_at (store_of application.2.1) s' c' ∧ has_receipt s' packet
    ∧ dr_nodes application.2.2 = dr_nodes incoming_dir.
Proof.
  destruct (kept _ run_empty_group) as (s & c & Hat).
  destruct (applied_page_is_received vault_fits clock seeds host_env vault None 8 (host empty_group) incoming_dir
    one_applied application.2.1 application.2.2 s c vault_unsynced run_empty_group Hat)
    as (m & listed & ids & received & rejected & s' & c' & _ & _ & _ & _ & _ & Hcount & _ & Hat' & Hall & _ & Hd).
  { rewrite <- application_result. exact (run_triple application). }
  destruct received as [|packet received]; [cbn in Hcount; lia|].
  exists packet, s', c'. exact (conj Hat' (conj (Forall_inv Hall) Hd)).
Defined.

Lemma opened_result : (spool_open quota nowhere).1 = Ok spool.
Proof. vm_compute. reflexivity. Qed.
Definition member : Membership :=
  match peek empty_group with
  | Ok p => default {| ms_group := []; ms_epoch := 0; ms_members := []; ms_digest := [] |} (ys_membership p.1)
  | Err _ => {| ms_group := []; ms_epoch := 0; ms_members := []; ms_digest := [] |}
  end.
Abbreviation put_once := (spool_put spool incoming member directory).
Lemma put_result : put_once.1 = Ok (sha256 incoming).
Proof. vm_compute. reflexivity. Qed.

Example spool_stays_within_quota_witness :
  total (dr_nodes (put_all spool directory [(incoming, member)])) ≤ quota.
Proof.
  exact (spool_stays_within_quota quota nowhere spool directory [(incoming, member)] (run_pair _ _ opened_result)).
Defined.

(** The packet is put again, and then the machine crashes. *)
Example spooled_packet_survives_witness :
  sha256 incoming = sha256 incoming
  ∧ ∃ v, (spool_get (sha256 incoming) member (put_all spool put_once.2 [(incoming, member)])).1 = Ok v
      ∧ vp_bytes v = incoming.
Proof.
  exact (spooled_packet_survives spool incoming member directory (sha256 incoming) put_once.2
    [(incoming, member)] (put_all spool put_once.2 [(incoming, member)])
    (put_all spool put_once.2 [(incoming, member)]) (run_pair put_once _ put_result) eq_refl
    (λ name n H _, H) eq_refl eq_refl).
Defined.
